(* ===== verification/_CoqProject ===== *)
-Q . S2P
Prelude.v
Bytes.v
Rows.v
Ef.v
Format.v
Receipts.v
Sha256.v
Container.v
Memtable.v
MemRecover.v
MemRead.v
Sst.v
RunFile.v
Resident.v
Postings.v
Seal.v
Window.v
Growth.v
KMerge.v
DB.v
Contents.v
Merge.v
Refine.v
DBReads.v
DBHeights.v
Frontier.v
Flat.v
Open.v
ScanPool.v
Scans.v
ScanRows.v
LatestRun.v
LatestOverlay.v
LatestView.v
Queue.v
Spans.v
Forward.v
PeerPool.v
Nibbles.v
Dirty.v
NodeFile.v
Roll.v
Leaf.v
Engine.v
Frames.v
Misc.v
Dist.v
Join.v
StateDB.v
VmState.v
Rebuild.v
VmBlock.v
Logs.v
Filters.v
