(* ===== verification/Prelude.v ===== *)
(** * epochdb: a verification development of the storage engine, the state engine, the fetcher and the commitment

    epochdb (src/) is an archival node for Avalanche chains. An executor replays
    blocks through a VM and hands every block to the store as a [BlockWrite]; the
    store keeps all of history and answers point, as-of and range reads. Blocks
    come from peers through the fetcher (src/fetch), which follows consensus and
    keeps a verified window ahead of the executor; state roots come from the
    incremental commitment (src/commit). This development models the store
    (src/store), the artifact store under it (src/dist), the latest-state layer
    (src/latest), the state engine of the VM executor (src/vmexec), the log
    queries and filters of the server (src/rpc), the fetcher's queue, window and consensus follower, and the commitment's files, which hold the
    program's own logic.

    ** How the program is put together

    A block lands in the MEMTABLE (store/mem.go): in-memory indexes whose every
    row also streams into an append-only window log, replayed after a crash. A
    full window is cut, frozen and SEALED into a level-0 RUN (store/db.go,
    store/run.go), an immutable file of three sorted tables (chain, state,
    lookup) and a footer. Every so many transactions the level-0 runs are MERGED
    into a terminal run (store/merge.go). A read descends the active window, the
    frozen one and the runs, newest first; sealing and merging run on goroutines
    beside the writer and the readers. Posting lists (store/postings.go,
    store/ef) index transactions by address and topic; containers are stored
    taken apart (store/container.go), receipts and logs as compact records
    (store/receipts.go); a flat cache (store/flat.go) stands in front of state
    reads at the head; a resident overlay (store/resident.go) keeps a remote
    run's index blocks in memory. src/latest is a second, latest-only store:
    overlays over front-coded runs with a checkpoint merge.

    Runs and manifests are artifacts of src/dist: files named by the hash of their
    content, in a spool until uploaded, local, or behind a chunk cache of a bucket.
    The newest manifest's name is published under a pointer, and a fresh node JOINS by
    walking the chain of run footers it names (store/join.go). libevm reads history
    through an overlay (store/statedb.go) and rawdb keys through an adapter over a
    small logged map (store/ethdb.go). The executor of src/vmexec keeps the latest
    state in layers of src/latest, rolls them into a new checkpoint beside execution
    (engine.go), reads them under the open block's writes (flatdb.go), and rebuilds
    the layers above the checkpoint from the store's rows after a restart (recover.go).
    Log queries and stored filters (rpc/logs.go, rpc/filters.go) are answered from the
    posting lists, the block rows and the receipts.

    In src/fetch a loop hands spans of heights to workers (window.go), a worker polls
    peers for the container at the span's top and walks its ancestors down, and
    the loop joins the answers, by parent hash, to a QUEUE in memory that the
    executor reads; a pool (fetcher.go) picks the peers. The consensus follower
    (consensus/engine.go) polls sampled validators and feeds Snowman; what it accepts
    joins the same queue at the tip. In src/commit, Roll writes the internal nodes
    of the state trie to one file from the flat rows, and Dirty keeps the nodes that
    changed since in a slab over that file.

    ** Which file models what

    - Prelude, Bytes, Rows: Go's machine integers, slices and results ([res]: a
      value, an error, a panic), byte order and fixed-width codecs, sorted rows.
    - Ef: store/ef/ef.go. Format: the key schema of store/format.go and
      SplitStateKey. Receipts: store/receipts.go. Container:
      store/container.go. Sha256: crypto/sha256.
    - Memtable, MemRecover, MemRead: store/mem.go, its recovery, its reads.
      Growth: what one [add] changes, as a fold over the block's rows.
    - Sst: pebble's sstable as the classes [SSTable] (operations) and [SSTLaws]
      (what the store relies on), with a table that keeps the laws. RunFile:
      store/run.go over that interface. Resident: the overlay of
      store/run.go and store/resident.go with its sidecar files.
    - Postings: store/postings.go. Seal, Window: writeSections of store/db.go and
      the well-formedness of windows of valid blocks.
    - KMerge, Merge: the k-way merge, span rule, verification and swap of
      store/merge.go, and seal of store/db.go.
    - DB: the shared state of store/db.go, the cut, and the point reads; Contents
      and Refine relate it to the abstract store; DBReads and DBHeights hold
      its theorems. ScanPool: scanRuns. Scans, ScanRows: the range scans.
      Frontier: store/frontier.go. Flat: store/flat.go with WriteBlock and the
      cached state read of store/statedb.go. Open: open of store/db.go and what
      a crash leaves for it.
    - LatestRun, LatestOverlay, LatestView: src/latest/run.go and view.go.
    - Frames: store/frames.go. Misc: the MiscStore of store/ethdb.go. StateDB:
      store/statedb.go and the key-value adapter of store/ethdb.go.
    - Dist: dist/dist.go and dist/upstream.go. Join: store/join.go.
    - VmState: vmexec/engine.go, flatdb.go and recover.go, and that the engine is a
      map. Rebuild: the rebuilt state against the window's rows. VmBlock: a block's
      reads and commit.
    - Logs: rpc/logs.go with the parts of rpc/tx.go and rpc/server.go it uses, over the
      store as the class [Source]. Filters: rpc/filters.go.
    - Queue, Spans, Forward: fetch/window.go (the queue; polls, seeding, the ancestor
      walk with fetch/parse.go; the loop with its workers and channels). PeerPool:
      the peer pool of fetch/fetcher.go and the validator cross-check of
      fetch/follow.go. Engine: fetch/consensus/engine.go.
    - Nibbles, NodeFile, Roll: commit/commit.go and commit/file.go. Dirty, Leaf:
      commit/dirty.go.

    State is explicit: a method is a function from the old state to a [res] of
    the new one. A method that runs under a lock is one step. What other
    goroutines may change between two accesses of a reader is a sequence of
    states [s 0, s 1, ...] linked by the step relation of Refine.v, so the
    theorems about reads quantify over every interleaving. Memtables that
    readers hold pointers to live in a heap; run lists are immutable values. The
    forward loop and the consensus follower are step functions over events, the
    answers of peers and the order of map ranges being part of the event.

    ** What the theorems show

    - Codecs: posting chunks, keys, receipts, containers, run files, sidecars
      and latest runs round-trip; malformed input is an error, with the inputs
      on which the code panics instead stated as theorems.
    - Recovery: whatever prefix of the log a crash leaves, the window of the last
      whole block comes back; and whatever a crash leaves of the whole data
      directory, [open] shows the store without the blocks at its end that were
      not whole on disk.
    - Refinement: a sealed run answers as its window did; a merged run answers as
      its inputs did; every step of the database refines an append-only store;
      point reads beside any steps never miss what was there and are exact on a
      database at rest; sealing and merging can always finish.
    - Numbers: HeightOfTx inverts the block rows and ends within 65 rounds; the
      next TxNum and height are the store's.
    - Scans: ChainRows and posting scans are exact, scanRuns is the sequential
      loop under every schedule, MergeFrontier is the state at a TxNum. A scan
      that straddles a publish can lose a window ([scan_loses_rows]).
    - Caches: the flat cache is exact at its height under racing fills and stays
      within its budget; the resident overlay is transparent.
    - src/latest: overlay, run, layered view and merge refine a finite map.
    - Fetching: the queue refines a history with a cursor; a span fetch ends with
      exactly its span when peers answer usefully; the loop loses no height and
      never goes idle while answers are exact, under every interleaving. When they
      are not, it can stop for good or panic ([forward_wedges],
      [forward_lies_stall], [forward_lies_crash]). The pool hands out a best peer.
    - Consensus: what the follower accepts is one hash-linked chain on an anchor
      that alpha of the sample named; its handlers always return. At 64
      unanswered Gets it never asks again ([engine_gets_stall]).
    - Commitment: the slab refines a map of nodes; a rolled file opens and serves
      every internal node of every trie; the leaves it leaves out are rebuilt from
      the rows with their exact storage roots.
    - Artifacts: what opens is a content of its name; the pointer codec is sound;
      retries are bounded. A join saves only a manifest whose runs link back to the
      chain root, one head name fixes the whole history, and what is published can be
      joined.
    - State adapters: accounts, slots and code read as of the end of a block, beside
      running writes, seals and merges; the misc log loses at most its end.
    - VM state: the layers are one map through writes, deletions and rolls; a block
      reads the state its writes lead to; the state rebuilt after a restart is that of
      the rows in order. A deletion at TxNum 0 is lost ([rebuild_zero_deletion]).
    - Log queries: eth_getLogs returns exactly the matching logs of the range, in order;
      the polls of a log filter together return each log once. A filter whose fromBlock
      is the word latest never returns anything ([latest_filter_silent]).
    - Frames: the decoded list rebuilds the call tree up to depth 256, beyond which
      the depth byte wraps ([frames_depth_wraps]).

    ** Fuel and bounds

    Loops over an iterator, a log or a search take a fuel argument. Results are
    stated for every fuel above a bound the theorem gives: the rows of a section
    plus one, the bytes of the log plus one, 65 for the binary search over 64-bit
    heights, the nibbles of a path plus one for a walk of the node file. The
    follower's own loops take as fuel the number of containers it knows plus one,
    and its theorem says that this is always enough. The retry loop of src/dist takes its
    nine rounds. 64- and 32-bit arithmetic wraps as written in the source; where a
    theorem asks for numbers below a limit, block heights and TxNums below 2^63
    or rows below 2^32 bytes, the limit is in the statement.

    ** What is assumed of code outside src/

    The sstable laws of Sst.v; the RLP coder, the proposervm parser, Keccak256
    (its 32-byte length) and the artifact store's naming are parameters. casfs is the
    class of Dist.v: a name is a hash, a tail gives the content's length, a file that
    opens was verified against its name, releasing only unlinks. The manifest's JSON is
    a pair of functions. Keccak256 is asked to tell the addresses and the slots of one
    window apart where state is rebuilt. The JSON decoder of request arguments is a
    parameter, and what the log queries rely on of the store are the laws of Logs.v's
    [SourceLaws]. So are trie.StackTrie and the RLP coder of src/commit (classes of Roll.v with the laws
    the roll relies on), snowman.Topological and poll.Set (classes of Engine.v: a
    poll accepts only children of the last accepted block), the ProposerVM and
    eth decoders, and the peers, who answer anything. That container names are
    hashes of bytes that hold the parent's name is a rank on names in Engine.v. File
    operations are taken to succeed except where a crash is the subject. Go
    ranges over a map in no fixed order; the store's models take ascending keys, the
    fetcher's and the slab's take the order as an argument.

    ** Not modelled, and why

    Within the store: the manifest's JSON text and its atomic save, reference
    counts of run versions, Close, the error a failed merge leaves behind, the swap of
    file handles after an upload (SyncArtifacts), the code cache and migration
    (migrate.go). Within dist: opening from the environment, the shared cache, page
    residency. Within vmexec: the EVM run itself, the state root, the directory's
    creation and manifest. Within fetch: sending, routing and timing out messages
    (fetcher.go, handler.go, probe.go, follow.go). Within commit: Dirty.Root, which
    drives the trie library over the nodes modelled here. Outside: the executor and VM
    packages drive third-party engines; the rest of rpc, grpcapi, plainhttp and the commands are
    networking, formatting and I/O around the reads modelled here. *)

From Stdlib Require Export String ZArith Lia.
From stdpp Require Export base list numbers strings gmap sorting.
Global Open Scope Z_scope.

(** ** Machine integers and Go slices *)

Declare Scope go_scope.
Delimit Scope go_scope with go.

Abbreviation bytes := (list Z).

(** A Go [byte]; a [uint32], a [uint64] and an [int] (64 bit) as the integers
    they hold. Arithmetic wraps through [u32], [u64] and [i64]. *)
Definition byte_ok (b : Z) : Prop := 0 <= b < 256.
Definition u32_ok (x : Z) : Prop := 0 <= x < 2 ^ 32.
Definition u64_ok (x : Z) : Prop := 0 <= x < 2 ^ 64.
Definition u32 (x : Z) : Z := x mod 2 ^ 32.
Definition u64 (x : Z) : Z := x mod 2 ^ 64.
Definition i64 (x : Z) : Z := (x + 2 ^ 63) mod 2 ^ 64 - 2 ^ 63.

(** Go's [len]. *)
Definition len {A} (l : list A) : Z := Z.of_nat (length l).

Global Arguments Nat.div : simpl never.
Global Arguments Nat.mul : simpl never.
Global Arguments Z.of_nat : simpl never.
Global Arguments Z.to_nat : simpl never.
Global Arguments Z.pow : simpl never.
Global Arguments Z.shiftl : simpl never.
Global Arguments Z.shiftr : simpl never.
Global Arguments Z.testbit : simpl never.
Global Arguments Nat.modulo : simpl never.

(** ** Results: a value, a returned [error], or a run-time panic *)

Inductive res (A : Type) : Type :=
| Ok (a : A)
| Err (msg : string)
| Panic.
Arguments Ok {A} a.
Arguments Err {A} msg.
Arguments Panic {A}.

Definition rbind {A B} (c : res A) (k : A -> res B) : res B :=
  match c with Ok a => k a | Err m => Err m | Panic => Panic end.

Definition rmap {A B} (f : A -> B) (c : res A) : res B := rbind c (fun a => Ok (f a)).

Notation "'let*' x := c 'in' k" := (rbind c (fun x => k))
  (at level 10, x pattern, c at level 100, k at level 200) : go_scope.
Global Open Scope go_scope.

(** [b[lo:hi]] and [b[i]] on a slice whose capacity is its length. *)
Definition slice (b : bytes) (lo hi : Z) : res bytes :=
  if (0 <=? lo) && (lo <=? hi) && (hi <=? len b)
  then Ok (take (Z.to_nat (hi - lo)) (drop (Z.to_nat lo) b))
  else Panic.

Definition slice_from (b : bytes) (lo : Z) : res bytes := slice b lo (len b).

Definition index (b : bytes) (i : Z) : res Z :=
  if (0 <=? i) && (i <? len b)
  then match b !! Z.to_nat i with Some x => Ok x | None => Panic end
  else Panic.

(** ** Hint databases and tactics *)

Create Rewrite HintDb len.
Create HintDb codec.

Lemma len_nil {A} : len (@nil A) = 0.
Proof. done. Qed.
Lemma len_cons {A} (x : A) l : len (x :: l) = 1 + len l.
Proof. unfold len; simpl; lia. Qed.
Lemma len_app {A} (l k : list A) : len (l ++ k) = len l + len k.
Proof. unfold len; rewrite length_app; lia. Qed.
Lemma len_nonneg {A} (l : list A) : 0 <= len l.
Proof. unfold len; lia. Qed.
Lemma len_replicate {A} n (x : A) : len (replicate n x) = Z.of_nat n.
Proof. unfold len; by rewrite length_replicate. Qed.
Lemma len_to_nat {A} (l : list A) : Z.to_nat (len l) = length l.
Proof. unfold len; lia. Qed.

#[export] Hint Rewrite @len_nil @len_cons @len_app @len_replicate : len.

(** [lens]: normalise lengths of slices; [lensimp] then closes with lia. *)
Ltac lens := autorewrite with len in *.
Ltac len_pos l :=
  lazymatch goal with
  | H : 0 <= len l |- _ => fail
  | _ => pose proof (len_nonneg l)
  end.
Ltac lensimp :=
  lens;
  repeat match goal with
  | l : list ?A |- _ => len_pos l
  | |- context [len ?l] => len_pos l
  end; try lia.

(** Split boolean guards of the code into their propositions. *)
Ltac bool_prop :=
  repeat match goal with
  | H : (_ && _)%bool = true |- _ => apply andb_true_iff in H as [? ?]
  | H : (_ || _)%bool = false |- _ => apply orb_false_iff in H as [? ?]
  | H : negb _ = true |- _ => apply negb_true_iff in H
  | H : negb _ = false |- _ => apply negb_false_iff in H
  | H : (_ <? _) = true |- _ => apply Z.ltb_lt in H
  | H : (_ <? _) = false |- _ => apply Z.ltb_ge in H
  | H : (_ <=? _) = true |- _ => apply Z.leb_le in H
  | H : (_ <=? _) = false |- _ => apply Z.leb_gt in H
  | H : (_ =? _) = true |- _ => apply Z.eqb_eq in H
  | H : (_ =? _) = false |- _ => apply Z.eqb_neq in H
  end.

(** Case on the next boolean test of the goal, with its proposition. *)
Ltac case_test :=
  match goal with
  | |- context [if ?b then _ else _] =>
      let E := fresh "E" in destruct b eqn:E; bool_prop
  end.

(** Decide every integer comparison of the goal, dropping impossible cases. *)
Ltac ztests :=
  repeat match goal with
  | |- context [?a <? ?b] => destruct (Z.ltb_spec a b); try lia
  | |- context [?a <=? ?b] => destruct (Z.leb_spec a b); try lia
  | |- context [?a =? ?b] => destruct (Z.eqb_spec a b); try lia
  end; cbn [andb orb negb].

Ltac deex :=
  repeat match goal with
  | H : exists _, _ |- _ => destruct H
  | H : _ /\ _ |- _ => destruct H
  end.

(** ** Machine integer lemmas *)

Lemma u64_small x : u64_ok x -> u64 x = x.
Proof. unfold u64_ok, u64; intros; by apply Z.mod_small. Qed.
Lemma u64_range x : u64_ok (u64 x).
Proof. unfold u64_ok, u64; apply Z.mod_pos_bound; lia. Qed.
Lemma u32_small x : u32_ok x -> u32 x = x.
Proof. unfold u32_ok, u32; intros; by apply Z.mod_small. Qed.
Lemma i64_small x : - 2 ^ 63 <= x < 2 ^ 63 -> i64 x = x.
Proof. unfold i64; intros; rewrite Z.mod_small; lia. Qed.
#[export] Hint Resolve u64_range : codec.

(** ** Result monad laws *)

Lemma rbind_Ok {A B} (c : res A) (k : A -> res B) b :
  rbind c k = Ok b -> exists a, c = Ok a /\ k a = Ok b.
Proof. destruct c; naive_solver. Qed.

Lemma rbind_Panic {A B} (c : res A) (k : A -> res B) :
  rbind c k = Panic -> c = Panic \/ exists a, c = Ok a /\ k a = Panic.
Proof. destruct c; simpl; [eauto|done|auto]. Qed.

Lemma rbind_assoc {A B C} (c : res A) (f : A -> res B) (g : B -> res C) :
  rbind (rbind c f) g = rbind c (fun a => rbind (f a) g).
Proof. by destruct c. Qed.

(** ** Slices of concatenations *)

Lemma slice_app a b c lo hi :
  lo = len a -> hi = lo + len b -> slice (a ++ b ++ c) lo hi = Ok b.
Proof.
  intros -> ->. unfold slice. lensimp.
  rewrite !(proj2 (Z.leb_le _ _)) by lia. simpl. f_equal.
  rewrite len_to_nat, drop_app_length.
  replace (len a + len b - len a) with (len b) by lia.
  by rewrite len_to_nat, take_app_length.
Qed.

Lemma slice_tail a b lo : lo = len a -> slice_from (a ++ b) lo = Ok b.
Proof.
  intros ->. unfold slice_from. rewrite <- (app_nil_r b) at 1.
  apply slice_app; [done|]. lensimp.
Qed.

Lemma index_app a x b i : i = len a -> index (a ++ x :: b) i = Ok x.
Proof.
  intros ->. unfold index. lensimp.
  rewrite (proj2 (Z.leb_le _ _)), (proj2 (Z.ltb_lt _ _)) by lia. simpl.
  by rewrite len_to_nat, list_lookup_middle.
Qed.

Lemma slice_Ok b lo hi s :
  slice b lo hi = Ok s -> 0 <= lo <= hi /\ hi <= len b /\ len s = hi - lo.
Proof.
  unfold slice. case_test; [|done]. intros [= <-].
  split; [lia|]. split; [lia|].
  unfold len in *. rewrite length_take, length_drop. lia.
Qed.

Lemma slice_in b lo hi : 0 <= lo -> lo <= hi -> hi <= len b -> exists s, slice b lo hi = Ok s.
Proof. intros. unfold slice. ztests. eauto. Qed.

(** A slice of a slice is a slice. *)
Lemma slice_slice b lo hi s i j :
  slice b lo hi = Ok s -> 0 <= i -> i <= j -> j <= hi - lo -> slice s i j = slice b (lo + i) (lo + j).
Proof.
  intros Hs Hi Hij Hj. pose proof (slice_Ok _ _ _ _ Hs) as (Hlo & Hhi & Hlen).
  unfold slice in *. revert Hs. ztests. intros [= <-]. ztests. f_equal.
  rewrite skipn_firstn_comm, drop_drop, take_take.
  replace (Z.to_nat lo + Z.to_nat i)%nat with (Z.to_nat (lo + i)) by lia. f_equal. lia.
Qed.

Lemma slice_shift a b lo hi : 0 <= lo -> slice (a ++ b) (len a + lo) (len a + hi) = slice b lo hi.
Proof.
  intros Hlo. unfold slice. lens. pose proof (len_nonneg a). ztests; try done. f_equal.
  replace (len a + hi - (len a + lo)) with (hi - lo) by lia. f_equal.
  rewrite Z2Nat.inj_add, len_to_nat by lia. apply drop_app_add.
Qed.

Lemma slice_empty b lo : 0 <= lo <= len b -> slice b lo lo = Ok [].
Proof. intros Hlo. unfold slice. ztests. by rewrite Z.sub_diag. Qed.

Lemma slice_join b lo mid hi x y :
  slice b lo mid = Ok x -> slice b mid hi = Ok y -> slice b lo hi = Ok (x ++ y).
Proof.
  unfold slice. case_test; [|done]. intros [= <-]. case_test; [|done]. intros [= <-]. ztests. f_equal.
  replace (Z.to_nat mid) with (Z.to_nat lo + Z.to_nat (mid - lo))%nat by lia.
  rewrite <- drop_drop.
  replace (Z.to_nat (hi - lo)) with (Z.to_nat (mid - lo) + Z.to_nat (hi - mid))%nat by lia.
  by rewrite take_take_drop.
Qed.

(** ** Option and list helpers *)

(** [sort.Search(n, f)]: the least [i] in [0, n) with [f i], or [n], computed by
    the same halving as the Go standard library. *)
Fixpoint search_loop (fuel : nat) (f : nat -> bool) (i j : nat) : nat :=
  match fuel with
  | O => i
  | S fuel =>
      if (i <? j)%nat then
        let h := ((i + j) / 2)%nat in
        if f h then search_loop fuel f i h else search_loop fuel f (S h) j
      else i
  end.

Definition sort_Search (n : nat) (f : nat -> bool) : nat := search_loop (S n) f 0 n.

(** The predicate is monotone: false then true. *)
Definition search_mono (n : nat) (f : nat -> bool) : Prop :=
  forall i j, (i <= j < n)%nat -> f i = true -> f j = true.

Lemma search_loop_spec fuel f i j n :
  (j - i < fuel)%nat -> (i <= j <= n)%nat -> search_mono n f ->
  (forall k, (k < i)%nat -> f k = false) ->
  (forall k, (j <= k < n)%nat -> f k = true) ->
  let r := search_loop fuel f i j in
  (i <= r <= j)%nat /\ (forall k, (k < r)%nat -> f k = false) /\
  (forall k, (r <= k < n)%nat -> f k = true).
Proof.
  revert i j. induction fuel as [|fuel IH]; intros i j Hf Hij Hm Hlo Hhi; simpl; [lia|].
  destruct (Nat.ltb_spec i j) as [Hlt|Hge]; [|split; [lia|]; split; [done|];
    intros; apply Hhi; lia].
  set (h := ((i + j) / 2)%nat).
  assert (Hh : (i <= h < j)%nat) by (subst h; split;
    [apply Nat.div_le_lower_bound; lia | apply Nat.Div0.div_lt_upper_bound; lia]).
  destruct (f h) eqn:Efh.
  - assert (H' : forall k, (h <= k < n)%nat -> f k = true).
    { intros k Hk. destruct (decide (k < j)%nat); [eapply (Hm h k); [lia|done]|apply Hhi; lia]. }
    pose proof (IH i h ltac:(lia) ltac:(lia) Hm Hlo H') as (? & ? & ?); split; [lia|done].
  - assert (H' : forall k, (k < S h)%nat -> f k = false).
    { intros k Hk. destruct (decide (k < i)%nat); [by apply Hlo|].
      destruct (f k) eqn:Efk; [|done].
      rewrite (Hm k h) in Efh; [done|lia|done]. }
    pose proof (IH (S h) j ltac:(lia) ltac:(lia) Hm H' Hhi) as (? & ? & ?); split; [lia|done].
Qed.

Lemma sort_Search_spec n f :
  search_mono n f ->
  (sort_Search n f <= n)%nat /\
  (forall k, (k < sort_Search n f)%nat -> f k = false) /\
  (forall k, (sort_Search n f <= k < n)%nat -> f k = true).
Proof.
  intros Hm. unfold sort_Search.
  pose proof (search_loop_spec (S n) f 0 n n ltac:(lia) ltac:(lia) Hm
    ltac:(lia) ltac:(lia)) as (? & ? & ?).
  split; [lia|done].
Qed.
