(* ===== verification/Bytes.v ===== *)
(** * The parts of Go's [bytes] and [encoding/binary] the store uses

    Byte strings are lists of integers; [bytes.Compare] is [bcmp], the one order
    every key in the program is sorted by. Fixed-width big and little endian
    integers are [bigE] and [litE], varints [append_uvarint] and [uvarint]. *)

From S2P Require Import Prelude.

(** ** bytes.Compare, bytes.Equal, bytes.HasPrefix *)

Fixpoint bcmp (a b : bytes) : comparison :=
  match a, b with
  | [], [] => Eq
  | [], _ :: _ => Lt
  | _ :: _, [] => Gt
  | x :: a', y :: b' => match x ?= y with Eq => bcmp a' b' | c => c end
  end.

Definition blt (a b : bytes) : Prop := bcmp a b = Lt.
Definition ble (a b : bytes) : Prop := bcmp a b <> Gt.
Definition bltb (a b : bytes) : bool := match bcmp a b with Lt => true | _ => false end.
Definition bleb (a b : bytes) : bool := match bcmp a b with Gt => false | _ => true end.
Definition beqb (a b : bytes) : bool := match bcmp a b with Eq => true | _ => false end.

Fixpoint has_prefix (k p : bytes) {struct p} : bool :=
  match p, k with
  | [], _ => true
  | x :: p', y :: k' => (x =? y) && has_prefix k' p'
  | _ :: _, [] => false
  end.

(** A Go string literal as its bytes. *)
Definition str (s : string) : bytes :=
  map (fun c => Z.of_nat (Ascii.nat_of_ascii c)) (String.list_ascii_of_string s).

(** ** Fixed-width integers *)

Fixpoint bigE (n : nat) (x : Z) : bytes :=
  match n with O => [] | S n' => (x / 256 ^ Z.of_nat n') mod 256 :: bigE n' x end.
Definition be_val (l : bytes) : Z := fold_left (fun n c => n * 256 + c) l 0.

Fixpoint litE (n : nat) (x : Z) : bytes :=
  match n with O => [] | S n' => x mod 256 :: litE n' (x / 256) end.
Fixpoint le_val (l : bytes) : Z :=
  match l with [] => 0 | c :: l' => c + 256 * le_val l' end.

(** [binary.BigEndian.Uint64(b)] and friends: read the first bytes of [b],
    panic when there are too few. *)
Definition be_get (n : nat) (b : bytes) : res Z :=
  if len b <? Z.of_nat n then Panic else Ok (be_val (take n b)).
Definition le_get (n : nat) (b : bytes) : res Z :=
  if len b <? Z.of_nat n then Panic else Ok (le_val (take n b)).

(** ** Varints *)

(** [binary.AppendUvarint(nil, v)]; ten groups of seven bits cover a uint64. *)
Fixpoint put_uvarint (fuel : nat) (v : Z) : bytes :=
  match fuel with
  | O => [v mod 256]
  | S fuel' =>
      if v <? 128 then [v mod 256]
      else Z.lor (v mod 256) 128 :: put_uvarint fuel' (Z.shiftr v 7)
  end.
Definition append_uvarint (v : Z) : bytes := put_uvarint 9 v.

(** [binary.Uvarint(buf)]: the value and the number of bytes read; zero or a
    negative count is the failure. *)
Fixpoint uvarint_loop (buf : bytes) (i : Z) (x s : Z) : Z * Z :=
  match buf with
  | [] => (0, 0)
  | b :: buf' =>
      if i =? 10 then (0, - (i + 1))
      else if b <? 128 then
        if (i =? 9) && (1 <? b) then (0, - (i + 1))
        else (Z.lor x (u64 (Z.shiftl b s)), i + 1)
      else uvarint_loop buf' (i + 1) (Z.lor x (u64 (Z.shiftl (Z.land b 127) s))) (s + 7)
  end.
Definition uvarint (buf : bytes) : Z * Z := uvarint_loop buf 0 0 0.

(** ** Lemmas: the order *)

Lemma bcmp_refl a : bcmp a a = Eq.
Proof. induction a as [|x a IH]; simpl; [done|]. by rewrite Z.compare_refl. Qed.

Lemma bcmp_eq a b : bcmp a b = Eq <-> a = b.
Proof.
  split; [|intros ->; apply bcmp_refl].
  revert b; induction a as [|x a IH]; intros [|y b]; simpl; try done.
  destruct (Z.compare_spec x y); try done. intros Hb. by rewrite (IH b), H.
Qed.

Lemma bcmp_antisym a b : bcmp b a = CompOpp (bcmp a b).
Proof.
  revert b; induction a as [|x a IH]; intros [|y b]; simpl; try done.
  rewrite (Z.compare_antisym x y). destruct (x ?= y); simpl; auto.
Qed.

Lemma bcmp_app p a b : bcmp (p ++ a) (p ++ b) = bcmp a b.
Proof. induction p as [|x p IH]; simpl; [done|]. by rewrite Z.compare_refl. Qed.

Lemma bcmp_app_len a b x y : length a = length b -> a <> b -> bcmp (a ++ x) (b ++ y) = bcmp a b.
Proof.
  revert b; induction a as [|c a IH]; intros [|d b] Hl Hne; simpl; try done.
  destruct (c ?= d) eqn:E; try done. apply Z.compare_eq in E as ->. apply IH; [by injection Hl|congruence].
Qed.

Lemma blt_trans a b c : blt a b -> blt b c -> blt a c.
Proof.
  unfold blt; revert b c; induction a as [|x a IH]; intros [|y b] [|z c]; simpl; try done.
  destruct (Z.compare_spec x y), (Z.compare_spec y z); try done; subst;
    intros; repeat match goal with
    | |- context [?u ?= ?v] => destruct (Z.compare_spec u v); try lia; try done
    end; eauto.
Qed.

#[global] Instance blt_strict : StrictOrder blt.
Proof.
  split; [|exact blt_trans]. intros a. unfold complement, blt. by rewrite bcmp_refl.
Qed.
#[global] Instance blt_dec a b : Decision (blt a b).
Proof. unfold blt; apply _. Defined.

Lemma ble_lteq a b : ble a b <-> blt a b \/ a = b.
Proof.
  unfold ble, blt. destruct (bcmp a b) eqn:E; split; intros Hc; try done.
  - right. by apply bcmp_eq.
  - by left.
  - destruct Hc as [Hab|Hab]; [done|]. subst. by rewrite bcmp_refl in E.
Qed.

Lemma blt_not_ge a b : blt a b <-> ~ ble b a.
Proof.
  unfold blt, ble. rewrite (bcmp_antisym a b). destruct (bcmp a b); simpl; naive_solver.
Qed.
Lemma ble_not_gt a b : ble a b <-> ~ blt b a.
Proof.
  unfold blt, ble. rewrite (bcmp_antisym a b). destruct (bcmp a b); simpl; naive_solver.
Qed.
Lemma ble_refl a : ble a a.
Proof. rewrite ble_lteq; auto. Qed.
Lemma ble_trans a b c : ble a b -> ble b c -> ble a c.
Proof.
  rewrite !ble_lteq. intros [ | ->] [ | ->]; eauto using blt_trans.
Qed.
Lemma blt_ble_trans a b c : blt a b -> ble b c -> blt a c.
Proof. rewrite ble_lteq. intros ? [ | ->]; eauto using blt_trans. Qed.
Lemma ble_blt_trans a b c : ble a b -> blt b c -> blt a c.
Proof. rewrite ble_lteq. intros [ | ->]; eauto using blt_trans. Qed.
Lemma blt_irrefl a : ~ blt a a.
Proof. unfold blt. by rewrite bcmp_refl. Qed.

Lemma bltb_spec a b : reflect (blt a b) (bltb a b).
Proof. unfold bltb, blt. destruct (bcmp a b); constructor; done. Qed.
Lemma bleb_spec a b : reflect (ble a b) (bleb a b).
Proof. unfold bleb, ble. destruct (bcmp a b); constructor; naive_solver. Qed.
Lemma beqb_spec a b : reflect (a = b) (beqb a b).
Proof.
  unfold beqb. destruct (bcmp a b) eqn:E; constructor; rewrite <- bcmp_eq, E; done.
Qed.

#[global] Instance ble_dec a b : Decision (ble a b).
Proof. unfold ble; apply _. Defined.
#[global] Instance ble_total : Total ble.
Proof.
  intros a b. destruct (decide (ble a b)); [by left|right].
  apply ble_lteq. left. by apply blt_not_ge.
Qed.
#[global] Instance ble_transitive : Transitive ble.
Proof. intros a b c; apply ble_trans. Qed.
#[global] Instance ble_antisymm : AntiSymm eq ble.
Proof.
  intros a b. rewrite !ble_lteq. intros [H|H] [H'|H']; subst; try done.
  exfalso. eapply blt_irrefl, blt_trans; eassumption.
Qed.

(** ** Lemmas: prefixes *)

Lemma has_prefix_spec k p : has_prefix k p = true <-> exists s, k = p ++ s.
Proof.
  revert k; induction p as [|x p IH]; intros k; simpl; [split; eauto|].
  destruct k as [|y k]; [split; [done|by intros (? & ?)]|].
  rewrite andb_true_iff, Z.eqb_eq, IH. split.
  - intros (-> & s & ->). by exists s.
  - intros (s & [= -> ->]). eauto.
Qed.

Lemma has_prefix_app p s : has_prefix (p ++ s) p = true.
Proof. apply has_prefix_spec; eauto. Qed.

Lemma ble_prefix p s : ble p (p ++ s).
Proof.
  rewrite ble_not_gt. unfold blt. rewrite <- (app_nil_r p) at 2. rewrite bcmp_app.
  by destruct s.
Qed.

(** ** Lemmas: fixed width *)

Lemma length_be n x : length (bigE n x) = n.
Proof. induction n; simpl; auto. Qed.
Lemma len_be n x : len (bigE n x) = Z.of_nat n.
Proof. unfold len; by rewrite length_be. Qed.
Lemma length_le n x : length (litE n x) = n.
Proof. revert x; induction n; simpl; auto. Qed.
Lemma len_le n x : len (litE n x) = Z.of_nat n.
Proof. unfold len; by rewrite length_le. Qed.
#[export] Hint Rewrite len_be len_le : len.

Lemma pow256_S n : 256 ^ Z.of_nat (S n) = 256 * 256 ^ Z.of_nat n.
Proof. rewrite Nat2Z.inj_succ, Z.pow_succ_r; lia. Qed.
Lemma pow256_pos n : 0 < 256 ^ Z.of_nat n.
Proof. apply Z.pow_pos_nonneg; lia. Qed.

Lemma be_val_acc l a :
  fold_left (fun n c => n * 256 + c) l a = a * 256 ^ len l + be_val l.
Proof.
  unfold be_val. revert a; induction l as [|c l IH]; intros a; cbn [fold_left].
  - rewrite len_nil. lia.
  - rewrite (IH (a * 256 + c)), (IH (0 * 256 + c)), len_cons, Z.pow_add_r
      by (pose proof (len_nonneg l); lia). lia.
Qed.

Lemma be_val_cons c l : be_val (c :: l) = c * 256 ^ len l + be_val l.
Proof. unfold be_val at 1. cbn [fold_left]. by rewrite be_val_acc. Qed.

Lemma be_val_be n x : be_val (bigE n x) = x mod 256 ^ Z.of_nat n.
Proof.
  induction n as [|n IH]; [simpl; by rewrite Z.mod_1_r|].
  change (bigE (S n) x) with ((x / 256 ^ Z.of_nat n) mod 256 :: bigE n x).
  rewrite be_val_cons, len_be, IH, pow256_S.
  pose proof (pow256_pos n). rewrite (Z.mul_comm 256), Z.rem_mul_r by lia. lia.
Qed.

Lemma be_val_be_small n x : 0 <= x < 256 ^ Z.of_nat n -> be_val (bigE n x) = x.
Proof. intros. rewrite be_val_be. by apply Z.mod_small. Qed.

Lemma be_get_app n x r :
  0 <= x < 256 ^ Z.of_nat n -> be_get n (bigE n x ++ r) = Ok x.
Proof.
  intros Hx. unfold be_get. lens. pose proof (len_nonneg r).
  rewrite (proj2 (Z.ltb_ge _ _)) by lia.
  rewrite take_app_le, take_ge by (rewrite length_be; lia).
  by rewrite be_val_be_small.
Qed.

Lemma le_val_le n x : le_val (litE n x) = x mod 256 ^ Z.of_nat n.
Proof.
  revert x; induction n as [|n IH]; intros x; [simpl; by rewrite Z.mod_1_r|].
  change (le_val (litE (S n) x)) with (x mod 256 + 256 * le_val (litE n (x / 256))).
  rewrite IH, pow256_S. pose proof (pow256_pos n). rewrite Z.rem_mul_r by lia. lia.
Qed.

Lemma le_get_app n x r :
  0 <= x < 256 ^ Z.of_nat n -> le_get n (litE n x ++ r) = Ok x.
Proof.
  intros Hx. unfold le_get. lens. pose proof (len_nonneg r).
  rewrite (proj2 (Z.ltb_ge _ _)) by lia.
  rewrite take_app_le, take_ge by (rewrite length_le; lia).
  rewrite le_val_le, Z.mod_small by lia. done.
Qed.

Lemma be_inj n x y :
  0 <= x < 256 ^ Z.of_nat n -> 0 <= y < 256 ^ Z.of_nat n -> bigE n x = bigE n y -> x = y.
Proof.
  intros Hx Hy E. rewrite <- (be_val_be_small n x), <- (be_val_be_small n y) by done.
  by rewrite E.
Qed.

Lemma be_mod n m x : (n <= m)%nat -> bigE n (x mod 256 ^ Z.of_nat m) = bigE n x.
Proof.
  induction n as [|n IH]; intros Hle; simpl; [done|]. rewrite IH by lia. f_equal.
  pose proof (pow256_pos n) as Hn. pose proof (pow256_pos (m - S n)) as Hk.
  replace (256 ^ Z.of_nat m) with (256 ^ Z.of_nat n * (256 * 256 ^ Z.of_nat (m - S n))).
  - rewrite Z.rem_mul_r by lia. rewrite (Z.mul_comm (256 ^ Z.of_nat n)), Z.div_add by lia.
    rewrite (Z.div_small (x mod _)) by (apply Z.mod_pos_bound; lia). rewrite Z.add_0_l.
    rewrite Z.rem_mul_r by lia. rewrite Z.mul_comm, Z.mod_add by lia. rewrite Z.mod_mod by lia. done.
  - rewrite <- (Z.pow_succ_r 256), <- Z.pow_add_r by lia. f_equal. lia.
Qed.

Lemma be_bytes n x : Forall byte_ok (bigE n x).
Proof.
  induction n; simpl; constructor; auto. unfold byte_ok. apply Z.mod_pos_bound; lia.
Qed.

(** Big-endian coding turns numeric order into byte order: this is what lets a
    sorted key range be a numeric range. *)
Lemma bcmp_be n x y :
  0 <= x < 256 ^ Z.of_nat n -> 0 <= y < 256 ^ Z.of_nat n ->
  bcmp (bigE n x) (bigE n y) = (x ?= y).
Proof.
  intros Hx Hy.
  assert (G : forall m, bcmp (bigE m x) (bigE m y) =
    (x mod 256 ^ Z.of_nat m ?= y mod 256 ^ Z.of_nat m)).
  { induction m as [|m IH]; [simpl; by rewrite !Z.mod_1_r|].
    change (bigE (S m) ?z) with ((z / 256 ^ Z.of_nat m) mod 256 :: bigE m z). simpl bcmp.
    rewrite IH, pow256_S. pose proof (pow256_pos m) as Hp.
    rewrite (Z.mul_comm 256), !Z.rem_mul_r by lia.
    set (P := 256 ^ Z.of_nat m) in *.
    pose proof (Z.mod_pos_bound x P Hp). pose proof (Z.mod_pos_bound y P Hp).
    set (a := (x / P) mod 256). set (b := (y / P) mod 256).
    destruct (Z.compare_spec a b) as [->|Hab|Hab].
    - symmetry. destruct (Z.compare_spec (x mod P) (y mod P));
      [apply Z.compare_eq_iff|apply Z.compare_lt_iff|apply Z.compare_gt_iff]; lia.
    - symmetry. apply Z.compare_lt_iff. nia.
    - symmetry. apply Z.compare_gt_iff. nia. }
  rewrite G, !Z.mod_small by lia. done.
Qed.

(** ** Lemmas: varints *)

Lemma lor_disjoint_add x y s :
  0 <= s -> 0 <= x < 2 ^ s -> Z.lor x (Z.shiftl y s) = x + y * 2 ^ s.
Proof.
  intros Hs Hx. rewrite <- Z.shiftl_mul_pow2 by lia.
  symmetry. apply Z.add_nocarry_lor. apply Z.bits_inj'. intros k Hk.
  rewrite Z.land_spec, Z.bits_0. destruct (decide (k < s)).
  - rewrite Z.shiftl_spec_low by lia. by rewrite andb_false_r.
  - rewrite <- (Z.mod_small x (2 ^ s)) by lia. by rewrite Z.mod_pow2_bits_high by lia.
Qed.

(** A property of one byte is checked by running it on all 256. *)
Lemma byte_forall (P : Z -> bool) :
  forallb P (map Z.of_nat (seq 0 256)) = true -> forall b, byte_ok b -> P b = true.
Proof.
  intros H b Hb. rewrite forallb_forall in H. apply H. apply in_map_iff.
  exists (Z.to_nat b). unfold byte_ok in Hb. split; [lia|]. apply in_seq. lia.
Qed.

Lemma land_lor_128 b : 0 <= b < 256 -> Z.land (Z.lor b 128) 127 = b mod 128 /\ 128 <= Z.lor b 128.
Proof.
  intros Hb.
  pose proof (byte_forall (fun b => (Z.land (Z.lor b 128) 127 =? b mod 128)
    && (128 <=? Z.lor b 128)) ltac:(vm_compute; reflexivity) b Hb) as E.
  cbv beta in E. bool_prop. lia.
Qed.

Lemma uvarint_loop_put fuel v i x s r :
  (fuel <= 9)%nat -> i = 9 - Z.of_nat fuel -> s = 7 * i ->
  0 <= x < 2 ^ s -> 0 <= v -> v < 2 ^ (64 - s) ->
  uvarint_loop (put_uvarint fuel v ++ r) i x s =
    (x + v * 2 ^ s, i + len (put_uvarint fuel v)).
Proof.
  revert v i x s. induction fuel as [|fuel IH]; intros v i x s Hfu Hi Hs Hx Hv Hvb; subst i s.
  - simpl in *. change (64 - 63) with 1 in Hvb. rewrite Z.mod_small by lia.
    rewrite (proj2 (Z.ltb_lt _ _)), (proj2 (Z.ltb_ge _ _)) by lia. simpl.
    rewrite u64_small; [rewrite lor_disjoint_add by lia; done|].
    rewrite Z.shiftl_mul_pow2 by lia. unfold u64_ok. lia.
  - set (i := 9 - Z.of_nat (S fuel)) in *. set (s := 7 * i) in *.
    assert (Hi : 0 <= i <= 8) by lia.
    cbn [put_uvarint]. destruct (Z.ltb_spec v 128) as [Hlt|Hge].
    + cbn [app uvarint_loop]. rewrite Z.mod_small by lia.
      rewrite (proj2 (Z.eqb_neq i 10)), (proj2 (Z.ltb_lt v 128)) by lia.
      rewrite (proj2 (Z.eqb_neq i 9)) by lia. cbn [andb].
      rewrite u64_small; [rewrite lor_disjoint_add by lia; done|].
      unfold u64_ok. rewrite Z.shiftl_mul_pow2 by lia.
      replace 64 with ((64 - s) + s) by lia. rewrite Z.pow_add_r by lia. nia.
    + assert (Hb := Z.mod_pos_bound v 256 ltac:(lia)).
      destruct (land_lor_128 (v mod 256) ltac:(lia)) as [Hl H128].
      cbn [app uvarint_loop].
      rewrite (proj2 (Z.eqb_neq i 10)), (proj2 (Z.ltb_ge _ 128)) by lia.
      rewrite Hl, Z.shiftr_div_pow2 by lia. change (2 ^ 7) with 128.
      assert (Hm : (v mod 256) mod 128 = v mod 128).
      { apply Z.mod_mod_divide. by exists 2. }
      rewrite Hm. pose proof (Z.mod_pos_bound v 128).
      assert (Hp : 2 ^ (s + 7) = 128 * 2 ^ s) by (rewrite Z.pow_add_r; lia).
      assert (Hps : 0 < 2 ^ s) by (apply Z.pow_pos_nonneg; lia).
      assert (Hu : u64 (Z.shiftl (v mod 128) s) = v mod 128 * 2 ^ s).
      { rewrite Z.shiftl_mul_pow2 by lia. apply u64_small. split; [nia|].
        apply Z.lt_le_trans with (2 ^ (s + 7)); [nia|]. apply Z.pow_le_mono_r; lia. }
      rewrite Hu, <- (Z.shiftl_mul_pow2 (v mod 128) s), lor_disjoint_add by lia.
      rewrite IH; [|lia|lia|lia|nia|apply Z.div_pos; lia|].
      * rewrite len_cons, Hp. f_equal; [|lia].
        pose proof (Z.div_mod v 128 ltac:(lia)). nia.
      * apply Z.div_lt_upper_bound; [lia|].
        replace (64 - s) with (64 - (s + 7) + 7) in Hvb by lia.
        rewrite Z.pow_add_r in Hvb by lia. lia.
Qed.

Lemma uvarint_append v r :
  u64_ok v -> uvarint (append_uvarint v ++ r) = (v, len (append_uvarint v)).
Proof.
  intros Hv. unfold uvarint, append_uvarint, u64_ok in *.
  rewrite uvarint_loop_put by (simpl; lia).
  f_equal; lia.
Qed.

Lemma append_uvarint_pos v : 0 < len (append_uvarint v).
Proof.
  unfold append_uvarint. cbn [put_uvarint].
  case_test; rewrite len_cons; match goal with |- context [len ?l] =>
    pose proof (len_nonneg l) end; lia.
Qed.

Example uvarint_vector : append_uvarint 624485 = [229; 142; 38].
Proof. reflexivity. Qed.
