(* ===== verification/Rows.v ===== *)
(** * Sorted rows

    A run, an SST section, an overlay and a merge all hold rows in strictly
    ascending bytewise key order. This file has that notion once: lookup,
    ranges, and the facts the readers' proofs share. *)

From S2P Require Import Prelude Bytes.

Abbreviation row := (bytes * bytes)%type.

(** The value of the first row with the key. *)
Fixpoint aget (l : list row) (k : bytes) : option bytes :=
  match l with
  | [] => None
  | (k', v) :: l => if beqb k k' then Some v else aget l k
  end.

Definition keys (l : list row) : list bytes := map fst l.
Definition sorted_rows (l : list row) : Prop := StronglySorted blt (keys l).

(** [lo <= k < hi], an absent bound being none. *)
Definition in_range (lo hi : option bytes) (k : bytes) : bool :=
  match lo with Some lo => bleb lo k | None => true end
  && match hi with Some hi => bltb k hi | None => true end.

Definition range (lo hi : option bytes) (l : list row) : list row :=
  List.filter (fun r => in_range lo hi r.1) l.

Lemma beqb_refl a : beqb a a = true.
Proof. unfold beqb. by rewrite bcmp_refl. Qed.
Lemma beqb_false a b : a <> b -> beqb a b = false.
Proof. destruct (beqb_spec a b); congruence. Qed.
Lemma bltb_true a b : blt a b -> bltb a b = true.
Proof. by destruct (bltb_spec a b). Qed.
Lemma bltb_false a b : ble b a -> bltb a b = false.
Proof. destruct (bltb_spec a b) as [H|]; [|done]. by rewrite blt_not_ge in H. Qed.
Lemma bleb_true a b : ble a b -> bleb a b = true.
Proof. by destruct (bleb_spec a b). Qed.
Lemma bleb_false a b : blt b a -> bleb a b = false.
Proof. destruct (bleb_spec a b); [|done]. by rewrite blt_not_ge. Qed.
Lemma blt_ne a b : blt a b -> a <> b.
Proof. intros H ->. by apply blt_irrefl in H. Qed.
Lemma blt_ble a b : blt a b -> ble a b.
Proof. rewrite ble_lteq. auto. Qed.
#[export] Hint Resolve blt_ble ble_refl blt_ne : codec.

(** Split the goal on a byte comparison the code makes. *)
Ltac case_cmp :=
  match goal with
  | |- context [beqb ?a ?b] => destruct (beqb_spec a b)
  | |- context [bltb ?a ?b] => destruct (bltb_spec a b)
  | |- context [bleb ?a ?b] => destruct (bleb_spec a b)
  end.

Lemma aget_app l1 l2 k :
  aget (l1 ++ l2) k = match aget l1 k with Some v => Some v | None => aget l2 k end.
Proof. induction l1 as [|[k' v] l1 IH]; simpl; [done|]. case_cmp; done. Qed.

Lemma aget_elem l k v : aget l k = Some v -> (k, v) ∈ l.
Proof.
  induction l as [|[k' v'] l IH]; simpl; [done|]. case_cmp; [|set_solver].
  intros [= <-]. subst. set_solver.
Qed.

Lemma aget_None l k : aget l k = None <-> k ∉ keys l.
Proof.
  induction l as [|[k' v'] l IH]; simpl; [set_solver|]. case_cmp; [set_solver|].
  rewrite IH. set_solver.
Qed.

Lemma aget_above l k : Forall (fun r => blt k r.1) l -> aget l k = None.
Proof.
  intros H. apply aget_None. intros Hin. apply list_elem_of_fmap in Hin as ([k' v] & -> & Hin).
  rewrite Forall_forall in H. specialize (H _ Hin). by apply blt_irrefl in H.
Qed.

Lemma aget_below l k : Forall (fun r => blt r.1 k) l -> aget l k = None.
Proof.
  intros H. apply aget_None. intros Hin. apply list_elem_of_fmap in Hin as ([k' v] & -> & Hin).
  rewrite Forall_forall in H. specialize (H _ Hin). by apply blt_irrefl in H.
Qed.

(** A strictly ascending list split in two. *)
Lemma sorted_app l1 l2 :
  sorted_rows (l1 ++ l2) <->
  sorted_rows l1 /\ sorted_rows l2 /\ forall x y, x ∈ l1 -> y ∈ l2 -> blt x.1 y.1.
Proof.
  unfold sorted_rows, keys. rewrite map_app. induction l1 as [|a l1 IH]; simpl.
  - split; [intros H; split_and!; [constructor|done|set_solver]|by intros (_ & ? & _)].
  - split.
    + intros H. apply StronglySorted_inv in H as [H1 H2]. apply IH in H1 as (? & ? & H3).
      rewrite Forall_app in H2. destruct H2 as [H2 H2']. split_and!; [by constructor|done|].
      intros x y [->|Hx]%elem_of_cons Hy; [|by apply H3].
      rewrite Forall_forall in H2'. apply H2'. by apply list_elem_of_fmap_2.
    + intros (H1 & H2 & H3). apply StronglySorted_inv in H1 as [H1 H1'].
      constructor; [apply IH; split_and!; [done|done|set_solver]|].
      apply Forall_app; split; [done|]. apply Forall_forall. intros y Hy.
      apply list_elem_of_fmap in Hy as (y' & -> & Hy). apply H3; [set_solver|done].
Qed.

Lemma sorted_cons r l : sorted_rows (r :: l) <-> sorted_rows l /\ Forall (fun y => blt r.1 y.1) l.
Proof.
  unfold sorted_rows, keys. simpl. split.
  - intros H. apply StronglySorted_inv in H as [H1 H2]. split; [done|]. by rewrite Forall_map in H2.
  - intros [H1 H2]. constructor; [done|]. by rewrite Forall_map.
Qed.

Lemma sorted_nil : sorted_rows [].
Proof. constructor. Qed.
#[export] Hint Resolve sorted_nil : codec.

Lemma sorted_aget l k v : sorted_rows l -> (k, v) ∈ l -> aget l k = Some v.
Proof.
  induction l as [|[k' v'] l IH]; [set_solver|]. rewrite sorted_cons. intros [Hs Hf] Hin. simpl.
  apply elem_of_cons in Hin as [[= <- <-]|Hin]; [by rewrite beqb_refl|].
  rewrite beqb_false; [by apply IH|]. rewrite Forall_forall in Hf. specialize (Hf _ Hin). simpl in Hf.
  intros ->. by apply blt_irrefl in Hf.
Qed.

(** Two ascending lists with the same lookups are the same list. *)
Lemma sorted_ext l1 l2 :
  sorted_rows l1 -> sorted_rows l2 -> (forall k, aget l1 k = aget l2 k) -> l1 = l2.
Proof.
  revert l2. induction l1 as [|[k1 v1] l1 IH]; intros [|[k2 v2] l2] H1 H2 He; try done.
  - specialize (He k2). simpl in He. by rewrite beqb_refl in He.
  - specialize (He k1). simpl in He. by rewrite beqb_refl in He.
  - apply sorted_cons in H1 as [H1 F1], H2 as [H2 F2]. simpl in F1, F2.
    assert (Hk : k1 = k2).
    { destruct (decide (blt k1 k2)) as [Hlt|Hge].
      - specialize (He k1). simpl in He. rewrite beqb_refl, beqb_false in He by auto with codec.
        rewrite aget_above in He; [done|]. eapply Forall_impl; [exact F2|]. simpl. eauto using blt_trans.
      - apply ble_not_gt, ble_lteq in Hge as [Hlt|Heq]; [|done].
        specialize (He k2). simpl in He. rewrite beqb_refl, beqb_false in He by auto with codec.
        rewrite aget_above in He; [done|]. eapply Forall_impl; [exact F1|]. simpl. eauto using blt_trans. }
    subst k2. pose proof (He k1) as Hv. simpl in Hv. rewrite beqb_refl in Hv. injection Hv as ->.
    f_equal. apply IH; [done|done|]. intros k. specialize (He k). simpl in He.
    destruct (beqb_spec k k1) as [Hk|]; [|done]. rewrite Hk. by rewrite !aget_above.
Qed.

Lemma aget_range lo hi l k :
  aget (range lo hi l) k = if in_range lo hi k then aget l k else None.
Proof.
  induction l as [|[k' v] l IH]; simpl; [by destruct in_range|].
  destruct (in_range lo hi k') eqn:E; simpl; case_cmp; subst; rewrite ?E; try done.
  by rewrite IH, E.
Qed.

Lemma sorted_filter (f : row -> bool) l : sorted_rows l -> sorted_rows (List.filter f l).
Proof.
  induction l as [|r l IH]; [done|]. rewrite sorted_cons. intros [Hs Hf]. simpl.
  destruct (f r); [|auto]. apply sorted_cons. split; [auto|]. rewrite Forall_forall in *.
  intros x Hx. apply Hf. apply list_elem_of_In, filter_In in Hx as [Hx _].
  by apply list_elem_of_In.
Qed.

(** ** Iterators

    The [Iterator] interface of latest/run.go: [it_next] is [Next] ([None] for
    false), after which [it_key] and [it_val] are the row it stands on. *)
Class Iterator (I : Type) := {
  it_next : I -> res (option I);
  it_key : I -> bytes;
  it_val : I -> bytes }.

(** What an iterator promises its client: the rows it still has to yield. *)
Inductive enumerates {I : Type} `{Iterator I} : I -> list row -> Prop :=
| en_nil it : it_next it = Ok None -> enumerates it []
| en_cons it it' l : it_next it = Ok (Some it') -> enumerates it' l ->
    enumerates it ((it_key it', it_val it') :: l).

(** Two iterators side by side. *)
#[global] Instance iterator_sum {I J : Type} `{Iterator I, Iterator J} : Iterator (I + J) := {
  it_next it := match it with
                | inl i => let* o := it_next i in Ok (inl <$> o)
                | inr j => let* o := it_next j in Ok (inr <$> o)
                end;
  it_key it := match it with inl i => it_key i | inr j => it_key j end;
  it_val it := match it with inl i => it_val i | inr j => it_val j end }.

Lemma enumerates_inl {I J : Type} `{Iterator I, Iterator J} (i : I) l :
  enumerates i l -> enumerates (inl i : I + J) l.
Proof.
  induction 1 as [it E|it it' l E _ IH]; [apply en_nil; simpl; by rewrite E|].
  change (it_key it', it_val it') with (it_key (inl it' : I + J), it_val (inl it' : I + J)).
  apply en_cons; [simpl; by rewrite E|done].
Qed.

Lemma enumerates_inr {I J : Type} `{Iterator I, Iterator J} (j : J) l :
  enumerates j l -> enumerates (inr j : I + J) l.
Proof.
  induction 1 as [it E|it it' l E _ IH]; [apply en_nil; simpl; by rewrite E|].
  change (it_key it', it_val it') with (it_key (inr it' : I + J), it_val (inr it' : I + J)).
  apply en_cons; [simpl; by rewrite E|done].
Qed.

Lemma range_lo_none lo hi l :
  Forall (fun r => ble lo r.1) l -> range (Some lo) hi l = range None hi l.
Proof.
  intros Hf. apply filter_ext_in. intros r Hr. apply list_elem_of_In in Hr.
  rewrite Forall_forall in Hf. unfold in_range. by rewrite bleb_true by auto.
Qed.

Lemma range_none lo hi l : Forall (fun r => in_range lo hi r.1 = false) l -> range lo hi l = [].
Proof. induction 1 as [|r l Hr _ IH]; [done|]. simpl. by rewrite Hr. Qed.

Lemma range_above lo hi l : Forall (fun r => ble hi r.1) l -> range lo (Some hi) l = [].
Proof.
  intros Hf. apply range_none. eapply Forall_impl; [exact Hf|]. intros r Hr. unfold in_range.
  rewrite (bltb_false r.1 hi) by done. by rewrite andb_false_r.
Qed.

Lemma range_below lo hi l : Forall (fun r => blt r.1 lo) l -> range (Some lo) hi l = [].
Proof.
  intros Hf. apply range_none. eapply Forall_impl; [exact Hf|]. intros r Hr. unfold in_range.
  by rewrite (bleb_false lo r.1) by done.
Qed.

Lemma range_app lo hi l k : range lo hi (l ++ k) = range lo hi l ++ range lo hi k.
Proof. apply List.filter_app. Qed.
Lemma range_all l : range None None l = l.
Proof. induction l as [|r l IH]; [done|]. simpl. by rewrite IH. Qed.

Lemma range_range lo hi l : range (Some lo) None (range None hi l) = range (Some lo) hi l.
Proof.
  induction l as [|r l IH]; [done|]. cbn [range List.filter]. fold (range None hi l) (range (Some lo) hi l).
  destruct (in_range None hi r.1) eqn:E; unfold in_range in *; simpl in E |- *; rewrite E, ?andb_true_r, ?andb_false_r;
    rewrite <- IH; [|done]. by destruct (bleb lo r.1).
Qed.

(** The last of the ascending rows is the greatest. *)
Lemma sorted_last l r : sorted_rows l -> last l = Some r -> Forall (fun x => ble x.1 r.1) l.
Proof.
  intros Hs [l' ->]%last_Some. apply sorted_app in Hs as (_ & _ & Hlt). apply Forall_app. split.
  - apply Forall_forall. intros x Hx. apply blt_ble, Hlt; [done|set_solver].
  - constructor; [apply ble_refl|constructor].
Qed.

Lemma sorted_unique l k v w : sorted_rows l -> (k, v) ∈ l -> (k, w) ∈ l -> v = w.
Proof. intros Hs Hv Hw. apply (sorted_aget _ _ _ Hs) in Hv, Hw. congruence. Qed.

(** The rows from a prefix on: those that have it, then those that do not. *)
Lemma prefix_front p l :
  sorted_rows l -> exists B, range (Some p) None l = List.filter (fun r => has_prefix r.1 p) l ++ B /\
    Forall (fun r => has_prefix r.1 p = false) B.
Proof.
  assert (Hsplit : forall x y, ble p x -> blt x y -> has_prefix y p = true -> has_prefix x p = true).
  { intros x y Hpx Hxy Hy. apply has_prefix_spec in Hy as [s ->]. clear -Hpx Hxy.
    revert x Hpx Hxy. unfold ble, blt. induction p as [|c p IH]; intros [|d x]; simpl; try done.
    rewrite (Z.compare_antisym c d). destruct (c ?= d) eqn:E; simpl; try done.
    apply Z.compare_eq in E as ->. rewrite Z.eqb_refl. apply IH. }
  induction l as [|r l IH]; intros Hs; [by exists []|]. pose proof Hs as Hs0.
  apply sorted_cons in Hs as [Hs Hf]. destruct (IH Hs) as (B & E & HB). cbn [range List.filter].
  fold (range (Some p) None l). unfold in_range. rewrite andb_true_r. destruct (bleb_spec p r.1) as [Hle|Hgt].
  - destruct (has_prefix r.1 p) eqn:Ep; [exists B; by rewrite E|].
    exists (r :: range (Some p) None l). rewrite E.
    assert (Hnone : List.filter (fun r => has_prefix r.1 p) l = []).
    { destruct (List.filter (fun r => has_prefix r.1 p) l) as [|x xs] eqn:Ef; [done|].
      assert (Hx : In x (List.filter (fun r => has_prefix r.1 p) l)) by (rewrite Ef; by left).
      apply filter_In in Hx as [Hx Hxp]. apply list_elem_of_In in Hx. rewrite Forall_forall in Hf.
      by rewrite (Hsplit r.1 x.1 Hle (Hf x Hx) Hxp) in Ep. }
    rewrite Hnone. split; [done|]. constructor; [done|]. done.
  - destruct (has_prefix r.1 p) eqn:Ep; [|by exists B].
    apply has_prefix_spec in Ep as [s Hr]. exfalso. apply Hgt. rewrite Hr. apply ble_prefix.
Qed.
