(* ===== verification/Ef.v ===== *)
(** * store/ef: the Elias-Fano posting chunk

    [Encode] packs a sorted list of TxNums with one small payload each, [Decode]
    reads it back. The bit writer and reader are the code's own: a byte buffer
    and a bit position. Bits are LSB first inside a byte. *)

From S2P Require Import Prelude Bytes.

Module Ef.

Definition MaxEntries : Z := 4096.

(** ** The bit writer *)

Record writer := Writer {
  wbuf : bytes;   (* buf *)
  wbits : nat;    (* bits *)
  wbase : nat;    (* base *)
  wones : nat     (* ones *)
}.

(** [w.buf[i] |= 1 << j] for an index in range. *)
Definition or_bit (buf : bytes) (i j : nat) : bytes :=
  alter (fun b => Z.lor b (Z.shiftl 1 (Z.of_nat j))) i buf.

Definition base_of (w : writer) : nat :=
  if (wbase w =? 0)%nat then length (wbuf w) else wbase w.

Definition set (w : writer) (i : nat) : writer :=
  let base := base_of w in
  let buf := wbuf w ++ replicate (base + i / 8 + 1 - length (wbuf w)) 0 in
  Writer (or_bit buf (base + i / 8) (i mod 8))
         (if (wbits w <? i + 1)%nat then i + 1 else wbits w)%nat base (wones w).

Definition pad (w : writer) (n : nat) : writer :=
  let base := base_of w in
  let buf := wbuf w ++ replicate (base + (n + 7) / 8 - length (wbuf w)) 0 in
  Writer buf (length buf * 8) base (wones w).

(** One turn of [put]'s loop; the store into [buf] panics out of range. *)
Definition put_bit (w : writer) (b : bool) : res writer :=
  let buf := if (wbits w mod 8 =? 0)%nat then wbuf w ++ [0] else wbuf w in
  if b then
    if (wbits w / 8 <? length buf)%nat
    then Ok (Writer (or_bit buf (wbits w / 8) (wbits w mod 8)) (S (wbits w)) (wbase w) (wones w))
    else Panic
  else Ok (Writer buf (S (wbits w)) (wbase w) (wones w)).

Fixpoint put_from (w : writer) (x : Z) (k nbits : nat) : res writer :=
  match nbits with
  | O => Ok w
  | S nbits' => let* w := put_bit w (Z.testbit x (Z.of_nat k)) in put_from w x (S k) nbits'
  end.
Definition put (w : writer) (x : Z) (nbits : nat) : res writer := put_from w x 0 nbits.

Fixpoint put_all (w : writer) (xs : list Z) (nbits : nat) : res writer :=
  match xs with
  | [] => Ok w
  | x :: xs' => let* w := put w x nbits in put_all w xs' nbits
  end.

(** ** Encode *)

Definition len64 (x : Z) : Z := if x =? 0 then 0 else Z.log2 x + 1.

(** The upper vector: one bit per entry at position [hi + i]. *)
Fixpoint set_uppers (w : writer) (base low : Z) (txnums : list Z) : writer :=
  match txnums with
  | [] => w
  | t :: ts =>
      let hi := Z.shiftr (u64 (t - base)) low in
      let w1 := set w (Z.to_nat hi + wones w) in
      set_uppers (Writer (wbuf w1) (wbits w1) (wbase w1) (S (wones w1))) base low ts
  end.

Definition span_of (base : Z) (txnums : list Z) : Z :=
  match last txnums with Some t => u64 (t - base) | None => 0 end.

Definition low_of (base : Z) (txnums : list Z) : Z :=
  let n := len txnums in
  if (0 <? n) && (0 <? span_of base txnums / n)
  then len64 (span_of base txnums / n) else 0.

Definition Encode (base : Z) (txnums : list Z) (payload : bytes) (payloadBits : Z) : res bytes :=
  let n := len txnums in
  let span := span_of base txnums in
  let low := low_of base txnums in
  let out := append_uvarint n ++ append_uvarint low ++ append_uvarint (u64 payloadBits) in
  let upperLen := Z.to_nat (Z.shiftr span low + n) in
  let w := set_uppers (Writer out 0 0 0) base low txnums in
  let w := pad w upperLen in
  let* w := put_all w (map (fun t => Z.land (u64 (t - base)) (u64 (u64 (Z.shiftl 1 low) - 1))) txnums)
              (Z.to_nat low) in
  if 0 <? payloadBits then
    if len payload <? n then Panic
    else let* w := put_all w (take (length txnums) payload) (Z.to_nat payloadBits) in Ok (wbuf w)
  else Ok (wbuf w).

(** ** The bit reader and Decode *)

Record reader := Reader { rbuf : bytes; rbit : nat }.

Definition next (r : reader) : option (bool * reader) :=
  match rbuf r !! (rbit r / 8)%nat with
  | None => None
  | Some b => Some (Z.testbit b (Z.of_nat (rbit r mod 8)), Reader (rbuf r) (S (rbit r)))
  end.

Fixpoint get_from (r : reader) (x : Z) (k nbits : nat) : option (Z * reader) :=
  match nbits with
  | O => Some (x, r)
  | S nbits' =>
      match next r with
      | None => None
      | Some (b, r') => get_from r' (if b then Z.lor x (u64 (Z.shiftl 1 (Z.of_nat k))) else x) (S k) nbits'
      end
  end.
(** [nbits] is an [int]: a count at or below zero reads nothing. *)
Definition get (r : reader) (nbits : Z) : option (Z * reader) := get_from r 0 0 (Z.to_nat nbits).

Definition errCorrupt : string := "ef: corrupt chunk".

(** Skip zeros to the next one bit. Every turn reads a bit, so the buffer's bit
    count bounds the turns. *)
Fixpoint skip (fuel : nat) (r : reader) (hi : Z) : res (Z * reader) :=
  match next r with
  | None => Err errCorrupt
  | Some (true, r') => Ok (hi, r')
  | Some (false, r') =>
      match fuel with O => Err errCorrupt | S fuel' => skip fuel' r' (u64 (hi + 1)) end
  end.

Fixpoint read_uppers (r : reader) (hi : Z) (n : nat) : res (list Z * reader) :=
  match n with
  | O => Ok ([], r)
  | S n' =>
      let* (hi, r) := skip (8 * length (rbuf r)) r hi in
      let* (hs, r) := read_uppers r hi n' in Ok (hi :: hs, r)
  end.

(** [x << low] with a signed shift count. *)
Definition shl (x low : Z) : res Z := if low <? 0 then Panic else Ok (u64 (Z.shiftl x low)).

Fixpoint read_lowers (r : reader) (base low : Z) (his : list Z) : res (list Z * reader) :=
  match his with
  | [] => Ok ([], r)
  | h :: hs =>
      match get r low with
      | None => Err errCorrupt
      | Some (lo, r) =>
          let* s := shl h low in
          let* (ts, r) := read_lowers r base low hs in
          Ok (u64 (base + s + lo) :: ts, r)
      end
  end.

Fixpoint read_payload (r : reader) (pb : Z) (n : nat) : res (bytes * reader) :=
  match n with
  | O => Ok ([], r)
  | S n' =>
      match get r pb with
      | None => Err errCorrupt
      | Some (p, r) => let* (ps, r) := read_payload r pb n' in Ok (p mod 256 :: ps, r)
      end
  end.

Definition next_uvarint (v : bytes) (pos : Z) : res (Z * Z) :=
  let* rest := slice_from v pos in
  let '(x, k) := uvarint rest in
  if k <=? 0 then Err errCorrupt else Ok (x, pos + k).

Definition Decode (base : Z) (v : bytes) : res (list Z * option bytes) :=
  let* (n64, pos) := next_uvarint v 0 in
  let* (low64, pos) := next_uvarint v pos in
  let* (pb64, pos) := next_uvarint v pos in
  let n := i64 n64 in let low := i64 low64 in let pb := i64 pb64 in
  if (MaxEntries <? n) || (64 <? low) || (8 <? pb) then Err errCorrupt
  else if n <? 0 then Panic (* make([]uint64, n) *)
  else
    let* (his, r) := read_uppers (Reader v (Z.to_nat pos * 8)) 0 (Z.to_nat n) in
    let r := Reader (rbuf r) ((rbit r + 7) / 8 * 8)%nat in
    let* (txnums, r) := read_lowers r base low his in
    if 0 <? pb then
      let* (payload, _) := read_payload r pb (Z.to_nat n) in Ok (txnums, Some payload)
    else Ok (txnums, None).

(** ** The bit view of a buffer *)

Definition byte_bits (b : Z) : list bool := map (fun k => Z.testbit b (Z.of_nat k)) (seq 0 8).
Definition bits_of (l : bytes) : list bool := concat (map byte_bits l).
Definition num_bits (x : Z) (nbits : nat) : list bool :=
  map (fun k => Z.testbit x (Z.of_nat k)) (seq 0 nbits).

Lemma length_byte_bits b : length (byte_bits b) = 8%nat.
Proof. done. Qed.

Lemma bits_of_app a b : bits_of (a ++ b) = bits_of a ++ bits_of b.
Proof. unfold bits_of. by rewrite map_app, concat_app. Qed.

Lemma bits_of_cons b l : bits_of (b :: l) = byte_bits b ++ bits_of l.
Proof. done. Qed.

Lemma length_bits_of l : length (bits_of l) = (8 * length l)%nat.
Proof.
  induction l as [|b l IH]; [done|]. rewrite bits_of_cons, length_app, IH, length_byte_bits.
  simpl. lia.
Qed.

Lemma bits_of_zeros n : bits_of (replicate n 0) = replicate (8 * n) false.
Proof.
  induction n as [|n IH]; [done|]. change (replicate (S n) 0) with ([0] ++ replicate n 0).
  rewrite bits_of_app, IH. change (bits_of [0]) with (replicate 8 false).
  rewrite <- replicate_add. f_equal. lia.
Qed.

Lemma lookup_bits_of l p :
  bits_of l !! p = (fun b => Z.testbit b (Z.of_nat (p mod 8))) <$> l !! (p / 8)%nat.
Proof.
  revert p; induction l as [|b l IH]; intros p; [by destruct p|].
  rewrite bits_of_cons. destruct (decide (p < 8)%nat) as [Hlt|Hge].
  - rewrite lookup_app_l by done. rewrite Nat.div_small, Nat.mod_small by lia. simpl.
    unfold byte_bits. rewrite list_lookup_fmap, lookup_seq_lt by lia. done.
  - rewrite lookup_app_r by (rewrite length_byte_bits; lia).
    rewrite length_byte_bits, IH.
    assert (Hq : p = ((p - 8) + 1 * 8)%nat) by lia.
    generalize dependent (p - 8)%nat. intros q ->.
    rewrite Nat.Div0.mod_add, Nat.div_add, Nat.add_1_r by lia. done.
Qed.

Lemma testbit_one_ne d : d <> 0 -> Z.testbit 1 d = false.
Proof.
  intros Hd. destruct (decide (d < 0)); [by apply Z.testbit_neg_r|].
  apply Z.bits_above_log2; simpl; lia.
Qed.

Lemma bits_of_or_bit l i j :
  (i < length l)%nat -> (j < 8)%nat ->
  bits_of (or_bit l i j) = <[(8 * i + j)%nat := true]> (bits_of l).
Proof.
  intros Hi Hj. apply list_eq. intros p.
  destruct (decide (p < 8 * length l)%nat) as [Hp|Hp].
  2: { rewrite !lookup_ge_None_2; [done|rewrite length_insert, length_bits_of; lia|].
       unfold or_bit; rewrite length_bits_of, length_alter; lia. }
  rewrite lookup_bits_of. unfold or_bit.
  destruct (decide (p / 8 = i)%nat) as [Hpi|Hpi].
  - rewrite Hpi, list_lookup_alter_eq.
    destruct (lookup_lt_is_Some_2 l i Hi) as [b Hb]. rewrite Hb. simpl.
    rewrite Z.lor_spec, Z.shiftl_spec by lia.
    assert (Hpm : (p = 8 * i + p mod 8)%nat) by (pose proof (Nat.div_mod_eq p 8); lia).
    destruct (decide (p mod 8 = j)%nat) as [Hm|Hm].
    + subst j. rewrite Z.sub_diag, orb_true_r, <- Hpm.
      rewrite list_lookup_insert_eq; [done|]. rewrite length_bits_of; lia.
    + rewrite list_lookup_insert_ne by lia. rewrite lookup_bits_of, Hpi, Hb. simpl.
      rewrite testbit_one_ne by lia. by rewrite orb_false_r.
  - rewrite list_lookup_alter_ne by done.
    rewrite list_lookup_insert_ne; [by rewrite lookup_bits_of|].
    intros <-. apply Hpi. rewrite Nat.mul_comm, Nat.div_add_l, Nat.div_small by lia. lia.
Qed.


(** ** Writing, seen as bits *)

(** The writer holds exactly [pre], zero padded to a byte boundary. *)
Definition wrep (w : writer) (pre : list bool) : Prop :=
  wbits w = length pre /\
  exists k, (k < 8)%nat /\ bits_of (wbuf w) = pre ++ replicate k false.

Lemma insert_zeros pre (p K : nat) :
  (p < K)%nat ->
  <[(length pre + p)%nat := true]> (pre ++ replicate K false) =
  pre ++ replicate p false ++ [true] ++ replicate (K - p - 1) false.
Proof.
  intros Hp. rewrite insert_app_r. f_equal.
  replace K with (p + S (K - p - 1))%nat at 1 by lia.
  rewrite replicate_add. rewrite <- (Nat.add_0_r p) at 1.
  rewrite <- (length_replicate p false) at 1. by rewrite insert_app_r.
Qed.

Lemma put_bit_spec w pre b :
  wrep w pre -> exists w', put_bit w b = Ok w' /\ wrep w' (pre ++ [b]).
Proof.
  intros (Hb & k & Hk & Hbits). unfold put_bit.
  assert (Hlen : (8 * length (wbuf w) = length pre + k)%nat).
  { rewrite <- length_bits_of, Hbits, length_app, length_replicate. done. }
  rewrite Hb. set (buf := if (length pre mod 8 =? 0)%nat then wbuf w ++ [0] else wbuf w).
  assert (Hbuf : exists k', (k' < 8)%nat /\ bits_of buf = pre ++ replicate (S k') false).
  { subst buf. destruct (Nat.eqb_spec (length pre mod 8) 0) as [H0|H0].
    - assert (k = 0)%nat as -> by (pose proof (Nat.div_mod_eq (length pre) 8); lia).
      exists 7%nat. split; [lia|]. rewrite bits_of_app, Hbits, app_nil_r. done.
    - destruct k as [|k]; [|exists k; split; [lia|done]].
      exfalso. apply H0. replace (length pre) with (length (wbuf w) * 8)%nat by lia.
      apply Nat.Div0.mod_mul. }
  destruct Hbuf as (k' & Hk' & Hbuf).
  assert (Hlb : (8 * length buf = length pre + S k')%nat).
  { rewrite <- length_bits_of, Hbuf, length_app, length_replicate. done. }
  destruct b.
  - assert (Hlt : (length pre / 8 < length buf)%nat)
      by (apply Nat.Div0.div_lt_upper_bound; lia).
    rewrite (proj2 (Nat.ltb_lt _ _) Hlt). eexists; split; [done|].
    split; simpl; [rewrite length_app; simpl; lia|]. exists k'; split; [done|].
    rewrite bits_of_or_bit by (try apply Nat.mod_upper_bound; lia).
    rewrite <- Nat.div_mod_eq, Hbuf, <- (Nat.add_0_r (length pre)), insert_zeros by lia.
    simpl. rewrite Nat.sub_0_r, <- app_assoc. done.
  - eexists; split; [done|]. split; simpl; [rewrite length_app; simpl; lia|].
    exists k'; split; [done|]. by rewrite Hbuf, <- app_assoc.
Qed.

Lemma put_from_spec x nbits : forall w pre k,
  wrep w pre -> exists w', put_from w x k nbits = Ok w' /\
    wrep w' (pre ++ map (fun j => Z.testbit x (Z.of_nat j)) (seq k nbits)).
Proof.
  induction nbits as [|nbits IH]; intros w pre k Hw; simpl.
  - exists w. by rewrite app_nil_r.
  - destruct (put_bit_spec w pre (Z.testbit x (Z.of_nat k)) Hw) as (w1 & -> & Hw1). simpl.
    destruct (IH w1 _ (S k) Hw1) as (w2 & -> & Hw2). exists w2. split; [done|].
    by rewrite <- app_assoc in Hw2.
Qed.

Lemma put_all_spec xs nbits : forall w pre,
  wrep w pre -> exists w', put_all w xs nbits = Ok w' /\
    wrep w' (pre ++ concat (map (fun x => num_bits x nbits) xs)).
Proof.
  induction xs as [|x xs IH]; intros w pre Hw; simpl.
  - exists w. by rewrite app_nil_r.
  - destruct (put_from_spec x nbits w pre 0 Hw) as (w1 & E & Hw1).
    unfold put. rewrite E. simpl. destruct (IH w1 _ Hw1) as (w2 & -> & Hw2).
    exists w2. split; [done|]. by rewrite <- app_assoc in Hw2.
Qed.

(** The unary upper vector of a nondecreasing list of high parts. *)
Fixpoint unary (prev : Z) (his : list Z) : list bool :=
  match his with
  | [] => []
  | h :: hs => replicate (Z.to_nat (h - prev)) false ++ [true] ++ unary h hs
  end.

Fixpoint nondecr (prev : Z) (l : list Z) : Prop :=
  match l with [] => True | x :: l' => prev <= x /\ nondecr x l' end.

Lemma nondecr_last prev l : nondecr prev l -> prev <= default prev (last l).
Proof.
  revert prev; induction l as [|x l IH]; intros prev Hn; [simpl; lia|].
  destruct Hn as [? Hn]. specialize (IH x Hn). rewrite last_cons.
  destruct (last l); simpl in *; lia.
Qed.

Lemma length_unary prev his :
  nondecr prev his ->
  length (unary prev his) = (Z.to_nat (default prev (last his) - prev) + length his)%nat.
Proof.
  revert prev; induction his as [|h hs IH]; intros prev Hn; [simpl; lia|].
  destruct Hn as [? Hn]. simpl. rewrite length_app, length_replicate. simpl.
  rewrite (IH h Hn), last_cons. pose proof (nondecr_last h hs Hn).
  destruct (last hs); simpl in *; lia.
Qed.

Section Uppers.
Context (H : bytes).

  (** The header [H] is written and the upper vector so far is [pre]. *)
Definition uw (w : writer) (pre : list bool) : Prop :=
    base_of w = length H /\
    exists k, (k < 8)%nat /\ bits_of (wbuf w) = bits_of H ++ pre ++ replicate k false.

Lemma uw_length w pre : uw w pre ->
    exists k, (k < 8)%nat /\ (8 * length (wbuf w) = 8 * length H + length pre + k)%nat.
Proof.
    intros (_ & k & Hk & E). exists k. split; [done|].
    rewrite <- !length_bits_of, E, !length_app, length_replicate. lia.
Qed.

Lemma set_spec w pre i :
    (0 < length H)%nat -> uw w pre -> (length pre <= i)%nat ->
    uw (set w i) (pre ++ replicate (i - length pre) false ++ [true]).
Proof.
    intros HH Hw Hi. destruct (uw_length w pre Hw) as (k & Hk & Hlen).
    destruct Hw as (Hbase & k' & Hk' & Hbits).
    assert (k' = k) as ->.
    { apply (f_equal length) in Hbits.
      rewrite !length_app, !length_bits_of, length_replicate in Hbits. lia. }
    unfold set. rewrite Hbase. set (e := (length H + i / 8 + 1 - length (wbuf w))%nat).
    split.
    { unfold base_of. simpl. destruct (Nat.eqb_spec (length H) 0); [lia|done]. }
    simpl. pose proof (Nat.div_mod_eq i 8) as Hdm.
    pose proof (Nat.mod_upper_bound i 8 ltac:(lia)) as Hm.
    assert (Hblen : length (wbuf w ++ replicate e 0) = (length (wbuf w) + e)%nat)
      by (rewrite length_app, length_replicate; done).
    rewrite bits_of_or_bit by lia.
    rewrite bits_of_app, bits_of_zeros, Hbits, <- !app_assoc, <- replicate_add, app_assoc.
    replace (8 * (length H + i / 8) + i mod 8)%nat
      with (length (bits_of H ++ pre) + (i - length pre))%nat
      by (rewrite length_app, length_bits_of; lia).
    rewrite insert_zeros by lia.
    exists (k + 8 * e - (i - length pre) - 1)%nat. split; [lia|].
    by rewrite <- !app_assoc.
Qed.

Lemma set_uppers_spec base low ts : forall w prev pre,
    (0 < length H)%nat -> 0 <= prev -> uw w pre ->
    length pre = (Z.to_nat prev + wones w)%nat ->
    nondecr prev (map (fun t => Z.shiftr (u64 (t - base)) low) ts) ->
    uw (set_uppers w base low ts)
       (pre ++ unary prev (map (fun t => Z.shiftr (u64 (t - base)) low) ts)).
Proof.
    induction ts as [|t ts IH]; intros w prev pre HH Hprev Hw Hlen Hn; simpl.
    - by rewrite app_nil_r.
    - destruct Hn as [Hp Hn]. set (h := Z.shiftr (u64 (t - base)) low) in *.
      assert (Hs := set_spec w pre (Z.to_nat h + wones w) HH Hw ltac:(lia)).
      replace (Z.to_nat h + wones w - length pre)%nat with (Z.to_nat (h - prev)) in Hs by lia.
      set (w1 := set w _) in *.
      match goal with |- uw _ (pre ++ ?z ++ true :: ?u) =>
        replace (pre ++ z ++ true :: u) with ((pre ++ z ++ [true]) ++ u)
          by (by rewrite <- !app_assoc) end.
      apply IH; [done|lia|exact Hs| |done].
      rewrite !length_app, length_replicate. simpl. lia.
Qed.

Lemma pad_spec w pre :
    (0 < length H)%nat -> uw w pre ->
    wrep (pad w (length pre))
         (bits_of H ++ pre ++ replicate ((length pre + 7) / 8 * 8 - length pre) false).
Proof.
    intros HH Hw. destruct (uw_length w pre Hw) as (k & Hk & Hlen).
    destruct Hw as (Hbase & k' & Hk' & Hbits).
    unfold pad. rewrite Hbase.
    pose proof (Nat.div_mod_eq (length pre + 7) 8).
    pose proof (Nat.mod_upper_bound (length pre + 7) 8 ltac:(lia)).
    replace (length H + (length pre + 7) / 8 - length (wbuf w))%nat with 0%nat by lia.
    simpl. rewrite app_nil_r. split; simpl.
    - rewrite !length_app, length_bits_of, length_replicate. lia.
    - exists 0%nat. split; [lia|]. rewrite app_nil_r, Hbits. f_equal. f_equal. f_equal.
      apply (f_equal length) in Hbits.
      rewrite !length_app, !length_bits_of, length_replicate in Hbits. lia.
Qed.
End Uppers.

(** ** Reading, seen as bits *)

Definition rview (r : reader) : list bool := drop (rbit r) (bits_of (rbuf r)).
Definition adv (r : reader) (n : nat) : reader := Reader (rbuf r) (rbit r + n).

Lemma rview_adv r a b : rview r = a ++ b -> rview (adv r (length a)) = b.
Proof.
  unfold rview, adv. simpl. intros E. rewrite <- drop_drop, E. by rewrite drop_app_length.
Qed.

Lemma next_spec r b t : rview r = b :: t -> next r = Some (b, adv r 1).
Proof.
  unfold rview, next, adv. intros E.
  assert (Hl : bits_of (rbuf r) !! rbit r = Some b).
  { rewrite <- (Nat.add_0_r (rbit r)), <- lookup_drop, E. done. }
  rewrite lookup_bits_of in Hl. destruct (rbuf r !! (rbit r / 8)%nat); [|done].
  simpl in Hl. injection Hl as ->. by rewrite Nat.add_1_r.
Qed.

Lemma adv_adv r a b : adv (adv r a) b = adv r (a + b).
Proof. unfold adv. simpl. f_equal. lia. Qed.

Lemma skip_spec n : forall fuel r hi t,
  rview r = replicate n false ++ true :: t ->
  (n <= fuel)%nat -> 0 <= hi -> hi + Z.of_nat n < 2 ^ 64 ->
  skip fuel r hi = Ok (hi + Z.of_nat n, adv r (n + 1)).
Proof.
  induction n as [|n IH]; intros fuel r hi t E Hf Hh Hb.
  - destruct fuel; simpl; rewrite (next_spec r true t E); do 2 f_equal; lia.
  - destruct fuel as [|fuel]; [lia|]. simpl in E. simpl.
    rewrite (next_spec r false _ E). rewrite u64_small by (unfold u64_ok; lia).
    replace (hi + Z.of_nat (S n)) with (hi + 1 + Z.of_nat n) by lia.
    replace (adv r (S (n + 1))) with (adv (adv r 1) (n + 1)) by (rewrite adv_adv; f_equal; lia).
    apply (IH fuel (adv r 1) (hi + 1) t); [|lia|lia|lia].
    apply (rview_adv r [false]). exact E.
Qed.

Lemma read_uppers_spec his : forall r prev t,
  rview r = unary prev his ++ t -> nondecr prev his -> 0 <= prev ->
  Forall (fun h => h < 2 ^ 64) his ->
  read_uppers r prev (length his) = Ok (his, adv r (length (unary prev his))).
Proof.
  induction his as [|h hs IH]; intros r prev t E Hn Hp Hb; simpl.
  - unfold adv. rewrite Nat.add_0_r. by destruct r.
  - destruct Hn as [Hh Hn]. apply Forall_cons in Hb as [Hb Hbs]. simpl in E.
    rewrite <- !app_assoc in E. simpl in E.
    rewrite (skip_spec (Z.to_nat (h - prev)) _ r prev (unary h hs ++ t)); [|done| |lia|lia].
    + simpl. replace (prev + Z.of_nat (Z.to_nat (h - prev))) with h by lia.
      rewrite (IH (adv r (Z.to_nat (h - prev) + 1)) h t); [|  |done|lia|done].
      * simpl. rewrite adv_adv, length_app, length_replicate. simpl. do 3 f_equal. lia.
      * replace (Z.to_nat (h - prev) + 1)%nat with
          (length (replicate (Z.to_nat (h - prev)) false ++ [true]))
          by (rewrite length_app, length_replicate; done).
        apply rview_adv. by rewrite <- app_assoc.
    + assert (length (rview r) <= 8 * length (rbuf r))%nat
        by (unfold rview; rewrite length_drop, length_bits_of; lia).
      rewrite E, length_app, length_replicate in *. simpl in *. lia.
Qed.

Lemma get_from_spec x nbits : forall r acc k t,
  rview r = map (fun j => Z.testbit x (Z.of_nat j)) (seq k nbits) ++ t ->
  acc = x mod 2 ^ Z.of_nat k -> (k + nbits <= 64)%nat ->
  get_from r acc k nbits = Some (x mod 2 ^ Z.of_nat (k + nbits), adv r nbits).
Proof.
  induction nbits as [|nbits IH]; intros r acc k t E Hacc Hk; simpl.
  - rewrite Nat.add_0_r. unfold adv. rewrite Nat.add_0_r, Hacc. by destruct r.
  - simpl in E. rewrite (next_spec r _ _ E).
    replace (k + S nbits)%nat with (S k + nbits)%nat by lia.
    replace (adv r (S nbits)) with (adv (adv r 1) nbits) by (rewrite adv_adv; f_equal; lia).
    apply (IH (adv r 1) _ (S k) t); [| |lia].
    + apply (rview_adv r [Z.testbit x (Z.of_nat k)]). exact E.
    + rewrite Nat2Z.inj_succ. apply Z.bits_inj'. intros m Hm. subst acc.
      set (K := Z.of_nat k). rewrite Z.shiftl_1_l.
      rewrite u64_small by (unfold u64_ok; split; [lia|]; apply Z.pow_lt_mono_r; lia).
      destruct (decide (m = K)) as [->|HmK].
      * rewrite Z.mod_pow2_bits_low by lia.
        destruct (Z.testbit x K) eqn:EK; [|by rewrite Z.mod_pow2_bits_high by lia].
        rewrite Z.lor_spec, Z.pow2_bits_true, orb_true_r by lia. done.
      * assert (Z.testbit (if Z.testbit x K then Z.lor (x mod 2 ^ K) (2 ^ K) else x mod 2 ^ K) m
                = Z.testbit (x mod 2 ^ K) m) as ->.
        { destruct (Z.testbit x K); [|done].
          rewrite Z.lor_spec, Z.pow2_bits_false, orb_false_r by lia. done. }
        destruct (decide (m < K)).
        { rewrite !Z.mod_pow2_bits_low by lia. done. }
        { rewrite !Z.mod_pow2_bits_high by lia. done. }
Qed.

Lemma length_num_bits x n : length (num_bits x n) = n.
Proof. unfold num_bits. by rewrite length_map, length_seq. Qed.

Lemma get_spec r x nbits t :
  rview r = num_bits x nbits ++ t -> (nbits <= 64)%nat -> 0 <= x < 2 ^ Z.of_nat nbits ->
  get r (Z.of_nat nbits) = Some (x, adv r nbits).
Proof.
  intros E Hn Hx. unfold get. rewrite Nat2Z.id.
  rewrite (get_from_spec x nbits r 0 0 t E); [|by rewrite Z.mod_1_r|lia].
  simpl. rewrite Z.mod_small by lia. done.
Qed.

Lemma length_concat_num_bits n xs :
  length (concat (map (fun x => num_bits x n) xs)) = (n * length xs)%nat.
Proof.
  induction xs as [|x xs IH]; simpl; [lia|].
  rewrite length_app, length_num_bits, IH. lia.
Qed.

Lemma rview_adv_num r x n t :
  rview r = num_bits x n ++ t -> rview (adv r n) = t.
Proof. intros E. rewrite <- (length_num_bits x n). by apply rview_adv. Qed.

Lemma read_lowers_spec base low his los : forall r t,
  rview r = concat (map (fun x => num_bits x (Z.to_nat low)) los) ++ t ->
  length his = length los -> 0 <= low <= 64 ->
  Forall (fun lo => 0 <= lo < 2 ^ low) los ->
  read_lowers r base low his =
    Ok (zip_with (fun h lo => u64 (base + u64 (Z.shiftl h low) + lo)) his los,
        adv r (Z.to_nat low * length los)).
Proof.
  revert los; induction his as [|h hs IH]; intros [|lo los] r t E Hl Hlow Hb; try done.
  - simpl. rewrite Nat.mul_0_r. unfold adv. rewrite Nat.add_0_r. by destruct r.
  - apply Forall_cons in Hb as [Hlo Hb]. simpl in E. rewrite <- app_assoc in E.
    simpl. rewrite <- (Z2Nat.id low) at 1 by lia.
    rewrite (get_spec r lo (Z.to_nat low) _ E) by (rewrite ?Z2Nat.id; lia).
    unfold shl. rewrite (proj2 (Z.ltb_ge _ _)) by lia. simpl.
    rewrite (IH los (adv r (Z.to_nat low)) t); [|by eapply rview_adv_num|simpl in Hl; lia|lia|done].
    simpl. rewrite adv_adv. do 3 f_equal. lia.
Qed.

Lemma read_payload_spec pb ps : forall r t,
  rview r = concat (map (fun x => num_bits x (Z.to_nat pb)) ps) ++ t ->
  0 <= pb <= 8 -> Forall (fun p => 0 <= p < 2 ^ pb) ps ->
  read_payload r pb (length ps) = Ok (ps, adv r (Z.to_nat pb * length ps)).
Proof.
  induction ps as [|p ps IH]; intros r t E Hpb Hb; simpl.
  - rewrite Nat.mul_0_r. unfold adv. rewrite Nat.add_0_r. by destruct r.
  - apply Forall_cons in Hb as [Hp Hb]. simpl in E. rewrite <- app_assoc in E.
    rewrite <- (Z2Nat.id pb) at 1 by lia.
    rewrite (get_spec r p (Z.to_nat pb) _ E) by (rewrite ?Z2Nat.id; lia).
    rewrite (IH (adv r (Z.to_nat pb)) t); [|by eapply rview_adv_num|lia|done].
    assert (2 ^ pb <= 2 ^ 8) by (apply Z.pow_le_mono_r; lia).
    simpl. rewrite adv_adv, Z.mod_small by lia. do 3 f_equal. lia.
Qed.

(** ** The split of a TxNum into high and low parts *)

Lemma low_of_bounds base txnums : 0 <= low_of base txnums <= 64.
Proof.
  unfold low_of. case_test; [|lia]. unfold len64. case_test; [lia|].
  set (q := span_of base txnums / len txnums) in *.
  assert (q < 2 ^ 64).
  { apply Z.le_lt_trans with (span_of base txnums); [apply Z.div_le_upper_bound; [lia|]|].
    - assert (0 <= span_of base txnums)
        by (unfold span_of; destruct (last txnums); [apply u64_range|lia]). nia.
    - unfold span_of; destruct (last txnums); [apply u64_range|lia]. }
  pose proof (Z.log2_nonneg q). assert (Z.log2 q < 64) by (apply Z.log2_lt_pow2; lia). lia.
Qed.

Lemma low_mask x low :
  0 <= low <= 64 -> u64_ok x ->
  Z.land x (u64 (u64 (Z.shiftl 1 low) - 1)) = x mod 2 ^ low.
Proof.
  intros Hl Hx. unfold u64_ok in Hx. rewrite Z.shiftl_1_l.
  destruct (decide (low = 64)) as [->|].
  - change (u64 (u64 (2 ^ 64) - 1)) with (Z.ones 64). apply Z.land_ones. lia.
  - assert (2 ^ low < 2 ^ 64) by (apply Z.pow_lt_mono_r; lia).
    assert (0 < 2 ^ low) by (apply Z.pow_pos_nonneg; lia).
    rewrite (u64_small (2 ^ low)), u64_small by (unfold u64_ok; lia).
    replace (2 ^ low - 1) with (Z.ones low) by (rewrite Z.ones_equiv; lia).
    apply Z.land_ones. lia.
Qed.

Lemma split_join base low t :
  0 <= low <= 64 -> u64_ok base -> u64_ok t -> base <= t ->
  u64 (base + u64 (Z.shiftl (Z.shiftr (t - base) low) low) + (t - base) mod 2 ^ low) = t.
Proof.
  intros Hl Hb Ht Hle. unfold u64_ok in *.
  rewrite Z.shiftl_mul_pow2, Z.shiftr_div_pow2 by lia.
  assert (0 < 2 ^ low) by (apply Z.pow_pos_nonneg; lia).
  pose proof (Z.div_mod (t - base) (2 ^ low) ltac:(lia)).
  pose proof (Z.mod_pos_bound (t - base) (2 ^ low) ltac:(lia)).
  assert (0 <= (t - base) / 2 ^ low) by (apply Z.div_pos; lia).
  rewrite (u64_small (_ * _)) by (unfold u64_ok; nia).
  rewrite u64_small; unfold u64_ok; lia.
Qed.

(** The list the caller hands over: TxNums at or above [base], in order. *)
Definition sorted_from (base : Z) (txnums : list Z) : Prop :=
  nondecr base txnums /\ Forall u64_ok txnums.

Lemma nondecr_lower base l x : nondecr base l -> x ∈ l -> base <= x.
Proof.
  revert base; induction l as [|y l IH]; intros base Hn Hx; [by apply not_elem_of_nil in Hx|].
  destruct Hn as [? Hn]. apply elem_of_cons in Hx as [->|Hx]; [done|].
  specialize (IH y Hn Hx). lia.
Qed.

Lemma nondecr_his base low prev l :
  0 <= low -> nondecr prev l -> base <= prev ->
  nondecr (Z.shiftr (prev - base) low) (map (fun t => Z.shiftr (t - base) low) l).
Proof.
  intros Hl. revert prev; induction l as [|x l IH]; intros prev Hn Hp; simpl; [done|].
  destruct Hn as [? Hn]. split; [|apply IH; [done|lia]].
  rewrite !Z.shiftr_div_pow2 by lia. apply Z.div_le_mono; [apply Z.pow_pos_nonneg|]; lia.
Qed.

Lemma sorted_sub base txnums t :
  u64_ok base -> sorted_from base txnums -> t ∈ txnums -> u64 (t - base) = t - base.
Proof.
  intros Hb [Hn Hu] Ht. apply u64_small.
  pose proof (nondecr_lower _ _ _ Hn Ht). rewrite Forall_forall in Hu.
  specialize (Hu t Ht). unfold u64_ok in *. lia.
Qed.

(** ** The header stays in front *)

Lemma or_bit_prefix H l i j :
  (length H <= i)%nat -> H `prefix_of` l -> H `prefix_of` or_bit l i j.
Proof.
  intros Hi [tl ->]. unfold or_bit.
  replace i with (length H + (i - length H))%nat by lia. rewrite alter_app_r. by eexists.
Qed.

Lemma set_prefix H w i :
  base_of w = length H -> H `prefix_of` wbuf w -> H `prefix_of` wbuf (set w i).
Proof.
  intros Hb Hp. unfold set. simpl. rewrite Hb.
  apply or_bit_prefix; [lia|]. by apply prefix_app_r.
Qed.

Lemma set_uppers_prefix H base low ts : forall w,
  (0 < length H)%nat -> base_of w = length H -> H `prefix_of` wbuf w ->
  H `prefix_of` wbuf (set_uppers w base low ts).
Proof.
  induction ts as [|t ts IH]; intros w HH Hb Hp; simpl; [done|].
  apply IH; [done| |by apply set_prefix].
  unfold base_of at 1. unfold set. simpl. rewrite Hb.
  destruct (Nat.eqb_spec (length H) 0); [lia|done].
Qed.

Lemma put_bit_prefix H w b w' :
  H `prefix_of` wbuf w -> (8 * length H <= wbits w)%nat -> put_bit w b = Ok w' ->
  H `prefix_of` wbuf w' /\ (8 * length H <= wbits w')%nat.
Proof.
  intros Hp Hb. unfold put_bit.
  set (buf := if (wbits w mod 8 =? 0)%nat then wbuf w ++ [0] else wbuf w).
  assert (H `prefix_of` buf) by (subst buf; case_test; [by apply prefix_app_r|done]).
  destruct b; [case_test; [|done]|]; intros [= <-]; simpl; (split; [|lia]); [|done].
  apply or_bit_prefix; [apply Nat.div_le_lower_bound; lia|done].
Qed.

Lemma put_from_prefix H x nbits : forall w k w',
  H `prefix_of` wbuf w -> (8 * length H <= wbits w)%nat -> put_from w x k nbits = Ok w' ->
  H `prefix_of` wbuf w' /\ (8 * length H <= wbits w')%nat.
Proof.
  induction nbits as [|nbits IH]; intros w k w' Hp Hb E; simpl in E; [by injection E as <-|].
  apply rbind_Ok in E as (w1 & E1 & E).
  destruct (put_bit_prefix H w _ w1 Hp Hb E1). eauto.
Qed.

Lemma put_all_prefix H xs nbits : forall w w',
  H `prefix_of` wbuf w -> (8 * length H <= wbits w)%nat -> put_all w xs nbits = Ok w' ->
  H `prefix_of` wbuf w' /\ (8 * length H <= wbits w')%nat.
Proof.
  induction xs as [|x xs IH]; intros w w' Hp Hb E; simpl in E; [by injection E as <-|].
  apply rbind_Ok in E as (w1 & E1 & E).
  destruct (put_from_prefix H x nbits w 0 w1 Hp Hb E1). eauto.
Qed.

(** ** What Encode writes *)

Definition header (base : Z) (txnums : list Z) (pb : Z) : bytes :=
  append_uvarint (len txnums) ++ append_uvarint (low_of base txnums) ++ append_uvarint (u64 pb).

Lemma header_pos base txnums pb : (0 < length (header base txnums pb))%nat.
Proof.
  unfold header. rewrite length_app. pose proof (append_uvarint_pos (len txnums)).
  unfold len in *. lia.
Qed.

Definition his_of (base low : Z) (txnums : list Z) : list Z :=
  map (fun t => Z.shiftr (t - base) low) txnums.
Definition los_of (base low : Z) (txnums : list Z) : list Z :=
  map (fun t => (t - base) mod 2 ^ low) txnums.
Definition pays_of (payload : bytes) (pb : Z) : bytes := if 0 <? pb then payload else [].
Definition padding (l : list bool) : list bool :=
  replicate ((length l + 7) / 8 * 8 - length l) false.

Lemma his_nondecr base low txnums :
  0 <= low -> nondecr base txnums -> nondecr 0 (his_of base low txnums).
Proof.
  intros Hl Hn. pose proof (nondecr_his base low base txnums Hl Hn ltac:(lia)) as H.
  by rewrite Z.sub_diag, Z.shiftr_0_l in H.
Qed.

Lemma upper_len base low txnums :
  0 <= low -> u64_ok base -> sorted_from base txnums ->
  Z.to_nat (Z.shiftr (span_of base txnums) low + len txnums)
    = length (unary 0 (his_of base low txnums)).
Proof.
  intros Hl Hb Hs. rewrite length_unary by (apply his_nondecr; [done|apply Hs]).
  unfold span_of, his_of. rewrite length_map, fmap_last, Z.sub_0_r.
  destruct (last txnums) as [t|] eqn:E; simpl.
  - assert (Ht : t ∈ txnums) by by apply last_Some_elem_of.
    rewrite (sorted_sub base txnums) by done.
    pose proof (nondecr_lower base txnums t (proj1 Hs) Ht).
    assert (0 <= Z.shiftr (t - base) low) by (apply Z.shiftr_nonneg; lia). unfold len; lia.
  - rewrite Z.shiftr_0_l. unfold len; lia.
Qed.

Lemma Encode_spec base txnums payload pb :
  u64_ok base -> sorted_from base txnums -> 0 <= pb <= 8 ->
  (0 < pb -> length payload = length txnums) ->
  let low := low_of base txnums in
  let H := header base txnums pb in
  let U := unary 0 (his_of base low txnums) in
  exists out k, Encode base txnums payload pb = Ok out /\ H `prefix_of` out /\
    bits_of out = bits_of H ++ U ++ padding U ++
      concat (map (fun x => num_bits x (Z.to_nat low)) (los_of base low txnums)) ++
      concat (map (fun x => num_bits x (Z.to_nat pb)) (pays_of payload pb)) ++ replicate k false.
Proof.
  intros Hb Hs Hpb Hpay low H U. pose proof (low_of_bounds base txnums) as Hlow.
  pose proof (header_pos base txnums pb) as HH. fold H in HH. fold low in Hlow.
  assert (Hmap : forall f : Z -> Z, map (fun t => f (u64 (t - base))) txnums = map (fun t => f (t - base)) txnums).
  { intros f. apply map_ext_in. intros t Ht. apply list_elem_of_In in Ht.
    by rewrite (sorted_sub base txnums t). }
  assert (Hw0 : uw H (Writer H 0 0 0) []).
  { split; [done|]. exists 0%nat. split; [lia|]. by rewrite app_nil_r. }
  assert (Hw1 := set_uppers_spec H base low txnums (Writer H 0 0 0) 0 [] HH ltac:(lia) Hw0 ltac:(done)).
  rewrite (Hmap (fun x => Z.shiftr x low)) in Hw1.
  specialize (Hw1 (his_nondecr base low txnums ltac:(lia) (proj1 Hs))). simpl in Hw1.
  assert (Hp1 := set_uppers_prefix H base low txnums (Writer H 0 0 0) HH eq_refl ltac:(done)).
  unfold Encode. fold low. change (append_uvarint (len txnums) ++ _) with H.
  rewrite upper_len by (done || lia). fold U.
  change (unary 0 _) with U in Hw1.
  assert (Hw2 := pad_spec H _ U HH Hw1).
  set (w1 := set_uppers _ base low txnums) in *.
  assert (Hp2 : H `prefix_of` wbuf (pad w1 (length U))) by (unfold pad; simpl; by apply prefix_app_r).
  assert (Hb2 : (8 * length H <= wbits (pad w1 (length U)))%nat).
  { destruct Hw2 as [-> _]. rewrite length_app, length_bits_of. lia. }
  rewrite (Hmap (fun x => Z.land x (u64 (u64 (Z.shiftl 1 low) - 1)))).
  rewrite (map_ext_in _ (fun t => (t - base) mod 2 ^ low)).
  2: { intros t Ht. apply list_elem_of_In in Ht. apply low_mask; [lia|].
       rewrite <- (sorted_sub base txnums t) by done. apply u64_range. }
  destruct (put_all_spec (los_of base low txnums) (Z.to_nat low) _ _ Hw2) as (w3 & E3 & Hw3).
  unfold los_of in E3. rewrite E3. cbn [rbind].
  destruct (put_all_prefix H _ _ _ _ Hp2 Hb2 E3) as [Hp3 Hb3].
  unfold pays_of. destruct (Z.ltb_spec 0 pb) as [Hpos|Hzero].
  - specialize (Hpay Hpos).
    rewrite (proj2 (Z.ltb_ge _ _)) by (unfold len; lia).
    rewrite take_ge by lia.
    destruct (put_all_spec payload (Z.to_nat pb) _ _ Hw3) as (w4 & E4 & Hw4).
    destruct (put_all_prefix H _ _ _ _ Hp3 Hb3 E4) as [Hp4 Hb4].
    rewrite E4. cbn [rbind]. destruct Hw4 as (_ & k & _ & Hbits).
    exists (wbuf w4), k. split; [done|]. split; [done|]. rewrite Hbits.
    unfold padding. by rewrite <- !app_assoc.
  - destruct Hw3 as (_ & k & _ & Hbits). exists (wbuf w3), k. split; [done|].
    split; [done|]. rewrite Hbits. unfold padding. by rewrite <- !app_assoc.
Qed.

Lemma next_uvarint_app pre x rest v pos :
  v = pre ++ append_uvarint x ++ rest -> pos = len pre -> u64_ok x ->
  next_uvarint v pos = Ok (x, len pre + len (append_uvarint x)).
Proof.
  intros -> -> Hx. unfold next_uvarint. rewrite slice_tail by done. simpl.
  rewrite uvarint_append by done.
  rewrite (proj2 (Z.leb_gt _ _)) by apply append_uvarint_pos. done.
Qed.

Lemma zip_join base low txnums :
  0 <= low <= 64 -> u64_ok base -> sorted_from base txnums ->
  zip_with (fun h lo => u64 (base + u64 (Z.shiftl h low) + lo))
    (his_of base low txnums) (los_of base low txnums) = txnums.
Proof.
  intros Hl Hb [Hn Hu]. unfold his_of, los_of.
  assert (G : forall l, Forall (fun t => u64_ok t /\ base <= t) l ->
    zip_with (fun h lo => u64 (base + u64 (Z.shiftl h low) + lo))
      (map (fun t => Z.shiftr (t - base) low) l) (map (fun t => (t - base) mod 2 ^ low) l) = l).
  { induction l as [|t l IH]; intros Hf; simpl; [done|].
    apply Forall_cons in Hf as [[? ?] Hf]. by rewrite split_join, IH. }
  apply G. apply Forall_forall. intros t Ht. rewrite Forall_forall in Hu.
  split; [by apply Hu|by eapply nondecr_lower].
Qed.

Lemma his_small base low txnums :
  0 <= low -> u64_ok base -> sorted_from base txnums ->
  Forall (fun h => h < 2 ^ 64) (his_of base low txnums).
Proof.
  intros Hl Hb Hs. apply Forall_fmap, Forall_forall. intros t Ht. simpl.
  rewrite <- (sorted_sub base txnums t) by done. pose proof (u64_range (t - base)) as [? ?].
  rewrite Z.shiftr_div_pow2 by done. apply Z.le_lt_trans with (u64 (t - base)); [|done].
  apply Z.div_le_upper_bound; [apply Z.pow_pos_nonneg; lia|].
  assert (0 < 2 ^ low) by (apply Z.pow_pos_nonneg; lia). nia.
Qed.

Lemma los_small base low txnums :
  0 <= low -> Forall (fun lo => 0 <= lo < 2 ^ low) (los_of base low txnums).
Proof.
  intros Hl. apply Forall_fmap, Forall_forall. intros t _. simpl.
  apply Z.mod_pos_bound, Z.pow_pos_nonneg; lia.
Qed.

Lemma rview_start H rest k :
  k = (length H * 8)%nat ->
  rview (Reader (H ++ rest) k) = bits_of rest.
Proof.
  intros ->. unfold rview. simpl. rewrite bits_of_app.
  replace (length H * 8)%nat with (length (bits_of H)) by (rewrite length_bits_of; lia).
  by rewrite drop_app_length.
Qed.

Lemma align_padding (k : nat) (U : list bool) :
  ((k * 8 + length U + 7) / 8 * 8)%nat = (k * 8 + length U + length (padding U))%nat.
Proof.
  unfold padding. rewrite length_replicate.
  replace (k * 8 + length U + 7)%nat with (k * 8 + (length U + 7))%nat by lia.
  rewrite Nat.div_add_l by lia.
  pose proof (Nat.div_mod_eq (length U + 7) 8).
  pose proof (Nat.mod_upper_bound (length U + 7) 8 ltac:(lia)). lia.
Qed.

(** Decode once the three varints of the header are read. *)
Definition decode_body (base n low pb : Z) (r : reader) : res (list Z * option bytes) :=
  let* (his, r) := read_uppers r 0 (Z.to_nat n) in
  let r := Reader (rbuf r) ((rbit r + 7) / 8 * 8)%nat in
  let* (txnums, r) := read_lowers r base low his in
  if 0 <? pb then
    let* (payload, _) := read_payload r pb (Z.to_nat n) in Ok (txnums, Some payload)
  else Ok (txnums, None).

Lemma Decode_header base txnums pb rest :
  len txnums <= MaxEntries -> 0 <= pb <= 8 ->
  Decode base (header base txnums pb ++ rest) =
    decode_body base (len txnums) (low_of base txnums) pb
      (Reader (header base txnums pb ++ rest) (length (header base txnums pb) * 8)).
Proof.
  intros Hn Hpb. pose proof (low_of_bounds base txnums) as Hlow.
  pose proof (len_nonneg txnums). unfold MaxEntries in Hn.
  assert (Hu : u64 pb = pb) by (apply u64_small; unfold u64_ok; lia).
  unfold header. rewrite Hu. set (low := low_of base txnums) in *.
  set (a := append_uvarint (len txnums)). set (b := append_uvarint low).
  set (c := append_uvarint pb). unfold Decode.
  rewrite (next_uvarint_app [] (len txnums) (b ++ c ++ rest)), len_nil, Z.add_0_l
    by (unfold u64_ok; lia || (by rewrite <- ?app_assoc)). cbn [rbind].
  rewrite (next_uvarint_app a low (c ++ rest))
    by (unfold u64_ok; lia || (by rewrite <- ?app_assoc)). cbn [rbind].
  rewrite (next_uvarint_app (a ++ b) pb rest)
    by (rewrite ?len_app; unfold u64_ok; lia || (by rewrite <- ?app_assoc)). cbn [rbind].
  rewrite !i64_small by lia. unfold MaxEntries.
  rewrite (proj2 (Z.ltb_ge 4096 (len txnums))), (proj2 (Z.ltb_ge 64 low)), (proj2 (Z.ltb_ge 8 pb)),
    (proj2 (Z.ltb_ge (len txnums) 0)) by lia. cbn [orb].
  unfold decode_body. do 3 f_equal.
  rewrite <- len_app, <- app_assoc, len_to_nat. done.
Qed.

(** The round trip, shared with the posting rows. *)
Lemma decode_encode (base : Z) (txnums : list Z) (payload : bytes) (pb : Z) :
  u64_ok base -> sorted_from base txnums -> len txnums <= MaxEntries ->
  0 <= pb <= 8 ->
  (0 < pb -> length payload = length txnums /\ Forall (fun p => 0 <= p < 2 ^ pb) payload) ->
  exists out, Encode base txnums payload pb = Ok out /\
    Decode base out = Ok (txnums, if 0 <? pb then Some payload else None).
Proof.
  intros Hb Hs Hn Hpb Hpay. pose proof (low_of_bounds base txnums) as Hlow.
  destruct (Encode_spec base txnums payload pb Hb Hs Hpb (fun H => proj1 (Hpay H)))
    as (out & k & HE & [rest ->] & Hbits).
  eexists. split; [exact HE|]. rewrite Decode_header by done.
  set (low := low_of base txnums) in *. set (U := unary 0 (his_of base low txnums)) in *.
  set (H := header base txnums pb) in *.
  rewrite bits_of_app in Hbits. apply app_inv_head in Hbits.
  pose proof (rview_start H rest _ eq_refl) as Hv. rewrite Hbits in Hv.
  set (r := Reader (H ++ rest) (length H * 8)) in *.
  unfold decode_body. rewrite len_to_nat.
  replace (length txnums) with (length (his_of base low txnums)) at 1 by apply length_map.
  rewrite (read_uppers_spec _ r 0 _ Hv);
    [|apply his_nondecr; [lia|apply Hs]|lia|apply his_small; done || lia].
  cbn [rbind adv rbuf rbit]. fold U. change (rbit r) with (length H * 8)%nat. rewrite align_padding.
  apply rview_adv in Hv. apply rview_adv in Hv. rewrite adv_adv in Hv. fold U in Hv.
  change (Reader (rbuf r) (length H * 8 + length U + length (padding U)))
    with (Reader (rbuf r) (rbit r + length U + length (padding U))).
  rewrite <- Nat.add_assoc. change (Reader (rbuf r) _) with (adv r (length U + length (padding U))).
  rewrite (read_lowers_spec base low _ _ _ _ Hv);
    [|unfold his_of, los_of; by rewrite !length_map|lia|apply los_small; lia].
  cbn [rbind]. rewrite zip_join by done.
  destruct (Z.ltb_spec 0 pb) as [Hpos|]; [|done]. destruct (Hpay Hpos) as [Hl Hf].
  rewrite <- Hl. apply rview_adv in Hv. unfold pays_of in Hv.
  rewrite (proj2 (Z.ltb_lt _ _) Hpos) in Hv.
  rewrite (read_payload_spec pb payload _ (replicate k false)); [done| |lia|done].
  rewrite <- Hv. f_equal. f_equal.
  rewrite (length_concat_num_bits (Z.to_nat low)). done.
Qed.

(** Decode is the inverse of Encode. For every TxNum list the store cuts a
    chunk from (sorted, at or above its base, at most [MaxEntries] long) and
    every payload that fits its width, encoding succeeds and decoding the bytes
    with the same base gives back exactly the TxNums and the payloads. *)
Theorem Decode_Encode (base : Z) (txnums : list Z) (payload : bytes) (pb : Z) :
  u64_ok base -> sorted_from base txnums -> len txnums <= MaxEntries ->
  0 <= pb <= 8 ->
  (0 < pb -> length payload = length txnums /\ Forall (fun p => 0 <= p < 2 ^ pb) payload) ->
  exists out, Encode base txnums payload pb = Ok out /\
    Decode base out = Ok (txnums, if 0 <? pb then Some payload else None).
Proof. apply decode_encode. Qed.

Lemma Decode_Encode_witness :
  exists out, Encode 100 [100; 103; 103; 9000] [1; 31; 0; 7] 5 = Ok out /\
    Decode 100 out = Ok ([100; 103; 103; 9000], Some [1; 31; 0; 7]).
Proof.
  apply (Decode_Encode 100 [100; 103; 103; 9000] [1; 31; 0; 7] 5).
  - unfold u64_ok; lia.
  - split; [simpl; lia|repeat constructor; unfold u64_ok; lia].
  - vm_compute. discriminate.
  - lia.
  - intros _. split; [reflexivity|]. repeat constructor; lia.
Defined.

(** ** Fuel and panics *)

Lemma next_Some r b r' : next r = Some (b, r') ->
  r' = adv r 1 /\ (rbit r < 8 * length (rbuf r))%nat.
Proof.
  unfold next, adv. destruct (rbuf r !! (rbit r / 8)%nat) eqn:E; [|done].
  intros [= _ <-]. split; [f_equal; lia|]. apply lookup_lt_Some in E.
  pose proof (Nat.div_mod_eq (rbit r) 8).
  pose proof (Nat.mod_upper_bound (rbit r) 8 ltac:(lia)). lia.
Qed.

(** The bound [skip] is given is never what stops it: any larger bound gives
    the same answer. *)
Lemma skip_fuel extra : forall fuel r hi,
  (8 * length (rbuf r) <= rbit r + fuel)%nat ->
  skip (fuel + extra) r hi = skip fuel r hi.
Proof.
  induction fuel as [|fuel IH]; intros r hi Hf; simpl.
  - destruct (next r) as [[[] r']|] eqn:E; try (by destruct extra; simpl; rewrite E).
    apply next_Some in E as [_ ?]. lia.
  - destruct (next r) as [[[] r']|] eqn:E; try done.
    apply next_Some in E as [-> ?]. apply IH. unfold adv; simpl. lia.
Qed.

Lemma skip_no_panic fuel : forall r hi, skip fuel r hi <> Panic.
Proof.
  induction fuel as [|fuel IH]; intros r hi; simpl; destruct (next r) as [[[] ?]|]; done || apply IH.
Qed.

Lemma read_uppers_no_panic n : forall r hi, read_uppers r hi n <> Panic.
Proof.
  induction n as [|n IH]; intros r hi H; simpl in H; [done|].
  apply rbind_Panic in H as [H|([hi' r'] & _ & H)]; [by apply skip_no_panic in H|].
  apply rbind_Panic in H as [H|([? ?] & _ & H)]; [by apply IH in H|done].
Qed.

Lemma read_lowers_panic base low his : forall r,
  read_lowers r base low his = Panic -> low < 0.
Proof.
  induction his as [|h hs IH]; intros r H; simpl in H; [done|].
  destruct (get r low) as [[lo r']|]; [|done].
  apply rbind_Panic in H as [H|(s & _ & H)].
  - unfold shl in H. destruct (Z.ltb_spec low 0); [done|done].
  - apply rbind_Panic in H as [H|([? ?] & _ & H)]; [by apply IH in H|done].
Qed.

Lemma read_payload_no_panic pb n : forall r, read_payload r pb n <> Panic.
Proof.
  induction n as [|n IH]; intros r H; simpl in H; [done|].
  destruct (get r pb) as [[p r']|]; [|done].
  apply rbind_Panic in H as [H|([? ?] & _ & H)]; [by apply IH in H|done].
Qed.

Lemma next_uvarint_bounds v pos :
  0 <= pos <= len v -> next_uvarint v pos <> Panic.
Proof.
  intros Hp. unfold next_uvarint, slice_from, slice.
  rewrite !(proj2 (Z.leb_le _ _)) by lia. simpl.
  destruct (uvarint _) as [y j]. by case_match.
Qed.

Lemma uvarint_loop_count buf : forall i x s y k,
  0 <= i -> uvarint_loop buf i x s = (y, k) -> k <= i + len buf.
Proof.
  induction buf as [|b buf IH]; intros i x s y k Hi H; simpl in H.
  - injection H as <- <-. lensimp.
  - lensimp. repeat case_match; simplify_eq; try lia.
    apply IH in H; lia.
Qed.

Lemma next_uvarint_Ok v pos x pos' :
  next_uvarint v pos = Ok (x, pos') -> pos < pos' <= len v.
Proof.
  unfold next_uvarint. intros H. apply rbind_Ok in H as (rest & Hs & H).
  destruct (uvarint rest) as [y k] eqn:Eu. case_match eqn:E; [done|]. simplify_eq. bool_prop.
  apply slice_Ok in Hs as (? & ? & Hr). apply uvarint_loop_count in Eu; lia.
Qed.

(** Decode panics only on a count or a width that does not fit an [int].
    On every other byte string, truncated and corrupt ones included, it returns
    a value or the [errCorrupt] error. *)
Theorem Decode_no_panic (base : Z) (v : bytes) :
  Decode base v = Panic ->
  exists n64 low64 pos pos', next_uvarint v 0 = Ok (n64, pos) /\
    next_uvarint v pos = Ok (low64, pos') /\ (i64 n64 < 0 \/ i64 low64 < 0).
Proof.
  unfold Decode. pose proof (len_nonneg v). intros H0.
  apply rbind_Panic in H0 as [H0|([n64 p1] & E1 & H0)]; [apply next_uvarint_bounds in H0; [done|lia]|].
  pose proof (next_uvarint_Ok _ _ _ _ E1).
  apply rbind_Panic in H0 as [H0|([low64 p2] & E2 & H0)]; [apply next_uvarint_bounds in H0; [done|lia]|].
  pose proof (next_uvarint_Ok _ _ _ _ E2). exists n64, low64, p1, p2. do 2 (split; [done|]).
  apply rbind_Panic in H0 as [H0|([pb64 p3] & E3 & H0)]; [apply next_uvarint_bounds in H0; [done|lia]|].
  case_match; [done|]. case_match; bool_prop; [by left|right].
  apply rbind_Panic in H0 as [H0|([his r] & _ & H0)]; [by apply read_uppers_no_panic in H0|].
  apply rbind_Panic in H0 as [H0|([ts r'] & _ & H0)]; [by apply read_lowers_panic in H0|].
  case_match; [|done].
  apply rbind_Panic in H0 as [H0|([? ?] & _ & H0)]; [by apply read_payload_no_panic in H0|done].
Qed.

Lemma Decode_no_panic_witness :
  exists n64 low64 pos pos',
    next_uvarint (append_uvarint (2 ^ 63) ++ [0; 0]) 0 = Ok (n64, pos) /\
    next_uvarint (append_uvarint (2 ^ 63) ++ [0; 0]) pos = Ok (low64, pos') /\
    (i64 n64 < 0 \/ i64 low64 < 0).
Proof. apply (Decode_no_panic 0). vm_compute. reflexivity. Defined.

(** a chunk whose count varint holds a value of 2^63 or more is not refused
    as corrupt: the count turns negative as an [int], passes the [MaxEntries]
    check and the allocation panics. *)
Theorem Decode_huge_count_panics (base n64 : Z) (rest : bytes) :
  2 ^ 63 <= n64 < 2 ^ 64 ->
  Decode base (append_uvarint n64 ++ [0; 0] ++ rest) = Panic.
Proof.
  intros Hn. unfold Decode.
  rewrite (next_uvarint_app [] n64 ([0; 0] ++ rest)), len_nil, Z.add_0_l
    by (unfold u64_ok; lia || done). cbn [rbind].
  rewrite (next_uvarint_app (append_uvarint n64) 0 ([0] ++ rest))
    by (unfold u64_ok; lia || done). cbn [rbind].
  rewrite (next_uvarint_app (append_uvarint n64 ++ [0]) 0 rest)
    by (rewrite ?len_app, <- ?app_assoc; unfold u64_ok; lia || done). cbn [rbind].
  assert (Hneg : i64 n64 = n64 - 2 ^ 64).
  { unfold i64. rewrite <- (Z.mod_unique (n64 + 2 ^ 63) (2 ^ 64) 1 (n64 - 2 ^ 63)); lia. }
  change (i64 0) with 0. rewrite Hneg. unfold MaxEntries.
  rewrite (proj2 (Z.ltb_ge 4096 _)) by lia. cbn [orb Z.ltb Z.compare].
  by rewrite (proj2 (Z.ltb_lt _ 0)) by lia.
Qed.

Lemma Decode_huge_count_panics_witness :
  Decode 7 (append_uvarint (2 ^ 63) ++ [0; 0] ++ [255]) = Panic.
Proof. apply (Decode_huge_count_panics 7 (2 ^ 63) [255]). lia. Defined.

End Ef.
