(* ===== verification/Format.v ===== *)
(** * store/format.go: the key schema and the comparer's Split

    Every row of a run is keyed by a family tag, fixed-width components and, for
    the families that carry history, an eight byte big-endian TxNum suffix.
    [split] is the bloom prefix of a key. [SplitStateKey] of store/frontier.go,
    which takes a state key apart again, is here too. *)

From S2P Require Import Prelude Bytes.

Module Format.

(** ** Constants *)

Definition StorageVersion : Z := 4.

Definition PrefixBlk := str "blk/".
Definition PrefixHdr := str "hdr/".
Definition PrefixItx := str "itx/".
Definition PrefixPvm := str "pvm/".
Definition PrefixRcpt := str "rcpt/".
Definition PrefixTx := str "tx/".
Definition PrefixCode := str "code/".
Definition PrefixState := str "state/".
Definition PrefixTxHash := str "txh/".
Definition PrefixBlkHash := str "blkh/".
Definition PrefixCid := str "cid/".
Definition PrefixAddr := str "addr/".
Definition PrefixELog := str "elog/".
Definition PrefixTVal := str "tval/".
Definition PrefixSig := str "sig/".
Definition PrefixSet := str "set/".

Definition Pos1 : Z := 1.
Definition Pos2 : Z := 2.
Definition Pos3 : Z := 4.

Definition RoleSender : Z := 1.
Definition RoleRecipient : Z := 2.
Definition RoleCreated : Z := 4.
Definition RoleEmitter : Z := 8.
Definition RoleFrame : Z := 16.

(** [PayloadBits(group)] *)
Definition PayloadBits (group : bytes) : Z :=
  if has_prefix group PrefixAddr then 5
  else if has_prefix group PrefixTVal then 3 else 0.

(** ** Keys *)

Definition slash : Z := 47.

Definition numKey (prefix : bytes) (n : Z) : bytes := prefix ++ bigE 8 n.

Definition BlkKey (height : Z) := numKey PrefixBlk height.
Definition HdrKey (height : Z) := numKey PrefixHdr height.
Definition ItxKey (txnum : Z) := numKey PrefixItx txnum.
Definition PvmKey (height : Z) := numKey PrefixPvm height.
Definition RcptKey (txnum : Z) := numKey PrefixRcpt txnum.
Definition TxKey (txnum : Z) := numKey PrefixTx txnum.
Definition TxHashKey (h : bytes) := PrefixTxHash ++ h.
Definition CodeKey (hash : bytes) := PrefixCode ++ hash.
Definition BlkHashKey (h : bytes) := PrefixBlkHash ++ h.
Definition CidKey (id : bytes) := PrefixCid ++ id.

Definition AccountPrefix (addr : bytes) : bytes := PrefixState ++ addr ++ str "/a/".
Definition CodeRefPrefix (addr : bytes) : bytes := PrefixState ++ addr ++ str "/c/".
Definition SlotPrefix (addr slot : bytes) : bytes :=
  PrefixState ++ addr ++ str "/s/" ++ slot ++ [slash].

(** [join(prefix, parts...)]: every part followed by a slash. *)
Definition join (prefix : bytes) (parts : list bytes) : bytes :=
  fold_left (fun k p => (k ++ p) ++ [slash]) parts prefix.

Definition AddrPrefix (addr : bytes) := join PrefixAddr [addr].
Definition ELogPrefix (emitter : bytes) := join PrefixELog [emitter].
Definition ELogGroup (emitter topic0 : bytes) := join PrefixELog [emitter; topic0].
Definition TValPrefix (value : bytes) := join PrefixTVal [value].
Definition TValGroup (value topic0 : bytes) := join PrefixTVal [value; topic0].
Definition SigGroup (topic0 : bytes) := join PrefixSig [topic0].

Definition SetPrefix (topic0 : bytes) (pos : Z) (value : bytes) : bytes :=
  join PrefixSet [topic0; [pos]; value].
Definition SetKey (topic0 : bytes) (pos : Z) (value emitter : bytes) : bytes :=
  SetPrefix topic0 pos value ++ emitter.

Definition setSplit : Z := len PrefixSet + 32 + 1 + 1 + 1 + 32 + 1.
Definition setKeyLen : Z := setSplit + 20.

Definition Suffixed (prefix : bytes) (txnum : Z) : bytes := prefix ++ bigE 8 txnum.

(** [binary.BigEndian.Uint64(key[len(key)-8:])] *)
Definition TxNumOf (key : bytes) : res Z :=
  let* s := slice_from key (len key - 8) in be_get 8 s.

(** ** Split *)

Definition split (key : bytes) : Z :=
  let n := len key in
  if has_prefix key PrefixState then
    if (27 <? n) && (default 0 (key !! 27%nat) =? 115) (* 's' *)
    then if 62 + 8 <=? n then 62 else n
    else if 29 + 8 <=? n then 29 else n
  else if has_prefix key PrefixAddr then if 26 + 8 <=? n then 26 else n
  else if has_prefix key PrefixELog then if 26 + 8 <=? n then 26 else n
  else if has_prefix key PrefixTVal then if 38 + 8 <=? n then 38 else n
  else if has_prefix key PrefixSig then if 37 + 8 <=? n then 37 else n
  else if has_prefix key PrefixSet then if setSplit + 20 <=? n then setSplit else n
  else n.

(** The bytes a bloom filter is built over and probed with. *)
Definition bloom_key (key : bytes) : bytes := take (Z.to_nat (split key)) key.

(** ** SplitStateKey (store/frontier.go) *)

Definition SplitStateKey (key : bytes) : res (Z * bytes * bytes) :=
  let addrEnd := len PrefixState + 20 in
  if (len key <? addrEnd + 3) || negb (has_prefix key PrefixState)
     || negb (default (-1) (key !! Z.to_nat addrEnd) =? slash)
  then Err "store: not a state key"
  else
    let* kind := index key (addrEnd + 1) in
    let* addr := slice key (len PrefixState) addrEnd in
    if (kind =? 97) || (kind =? 99) then
      if len key =? addrEnd + 3 then Ok (kind, addr, []) else Err "store: not a state a or c key"
    else if kind =? 115 then
      if len key =? addrEnd + 3 + 32 + 1
      then let* slot := slice key (addrEnd + 3) (addrEnd + 3 + 32) in Ok (kind, addr, slot)
      else Err "store: not a state s key"
    else Err "store: unknown state kind".

(** ** Sections *)

Inductive Section := SecChain | SecState | SecLookup.

Definition BlockSize (s : Section) : Z :=
  match s with
  | SecChain => Z.shiftl 128 10
  | SecState => Z.shiftl 32 10
  | SecLookup => Z.shiftl 8 10
  end.

Definition indexBlockSize (s : Section) : Z := Z.max (Z.shiftl 64 10) (2 * BlockSize s).

#[global] Instance section_eq_dec : EqDecision Section.
Proof. solve_decision. Defined.

(** ** The keys the store writes

    A stored key with the part [split] must return as the bloom prefix. *)
Inductive stored_key : bytes -> bytes -> Prop :=
| SkNum tag n : tag ∈ [PrefixBlk; PrefixHdr; PrefixItx; PrefixPvm; PrefixRcpt; PrefixTx] ->
    stored_key (numKey tag n) (numKey tag n)
| SkHash tag h : tag ∈ [PrefixTxHash; PrefixBlkHash; PrefixCid; PrefixCode] -> len h = 32 ->
    stored_key (tag ++ h) (tag ++ h)
| SkAccount addr n : len addr = 20 ->
    stored_key (Suffixed (AccountPrefix addr) n) (AccountPrefix addr)
| SkCodeRef addr n : len addr = 20 ->
    stored_key (Suffixed (CodeRefPrefix addr) n) (CodeRefPrefix addr)
| SkSlot addr slot n : len addr = 20 -> len slot = 32 ->
    stored_key (Suffixed (SlotPrefix addr slot) n) (SlotPrefix addr slot)
| SkAddr addr n : len addr = 20 ->
    stored_key (Suffixed (AddrPrefix addr) n) (AddrPrefix addr)
| SkELog e t n : len e = 20 -> len t = 32 ->
    stored_key (Suffixed (ELogGroup e t) n) (ELogPrefix e)
| SkTVal v t n : len v = 32 -> len t = 32 ->
    stored_key (Suffixed (TValGroup v t) n) (TValPrefix v)
| SkSig t n : len t = 32 -> stored_key (Suffixed (SigGroup t) n) (SigGroup t)
| SkSet t p v e : len t = 32 -> len v = 32 -> len e = 20 ->
    stored_key (SetKey t p v e) (SetPrefix t p v).

(** ** Lemmas *)

(** The suffix of a suffixed key is its TxNum: reading it back gives the
    number, whatever the prefix. *)
Lemma TxNumOf_Suffixed p n : u64_ok n -> TxNumOf (Suffixed p n) = Ok n.
Proof.
  intros Hn. unfold TxNumOf, Suffixed. rewrite slice_tail by (lens; lia). cbn [rbind].
  rewrite <- (app_nil_r (bigE 8 n)). apply be_get_app. exact Hn.
Qed.

Lemma bcmp_Suffixed p n m : u64_ok n -> u64_ok m -> bcmp (Suffixed p n) (Suffixed p m) = (n ?= m).
Proof. intros Hn Hm. unfold Suffixed. rewrite bcmp_app. by apply bcmp_be. Qed.

Lemma Suffixed_u64 p n : Suffixed p (u64 n) = Suffixed p n.
Proof. unfold Suffixed, u64. f_equal. exact (be_mod 8 8 n ltac:(lia)). Qed.

Lemma len_Suffixed p n : len (Suffixed p n) = len p + 8.
Proof. unfold Suffixed. by lens. Qed.
#[export] Hint Rewrite len_Suffixed : len.

Lemma Suffixed_inj p q n m :
  u64_ok n -> u64_ok m -> Suffixed p n = Suffixed q m -> p = q /\ n = m.
Proof.
  intros Hn Hm E. unfold Suffixed in E. apply app_inj_2 in E as [-> E]; [|by rewrite !length_be].
  split; [done|]. by apply (be_inj 8) in E.
Qed.

(** A key between a prefix and an extension of it starts with the prefix. *)
Lemma between_has_prefix p k s : ble p k -> ble k (p ++ s) -> has_prefix k p = true.
Proof.
  unfold ble. revert k; induction p as [|x p IH]; intros [|y k]; simpl; try done.
  rewrite (Z.compare_antisym x y). destruct (x ?= y) eqn:E; simpl; try done.
  apply Z.compare_eq in E as ->. rewrite Z.eqb_refl. simpl. apply IH.
Qed.

(** A fixed-width component read off the front of a key. *)
Lemma bloom_key_app p s : split (p ++ s) = len p -> bloom_key (p ++ s) = p.
Proof. intros H. unfold bloom_key. by rewrite H, len_to_nat, take_app_length. Qed.

Lemma lookup_app_mid (p m s : bytes) x (i : nat) :
  len p + len m = Z.of_nat i -> (p ++ m ++ x :: s) !! i = Some x.
Proof.
  intros H. rewrite app_assoc. apply list_lookup_middle.
  rewrite length_app. unfold len in H. lia.
Qed.

Definition split_state (key : bytes) : Z :=
  let n := len key in
  if (27 <? n) && (default 0 (key !! 27%nat) =? 115)
  then if 62 + 8 <=? n then 62 else n
  else if 29 + 8 <=? n then 29 else n.

Lemma split_state_eq s : split (PrefixState ++ s) = split_state (PrefixState ++ s).
Proof. done. Qed.

(** The kind byte of a state key is at offset 27. *)
Lemma state_kind addr c r :
  len addr = 20 -> (PrefixState ++ addr ++ slash :: c :: r) !! 27%nat = Some c.
Proof.
  intros H. change (slash :: c :: r) with ([slash] ++ c :: r).
  rewrite !app_assoc. apply list_lookup_middle. rewrite !length_app.
  unfold len in H. simpl. lia.
Qed.

Ltac norm_key := repeat rewrite <- !app_assoc; cbn [app].

(** The split of each family, from the widths of its components. *)
Lemma split_AccountLike addr c n :
  len addr = 20 -> c <> 115 ->
  split (PrefixState ++ addr ++ slash :: c :: slash :: bigE 8 n) = 29.
Proof.
  intros Ha Hc. rewrite split_state_eq. unfold split_state.
  rewrite state_kind by done. cbn [default]. rewrite (proj2 (Z.eqb_neq _ _)) by done.
  rewrite andb_false_r. lens. rewrite Ha. done.
Qed.

Lemma split_Slot addr slot n :
  len addr = 20 -> len slot = 32 ->
  split (PrefixState ++ addr ++ slash :: 115 :: slash :: slot ++ slash :: bigE 8 n) = 62.
Proof.
  intros Ha Hs. rewrite split_state_eq. unfold split_state.
  rewrite state_kind by done. lens. rewrite Ha, Hs. done.
Qed.

(** Every key the store writes, decomposed: tag, components, suffix. *)
Lemma Account_eq addr n :
  Suffixed (AccountPrefix addr) n = PrefixState ++ addr ++ slash :: 97 :: slash :: bigE 8 n.
Proof. unfold Suffixed, AccountPrefix. by norm_key. Qed.
Lemma CodeRef_eq addr n :
  Suffixed (CodeRefPrefix addr) n = PrefixState ++ addr ++ slash :: 99 :: slash :: bigE 8 n.
Proof. unfold Suffixed, CodeRefPrefix. by norm_key. Qed.
Lemma Slot_eq addr slot n :
  Suffixed (SlotPrefix addr slot) n
  = PrefixState ++ addr ++ slash :: 115 :: slash :: slot ++ slash :: bigE 8 n.
Proof. unfold Suffixed, SlotPrefix. by norm_key. Qed.

Lemma len_AccountPrefix addr : len (AccountPrefix addr) = len addr + 9.
Proof. unfold AccountPrefix. lens. change (len PrefixState) with 6. change (len (str "/a/")) with 3. lia. Qed.
Lemma len_CodeRefPrefix addr : len (CodeRefPrefix addr) = len addr + 9.
Proof. unfold CodeRefPrefix. lens. change (len PrefixState) with 6. change (len (str "/c/")) with 3. lia. Qed.
Lemma len_SlotPrefix addr slot : len (SlotPrefix addr slot) = len addr + len slot + 10.
Proof. unfold SlotPrefix. lens. change (len PrefixState) with 6. change (len (str "/s/")) with 3. lia. Qed.

Lemma join1 p a : join p [a] = p ++ a ++ [slash].
Proof. unfold join; simpl. by rewrite <- !app_assoc. Qed.
Lemma join2 p a b : join p [a; b] = join p [a] ++ b ++ [slash].
Proof. unfold join; simpl. by rewrite <- !app_assoc. Qed.
Lemma join3 p a b c : join p [a; b; c] = p ++ a ++ slash :: b ++ slash :: c ++ [slash].
Proof. unfold join; simpl. by rewrite <- !app_assoc. Qed.
Lemma len_join1 p a : len (join p [a]) = len p + len a + 1.
Proof. rewrite join1. lens. lia. Qed.
#[export] Hint Rewrite len_AccountPrefix len_CodeRefPrefix len_SlotPrefix len_join1 : len.

(** The guard of a one-component posting family is met by its keys. *)
Lemma split_join1 tag w a s :
  tag ∈ [(PrefixAddr, 26); (PrefixELog, 26); (PrefixTVal, 38); (PrefixSig, 37)] ->
  tag.2 = len tag.1 + len a + 1 -> w = tag.2 -> 8 <= len s ->
  split (join tag.1 [a] ++ s) = w.
Proof.
  intros Ht Ha -> Hs. rewrite join1. norm_key.
  repeat (apply elem_of_cons in Ht as [->|Ht]); [..|by apply not_elem_of_nil in Ht];
    cbn [fst snd] in *; unfold split; cbn [has_prefix]; simpl; lens;
    match goal with |- context [if ?b then _ else _] => destruct b eqn:E end; bool_prop; try lia;
    change (len PrefixAddr) with 5 in *; change (len PrefixELog) with 5 in *;
    change (len PrefixTVal) with 5 in *; change (len PrefixSig) with 4 in *; lia.
Qed.

Lemma split_Set t p v e :
  len t = 32 -> len v = 32 -> len e = 20 -> split (SetKey t p v e) = setSplit.
Proof.
  intros Ht Hv He. unfold SetKey, SetPrefix. rewrite join3. norm_key. unfold split. simpl. lens.
  rewrite Ht, Hv, He. done.
Qed.

(** The bloom prefix of a stored key, shared with the readers. *)
Lemma bloom_key_stored k p : stored_key k p -> bloom_key k = p.
Proof.
  assert (whole : forall k, split k = len k -> bloom_key k = k).
  { intros k' H. unfold bloom_key. rewrite H, len_to_nat. apply take_ge. done. }
  destruct 1 as [tag n Ht|tag h Ht|addr n Ha|addr n Ha|addr slot n Ha Hs|addr n Ha
    |e t n He Hl|v t n Hv Hl|t n Hl|t p v e Hl Hv He].
  - apply whole. unfold numKey.
    by repeat (apply elem_of_cons in Ht as [->|Ht]); [..|by apply not_elem_of_nil in Ht].
  - apply whole.
    by repeat (apply elem_of_cons in Ht as [->|Ht]); [..|by apply not_elem_of_nil in Ht].
  - apply bloom_key_app. fold (Suffixed (AccountPrefix addr) n).
    rewrite Account_eq, split_AccountLike by done. lens. lia.
  - apply bloom_key_app. fold (Suffixed (CodeRefPrefix addr) n).
    rewrite CodeRef_eq, split_AccountLike by done. lens. lia.
  - apply bloom_key_app. fold (Suffixed (SlotPrefix addr slot) n).
    rewrite Slot_eq, split_Slot by done. lens. lia.
  - apply bloom_key_app. unfold AddrPrefix. rewrite len_join1.
    apply (split_join1 (PrefixAddr, 26)); [set_solver|cbn [fst snd]; rewrite Ha; done|rewrite Ha; done|lens; lia].
  - unfold Suffixed, ELogGroup. rewrite join2, <- app_assoc. apply bloom_key_app. unfold ELogPrefix. rewrite len_join1.
    apply (split_join1 (PrefixELog, 26)); [set_solver|cbn [fst snd]; rewrite He; done|rewrite He; done|lens; lia].
  - unfold Suffixed, TValGroup. rewrite join2, <- app_assoc. apply bloom_key_app. unfold TValPrefix. rewrite len_join1.
    apply (split_join1 (PrefixTVal, 38)); [set_solver|cbn [fst snd]; rewrite Hv; done|rewrite Hv; done|lens; lia].
  - apply bloom_key_app. unfold SigGroup. rewrite len_join1.
    apply (split_join1 (PrefixSig, 37)); [set_solver|cbn [fst snd]; rewrite Hl; done|rewrite Hl; done|lens; lia].
  - apply bloom_key_app. fold (SetKey t p v e). rewrite split_Set by done.
    unfold SetPrefix. rewrite join3. lens. rewrite Hl, Hv. done.
Qed.

(** the bloom filter of a section is built over, and probed with,
    [key[:split(key)]]. For every key the store writes that is exactly the
    family's stated prefix: the whole key for the height, TxNum and hash
    families, the key without its TxNum for the state family, and the first
    component (address, emitter, value, signature, or the set triple) for the
    posting families, at the fixed offsets the code names. *)
Theorem split_bloom_prefix k p : stored_key k p -> bloom_key k = p.
Proof. apply bloom_key_stored. Qed.

Lemma split_bloom_prefix_witness :
  bloom_key (Suffixed (SlotPrefix (replicate 20 7) (replicate 32 9)) 5)
  = SlotPrefix (replicate 20 7) (replicate 32 9).
Proof. apply split_bloom_prefix. apply SkSlot; reflexivity. Defined.

(** The prefixes of the state family: one account's, one code reference's or
    one slot's history. *)
Inductive state_prefix : bytes -> Prop :=
| SpAccount addr : len addr = 20 -> state_prefix (AccountPrefix addr)
| SpCodeRef addr : len addr = 20 -> state_prefix (CodeRefPrefix addr)
| SpSlot addr slot : len addr = 20 -> len slot = 32 -> state_prefix (SlotPrefix addr slot).

Lemma state_inj addr addr' c c' r r' :
  len addr = 20 -> len addr' = 20 ->
  PrefixState ++ addr ++ slash :: c :: slash :: r
  = PrefixState ++ addr' ++ slash :: c' :: slash :: r' ->
  addr = addr' /\ c = c' /\ r = r'.
Proof.
  intros H H' E. apply app_inv_head in E.
  apply app_inj_1 in E as [-> E]; [|unfold len in *; lia]. by inversion E.
Qed.

(** Only the state family's keys start with its tag. *)
Lemma stored_state_inv k p r :
  stored_key k p -> k = PrefixState ++ r ->
  exists q n, state_prefix q /\ k = Suffixed q n.
Proof.
  destruct 1 as [tag n Ht|tag h Ht|addr n Ha|addr n Ha|addr slot n Ha Hs|addr n Ha
    |e t n He Hl|v t n Hv Hl|t n Hl|t p v e Hl Hv He]; intros E.
  3-5: eauto using state_prefix.
  1-2: by repeat (apply elem_of_cons in Ht as [->|Ht]); [..|by apply not_elem_of_nil in Ht].
  all: unfold Suffixed, AddrPrefix, ELogGroup, TValGroup, SigGroup, SetKey, SetPrefix in E;
    rewrite ?join2, ?join1, ?join3, <- ?app_assoc in E; done.
Qed.

(** A state history is a key range, shared with the readers. *)
Lemma history_range p k q s :
  state_prefix p -> stored_key k q -> ble p k -> ble k (p ++ s) ->
  exists n, k = Suffixed p n.
Proof.
  intros Hp Hk Hlo Hhi. pose proof (between_has_prefix _ _ _ Hlo Hhi) as Hpre.
  apply has_prefix_spec in Hpre as [r Hr].
  assert (exists t, p = PrefixState ++ t) as [t Ht].
  { destruct Hp; unfold AccountPrefix, CodeRefPrefix, SlotPrefix; eauto. }
  destruct (stored_state_inv k q (t ++ r) Hk) as (q' & n & Hq & ->).
  { by rewrite Hr, Ht, <- app_assoc. }
  exists n. f_equal.
  destruct Hq as [a Ha|a Ha|a b Ha Hb], Hp as [a' Ha'|a' Ha'|a' b' Ha' Hb'];
    rewrite ?Account_eq, ?CodeRef_eq, ?Slot_eq in Hr;
    unfold AccountPrefix, CodeRefPrefix, SlotPrefix in Hr; rewrite <- !app_assoc in Hr;
    apply state_inj in Hr as (-> & Hc & Hr); try done.
  apply app_inj_1 in Hr as [-> _]; [done|unfold len in *; lia].
Qed.

(** an account's, a code reference's or a slot's history is one contiguous
    key range: a key the store writes that lies between the prefix and the
    prefix extended by any suffix is a row of that very history, never of
    another account, another slot or another family. *)
Theorem history_contiguous p k q s :
  state_prefix p -> stored_key k q -> ble p k -> ble k (p ++ s) ->
  exists n, k = Suffixed p n.
Proof. apply history_range. Qed.

Lemma history_contiguous_witness :
  exists n, Suffixed (AccountPrefix (replicate 20 7)) 5
            = Suffixed (AccountPrefix (replicate 20 7)) n.
Proof.
  eapply (history_contiguous _ _ _ (replicate 8 255)).
  - apply SpAccount. reflexivity.
  - apply SkAccount. reflexivity.
  - vm_compute. discriminate.
  - vm_compute. discriminate.
Defined.

Lemma lookup_addrEnd addr r :
  len addr = 20 -> (PrefixState ++ addr ++ slash :: r) !! 26%nat = Some slash.
Proof.
  intros H. rewrite app_assoc. apply list_lookup_middle. rewrite length_app.
  unfold len in H. simpl. lia.
Qed.

(** What SplitStateKey must return for a prefix: the kind, address and slot. *)
Definition state_parts (kind : Z) (addr slot : bytes) : bytes :=
  if kind =? 115 then SlotPrefix addr slot
  else if kind =? 97 then AccountPrefix addr else CodeRefPrefix addr.

Lemma SplitStateKey_step addr c r :
  len addr = 20 -> 
  SplitStateKey (PrefixState ++ addr ++ slash :: c :: slash :: r)
  = (if (c =? 97) || (c =? 99) then
       if len r =? 0 then Ok (c, addr, []) else Err "store: not a state a or c key"
     else if c =? 115 then
       if len r =? 33 then let* slot := slice r 0 32 in Ok (c, addr, slot)
       else Err "store: not a state s key"
     else Err "store: unknown state kind").
Proof.
  intros Ha. unfold SplitStateKey. pose proof (len_nonneg r).
  rewrite has_prefix_app. change (len PrefixState) with 6. change (Z.to_nat (6 + 20)) with 26%nat.
  rewrite lookup_addrEnd by done. cbn [default]. rewrite Z.eqb_refl. lens.
  change (len PrefixState) with 6. rewrite Ha.
  rewrite (proj2 (Z.ltb_ge _ _)) by lia. cbn [orb negb].
  replace (PrefixState ++ addr ++ slash :: c :: slash :: r)
    with ((PrefixState ++ addr ++ [slash]) ++ c :: slash :: r) by (by rewrite <- !app_assoc).
  rewrite index_app by (lens; change (len PrefixState) with 6; lia). cbn [rbind].
  rewrite <- !app_assoc. rewrite slice_app by (change (len PrefixState) with 6; lia). cbn [rbind].
  replace (6 + (20 + (1 + (1 + (1 + len r)))) =? 6 + 20 + 3) with (len r =? 0)
    by (apply Bool.eq_true_iff_eq; rewrite !Z.eqb_eq; lia).
  replace (6 + (20 + (1 + (1 + (1 + len r)))) =? 6 + 20 + 3 + 32 + 1) with (len r =? 33)
    by (apply Bool.eq_true_iff_eq; rewrite !Z.eqb_eq; lia).
  case_test; [done|]. case_test; [|done]. case_test; [|done]. f_equal.
  pose proof (take_drop 32 r) as Hr. rewrite <- Hr.
  assert (len (take 32 r) = 32) by (unfold len in *; rewrite length_take; lia).
  rewrite (slice_app [] (take 32 r) (drop 32 r)) by (lens; lia).
  replace (PrefixState ++ addr ++ [slash] ++ c :: slash :: take 32 r ++ drop 32 r)
    with ((PrefixState ++ addr ++ [slash; c; slash]) ++ take 32 r ++ drop 32 r)
    by (by rewrite <- !app_assoc).
  apply slice_app; lens; change (len PrefixState) with 6; lia.
Qed.

(** [SplitStateKey] inverts the three state-key constructors: the kind
    byte, the address and the slot come back exactly, and a state key of any
    other length is refused with an error rather than cut in the wrong place. *)
Theorem SplitStateKey_roundtrip kind addr slot :
  len addr = 20 -> len slot = 32 -> kind ∈ [97; 99; 115] ->
  SplitStateKey (state_parts kind addr slot)
  = Ok (kind, addr, if kind =? 115 then slot else [])
  /\ forall x, x <> [] -> exists m, SplitStateKey (state_parts kind addr slot ++ x) = Err m.
Proof.
  intros Ha Hs Hk.
  assert (Hl : slice (slot ++ [slash]) 0 32 = Ok slot)
    by (apply (slice_app [] slot [slash]); lens; lia).
  repeat (apply elem_of_cons in Hk as [->|Hk]); [..|by apply not_elem_of_nil in Hk];
    unfold state_parts, AccountPrefix, CodeRefPrefix, SlotPrefix; cbn [Z.eqb Pos.eqb];
    split; [|intros x Hx; assert (0 < len x) by (destruct x; [done|lensimp])
            | |intros x Hx; assert (0 < len x) by (destruct x; [done|lensimp])
            | |intros x Hx; assert (0 < len x) by (destruct x; [done|lensimp])];
    rewrite <- ?app_assoc; change (str "/a/") with [slash; 97; slash];
    change (str "/c/") with [slash; 99; slash]; change (str "/s/") with [slash; 115; slash];
    cbn [app]; rewrite SplitStateKey_step by done; cbn [Z.eqb Pos.eqb orb]; lens.
  1,3: done.
  3: by rewrite Hs, Hl.
  1,2: rewrite (proj2 (Z.eqb_neq _ _)) by lia; eauto.
  rewrite (proj2 (Z.eqb_neq _ _)) by lia; eauto.
Qed.

Lemma SplitStateKey_roundtrip_witness :
  SplitStateKey (state_parts 115 (replicate 20 7) (replicate 32 9))
  = Ok (115, replicate 20 7, replicate 32 9).
Proof.
  refine (proj1 (SplitStateKey_roundtrip 115 (replicate 20 7) (replicate 32 9) _ _ _));
    [reflexivity|reflexivity|]. apply list_elem_of_In. simpl. auto.
Defined.

End Format.
