(* ===== verification/Receipts.v ===== *)
(** * store/receipts.go: the log and receipt record codecs

    The block-level records (stored logs, stored receipts, and the tail record
    that frames both) and the per-transaction receipt row. Records are parsed
    at a position [pos] into the whole record, as the code does. A slice
    expression is bounded by the record's length. *)

From S2P Require Import Prelude Bytes.

Module Receipts.

(** ** Data *)

Record Log := MkLog { Address : bytes; Topics : list bytes; Data : bytes }.
Record Receipt := MkReceipt { Status : Z; GasUsed : Z; Logs : list Log }.
Record StoredLog := MkStoredLog { slLog : Log; TxIndex : Z }.
Record StoredRcpt := MkStoredRcpt { srGas : Z; CumulativeGas : Z; srStatus : Z }.

(** [make([]T, 0, n)] with [sizeof(T) = size] panics past the address space
    (2^48 bytes on a 64 bit Linux). *)
Definition make_ok (size n : Z) : bool := n * size <=? 2 ^ 48.
Definition sizeof_StoredLog : Z := 80.
Definition sizeof_Hash : Z := 32.

(** ** Encoders *)

Definition enc_log (l : Log) : bytes :=
  Address l ++ append_uvarint (len (Topics l)) ++ concat (Topics l)
  ++ append_uvarint (len (Data l)) ++ Data l.

(** The body of the two loops of [EncodeStoredLogs]: the log and its
    transaction's index. *)
Definition enc_block_log (ti : nat) (l : Log) : bytes :=
  enc_log l ++ append_uvarint (Z.of_nat ti).

Definition nLogs (receipts : list Receipt) : Z :=
  foldr (fun r n => len (Logs r) + n) 0 receipts.

Fixpoint enc_receipts (ti : nat) (receipts : list Receipt) : bytes :=
  match receipts with
  | [] => []
  | r :: rs => concat (map (enc_block_log ti) (Logs r)) ++ enc_receipts (S ti) rs
  end.

Definition EncodeStoredLogs (receipts : list Receipt) : bytes :=
  if nLogs receipts =? 0 then []
  else append_uvarint (nLogs receipts) ++ enc_receipts 0 receipts.

Definition enc_rcpt (r : Receipt) : bytes := append_uvarint (GasUsed r) ++ [Status r mod 256].

Definition EncodeStoredReceipts (receipts : list Receipt) : bytes :=
  concat (map enc_rcpt receipts).

Definition EncodeTailRcpt (logsRec rcptRec : bytes) : bytes :=
  if (len logsRec =? 0) && (len rcptRec =? 0) then []
  else append_uvarint (len logsRec) ++ logsRec ++ rcptRec.

Definition EncodeTxReceipt (r : Receipt) (cumulativeGasUsed : Z) : bytes :=
  append_uvarint (Status r) ++ append_uvarint (GasUsed r)
  ++ append_uvarint cumulativeGasUsed ++ append_uvarint (len (Logs r))
  ++ concat (map enc_log (Logs r)).

(** ** Decoders *)

(** [binary.Uvarint(rec[pos:])], [k <= 0] being the caller's error. *)
Definition next (what : string) (rec : bytes) (pos : Z) : res (Z * Z) :=
  let* s := slice_from rec pos in
  let '(v, k) := uvarint s in
  if k <=? 0 then Err what else Ok (v, pos + k).

(** [copy(t[:], rec[pos:pos+32])], [nt] times. The loop stops at the first
    slice out of range, so the record's length bounds the rounds. *)
Fixpoint topics_loop (fuel : nat) (rec : bytes) (nt j pos : Z) : res (list bytes * Z) :=
  if j <? nt then
    match fuel with
    | O => Panic
    | S fuel =>
        let* t := slice rec pos (pos + 32) in
        let* (ts, pos) := topics_loop fuel rec nt (j + 1) (pos + 32) in
        Ok (t :: ts, pos)
    end
  else Ok ([], pos).

Fixpoint stored_logs_loop (fuel : nat) (rec : bytes) (n i pos : Z) : res (list StoredLog) :=
  if i <? n then
    match fuel with
    | O => Panic
    | S fuel =>
        if len rec <? pos + 20 then Err "stored logs: truncated addr" else
        let* addr := slice rec pos (pos + 20) in
        let pos := pos + 20 in
        let* (nt, pos) := next "stored logs: bad topic count" rec pos in
        let* (ts, pos) := topics_loop (S (length rec)) rec nt 0 pos in
        let* (dl, pos) := next "stored logs: bad data len" rec pos in
        let* data := slice rec pos (i64 (pos + i64 dl)) in
        let pos := i64 (pos + i64 dl) in
        let* (ti, pos) := next "stored logs: bad tx index" rec pos in
        let* out := stored_logs_loop fuel rec n (i + 1) pos in
        Ok (MkStoredLog (MkLog addr ts data) ti :: out)
    end
  else Ok [].

Definition DecodeStoredLogs (rec : bytes) : res (list StoredLog) :=
  let '(n, pos) := uvarint rec in
  if pos <=? 0 then Err "stored logs: bad count"
  else if make_ok sizeof_StoredLog n then stored_logs_loop (S (length rec)) rec n 0 pos
  else Panic.

Fixpoint stored_rcpts_loop (fuel : nat) (rec : bytes) (pos cum : Z) : res (list StoredRcpt) :=
  if pos <? len rec then
    match fuel with
    | O => Panic
    | S fuel =>
        let* s := slice_from rec pos in
        let '(g, k) := uvarint s in
        if (k <=? 0) || (len rec <=? pos + k) then Err "stored receipts: truncated" else
        let pos := pos + k in
        let cum := u64 (cum + g) in
        let* st := index rec pos in
        let* out := stored_rcpts_loop fuel rec (pos + 1) cum in
        Ok (MkStoredRcpt g cum st :: out)
    end
  else Ok [].

Definition DecodeStoredReceipts (rec : bytes) : res (list StoredRcpt) :=
  stored_rcpts_loop (S (length rec)) rec 0 0.

Definition DecodeTailRcpt (rec : bytes) : res (bytes * bytes) :=
  let '(n, pos) := uvarint rec in
  if (pos <=? 0) || (len rec <? i64 (pos + i64 n)) then Err "tail receipts: bad framing" else
  let* logsRec := slice rec pos (i64 (pos + i64 n)) in
  let* rcptRec := slice_from rec (i64 (pos + i64 n)) in
  Ok (logsRec, rcptRec).

Fixpoint tx_logs_loop (fuel : nat) (rec : bytes) (n i pos : Z) : res (list Log) :=
  if i <? n then
    match fuel with
    | O => Panic
    | S fuel =>
        if len rec <? pos + 20 then Err "tx receipt: truncated addr" else
        let* addr := slice rec pos (pos + 20) in
        let pos := pos + 20 in
        let* (nt, pos) := next "tx receipt: bad topic count" rec pos in
        if len rec <? i64 (pos + i64 (i64 nt * 32)) then Err "tx receipt: truncated topics" else
        if negb (make_ok sizeof_Hash nt) then Panic else
        let* (ts, pos) := topics_loop (S (length rec)) rec nt 0 pos in
        let* (dl, pos) := next "tx receipt: bad data len" rec pos in
        if len rec <? i64 (pos + i64 dl) then Err "tx receipt: truncated data" else
        let* data := slice rec pos (i64 (pos + i64 dl)) in
        let pos := i64 (pos + i64 dl) in
        let* out := tx_logs_loop fuel rec n (i + 1) pos in
        Ok (MkLog addr ts data :: out)
    end
  else Ok [].

Definition DecodeTxReceipt (rec : bytes) : res (Z * Z * Z * list Log) :=
  let* (status, pos) := next "tx receipt: bad status" rec 0 in
  let* (gasUsed, pos) := next "tx receipt: bad gas used" rec pos in
  let* (cumulativeGasUsed, pos) := next "tx receipt: bad cumulative gas" rec pos in
  let* (n, pos) := next "tx receipt: bad log count" rec pos in
  if negb (make_ok sizeof_StoredLog n) then Panic else
  let* logs := tx_logs_loop (S (length rec)) rec n 0 pos in
  Ok (status, gasUsed, cumulativeGasUsed, logs).

(** ** Well-formedness: what the Go types guarantee, plus sizes that fit memory *)

Definition log_ok (l : Log) : Prop :=
  len (Address l) = 20 /\ Forall (fun t => len t = 32) (Topics l) /\
  len (Topics l) < 2 ^ 40 /\ len (Data l) < 2 ^ 40.

Definition receipt_ok (r : Receipt) : Prop :=
  u64_ok (Status r) /\ u64_ok (GasUsed r) /\ Forall log_ok (Logs r) /\ len (Logs r) < 2 ^ 40.

(** The reference view of a block's logs: each with its transaction's index. *)
Fixpoint tagged_from (ti : nat) (receipts : list Receipt) : list (Log * nat) :=
  match receipts with
  | [] => []
  | r :: rs => map (fun l => (l, ti)) (Logs r) ++ tagged_from (S ti) rs
  end.

Definition stored_of (x : Log * nat) : StoredLog := MkStoredLog x.1 (Z.of_nat x.2).

(** The running sum of the gas used, modulo 2^64. *)
Fixpoint with_cumulative (cum : Z) (receipts : list Receipt) : list StoredRcpt :=
  match receipts with
  | [] => []
  | r :: rs => let cum := u64 (cum + GasUsed r) in
      MkStoredRcpt (GasUsed r) cum (Status r mod 256) :: with_cumulative cum rs
  end.

(** ** Reading back what was appended *)

Lemma next_app what a v r :
  u64_ok v -> next what (a ++ append_uvarint v ++ r) (len a) = Ok (v, len (a ++ append_uvarint v)).
Proof.
  intros Hv. unfold next. rewrite slice_tail by done. cbn [rbind].
  rewrite uvarint_append by done. pose proof (append_uvarint_pos v).
  rewrite (proj2 (Z.leb_gt _ _)) by done. by lens.
Qed.

Lemma slice_mid a b c lo hi :
  lo = len a -> hi = len (a ++ b) -> slice (a ++ b ++ c) lo hi = Ok b.
Proof. intros -> ->. apply slice_app; lens; lia. Qed.

Lemma topics_loop_app fuel ts a r nt j :
  Forall (fun t => len t = 32) ts -> nt = j + len ts -> (length ts < fuel)%nat ->
  topics_loop fuel (a ++ concat ts ++ r) nt j (len a) = Ok (ts, len (a ++ concat ts)).
Proof.
  revert fuel a j. induction ts as [|t ts IH]; intros fuel a j Ht Hnt Hf.
  - subst. destruct fuel; [simpl in Hf; lia|]. cbn [topics_loop concat].
    rewrite len_nil, Z.add_0_r, Z.ltb_irrefl. by rewrite app_nil_r.
  - apply Forall_cons in Ht as [Ht Hts]. destruct fuel as [|fuel]; [simpl in *; lia|].
    pose proof (len_nonneg ts). lens. cbn [topics_loop concat].
    rewrite (proj2 (Z.ltb_lt _ _)) by lia. rewrite <- app_assoc.
    rewrite slice_mid by (lens; lia). cbn [rbind].
    replace (len a + 32) with (len (a ++ t)) by (lens; lia).
    rewrite (app_assoc a t). rewrite (IH fuel (a ++ t)); [|done|lia|simpl in *; lia].
    cbn [rbind]. lens. do 2 f_equal. lia.
Qed.

Lemma length_concat_topics (ts : list bytes) :
  Forall (fun t => len t = 32) ts -> (length ts <= length (concat ts))%nat.
Proof.
  induction 1 as [|t ts Ht _ IH]; simpl; [done|]. rewrite length_app. unfold len in Ht. lia.
Qed.

Lemma i64_pos_add a n : 0 <= a < 2 ^ 62 -> 0 <= n < 2 ^ 40 -> i64 (a + i64 n) = a + n.
Proof. intros. rewrite (i64_small n) by lia. apply i64_small. lia. Qed.

Lemma len_put_uvarint f v : len (put_uvarint f v) <= Z.of_nat f + 1.
Proof.
  revert v; induction f as [|f IH]; intros w; simpl; [lens; lia|].
  case_test; lens; [lia|]. specialize (IH (Z.shiftr w 7)). lia.
Qed.

Lemma len_uvarint_le v : len (append_uvarint v) <= 10.
Proof. apply (len_put_uvarint 9). Qed.

(** One log of a transaction's receipt row, read back in place. *)
Lemma tx_logs_loop_app fuel ls a r n i rec :
  rec = a ++ concat (map enc_log ls) ++ r ->
  Forall log_ok ls -> n = i + len ls -> (length ls < fuel)%nat -> len rec < 2 ^ 62 ->
  tx_logs_loop fuel rec n i (len a) = Ok ls.
Proof.
  revert fuel a i. induction ls as [|l ls IH]; intros fuel a i Hr Hl Hn Hf Hlen.
  - destruct fuel; [simpl in Hf; lia|]. cbn [tx_logs_loop]. rewrite Hn, len_nil.
    by rewrite Z.add_0_r, Z.ltb_irrefl.
  - apply Forall_cons in Hl as [(Ha & Ht & Htn & Hd) Hls].
    destruct fuel as [|fuel]; [simpl in Hf; lia|].
    destruct l as [ad ts da]; cbn [Address Topics Data] in *.
    pose proof (len_nonneg ls). pose proof (len_nonneg ts). pose proof (len_nonneg da).
    pose proof (length_concat_topics ts Ht) as Hct.
    cbn [map concat] in Hr. unfold enc_log in Hr at 1. cbn [Address Topics Data] in Hr.
    rewrite <- !app_assoc in Hr.
    lens. cbn [tx_logs_loop]. rewrite (proj2 (Z.ltb_lt _ _)) by lia.
    assert (Hbound : len a + 20 <= len rec) by (rewrite Hr; lensimp).
    rewrite (proj2 (Z.ltb_ge _ _)) by lia.
    rewrite Hr at 1. rewrite slice_mid by (lens; lia). cbn [rbind].
    replace (len a + 20) with (len (a ++ ad)) by (lens; lia).
    rewrite (app_assoc a ad) in Hr.
    rewrite Hr at 1. rewrite next_app by (split; lia). cbn [rbind].
    rewrite (app_assoc (a ++ ad)) in Hr. set (a1 := (a ++ ad) ++ append_uvarint (len ts)) in *.
    assert (Hc : len (concat ts) = 32 * len ts).
    { clear -Ht. induction Ht as [|t ts Ht _ IH]; [done|]. cbn [concat]. lens. lia. }
    assert (Hb1 : len a1 + 32 * len ts + len da <= len rec) by (rewrite Hr; lensimp).
    pose proof (len_nonneg a1). rewrite (i64_small (len ts)) by lia.
    rewrite (i64_small (len ts * 32)), (i64_small (len a1 + _)) by lia.
    rewrite (proj2 (Z.ltb_ge _ _)) by (pose proof (len_nonneg a1); lia).
    assert (Hmk : make_ok sizeof_Hash (len ts) = true)
      by (unfold make_ok, sizeof_Hash; apply Z.leb_le; lia).
    rewrite Hmk. cbn [negb]. rewrite Hr at 1 2.
    rewrite topics_loop_app; [|done|lia|rewrite !length_app; lia].
    cbn [rbind]. rewrite (app_assoc a1) in Hr.
    rewrite Hr at 1. rewrite next_app by (split; lia). cbn [rbind].
    rewrite (app_assoc (a1 ++ concat ts)) in Hr.
    set (a2 := (a1 ++ concat ts) ++ append_uvarint (len da)) in *.
    assert (Hb2 : len a2 + len da <= len rec) by (rewrite Hr; lensimp).
    rewrite !i64_pos_add by (pose proof (len_nonneg a2); lia).
    rewrite (proj2 (Z.ltb_ge _ _)) by lia.
    rewrite Hr at 1. rewrite slice_app by (lens; lia). cbn [rbind].
    rewrite (app_assoc a2) in Hr. replace (len a2 + len da) with (len (a2 ++ da)) by (lens; lia).
    rewrite (IH fuel (a2 ++ da) (i + 1)); [done|done|done|lia|simpl in Hf; lia|done].
Qed.

(** The same for the block-level record, whose logs carry their index. *)
Lemma stored_logs_loop_app fuel ls a r n i rec :
  rec = a ++ concat (map (fun x => enc_block_log x.2 x.1) ls) ++ r ->
  Forall (fun x => log_ok x.1 /\ Z.of_nat x.2 < 2 ^ 64) ls ->
  n = i + len ls -> (length ls < fuel)%nat -> len rec < 2 ^ 62 ->
  stored_logs_loop fuel rec n i (len a) = Ok (map stored_of ls).
Proof.
  revert fuel a i. induction ls as [|[l ti] ls IH]; intros fuel a i Hr Hl Hn Hf Hlen.
  - destruct fuel; [simpl in Hf; lia|]. cbn [stored_logs_loop]. rewrite Hn, len_nil.
    by rewrite Z.add_0_r, Z.ltb_irrefl.
  - apply Forall_cons in Hl as [[(Ha & Ht & Htn & Hd) Hti] Hls].
    destruct fuel as [|fuel]; [simpl in Hf; lia|].
    destruct l as [ad ts da]; cbn [Address Topics Data fst snd] in *.
    pose proof (len_nonneg ls). pose proof (len_nonneg ts). pose proof (len_nonneg da).
    pose proof (length_concat_topics ts Ht) as Hct.
    cbn [map concat fst snd] in Hr. unfold enc_block_log in Hr at 1. unfold enc_log in Hr at 1.
    cbn [Address Topics Data] in Hr. rewrite <- !app_assoc in Hr.
    lens. cbn [stored_logs_loop]. rewrite (proj2 (Z.ltb_lt _ _)) by lia.
    assert (Hbound : len a + 20 <= len rec) by (rewrite Hr; lensimp).
    rewrite (proj2 (Z.ltb_ge _ _)) by lia.
    rewrite Hr at 1. rewrite slice_mid by (lens; lia). cbn [rbind].
    replace (len a + 20) with (len (a ++ ad)) by (lens; lia).
    rewrite (app_assoc a ad) in Hr.
    rewrite Hr at 1. rewrite next_app by (split; lia). cbn [rbind].
    rewrite (app_assoc (a ++ ad)) in Hr. set (a1 := (a ++ ad) ++ append_uvarint (len ts)) in *.
    rewrite Hr at 1 2. rewrite topics_loop_app; [|done|lia|rewrite !length_app; lia].
    cbn [rbind]. rewrite (app_assoc a1) in Hr.
    rewrite Hr at 1. rewrite next_app by (split; lia). cbn [rbind].
    rewrite (app_assoc (a1 ++ concat ts)) in Hr.
    set (a2 := (a1 ++ concat ts) ++ append_uvarint (len da)) in *.
    assert (Hb2 : len a2 + len da <= len rec) by (rewrite Hr; lensimp).
    rewrite !i64_pos_add by (pose proof (len_nonneg a2); lia).
    rewrite Hr at 1. rewrite slice_app by (lens; lia). cbn [rbind].
    rewrite (app_assoc a2) in Hr. replace (len a2 + len da) with (len (a2 ++ da)) by (lens; lia).
    rewrite Hr at 1. rewrite next_app by (split; lia). cbn [rbind].
    rewrite (app_assoc (a2 ++ da)) in Hr.
    rewrite (IH fuel _ (i + 1) Hr); [done|done|lia|simpl in Hf; lia|done].
Qed.

Lemma enc_receipts_tagged ti rs :
  enc_receipts ti rs = concat (map (fun x => enc_block_log x.2 x.1) (tagged_from ti rs)).
Proof.
  revert ti; induction rs as [|r rs IH]; intros ti; [done|]. cbn [enc_receipts tagged_from].
  rewrite map_app, concat_app, IH, map_map. done.
Qed.

Lemma nLogs_tagged ti rs : nLogs rs = len (tagged_from ti rs).
Proof.
  revert ti; induction rs as [|r rs IH]; intros ti; [done|]. cbn [nLogs foldr tagged_from].
  fold (nLogs rs). rewrite (IH (S ti)). unfold len. rewrite length_app, length_map. lia.
Qed.

Lemma tagged_ok ti rs :
  Forall receipt_ok rs -> Z.of_nat ti + len rs < 2 ^ 64 ->
  Forall (fun x => log_ok x.1 /\ Z.of_nat x.2 < 2 ^ 64) (tagged_from ti rs).
Proof.
  intros H; revert ti; induction H as [|r rs (_ & _ & Hl & _) _ IH]; intros ti Hti;
    cbn [tagged_from]; [constructor|]. pose proof (len_nonneg rs). lens.
  apply Forall_app; split; [|apply IH; lia].
  apply Forall_map. eapply Forall_impl; [exact Hl|]. intros l Hx. split; [done|simpl; lia].
Qed.

Lemma enc_log_pos l : log_ok l -> (1 <= length (enc_log l))%nat.
Proof. intros (Ha & _). unfold enc_log. rewrite length_app. unfold len in Ha. lia. Qed.

Lemma length_concat_pos {A} (f : A -> bytes) ls :
  Forall (fun x => 1 <= length (f x))%nat ls -> (length ls <= length (concat (map f ls)))%nat.
Proof. induction 1; simpl; [done|]. rewrite length_app. lia. Qed.

(** [DecodeStoredLogs] is the inverse of [EncodeStoredLogs] on every block
    that has a log: it returns, in order, each log of each receipt with the
    index of its transaction; a block with no log encodes to nothing. *)
Theorem DecodeStoredLogs_Encode rs :
  Forall receipt_ok rs -> len (tagged_from 0 rs) < 2 ^ 41 -> len rs < 2 ^ 63 ->
  len (EncodeStoredLogs rs) < 2 ^ 62 ->
  (tagged_from 0 rs = [] -> EncodeStoredLogs rs = []) /\
  (tagged_from 0 rs <> [] ->
   DecodeStoredLogs (EncodeStoredLogs rs) = Ok (map stored_of (tagged_from 0 rs))).
Proof.
  intros Hok Hn Hrs. unfold EncodeStoredLogs. rewrite (nLogs_tagged 0), enc_receipts_tagged.
  pose proof (tagged_ok 0 rs Hok ltac:(lia)) as Ht. revert Hn Ht.
  generalize (tagged_from 0 rs) as ls. intros ls Hn Ht Hlen.
  split; [by intros ->|]. intros Hne. pose proof (len_nonneg ls).
  assert (len ls <> 0) by (destruct ls; [done|lensimp]).
  rewrite (proj2 (Z.eqb_neq _ _)) in * by done. unfold DecodeStoredLogs.
  rewrite uvarint_append by (split; lia). pose proof (append_uvarint_pos (len ls)).
  rewrite (proj2 (Z.leb_gt _ _)) by done.
  assert (Hmk : make_ok sizeof_StoredLog (len ls) = true)
    by (unfold make_ok, sizeof_StoredLog; apply Z.leb_le; lia).
  rewrite Hmk. eapply (stored_logs_loop_app _ _ _ []); try done.
  - by rewrite app_nil_r.
  - rewrite length_app. enough (length ls <= length (concat (map (λ x, enc_block_log x.2 x.1) ls)))%nat by lia.
    apply length_concat_pos. eapply Forall_impl; [exact Ht|]. intros x [Hx _]. unfold enc_block_log.
    rewrite length_app. pose proof (enc_log_pos _ Hx). lia.
Qed.

(** the receipt row round trip: decoding [EncodeTxReceipt r cum] gives back
    the status, the gas used, the cumulative gas and the logs, field by field. *)
Theorem DecodeTxReceipt_Encode r cum :
  receipt_ok r -> u64_ok cum -> len (EncodeTxReceipt r cum) < 2 ^ 62 ->
  DecodeTxReceipt (EncodeTxReceipt r cum) = Ok (Status r, GasUsed r, cum, Logs r).
Proof.
  intros (Hs & Hg & Hl & Hn) Hc Hlen. unfold DecodeTxReceipt.
  set (rec := EncodeTxReceipt r cum) in *. pose proof (len_nonneg (Logs r)).
  assert (Hr : rec = [] ++ append_uvarint (Status r) ++ append_uvarint (GasUsed r)
    ++ append_uvarint cum ++ append_uvarint (len (Logs r))
    ++ concat (map enc_log (Logs r)) ++ []) by (subst rec; by rewrite app_nil_r).
  rewrite Hr at 1. rewrite (next_app _ [] _) by done. cbn [rbind]. rewrite app_assoc in Hr.
  rewrite Hr at 1. rewrite next_app by done. cbn [rbind]. rewrite app_assoc in Hr.
  rewrite Hr at 1. rewrite next_app by done. cbn [rbind]. rewrite app_assoc in Hr.
  rewrite Hr at 1. rewrite next_app by (split; lia). cbn [rbind]. rewrite app_assoc in Hr.
  assert (Hmk : make_ok sizeof_StoredLog (len (Logs r)) = true)
    by (unfold make_ok, sizeof_StoredLog; apply Z.leb_le; lia).
  rewrite Hmk. cbn [negb].
  erewrite tx_logs_loop_app; [done|exact Hr|done|lia| |done].
  rewrite Hr, !length_app.
  enough (length (Logs r) <= length (concat (map enc_log (Logs r))))%nat by lia.
  apply length_concat_pos. eapply Forall_impl; [exact Hl|]. apply enc_log_pos.
Qed.

Lemma stored_rcpts_loop_app fuel rs a cum :
  let enc := concat (map enc_rcpt rs) in
  Forall receipt_ok rs -> (length rs < fuel)%nat ->
  stored_rcpts_loop fuel (a ++ enc) (len a) cum = Ok (with_cumulative cum rs).
Proof.
  revert fuel a cum. induction rs as [|r rs IH]; intros fuel a cum enc Hok Hf; subst enc.
  - destruct fuel; [simpl in Hf; lia|]. cbn [stored_rcpts_loop map concat].
    by rewrite app_nil_r, Z.ltb_irrefl.
  - apply Forall_cons in Hok as [(Hs & Hg & _) Hok]. destruct fuel as [|fuel]; [simpl in Hf; lia|].
    cbn [stored_rcpts_loop map concat]. 
    change (enc_rcpt r) with (append_uvarint (GasUsed r) ++ [Status r mod 256]).
    rewrite <- app_assoc.
    pose proof (append_uvarint_pos (GasUsed r)). rewrite (proj2 (Z.ltb_lt _ _)) by lensimp.
    rewrite slice_tail by done. cbn [rbind]. rewrite uvarint_append by done.
    rewrite (proj2 (Z.leb_gt _ _)) by lia. cbn [orb].
    rewrite (proj2 (Z.leb_gt _ _)) by lensimp.
    rewrite app_assoc. cbn [app].
    rewrite index_app by (lens; lia). cbn [rbind].
    replace (len a + len (append_uvarint (GasUsed r)) + 1)
      with (len ((a ++ append_uvarint (GasUsed r)) ++ [Status r mod 256])) by (lens; lia).
    rewrite cons_middle, (app_assoc _ [_]). rewrite IH; [done|done|simpl in Hf; lia].
Qed.

(** [DecodeStoredReceipts] returns what [EncodeStoredReceipts] packed,
    the status truncated to a byte, with the running sum of the gas used
    (modulo 2^64) as the cumulative gas. *)
Theorem DecodeStoredReceipts_Encode rs :
  Forall receipt_ok rs ->
  DecodeStoredReceipts (EncodeStoredReceipts rs) = Ok (with_cumulative 0 rs).
Proof.
  intros H. unfold DecodeStoredReceipts, EncodeStoredReceipts.
  apply (stored_rcpts_loop_app _ rs [] 0 H).
  enough (length rs <= length (concat (map enc_rcpt rs)))%nat by lia.
  apply length_concat_pos, Forall_true. intros r. unfold enc_rcpt. rewrite length_app.
  simpl. lia.
Qed.

(** the tail record's framing: splitting [EncodeTailRcpt logs rcpts] gives
    both halves back, either of which may be empty; nothing encodes to nothing. *)
Theorem DecodeTailRcpt_Encode logsRec rcptRec :
  len logsRec < 2 ^ 40 ->
  (logsRec = [] /\ rcptRec = [] -> EncodeTailRcpt logsRec rcptRec = []) /\
  (logsRec <> [] \/ rcptRec <> [] ->
   DecodeTailRcpt (EncodeTailRcpt logsRec rcptRec) = Ok (logsRec, rcptRec)).
Proof.
  intros Hn. split; [by intros [-> ->]|]. intros Hne. unfold EncodeTailRcpt.
  assert (Hz : (len logsRec =? 0) && (len rcptRec =? 0) = false).
  { destruct Hne; destruct logsRec, rcptRec; try done; lens; bool_prop;
      try (rewrite (proj2 (Z.eqb_neq _ _)) by lensimp; done). }
  rewrite Hz. unfold DecodeTailRcpt. pose proof (len_nonneg logsRec).
  rewrite uvarint_append by (split; lia). pose proof (append_uvarint_pos (len logsRec)).
  pose proof (len_uvarint_le (len logsRec)).
  rewrite (proj2 (Z.leb_gt _ _)) by done. rewrite i64_pos_add by lia.
  rewrite (proj2 (Z.ltb_ge _ _)) by lensimp. cbn [orb].
  rewrite slice_app by lia. cbn [rbind].
  rewrite app_assoc, slice_tail by (lens; lia). done.
Qed.

(** a corrupt tail record can crash the reader: a length varint of 2^64-1
    becomes [int(n) = -1], passes the framing check and the slice expression
    panics, where the function's contract is to return an error. *)
Theorem DecodeTailRcpt_negative_length_panics r :
  DecodeTailRcpt (append_uvarint (2 ^ 64 - 1) ++ r) = Panic.
Proof.
  unfold DecodeTailRcpt. rewrite uvarint_append by (split; lia).
  change (len (append_uvarint (2 ^ 64 - 1))) with 10. change (i64 (10 + i64 (2 ^ 64 - 1))) with 9.
  lens. change (len (append_uvarint (2 ^ 64 - 1))) with 10.
  rewrite (proj2 (Z.ltb_ge _ _)) by lensimp. done.
Qed.

(** ** Witnesses *)

Definition sample_log : Log := MkLog (replicate 20 7) [replicate 32 9; replicate 32 8] [1; 2; 3].
Definition sample_block : list Receipt :=
  [MkReceipt 1 21000 [sample_log]; MkReceipt 0 5 []; MkReceipt 1 300 [sample_log; sample_log]].

Lemma sample_log_ok : log_ok sample_log.
Proof. split_and!; [done| |done|done]. repeat constructor. Qed.

Lemma sample_block_ok : Forall receipt_ok sample_block.
Proof.
  repeat constructor; simpl; unfold u64_ok; try lia;
    repeat constructor; simpl; try lia; apply sample_log_ok.
Qed.

Lemma DecodeStoredLogs_Encode_witness :
  DecodeStoredLogs (EncodeStoredLogs sample_block)
  = Ok [MkStoredLog sample_log 0; MkStoredLog sample_log 2; MkStoredLog sample_log 2].
Proof.
  refine (proj2 (DecodeStoredLogs_Encode sample_block _ _ _ _) _);
    [exact sample_block_ok|vm_compute; reflexivity..|vm_compute; discriminate].
Defined.

Lemma DecodeTxReceipt_Encode_witness :
  DecodeTxReceipt (EncodeTxReceipt (MkReceipt 1 21000 [sample_log]) 50000)
  = Ok (1, 21000, 50000, [sample_log]).
Proof.
  apply (DecodeTxReceipt_Encode (MkReceipt 1 21000 [sample_log]) 50000).
  - exact (Forall_inv sample_block_ok).
  - split; lia.
  - vm_compute. reflexivity.
Defined.

Lemma DecodeStoredReceipts_Encode_witness :
  DecodeStoredReceipts (EncodeStoredReceipts sample_block)
  = Ok [MkStoredRcpt 21000 21000 1; MkStoredRcpt 5 21005 0; MkStoredRcpt 300 21305 1].
Proof. exact (DecodeStoredReceipts_Encode sample_block sample_block_ok). Defined.

Lemma DecodeTailRcpt_Encode_witness :
  DecodeTailRcpt (EncodeTailRcpt [1; 2] [3]) = Ok ([1; 2], [3]).
Proof.
  apply (DecodeTailRcpt_Encode [1; 2] [3]); [vm_compute; reflexivity|left; discriminate].
Defined.

End Receipts.
