(* ===== verification/Sha256.v ===== *)
(** * crypto/sha256, as the store uses it

    [sha256.Sum256] names containers (the cid/ index) and run files. Words are
    32 bit integers with their wrap-around written out. *)

From S2P Require Import Prelude Bytes.

Module Sha256.

Definition K : list Z :=
  [1116352408; 1899447441; 3049323471; 3921009573; 961987163; 1508970993; 2453635748; 2870763221;
   3624381080; 310598401; 607225278; 1426881987; 1925078388; 2162078206; 2614888103; 3248222580;
   3835390401; 4022224774; 264347078; 604807628; 770255983; 1249150122; 1555081692; 1996064986;
   2554220882; 2821834349; 2952996808; 3210313671; 3336571891; 3584528711; 113926993; 338241895;
   666307205; 773529912; 1294757372; 1396182291; 1695183700; 1986661051; 2177026350; 2456956037;
   2730485921; 2820302411; 3259730800; 3345764771; 3516065817; 3600352804; 4094571909; 275423344;
   430227734; 506948616; 659060556; 883997877; 958139571; 1322822218; 1537002063; 1747873779;
   1955562222; 2024104815; 2227730452; 2361852424; 2428436474; 2756734187; 3204031479; 3329325298].

Definition H0 : list Z :=
  [1779033703; 3144134277; 1013904242; 2773480762; 1359893119; 2600822924; 528734635; 1541459225].

Definition rotr (x : Z) (n : Z) : Z := Z.lor (Z.shiftr x n) (u32 (Z.shiftl x (32 - n))).
Definition not32 (x : Z) : Z := Z.lxor x (2 ^ 32 - 1).

Definition bsig0 x := Z.lxor (rotr x 2) (Z.lxor (rotr x 13) (rotr x 22)).
Definition bsig1 x := Z.lxor (rotr x 6) (Z.lxor (rotr x 11) (rotr x 25)).
Definition ssig0 x := Z.lxor (rotr x 7) (Z.lxor (rotr x 18) (Z.shiftr x 3)).
Definition ssig1 x := Z.lxor (rotr x 17) (Z.lxor (rotr x 19) (Z.shiftr x 10)).
Definition ch x y z := Z.lxor (Z.land x y) (Z.land (not32 x) z).
Definition maj x y z := Z.lxor (Z.land x y) (Z.lxor (Z.land x z) (Z.land y z)).

(** The message schedule, newest word first. *)
Fixpoint schedule (n : nat) (w : list Z) : list Z :=
  match n with
  | O => w
  | S n =>
      let at_ i := nth i w 0 in
      schedule n (u32 (ssig1 (at_ 1%nat) + at_ 6%nat + ssig0 (at_ 14%nat) + at_ 15%nat) :: w)
  end.

Definition round (s : list Z) (kw : Z * Z) : list Z :=
  match s with
  | [a; b; c; d; e; f; g; h] =>
      let t1 := h + bsig1 e + ch e f g + kw.1 + kw.2 in
      let t2 := bsig0 a + maj a b c in
      [u32 (t1 + t2); a; b; c; u32 (d + t1); e; f; g]
  | _ => s
  end.

Fixpoint words (n : nat) (b : bytes) : list Z :=
  match n with O => [] | S n => be_val (take 4 b) :: words n (drop 4 b) end.

Definition compress (h : list Z) (b : bytes) : list Z :=
  let w := rev (schedule 48 (rev (words 16 b))) in
  zip_with (fun x y => u32 (x + y)) h (fold_left round (zip K w) h).

Fixpoint blocks (n : nat) (h : list Z) (b : bytes) : list Z :=
  match n with O => h | S n => blocks n (compress h (take 64 b)) (drop 64 b) end.

(** [sha256.Sum256(b)] *)
Definition Sum256 (b : bytes) : bytes :=
  let zeros := (55 - len b) mod 64 in
  let padded := b ++ [128] ++ replicate (Z.to_nat zeros) 0 ++ bigE 8 (8 * len b) in
  concat (map (bigE 4) (blocks (Z.to_nat (len padded / 64)) H0 padded)).

Example sha256_abc :
  take 8 (Sum256 (str "abc")) = [186; 120; 22; 191; 143; 1; 207; 234].
Proof. vm_compute. reflexivity. Qed.

Example sha256_two_blocks :
  take 4 (Sum256 (str "abcdbcdecdefdefgefghfghighijhijkijkljklmklmnlmnomnopnopq")) = [36; 141; 106; 97].
Proof. vm_compute. reflexivity. Qed.

Lemma blocks_length n h b : length h = 8%nat -> length (blocks n h b) = 8%nat.
Proof.
  revert h b. induction n as [|n IH]; intros h b Hh; [done|]. cbn [blocks]. apply IH.
  unfold compress. rewrite length_zip_with, Hh.
  assert (Hr : forall l s, length s = 8%nat -> length (fold_left round l s) = 8%nat).
  { induction l as [|x l IHl]; intros s Hs; [done|]. cbn [fold_left]. apply IHl.
    destruct s as [|? [|? [|? [|? [|? [|? [|? [|? [|]]]]]]]]]; done. }
  by rewrite Hr.
Qed.

(** A digest is 32 bytes. *)
Lemma len_Sum256 b : len (Sum256 b) = 32.
Proof.
  unfold Sum256. set (l := blocks _ _ _).
  assert (Hl : length l = 8%nat) by (by apply blocks_length).
  destruct l as [|? [|? [|? [|? [|? [|? [|? [|? [|]]]]]]]]]; try done.
Qed.

End Sha256.
