(* ===== verification/Container.v ===== *)
(** * store/container.go: taking containers apart and putting them back

    A container is stored as its header, its transactions and a template of
    everything else. The RLP coder and the proposervm parser are library code:
    they are the section's parameters. Offsets of a template are at 32 bits. *)

From S2P Require Import Prelude Bytes.

Module Container.
Section Container.

(** The library code the file calls. [Block] is [types.Block]. *)
Context {Block : Type}
  (ParseWithoutVerification : bytes -> option bytes)  (* the inner block's bytes *)
  (rlp_Split : bytes -> res (bytes * bytes))          (* content, rest *)
  (rlp_SplitList : bytes -> res (bytes * bytes))
  (rlp_DecodeBytes : bytes -> res Block)
  (EncodeHeader : Block -> res bytes)
  (EncodeTxs : Block -> res (list bytes))
  (EncodeBare : bytes -> list bytes -> res bytes).    (* bareBlock{Header, Txs} *)

Definition pvmTemplate (raw : bytes) (hs he ts te : Z) : res bytes :=
  let* a := slice raw 0 hs in
  let* b := slice raw he ts in
  let* c := slice_from raw te in
  Ok (bigE 4 (len a) ++ a ++ bigE 4 (len b) ++ b ++ c).

Definition Reassemble (pvm headerRLP : bytes) (txRLPs : list bytes) : res bytes :=
  if len pvm =? 0 then EncodeBare headerRLP txRLPs else
  if len pvm <? 8 then Err "store: pvm row is too short for a template" else
  let* p := slice pvm 0 4 in
  let* la := be_get 4 p in
  if len pvm <? 4 + la + 4 then Err "store: pvm row: bad prefix length" else
  let* a := slice pvm 4 (4 + la) in
  let* p := slice pvm (4 + la) (8 + la) in
  let* lb := be_get 4 p in
  if len pvm <? 8 + la + lb then Err "store: pvm row: bad tx-list header length" else
  let* b := slice pvm (8 + la) (8 + la + lb) in
  let* c := slice_from pvm (8 + la + lb) in
  Ok (a ++ headerRLP ++ b ++ concat txRLPs ++ c).

Definition blockPieces (b : Block) : res (bytes * list bytes) :=
  let* h := EncodeHeader b in
  let* txs := EncodeTxs b in
  Ok (h, txs).

Definition blockSpans (inner : bytes) : res (Z * Z * Z * Z) :=
  let* (content, rest) := rlp_SplitList inner in
  let hs := len inner - len rest - len content in
  let* (_, afterHeader) := rlp_Split content in
  let he := len inner - len afterHeader in
  let* (txs, afterTxs) := rlp_SplitList afterHeader in
  let ts := len inner - len afterTxs - len txs in
  Ok (hs, he, ts, ts + len txs).

(** [bytes.Index(s, sep)]: the first offset of [sep] in [s], or -1. *)
Fixpoint bytes_Index (s sep : bytes) : Z :=
  if has_prefix s sep then 0
  else match s with
       | [] => -1
       | _ :: s => let i := bytes_Index s sep in if i <? 0 then -1 else 1 + i
       end.

(** The inner block's bytes: the proposervm block's, else the RLP item at the
    front of the container. *)
Definition inner_bytes (raw : bytes) : res bytes :=
  match ParseWithoutVerification raw with
  | Some b => Ok b
  | None =>
      match rlp_Split raw with
      | Ok (_, rest) => slice raw 0 (len raw - len rest)
      | Err _ => Err "store: rlp split"
      | Panic => Panic
      end
  end.

Definition SplitContainer (raw : bytes) : res (bytes * Block) :=
  if len raw =? 0 then Err "store: empty container" else
  let* innerBytes := inner_bytes raw in
  let* inner := rlp_DecodeBytes innerBytes in
  let* (headerRLP, txRLPs) := blockPieces inner in
  if match Reassemble [] headerRLP txRLPs with Ok out => beqb out raw | _ => false end
  then Ok ([], inner) else
  let off := bytes_Index raw innerBytes in
  if off <? 0 then Err "store: inner block bytes are not a substring of the container" else
  let* (hs, he, ts, te) := blockSpans innerBytes in
  let* pvm := pvmTemplate raw (off + hs) (off + he) (off + ts) (off + te) in
  let* out := Reassemble pvm headerRLP txRLPs in
  if negb (beqb out raw) then Err "store: container does not round trip" else
  Ok (pvm, inner).

(** ** Theorems *)

(** The template of a container cut around its header and transactions. *)
Lemma pvmTemplate_cut A h B t C :
  pvmTemplate (A ++ h ++ B ++ t ++ C) (len A) (len A + len h)
    (len A + len h + len B) (len A + len h + len B + len t)
  = Ok (bigE 4 (len A) ++ A ++ bigE 4 (len B) ++ B ++ C).
Proof.
  unfold pvmTemplate.
  assert (H1 : slice (A ++ h ++ B ++ t ++ C) 0 (len A) = Ok A)
    by (apply (slice_app [] A); lens; lia).
  assert (H2 : slice (A ++ h ++ B ++ t ++ C) (len A + len h) (len A + len h + len B) = Ok B)
    by (rewrite (app_assoc A h); apply slice_app; lens; lia).
  assert (H3 : slice_from (A ++ h ++ B ++ t ++ C) (len A + len h + len B + len t) = Ok C)
    by (rewrite (app_assoc A h), (app_assoc _ B), (app_assoc _ t); apply slice_tail; lens; lia).
  by rewrite H1, H2, H3.
Qed.

(** Reassembling from a template puts the stored pieces back in place. *)
Lemma Reassemble_template A B C headerRLP txRLPs :
  len A < 2 ^ 32 -> len B < 2 ^ 32 ->
  Reassemble (bigE 4 (len A) ++ A ++ bigE 4 (len B) ++ B ++ C) headerRLP txRLPs
  = Ok (A ++ headerRLP ++ B ++ concat txRLPs ++ C).
Proof.
  intros HA HB. pose proof (len_nonneg A). pose proof (len_nonneg B). pose proof (len_nonneg C).
  unfold Reassemble. set (pvm := bigE 4 (len A) ++ A ++ bigE 4 (len B) ++ B ++ C).
  assert (Hlen : len pvm = 8 + len A + len B + len C) by (subst pvm; lens; lia).
  rewrite Hlen. rewrite (proj2 (Z.eqb_neq _ _)), (proj2 (Z.ltb_ge _ 8)) by lia.
  assert (S1 : slice pvm 0 4 = Ok (bigE 4 (len A))) by (apply (slice_app [] (bigE 4 (len A))); lens; lia).
  rewrite S1. cbn [rbind].
  rewrite <- (app_nil_r (bigE 4 (len A))), be_get_app by (change (256 ^ Z.of_nat 4) with (2 ^ 32); lia).
  cbn [rbind]. rewrite (proj2 (Z.ltb_ge _ _)) by lia.
  assert (S2 : slice pvm 4 (4 + len A) = Ok A) by (apply slice_app; lens; lia).
  assert (S3 : slice pvm (4 + len A) (8 + len A) = Ok (bigE 4 (len B)))
    by (subst pvm; rewrite (app_assoc _ A); apply slice_app; lens; lia).
  rewrite S2, S3. cbn [rbind].
  rewrite <- (app_nil_r (bigE 4 (len B))), be_get_app by (change (256 ^ Z.of_nat 4) with (2 ^ 32); lia).
  cbn [rbind]. rewrite (proj2 (Z.ltb_ge _ _)) by lia.
  assert (S4 : slice pvm (8 + len A) (8 + len A + len B) = Ok B).
  { subst pvm. rewrite (app_assoc _ A), (app_assoc _ (bigE 4 (len B))). apply slice_app; lens; lia. }
  assert (S5 : slice_from pvm (8 + len A + len B) = Ok C).
  { subst pvm. rewrite (app_assoc _ A), (app_assoc _ (bigE 4 (len B))), (app_assoc _ B).
    apply slice_tail; lens; lia. }
  by rewrite S4, S5.
Qed.

(** a template is lossless: a container cut anywhere around its header and
    its transactions, packed as [pvm] and reassembled from the same header and
    transactions, is the container byte for byte; and the packed row is never
    empty, so it is never taken for the bare-block shorthand. *)
Theorem template_roundtrip A h B txs C :
  len A < 2 ^ 32 -> len B < 2 ^ 32 ->
  let raw := A ++ h ++ B ++ concat txs ++ C in
  exists pvm,
    pvmTemplate raw (len A) (len A + len h) (len A + len h + len B)
      (len A + len h + len B + len (concat txs)) = Ok pvm /\
    8 <= len pvm /\ Reassemble pvm h txs = Ok raw.
Proof.
  intros HA HB raw. eexists. split; [apply pvmTemplate_cut|].
  split; [lensimp|]. by apply Reassemble_template.
Qed.

(** what [SplitContainer] accepts, [Reassemble] gives back verbatim: from
    the pvm row it returned and the header and transactions of the block it
    returned, whatever the RLP and proposervm libraries do. *)
Theorem SplitContainer_sound raw pvm inner :
  SplitContainer raw = Ok (pvm, inner) ->
  exists h txs, blockPieces inner = Ok (h, txs) /\ Reassemble pvm h txs = Ok raw.
Proof.
  unfold SplitContainer. case_test; [done|]. intros H.
  apply rbind_Ok in H as (ib & _ & H). apply rbind_Ok in H as (b & _ & H).
  apply rbind_Ok in H as ([h txs] & Hp & H).
  destruct (Reassemble [] h txs) as [out| |] eqn:ER;
    [destruct (beqb_spec out raw) as [->|]; [injection H as <- <-; by exists h, txs|]| |].
  all: revert H; case_test; [done|]; intros H.
  all: apply rbind_Ok in H as ([[[hs he] ts] te] & _ & H);
    apply rbind_Ok in H as (p & _ & H); apply rbind_Ok in H as (o & Ho & H).
  all: destruct (beqb_spec o raw) as [->|]; simpl in H; [|done].
  all: injection H as <- <-; by exists h, txs.
Qed.

End Container.

(** ** Witnesses *)

Lemma template_roundtrip_witness :
  exists pvm,
    pvmTemplate ([1; 2] ++ [3; 4; 5] ++ [6] ++ concat [[7]; [8; 9]] ++ [10]) 2 5 6 9 = Ok pvm /\
    8 <= len pvm /\
    Reassemble (fun _ _ => Err "") pvm [3; 4; 5] [[7]; [8; 9]] = Ok [1; 2; 3; 4; 5; 6; 7; 8; 9; 10].
Proof.
  apply (template_roundtrip (fun _ _ => Err "") [1; 2] [3; 4; 5] [6] [[7]; [8; 9]] [10]);
    vm_compute; reflexivity.
Defined.

(** A concrete library: a block is its byte length, one header byte and one
    byte per transaction. *)
Lemma SplitContainer_sound_witness :
  exists h txs,
    blockPieces (Block := bytes) (fun b => slice b 1 2) (fun b => Ok [drop 2 b]) [2; 7; 8] = Ok (h, txs) /\
    Reassemble (fun h t => Ok (2 :: h ++ concat t)) [] h txs = Ok [2; 7; 8].
Proof.
  eapply (SplitContainer_sound (fun _ => None) (fun b => Ok (b, [])) (fun b => Ok (b, []))
    (fun b => Ok b) (fun b => slice b 1 2) (fun b => Ok [drop 2 b])
    (fun h t => Ok (2 :: h ++ concat t)) [2; 7; 8] [] [2; 7; 8]).
  vm_compute. reflexivity.
Defined.

End Container.
