(* ===== verification/Memtable.v ===== *)
(** * store/mem.go: the memtable and its window log

    The unflushed window: blocks are folded into in-memory indexes while every
    row streams into one append-only log, which [recover] replays after a
    crash. Each method runs under the memtable's lock and is one step. The log
    is the bytes written so far, [flushed] of which have reached the file; file
    operations succeed. Keccak256 and the RLP encoder are library code and are
    the section's parameters; sha256 is modelled in Sha256.v. *)

From S2P Require Import Prelude Bytes Rows Format Sha256 Container.
Import Format.

Module Memtable.

(** ** Chain indexes *)

Record chainIndex := MkCI { cbase : Z; cset : bool; coff : list Z; cn : list Z }.

Definition ci_empty : chainIndex := MkCI 0 false [] [].

Definition ci_add (c : chainIndex) (num off n : Z) : res chainIndex :=
  let base := if cset c then cbase c else num in
  if negb (num =? u64 (base + len (coff c)))
  then Err "store: chain row is not contiguous"
  else Ok (MkCI base true (coff c ++ [off]) (cn c ++ [u32 n])).

Definition ci_find (c : chainIndex) (num : Z) : option (Z * Z) :=
  if negb (cset c) || (num <? cbase c) || (u64 (cbase c + len (coff c)) <=? num) then None
  else
    let i := Z.to_nat (num - cbase c) in
    match coff c !! i, cn c !! i with
    | Some off, Some n => if off =? 0 then None else Some (off, n)
    | _, _ => None
    end.

(** [padTo]: absent rows (offset 0) up to the number [next]. *)
Definition padTo (c : chainIndex) (next : Z) : chainIndex :=
  let base := if cset c then cbase c else u64 (next - 1) in
  let k := Z.to_nat (next - u64 (base + len (coff c))) in
  MkCI base true (coff c ++ replicate k 0) (cn c ++ replicate k 0).

(** ** Families and record kinds *)

Definition famBlk : nat := 0.
Definition famHdr : nat := 1.
Definition famItx : nat := 2.
Definition famPvm : nat := 3.
Definition famRcpt : nat := 4.
Definition famTx : nat := 5.

Definition famPrefix : list bytes := [PrefixBlk; PrefixHdr; PrefixItx; PrefixPvm; PrefixRcpt; PrefixTx].
Definition txKeyedFams : list nat := [famItx; famRcpt; famTx].

Definition recBlk : Z := 66.
Definition recHdr : Z := 72.
Definition recItx : Z := 73.
Definition recPvm : Z := 80.
Definition recRcpt : Z := 82.
Definition recTx : Z := 84.
Definition recState : Z := 83.
Definition recPost : Z := 76.
Definition recNum : Z := 88.
Definition recSet : Z := 75.
Definition recCode : Z := 67.
Definition recEnd : Z := 69.
Definition famRec : list Z := [recBlk; recHdr; recItx; recPvm; recRcpt; recTx].
Definition recHeader : Z := 13.

(** ** State *)

Record posting := MkPosting { group : bytes; ptx : Z; payload : Z }.

Record rows := MkRows {
  chain : list chainIndex;
  state : gmap bytes (list (Z * bytes));
  code : gmap bytes bytes;
  nums : gmap bytes Z;
  post : list posting;
  sets : gset bytes }.

Record window := MkWindow {
  baseTx : Z; nextTx : Z; baseHeight : Z; nextHeight : Z; started : bool }.

Record memtable := MkMem {
  mlog : bytes;    (* every byte written: the file, then the write buffer *)
  pos : Z;
  flushed : Z;     (* how much of it has reached the file *)
  win : window;
  mem : rows;
  fopen : bool;    (* m.f != nil *)
  readOnly : bool }.

Definition empty_rows : rows := MkRows (replicate 6 ci_empty) ∅ ∅ ∅ [] ∅.

(** [clear], with the window bounds the callers set right after. *)
Definition clear (m : memtable) (w : window) : memtable :=
  MkMem (mlog m) 0 0 w empty_rows (fopen m) (readOnly m).

Definition newMemtableAt (file : bytes) (ro : bool) : memtable :=
  MkMem file 0 0 (MkWindow 0 0 0 0 false) empty_rows true ro.

Definition flushLocked (m : memtable) : memtable :=
  if flushed m =? pos m then m
  else MkMem (mlog m) (pos m) (pos m) (win m) (mem m) (fopen m) (readOnly m).

Definition reset (m : memtable) (bt bh : Z) : memtable :=
  let m := clear m (MkWindow bt bt bh bh false) in
  MkMem [] 0 0 (win m) (mem m) (fopen m) (readOnly m).

Definition with_mem (m : memtable) (r : rows) : memtable :=
  MkMem (mlog m) (pos m) (flushed m) (win m) r (fopen m) (readOnly m).
Definition with_win (m : memtable) (w : window) : memtable :=
  MkMem (mlog m) (pos m) (flushed m) w (mem m) (fopen m) (readOnly m).

(** ** Row updates: what one record does to the indexes *)

Definition put_chain (r : rows) (fam : nat) (num off n : Z) : res rows :=
  match chain r !! fam with
  | None => Panic
  | Some c =>
      let* c := ci_add c num off n in
      Ok (MkRows (<[fam := c]> (chain r)) (state r) (code r) (nums r) (post r) (sets r))
  end.

(** [putState]: append, or replace the row already at that TxNum. *)
Definition put_hist (h : list (Z * bytes)) (txnum : Z) (val : bytes) : list (Z * bytes) :=
  match last h with
  | Some (t, _) => if t =? txnum then removelast h ++ [(t, val)] else h ++ [(txnum, val)]
  | None => h ++ [(txnum, val)]
  end.

Definition putState (r : rows) (key : bytes) (txnum : Z) (val : bytes) : rows :=
  let h := default [] (state r !! key) in
  MkRows (chain r) (<[key := put_hist h txnum val]> (state r)) (code r) (nums r) (post r) (sets r).

Definition put_num (r : rows) (key : bytes) (num : Z) : rows :=
  MkRows (chain r) (state r) (code r) (<[key := num]> (nums r)) (post r) (sets r).
Definition put_post (r : rows) (g : bytes) (txnum p : Z) : rows :=
  MkRows (chain r) (state r) (code r) (nums r) (post r ++ [MkPosting g txnum p]) (sets r).
Definition put_set (r : rows) (k : bytes) : rows :=
  MkRows (chain r) (state r) (code r) (nums r) (post r) ({[k]} ∪ sets r).
Definition put_code (r : rows) (h blob : bytes) : rows :=
  MkRows (chain r) (state r) (<[h := blob]> (code r)) (nums r) (post r) (sets r).

Definition pad_fams (r : rows) (next : Z) : rows :=
  MkRows (fold_left (fun l fam => alter (fun c => padTo c next) fam l) txKeyedFams (chain r))
    (state r) (code r) (nums r) (post r) (sets r).

(** ** Writes *)

Record StateRow := MkStateRow { Kind : Z; Addr : bytes; Slot : bytes; Val : bytes }.
Record LogWrite := MkLogWrite { Emitter : bytes; LTopics : list bytes }.
Record TxWrite := MkTxWrite {
  THash : bytes; RLP : bytes; Receipt : bytes; Frames : bytes; FrameAddrs : list bytes;
  State : list StateRow; Sender : bytes; To : bytes; Created : bytes; TLogs : list LogWrite }.
(** [Code] is the Go map's entries in the order its range visits them. *)
Record BlockWrite := MkBlockWrite {
  Height : Z; HeaderRLP : bytes; Pvm : bytes; Txs : list TxWrite;
  Code : list (bytes * bytes); Tail : list StateRow }.

Definition stateKeyPrefix (r : StateRow) : bytes :=
  if Kind r =? 97 then AccountPrefix (Addr r)
  else if Kind r =? 99 then CodeRefPrefix (Addr r)
  else SlotPrefix (Addr r) (Slot r).

(** The bytes of one record. *)
Definition enc_rec (kind num : Z) (payload : bytes) : bytes :=
  [kind] ++ bigE 8 num ++ bigE 4 (len payload) ++ payload.

(** [write]: the body's offset, its length, and the memtable after. *)
Definition write (m : memtable) (kind num : Z) (payload : list bytes) : Z * Z * memtable :=
  let p := concat payload in
  let body := pos m + recHeader in
  (body, len p,
   MkMem (mlog m ++ enc_rec kind num p) (body + len p) (flushed m) (win m) (mem m) (fopen m) (readOnly m)).

Definition chainRow (m : memtable) (fam : nat) (num : Z) (val : bytes) : res memtable :=
  match famRec !! fam with
  | None => Panic
  | Some kind =>
      let '(off, n, m) := write m kind num [val] in
      let* r := put_chain (mem m) fam num off n in
      Ok (with_mem m r)
  end.

Definition numRow (m : memtable) (key : bytes) (num : Z) : memtable :=
  let '(_, _, m) := write m recNum num [key] in with_mem m (put_num (mem m) key num).

Definition postRow (m : memtable) (g : bytes) (txnum p : Z) : memtable :=
  let '(_, _, m) := write m recPost txnum [[p]; g] in with_mem m (put_post (mem m) g txnum p).

Definition stateRow (m : memtable) (n : Z) (r : StateRow) : memtable :=
  let k := stateKeyPrefix r in
  let '(_, _, m) := write m recState n [bigE 2 (len k); k; Val r] in
  with_mem m (putState (mem m) k n (Val r)).

Definition codeRow (m : memtable) (x : bytes * bytes) : memtable :=
  match code (mem m) !! x.1 with
  | Some _ => m
  | None =>
      let '(_, _, m) := write m recCode 0 [x.1; x.2] in with_mem m (put_code (mem m) x.1 x.2)
  end.

Definition setRow (n : Z) (m : memtable) (k : bytes) : memtable :=
  if decide (k ∈ sets (mem m)) then m
  else let '(_, _, m) := write m recSet n [k] in with_mem m (put_set (mem m) k).

(** ** Postings of one transaction *)

Definition zeroHash : bytes := replicate 32 0.

(** [post[k] |= r] *)
Definition or_post (k : bytes) (r : Z) (p : gmap bytes Z) : gmap bytes Z :=
  <[k := Z.lor (default 0 (p !! k)) r]> p.

Definition role (a : bytes) (r : Z) (p : gmap bytes Z) : gmap bytes Z :=
  if 0 <? len a then or_post (AddrPrefix a) r p else p.

(** The tval/ groups of the topics at positions 1 to 3. *)
Fixpoint tval_posts (i : nat) (topic0 : bytes) (topics : list bytes) (p : gmap bytes Z) : gmap bytes Z :=
  match topics with
  | [] => p
  | t :: topics =>
      if (i <=? 3)%nat
      then tval_posts (S i) topic0 topics
             (or_post (TValGroup t topic0) (Z.shiftl 1 (Z.of_nat i - 1)) p)
      else p
  end.

Definition logPostings (p : gmap bytes Z) (emitter : bytes) (topics : list bytes) : gmap bytes Z :=
  let topic0 := match topics with [] => zeroHash | t :: _ => t end in
  let p := match topics with [] => p | _ => or_post (SigGroup topic0) 0 p end in
  let p := or_post (ELogGroup emitter topic0) 0 p in
  tval_posts 1 topic0 (tail topics) p.

Fixpoint set_keys (i : nat) (topic0 emitter : bytes) (topics : list bytes) : list bytes :=
  match topics with
  | [] => []
  | t :: topics =>
      if (i <=? 3)%nat then SetKey topic0 (Z.of_nat i) t emitter :: set_keys (S i) topic0 emitter topics
      else []
  end.

Definition logSets (emitter : bytes) (topics : list bytes) : list bytes :=
  match topics with [] => [] | t0 :: rest => set_keys 1 t0 emitter rest end.

Definition sortedKeys (p : gmap bytes Z) : list bytes := merge_sort ble (map fst (map_to_list p)).

Definition tx_posts (t : TxWrite) : gmap bytes Z :=
  let p := role (Sender t) RoleSender ∅ in
  let p := role (To t) RoleRecipient p in
  let p := role (Created t) RoleCreated p in
  let p := fold_left (fun p a => role a RoleFrame p) (FrameAddrs t) p in
  fold_left (fun p l => logPostings (role (Emitter l) RoleEmitter p) (Emitter l) (LTopics l)) (TLogs t) p.

(** One transaction of a block, at its TxNum [n]. *)
Definition add_tx (m : memtable) (n : Z) (t : TxWrite) : res memtable :=
  let* m := chainRow m famItx n (Frames t) in
  let* m := chainRow m famRcpt n (Receipt t) in
  let* m := chainRow m famTx n (RLP t) in
  let m := numRow m (TxHashKey (THash t)) n in
  let p := tx_posts t in
  let m := fold_left (fun m g => postRow m g n (default 0 (p !! g))) (sortedKeys p) m in
  let m := fold_left (setRow n) (concat (map (fun l => logSets (Emitter l) (LTopics l)) (TLogs t))) m in
  Ok (fold_left (fun m r => stateRow m n r) (State t) m).

Fixpoint add_txs (m : memtable) (n : Z) (txs : list TxWrite) : res memtable :=
  match txs with
  | [] => Ok m
  | t :: txs => let* m := add_tx m n t in add_txs m (u64 (n + 1)) txs
  end.

Section Add.
Context (Keccak256 : bytes -> bytes) (EncodeBare : bytes -> list bytes -> res bytes).

Definition blkVal (first : Z) (b : BlockWrite) : bytes := bigE 8 first ++ bigE 4 (len (Txs b)).

(** The body of [add] for the block the window expects. *)
Definition add_block (m : memtable) (b : BlockWrite) : res memtable :=
  let first := nextTx (win m) in
  let* m := chainRow m famBlk (Height b) (blkVal first b) in
  let* m := chainRow m famHdr (Height b) (HeaderRLP b) in
  let* m := chainRow m famPvm (Height b) (Pvm b) in
  let m := numRow m (BlkHashKey (Keccak256 (HeaderRLP b))) (Height b) in
  let* container := Container.Reassemble EncodeBare (Pvm b) (HeaderRLP b) (map RLP (Txs b)) in
  let m := numRow m (CidKey (Sha256.Sum256 container)) (Height b) in
  let m := fold_left codeRow (Code b) m in
  let* m := add_txs m first (Txs b) in
  let tailAt := u64 (first + len (Txs b)) in
  let m := fold_left (fun m r => stateRow m tailAt r) (Tail b) m in
  let nt := u64 (tailAt + 1) in
  let m := with_mem m (pad_fams (mem m) nt) in
  let w := win m in
  let m := with_win m (MkWindow (baseTx w) nt (baseHeight w) (u64 (Height b + 1)) (started w)) in
  let '(_, _, m) := write m recEnd (Height b) [bigE 8 nt] in
  Ok (flushLocked m).

Definition add (m : memtable) (b : BlockWrite) : res memtable :=
  let w := win m in
  if Height b <? nextHeight w then Ok m else
  let* m :=
    if started w then Ok m
    else if negb (nextHeight w =? 0) && negb (Height b =? nextHeight w)
    then Err "store: block would start a fresh window over sealed runs"
    else Ok (with_win m (MkWindow (baseTx w) (nextTx w) (Height b) (Height b) true)) in
  if negb (Height b =? nextHeight (win m)) then Err "store: block out of order"
  else add_block m b.

End Add.

(** ** Recovery *)

(** A replayed record's deferred mutation. *)
Inductive effect :=
| EChain (fam : nat) (num off n : Z)
| EState (key : bytes) (num : Z) (val : bytes)
| EPost (g : bytes) (num p : Z)
| ENum (key : bytes) (num : Z)
| ESet (key : bytes)
| ECode (h blob : bytes)
| EPad (next : Z).

Definition apply_effect (r : rows) (e : effect) : res rows :=
  match e with
  | EChain fam num off n => put_chain r fam num off n
  | EState key num val => Ok (putState r key num val)
  | EPost g num p => Ok (put_post r g num p)
  | ENum key num => Ok (put_num r key num)
  | ESet key => Ok (put_set r key)
  | ECode h blob => Ok (put_code r h blob)
  | EPad next => Ok (pad_fams r next)
  end.

Fixpoint commit (r : rows) (pend : list effect) : res rows :=
  match pend with
  | [] => Ok r
  | e :: pend => let* r := apply_effect r e in commit r pend
  end.

(** The family of a chain record: the last one whose kind matches. *)
Definition fam_of (kind : Z) : option nat :=
  if kind =? recBlk then Some famBlk else if kind =? recHdr then Some famHdr
  else if kind =? recItx then Some famItx else if kind =? recPvm then Some famPvm
  else if kind =? recRcpt then Some famRcpt else if kind =? recTx then Some famTx else None.

(** The mutation of a record that is not a block's end; [None] stops the
    replay, as a malformed or unknown record does. *)
Definition decode_rec (kind num : Z) (p : bytes) (body : Z) : option effect :=
  match fam_of kind with
  | Some fam => Some (EChain fam num body (len p))
  | None =>
      if kind =? recState then
        if len p <? 2 then None
        else let kl := be_val (take 2 p) in
          if len p <? 2 + kl then None
          else Some (EState (take (Z.to_nat kl) (drop 2 p)) num (drop (2 + Z.to_nat kl) p))
      else if kind =? recPost then
        match p with [] => None | v :: g => Some (EPost g num v) end
      else if kind =? recNum then Some (ENum p num)
      else if kind =? recSet then Some (ESet p)
      else if kind =? recCode then
        if len p <? 32 then None else Some (ECode (take 32 p) (drop 32 p))
      else None
  end.

Record replaying := MkReplay { rwin : window; rrows : rows; good : Z; pend : list effect }.

(** The replay loop over the bytes [r] left at offset [off]. *)
Fixpoint replay (fuel : nat) (s : replaying) (off : Z) (r : bytes) : res replaying :=
  match fuel with
  | O => Ok s
  | S fuel =>
      if len r <? recHeader then Ok s else
      let kind := default 0 (head r) in
      let num := be_val (take 8 (drop 1 r)) in
      let n := be_val (take 4 (drop 9 r)) in
      let rest := drop 13 r in
      if (2 ^ 30 <? n) || (len rest <? n) then Ok s else
      let p := take (Z.to_nat n) rest in
      let rest := drop (Z.to_nat n) rest in
      let body := off + recHeader in
      let off := body + n in
      if kind =? recEnd then
        if negb (n =? 8) then Ok s
        else if num <? baseHeight (rwin s) then
          replay fuel (MkReplay (rwin s) (rrows s) off []) off rest
        else
          let w := rwin s in
          let w := if started w then w
                   else MkWindow (baseTx w) (nextTx w) num (nextHeight w) true in
          let nt := be_val p in
          match commit (rrows s) (pend s ++ [EPad nt]) with
          | Ok rr =>
              replay fuel (MkReplay (MkWindow (baseTx w) nt (baseHeight w) (u64 (num + 1)) (started w))
                rr off []) off rest
          | _ => Err "store: window log replay"
          end
      else
        match decode_rec kind num p body with
        | Some e => replay fuel (MkReplay (rwin s) (rrows s) (good s) (pend s ++ [e])) off rest
        | None => Ok s
        end
  end.

(** [recover]: the write buffer goes to the file first, then the file is
    replayed, and the writer cuts it at the last complete block. *)
Definition recover (m : memtable) (bt bh : Z) : res memtable :=
  let m := clear m (MkWindow bt bt bh bh false) in
  let* s := replay (S (length (mlog m))) (MkReplay (win m) (mem m) 0 []) 0 (mlog m) in
  let log := if readOnly m then mlog m else take (Z.to_nat (good s)) (mlog m) in
  Ok (MkMem log (good s) (good s) (rwin s) (rrows s) (fopen m) (readOnly m)).

(** ** Reads *)

(** [readRow]: a pread of the file, which ends at the flushed watermark. *)
Definition readRow (m : memtable) (o : option (Z * Z)) : res (option bytes) :=
  match o with
  | None => Ok None
  | Some (off, n) =>
      if n =? 0 then Ok (Some [])
      else if flushed m <? off + n then Err "store: window row: short read"
      else let* v := slice (mlog m) off (off + n) in Ok (Some v)
  end.

Definition chain_find (m : memtable) (fam : nat) (num : Z) : res (option (Z * Z)) :=
  match chain (mem m) !! fam with None => Panic | Some c => Ok (ci_find c num) end.

Definition chainGet (m : memtable) (fam : nat) (num : Z) : res (option bytes) * memtable :=
  if negb (fopen m) then (Ok None, m) else
  match chain_find m fam num with
  | Ok o =>
      let ready := match o with
                   | None => true
                   | Some (off, n) => (n =? 0) || (off + n <=? flushed m)
                   end in
      if ready then (readRow m o, m)
      else let m := flushLocked m in (readRow m o, m)
  | _ => (Panic, m)
  end.

Definition latest_in (h : list (Z * bytes)) (at_ : Z) : option (bytes * Z) :=
  let i := sort_Search (length h) (fun i => match h !! i with Some (t, _) => at_ <? t | None => true end) in
  match i with
  | O => None
  | S i => match h !! i with Some (t, v) => Some (v, t) | None => None end
  end.

Definition latestState (m : memtable) (prefix : bytes) (at_ : Z) : option (bytes * Z) :=
  latest_in (default [] (state (mem m) !! prefix)) at_.

Definition codeBlob (m : memtable) (hash : bytes) : option bytes := code (mem m) !! hash.
Definition lookupNum (m : memtable) (key : bytes) : option Z := nums (mem m) !! key.

(** [eachChain]: one family's rows in number order, absent slots skipped. *)
Fixpoint each_rows (m : memtable) (num : Z) (off n : list Z) : res (list (Z * bytes)) :=
  match off, n with
  | o :: off, k :: n =>
      if o =? 0 then each_rows m (u64 (num + 1)) off n
      else
        let* v := readRow m (Some (o, k)) in
        let* l := each_rows m (u64 (num + 1)) off n in
        Ok ((num, default [] v) :: l)
  | _, _ => Ok []
  end.

Definition eachChain (m : memtable) (fam : nat) : res (list (Z * bytes)) :=
  let m := flushLocked m in
  match chain (mem m) !! fam with
  | None => Panic
  | Some c => each_rows m (cbase c) (coff c) (cn c)
  end.

End Memtable.
