(* ===== verification/MemRecover.v ===== *)
(** * Crash recovery of the window log (store/mem.go)

    Whatever prefix of the log a crash leaves on disk, [recover] rebuilds the
    memtable of the last block that is whole in it. *)

From S2P Require Import Prelude Bytes Rows Format Sha256 Container Memtable.
Import Format.

Module MemRecover.
Import Memtable.

(** ** Admissible input: the sizes the Go types and memory guarantee *)

Definition small (b : bytes) : Prop := len b < 2 ^ 29.

Definition state_row_ok (r : StateRow) : Prop := len (stateKeyPrefix r) < 65536 /\ small (Val r).

Definition tx_ok (t : TxWrite) : Prop :=
  len (THash t) < 2 ^ 28 /\ small (RLP t) /\ small (Receipt t) /\ small (Frames t) /\
  Forall state_row_ok (State t) /\ Forall small (sortedKeys (tx_posts t)) /\
  Forall small (concat (map (fun l => logSets (Emitter l) (LTopics l)) (TLogs t))).

Definition block_ok (b : BlockWrite) : Prop :=
  0 <= Height b < 2 ^ 63 /\ small (HeaderRLP b) /\ small (Pvm b) /\ Forall tx_ok (Txs b) /\
  Forall (fun x => len x.1 = 32 /\ small x.2) (Code b) /\ Forall state_row_ok (Tail b).

(** ** Records *)

Record record := MkRec { rkind : Z; rnum : Z; rpay : bytes }.
Definition enc (r : record) : bytes := enc_rec (rkind r) (rnum r) (rpay r).
Definition enc_all (rs : list record) : bytes := concat (map enc rs).

Definition rec_ok (r : record) : Prop := u64_ok (rnum r) /\ len (rpay r) <= 2 ^ 30.

Lemma len_enc r : len (enc r) = 13 + len (rpay r).
Proof. unfold enc, enc_rec. lens. lia. Qed.

(** The deferred mutations of a run of records at an offset. *)
Fixpoint decodes (off : Z) (rs : list record) (es : list effect) : Prop :=
  match rs, es with
  | [], [] => True
  | r :: rs, e :: es =>
      rkind r <> recEnd /\ rec_ok r /\ decode_rec (rkind r) (rnum r) (rpay r) (off + 13) = Some e /\
      decodes (off + len (enc r)) rs es
  | _, _ => False
  end.

Lemma enc_all_app rs rs' : enc_all (rs ++ rs') = enc_all rs ++ enc_all rs'.
Proof. unfold enc_all. by rewrite map_app, concat_app. Qed.

Lemma decodes_app off rs es rs' es' :
  decodes off rs es -> decodes (off + len (enc_all rs)) rs' es' -> decodes off (rs ++ rs') (es ++ es').
Proof.
  revert off es. induction rs as [|r rs IH]; intros off [|e es]; simpl; try done.
  - unfold enc_all. simpl. by rewrite Z.add_0_r.
  - intros (H1 & H2 & H3 & H4) H5. split_and!; try done. apply IH; [done|].
    unfold enc_all in *. cbn [map concat] in H5. rewrite len_app in H5. by rewrite <- Z.add_assoc.
Qed.

Lemma commit_app r es es' r1 :
  commit r es = Ok r1 -> commit r (es ++ es') = commit r1 es'.
Proof.
  revert r. induction es as [|e es IH]; intros r H; [by injection H as ->|].
  cbn [commit app] in *. apply rbind_Ok in H as (r2 & -> & H). cbn [rbind]. by apply IH.
Qed.

(** ** What the writers do: append records, apply their mutations *)

Definition ext (m m' : memtable) : Prop :=
  exists rs es,
    mlog m' = mlog m ++ enc_all rs /\ pos m' = pos m + len (enc_all rs) /\
    flushed m' = flushed m /\ win m' = win m /\ fopen m' = fopen m /\ readOnly m' = readOnly m /\
    decodes (pos m) rs es /\ commit (mem m) es = Ok (mem m').

#[global] Instance ext_refl : Reflexive ext.
Proof. intros m. exists [], []. unfold enc_all. simpl. rewrite app_nil_r, Z.add_0_r. done. Qed.

#[global] Instance ext_trans : Transitive ext.
Proof.
  intros m1 m2 m3 (rs & es & L1 & P1 & F1 & W1 & O1 & R1 & D1 & C1)
    (rs' & es' & L2 & P2 & F2 & W2 & O2 & R2 & D2 & C2).
  exists (rs ++ rs'), (es ++ es'). rewrite enc_all_app. split_and!; try congruence.
  - by rewrite L2, L1, app_assoc.
  - rewrite P2, P1. lens. lia.
  - apply decodes_app; [done|]. by rewrite <- P1.
  - by rewrite (commit_app _ _ _ _ C1).
Qed.

(** One record written and applied. *)
Lemma ext_one m kind num p r' e :
  kind <> recEnd -> u64_ok num -> len (concat p) <= 2 ^ 30 ->
  decode_rec kind num (concat p) (pos m + 13) = Some e -> apply_effect (mem m) e = Ok r' ->
  ext m (with_mem (write m kind num p).2 r').
Proof.
  intros Hk Hn Hp Hd Ha. exists [MkRec kind num (concat p)], [e]. cbn [write snd with_mem mlog pos flushed win mem fopen readOnly].
  unfold enc_all, enc. cbn [map concat rkind rnum rpay]. rewrite app_nil_r.
  split_and!; try done.
  - unfold recHeader, enc_rec. lens. lia.
  - simpl. by rewrite Ha.
Qed.

Lemma fam_of_rec fam kind : famRec !! fam = Some kind -> fam_of kind = Some fam /\ kind <> recEnd.
Proof. destruct fam as [|[|[|[|[|[|]]]]]]; simpl; intros [= <-]; done. Qed.

Lemma chainRow_ext m fam num v m' :
  chainRow m fam num v = Ok m' -> u64_ok num -> small v -> ext m m'.
Proof.
  unfold chainRow, small. destruct (famRec !! fam) as [kind|] eqn:E; [|done].
  destruct (fam_of_rec fam kind E) as [Hf Hk]. cbn [write]. intros H Hn Hv.
  apply rbind_Ok in H as (r & Hr & H). injection H as <-.
  apply (ext_one m kind num [v] r (EChain fam num (pos m + 13) (len (concat [v])))); try done.
  - simpl. rewrite app_nil_r. lia.
  - unfold decode_rec. by rewrite Hf.
Qed.

Lemma numRow_ext m key num : u64_ok num -> small key -> ext m (numRow m key num).
Proof.
  unfold small. intros Hn Hk. apply (ext_one m recNum num [key] _ (ENum key num)); try done.
  - simpl. rewrite app_nil_r. lia.
  - simpl. by rewrite app_nil_r.
Qed.

Lemma postRow_ext m g n p : u64_ok n -> small g -> ext m (postRow m g n p).
Proof.
  unfold small. intros Hn Hk. apply (ext_one m recPost n [[p]; g] _ (EPost g n p)); try done.
  - simpl. rewrite app_nil_r. lens. lia.
  - simpl. by rewrite app_nil_r.
Qed.

Lemma setRow_ext n m k : u64_ok n -> small k -> ext m (setRow n m k).
Proof.
  unfold small. intros Hn Hk. unfold setRow. destruct (decide _); [done|].
  apply (ext_one m recSet n [k] _ (ESet k)); try done.
  - simpl. rewrite app_nil_r. lia.
  - simpl. by rewrite app_nil_r.
Qed.

Lemma codeRow_ext m x : len x.1 = 32 -> small x.2 -> ext m (codeRow m x).
Proof.
  unfold small. intros Hh Hb. unfold codeRow. destruct (code (mem m) !! x.1); [done|].
  apply (ext_one m recCode 0 [x.1; x.2] _ (ECode x.1 x.2)); try done.
  - simpl. rewrite app_nil_r. lens. lia.
  - unfold decode_rec. cbn [fam_of recCode concat]. cbn. rewrite app_nil_r.
    lens. rewrite (proj2 (Z.ltb_ge _ _)) by lensimp.
    rewrite take_app_length', drop_app_length' by (unfold len in Hh; lia). done.
Qed.

Lemma stateRow_ext m n r : u64_ok n -> state_row_ok r -> ext m (stateRow m n r).
Proof.
  unfold state_row_ok, small. intros Hn [Hk Hv]. unfold stateRow. set (k := stateKeyPrefix r) in *.
  pose proof (len_nonneg k).
  apply (ext_one m recState n [bigE 2 (len k); k; Val r] _ (EState k n (Val r))); try done.
  - cbn [concat]. rewrite app_nil_r. lens. lia.
  - unfold decode_rec. cbn [concat]. rewrite app_nil_r.
    replace (fam_of recState) with (@None nat) by done. rewrite Z.eqb_refl. lens.
    rewrite (proj2 (Z.ltb_ge _ _)) by lensimp.
    rewrite take_app_length' by (by rewrite length_be).
    rewrite be_val_be_small by (change (256 ^ Z.of_nat 2) with 65536; lia).
    rewrite (proj2 (Z.ltb_ge _ _)) by lensimp. rewrite len_to_nat.
    rewrite drop_app_length' by (by rewrite length_be). rewrite take_app_length.
    rewrite <- drop_drop, drop_app_length', drop_app_length by (by rewrite length_be). done.
Qed.

Lemma ext_fold {A} (f : memtable -> A -> memtable) (P : A -> Prop) l m :
  (forall m x, P x -> ext m (f m x)) -> Forall P l -> ext m (fold_left f l m).
Proof.
  intros Hf Hl. revert m. induction Hl as [|x l Hx _ IH]; intros m; [done|]. cbn [fold_left].
  etransitivity; [by apply Hf|apply IH].
Qed.

Lemma small_tag tag h : len tag <= 6 -> len h < 2 ^ 28 -> small (tag ++ h).
Proof. unfold small. intros. lens. lia. Qed.

Lemma add_tx_ext m n t m' : add_tx m n t = Ok m' -> u64_ok n -> tx_ok t -> ext m m'.
Proof.
  intros H Hn (H1 & H2 & H3 & H4 & H5 & H6 & H7). unfold add_tx in H.
  apply rbind_Ok in H as (m1 & E1 & H). apply rbind_Ok in H as (m2 & E2 & H).
  apply rbind_Ok in H as (m3 & E3 & H). injection H as <-.
  transitivity m1; [by eapply chainRow_ext|]. transitivity m2; [by eapply chainRow_ext|].
  transitivity m3; [by eapply chainRow_ext|].
  etransitivity; [apply (numRow_ext m3 (TxHashKey (THash t)) n Hn); by apply small_tag|].
  etransitivity; [apply (ext_fold (fun m g => postRow m g n (default 0 (tx_posts t !! g))) small
    (sortedKeys (tx_posts t))); [|done]; intros; by apply postRow_ext|].
  etransitivity; [apply (ext_fold (setRow n) small); [|exact H7]; intros; by apply setRow_ext|].
  apply (ext_fold (fun m r => stateRow m n r) state_row_ok); [|done]. intros. by apply stateRow_ext.
Qed.

Lemma add_txs_ext m n txs m' :
  add_txs m n txs = Ok m' -> u64_ok n -> Forall tx_ok txs -> ext m m'.
Proof.
  revert m n. induction txs as [|t txs IH]; intros m n H Hn Hok; [by injection H as ->|].
  apply Forall_cons in Hok as [Ht Hok]. cbn [add_txs] in H.
  apply rbind_Ok in H as (m1 & E1 & H). transitivity m1; [by eapply add_tx_ext|].
  eapply IH; [exact H|apply u64_range|done].
Qed.

(** ** A whole block *)

Lemma flushLocked_eq m :
  flushLocked m = MkMem (mlog m) (pos m) (pos m) (win m) (mem m) (fopen m) (readOnly m).
Proof. unfold flushLocked. case_test; [|done]. destruct m. simpl in *. congruence. Qed.

(** A memtable whose indexes, bounds and offsets agree with its log. *)
Definition settled (m : memtable) : Prop :=
  pos m = len (mlog m) /\ flushed m = pos m /\ fopen m = true /\ readOnly m = false /\
  u64_ok (nextTx (win m)) /\ baseHeight (win m) <= nextHeight (win m).

(** The records of one block, then its end record. *)
Definition block_written (m : memtable) (b : BlockWrite) (m' : memtable) : Prop :=
  exists rs es nt rr,
    mlog m' = mlog m ++ enc_all rs ++ enc (MkRec recEnd (Height b) (bigE 8 nt)) /\
    decodes (len (mlog m)) rs es /\ u64_ok nt /\
    commit (mem m) es = Ok rr /\ mem m' = pad_fams rr nt /\
    win m' = MkWindow (baseTx (win m)) nt
      (if started (win m) then baseHeight (win m) else Height b) (u64 (Height b + 1)) true /\
    settled m'.

Section Recover.
Context (Keccak256 : bytes -> bytes) (EncodeBare : bytes -> list bytes -> res bytes).
Context (Keccak256_len : forall b, len (Keccak256 b) = 32).

Lemma add_block_written m b m' :
  add_block Keccak256 EncodeBare m b = Ok m' -> settled m -> started (win m) = true -> block_ok b ->
  baseHeight (win m) <= Height b -> block_written m b m'.
Proof.
  intros H (Hp & Hfl & Ho & Hr & Hnt & _) Hst (Hh & Hhdr & Hpvm & Htxs & Hcode & Htail) Hbase.
  assert (Hu : u64_ok (Height b)) by (unfold u64_ok; lia). unfold add_block in H.
  apply rbind_Ok in H as (m1 & E1 & H). apply rbind_Ok in H as (m2 & E2 & H).
  apply rbind_Ok in H as (m3 & E3 & H). apply rbind_Ok in H as (ct & _ & H).
  apply rbind_Ok in H as (m4 & E4 & H).
  set (tailAt := u64 (nextTx (win m) + len (Txs b))) in *. set (nt := u64 (tailAt + 1)) in *.
  set (m5 := fold_left (fun m r => stateRow m tailAt r) (Tail b) m4) in *.
  assert (Hext : ext m m5).
  { transitivity m1; [eapply chainRow_ext; [exact E1|done|unfold small, blkVal; lens; lia]|].
    transitivity m2; [by eapply chainRow_ext|]. transitivity m3; [by eapply chainRow_ext|].
    etransitivity; [apply (numRow_ext m3 (BlkHashKey (Keccak256 (HeaderRLP b))) _ Hu);
      apply small_tag; [done|rewrite Keccak256_len; lia]|].
    etransitivity; [apply (numRow_ext _ (CidKey (Sha256.Sum256 ct)) _ Hu);
      apply small_tag; [done|rewrite Sha256.len_Sum256; lia]|].
    etransitivity; [apply (ext_fold codeRow (fun x => len x.1 = 32 /\ small x.2)); [|exact Hcode];
      intros ? ? []; by apply codeRow_ext|].
    transitivity m4; [eapply add_txs_ext; [exact E4|done|done]|].
    apply (ext_fold (fun m r => stateRow m tailAt r) state_row_ok); [|done].
    intros. apply stateRow_ext; [apply u64_range|done]. }
  destruct Hext as (rs & es & L & P & F & W & O & R & D & C).
  cbn [write] in H. injection H as <-.
  exists rs, es, nt, (mem m5).
  rewrite flushLocked_eq. cbn [with_mem with_win mlog pos flushed win mem fopen readOnly].
  unfold enc. cbn [rkind rnum rpay]. replace (concat [bigE 8 nt]) with (bigE 8 nt) by (cbn [concat]; by rewrite app_nil_r).
  split_and!.
  - by rewrite L, <- app_assoc.
  - by rewrite <- Hp.
  - apply u64_range.
  - done.
  - done.
  - by rewrite W, Hst.
  - split_and!; cbn [pos flushed mlog fopen readOnly win nextTx baseHeight nextHeight]; try congruence; try done.
    + rewrite P, Hp, L. unfold recHeader, enc_rec. lens. lia.
    + apply u64_range.
    + rewrite W. rewrite u64_small by (unfold u64_ok; lia). lia.
Qed.

(** ** Replaying what was written *)

Definition hdr (kind num n : Z) : bytes := [kind] ++ bigE 8 num ++ bigE 4 n.

Lemma enc_hdr r : enc r = hdr (rkind r) (rnum r) (len (rpay r)) ++ rpay r.
Proof. unfold enc, enc_rec, hdr. by rewrite <- !app_assoc. Qed.

Lemma len_hdr kind num n : len (hdr kind num n) = 13.
Proof. unfold hdr. by lens. Qed.

(** One round of the replay loop on a whole header. *)
Lemma replay_hdr fuel s off kind num n t :
  u64_ok num -> 0 <= n <= 2 ^ 30 ->
  replay (S fuel) s off (hdr kind num n ++ t)
  = (if len t <? n then Ok s else
     let p := take (Z.to_nat n) t in let rest := drop (Z.to_nat n) t in
     let body := off + recHeader in let off := body + n in
      if kind =? recEnd then
        if negb (n =? 8) then Ok s
        else if num <? baseHeight (rwin s) then
          replay fuel (MkReplay (rwin s) (rrows s) off []) off rest
        else
          let w := rwin s in
          let w := if started w then w
                   else MkWindow (baseTx w) (nextTx w) num (nextHeight w) true in
          let nt := be_val p in
          match commit (rrows s) (pend s ++ [EPad nt]) with
          | Ok rr =>
              replay fuel (MkReplay (MkWindow (baseTx w) nt (baseHeight w) (u64 (num + 1)) (started w))
                rr off []) off rest
          | _ => Err "store: window log replay"
          end
      else
        match decode_rec kind num p body with
        | Some e => replay fuel (MkReplay (rwin s) (rrows s) (good s) (pend s ++ [e])) off rest
        | None => Ok s
        end).
Proof.
  intros Hn Hl. cbn [replay]. rewrite (proj2 (Z.ltb_ge (len (hdr kind num n ++ t)) _)) by
    (rewrite len_app, len_hdr; unfold recHeader; pose proof (len_nonneg t); lia).
  assert (E1 : default 0 (head (hdr kind num n ++ t)) = kind) by done.
  assert (E2 : be_val (take 8 (drop 1 (hdr kind num n ++ t))) = num).
  { unfold hdr. rewrite <- !app_assoc. cbn [app]. rewrite skipn_cons, drop_0.
    rewrite take_app_length' by (by rewrite length_be). apply be_val_be_small. exact Hn. }
  assert (E3 : be_val (take 4 (drop 9 (hdr kind num n ++ t))) = n).
  { unfold hdr. rewrite <- !app_assoc. cbn [app]. rewrite skipn_cons.
    rewrite drop_app_length' by (by rewrite length_be).
    rewrite take_app_length' by (by rewrite length_be).
    apply be_val_be_small. change (256 ^ Z.of_nat 4) with (2 ^ 32). lia. }
  assert (E4 : drop 13 (hdr kind num n ++ t) = t).
  { apply drop_app_length'. pose proof (len_hdr kind num n). unfold len in *. lia. }
  rewrite E1, E2, E3, E4. rewrite (proj2 (Z.ltb_ge _ _)) by lia. cbn [orb]. done.
Qed.

Lemma replay_rec fuel s off r t e :
  rkind r <> recEnd -> rec_ok r -> decode_rec (rkind r) (rnum r) (rpay r) (off + 13) = Some e ->
  replay (S fuel) s off (enc r ++ t)
  = replay fuel (MkReplay (rwin s) (rrows s) (good s) (pend s ++ [e])) (off + len (enc r)) t.
Proof.
  intros Hk [Hn Hp] Hd. rewrite enc_hdr, <- app_assoc. pose proof (len_nonneg (rpay r)).
  rewrite replay_hdr by (done || lia). rewrite (proj2 (Z.ltb_ge _ _)) by lensimp. cbn zeta.
  rewrite (proj2 (Z.eqb_neq _ _)) by done. rewrite len_to_nat, take_app_length, drop_app_length.
  unfold recHeader. rewrite Hd. f_equal. rewrite len_app, len_hdr. lia.
Qed.

Lemma replay_recs fuel s off rs es t :
  decodes off rs es ->
  replay (length rs + fuel) s off (enc_all rs ++ t)
  = replay fuel (MkReplay (rwin s) (rrows s) (good s) (pend s ++ es)) (off + len (enc_all rs)) t.
Proof.
  revert s off es. induction rs as [|r rs IH]; intros s off [|e es]; simpl decodes; try done.
  - intros _. unfold enc_all. simpl. rewrite app_nil_r, Z.add_0_r. by destruct s.
  - intros (Hk & Hok & Hd & Hds). unfold enc_all. cbn [map concat length Nat.add].
    rewrite <- app_assoc, (replay_rec _ _ _ _ _ e) by done. fold (enc_all rs).
    rewrite (IH _ _ es Hds). cbn [rwin rrows good pend]. rewrite <- app_assoc. cbn [app]. lens.
    f_equal. lia.
Qed.

Lemma replay_end fuel s off num nt t rr :
  u64_ok num -> u64_ok nt -> baseHeight (rwin s) <= num -> commit (rrows s) (pend s) = Ok rr ->
  replay (S fuel) s off (enc (MkRec recEnd num (bigE 8 nt)) ++ t)
  = replay fuel (MkReplay (MkWindow (baseTx (rwin s)) nt
        (if started (rwin s) then baseHeight (rwin s) else num) (u64 (num + 1)) true)
      (pad_fams rr nt) (off + len (enc (MkRec recEnd num (bigE 8 nt)))) []) 
      (off + len (enc (MkRec recEnd num (bigE 8 nt)))) t.
Proof.
  intros Hn Hnt Hb Hc. rewrite enc_hdr, <- app_assoc. cbn [rkind rnum rpay]. lens.
  rewrite replay_hdr by (done || lia). rewrite (proj2 (Z.ltb_ge _ _)) by lensimp. cbn zeta.
  rewrite Z.eqb_refl. cbn [negb Z.eqb Pos.eqb Z.of_nat].
  change (8 =? 8) with true. cbn [negb].
  rewrite (proj2 (Z.ltb_ge _ _)) by lia. change (Z.to_nat (Z.of_nat 8)) with 8%nat.
  rewrite take_app_length', drop_app_length' by (by rewrite length_be).
  rewrite (be_val_be_small 8) by (exact Hnt).
  rewrite (commit_app _ _ _ _ Hc). cbn [commit apply_effect rbind].
  rewrite len_hdr. unfold recHeader. replace (off + (13 + Z.of_nat 8)) with (off + 13 + Z.of_nat 8) by lia.
  destruct (started (rwin s)) eqn:E; cbn [baseTx nextTx baseHeight started]; rewrite ?E; done.
Qed.

(** A record cut short stops the replay. *)
Lemma replay_torn_rec fuel s off r k :
  rec_ok r -> (k < length (enc r))%nat -> replay fuel s off (take k (enc r)) = Ok s.
Proof.
  intros [Hn Hp] Hk. destruct fuel as [|fuel]; [done|]. rewrite enc_hdr in *.
  set (h := hdr (rkind r) (rnum r) (len (rpay r))) in *.
  assert (Hh : length h = 13%nat) by (pose proof (len_hdr (rkind r) (rnum r) (len (rpay r))); unfold len in *; subst h; lia).
  rewrite length_app in Hk. destruct (decide (k < 13)%nat) as [Hs|Hs].
  - cbn [replay]. rewrite (proj2 (Z.ltb_lt _ _)); [done|]. unfold len, recHeader. rewrite length_take, length_app. lia.
  - rewrite take_app_ge by lia. pose proof (len_nonneg (rpay r)). subst h.
    rewrite replay_hdr by (done || lia). rewrite (proj2 (Z.ltb_lt _ _)); [done|].
    rewrite Hh in Hk |- *. unfold len. rewrite length_take. lia.
Qed.

(** A block cut short leaves only deferred mutations behind. *)
Lemma replay_torn fuel s off rs es last k :
  decodes off rs es -> rec_ok last -> (k < length (enc_all rs ++ enc last))%nat ->
  exists p, replay fuel s off (take k (enc_all rs ++ enc last))
    = Ok (MkReplay (rwin s) (rrows s) (good s) p).
Proof.
  revert fuel s off es k. induction rs as [|r rs IH]; intros fuel s off [|e es] k; simpl decodes; try done.
  - intros _ Hl Hk. unfold enc_all in *. cbn [map concat app] in *. rewrite replay_torn_rec by done. exists (pend s). by destruct s.
  - intros (Hkd & Hok & Hd & Hds) Hl Hk. unfold enc_all in *. cbn [map concat] in *.
    rewrite <- app_assoc in *. rewrite length_app in Hk.
    destruct (decide (k < length (enc r))%nat) as [Hs|Hs].
    + rewrite take_app_le by lia. rewrite replay_torn_rec by done. exists (pend s). by destruct s.
    + rewrite take_app_ge by lia. destruct fuel as [|fuel]; [exists (pend s); by destruct s|].
      rewrite (replay_rec _ _ _ _ _ e) by done.
      destruct (IH fuel (MkReplay (rwin s) (rrows s) (good s) (pend s ++ [e])) _ es (k - length (enc r))%nat Hds Hl)
        as [p Hp]; [lia|]. exists p. exact Hp.
Qed.

(** ** The theorem *)

Fixpoint add_all (m : memtable) (bs : list BlockWrite) : res memtable :=
  match bs with
  | [] => Ok m
  | b :: bs => let* m := add Keccak256 EncodeBare m b in add_all m bs
  end.

Lemma add_spec m b m' :
  add Keccak256 EncodeBare m b = Ok m' -> settled m -> block_ok b -> m' = m \/ block_written m b m'.
Proof.
  intros H Hs Hb. unfold add in H. destruct (Z.ltb_spec (Height b) (nextHeight (win m))) as [|Hge].
  { left. by injection H as ->. }
  right. apply rbind_Ok in H as (m1 & E1 & H). pose proof Hs as (Hp & Hf & Ho & Hr & Hnt & Hbn).
  destruct (started (win m)) eqn:Est.
  - injection E1 as <-. destruct (Z.eqb_spec (Height b) (nextHeight (win m))); simpl in H; [|done].
    eapply add_block_written; eauto. lia.
  - revert E1. case_test; [done|]. intros [= <-]. cbn [with_win win nextHeight] in H.
    rewrite Z.eqb_refl in H. cbn [negb] in H.
    apply add_block_written in H; [|by split_and!|done|done|done].
    destruct H as (rs & es & nt & rr & H1 & H2 & H3 & H4 & H5 & H6 & H7).
    exists rs, es, nt, rr. cbn [with_win mlog mem win baseTx baseHeight started] in *.
    rewrite Est. done.
Qed.

Lemma add_order m b m' : add Keccak256 EncodeBare m b = Ok m' -> m' = m \/ nextHeight (win m) <= Height b.
Proof.
  unfold add. destruct (Z.ltb_spec (Height b) (nextHeight (win m))); [|auto].
  intros [= ->]. auto.
Qed.

Lemma add_all_grows m bs m' :
  add_all m bs = Ok m' -> settled m -> Forall block_ok bs ->
  settled m' /\ exists t, mlog m' = mlog m ++ t.
Proof.
  revert m. induction bs as [|b bs IH]; intros m H Hs Hok.
  { injection H as <-. split; [done|]. exists []. by rewrite app_nil_r. }
  apply Forall_cons in Hok as [Hb Hok]. apply rbind_Ok in H as (m1 & E & H).
  destruct (add_spec m b m1 E Hs Hb) as [->|(rs & es & nt & rr & L & _ & _ & _ & _ & _ & Hs1)].
  { by apply IH. }
  destruct (IH m1 H Hs1 Hok) as [Hs' [t Ht]]. split; [done|]. rewrite Ht, L, <- app_assoc. eauto.
Qed.

(** The log after some of the blocks is a prefix of the log after all. *)
Lemma add_all_prefix m bs j mk mj :
  add_all m bs = Ok mk -> add_all m (take j bs) = Ok mj -> settled m -> Forall block_ok bs ->
  exists t, mlog mk = mlog mj ++ t.
Proof.
  revert m bs. induction j as [|j IH]; intros m bs H A Hs Hok.
  { injection A as <-. by destruct (add_all_grows m bs mk H Hs Hok). }
  destruct bs as [|b bs]; [cbn in *; exists []; rewrite app_nil_r; congruence|].
  rewrite firstn_cons in A. cbn [add_all] in *. apply rbind_Ok in H as (m1 & E & H). rewrite E in A. cbn [rbind] in A.
  apply Forall_cons in Hok as [Hb Hok]. eapply IH; eauto.
  destruct (add_spec m b m1 E Hs Hb) as [->|(? & ? & ? & ? & _ & _ & _ & _ & _ & _ & ?)]; done.
Qed.

(** A replay that has reached the state of the memtable [m]. *)
Definition synced (s : replaying) (m : memtable) : Prop :=
  rwin s = win m /\ rrows s = mem m /\ good s = len (mlog m).

Lemma length_enc_all rs : (length rs <= length (enc_all rs))%nat.
Proof.
  induction rs as [|r rs IH]; [done|]. unfold enc_all in *. cbn [map concat length].
  rewrite length_app. pose proof (len_enc r). pose proof (len_nonneg (rpay r)). unfold len in *. lia.
Qed.

(** The bytes of one block replay to its memtable when whole, and to nothing
    when cut anywhere. *)
Lemma replay_block m b m1 s :
  block_written m b m1 -> settled m -> block_ok b -> nextHeight (win m) <= Height b ->
  synced s m -> pend s = [] ->
  exists blk n, mlog m1 = mlog m ++ blk /\ (n < length blk)%nat /\
    (forall f c, replay (n + S f) s (len (mlog m)) (blk ++ c)
       = replay f (MkReplay (win m1) (mem m1) (len (mlog m1)) []) (len (mlog m1)) c) /\
    (forall fuel k, (k < length blk)%nat -> exists p,
       replay fuel s (len (mlog m)) (take k blk) = Ok (MkReplay (rwin s) (rrows s) (good s) p)).
Proof.
  intros (rs & es & nt & rr & L & D & Hnt & C & Hmem & Hwin & _) Hs ([Hh1 Hh2] & _) Hord (S1 & S2 & S3) Hpend.
  set (last := MkRec recEnd (Height b) (bigE 8 nt)) in *.
  assert (Hlast : rec_ok last) by (split; [unfold u64_ok; simpl; lia|]; cbn [rpay last]; lens; lia).
  exists (enc_all rs ++ enc last), (length rs). split; [done|]. split.
  { rewrite length_app. pose proof (length_enc_all rs). pose proof (len_enc last).
    pose proof (len_nonneg (rpay last)). unfold len in *. lia. }
  split.
  - intros f c. rewrite <- app_assoc, (replay_recs _ _ _ _ es _ D), Hpend. cbn [app].
    rewrite (replay_end f _ _ (Height b) nt c rr); cbn [rwin rrows good pend]; try done.
    + rewrite Hwin, Hmem, L, S1. fold last. lens. rewrite <- Z.add_assoc. done.
    + unfold u64_ok. lia.
    + rewrite S1. destruct Hs as (_ & _ & _ & _ & _ & Hbn). lia.
    + by rewrite S2.
  - intros fuel k Hk. by eapply replay_torn.
Qed.

Lemma prefix_cases {A} (cut t blk t1 : list A) :
  cut ++ t = blk ++ t1 ->
  ((length cut < length blk)%nat /\ cut = take (length cut) blk) \/ exists c, cut = blk ++ c /\ c ++ t = t1.
Proof.
  intros H. destruct (decide (length cut < length blk)%nat) as [Hl|Hl]; [left|right].
  - split; [done|]. rewrite <- (take_app_le blk t1) by lia. by rewrite <- H, take_app_length.
  - exists (drop (length blk) cut). assert (Hc : cut = blk ++ drop (length blk) cut).
    { rewrite <- (take_drop (length blk) cut) at 1. f_equal.
      rewrite <- (take_app_le cut t) by lia. by rewrite H, take_app_length. }
    split; [done|]. rewrite Hc in H at 1. rewrite <- app_assoc in H. by apply app_inv_head in H.
Qed.

(** [j] of the blocks are whole in the log of [m] followed by [cut]. *)
Definition whole_blocks (m : memtable) (bs : list BlockWrite) (cut : bytes) (j : nat) (mj : memtable) : Prop :=
  (j <= length bs)%nat /\ add_all m (take j bs) = Ok mj /\ len (mlog mj) <= len (mlog m ++ cut) /\
  forall mj', (j < length bs)%nat -> add_all m (take (S j) bs) = Ok mj' -> len (mlog m ++ cut) < len (mlog mj').

Lemma whole_blocks_S m b bs m1 cut c j mj :
  add Keccak256 EncodeBare m b = Ok m1 -> mlog m ++ cut = mlog m1 ++ c ->
  whole_blocks m1 bs c j mj -> whole_blocks m (b :: bs) cut (S j) mj.
Proof.
  intros E Hl (Hj & A & Ll & M). split_and!.
  - simpl. lia.
  - cbn [take add_all]. by rewrite E.
  - by rewrite Hl.
  - intros mj' Hj' A'. rewrite Hl. apply M; [simpl in Hj'; lia|].
    rewrite firstn_cons in A'. cbn [add_all] in A'. by rewrite E in A'.
Qed.

Lemma replay_blocks bs m mk s fuel cut :
  add_all m bs = Ok mk -> settled m -> Forall block_ok bs -> synced s m -> pend s = [] ->
  (exists t, mlog mk = mlog m ++ cut ++ t) -> (length cut < fuel)%nat ->
  exists j mj s', whole_blocks m bs cut j mj /\
    replay fuel s (len (mlog m)) cut = Ok s' /\ synced s' mj.
Proof.
  revert m s fuel cut. induction bs as [|b bs IH]; intros m s fuel cut H Hs Hok Hsy Hpend [t Ht] Hf.
  { injection H as <-. rewrite <- (app_nil_r (mlog m)) in Ht at 1. apply app_inv_head in Ht.
    symmetry in Ht. apply app_nil in Ht as [-> ->]. exists O, m, s. destruct fuel; [simpl in Hf; lia|].
    split; [|done]. split_and!; [simpl; lia|done|rewrite app_nil_r; lia|intros; simpl in *; lia]. }
  apply Forall_cons in Hok as [Hb Hok]. cbn [add_all] in H. apply rbind_Ok in H as (m1 & E & H).
  destruct (add_spec m b m1 E Hs Hb) as [->|Hw].
  { destruct (IH m s fuel cut H Hs Hok Hsy Hpend) as (j & mj & s' & W & R & Sy); [by exists t|done|].
    exists (S j), mj, s'. split; [by eapply whole_blocks_S|done]. }
  assert (Hs1 : settled m1) by (destruct Hw as (? & ? & ? & ? & _ & _ & _ & _ & _ & _ & ?); done).
  destruct (add_all_grows m1 bs mk H Hs1 Hok) as [_ [t1 Ht1]].
  destruct (decide (nextHeight (win m) <= Height b)) as [Hord|Hord].
  2: { destruct (add_order m b m1 E) as [->|?]; [|lia].
       destruct Hw as (rs & es & nt & rr & L & _). apply (f_equal len) in L. lens.
       rewrite len_enc in L. cbn [rpay] in L. lens. pose proof (len_nonneg (enc_all rs)). lia. }
  destruct (replay_block m b m1 s Hw Hs Hb Hord Hsy Hpend) as (blk & n & L & Hn & Hwhole & Htorn).
  rewrite Ht1, L, <- app_assoc in Ht. apply app_inv_head in Ht. symmetry in Ht.
  destruct (prefix_cases _ _ _ _ Ht) as [[Hc Hcut]|(c & -> & Hc)].
  - destruct (Htorn fuel (length cut) Hc) as [p Hp]. rewrite <- Hcut in Hp.
    exists O, m, (MkReplay (rwin s) (rrows s) (good s) p). split; [|by destruct Hsy].
    split_and!; [lia|done|lensimp|]. intros mj' _ A'. rewrite firstn_cons, firstn_O in A'. cbn [add_all] in A'.
    rewrite E in A'. injection A' as <-. rewrite L. unfold len. rewrite !length_app. lia.
  - rewrite length_app in Hf. replace fuel with (n + S (fuel - n - 1))%nat by lia. rewrite Hwhole.
    destruct (IH m1 (MkReplay (win m1) (mem m1) (len (mlog m1)) []) (fuel - n - 1)%nat c H Hs1 Hok)
      as (j & mj & s' & W & R & Sy); [done|done|exists t; by rewrite Ht1, Hc|lia|].
    exists (S j), mj, s'. split; [|done]. eapply whole_blocks_S; [done| |done]. by rewrite L, app_assoc.
Qed.

(** An empty window parked at a TxNum and a height. *)
Definition fresh (bt bh : Z) : memtable := reset (newMemtableAt [] false) bt bh.

Lemma recover_cut bt bh bs mk n :
  u64_ok bt -> 0 <= bh -> Forall block_ok bs -> add_all (fresh bt bh) bs = Ok mk ->
  (n <= length (mlog mk))%nat ->
  exists j mj, whole_blocks (fresh bt bh) bs (take n (mlog mk)) j mj /\
    recover (newMemtableAt (take n (mlog mk)) false) bt bh = Ok mj.
Proof.
  intros Hbt Hbh Hok H Hn. set (m0 := fresh bt bh). set (cut := take n (mlog mk)).
  assert (Hs0 : settled m0) by (split_and!; try done; simpl; lia).
  destruct (replay_blocks bs m0 mk (MkReplay (MkWindow bt bt bh bh false) empty_rows 0 []) (S (length cut)) cut)
    as (j & mj & s' & W & R & (Y1 & Y2 & Y3)); try done.
  { exists (drop n (mlog mk)). change (mlog mk = take n (mlog mk) ++ drop n (mlog mk)). by rewrite take_drop. }
  { lia. }
  exists j, mj. split; [done|]. unfold recover, newMemtableAt, clear. cbn [mlog win mem readOnly fopen].
  cbn [mlog m0 fresh reset] in R. change (len (@nil Z)) with 0 in R. rewrite R. cbn [rbind].
  destruct W as (Hj & A & Ll & _).
  destruct (add_all_grows m0 (take j bs) mj A Hs0) as [(P & F & O & Ro & _) _]; [by apply Forall_take|].
  f_equal. rewrite Y1, Y2, Y3.
  assert (Hlog : take (Z.to_nat (len (mlog mj))) cut = mlog mj).
  { destruct (add_all_prefix m0 bs j mk mj H A Hs0 Hok) as [t Ht].
    rewrite len_to_nat. subst cut. cbn [mlog m0 fresh reset app] in Ll. unfold len in Ll.
    rewrite length_take in Ll. rewrite take_take, Nat.min_l by lia. by rewrite Ht, take_app_length. }
  rewrite Hlog. destruct mj as [l p f w r o ro]. cbn [mlog pos flushed win mem fopen readOnly] in *. congruence.
Qed.

(** A log that lost nothing comes back as the very memtable. *)
Lemma recover_whole bt bh bs mk :
  u64_ok bt -> 0 <= bh -> Forall block_ok bs -> add_all (fresh bt bh) bs = Ok mk ->
  recover (newMemtableAt (mlog mk) false) bt bh = Ok mk.
Proof.
  intros Hbt Hbh Hok H. destruct (recover_cut bt bh bs mk (length (mlog mk)) Hbt Hbh Hok H) as (j & mj & (Hj & A & _ & M) & R); [lia|].
  rewrite take_ge in R by lia. rewrite R. f_equal. destruct (decide (j = length bs)) as [->|Hne].
  { rewrite take_ge in A by lia. congruence. }
  assert (Hs0 : settled (fresh bt bh)) by (split_and!; try done; simpl; lia). exfalso.
  assert (Hm : exists mj', add_all (fresh bt bh) (take (S j) bs) = Ok mj').
  { clear -H. revert H. generalize (fresh bt bh) (S j). induction bs as [|b bs IH]; intros m n H; [rewrite take_nil; by eexists|].
    destruct n as [|n]; [by eexists|]. rewrite firstn_cons. cbn [add_all] in *. apply rbind_Ok in H as (m1 & -> & H). cbn [rbind]. by apply IH. }
  destruct Hm as [mj' Hm]. specialize (M mj' ltac:(lia) Hm). destruct (add_all_prefix _ bs (S j) mk mj' H Hm Hs0 Hok) as [t Ht].
  cbn [mlog fresh reset app] in M. rewrite take_ge in M by lia. rewrite Ht in M. unfold len in M. rewrite length_app in M. lia.
Qed.

(** C4: crash safety of the window. Blocks are added to a fresh window; a crash
    leaves any prefix of the log on disk. [recover] then returns exactly the
    memtable as it stood after the last block that is whole in that prefix (the
    indexes, the bounds, the offsets and the log cut back to that block), never
    an error and never part of a block. *)
Theorem recover_after_crash bt bh bs mk n :
  u64_ok bt -> 0 <= bh -> Forall block_ok bs -> add_all (fresh bt bh) bs = Ok mk ->
  (n <= length (mlog mk))%nat ->
  exists j mj, whole_blocks (fresh bt bh) bs (take n (mlog mk)) j mj /\
    recover (newMemtableAt (take n (mlog mk)) false) bt bh = Ok mj.
Proof. apply recover_cut. Qed.

(** ** Replaying a log whose blocks a run already holds *)

Lemma replay_end_dropped fuel s off num nt t :
  u64_ok num -> num < baseHeight (rwin s) ->
  replay (S fuel) s off (enc (MkRec recEnd num (bigE 8 nt)) ++ t)
  = replay fuel (MkReplay (rwin s) (rrows s) (off + len (enc (MkRec recEnd num (bigE 8 nt)))) [])
      (off + len (enc (MkRec recEnd num (bigE 8 nt)))) t.
Proof.
  intros Hn Hb. rewrite enc_hdr, <- app_assoc. cbn [rkind rnum rpay]. lens.
  rewrite replay_hdr by (done || lia). rewrite (proj2 (Z.ltb_ge _ _)) by lensimp. cbn zeta.
  rewrite Z.eqb_refl. change (Z.of_nat 8 =? 8) with true. cbn [negb].
  rewrite (proj2 (Z.ltb_lt _ _)) by lia. change (Z.to_nat (Z.of_nat 8)) with 8%nat.
  rewrite drop_app_length' by (by rewrite length_be). rewrite len_hdr. unfold recHeader.
  by replace (off + (13 + Z.of_nat 8)) with (off + 13 + Z.of_nat 8) by lia.
Qed.

Lemma replay_dropped bs m mk s fuel cut :
  add_all m bs = Ok mk -> settled m -> Forall block_ok bs -> mlog mk = mlog m ++ cut ->
  Forall (fun b => Height b < baseHeight (rwin s)) bs -> pend s = [] -> good s = len (mlog m) ->
  (length cut < fuel)%nat ->
  replay fuel s (len (mlog m)) cut = Ok (MkReplay (rwin s) (rrows s) (len (mlog mk)) []).
Proof.
  revert m s fuel cut. induction bs as [|b bs IH]; intros m s fuel cut H Hs Hok Ht Hlow Hpend Hg Hf.
  { injection H as <-. rewrite <- (app_nil_r (mlog m)) in Ht at 1. apply app_inv_head in Ht. subst cut.
    destruct fuel; [simpl in Hf; lia|]. simpl. destruct s; simpl in *; congruence. }
  apply Forall_cons in Hok as [Hb Hok], Hlow as [Hlb Hlow].
  cbn [add_all] in H. apply rbind_Ok in H as (m1 & E & H).
  destruct (add_spec m b m1 E Hs Hb) as [->|(rs & es & nt & rr & L & D & Hnt & _ & _ & _ & Hs1)].
  { by apply (IH m). }
  destruct (add_all_grows m1 bs mk H Hs1 Hok) as [_ [t1 Ht1]]. pose proof Hb as ([Hh1 Hh2] & _).
  set (last := MkRec recEnd (Height b) (bigE 8 nt)) in *.
  rewrite Ht1, L, <- app_assoc in Ht. apply app_inv_head in Ht. subst cut.
  pose proof (length_enc_all rs). rewrite !length_app in Hf.
  replace fuel with (length rs + S (fuel - length rs - 1))%nat.
  2: { pose proof (len_enc last). pose proof (len_nonneg (rpay last)). unfold len in *. lia. }
  rewrite <- app_assoc, (replay_recs _ _ _ _ es _ D). subst last.
  rewrite replay_end_dropped by (unfold u64_ok; cbn [rwin]; lia).
  set (s1 := MkReplay _ _ _ _).
  replace (len (mlog m) + len (enc_all rs) + len (enc (MkRec recEnd (Height b) (bigE 8 nt))))
    with (len (mlog m1)) in * by (rewrite L; lens; lia).
  apply (IH m1 s1); try done.
  - cbn [good s1]. rewrite L. lens. lia.
  - pose proof (len_enc (MkRec recEnd (Height b) (bigE 8 nt))). cbn [rpay] in *. lens. unfold len in *. lia.
Qed.

(** the replay floor. When the manifest already names a run that holds every
    block of the log (a crash between publishing the run and truncating the
    log), [recover] drops them all: the window comes back empty and parked
    exactly where the sealed runs end, so no block is ever stored twice. *)
Theorem recover_drops_sealed bt0 bh0 bs mk bt bh :
  u64_ok bt0 -> 0 <= bh0 -> Forall block_ok bs -> add_all (fresh bt0 bh0) bs = Ok mk ->
  Forall (fun b => Height b < bh) bs ->
  exists m, recover (newMemtableAt (mlog mk) false) bt bh = Ok m /\
    mem m = empty_rows /\ win m = MkWindow bt bt bh bh false /\
    mlog m = mlog mk /\ pos m = len (mlog mk) /\ flushed m = pos m.
Proof.
  intros Hbt Hbh Hok H Hlow.
  assert (Hs0 : settled (fresh bt0 bh0)) by (split_and!; try done; simpl; lia).
  pose proof (replay_dropped bs (fresh bt0 bh0) mk (MkReplay (MkWindow bt bt bh bh false) empty_rows 0 [])
    (S (length (mlog mk))) (mlog mk) H Hs0 Hok) as R.
  cbn [mlog fresh reset app] in R. change (len (@nil Z)) with 0 in R.
  unfold recover, newMemtableAt, clear. cbn [mlog win mem readOnly fopen].
  rewrite R by (done || lia). cbn [rbind good rwin rrows].
  eexists. split; [done|]. cbn [mem win mlog pos flushed]. split_and!; try done.
  rewrite len_to_nat. by apply take_ge.
Qed.

End Recover.

(** ** Witnesses *)

Definition sample_keccak (b : bytes) : bytes := replicate 32 (len b mod 256).
Definition sample_bare (h : bytes) (txs : list bytes) : res bytes := Ok (h ++ concat txs).

Definition sample_tx (c : Z) : TxWrite :=
  MkTxWrite (replicate 32 c) [c; 1] [c; 2] [] [replicate 20 3]
    [MkStateRow 97 (replicate 20 c) [] [9]; MkStateRow 115 (replicate 20 c) (replicate 32 1) []]
    (replicate 20 c) (replicate 20 4) [] [MkLogWrite (replicate 20 4) [replicate 32 5; replicate 32 6]].

Definition sample_blocks : list BlockWrite :=
  [MkBlockWrite 1 [1; 2; 3] [] [sample_tx 7; sample_tx 8] [(replicate 32 2, [96; 0])] [];
   MkBlockWrite 2 [1; 2; 4] [] [] [] [MkStateRow 99 (replicate 20 7) [] (replicate 32 2)]].

Lemma sample_blocks_ok : Forall block_ok sample_blocks.
Proof.
  unfold block_ok, tx_ok, state_row_ok, small.
  apply (bool_decide_unpack _). vm_compute. exact I.
Qed.

End MemRecover.
