(* ===== verification/MemRead.v ===== *)
(** * Reading the window back (store/mem.go)

    The window's chain families refine a map from (family, number) to rows:
    [add] accepts the block the window expects and [chainGet] returns exactly
    the rows that were added, the block-boundary slots having none. *)

From S2P Require Import Prelude Bytes Rows Format Sha256 Container Memtable MemRecover.

Module MemRead.
Import Memtable.

(** ** One family's index *)

(** The index [c] over the log holds the rows [look], the next number being [e]. *)
Definition fam_ok (log : bytes) (c : chainIndex) (look : Z -> option bytes) (e : Z) : Prop :=
  length (cn c) = length (coff c) /\ 0 <= cbase c /\ 0 <= e < 2 ^ 63 /\
  (if cset c then cbase c + len (coff c) = e else coff c = []) /\
  forall num, match ci_find c num with
  | Some (off, n) => exists v, look num = Some v /\ 13 <= off /\ n = len v /\ slice log off (off + n) = Ok v
  | None => look num = None
  end.

Lemma fam_ok_empty log e : 0 <= e < 2 ^ 63 -> fam_ok log ci_empty (fun _ => None) e.
Proof. intros He. split_and!; try done; lia. Qed.

Lemma slice_grow log x lo hi v : slice log lo hi = Ok v -> slice (log ++ x) lo hi = Ok v.
Proof.
  unfold slice. case_test; [|done]. intros [= <-]. lens. pose proof (len_nonneg x). ztests.
  f_equal. rewrite drop_app_le by (unfold len in *; lia).
  rewrite take_app_le; [done|]. rewrite length_drop. unfold len in *. lia.
Qed.

Lemma fam_ok_grow log x c look e : fam_ok log c look e -> fam_ok (log ++ x) c look e.
Proof.
  intros (H1 & H2 & H3 & H4 & H5). split_and!; try done; try lia. intros num. specialize (H5 num).
  destruct (ci_find c num) as [[off n]|]; [|done].
  destruct H5 as (v & ? & ? & ? & ?). exists v. split_and!; try done. by apply slice_grow.
Qed.

(** Where the index looks for a number. *)
Lemma ci_find_set b o ns num :
  0 <= b -> b + len o < 2 ^ 64 -> length ns = length o ->
  ci_find (MkCI b true o ns) num
  = (if (num <? b) || (b + len o <=? num) then None
     else match o !! Z.to_nat (num - b), ns !! Z.to_nat (num - b) with
          | Some off, Some n => if off =? 0 then None else Some (off, n)
          | _, _ => None end).
Proof.
  intros Hb Hlt Hl. unfold ci_find. cbn [cset cbase coff cn negb orb].
  rewrite u64_small by (unfold u64_ok; pose proof (len_nonneg o); lia). done.
Qed.

(** The base an index takes when its first row or slot arrives. *)
Definition based (c : chainIndex) (b : Z) : chainIndex :=
  if cset c then c else MkCI b true (coff c) (cn c).

Lemma fam_ok_based log c look e b :
  fam_ok log c look e -> (cset c = false -> 0 <= b < 2 ^ 63) ->
  fam_ok log (based c b) look (if cset c then e else b).
Proof.
  unfold based. destruct (cset c) eqn:E; [done|].
  intros (H1 & H2 & H3 & H4 & H5) Hb. rewrite E in H4. specialize (Hb eq_refl).
  assert (Hn : cn c = []) by (rewrite H4 in H1; by destruct (cn c)).
  split_and!; cbn [cset cbase coff cn]; try done; try lia.
  - rewrite H4. lens. lia.
  - intros num. specialize (H5 num). unfold ci_find in H5. rewrite E in H5. cbn [negb orb] in H5.
    rewrite H4, Hn, ci_find_set by (lens; done || lia). simpl.
    by destruct ((num <? b) || (b + len [] <=? num)).
Qed.

(** Appending one entry at the end: a present row or an absent slot. *)
Lemma fam_ok_push log c look e off n look' :
  cset c = true -> fam_ok log c look e -> e + 1 < 2 ^ 63 ->
  (forall num, num <> e -> look' num = look num) ->
  (if off =? 0 then look' e = None
   else exists v, look' e = Some v /\ 13 <= off /\ n = len v /\ slice log off (off + n) = Ok v) ->
  fam_ok log (MkCI (cbase c) true (coff c ++ [off]) (cn c ++ [n])) look' (e + 1).
Proof.
  intros Hset (H1 & H2 & H3 & H4 & H5) He Hother Hnew. rewrite Hset in H4.
  pose proof (len_nonneg (coff c)).
  split_and!; cbn [cset cbase coff cn]; try lia.
  - rewrite !length_app. simpl. lia.
  - lens. lia.
  - intros num. specialize (H5 num). rewrite ci_find_set by (rewrite ?length_app; lens; simpl; lia).
    destruct c as [b cs o ns]. cbn [cset cbase coff cn] in *. subst cs.
    rewrite ci_find_set in H5 by lia. lens.
    destruct (decide (num = e)) as [->|Hne].
    + rewrite (proj2 (Z.ltb_ge _ _)), (proj2 (Z.leb_gt _ _)) by lia. cbn [orb].
      replace (Z.to_nat (e - b)) with (length o) by (unfold len in *; lia).
      rewrite list_lookup_middle by done. rewrite <- H1, list_lookup_middle by done.
      by destruct (off =? 0).
    + rewrite (Hother num Hne). destruct ((num <? b) || (b + len o <=? num)) eqn:Eo.
      * replace ((num <? b) || (b + (len o + (1 + 0)) <=? num)) with true; [done|].
        symmetry. apply orb_true_iff in Eo as [E'|E']; apply orb_true_iff; [by left|right].
        bool_prop. apply Z.leb_le. lia.
      * bool_prop. rewrite (proj2 (Z.ltb_ge _ _)), (proj2 (Z.leb_gt _ _)) by lia. cbn [orb].
        rewrite !lookup_app_l by (unfold len in *; lia). done.
Qed.

Lemma fam_ok_add log c look e off v :
  fam_ok log c look e -> e + 1 < 2 ^ 63 -> 13 <= off -> len v < 2 ^ 32 ->
  slice log off (off + len v) = Ok v ->
  exists c', ci_add c e off (len v) = Ok c' /\
    fam_ok log c' (fun num => if num =? e then Some v else look num) (e + 1).
Proof.
  intros H He Hoff Hv Hsl. pose proof H as (H1 & H2 & H3 & H4 & _). pose proof (len_nonneg v).
  pose proof (fam_ok_based log c look e e H ltac:(lia)) as Hb.
  replace (if cset c then e else e) with e in Hb by (by destruct (cset c)).
  exists (MkCI (cbase (based c e)) true (coff (based c e) ++ [off]) (cn (based c e) ++ [len v])). split.
  - unfold ci_add, based. rewrite u32_small by (unfold u32_ok; lia). pose proof (len_nonneg (coff c)).
    destruct (cset c) eqn:Es; cbn [cbase coff cn].
    + rewrite u64_small by (unfold u64_ok; lia). by rewrite H4, Z.eqb_refl.
    + rewrite H4. lens. rewrite Z.add_0_r, u64_small by (unfold u64_ok; lia). by rewrite Z.eqb_refl.
  - apply (fam_ok_push _ _ look); try done.
    + unfold based. by destruct (cset c) eqn:?.
    + intros num Hne. by rewrite (proj2 (Z.eqb_neq _ _)).
    + rewrite (proj2 (Z.eqb_neq _ _)), Z.eqb_refl by lia. eauto.
Qed.

Lemma fam_ok_pad log c look e k :
  cset c = true -> fam_ok log c look e -> e + Z.of_nat k < 2 ^ 63 ->
  fam_ok log (MkCI (cbase c) true (coff c ++ replicate k 0) (cn c ++ replicate k 0)) look (e + Z.of_nat k).
Proof.
  revert c e. induction k as [|k IH]; intros c e Hset H He.
  - simpl replicate. rewrite !app_nil_r, Z.add_0_r. destruct c. simpl in *. by subst.
  - pose proof H as (_ & _ & He' & _ & Hl). assert (Hlook : look e = None).
    { specialize (Hl e). destruct H as (L1 & L2 & L3 & L4 & _). rewrite Hset in L4.
      destruct c as [b cs o ns]. cbn [cset cbase coff cn] in *. subst cs.
      rewrite ci_find_set in Hl by lia. rewrite (proj2 (Z.leb_le _ _)), orb_true_r in Hl by lia. done. }
    pose proof (fam_ok_push log c look e 0 0 look Hset H ltac:(lia) ltac:(done) Hlook) as H1.
    specialize (IH (MkCI (cbase c) true (coff c ++ [0]) (cn c ++ [0])) (e + 1) eq_refl H1 ltac:(lia)). cbn [cbase coff cn] in IH.
    rewrite <- !app_assoc in IH. cbn [replicate app]. by replace (e + Z.of_nat (S k)) with (e + 1 + Z.of_nat k) by lia.
Qed.

Lemma fam_ok_padTo log c look e next :
  fam_ok log c look e -> e < next < 2 ^ 63 -> fam_ok log (padTo c next) look next.
Proof.
  intros H Hn. pose proof H as (H1 & H2 & H3 & H4 & _). unfold padTo.
  pose proof (fam_ok_based log c look e (next - 1) H ltac:(lia)) as Hb.
  pose proof (len_nonneg (coff c)). unfold based in Hb. destruct (cset c) eqn:Es.
  - rewrite u64_small by (unfold u64_ok; lia). rewrite H4.
    pose proof (fam_ok_pad log c look e (Z.to_nat (next - e)) Es H ltac:(lia)) as Hp.
    by replace (e + Z.of_nat (Z.to_nat (next - e))) with next in Hp by lia.
  - rewrite (u64_small (next - 1)) by (unfold u64_ok; lia). rewrite H4. lens.
    rewrite Z.add_0_r, u64_small by (unfold u64_ok; lia).
    pose proof (fam_ok_pad log (MkCI (next - 1) true (coff c) (cn c)) look (next - 1) (Z.to_nat (next - (next - 1))) eq_refl Hb ltac:(lia)) as Hp.
    cbn [cbase coff cn] in Hp. rewrite ?H4 in Hp.
    by replace (next - 1 + Z.of_nat (Z.to_nat (next - (next - 1)))) with next in Hp by lia.
Qed.

(** ** The six families of a memtable *)

Definition chain_ok (m : memtable) (C : gmap (nat * Z) bytes) (E : list Z) : Prop :=
  pos m = len (mlog m) /\
  Forall2 (fun x e => fam_ok (mlog m) x.2 (fun num => C !! (x.1, num)) e)
    (imap pair (chain (mem m))) E.

Lemma chain_ok_lookup m C E fam e :
  chain_ok m C E -> E !! fam = Some e ->
  exists c, chain (mem m) !! fam = Some c /\ fam_ok (mlog m) c (fun num => C !! (fam, num)) e.
Proof.
  intros [_ H] He. destruct (Forall2_lookup_r _ _ _ _ _ H He) as ([i c] & Hc & Hok).
  rewrite list_lookup_imap in Hc. destruct (chain (mem m) !! fam) as [c'|] eqn:Ec; [|done].
  injection Hc as <- <-. by exists c'.
Qed.

Lemma fam_ok_ext log c look look' e :
  (forall num, look' num = look num) -> fam_ok log c look e -> fam_ok log c look' e.
Proof.
  intros Hl (H1 & H2 & H3 & H4 & H5). split_and!; try done; try lia. intros num. specialize (H5 num).
  rewrite Hl. exact H5.
Qed.

(** Replacing one family's index. *)
Lemma chain_ok_insert m m' C C' E fam c e :
  chain_ok m C E -> (fam < length E)%nat -> pos m' = len (mlog m') -> (exists x, mlog m' = mlog m ++ x) ->
  chain (mem m') = <[fam := c]> (chain (mem m)) ->
  fam_ok (mlog m') c (fun num => C' !! (fam, num)) e ->
  (forall f num, f <> fam -> C' !! (f, num) = C !! (f, num)) ->
  chain_ok m' C' (<[fam := e]> E).
Proof.
  intros [_ H] Hlt Hp [x Hx] Hc Hok Hother. split; [done|]. rewrite Hc.
  apply Forall2_same_length_lookup_2.
  { rewrite length_imap, !length_insert. apply Forall2_length in H. by rewrite length_imap in H. }
  intros i [j d] e' Hd He'. rewrite list_lookup_imap in Hd.
  destruct (decide (i = fam)) as [->|Hne].
  - rewrite list_lookup_insert_eq in He' by done. injection He' as <-.
    rewrite list_lookup_insert_eq in Hd.
    2: { apply Forall2_length in H. rewrite length_imap in H. lia. }
    injection Hd as <- <-. done.
  - rewrite list_lookup_insert_ne in He' by done. rewrite list_lookup_insert_ne in Hd by done.
    destruct (chain (mem m) !! i) as [c'|] eqn:Ec; [|done]. injection Hd as <- <-. cbn [fst snd].
    assert (Hi : imap pair (chain (mem m)) !! i = Some (i, c')) by (by rewrite list_lookup_imap, Ec).
    pose proof (Forall2_lookup_lr _ _ _ _ _ _ H Hi He') as Hf. cbn [fst snd] in Hf.
    rewrite Hx. eapply fam_ok_ext; [|by apply fam_ok_grow]. intros num. by apply Hother.
Qed.

(** A step that leaves the chain families alone. *)
Definition quiet (m m' : memtable) : Prop :=
  chain (mem m') = chain (mem m) /\ win m' = win m /\ fopen m' = fopen m /\
  exists x, mlog m' = mlog m ++ x /\ pos m' = pos m + len x.

#[global] Instance quiet_refl : Reflexive quiet.
Proof. intros m. split_and!; try done. exists []. rewrite app_nil_r. lens. split; [done|lia]. Qed.
#[global] Instance quiet_trans : Transitive quiet.
Proof.
  intros m1 m2 m3 (A1 & A2 & A3 & x & A4 & A5) (B1 & B2 & B3 & y & B4 & B5).
  split_and!; try congruence. exists (x ++ y). rewrite B4, A4, <- app_assoc. lens. split; [done|lia].
Qed.

Lemma quiet_write m kind num p r :
  chain r = chain (mem m) -> quiet m (with_mem (write m kind num p).2 r).
Proof.
  intros Hc. split_and!; try done. cbn [write snd with_mem mlog pos].
  eexists. split; [done|]. unfold enc_rec, recHeader. lens. lia.
Qed.

Lemma quiet_fold {A} (f : memtable -> A -> memtable) l m :
  (forall m x, quiet m (f m x)) -> quiet m (fold_left f l m).
Proof.
  intros Hf. revert m. induction l as [|x l IH]; intros m; [done|]. cbn [fold_left].
  etransitivity; [apply Hf|apply IH].
Qed.

Lemma quiet_setRow n m k : quiet m (setRow n m k).
Proof. unfold setRow. destruct (decide _); [done|]. by apply quiet_write. Qed.
Lemma quiet_codeRow m x : quiet m (codeRow m x).
Proof. unfold codeRow. destruct (code (mem m) !! x.1); [done|]. by apply quiet_write. Qed.
Lemma quiet_numRow m k n : quiet m (numRow m k n).
Proof. by apply quiet_write. Qed.
Lemma quiet_postRow m g n p : quiet m (postRow m g n p).
Proof. by apply quiet_write. Qed.
Lemma quiet_stateRow m n r : quiet m (stateRow m n r).
Proof. by apply quiet_write. Qed.

Lemma chain_ok_grow m m' C E x :
  chain (mem m') = chain (mem m) -> mlog m' = mlog m ++ x -> pos m' = pos m + len x ->
  chain_ok m C E -> chain_ok m' C E.
Proof.
  intros H1 H2 H3 [Hp H]. split; [rewrite H2, H3, Hp; lens; lia|]. rewrite H1, H2.
  eapply Forall2_impl; [exact H|]. intros. by apply fam_ok_grow.
Qed.

Lemma chain_ok_quiet m m' C E : quiet m m' -> chain_ok m C E -> chain_ok m' C E.
Proof. intros (H1 & _ & _ & x & H2 & H3). by eapply chain_ok_grow. Qed.

Lemma chainRow_ok m C E fam e v :
  chain_ok m C E -> E !! fam = Some e -> (fam < 6)%nat -> e + 1 < 2 ^ 63 -> len v < 2 ^ 32 ->
  exists m', chainRow m fam e v = Ok m' /\ chain_ok m' (<[(fam, e) := v]> C) (<[fam := e + 1]> E) /\
    win m' = win m /\ fopen m' = fopen m.
Proof.
  intros Hok He Hfam Hb Hv. destruct (chain_ok_lookup m C E fam e Hok He) as (c & Hc & Hf).
  pose proof (proj1 Hok) as Hp. pose proof (len_nonneg (mlog m)).
  unfold chainRow. destruct (famRec !! fam) as [kind|] eqn:Ek.
  2: { apply lookup_ge_None in Ek. simpl in Ek. lia. }
  cbn [write]. unfold put_chain. cbn [mem]. rewrite Hc.
  set (log' := mlog m ++ enc_rec kind e (concat [v])).
  assert (Hsl : slice log' (pos m + recHeader) (pos m + recHeader + len v) = Ok v).
  { subst log'. unfold enc_rec. cbn [concat]. rewrite app_nil_r.
    replace (mlog m ++ [kind] ++ bigE 8 e ++ bigE 4 (len v) ++ v)
      with ((mlog m ++ [kind] ++ bigE 8 e ++ bigE 4 (len v)) ++ v ++ []) by (rewrite app_nil_r; by rewrite <- !app_assoc).
    apply slice_app; unfold recHeader; lens; lia. }
  cbn [concat]. rewrite app_nil_r.
  destruct (fam_ok_add log' c (fun num => C !! (fam, num)) e (pos m + recHeader) v) as (c' & Ha & Hf');
    [by apply fam_ok_grow|done|unfold recHeader; lia|done|done|].
  rewrite Ha. cbn [rbind]. eexists. split; [done|]. split; [|done].
  eapply (chain_ok_insert m); [exact Hok| | | |done| |].
  - by apply lookup_lt_Some in He.
  - cbn [with_mem pos mlog]. rewrite Hp. subst log'. unfold recHeader, enc_rec. cbn [concat]. lens. lia.
  - cbn [with_mem mlog]. subst log'. eauto.
  - cbn [with_mem mlog]. eapply fam_ok_ext; [|exact Hf']. intros num. cbn beta.
    destruct (Z.eqb_spec num e) as [->|]; [by rewrite lookup_insert_eq|].
    rewrite lookup_insert_ne; [done|congruence].
  - intros f num Hne. rewrite lookup_insert_ne; [done|congruence].
Qed.

(** ** Blocks *)

(** The next numbers of the six families: heights and TxNums. *)
Definition ends (h t : Z) : list Z := [h; h; t; h; t; t].

Definition tx_rows (n : Z) (t : TxWrite) (C : gmap (nat * Z) bytes) : gmap (nat * Z) bytes :=
  <[(famTx, n) := RLP t]> (<[(famRcpt, n) := Receipt t]> (<[(famItx, n) := Frames t]> C)).

Fixpoint txs_rows (n : Z) (txs : list TxWrite) (C : gmap (nat * Z) bytes) : gmap (nat * Z) bytes :=
  match txs with [] => C | t :: txs => txs_rows (n + 1) txs (tx_rows n t C) end.

(** What the window must hold of a block whose first TxNum is [first]. *)
Definition block_rows (first : Z) (b : BlockWrite) (C : gmap (nat * Z) bytes) : gmap (nat * Z) bytes :=
  txs_rows first (Txs b)
    (<[(famPvm, Height b) := Pvm b]> (<[(famHdr, Height b) := HeaderRLP b]>
      (<[(famBlk, Height b) := blkVal first b]> C))).

Definition tx_small (t : TxWrite) : Prop :=
  len (RLP t) < 2 ^ 32 /\ len (Receipt t) < 2 ^ 32 /\ len (Frames t) < 2 ^ 32.
Definition block_small (b : BlockWrite) : Prop :=
  len (HeaderRLP b) < 2 ^ 32 /\ len (Pvm b) < 2 ^ 32 /\ Forall tx_small (Txs b).

Lemma add_tx_ok m C h n t :
  chain_ok m C (ends h n) -> tx_small t -> n + 1 < 2 ^ 63 ->
  exists m', add_tx m n t = Ok m' /\ chain_ok m' (tx_rows n t C) (ends h (n + 1)) /\
    win m' = win m /\ fopen m' = fopen m.
Proof.
  intros Hok (H1 & H2 & H3) Hn. unfold add_tx.
  destruct (chainRow_ok m C _ famItx n (Frames t) Hok) as (m1 & -> & Ok1 & W1 & F1); [done|unfold famItx; lia|done|done|].
  cbn [rbind].
  destruct (chainRow_ok m1 _ _ famRcpt n (Receipt t) Ok1) as (m2 & -> & Ok2 & W2 & F2); [done|unfold famRcpt; lia|done|done|].
  cbn [rbind].
  destruct (chainRow_ok m2 _ _ famTx n (RLP t) Ok2) as (m3 & -> & Ok3 & W3 & F3); [done|unfold famTx; lia|done|done|].
  cbn [rbind]. eexists. split; [done|].
  set (m4 := fold_left _ (State t) _).
  assert (Hq : quiet m3 m4).
  { subst m4. etransitivity; [apply (quiet_numRow m3 (Format.TxHashKey (THash t)) n)|].
    etransitivity; [apply (quiet_fold (fun m g => postRow m g n (default 0 (tx_posts t !! g)))); intros; apply quiet_postRow|].
    etransitivity; [apply (quiet_fold (setRow n)); intros; apply quiet_setRow|].
    apply (quiet_fold (fun m r => stateRow m n r)). intros; apply quiet_stateRow. }
  split; [by eapply chain_ok_quiet|]. destruct Hq as (_ & Q1 & Q2 & _). split; congruence.
Qed.

Lemma add_txs_ok m C h n txs :
  chain_ok m C (ends h n) -> 0 <= n -> Forall tx_small txs -> n + len txs < 2 ^ 63 ->
  exists m', add_txs m n txs = Ok m' /\ chain_ok m' (txs_rows n txs C) (ends h (n + len txs)) /\
    win m' = win m /\ fopen m' = fopen m.
Proof.
  revert m C n. induction txs as [|t txs IH]; intros m C n Hok Hn Hs Hb.
  { exists m. lens. by rewrite Z.add_0_r. }
  apply Forall_cons in Hs as [Ht Hs]. pose proof (len_nonneg txs). lens. cbn [add_txs].
  destruct (add_tx_ok m C h n t Hok Ht ltac:(lia)) as (m1 & -> & Ok1 & W1 & F1). cbn [rbind].
  rewrite u64_small by (unfold u64_ok; lia).
  destruct (IH m1 _ (n + 1) Ok1 ltac:(lia) Hs ltac:(lia)) as (m2 & E2 & Ok2 & W2 & F2).
  exists m2. replace (n + (1 + len txs)) with (n + 1 + len txs) by lia. split_and!; try done; congruence.
Qed.

(** Parking the transaction families past the boundary slot. *)
Lemma pad_fams_ok m C h t next :
  chain_ok m C (ends h t) -> t < next < 2 ^ 63 ->
  chain_ok (with_mem m (pad_fams (mem m) next)) C (ends h next).
Proof.
  intros [Hp H] Hn. split; [done|]. cbn [with_mem mem mlog pad_fams chain].
  unfold ends in *. destruct (chain (mem m)) as [|c0 [|c1 [|c2 [|c3 [|c4 [|c5 [|c6 l]]]]]]];
    try (apply Forall2_length in H; simpl in H; lia).
  inv H as [|? ? ? ? F0 H']. inv H' as [|? ? ? ? F1 H]. inv H as [|? ? ? ? F2 H']. inv H' as [|? ? ? ? F3 H].
  inv H as [|? ? ? ? F4 H']. inv H' as [|? ? ? ? F5 H]. cbn [fst snd] in *.
  simpl. do 6 (apply Forall2_cons; cbn [fst snd]; split; [first [done | by eapply fam_ok_padTo]|]). done.
Qed.

Section Window.
Context (Keccak256 : bytes -> bytes) (EncodeBare : bytes -> list bytes -> res bytes).

(** The container of a block can be put together. *)
Definition reassembles (b : BlockWrite) : Prop :=
  exists c, Container.Reassemble EncodeBare (Pvm b) (HeaderRLP b) (map RLP (Txs b)) = Ok c.

(** The window stands at height [h] and TxNum [t], everything flushed. *)
Definition at_rest (m : memtable) (C : gmap (nat * Z) bytes) (h t : Z) : Prop :=
  chain_ok m C (ends h t) /\ flushed m = pos m /\ fopen m = true /\ nextTx (win m) = t.

Lemma add_block_ok m C t b :
  at_rest m C (Height b) t -> 0 <= t -> 0 <= Height b -> Height b + 1 < 2 ^ 63 -> block_small b ->
  reassembles b -> t + len (Txs b) + 1 < 2 ^ 63 ->
  exists m', add_block Keccak256 EncodeBare m b = Ok m' /\
    at_rest m' (block_rows t b C) (Height b + 1) (t + len (Txs b) + 1) /\
    win m' = MkWindow (baseTx (win m)) (t + len (Txs b) + 1) (baseHeight (win m)) (Height b + 1) (started (win m)).
Proof.
  intros (Hok & Hfl & Hfo & Hnt) Ht Hh0 Hh (S1 & S2 & S3) [ct Hct] Hb. pose proof (len_nonneg (Txs b)).
  unfold add_block. rewrite Hnt.
  destruct (chainRow_ok m C _ famBlk (Height b) (blkVal t b) Hok) as (m1 & -> & Ok1 & W1 & F1);
    [done|unfold famBlk; lia|done|unfold blkVal; lens; lia|]. cbn [rbind].
  destruct (chainRow_ok m1 _ _ famHdr (Height b) (HeaderRLP b) Ok1) as (m2 & -> & Ok2 & W2 & F2);
    [done|unfold famHdr; lia|done|done|]. cbn [rbind].
  destruct (chainRow_ok m2 _ _ famPvm (Height b) (Pvm b) Ok2) as (m3 & -> & Ok3 & W3 & F3);
    [done|unfold famPvm; lia|done|done|]. cbn [rbind]. rewrite Hct. cbn [rbind].
  set (m4 := fold_left codeRow (Code b) _).
  assert (Q4 : quiet m3 m4).
  { subst m4. etransitivity; [apply (quiet_numRow m3)|]. etransitivity; [apply quiet_numRow|].
    apply quiet_fold. intros; apply quiet_codeRow. }
  pose proof (chain_ok_quiet _ _ _ _ Q4 Ok3) as Ok4. destruct Q4 as (_ & W4 & F4 & _).
  destruct (add_txs_ok m4 _ (Height b + 1) t (Txs b) Ok4 Ht S3 ltac:(lia)) as (m5 & -> & Ok5 & W5 & F5).
  cbn [rbind]. rewrite (u64_small (t + _)), (u64_small (t + _ + 1)) by (unfold u64_ok; lia).
  set (m6 := fold_left _ (Tail b) m5).
  assert (Q6 : quiet m5 m6) by (apply quiet_fold; intros; apply quiet_stateRow).
  pose proof (chain_ok_quiet _ _ _ _ Q6 Ok5) as Ok6. destruct Q6 as (_ & W6 & F6 & _).
  pose proof (pad_fams_ok m6 _ _ _ (t + len (Txs b) + 1) Ok6 ltac:(lia)) as Ok7.
  set (m7 := with_mem m6 _) in *. eexists. split; [done|]. rewrite MemRecover.flushLocked_eq.
  cbn [with_win mlog pos win mem fopen readOnly flushed nextHeight nextTx started].
  split.
  - split_and!; try done; [|cbn; congruence].
    eapply (chain_ok_grow m7); [done|done| |exact Ok7].
    cbn [pos]. unfold enc_rec, recHeader. lens. lia.
  - rewrite u64_small by (unfold u64_ok; lia). cbn [m7 with_mem win]. by rewrite W6, W5, W4, W3, W2, W1.
Qed.

Lemma add_ok m C t b :
  at_rest m C (Height b) t -> 0 <= t -> 0 <= Height b -> Height b + 1 < 2 ^ 63 -> block_small b ->
  reassembles b -> t + len (Txs b) + 1 < 2 ^ 63 ->
  nextHeight (win m) = Height b \/ (started (win m) = false /\ nextHeight (win m) = 0) ->
  exists m', add Keccak256 EncodeBare m b = Ok m' /\
    at_rest m' (block_rows t b C) (Height b + 1) (t + len (Txs b) + 1) /\
    nextHeight (win m') = Height b + 1 /\ started (win m') = true /\ baseTx (win m') = baseTx (win m) /\
    baseHeight (win m') = if started (win m) then baseHeight (win m) else Height b.
Proof.
  intros Hr Ht Hh0 Hh Hs Hre Hb Hnext. unfold add.
  rewrite (proj2 (Z.ltb_ge _ _)) by lia.
  destruct (started (win m)) eqn:Est.
  - destruct Hnext as [Hn|[? _]]; [|done]. cbn [rbind]. rewrite Hn, Z.eqb_refl. cbn [negb].
    destruct (add_block_ok m C t b) as (m' & E & A & W); try done. exists m'. rewrite W. cbn. by rewrite Est.
  - assert (Hg : negb (nextHeight (win m) =? 0) && negb (Height b =? nextHeight (win m)) = false).
    { destruct Hnext as [->|[_ ->]]; [rewrite Z.eqb_refl; by rewrite andb_false_r|done]. }
    rewrite Hg. cbn [rbind with_win win nextHeight]. rewrite Z.eqb_refl. cbn [negb].
    destruct (add_block_ok (with_win m (MkWindow (baseTx (win m)) (nextTx (win m)) (Height b) (Height b) true)) C t b)
      as (m' & E & A & W); try done. exists m'. by rewrite W.
Qed.

(** Blocks at consecutive heights, each with the TxNums after the last. *)
Fixpoint chain_rows (t : Z) (bs : list BlockWrite) (C : gmap (nat * Z) bytes) : gmap (nat * Z) bytes :=
  match bs with [] => C | b :: bs => chain_rows (t + len (Txs b) + 1) bs (block_rows t b C) end.
Fixpoint end_tx (t : Z) (bs : list BlockWrite) : Z :=
  match bs with [] => t | b :: bs => end_tx (t + len (Txs b) + 1) bs end.
Fixpoint consecutive (h : Z) (bs : list BlockWrite) : Prop :=
  match bs with [] => True | b :: bs => Height b = h /\ consecutive (h + 1) bs end.

Lemma end_tx_ge t bs : t <= end_tx t bs.
Proof.
  revert t; induction bs as [|b bs IH]; intros t; simpl; [lia|]. specialize (IH (t + len (Txs b) + 1)).
  pose proof (len_nonneg (Txs b)). lia.
Qed.

Lemma add_all_ok m C h t bs :
  at_rest m C h t -> 0 <= t -> 0 <= h -> consecutive h bs -> Forall block_small bs ->
  Forall reassembles bs -> h + len bs < 2 ^ 63 -> end_tx t bs < 2 ^ 63 ->
  nextHeight (win m) = h \/ (started (win m) = false /\ nextHeight (win m) = 0) ->
  exists mk, MemRecover.add_all Keccak256 EncodeBare m bs = Ok mk /\
    at_rest mk (chain_rows t bs C) (h + len bs) (end_tx t bs) /\
    (bs <> [] -> nextHeight (win mk) = h + len bs).
Proof.
  revert m C h t. induction bs as [|b bs IH]; intros m C h t Hr Ht Hh Hc Hs Hre Hlh Hlt Hn.
  { exists m. lens. by rewrite Z.add_0_r. }
  destruct Hc as [<- Hc]. apply Forall_cons in Hs as [Hsb Hs], Hre as [Hrb Hre]. lens.
  pose proof (len_nonneg bs). pose proof (len_nonneg (Txs b)). cbn [end_tx] in Hlt.
  pose proof (end_tx_ge (t + len (Txs b) + 1) bs).
  destruct (add_ok m C t b) as (m1 & E1 & A1 & N1 & S1); try done; try lia.
  destruct (IH m1 _ (Height b + 1) (t + len (Txs b) + 1) A1) as (mk & E & A & N); try done; try lia.
  exists mk. cbn [MemRecover.add_all]. rewrite E1. cbn [rbind chain_rows end_tx].
  replace (Height b + (1 + len bs)) with (Height b + 1 + len bs) by lia. split_and!; try done.
  intros _. destruct bs; [|by apply N]. cbn [MemRecover.add_all] in E. injection E as <-. rewrite N1. lens. lia.
Qed.

Lemma chainGet_ok m C h t fam num :
  at_rest m C h t -> (fam < 6)%nat -> chainGet m fam num = (Ok (C !! (fam, num)), m).
Proof.
  intros (Hok & Hfl & Hfo & _) Hf. unfold chainGet. rewrite Hfo. cbn [negb].
  destruct (lookup_lt_is_Some_2 (ends h t) fam) as [e He]; [done|].
  destruct (chain_ok_lookup m C _ fam e Hok He) as (c & Hc & (_ & _ & _ & _ & Hl)).
  unfold chain_find. rewrite Hc. specialize (Hl num). destruct (ci_find c num) as [[off n]|]; [|by rewrite Hl].
  destruct Hl as (v & -> & Hoff & -> & Hs). pose proof (slice_Ok _ _ _ _ Hs) as (_ & Hle & _).
  pose proof (proj1 Hok) as Hp. rewrite (proj2 (Z.leb_le _ _)) by lia. rewrite orb_true_r.
  unfold readRow. destruct (Z.eqb_spec (len v) 0) as [Hz|Hz].
  - destruct v; [done|]. lensimp.
  - rewrite (proj2 (Z.ltb_ge _ _)) by lia. by rewrite Hs.
Qed.

(** A fresh window takes consecutive blocks and stands at their end. *)
Lemma fresh_add_all bt bh h bs :
  0 <= bt -> 0 <= bh -> bh = 0 \/ h = bh -> 0 <= h -> consecutive h bs ->
  Forall block_small bs -> Forall reassembles bs -> h + len bs < 2 ^ 63 -> end_tx bt bs < 2 ^ 63 ->
  exists mk, MemRecover.add_all Keccak256 EncodeBare (MemRecover.fresh bt bh) bs = Ok mk /\
    at_rest mk (chain_rows bt bs ∅) (h + len bs) (end_tx bt bs) /\
    (bs <> [] -> nextHeight (win mk) = h + len bs).
Proof.
  intros Hbt Hbh Hh Hh0 Hc Hs Hre Hlh Hlt. pose proof (end_tx_ge bt bs). pose proof (len_nonneg bs).
  assert (Hr0 : at_rest (MemRecover.fresh bt bh) ∅ h bt).
  { split_and!; try done. split; [done|]. unfold ends. simpl.
    do 6 (apply Forall2_cons; cbn [fst snd]; split; [apply fam_ok_ext with (look := fun _ => None);
      [intros; apply lookup_empty|apply fam_ok_empty; lia]|]). done. }
  apply (add_all_ok _ ∅ h bt bs Hr0 Hbt Hh0 Hc Hs Hre Hlh Hlt).
  simpl. destruct Hh as [->| ->]; auto.
Qed.

(** the window accepts and serves the chain. Blocks at consecutive heights
    whose containers reassemble are all accepted by a fresh window; each block
    takes one TxNum per transaction and one boundary slot; and [chainGet] then
    returns, for every family and number, exactly the row that was added there:
    in particular nothing at a boundary slot, and no row is displaced by a
    later block. *)
Theorem window_serves_chain bt bh h bs :
  0 <= bt -> 0 <= bh -> bh = 0 \/ h = bh -> 0 <= h -> consecutive h bs ->
  Forall block_small bs -> Forall reassembles bs -> h + len bs < 2 ^ 63 -> end_tx bt bs < 2 ^ 63 ->
  exists mk, MemRecover.add_all Keccak256 EncodeBare (MemRecover.fresh bt bh) bs = Ok mk /\
    nextTx (win mk) = end_tx bt bs /\
    (bs <> [] -> nextHeight (win mk) = h + len bs) /\
    forall fam num, (fam < 6)%nat ->
      chainGet mk fam num = (Ok (chain_rows bt bs ∅ !! (fam, num)), mk).
Proof.
  intros Hbt Hbh Hh Hh0 Hc Hs Hre Hlh Hlt.
  destruct (fresh_add_all bt bh h bs Hbt Hbh Hh Hh0 Hc Hs Hre Hlh Hlt) as (mk & E & A & N).
  exists mk. split_and!; [done|by destruct A as (_ & _ & _ & ?)|done|].
  intros fam num Hf. by eapply chainGet_ok.
Qed.

End Window.

(** ** State histories *)

Definition ascending (h : list (Z * bytes)) : Prop := StronglySorted Z.lt (map fst h).
Definition not_after (at_ : Z) (h : list (Z * bytes)) : list (Z * bytes) :=
  List.filter (fun x => x.1 <=? at_) h.

(** The reference: the last of the writes at or before [at_]. *)
Definition last_write (puts : list (Z * bytes)) (at_ : Z) : option (bytes * Z) :=
  match last (not_after at_ puts) with Some (t, v) => Some (v, t) | None => None end.

Lemma ascending_app h x : ascending (h ++ [x]) <-> ascending h /\ Forall (fun y => y.1 < x.1) h.
Proof.
  unfold ascending. rewrite map_app. induction h as [|y h IH]; simpl.
  - split; [intros _; split; constructor|intros _; repeat constructor].
  - split.
    + intros H. apply StronglySorted_inv in H as [H1 H2]. apply IH in H1 as [H1 H3].
      rewrite Forall_app in H2. destruct H2 as [H2 H4]. apply Forall_cons in H4 as [H4 _].
      split; constructor; done.
    + intros [H1 H2]. apply StronglySorted_inv in H1 as [H1 H3]. apply Forall_cons in H2 as [H2 H4].
      constructor; [by apply IH|]. apply Forall_app. split; [done|]. by constructor.
Qed.

Lemma ascending_lookup h i j x y :
  ascending h -> (i < j)%nat -> h !! i = Some x -> h !! j = Some y -> x.1 < y.1.
Proof.
  unfold ascending. revert i j. induction h as [|z h IH]; intros i j Hs Hij Hx Hy; [done|].
  cbn [map] in Hs. apply StronglySorted_inv in Hs as [Hs Hf]. destruct j as [|j]; [lia|]. destruct i as [|i].
  - injection Hx as <-. rewrite Forall_map, Forall_forall in Hf. apply Hf. by eapply list_elem_of_lookup_2.
  - by apply (IH i j Hs ltac:(lia)).
Qed.

Lemma ascending_not_after at_ h : ascending h -> ascending (not_after at_ h).
Proof.
  unfold ascending, not_after. induction h as [|x h IH]; [done|]. cbn [map List.filter]. intros H.
  apply StronglySorted_inv in H as [Hs Hf]. specialize (IH Hs). destruct (x.1 <=? at_); [|done].
  cbn [map]. constructor; [done|]. rewrite !Forall_map, !Forall_forall in *. intros y Hy. apply Hf.
  apply list_elem_of_In, filter_In in Hy as [Hy _]. by apply list_elem_of_In.
Qed.

Lemma not_after_app at_ h k : not_after at_ (h ++ k) = not_after at_ h ++ not_after at_ k.
Proof. apply List.filter_app. Qed.

(** [sort.Search] on an ascending history finds the last row not after. *)
Lemma latest_in_spec h at_ : ascending h -> latest_in h at_ = last_write h at_.
Proof.
  intros Hasc.
  pose proof (ascending_lookup h) as Hlt. 
  unfold latest_in. set (f := fun i => match h !! i with Some (t, _) => at_ <? t | None => true end).
  destruct (sort_Search_spec (length h) f) as (Hle & Hlo & Hhi).
  { intros i j [Hij Hj] Hi. unfold f in *. destruct (lookup_lt_is_Some_2 h j Hj) as [[tj vj] Ej].
    destruct (lookup_lt_is_Some_2 h i ltac:(lia)) as [[ti vi] Ei]. rewrite Ei in Hi. rewrite Ej. bool_prop.
    apply Z.ltb_lt. destruct (decide (i = j)) as [->|]; [rewrite Ei in Ej; simplify_eq; lia|].
    pose proof (Hlt i j _ _ Hasc ltac:(lia) Ei Ej). simpl in *. lia. }
  set (n := sort_Search (length h) f) in *.
  assert (Hsplit : not_after at_ h = take n h).
  { rewrite <- (take_drop n h) at 1. rewrite not_after_app.
    assert (H1 : not_after at_ (take n h) = take n h).
    { unfold not_after. apply List.forallb_filter_id, forallb_forall. intros x Hx.
      apply list_elem_of_In, list_elem_of_lookup in Hx as [i Hi]. apply lookup_take_Some in Hi as [Hi Hn].
      specialize (Hlo i Hn). unfold f in Hlo. rewrite Hi in Hlo. destruct x as [t v]. bool_prop. simpl. apply Z.leb_le. lia. }
    assert (H2 : not_after at_ (drop n h) = []).
    { assert (Hf : Forall (fun x => (x.1 <=? at_) = false) (drop n h)).
      { apply Forall_lookup. intros i x Hi. rewrite lookup_drop in Hi. specialize (Hhi (n + i)%nat).
        unfold f in Hhi. rewrite Hi in Hhi. destruct x as [t v].
        pose proof (lookup_lt_Some _ _ _ Hi). specialize (Hhi ltac:(lia)). bool_prop. simpl. apply Z.leb_gt. lia. }
      clear -Hf. induction Hf as [|x l Hx _ IH]; [done|]. simpl. by rewrite Hx. }
    rewrite H1, H2. apply app_nil_r. }
  unfold last_write. rewrite Hsplit. destruct n as [|n]; [done|].
  destruct (lookup_lt_is_Some_2 h n ltac:(lia)) as [[t v] Ev]. rewrite Ev.
  by rewrite (take_S_r h n (t, v) Ev), last_snoc.
Qed.

(** One write at or after the last: the history stays ascending and shows it. *)
Lemma put_hist_spec h t v :
  ascending h -> Forall (fun x => x.1 <= t) h ->
  ascending (put_hist h t v) /\ Forall (fun x => x.1 <= t) (put_hist h t v) /\
  forall at_, last (not_after at_ (put_hist h t v)) = last (not_after at_ (h ++ [(t, v)])).
Proof.
  intros Hasc Hle. unfold put_hist. destruct (last h) as [[t0 v0]|] eqn:El.
  - apply last_Some in El as [h' ->]. apply ascending_app in Hasc as [Ha Hlt]. simpl in Hlt.
    apply Forall_app in Hle as [Hle Hle0]. apply Forall_cons in Hle0 as [Hle0 _]. simpl in Hle0.
    destruct (Z.eqb_spec t0 t) as [->|Hne].
    + rewrite removelast_last. split_and!.
      * by apply ascending_app.
      * apply Forall_app; split; [done|]. by constructor.
      * intros at_. rewrite !not_after_app. simpl. destruct (t <=? at_); [by rewrite !last_snoc|].
        by rewrite !app_nil_r.
    + split_and!.
      * apply ascending_app. split; [by apply ascending_app|]. apply Forall_app; split.
        -- eapply Forall_impl; [exact Hlt|]. simpl. intros. lia.
        -- constructor; [simpl; lia|constructor].
      * apply Forall_app; split; [apply Forall_app; split; [done|]|]; (constructor; [simpl; lia|constructor]).
      * done.
  - apply last_None in El as ->. split_and!; [apply ascending_app; split; constructor|by repeat constructor|done].
Qed.

(** as-of reads. Whatever sequence of writes a key receives, at TxNums that
    never go back, [latestState] at any TxNum returns the value and the TxNum
    of the last write at or before it, later writes at the same TxNum having
    replaced earlier ones, and nothing when there is none. *)
Theorem state_as_of puts at_ :
  StronglySorted Z.le (map fst puts) ->
  latest_in (fold_left (fun h x => put_hist h x.1 x.2) puts []) at_ = last_write puts at_.
Proof.
  intros Hs.
  assert (H : forall l h, StronglySorted Z.le (map fst l) -> ascending h ->
    Forall (fun x => Forall (fun y => y.1 <= x.1) h) l ->
    let r := fold_left (fun h x => put_hist h x.1 x.2) l h in
    ascending r /\ last (not_after at_ r) = last (not_after at_ (h ++ l))).
  { induction l as [|[t v] l IH]; intros h Hl Ha Hf; [cbn; by rewrite app_nil_r|].
    cbn [map] in Hl. apply StronglySorted_inv in Hl as [Hl Hlt]. apply Forall_cons in Hf as [Hf Hfl]. cbn [fold_left fst snd] in *.
    destruct (put_hist_spec h t v Ha Hf) as (Ha' & Hle' & Heq).
    destruct (IH (put_hist h t v) Hl Ha') as [IH1 IH2].
    { apply Forall_forall. intros x Hx. rewrite Forall_map, Forall_forall in Hlt. specialize (Hlt x Hx). simpl in Hlt.
      eapply Forall_impl; [exact Hle'|]. simpl. intros. lia. }
    split; [done|]. cbn zeta in IH2. rewrite IH2. rewrite (cons_middle (t, v)), app_assoc, !(not_after_app at_ _ l), !last_app.
    by rewrite Heq. }
  destruct (H puts [] Hs) as [Ha Hl]; [constructor|apply Forall_true; intros; constructor|].
  cbn zeta in *. rewrite latest_in_spec by done. unfold last_write. by rewrite Hl.
Qed.

Lemma state_as_of_witness :
  latest_in (fold_left (fun h x => put_hist h x.1 x.2)
    [(3, [1]); (5, [2]); (5, [4]); (9, [])] []) 7 = Some ([4], 5).
Proof.
  refine (eq_trans (state_as_of [(3, [1]); (5, [2]); (5, [4]); (9, [])] 7 _) _); [|reflexivity].
  simpl. repeat constructor; lia.
Defined.

Lemma sample_small : Forall block_small MemRecover.sample_blocks.
Proof. unfold block_small, tx_small. apply (bool_decide_unpack _). vm_compute. exact I. Qed.

(** The sample blocks of MemRecover.v, read back. *)
Lemma window_serves_chain_witness :
  exists mk, MemRecover.add_all MemRecover.sample_keccak MemRecover.sample_bare
      (MemRecover.fresh 0 0) MemRecover.sample_blocks = Ok mk /\
    nextTx (win mk) = 4 /\ (MemRecover.sample_blocks <> [] -> nextHeight (win mk) = 3) /\
    forall fam num, (fam < 6)%nat ->
      chainGet mk fam num = (Ok (chain_rows 0 MemRecover.sample_blocks ∅ !! (fam, num)), mk).
Proof.
  apply (window_serves_chain MemRecover.sample_keccak MemRecover.sample_bare 0 0 1 MemRecover.sample_blocks); try lia.
  - vm_compute. auto.
  - exact sample_small.
  - repeat constructor; by eexists.
  - vm_compute. reflexivity.
  - vm_compute. reflexivity.
Defined.

Import MemRecover.

Lemma sample_added :
  exists mk, add_all sample_keccak sample_bare (fresh 0 0) sample_blocks = Ok mk.
Proof.
  destruct (fresh_add_all sample_keccak sample_bare 0 0 1 sample_blocks) as (mk & E & _); [lia..| | | |done|done|by exists mk].
  - vm_compute. auto.
  - exact sample_small.
  - repeat constructor; by eexists.
Qed.

Lemma sample_keccak_len b : len (sample_keccak b) = 32.
Proof. unfold sample_keccak. by rewrite len_replicate. Qed.

(** A log that lost its last five bytes. *)
Lemma recover_after_crash_witness :
  exists mk j mj, add_all sample_keccak sample_bare (fresh 0 0) sample_blocks = Ok mk /\
    whole_blocks sample_keccak sample_bare (fresh 0 0) sample_blocks
      (take (length (mlog mk) - 5) (mlog mk)) j mj /\
    recover (newMemtableAt (take (length (mlog mk) - 5) (mlog mk)) false) 0 0 = Ok mj.
Proof.
  destruct sample_added as [mk E]. exists mk.
  destruct (recover_after_crash sample_keccak sample_bare sample_keccak_len 0 0 sample_blocks mk
    (length (mlog mk) - 5)) as (j & mj & H1 & H2).
  - unfold u64_ok. lia.
  - lia.
  - exact sample_blocks_ok.
  - exact E.
  - lia.
  - exists j, mj. split; [exact E|]. split; [exact H1|exact H2].
Defined.

(** The same blocks, sealed up to height 3. *)
Lemma recover_drops_sealed_witness :
  exists mk m, recover (newMemtableAt (mlog mk) false) 4 3 = Ok m /\
    mem m = empty_rows /\ win m = MkWindow 4 4 3 3 false /\
    mlog m = mlog mk /\ pos m = len (mlog mk) /\ flushed m = pos m.
Proof.
  destruct sample_added as [mk E]. exists mk.
  apply (recover_drops_sealed sample_keccak sample_bare sample_keccak_len 0 0 sample_blocks mk 4 3).
  - unfold u64_ok. lia.
  - lia.
  - exact sample_blocks_ok.
  - exact E.
  - repeat constructor.
Defined.

End MemRead.
