(* ===== verification/Sst.v ===== *)
(** * pebble's sstable, as the store uses it

    The sorted tables inside a run are written and read by
    github.com/cockroachdb/pebble/v2, which is not part of this repository. The
    class [SSTable] names the operations store/run.go and store/postings.go
    call, [SSTLaws] what they rely on: a table built from rows in ascending key
    order opens and holds those rows, its iterator seeks and steps over them in
    order, and its bloom filter has no false negatives over
    [key[:split(key)]]. [List_sst] is a small table that keeps all of it, so the
    laws can hold. *)

From S2P Require Import Prelude Bytes Rows Format.
Import Format.

(** How many rows lie below the key: where [SeekGE] lands. *)
Definition count_lt (k : bytes) (l : list row) : nat :=
  length (List.filter (fun r => bltb r.1 k) l).

(** pebble refuses longer keys and values. *)
Definition row_small (r : row) : Prop := len r.1 < 2 ^ 32 /\ len r.2 < 2 ^ 32.

Class SSTable := {
  sst_reader : Type;
  sst_iter : Type;
  (* sstable.NewWriter(w, writerOptions(s, level)), Set for each row, Close:
     the bytes handed to w *)
  sst_build : Section -> Z -> list row -> res bytes;
  (* sstable.NewReader over a whole file *)
  sst_open : bytes -> res sst_reader;
  (* the filter block Layout names, if there is one *)
  sst_filter : sst_reader -> option bytes;
  (* filterPolicy.MayContain(sstable.TableFilter, filter, key) *)
  sst_may_contain : bytes -> bytes -> bool;
  (* NewIter with an exclusive upper bound *)
  sst_newIter : sst_reader -> option bytes -> res sst_iter;
  sst_First : sst_iter -> sst_iter;
  sst_SeekGE : sst_iter -> bytes -> sst_iter;
  sst_SeekLT : sst_iter -> bytes -> sst_iter;
  sst_Next : sst_iter -> sst_iter;
  (* the row it stands on, nil being None: its key and what Value returns *)
  sst_kv : sst_iter -> option (bytes * res bytes) }.

Class SSTLaws `{SSTable} := {
  sst_holds : sst_reader -> list row -> Prop;
  sst_over : sst_iter -> list row -> Prop;
  sst_stands : sst_iter -> list row -> nat -> Prop;
  build_opens s level l : sorted_rows l -> Forall row_small l ->
    exists b rd, sst_build s level l = Ok b /\ sst_open b = Ok rd /\ sst_holds rd l;
  filter_sound rd l f k : sst_holds rd l -> sst_filter rd = Some f -> k ∈ keys l ->
    f = [] \/ sst_may_contain f (bloom_key k) = true;
  newIter_over rd l hi : sst_holds rd l ->
    exists it, sst_newIter rd hi = Ok it /\ sst_over it (range None hi l);
  First_stands it l : sst_over it l -> sst_stands (sst_First it) l 0;
  SeekGE_stands it l k : sst_over it l -> sst_stands (sst_SeekGE it k) l (count_lt k l);
  SeekLT_kv it l k : sst_over it l ->
    sst_kv (sst_SeekLT it k) =
      match count_lt k l with
      | O => None
      | S i => (fun r => (r.1, Ok r.2)) <$> l !! i
      end;
  Next_stands it l i : sst_stands it l i -> (i < length l)%nat -> sst_stands (sst_Next it) l (S i);
  kv_stands it l i : sst_stands it l i -> sst_kv it = (fun r => (r.1, Ok r.2)) <$> l !! i }.

(** ** Loops over an iterator

    [for kv := it.SeekGE(...); kv != nil; kv = it.Next() { body }]: the body gets
    the row and says whether the loop goes on. *)
Section Loop.
Context `{SSTable} {St : Type} (body : St -> bytes -> res bytes -> res (St * bool)).

Fixpoint for_kv (fuel : nat) (it : sst_iter) (s : St) : res St :=
  match sst_kv it with
  | None => Ok s
  | Some (k, v) =>
      match fuel with
      | O => Panic
      | S fuel =>
          let* (s, more) := body s k v in
          if more then for_kv fuel (sst_Next it) s else Ok s
      end
  end.

(** The same body over a list of rows. *)
Fixpoint fold_rows (s : St) (l : list row) : res St :=
  match l with
  | [] => Ok s
  | (k, v) :: l => let* (s, more) := body s k (Ok v) in if more then fold_rows s l else Ok s
  end.

Context `{!SSTLaws}.

Lemma for_kv_spec fuel it l i s :
  sst_stands it l i -> (length l <= fuel + i)%nat -> for_kv fuel it s = fold_rows s (drop i l).
Proof.
  revert it i s. induction fuel as [|fuel IH]; intros it i s Hst Hf; simpl;
    rewrite (kv_stands _ _ _ Hst); destruct (l !! i) as [[k v]|] eqn:E.
  2, 4: rewrite (drop_ge l i) by (by apply lookup_ge_None); done.
  - apply lookup_lt_Some in E. lia.
  - rewrite (drop_S l (k, v) i E). simpl. destruct (body s k (Ok v)) as [[s' [|]]| |]; simpl; try done.
    apply IH; [|lia]. apply (Next_stands _ _ _ Hst). by eapply lookup_lt_Some.
Qed.

End Loop.

(** ** Where a seek lands *)

Lemma sorted_below k l r :
  sorted_rows (r :: l) -> bltb r.1 k = false -> Forall (fun x => bltb x.1 k = false) l.
Proof.
  intros Hs Hr. apply sorted_cons in Hs as [_ Hf]. eapply Forall_impl; [exact Hf|]. intros x Hx.
  apply bltb_false. destruct (bltb_spec r.1 k) as [|Hge]; [done|]. apply blt_ble. eapply ble_blt_trans; [|exact Hx].
  by apply ble_not_gt.
Qed.

(** The first [count_lt] rows are below the key, the others are not. *)
Lemma count_lt_split k l :
  sorted_rows l -> exists a b, l = a ++ b /\ count_lt k l = length a /\
    Forall (fun r => blt r.1 k) a /\ Forall (fun r => ble k r.1) b.
Proof.
  induction l as [|r l IH]; intros Hs; [exists [], []; by split_and!|].
  unfold count_lt in *. simpl. destruct (bltb_spec r.1 k) as [Hlt|Hge].
  - apply sorted_cons in Hs as [Hs _]. destruct (IH Hs) as (a & b & -> & Hc & Ha & Hb).
    exists (r :: a), b. simpl. rewrite Hc. split_and!; try done. by constructor.
  - exists [], (r :: l). split_and!; try done.
    + pose proof (sorted_below k l r Hs) as Hf. rewrite bltb_false in Hf by (by apply ble_not_gt).
      specialize (Hf eq_refl). clear -Hf. induction Hf as [|x l Hx _ IH]; simpl; [done|]. by rewrite Hx.
    + constructor; [by apply ble_not_gt|]. apply sorted_cons in Hs as [_ Hf].
      eapply Forall_impl; [exact Hf|]. intros x Hx. apply blt_ble. eapply ble_blt_trans; [|exact Hx].
      by apply ble_not_gt.
Qed.

Lemma drop_count_lt k l : sorted_rows l -> drop (count_lt k l) l = range (Some k) None l.
Proof.
  intros Hs. destruct (count_lt_split k l Hs) as (a & b & -> & -> & Ha & Hb).
  rewrite drop_app_length, range_app, (range_below k None a) by done. simpl.
  rewrite range_lo_none by done. by rewrite range_all.
Qed.

Lemma aget_seek k l :
  sorted_rows l ->
  aget l k = match l !! count_lt k l with
             | Some (k', v) => if beqb k' k then Some v else None
             | None => None
             end.
Proof.
  intros Hs. destruct (count_lt_split k l Hs) as (a & b & -> & -> & Ha & Hb).
  rewrite aget_app, (aget_below a) by done. rewrite lookup_app_r, Nat.sub_diag by lia.
  destruct b as [|[k' v] b]; [done|]. apply sorted_app in Hs as (_ & Hs & _).
  apply sorted_cons in Hs as [_ Hf]. simpl in *. apply Forall_cons in Hb as [Hk _]. simpl in Hk.
  destruct (beqb_spec k k') as [->|Hne]; [by rewrite beqb_refl|]. rewrite beqb_false by congruence.
  apply aget_above. eapply Forall_impl; [exact Hf|]. intros x Hx. eapply ble_blt_trans; [exact Hk|done].
Qed.

(** ** A table that keeps the laws *)

Module List_sst.

Definition enc (r : row) : bytes := bigE 4 (len r.1) ++ bigE 4 (len r.2) ++ r.1 ++ r.2.

Fixpoint dec (fuel : nat) (b : bytes) : res (list row) :=
  match fuel, b with
  | _, [] => Ok []
  | O, _ => Err "table"
  | S fuel, _ =>
      let* n := be_get 4 b in
      let* m := be_get 4 (drop 4 b) in
      let* k := slice b 8 (8 + n) in
      let* v := slice b (8 + n) (8 + n + m) in
      let* l := dec fuel (drop (Z.to_nat (8 + n + m)) b) in
      Ok ((k, v) :: l)
  end.

Record iter := MkIter { irows : list row; ipos : option nat }.

#[global] Instance list_sst : SSTable := {
  sst_reader := list row;
  sst_iter := iter;
  sst_build _ _ l := Ok (concat (map enc l));
  sst_open b := dec (length b) b;
  sst_filter _ := None;
  sst_may_contain _ _ := true;
  sst_newIter l hi := Ok (MkIter (range None hi l) None);
  sst_First it := MkIter (irows it) (Some 0%nat);
  sst_SeekGE it k := MkIter (irows it) (Some (count_lt k (irows it)));
  sst_SeekLT it k := MkIter (irows it)
    (match count_lt k (irows it) with O => None | S i => Some i end);
  sst_Next it := MkIter (irows it) (S <$> ipos it);
  sst_kv it := match ipos it with
               | None => None
               | Some i => (fun r => (r.1, Ok r.2)) <$> irows it !! i
               end }.

Lemma dec_enc l : Forall row_small l -> forall fuel, (length l <= fuel)%nat ->
  dec fuel (concat (map enc l)) = Ok l.
Proof.
  induction 1 as [|[k v] l [Hk Hv] _ IH]; intros fuel Hf; [by destruct fuel|].
  destruct fuel as [|fuel]; [simpl in Hf; lia|]. cbn [map concat]. unfold enc at 1. cbn [fst snd] in *.
  set (rest := concat (map enc l)) in *. rewrite <- !app_assoc. pose proof (len_nonneg k). pose proof (len_nonneg v).
  cbn [dec]. destruct (bigE 4 (len k) ++ _) as [|c b] eqn:E; [by apply (f_equal length) in E; simpl in E|].
  rewrite <- E. clear E c b. rewrite be_get_app by (simpl; lia). cbn [rbind].
  rewrite drop_app_length' by (by rewrite length_be). rewrite be_get_app by (simpl; lia). cbn [rbind].
  rewrite (app_assoc (bigE 4 (len k))). rewrite slice_app by (lens; lia). cbn [rbind].
  rewrite (app_assoc _ k). rewrite slice_app by (lens; lia). cbn [rbind].
  rewrite (app_assoc _ v), drop_app_length' by (rewrite !length_app, !length_be; unfold len; lia).
  rewrite IH by (simpl in Hf; lia). done.
Qed.

Lemma length_enc l : (length l <= length (concat (map enc l)))%nat.
Proof.
  induction l as [|r l IH]; [done|]. cbn [map concat]. rewrite length_app. unfold enc at 1.
  rewrite !length_app, !length_be. simpl. lia.
Qed.

#[global] Instance list_sst_laws : SSTLaws.
Proof.
  refine (Build_SSTLaws list_sst (fun rd l => rd = l) (fun it l => irows it = l)
    (fun it l i => irows it = l /\ ipos it = Some i) _ _ _ _ _ _ _ _); simpl.
  - intros s level l Hs Hl. exists (concat (map enc l)), l. split_and!; try done.
    apply dec_enc; [done|]. apply length_enc.
  - done.
  - intros rd l hi ->. eauto.
  - intros it l <-. done.
  - intros it l k <-. done.
  - intros it l k <-. by destruct (count_lt k (irows it)).
  - intros it l i [<- ->] _. done.
  - intros it l i [<- ->]. done.
Defined.

End List_sst.
