(* ===== verification/RunFile.v ===== *)
(** * store/run.go: a run's file and its readers

    A run is three sorted tables and a fixed-width footer in one file. This
    file has the footer's codec, the [RunWriter] that lays the sections out, and
    the point, as-of and range reads of an open [Run], over the [SSTable]
    interface of Sst.v. File operations succeed; the bytes a table writer emits
    are handed over when the section ends. *)

From S2P Require Import Prelude Bytes Rows Format Sst Memtable MemRead.
Import Format.

Module RunFile.

(** ** Footer *)

Definition runMagic : bytes := str "EPOCHRUN".
Definition footerSize : Z := 3 * 16 + 4 * 8 + 32 + 4 + len runMagic.
Definition TerminalLevel : Z := 1.

Record Footer := MkFooter {
  Off : list Z; Len : list Z;
  FromTx : Z; ToTx : Z; FromHeight : Z; ToHeight : Z;
  Prev : bytes; Version : Z }.

(** The offset and length of each section, in turn. *)
Fixpoint enc_sections (off n : list Z) : bytes :=
  match off, n with
  | o :: off, l :: n => bigE 8 o ++ bigE 8 l ++ enc_sections off n
  | _, _ => []
  end.

Definition encode (f : Footer) : bytes :=
  enc_sections (Off f) (Len f) ++ bigE 8 (FromTx f) ++ bigE 8 (ToTx f) ++
  bigE 8 (FromHeight f) ++ bigE 8 (ToHeight f) ++ Prev f ++ bigE 4 (Version f) ++ runMagic.

(** The closure [u]: the next eight bytes, and the rest. *)
Definition u (p : bytes) : res (Z * bytes) :=
  let* v := be_get 8 p in let* p := slice_from p 8 in Ok (v, p).

Fixpoint dec_sections (k : nat) (p : bytes) : res (list Z * list Z * bytes) :=
  match k with
  | O => Ok ([], [], p)
  | S k =>
      let* (o, p) := u p in
      let* (n, p) := u p in
      let* (os, ns, p) := dec_sections k p in
      Ok (o :: os, n :: ns, p)
  end.

Definition decodeFooterVersion (b : bytes) (version : Z) : res Footer :=
  if negb (len b =? footerSize) then Err "store: footer size" else
  let* m := slice_from b (len b - len runMagic) in
  if negb (beqb m runMagic) then Err "store: bad run magic" else
  let* (os, ns, p) := dec_sections 3 b in
  let* (ft, p) := u p in
  let* (totx, p) := u p in
  let* (fh, p) := u p in
  let* (th, p) := u p in
  let prev := take 32 p in
  let* p := slice_from p 32 in
  let* v := be_get 4 p in
  if negb (v =? version) then Err "store: run is another storage version"
  else Ok (MkFooter os ns ft totx fh th prev v).

Definition decodeFooter (b : bytes) : res Footer := decodeFooterVersion b StorageVersion.

(** ** Names *)

Fixpoint digits (fuel : nat) (n : Z) : bytes :=
  match fuel with
  | O => []
  | S fuel => if n <? 10 then [48 + n] else digits fuel (n / 10) ++ [48 + n mod 10]
  end.
(** [%d] and [%016d] of a uint64. *)
Definition fmt_d (n : Z) : bytes := digits 20 n.
Definition fmt_016d (n : Z) : bytes :=
  let d := fmt_d n in replicate (16 - length d) 48 ++ d.

Definition RunLabel (level fromTx toTx : Z) : bytes :=
  let kind := if TerminalLevel <=? level then str "t" else str "l" ++ fmt_d level in
  kind ++ str "-" ++ fmt_016d fromTx ++ str "-" ++ fmt_016d toTx.

(** ** Writing *)

Section Files.
Context `{SSTable}.

Definition sec_num (s : Section) : Z := match s with SecChain => 0 | SecState => 1 | SecLookup => 2 end.

Record RunWriter := MkRW {
  wlevel : Z;
  wout : bytes;              (* bw: the bytes of the file *)
  whash : bytes;             (* h: the bytes the hasher has been given *)
  woff : Z;
  wfooter : Footer;
  wcur : Z;
  wsst : option (list row);  (* the open table and the rows it was given *)
  wRows : list Z; wBytes : list Z }.

Definition NewRunWriter (prev : bytes) (level : Z) : RunWriter :=
  MkRW level [] [] 0 (MkFooter [0; 0; 0] [0; 0; 0] 0 0 0 0 prev StorageVersion) (-1) None
    [0; 0; 0] [0; 0; 0].

Definition set_off (f : Footer) (s o : Z) : Footer :=
  MkFooter (<[Z.to_nat s := o]> (Off f)) (Len f) (FromTx f) (ToTx f) (FromHeight f) (ToHeight f) (Prev f) (Version f).
Definition set_len (f : Footer) (s n : Z) : Footer :=
  MkFooter (Off f) (<[Z.to_nat s := n]> (Len f)) (FromTx f) (ToTx f) (FromHeight f) (ToHeight f) (Prev f) (Version f).

Definition Begin (w : RunWriter) (s : Section) : res RunWriter :=
  if negb (sec_num s =? wcur w + 1) then Err "store: section out of order" else
  Ok (MkRW (wlevel w) (wout w) (whash w) (woff w) (set_off (wfooter w) (sec_num s) (woff w))
        (sec_num s) (Some []) (wRows w) (wBytes w)).

(** [l[i] += d] on the counters. *)
Definition bump (l : list Z) (i d : Z) : list Z := alter (fun x => u64 (x + d)) (Z.to_nat i) l.

Definition Set_ (w : RunWriter) (key value : bytes) : res RunWriter :=
  if wcur w <? 0 then Panic else
  match wsst w with
  | None => Panic
  | Some rows =>
      Ok (MkRW (wlevel w) (wout w) (whash w) (woff w) (wfooter w) (wcur w) (Some (rows ++ [(key, value)]))
            (bump (wRows w) (wcur w) 1) (bump (wBytes w) (wcur w) (len key + len value)))
  end.

(** Which section the counter names. *)
Definition sec_of (c : Z) : Section := if c =? 0 then SecChain else if c =? 1 then SecState else SecLookup.

Definition End_ (w : RunWriter) : res RunWriter :=
  match wsst w with
  | None => Panic
  | Some rows =>
      let* b := sst_build (sec_of (wcur w)) (wlevel w) rows in
      Ok (MkRW (wlevel w) (wout w ++ b) (whash w ++ b) (u64 (woff w + len b))
            (set_len (wfooter w) (wcur w) (len b)) (wcur w) None (wRows w) (wBytes w))
  end.

(** [CopySection]: pieces of four megabytes. *)
Definition piece : Z := Z.shiftl 4 20.

Fixpoint copy_loop (fuel : nat) (ReadAt : Z -> Z -> res bytes) (off n done : Z) (acc : bytes) : res bytes :=
  match fuel with
  | O => Panic
  | S fuel =>
      if done <? n then
        let* b := ReadAt (u64 (off + done)) (Z.min piece (n - done)) in
        copy_loop fuel ReadAt off n (done + Z.min piece (n - done)) (acc ++ b)
      else Ok acc
  end.

Definition CopySection (w : RunWriter) (s : Section) (ReadAt : Z -> Z -> res bytes) (off n : Z) : res RunWriter :=
  if negb (sec_num s =? wcur w + 1) then Err "store: section out of order" else
  let f := set_len (set_off (wfooter w) (sec_num s) (woff w)) (sec_num s) n in
  let* b := copy_loop (S (S (Z.to_nat (n / piece)))) ReadAt off n 0 [] in
  Ok (MkRW (wlevel w) (wout w ++ b) (whash w ++ b) (u64 (woff w + n)) f (sec_num s) (wsst w) (wRows w) (wBytes w)).

(** [Finish]: the finished file, whether it goes to the upload spool, and the
    bytes its name is the hash of. *)
Record finished := MkFin { fin_file : bytes; fin_hashed : bytes; fin_upload : bool; fin_footer : Footer }.

Definition Finish (w : RunWriter) (fromTx toTx fromHeight toHeight : Z) : finished :=
  let f := wfooter w in
  let f := MkFooter (Off f) (Len f) fromTx toTx fromHeight toHeight (Prev f) (Version f) in
  MkFin (wout w ++ encode f) (whash w ++ encode f) (TerminalLevel <=? wlevel w) f.

(** ** Opening *)

Record Run := MkRun { RFooter : Footer; rd : Section -> sst_reader; filter : Section -> option bytes }.

(** The section's bytes of the artifact, as the footer places them. *)
Definition section_bytes (file : bytes) (f : Footer) (s : Section) : res bytes :=
  match Off f !! Z.to_nat (sec_num s), Len f !! Z.to_nat (sec_num s) with
  | Some o, Some n => slice file o (o + n)
  | _, _ => Panic
  end.

Definition openRunVersion (file : bytes) (version : Z) : res Run :=
  if len file <? footerSize then Err "store: run is too small for a footer" else
  let* fb := slice file (len file - footerSize) (len file) in
  let* f := decodeFooterVersion fb version in
  let* bc := section_bytes file f SecChain in
  let* c := sst_open bc in
  let* bs := section_bytes file f SecState in
  let* s := sst_open bs in
  let* bl := section_bytes file f SecLookup in
  let* l := sst_open bl in
  let r := fun x => match x with SecChain => c | SecState => s | SecLookup => l end in
  Ok (MkRun f r (fun x => sst_filter (r x))).

Definition OpenRun (file : bytes) : res Run := openRunVersion file StorageVersion.

(** ** Reading *)

Definition mayContain (filter key : bytes) : bool :=
  if len filter =? 0 then true else sst_may_contain filter (bloom_key key).

Definition MayHave (r : Run) (s : Section) (key : bytes) : bool :=
  match filter r s with None => true | Some f => mayContain f key end.

Definition newIter (r : Run) (s : Section) : res sst_iter := sst_newIter (rd r s) None.

Definition Get (r : Run) (s : Section) (key : bytes) : res (option bytes) :=
  if negb (MayHave r s key) then Ok None else
  let* it := newIter r s in
  match sst_kv (sst_SeekGE it key) with
  | None => Ok None
  | Some (k, v) => if negb (beqb k key) then Ok None else let* v := v in Ok (Some v)
  end.

Definition Latest (r : Run) (s : Section) (prefix : bytes) (at_ : Z) : res (option (bytes * Z)) :=
  if negb (MayHave r s (Suffixed prefix 0)) then Ok None else
  let* it := newIter r s in
  match sst_kv (sst_SeekLT it (Suffixed prefix (u64 (at_ + 1)))) with
  | None => Ok None
  | Some (k, v) =>
      if negb (len k =? len prefix + 8) then Ok None else
      let* p := slice k 0 (len prefix) in
      if negb (beqb p prefix) then Ok None else
      let* v := v in
      let* n := TxNumOf k in
      Ok (Some (v, n))
  end.

(** [ScanRange]: [fn] is a callback over a state of the caller's. *)
Definition ScanRange {St} (fuel : nat) (r : Run) (s : Section) (loKey : bytes) (hiKey : option bytes)
    (fn : St -> bytes -> bytes -> St * bool) (st : St) : res St :=
  let* it := sst_newIter (rd r s) hiKey in
  for_kv (fun st k v => let* v := v in Ok (fn st k v)) fuel (sst_SeekGE it loKey) st.

End Files.

(** ** The footer's round trip *)

Definition footer_ok (f : Footer) : Prop :=
  length (Off f) = 3%nat /\ length (Len f) = 3%nat /\ Forall u64_ok (Off f) /\ Forall u64_ok (Len f) /\
  u64_ok (FromTx f) /\ u64_ok (ToTx f) /\ u64_ok (FromHeight f) /\ u64_ok (ToHeight f) /\
  len (Prev f) = 32 /\ u32_ok (Version f).

Lemma u_app x p : u64_ok x -> u (bigE 8 x ++ p) = Ok (x, p).
Proof.
  intros Hx. unfold u. rewrite be_get_app by exact Hx. cbn [rbind].
  rewrite slice_tail by (by lens). done.
Qed.

Lemma dec_enc_sections off n p :
  length n = length off -> Forall u64_ok off -> Forall u64_ok n ->
  dec_sections (length off) (enc_sections off n ++ p) = Ok (off, n, p).
Proof.
  revert n. induction off as [|o off IH]; intros [|l n] Hl Ho Hn; try done.
  apply Forall_cons in Ho as [Ho Hos], Hn as [Hn Hns]. cbn [enc_sections dec_sections length].
  rewrite <- !app_assoc, u_app by done. cbn [rbind]. rewrite u_app by done. cbn [rbind].
  rewrite IH by (done || (simpl in Hl; lia)). done.
Qed.

Lemma len_enc_sections off n :
  length n = length off -> len (enc_sections off n) = 16 * len off.
Proof.
  revert n. induction off as [|o off IH]; intros [|l n] Hl; try done.
  cbn [enc_sections]. lens. rewrite IH by (simpl in Hl; lia). lia.
Qed.

Lemma len_encode f : footer_ok f -> len (encode f) = footerSize.
Proof.
  intros (Ho & Hn & _ & _ & _ & _ & _ & _ & Hp & _). unfold encode. lens.
  rewrite len_enc_sections by congruence. unfold len at 1. rewrite Ho, Hp. done.
Qed.

Lemma footer_decode_encode f v :
  footer_ok f ->
  decodeFooterVersion (encode f) v =
    if Version f =? v then Ok f else Err "store: run is another storage version".
Proof.
  intros Hf. pose proof (len_encode f Hf) as Hlen.
  destruct Hf as (Ho & Hn & Hou & Hnu & H1 & H2 & H3 & H4 & Hp & Hv).
  unfold decodeFooterVersion. rewrite Hlen, Z.eqb_refl. cbn [negb].
  assert (Hm : slice_from (encode f) (footerSize - len runMagic) = Ok runMagic).
  { unfold encode. rewrite !app_assoc. apply slice_tail. rewrite <- Hlen. unfold encode. lens. lia. }
  rewrite Hm. cbn [rbind]. rewrite beqb_refl. cbn [negb]. unfold encode.
  pose proof (dec_enc_sections (Off f) (Len f)) as Hd. rewrite Ho in Hd. rewrite Hd by done. cbn [rbind].
  rewrite u_app by done. cbn [rbind]. rewrite u_app by done. cbn [rbind].
  rewrite u_app by done. cbn [rbind]. rewrite u_app by done. cbn [rbind].
  rewrite take_app_length' by (unfold len in Hp; lia).
  rewrite slice_tail by done. cbn [rbind].
  rewrite be_get_app by exact Hv. cbn [rbind]. destruct (Version f =? v); [by destruct f|done].
Qed.

(** the footer's codec. Encoding any footer and decoding it under its own
    storage version gives back every field; decoding it under any other version
    is refused, so a run of an older format is never read as a current one; and
    the encoding has the one fixed size the opener reads off the file's end. *)
Theorem footer_roundtrip f v :
  footer_ok f ->
  len (encode f) = footerSize /\ decodeFooterVersion (encode f) (Version f) = Ok f /\
  (v <> Version f -> decodeFooterVersion (encode f) v = Err "store: run is another storage version").
Proof.
  intros Hf. rewrite !footer_decode_encode by done. rewrite Z.eqb_refl. split_and!; [by apply len_encode|done|].
  intros Hv. by rewrite (proj2 (Z.eqb_neq _ _)) by congruence.
Qed.

Lemma footer_roundtrip_witness :
  let f := MkFooter [0; 10; 30] [10; 20; 5] 0 500000 0 49999 (replicate 32 7) 4 in
  len (encode f) = footerSize /\ decodeFooterVersion (encode f) (Version f) = Ok f /\
  (3 <> Version f -> decodeFooterVersion (encode f) 3 = Err "store: run is another storage version").
Proof.
  apply (footer_roundtrip (MkFooter [0; 10; 30] [10; 20; 5] 0 500000 0 49999 (replicate 32 7) 4) 3).
  unfold footer_ok, u64_ok, u32_ok. cbn. split_and!; try done; try lia; repeat constructor; lia.
Defined.

(** ** Copying a section *)

Lemma copy_loop_ok fuel src ReadAt off n done acc :
  (forall o k, off <= o -> 0 <= k -> o + k <= len src -> ReadAt o k = slice src o (o + k)) ->
  0 <= off -> off + n <= len src -> off + n < 2 ^ 64 -> 0 <= done <= n ->
  (Z.to_nat ((n - done + (piece - 1)) / piece) < fuel)%nat -> slice src off (off + done) = Ok acc ->
  copy_loop fuel ReadAt off n done acc = slice src off (off + n).
Proof.
  intros Hread Ho Hn H64. revert done acc. induction fuel as [|fuel IH]; intros done acc Hd Hf Hacc; [lia|].
  simpl. destruct (Z.ltb_spec done n) as [Hlt|Hge]; [|by replace n with done by lia].
  assert (Hp : 0 < piece) by done. rewrite u64_small by (unfold u64_ok; lia). rewrite Hread by lia.
  set (k := Z.min piece (n - done)).
  destruct (slice_in src (off + done) (off + done + k)) as [b E]; [lia..|]. rewrite E.
  cbn [rbind]. apply IH; [lia| |].
  - assert (Hq : (n - (done + k) + (piece - 1)) / piece < (n - done + (piece - 1)) / piece).
    { apply Z.lt_le_trans with ((n - (done + k) + (piece - 1)) / piece + 1); [lia|].
      rewrite <- Z.div_add, Z.mul_1_l by lia. subst k.
      destruct (Z.le_gt_cases piece (n - done)); [rewrite Z.min_l by lia; apply Z.div_le_mono; lia|].
      rewrite Z.min_r by lia. replace (n - (done + (n - done)) + (piece - 1) + piece) with (piece - 1 + 1 * piece) by lia.
      rewrite Z.div_add, (Z.div_small (piece - 1)) by lia. apply Z.div_le_lower_bound; lia. }
    pose proof (Z.div_pos (n - (done + k) + (piece - 1)) piece ltac:(lia) Hp).
    set (q := (_ + _) / piece) in *. set (q' := (n - done + _) / piece) in *. clearbody q q'. lia.
  - by rewrite Z.add_assoc, (slice_join src off (off + done) (off + done + k) acc b).
Qed.

(** One step per piece and one to see the end. *)
Lemma copy_fuel n : 0 <= n -> (Z.to_nat ((n - 0 + (piece - 1)) / piece) < S (S (Z.to_nat (n / piece))))%nat.
Proof.
  intros Hn. rewrite Z.sub_0_r. assert (H : (n + (piece - 1)) / piece <= n / piece + 1).
  { rewrite <- Z.div_add, Z.mul_1_l by done. apply Z.div_le_mono; [done|lia]. }
  pose proof (Z.div_pos n piece Hn ltac:(done)). set (q := (_ + _) / piece) in *. set (q' := n / piece) in *.
  clearbody q q'. lia.
Qed.

(** a copied section is verbatim. Copying [n] bytes of a source that can
    serve them, in four-megabyte pieces, appends exactly the source's bytes
    [off, off+n) to the file and to the hashed bytes, records the section where
    the file stood, and moves the offset by [n]. *)
Theorem CopySection_verbatim w s src ReadAt off n :
  (forall o k, 0 <= o -> 0 <= k -> o + k <= len src -> ReadAt o k = slice src o (o + k)) ->
  sec_num s = wcur w + 1 -> 0 <= off -> 0 <= n -> off + n <= len src -> off + n < 2 ^ 64 ->
  exists b w', slice src off (off + n) = Ok b /\ CopySection w s ReadAt off n = Ok w' /\
    wout w' = wout w ++ b /\ whash w' = whash w ++ b /\ woff w' = u64 (woff w + n) /\
    wfooter w' = set_len (set_off (wfooter w) (sec_num s) (woff w)) (sec_num s) n /\ wcur w' = sec_num s.
Proof.
  intros Hread Hc Ho Hn Hle H64. unfold CopySection. rewrite Hc, Z.eqb_refl. cbn [negb].
  rewrite (copy_loop_ok _ src); try done; try lia.
  2: { intros o k Hok. apply Hread. lia. }
  2: by apply copy_fuel.
  2: { rewrite Z.add_0_r. apply slice_empty. lia. }
  destruct (slice_in src off (off + n)) as [b E]; [lia..|]. rewrite E.
  cbn [rbind]. eexists b, _. by split_and!.
Qed.

Lemma CopySection_verbatim_witness :
  let src := map Z.of_nat (seq 0 20) in
  exists b w', slice src 3 (3 + 9) = Ok b /\
    CopySection (NewRunWriter (replicate 32 0) 1) SecChain (fun o k => slice src o (o + k)) 3 9 = Ok w' /\
    wout w' = b /\ whash w' = b /\ woff w' = 9 /\
    wfooter w' = set_len (set_off (wfooter (NewRunWriter (replicate 32 0) 1)) 0 0) 0 9 /\ wcur w' = 0.
Proof.
  apply (CopySection_verbatim (NewRunWriter (replicate 32 0) 1) SecChain (map Z.of_nat (seq 0 20)));
    try done; try lia.
Defined.

(** ** What an open run holds *)

Section Holds.
Context `{SSTLaws}.

(** The three tables hold these rows, in order, behind their own filters. *)
Definition run_holds (r : Run) (R : Section -> list row) : Prop :=
  forall s, sst_holds (rd r s) (R s) /\ sorted_rows (R s) /\ filter r s = sst_filter (rd r s).

(** The bloom gate never turns away a stored key. *)
Lemma MayHave_stored r R s k k' :
  run_holds r R -> k' ∈ keys (R s) -> bloom_key k = bloom_key k' -> MayHave r s k = true.
Proof.
  intros Hr Hk Hb. destruct (Hr s) as (Hh & _ & Hf). unfold MayHave, mayContain. rewrite Hf.
  destruct (sst_filter (rd r s)) as [f|] eqn:Ef; [|done].
  destruct (filter_sound _ _ _ _ Hh Ef Hk) as [->|Hm]; [done|]. rewrite Hb, Hm. by destruct (len f =? 0).
Qed.

Lemma newIter_ok r R s : run_holds r R -> exists it, newIter r s = Ok it /\ sst_over it (R s).
Proof.
  intros Hr. destruct (Hr s) as (Hh & _). destruct (newIter_over _ _ None Hh) as (it & E & Ho).
  exists it. by rewrite range_all in Ho.
Qed.

Lemma run_Get_ok r R s k : run_holds r R -> Get r s k = Ok (aget (R s) k).
Proof.
  intros Hr. unfold Get. destruct (MayHave r s k) eqn:Em; cbn [negb].
  - destruct (newIter_ok r R s Hr) as (it & -> & Ho). cbn [rbind]. destruct (Hr s) as (_ & Hs & _).
    rewrite (kv_stands _ _ _ (SeekGE_stands _ _ k Ho)), (aget_seek k (R s) Hs).
    destruct (R s !! count_lt k (R s)) as [[k' v]|]; simpl; [|done]. by destruct (beqb k' k).
  - destruct (aget (R s) k) as [v|] eqn:Ea; [|done]. apply aget_elem in Ea.
    rewrite (MayHave_stored r R s k k) in Em; try done. by apply (list_elem_of_fmap_2 fst (R s) (k, v)).
Qed.

Lemma ScanRange_ok {St} fuel r R s lo hi (fn : St -> bytes -> bytes -> St * bool) st :
  run_holds r R -> (length (R s) <= fuel)%nat ->
  ScanRange fuel r s lo hi fn st =
    fold_rows (fun st k v => let* v := v in Ok (fn st k v)) st (range (Some lo) hi (R s)).
Proof.
  intros Hr Hf. destruct (Hr s) as (Hh & Hs & _). unfold ScanRange.
  destruct (newIter_over _ _ hi Hh) as (it & -> & Ho). cbn [rbind].
  rewrite (for_kv_spec _ fuel _ _ _ st (SeekGE_stands _ _ lo Ho)).
  2: { pose proof (List.filter_length_le (fun r => in_range None hi r.1) (R s)). unfold range. lia. }
  rewrite drop_count_lt by (by apply sorted_filter). by rewrite range_range.
Qed.

(** Where [SeekLT] lands: the greatest row below the key. *)
Lemma SeekLT_last it l k :
  sorted_rows l -> sst_over it l ->
  exists a b, l = a ++ b /\ Forall (fun x => blt x.1 k) a /\ Forall (fun x => ble k x.1) b /\
    sst_kv (sst_SeekLT it k) = (fun x => (x.1, Ok x.2)) <$> last a.
Proof.
  intros Hs Ho. rewrite (SeekLT_kv _ _ _ Ho). destruct (count_lt_split k l Hs) as (a & b & -> & -> & Ha & Hb).
  exists a, b. split_and!; try done. destruct a as [|x a _] using rev_ind; [done|].
  rewrite length_app, Nat.add_1_r, last_snoc, <- app_assoc. cbn [app]. by rewrite list_lookup_middle.
Qed.

(** The rows of one key's history in the state section. *)
Definition history_of (p : bytes) (h : list (Z * bytes)) (l : list row) : Prop :=
  MemRead.ascending h /\ Forall (fun x => u64_ok x.1) h /\
  forall t v, u64_ok t -> (t, v) ∈ h <-> (Suffixed p t, v) ∈ l.

(** Every key of the section is one the store writes. *)
Definition stored_rows (l : list row) : Prop := forall k v, (k, v) ∈ l -> exists q, stored_key k q.

Lemma ascending_last h x : MemRead.ascending h -> last h = Some x -> Forall (fun y => y.1 <= x.1) h.
Proof.
  intros Ha [h' ->]%last_Some. apply MemRead.ascending_app in Ha as [_ Hf]. apply Forall_app. split.
  - eapply Forall_impl; [exact Hf|]. simpl. lia.
  - constructor; [lia|constructor].
Qed.

Lemma not_after_In at_ h x : x ∈ MemRead.not_after at_ h <-> x ∈ h /\ x.1 <= at_.
Proof. unfold MemRead.not_after. rewrite !list_elem_of_In, filter_In, Z.leb_le. done. Qed.

(** A row of the section between the prefix and the bound is one of the history. *)
Lemma history_row p h l k v n s :
  history_of p h l -> stored_rows l -> state_prefix p -> (k, v) ∈ l ->
  ble p k -> ble k (p ++ s) -> u64_ok n -> blt k (Suffixed p n) ->
  exists t, k = Suffixed p t /\ u64_ok t /\ t < n /\ (t, v) ∈ h.
Proof.
  intros (_ & _ & Hin) Hst Hp Hk Hlo Hhi Hn Hlt. destruct (Hst _ _ Hk) as [q Hq].
  destruct (history_range p k q s Hp Hq Hlo Hhi) as [t ->]. exists (u64 t).
  rewrite <- Suffixed_u64 in Hlt, Hk |- *. split_and!; [by rewrite !Suffixed_u64|apply u64_range| |].
  - unfold blt in Hlt. rewrite bcmp_Suffixed in Hlt by (done || apply u64_range). by apply Z.compare_lt_iff.
  - apply Hin; [apply u64_range|]. done.
Qed.

(** The row below the bound that the check on the key accepts, when the history
    has a row not after [at_], and when it has none. *)
Lemma latest_below p h l a b at_ :
  history_of p h l -> stored_rows l -> state_prefix p -> sorted_rows l -> 0 <= at_ -> u64_ok (at_ + 1) ->
  l = a ++ b -> Forall (fun x => blt x.1 (Suffixed p (at_ + 1))) a ->
  Forall (fun x => ble (Suffixed p (at_ + 1)) x.1) b ->
  match last (MemRead.not_after at_ h) with
  | Some (t, v) => u64_ok t /\ last a = Some (Suffixed p t, v)
  | None => forall k v, last a = Some (k, v) -> has_prefix k p = false \/ len k <> len p + 8
  end.
Proof.
  intros Hh Hst Hp Hs Hat Hn Hl Ha Hb. pose proof Hh as (Hasc & Hu & Hin).
  assert (Hsa : sorted_rows a) by (rewrite Hl in Hs; by apply sorted_app in Hs as (? & _)).
  assert (Hrow : forall k v, (k, v) ∈ a -> ble p k -> exists t, k = Suffixed p t /\ u64_ok t /\ t <= at_ /\ (t, v) ∈ h).
  { intros k v Hk Hpk. assert (Hlt := Ha). rewrite Forall_forall in Hlt. specialize (Hlt _ Hk). simpl in Hlt.
    destruct (history_row p h l k v (at_ + 1) (bigE 8 (at_ + 1)) Hh Hst Hp) as (t & ? & ? & ? & ?);
      try done; [rewrite Hl; set_solver|by apply blt_ble|]. exists t. split_and!; try done. lia. }
  destruct (last (MemRead.not_after at_ h)) as [[t v]|] eqn:El.
  - assert (Ht : (t, v) ∈ h /\ t <= at_).
    { apply last_Some in El as [h' E]. apply (not_after_In at_ h (t, v)). rewrite E. set_solver. }
    destruct Ht as [Ht Hle]. rewrite Forall_forall in Hu. pose proof (Hu _ Ht) as Hut. simpl in Hut. split; [done|].
    assert (Hta : (Suffixed p t, v) ∈ a).
    { apply Hin in Ht; [|done]. rewrite Hl in Ht. apply elem_of_app in Ht as [|Ht]; [done|].
      rewrite Forall_forall in Hb. specialize (Hb _ Ht). simpl in Hb. unfold ble in Hb.
      rewrite bcmp_Suffixed in Hb by done. by rewrite (proj2 (Z.compare_gt_iff _ _)) in Hb by lia. }
    destruct (last a) as [[k w]|] eqn:Ela; [|apply last_None in Ela; subst a; set_solver].
    pose proof (sorted_last _ _ Hsa Ela) as Hmax. rewrite Forall_forall in Hmax. specialize (Hmax _ Hta). simpl in Hmax.
    assert (Hka : (k, w) ∈ a) by (apply last_Some in Ela as [? ->]; set_solver).
    destruct (Hrow k w Hka) as (t' & -> & Hu' & Hle' & Ht').
    { eapply ble_trans; [|exact Hmax]. apply ble_prefix. }
    assert (t' = t); [|subst t'; by rewrite (sorted_unique a _ _ _ Hsa Hka Hta)].
    pose proof (ascending_last _ _ (MemRead.ascending_not_after at_ h Hasc) El) as Hm. rewrite Forall_forall in Hm.
    specialize (Hm (t', w) (proj2 (not_after_In at_ h (t', w)) (conj Ht' Hle'))). simpl in Hm.
    unfold ble in Hmax. rewrite bcmp_Suffixed in Hmax by done.
    destruct (Z.compare_spec t t'); [done|lia|done].
  - intros k v Ela. destruct (has_prefix k p) eqn:Ep; [|by left]. right. intros _.
    apply has_prefix_spec in Ep as [s ->]. assert (Hka : (p ++ s, v) ∈ a) by (apply last_Some in Ela as [? ->]; set_solver).
    destruct (Hrow _ _ Hka) as (t & _ & _ & Hle & Ht); [apply ble_prefix|].
    apply last_None in El. pose proof (proj2 (not_after_In at_ h (t, v)) (conj Ht Hle)) as Hc. rewrite El in Hc. set_solver.
Qed.

Lemma Latest_ok r R p h at_ :
  run_holds r R -> history_of p h (R SecState) -> stored_rows (R SecState) -> state_prefix p ->
  0 <= at_ -> u64_ok (at_ + 1) -> Latest r SecState p at_ = Ok (Memtable.latest_in h at_).
Proof.
  intros Hr Hh Hst Hp Hat Hn. pose proof Hh as (Hasc & Hu & Hin).
  rewrite MemRead.latest_in_spec by done. unfold MemRead.last_write, Latest.
  destruct (MayHave r SecState (Suffixed p 0)) eqn:Em; cbn [negb].
  - destruct (newIter_ok r R SecState Hr) as (it & -> & Ho). cbn [rbind]. destruct (Hr SecState) as (_ & Hs & _).
    rewrite (u64_small (at_ + 1)) by done.
    destruct (SeekLT_last it _ (Suffixed p (at_ + 1)) Hs Ho) as (a & b & Hl & Ha & Hb & ->).
    pose proof (latest_below p h _ a b at_ Hh Hst Hp Hs Hat Hn Hl Ha Hb) as HL.
    destruct (last (MemRead.not_after at_ h)) as [[t v]|].
    + destruct HL as [Ht ->]. cbn [fmap option_fmap option_map fst snd]. lens. rewrite Z.eqb_refl. cbn [negb].
      assert (Hsl : slice (Suffixed p t) 0 (len p) = Ok p) by (apply (slice_app [] p (bigE 8 t)); done).
      rewrite Hsl. cbn [rbind].
      rewrite beqb_refl. cbn [negb rbind]. by rewrite TxNumOf_Suffixed.
    + destruct (last a) as [[k v]|]; [|done]. cbn [fmap option_fmap option_map fst snd].
      destruct (HL k v eq_refl) as [Hf|Hf]; destruct (Z.eqb_spec (len k) (len p + 8)) as [Hk|Hk]; cbn [negb]; try done.
      assert (Hsl : slice k 0 (len p) = Ok (take (length p) k)).
      { unfold slice. pose proof (len_nonneg p). ztests. by rewrite drop_0, Z.sub_0_r, len_to_nat. }
      rewrite Hsl. cbn [rbind]. destruct (beqb_spec (take (length p) k) p) as [E|]; [|done].
      rewrite <- (take_drop (length p) k), E, has_prefix_app in Hf. done.
  - destruct (last (MemRead.not_after at_ h)) as [[t v]|] eqn:El; [|done]. exfalso.
    assert (Ht : (t, v) ∈ h).
    { apply last_Some in El as [h' E]. apply (not_after_In at_ h (t, v)). rewrite E. set_solver. }
    rewrite Forall_forall in Hu. pose proof (Hu _ Ht) as Hut. apply (Hin _ _ Hut) in Ht.
    rewrite (MayHave_stored r R SecState _ (Suffixed p t)) in Em; try done.
    + by apply (list_elem_of_fmap_2 fst _ (Suffixed p t, v)).
    + assert (Hb : forall n, bloom_key (Suffixed p n) = p) by (intros n; destruct Hp; apply bloom_key_stored; by constructor).
      by rewrite !Hb.
Qed.

(** ** Writing a run and opening it *)

Fixpoint set_all (w : RunWriter) (l : list row) : res RunWriter :=
  match l with [] => Ok w | (k, v) :: l => let* w := Set_ w k v in set_all w l end.

Definition write_section (w : RunWriter) (s : Section) (l : list row) : res RunWriter :=
  let* w := Begin w s in let* w := set_all w l in End_ w.

(** The order of calls every writer of a run makes. *)
Definition write_run (prev : bytes) (level : Z) (R : Section -> list row) : res RunWriter :=
  let* w := write_section (NewRunWriter prev level) SecChain (R SecChain) in
  let* w := write_section w SecState (R SecState) in
  write_section w SecLookup (R SecLookup).

Lemma set_all_ok l : forall w rows0, wsst w = Some rows0 -> 0 <= wcur w ->
  exists a b, set_all w l = Ok (MkRW (wlevel w) (wout w) (whash w) (woff w) (wfooter w) (wcur w)
    (Some (rows0 ++ l)) a b).
Proof.
  induction l as [|[k v] l IH]; intros w rows0 Hw Hc; simpl.
  { rewrite app_nil_r, <- Hw. destruct w; simpl. eauto. }
  unfold Set_. rewrite Hw, (proj2 (Z.ltb_ge _ _)) by lia. cbn [rbind].
  destruct (IH (MkRW (wlevel w) (wout w) (whash w) (woff w) (wfooter w) (wcur w) (Some (rows0 ++ [(k, v)]))
    (bump (wRows w) (wcur w) 1) (bump (wBytes w) (wcur w) (len k + len v))) (rows0 ++ [(k, v)]) eq_refl Hc)
    as (a & b & E).
  exists a, b. rewrite E. simpl. by rewrite <- app_assoc.
Qed.

Lemma write_section_ok w s l bs :
  sec_num s = wcur w + 1 -> sst_build s (wlevel w) l = Ok bs ->
  exists a b, write_section w s l =
    Ok (MkRW (wlevel w) (wout w ++ bs) (whash w ++ bs) (u64 (woff w + len bs))
      (set_len (set_off (wfooter w) (sec_num s) (woff w)) (sec_num s) (len bs)) (sec_num s) None a b).
Proof.
  intros Hc Hb. unfold write_section, Begin. rewrite Hc, Z.eqb_refl. cbn [negb rbind]. rewrite <- Hc.
  destruct (set_all_ok l (MkRW (wlevel w) (wout w) (whash w) (woff w) (set_off (wfooter w) (sec_num s) (woff w))
    (sec_num s) (Some []) (wRows w) (wBytes w)) [] eq_refl) as (a & b & E); [destruct s; simpl; lia|].
  rewrite E. cbn [rbind app]. unfold End_. cbn [wsst wcur wlevel wout whash woff wfooter].
  replace (sec_of (sec_num s)) with s by (by destruct s). rewrite Hb. cbn [rbind]. eauto.
Qed.

(** The writer's state after the three sections. *)
Lemma write_run_ok prev level R bc bs bl :
  sst_build SecChain level (R SecChain) = Ok bc -> sst_build SecState level (R SecState) = Ok bs ->
  sst_build SecLookup level (R SecLookup) = Ok bl -> len (bc ++ bs ++ bl) < 2 ^ 64 ->
  exists a b, write_run prev level R =
    Ok (MkRW level (bc ++ bs ++ bl) (bc ++ bs ++ bl) (len (bc ++ bs ++ bl))
      (MkFooter [0; len bc; len bc + len bs] [len bc; len bs; len bl] 0 0 0 0 prev StorageVersion) 2 None a b).
Proof.
  intros Hc Hs Hl Hn. lens. pose proof (len_nonneg bc). pose proof (len_nonneg bs). pose proof (len_nonneg bl).
  unfold write_run.
  destruct (write_section_ok (NewRunWriter prev level) SecChain _ bc eq_refl Hc) as (a1 & b1 & ->). cbn [rbind].
  match goal with |- context [write_section ?w SecState _] =>
    destruct (write_section_ok w SecState (R SecState) bs eq_refl Hs) as (a2 & b2 & ->) end. cbn [rbind].
  match goal with |- context [write_section ?w SecLookup _] =>
    destruct (write_section_ok w SecLookup (R SecLookup) bl eq_refl Hl) as (a3 & b3 & ->) end.
  exists a3, b3. cbn [NewRunWriter wlevel wout whash woff wfooter wcur app sec_num].
  rewrite !(u64_small (0 + _)) by (unfold u64_ok; lia). rewrite !Z.add_0_l.
  rewrite (u64_small (len bc + len bs)) by (unfold u64_ok; lia).
  rewrite (u64_small (len bc + len bs + len bl)) by (unfold u64_ok; lia).
  cbn. rewrite <- !app_assoc. by rewrite Z.add_assoc.
Qed.

Lemma open_finished prev level R bc bs bl c s l w a b ft t fh th :
  sst_open bc = Ok c -> sst_open bs = Ok s -> sst_open bl = Ok l ->
  len (bc ++ bs ++ bl) < 2 ^ 64 -> len prev = 32 -> u64_ok ft -> u64_ok t -> u64_ok fh -> u64_ok th ->
  w = MkRW level (bc ++ bs ++ bl) (bc ++ bs ++ bl) (len (bc ++ bs ++ bl))
      (MkFooter [0; len bc; len bc + len bs] [len bc; len bs; len bl] 0 0 0 0 prev StorageVersion) 2 None a b ->
  sst_holds c (R SecChain) -> sst_holds s (R SecState) -> sst_holds l (R SecLookup) ->
  (forall x, sorted_rows (R x)) ->
  let fin := Finish w ft t fh th in
  exists r, OpenRun (fin_file fin) = Ok r /\ RFooter r = fin_footer fin /\ run_holds r R.
Proof.
  intros Hc Hs Hl Hn Hp H1 H2 H3 H4 -> Kc Ks Kl Hsort. lens.
  pose proof (len_nonneg bc). pose proof (len_nonneg bs). pose proof (len_nonneg bl).
  unfold Finish, OpenRun, openRunVersion. cbn [fin_file fin_footer wout wfooter Off Len Prev Version].
  set (f := MkFooter _ _ ft t fh th prev StorageVersion).
  assert (Hf : footer_ok f).
  { unfold footer_ok, u64_ok, u32_ok in *. cbn. split_and!; try done; try lia; repeat constructor; lia. }
  pose proof (len_encode f Hf) as Hlen. lens. rewrite Hlen, (proj2 (Z.ltb_ge _ _)) by lia.
  assert (Hsl : slice ((bc ++ bs ++ bl) ++ encode f) (len bc + (len bs + len bl) + footerSize - footerSize)
    (len bc + (len bs + len bl) + footerSize) = Ok (encode f)).
  { rewrite <- (app_nil_r (encode f)) at 1. apply slice_app; lens; lia. }
  rewrite Hsl. cbn [rbind]. rewrite footer_decode_encode by done. cbn [f Version]. rewrite Z.eqb_refl. cbn [rbind].
  unfold section_bytes.
  change (Z.to_nat (sec_num SecChain)) with 0%nat. change (Z.to_nat (sec_num SecState)) with 1%nat.
  change (Z.to_nat (sec_num SecLookup)) with 2%nat. cbn -[footerSize encode slice app Z.add].
  rewrite <- !app_assoc.
  rewrite (slice_app [] bc _ 0 (0 + len bc) eq_refl eq_refl : slice (bc ++ _) _ _ = _). cbn [rbind]. rewrite Hc. cbn [rbind].
  rewrite (slice_app bc bs) by (lens; lia). cbn [rbind]. rewrite Hs. cbn [rbind].
  rewrite (app_assoc bc bs), (slice_app (bc ++ bs) bl) by (lens; lia). cbn [rbind]. rewrite Hl. cbn [rbind].
  eexists. split_and!; [done|done|]. intros []; by split_and!.
Qed.

(** The built sections together are shorter than 2^64 bytes. *)
Definition fits (level : Z) (R : Section -> list row) : Prop :=
  forall bc bs bl, sst_build SecChain level (R SecChain) = Ok bc -> sst_build SecState level (R SecState) = Ok bs ->
    sst_build SecLookup level (R SecLookup) = Ok bl -> len (bc ++ bs ++ bl) < 2 ^ 64.

Definition rows_ok (R : Section -> list row) : Prop := forall s, sorted_rows (R s) /\ Forall row_small (R s).

Lemma write_open prev level R ft t fh th :
  rows_ok R -> fits level R -> len prev = 32 -> u64_ok ft -> u64_ok t -> u64_ok fh -> u64_ok th ->
  exists w r, write_run prev level R = Ok w /\ wout w = whash w /\ wlevel w = level /\ Prev (wfooter w) = prev /\
    OpenRun (fin_file (Finish w ft t fh th)) = Ok r /\ RFooter r = fin_footer (Finish w ft t fh th) /\
    run_holds r R.
Proof.
  intros HR Hfit Hp H1 H2 H3 H4.
  destruct (HR SecChain) as [Sc Mc], (HR SecState) as [Ss Ms], (HR SecLookup) as [Sl Ml].
  destruct (build_opens SecChain level _ Sc Mc) as (bc & c & Bc & Oc & Kc).
  destruct (build_opens SecState level _ Ss Ms) as (bs & s & Bs & Os & Ks).
  destruct (build_opens SecLookup level _ Sl Ml) as (bl & l & Bl & Ol & Kl).
  pose proof (Hfit _ _ _ Bc Bs Bl) as Hn.
  destruct (write_run_ok prev level R bc bs bl Bc Bs Bl Hn) as (a & b & E).
  destruct (open_finished prev level R bc bs bl c s l _ a b ft t fh th Oc Os Ol Hn Hp H1 H2 H3 H4 eq_refl Kc Ks Kl)
    as (r & Er & Ef & Hr); [by intros []|].
  eexists _, r. split_and!; try done.
Qed.

(** C36: a run's file holds what was written into it. Writing ascending rows into
    the three sections in order succeeds; the bytes hashed into the run's name
    are exactly the bytes of its file, footer included; only a terminal run goes
    to the upload spool; the finished file opens again with the footer it was
    finished with, linked to the run before it; and on the opened run a point
    read of any key of any section answers exactly the row written under it,
    and a range scan visits exactly the rows of its range, in order. *)
Theorem run_roundtrip prev level R ft t fh th :
  rows_ok R -> fits level R -> len prev = 32 -> u64_ok ft -> u64_ok t -> u64_ok fh -> u64_ok th ->
  exists w r, write_run prev level R = Ok w /\
    let fin := Finish w ft t fh th in
    fin_hashed fin = fin_file fin /\ fin_upload fin = (1 <=? level) /\
    OpenRun (fin_file fin) = Ok r /\ RFooter r = fin_footer fin /\
    Prev (RFooter r) = prev /\ FromTx (RFooter r) = ft /\ ToTx (RFooter r) = t /\
    (forall s k, Get r s k = Ok (aget (R s) k)) /\
    (forall s lo hi fuel, (length (R s) <= fuel)%nat ->
      ScanRange fuel r s lo hi (fun acc k v => (acc ++ [(k, v)], true)) [] = Ok (range (Some lo) hi (R s))).
Proof.
  intros HR Hfit Hp H1 H2 H3 H4.
  destruct (write_open prev level R ft t fh th) as (w & r & E & Ho & Hl & Hpr & Er & Ef & Hr); try done.
  exists w, r. cbn zeta. unfold Finish in *. cbn [fin_file fin_hashed fin_upload fin_footer] in *.
  rewrite Ef, Ho, Hl. split_and!; try done.
  - by rewrite <- Ho.
  - intros s k. by apply run_Get_ok.
  - intros s lo hi fuel Hf. rewrite (ScanRange_ok fuel r R) by done.
    enough (G : forall l acc, fold_rows (fun st k v => let* v := v in Ok (st ++ [(k, v)], true)) acc l = Ok (acc ++ l))
      by apply (G _ []).
    induction l as [|[k v] l IH]; intros acc; simpl; [by rewrite app_nil_r|]. by rewrite IH, <- app_assoc.
Qed.

(** the state descent step on a run. In a run that holds the store's own
    keys, [Latest] under a state prefix at a TxNum returns the value and the
    TxNum of the last row of that history at or before it, exactly as the
    memtable's search over the same history does, and nothing when there is
    none: the bloom gate never hides a history, and the seek never answers
    with a row of another account, slot or family. *)
Theorem run_as_of r R p h at_ :
  run_holds r R -> history_of p h (R SecState) -> stored_rows (R SecState) -> state_prefix p ->
  0 <= at_ -> u64_ok (at_ + 1) ->
  Latest r SecState p at_ = Ok (MemRead.last_write h at_).
Proof.
  intros Hr Hh Hst Hp Hat Hn. rewrite (Latest_ok r R p h at_) by done.
  by rewrite MemRead.latest_in_spec by apply Hh.
Qed.

End Holds.

(** ** A run of a few rows *)

Definition sample_acct : bytes := AccountPrefix (replicate 20 7).
Definition sample_R (s : Section) : list row :=
  match s with
  | SecChain => [(BlkKey 1, [1; 2]); (BlkKey 2, [3]); (HdrKey 1, [9])]
  | SecState => [(CodeKey (replicate 32 5), [96; 0]); (Suffixed sample_acct 3, [1]); (Suffixed sample_acct 5, [2]);
                 (Suffixed (AccountPrefix (replicate 20 8)) 4, [7])]
  | SecLookup => [(TxHashKey (replicate 32 1), bigE 8 3)]
  end.

Lemma sample_run_rows_ok : rows_ok sample_R.
Proof.
  intros s. split.
  - unfold sorted_rows, blt. destruct s; simpl; repeat constructor.
  - destruct s; repeat constructor.
Qed.

Lemma sample_fits : fits 0 sample_R.
Proof.
  intros bc bs bl Hc Hs Hl. cbn [sst_build List_sst.list_sst] in Hc, Hs, Hl.
  injection Hc as <-. injection Hs as <-. injection Hl as <-. vm_compute. reflexivity.
Qed.

Lemma run_roundtrip_witness :
  exists w r, write_run (replicate 32 9) 0 sample_R = Ok w /\
    let fin := Finish w 3 9 1 2 in
    fin_hashed fin = fin_file fin /\ fin_upload fin = false /\
    OpenRun (fin_file fin) = Ok r /\ RFooter r = fin_footer fin /\
    Prev (RFooter r) = replicate 32 9 /\ FromTx (RFooter r) = 3 /\ ToTx (RFooter r) = 9 /\
    (forall s k, Get r s k = Ok (aget (sample_R s) k)) /\
    (forall s lo hi fuel, (length (sample_R s) <= fuel)%nat ->
      ScanRange fuel r s lo hi (fun acc k v => (acc ++ [(k, v)], true)) [] = Ok (range (Some lo) hi (sample_R s))).
Proof.
  apply (run_roundtrip (replicate 32 9) 0 sample_R 3 9 1 2); try (unfold u64_ok; lia).
  - apply sample_run_rows_ok.
  - apply sample_fits.
  - reflexivity.
Defined.

Lemma sample_history : history_of sample_acct [(3, [1]); (5, [2])] (sample_R SecState).
Proof.
  split_and!; [unfold MemRead.ascending; simpl; repeat constructor; lia|repeat constructor; unfold u64_ok; simpl; lia|].
  intros t v Ht. rewrite !elem_of_cons, elem_of_nil. split.
  - intros [[= -> ->]|[[= -> ->]|[]]]; cbn [sample_R]; set_solver.
  - cbn [sample_R]. rewrite !elem_of_cons, elem_of_nil.
    intros [E|[E|[E|[E|[]]]]]; apply pair_equal_spec in E as [E ->].
    + by apply (f_equal (take 1)) in E.
    + apply Suffixed_inj in E as [_ ->]; [by left|done|unfold u64_ok; lia].
    + apply Suffixed_inj in E as [_ ->]; [by right; left|done|unfold u64_ok; lia].
    + by apply (f_equal (take 7)) in E.
Qed.

Lemma sample_stored : stored_rows (sample_R SecState).
Proof.
  intros k v. cbn [sample_R]. rewrite !elem_of_cons, elem_of_nil.
  intros [[= -> ->]|[[= -> ->]|[[= -> ->]|[[= -> ->]|[]]]]]; eexists.
  - apply (SkHash PrefixCode); [set_solver|reflexivity].
  - by apply SkAccount.
  - by apply SkAccount.
  - by apply SkAccount.
Qed.

Definition sample_run : Run := MkRun (MkFooter [] [] 3 9 1 2 [] 4) sample_R (fun _ => None).

Lemma run_as_of_witness :
  Latest sample_run SecState sample_acct 4 = Ok (Some ([1], 3)).
Proof.
  refine (run_as_of sample_run sample_R sample_acct [(3, [1]); (5, [2])] 4 _ sample_history sample_stored _ _ _);
    try (unfold u64_ok; lia).
  - intros s. split_and!; [reflexivity|apply sample_run_rows_ok|reflexivity].
  - by apply SpAccount.
Defined.

End RunFile.
