(* ===== verification/Resident.v ===== *)
(** * The resident overlay of a run's section (store/run.go, store/resident.go)

    pebble reads a section through [sectionReadable], which serves the index and
    filter blocks it pinned at open from memory and everything else from the
    artifact. The artifact's [Read] is the parameter [blob_Read]; the length of
    pebble's block trailer and casfs's chunk size are the parameters
    [blockTrailer] and [maxResideGap]. The mapping behind a sidecar is the bytes
    of its file; its reference count is not modelled. *)

From S2P Require Import Prelude Bytes Rows Format RunFile.
Import Format.

Module Resident.

Record residentRange := MkRange { roff : Z; rdata : bytes }.
Record Handle := MkHandle { Offset : Z; Length : Z }.
Record blockRange := MkBR { boff : Z; bn : Z }.

Record sectionReadable := MkSec {
  soff : Z; sn : Z;
  sres : list residentRange;
  resident : Z;
  stail : option residentRange }.

(** ** Lookup and insertion *)

(** [sort.Search(len(s.res), func(i) { s.res[i].off >= off })] *)
Definition search_off (l : list residentRange) (off : Z) : nat :=
  sort_Search (length l) (fun i => match l !! i with Some r => off <=? roff r | None => true end).

Definition residentData (s : sectionReadable) (off : Z) : option bytes :=
  match sres s !! search_off (sres s) off with
  | Some r => if roff r =? off then Some (rdata r) else None
  | None => None
  end.

Definition isResident (s : sectionReadable) (off : Z) : bool :=
  match residentData s off with Some _ => true | None => false end.

Definition insert_range (s : sectionReadable) (off : Z) (data : bytes) : sectionReadable :=
  let i := search_off (sres s) off in
  let present := match sres s !! i with Some r => roff r =? off | None => false end in
  if present then s
  else MkSec (soff s) (sn s) (take i (sres s) ++ [MkRange off data] ++ drop i (sres s))
         (u64 (resident s + len data)) (stail s).

(** ** Spans *)

Section Spans.
Context (maxResideGap : Z).

(** The spans' exclusive ends, [i] being the index of the range at hand. *)
Fixpoint spans_from (want : list blockRange) (i : nat) (end_ : Z) : list nat :=
  match want with
  | [] => if (0 <? i)%nat then [i] else []
  | r :: want =>
      let cut := (0 <? i)%nat && (u64 (end_ + maxResideGap) <? boff r) in
      (if cut then [i] else []) ++ spans_from want (S i) (Z.max end_ (u64 (boff r + bn r)))
  end.

Definition resideSpans (want : list blockRange) : list nat := spans_from want 0 0.

End Spans.

Definition br_le (a b : blockRange) : Prop := boff a <= boff b.
#[global] Instance br_le_dec a b : Decision (br_le a b).
Proof. unfold br_le. apply _. Defined.
#[global] Instance br_le_total : Total br_le.
Proof. intros a b. unfold br_le. lia. Qed.

Section Reads.
Context (blob_Read : Z -> Z -> res bytes) (blockTrailer maxResideGap : Z).

(** ** Reads *)

Definition read (s : sectionReadable) (off n : Z) : res bytes :=
  match stail s with
  | Some t =>
      if (roff t <=? off) && (u64 (off + n) <=? u64 (roff t + len (rdata t)))
      then slice (rdata t) (off - roff t) (off - roff t + n)
      else blob_Read (u64 (soff s + off)) n
  | None => blob_Read (u64 (soff s + off)) n
  end.

(** [ReadAt] into a buffer of [n] bytes: the bytes, or io.EOF. *)
Definition ReadAt (s : sectionReadable) (n off : Z) : res bytes :=
  if (off <? 0) || (sn s <? off) then Err "EOF" else
  if sn s - off <? n then Err "EOF" else
  let i := sort_Search (length (sres s))
    (fun i => match sres s !! i with Some r => off <? roff r | None => true end) in
  match i with
  | O => read s off n
  | S i =>
      match sres s !! i with
      | None => Panic
      | Some r =>
          if off + n <=? roff r + len (rdata r)
          then let* b := slice_from (rdata r) (off - roff r) in Ok (take (Z.to_nat n) b)
          else read s off n
      end
  end.

(** ** Pinning *)

(** The handles [reside] still has to read. *)
Fixpoint reside_want (s : sectionReadable) (bhs : list Handle) : res (list blockRange) :=
  match bhs with
  | [] => Ok []
  | bh :: bhs =>
      if Length bh =? 0 then reside_want s bhs else
      let n := u64 (Length bh + blockTrailer) in
      if sn s <? u64 (Offset bh + n) then Err "block is outside the section" else
      if isResident s (Offset bh) then reside_want s bhs else
      let* l := reside_want s bhs in
      Ok (MkBR (Offset bh) n :: l)
  end.

(** Copy the ranges of one span out of its buffer. *)
Fixpoint pin (s : sectionReadable) (lo : Z) (buf : bytes) (l : list blockRange) : res sectionReadable :=
  match l with
  | [] => Ok s
  | r :: l =>
      let* d := slice buf (boff r - lo) (boff r - lo + bn r) in
      pin (insert_range s (boff r) d) lo buf l
  end.

Definition span_hi (l : list blockRange) : Z := fold_left (fun hi r => Z.max hi (u64 (boff r + bn r))) l 0.

Fixpoint reside_spans (s : sectionReadable) (want : list blockRange) (i : nat) (ends : list nat) : res sectionReadable :=
  match ends with
  | [] => Ok s
  | j :: ends =>
      let span := take (j - i) (drop i want) in
      match span with
      | [] => Panic
      | r :: _ =>
          let lo := boff r in
          let* buf := read s lo (span_hi span - lo) in
          let* s := pin s lo buf span in
          reside_spans s want j ends
      end
  end.

Definition reside (s : sectionReadable) (bhs : list Handle) : res sectionReadable :=
  let* want := reside_want s bhs in
  let want := merge_sort br_le want in
  reside_spans s want 0 (resideSpans maxResideGap want).

(** [resideAll]: the whole section, in four-megabyte pieces. *)
Definition resideAll (s : sectionReadable) : res sectionReadable :=
  if sn s =? 0 then Ok s else
  let* buf := RunFile.copy_loop (S (S (Z.to_nat (sn s / RunFile.piece)))) blob_Read (soff s) (sn s) 0 [] in
  Ok (MkSec (soff s) (sn s) [MkRange 0 buf] (sn s) (stail s)).

(** [resideTail], the data size being what the properties block says. *)
Definition resideTail (s : sectionReadable) (DataSize : Z) : res sectionReadable :=
  if (DataSize =? 0) || (sn s <=? DataSize) then Ok s else
  let* buf := blob_Read (u64 (soff s + DataSize)) (sn s - DataSize) in
  Ok (MkSec (soff s) (sn s) (sres s) (resident s) (Some (MkRange DataSize buf))).

Definition dropTail (s : sectionReadable) : sectionReadable :=
  MkSec (soff s) (sn s) (sres s) (resident s) None.

Definition release (s : sectionReadable) : sectionReadable :=
  MkSec (soff s) (sn s) [] 0 (stail s).

(** One call on the section. *)
Inductive op := OReside (bhs : list Handle) | OResideAll | OResideTail (DataSize : Z) | ODropTail | ORelease.

Definition run_op (s : sectionReadable) (o : op) : res sectionReadable :=
  match o with
  | OReside bhs => reside s bhs
  | OResideAll => resideAll s
  | OResideTail d => resideTail s d
  | ODropTail => Ok (dropTail s)
  | ORelease => Ok (release s)
  end.

Fixpoint run_ops (s : sectionReadable) (ops : list op) : res sectionReadable :=
  match ops with [] => Ok s | o :: ops => let* s := run_op s o in run_ops s ops end.

End Reads.

(** ** Sidecars *)

Definition resMagic : bytes := str "EPDBRES1".

(** One section's overlay; a nil section is [None]. *)
Definition entries_of (secs : list (option (list residentRange))) : list (Z * residentRange) :=
  concat (imap (fun s o => match o with None => [] | Some l => map (fun r => (Z.of_nat s, r)) l end) secs).

Definition enc_entry (e : Z * residentRange) : bytes := [e.1] ++ bigE 8 (roff e.2) ++ bigE 8 (len (rdata e.2)).

(** The bytes [writeSidecar] writes. *)
Definition writeSidecar (secs : list (option (list residentRange))) : bytes :=
  let entries := entries_of secs in
  resMagic ++ bigE 4 (len entries) ++ concat (map enc_entry entries) ++ concat (map (fun e => rdata e.2) entries).

Definition head_len : Z := len resMagic + 4.

(** Entry [i] and on, the next payload at [pay]. *)
Fixpoint load_entries (k : nat) (data : bytes) (i pay : Z) (acc : list (list residentRange))
    : res (Z * list (list residentRange)) :=
  match k with
  | O => Ok (pay, acc)
  | S k =>
      let* e := slice_from data (head_len + i * 17) in
      let* s := index e 0 in
      let* off := (let* p := slice_from e 1 in be_get 8 p) in
      let* n := (let* p := slice_from e 9 in be_get 8 p) in
      if (3 <=? s) || (len data <? u64 (pay + n)) then Err "store: sidecar entry is torn" else
      let* d := slice data pay (u64 (pay + n)) in
      load_entries k data (i + 1) (u64 (pay + n)) (alter (fun l => l ++ [MkRange off d]) (Z.to_nat s) acc)
  end.

Definition rr_le (a b : residentRange) : Prop := roff a <= roff b.
#[global] Instance rr_le_dec a b : Decision (rr_le a b).
Proof. unfold rr_le. apply _. Defined.
#[global] Instance rr_le_total : Total rr_le.
Proof. intros a b. unfold rr_le. lia. Qed.

Definition loadSidecar (data : bytes) : res (list (list residentRange)) :=
  if len data <? head_len then Err "store: sidecar is too short" else
  let* m := slice data 0 (len resMagic) in
  if negb (beqb m resMagic) then Err "store: sidecar: bad magic" else
  let* c := slice_from data (len resMagic) in
  let* count := be_get 4 c in
  if len data <? head_len + count * 17 then Err "store: sidecar entries do not fit" else
  let* (pay, ranges) := load_entries (Z.to_nat count) data 0 (head_len + count * 17) [[]; []; []] in
  if negb (pay =? len data) then Err "store: sidecar: trailing bytes" else
  Ok (map (merge_sort rr_le) ranges).

(** ** The overlay shows the artifact *)

Definition sorted_ranges (l : list residentRange) : Prop := StronglySorted Z.lt (map roff l).
Definition range_ok (B : bytes) (r : residentRange) : Prop :=
  slice B (roff r) (roff r + len (rdata r)) = Ok (rdata r).

(** The section's bytes are [B], and every pinned range is a range of them. *)
Definition overlay_ok (s : sectionReadable) (B : bytes) : Prop :=
  sn s = len B /\ 0 <= soff s /\ soff s + sn s < 2 ^ 64 /\ sorted_ranges (sres s) /\
  Forall (range_ok B) (sres s) /\ match stail s with Some t => range_ok B t | None => True end.

Lemma sorted_ranges_app a b :
  sorted_ranges (a ++ b) <-> sorted_ranges a /\ sorted_ranges b /\ forall x y, x ∈ a -> y ∈ b -> roff x < roff y.
Proof.
  unfold sorted_ranges. rewrite map_app. induction a as [|x a IH]; simpl.
  - split; [intros; split_and!; [constructor|done|set_solver]|by intros (_ & ? & _)].
  - split.
    + intros H. apply StronglySorted_inv in H as [H Hf]. apply IH in H as (Ha & Hb & Hab).
      rewrite Forall_app in Hf. destruct Hf as [Hfa Hfb]. split_and!; [by constructor|done|].
      intros x' y [->|Hx]%elem_of_cons Hy; [|by apply Hab]. rewrite Forall_map, Forall_forall in Hfb. by apply Hfb.
    + intros (Ha & Hb & Hab). apply StronglySorted_inv in Ha as [Ha Hf]. constructor; [apply IH; set_solver|].
      apply Forall_app. split; [done|]. rewrite Forall_map, Forall_forall. intros y Hy. apply Hab; set_solver.
Qed.

(** A binary search over offsets splits the ranges where the predicate turns. *)
Lemma search_split (l : list residentRange) (P : Z -> bool) :
  sorted_ranges l -> (forall x y, x <= y -> P x = true -> P y = true) ->
  exists a b, l = a ++ b /\
    sort_Search (length l) (fun i => match l !! i with Some r => P (roff r) | None => true end) = length a /\
    Forall (fun r => P (roff r) = false) a /\ Forall (fun r => P (roff r) = true) b.
Proof.
  intros Hs Hmono. set (f := fun i => match l !! i with Some r => P (roff r) | None => true end).
  destruct (sort_Search_spec (length l) f) as (Hle & Hlo & Hhi).
  { intros i j [Hij Hj] Hi. unfold f in *. destruct (lookup_lt_is_Some_2 l j Hj) as [y Ey].
    destruct (lookup_lt_is_Some_2 l i ltac:(lia)) as [x Ex]. rewrite Ex in Hi. rewrite Ey. apply Hmono with (roff x); [|done].
    destruct (decide (i = j)) as [->|]; [rewrite Ex in Ey; simplify_eq; lia|].
    rewrite <- (take_drop (S i) l) in Hs. apply sorted_ranges_app in Hs as (_ & _ & Hlt).
    apply Z.lt_le_incl, Hlt; apply list_elem_of_lookup.
    - exists i. by rewrite lookup_take_lt by lia.
    - exists (j - S i)%nat. rewrite lookup_drop. by replace (S i + (j - S i))%nat with j by lia. }
  set (n := sort_Search (length l) f) in *. exists (take n l), (drop n l). rewrite take_drop.
  split_and!; [done|rewrite length_take; lia| |].
  - apply Forall_lookup. intros i r Hi. apply lookup_take_Some in Hi as [Hi Hn]. specialize (Hlo i Hn).
    unfold f in Hlo. by rewrite Hi in Hlo.
  - apply Forall_lookup. intros i r Hi. rewrite lookup_drop in Hi. pose proof (lookup_lt_Some _ _ _ Hi).
    specialize (Hhi (n + i)%nat ltac:(lia)). unfold f in Hhi. by rewrite Hi in Hhi.
Qed.

Lemma search_off_split l off :
  sorted_ranges l -> exists a b, l = a ++ b /\ search_off l off = length a /\
    Forall (fun r => roff r < off) a /\ Forall (fun r => off <= roff r) b.
Proof.
  intros Hs. destruct (search_split l (fun x => off <=? x) Hs) as (a & b & Hl & Hn & Ha & Hb).
  { intros x y Hxy Hx. bool_prop. apply Z.leb_le. lia. }
  exists a, b. split_and!; try done; eapply Forall_impl; [exact Ha| |exact Hb|]; simpl; intros; bool_prop; lia.
Qed.

Lemma isResident_spec s off :
  sorted_ranges (sres s) -> isResident s off = true <-> exists d, MkRange off d ∈ sres s.
Proof.
  intros Hs. unfold isResident, residentData. destruct (search_off_split _ off Hs) as (a & b & Hl & -> & Ha & Hb).
  rewrite Hl in *. rewrite lookup_app_r, Nat.sub_diag by lia. split.
  - destruct b as [|[o d] b]; [done|]. simpl. destruct (Z.eqb_spec o off) as [->|]; [|done]. intros _. exists d. set_solver.
  - intros [d Hd]. apply elem_of_app in Hd as [Hd|Hd].
    + rewrite Forall_forall in Ha. specialize (Ha _ Hd). simpl in Ha. lia.
    + destruct b as [|x b]; [set_solver|]. cbn [lookup list_lookup]. apply sorted_ranges_app in Hs as (_ & Hs & _).
      apply elem_of_cons in Hd as [<-|Hd]; [simpl; by rewrite Z.eqb_refl|].
      apply (sorted_ranges_app [x]) in Hs as (_ & _ & Hlt). specialize (Hlt x _ ltac:(set_solver) Hd). simpl in Hlt.
      apply Forall_cons in Hb as [Hb _]. lia.
Qed.

Lemma insert_range_ok s B off d :
  overlay_ok s B -> slice B off (off + len d) = Ok d ->
  overlay_ok (insert_range s off d) B /\ isResident (insert_range s off d) off = true /\
  forall o, isResident s o = true -> isResident (insert_range s off d) o = true.
Proof.
  intros Hok Hd. pose proof Hok as (Hn & H0 & H64 & Hs & Hr & Ht). unfold insert_range.
  destruct (search_off_split _ off Hs) as (a & b & Hl & Hi & Ha & Hb). rewrite Hi.
  assert (Hcase : (exists d' b', b = MkRange off d' :: b') \/ Forall (fun r => off < roff r) b).
  { destruct b as [|x b]; [right; constructor|]. apply Forall_cons in Hb as [Hx Hb].
    destruct (decide (roff x = off)) as [<-|Hne]; [left; destruct x; eauto|right].
    rewrite Hl in Hs. apply sorted_ranges_app in Hs as (_ & Hs & _). apply (sorted_ranges_app [x]) in Hs as (_ & _ & Hlt).
    constructor; [lia|]. apply Forall_forall. intros y Hy. specialize (Hlt x y ltac:(set_solver) Hy). lia. }
  rewrite Hl, lookup_app_r, Nat.sub_diag by lia. destruct Hcase as [(d' & b' & ->)|Hgt].
  - simpl. rewrite Z.eqb_refl. split_and!; try done. apply isResident_spec; [done|]. exists d'. rewrite Hl. set_solver.
  - assert (Hp : match b !! 0%nat with Some r => roff r =? off | None => false end = false).
    { destruct b as [|x b]; [done|]. simpl. apply Forall_cons in Hgt as [? _]. apply Z.eqb_neq. lia. }
    rewrite Hp, take_app_length, drop_app_length. cbv zeta. set (l' := a ++ [MkRange off d] ++ b).
    assert (Hs' : sorted_ranges l').
    { rewrite Hl in Hs. apply sorted_ranges_app in Hs as (S1 & S2 & S3). apply sorted_ranges_app.
      split_and!; [done| |].
      - apply (sorted_ranges_app [_]). split_and!; [repeat constructor|done|].
        intros x y ->%list_elem_of_singleton Hy. simpl. rewrite Forall_forall in Hgt. by apply Hgt.
      - intros x y Hx [->%list_elem_of_singleton|Hy]%elem_of_app; [|by apply S3].
        simpl. rewrite Forall_forall in Ha. by apply Ha. }
    split_and!.
    + split_and!; try done. simpl. rewrite Hl in Hr. apply Forall_app in Hr as [R1 R2].
      apply Forall_app; split; [done|]. apply Forall_app; split; [|done]. by constructor.
    + apply isResident_spec; [done|]. exists d. simpl. set_solver.
    + intros o Ho. apply isResident_spec in Ho as [d' Hd']; [|done]. apply isResident_spec; [done|]. exists d'.
      simpl. rewrite Hl in Hd'. set_solver.
Qed.

Section Overlay.
Context (blob_Read : Z -> Z -> res bytes) (blockTrailer maxResideGap : Z).

(** The artifact serves the section's bytes. *)
Definition blob_ok (s : sectionReadable) (B : bytes) : Prop :=
  forall o n, 0 <= o -> 0 <= n -> o + n <= len B -> blob_Read (soff s + o) n = slice B o (o + n).

Lemma read_ok s B o n :
  overlay_ok s B -> blob_ok s B -> 0 <= o -> 0 <= n -> o + n <= len B ->
  read blob_Read s o n = slice B o (o + n).
Proof.
  intros (Hn & H0 & H64 & _ & _ & Ht) Hb Ho Hk Hle. unfold read.
  assert (Hblob : blob_Read (u64 (soff s + o)) n = slice B o (o + n)).
  { rewrite u64_small by (unfold u64_ok; lia). by apply Hb. }
  destruct (stail s) as [t|]; [|done]. case_test; [|done].
  unfold range_ok in Ht. pose proof (slice_Ok _ _ _ _ Ht) as (Hlo & Hhi & _).
  rewrite u64_small in * by (unfold u64_ok; lia). rewrite (u64_small (roff t + _)) in * by (unfold u64_ok; lia).
  rewrite (slice_slice B _ _ _ _ _ Ht) by lia. f_equal; lia.
Qed.

Lemma ReadAt_ok s B n off :
  overlay_ok s B -> blob_ok s B -> 0 <= n ->
  ReadAt blob_Read s n off =
    if (0 <=? off) && (off + n <=? len B) then slice B off (off + n) else Err "EOF".
Proof.
  intros Hok Hb Hn. pose proof Hok as (Hsn & H0 & H64 & Hs & Hr & Ht). unfold ReadAt. rewrite Hsn.
  destruct (Z.ltb_spec off 0); [by rewrite (proj2 (Z.leb_gt 0 off)) by lia|]. rewrite (proj2 (Z.leb_le 0 off)) by lia.
  cbn [orb andb]. destruct (Z.leb_spec (off + n) (len B)) as [Hle|Hgt].
  2: { destruct (len B <? off); [done|]. by rewrite (proj2 (Z.ltb_lt _ _)) by lia. }
  rewrite (proj2 (Z.ltb_ge (len B) off)), (proj2 (Z.ltb_ge (len B - off) n)) by lia.
  destruct (search_split (sres s) (fun x => off <? x) Hs) as (a & b & Hl & -> & Ha & _).
  { intros x y Hxy Hx. bool_prop. apply Z.ltb_lt. lia. }
  destruct a as [|r a _] using rev_ind; [by apply read_ok|]. rewrite length_app, Nat.add_1_r, Hl.
  rewrite <- app_assoc. cbn [app]. rewrite list_lookup_middle by done.
  case_test; [|by apply read_ok].
  assert (Hrr : range_ok B r) by (rewrite Forall_forall in Hr; apply Hr; rewrite Hl; set_solver).
  apply Forall_app in Ha as [_ Ha]. apply Forall_cons in Ha as [Ha _]. bool_prop.
  unfold slice_from. rewrite (slice_slice B _ _ _ _ _ Hrr) by lia.
  destruct (slice_in B off (off + n)) as [x Hx]; [lia..|]. rewrite Hx.
  pose proof (slice_Ok _ _ _ _ Hrr) as (Hlo & Hhi & _).
  destruct (slice_in B (off + n) (roff r + len (rdata r))) as [y Hy]; [lia..|].
  replace (roff r + (off - roff r)) with off by lia. rewrite (slice_join _ _ _ _ _ _ Hx Hy). cbn [rbind].
  f_equal. pose proof (slice_Ok _ _ _ _ Hx) as (_ & _ & Hlx). rewrite take_app_length'; [done|]. unfold len in Hlx. lia.
Qed.

(** The ranges to pin: inside the section. *)
Definition wanted (B : bytes) (r : blockRange) : Prop := 0 <= boff r /\ 0 <= bn r /\ boff r + bn r <= len B.

Definition grows (s s' : sectionReadable) : Prop :=
  soff s' = soff s /\ sn s' = sn s /\ stail s' = stail s /\
  forall o, isResident s o = true -> isResident s' o = true.

Lemma insert_grows s B off d : overlay_ok s B -> slice B off (off + len d) = Ok d -> grows s (insert_range s off d).
Proof.
  intros Hok Hd. destruct (insert_range_ok s B off d Hok Hd) as (_ & _ & Hg). split_and!; [..|exact Hg];
    unfold insert_range; cbv zeta; by case_match.
Qed.

Lemma grows_trans s1 s2 s3 : grows s1 s2 -> grows s2 s3 -> grows s1 s3.
Proof. intros (A1 & A2 & A3 & A4) (B1 & B2 & B3 & B4). split_and!; [congruence..|auto]. Qed.

Lemma grows_blob s s' B : grows s s' -> blob_ok s B -> blob_ok s' B.
Proof. intros (E & _) Hb. unfold blob_ok. by rewrite E. Qed.

Lemma pin_ok s B lo hi buf l :
  overlay_ok s B -> slice B lo hi = Ok buf ->
  Forall (fun r => lo <= boff r /\ 0 <= bn r /\ boff r + bn r <= hi) l ->
  exists s', pin s lo buf l = Ok s' /\ overlay_ok s' B /\ grows s s' /\
    Forall (fun r => isResident s' (boff r) = true) l.
Proof.
  revert s. induction l as [|r l IH]; intros s Hok Hbuf Hl; [by exists s|].
  apply Forall_cons in Hl as [(Hlo & Hbn & Hhi) Hl]. cbn [pin].
  rewrite (slice_slice B lo hi buf) by (done || lia).
  replace (lo + (boff r - lo)) with (boff r) by lia. replace (lo + (boff r - lo + bn r)) with (boff r + bn r) by lia.
  pose proof (slice_Ok _ _ _ _ Hbuf) as (? & ? & _).
  destruct (slice_in B (boff r) (boff r + bn r)) as [d Hd]; [lia..|]. rewrite Hd. cbn [rbind].
  pose proof (slice_Ok _ _ _ _ Hd) as (_ & _ & Hlen).
  assert (Hd' : slice B (boff r) (boff r + len d) = Ok d) by (replace (len d) with (bn r) by lia; done).
  destruct (insert_range_ok s B (boff r) d Hok Hd') as (Hok1 & Hres & _).
  destruct (IH _ Hok1 Hbuf Hl) as (s' & -> & Hok' & Hg & Hf). exists s'. split_and!; try done.
  - eapply grows_trans; [by eapply insert_grows|done].
  - constructor; [|done]. by apply Hg.
Qed.

(** ** Spans *)

(** Exclusive ends of consecutive non-empty spans of [i, n). *)
Fixpoint ends_ok (i : nat) (ends : list nat) (n : nat) : Prop :=
  match ends with [] => i = n | j :: ends => (i < j <= n)%nat /\ ends_ok j ends n end.

Lemma spans_from_ok want : forall i i0 e, (i0 < i)%nat ->
  ends_ok i0 (spans_from maxResideGap want i e) (i + length want).
Proof.
  induction want as [|r want IH]; intros i i0 e Hi; cbn [spans_from length].
  - rewrite (proj2 (Nat.ltb_lt 0 i)) by lia. simpl. lia.
  - replace (i + S (length want))%nat with (S i + length want)%nat by lia.
    destruct (_ && _); cbn [app]; [|apply IH; lia]. split; [lia|]. apply IH. lia.
Qed.

Lemma resideSpans_ok want : ends_ok 0 (resideSpans maxResideGap want) (length want).
Proof.
  unfold resideSpans. destruct want as [|r want]; [done|]. cbn [spans_from]. cbn [Nat.ltb Nat.leb andb app].
  apply (spans_from_ok want 1 0). lia.
Qed.

Lemma span_hi_ok B l hi :
  Forall (wanted B) l -> len B < 2 ^ 64 -> 0 <= hi <= len B ->
  let h := fold_left (fun hi r => Z.max hi (u64 (boff r + bn r))) l hi in
  hi <= h <= len B /\ Forall (fun r => boff r + bn r <= h) l.
Proof.
  intros Hw HB. revert hi. induction Hw as [|r l (H1 & H2 & H3) _ IH]; intros hi Hhi; simpl; [split; [lia|constructor]|].
  rewrite u64_small by (unfold u64_ok; lia). specialize (IH (Z.max hi (boff r + bn r)) ltac:(lia)) as [IH1 IH2].
  simpl in *. split; [lia|]. constructor; [lia|done].
Qed.

Lemma reside_spans_ok want ends : forall s B i,
  overlay_ok s B -> blob_ok s B -> Forall (wanted B) want -> StronglySorted br_le want ->
  ends_ok i ends (length want) ->
  exists s', reside_spans blob_Read s want i ends = Ok s' /\ overlay_ok s' B /\ grows s s' /\
    Forall (fun r => isResident s' (boff r) = true) (drop i want).
Proof.
  induction ends as [|j ends IH]; intros s B i Hok Hb Hw Hsort He; cbn [reside_spans ends_ok] in *.
  { exists s. subst i. split_and!; try done. by rewrite drop_all. }
  destruct He as [Hij He]. set (span := take (j - i) (drop i want)).
  assert (Hdrop : drop i want = span ++ drop j want).
  { subst span. rewrite <- (take_drop (j - i) (drop i want)) at 1. rewrite drop_drop. by replace (i + (j - i))%nat with j by lia. }
  assert (Hws : Forall (wanted B) span) by (by apply Forall_take, Forall_drop).
  assert (Hss : StronglySorted br_le (drop i want)).
  { clear -Hsort. revert i. induction Hsort as [|x l Hl IH Hf]; intros [|i]; simpl; try constructor; auto. }
  destruct span as [|r l] eqn:Es.
  { apply (f_equal length) in Es. subst span. rewrite length_take, length_drop in Es. simpl in Es. lia. }
  pose proof Hok as (Hsn & Hso & H64 & _). pose proof (len_nonneg B).
  pose proof (span_hi_ok B (r :: l) 0 Hws ltac:(lia) ltac:(lia)) as [Hh1 Hh2].
  change (fold_left _ (r :: l) 0) with (span_hi (r :: l)) in Hh1, Hh2. set (hi := span_hi (r :: l)) in *.
  pose proof (Forall_inv Hws) as (Hr1 & Hr2 & Hr3). pose proof (Forall_inv Hh2) as Hrh. simpl in Hrh.
  rewrite (read_ok s B) by (done || lia). replace (boff r + (hi - boff r)) with hi by lia.
  destruct (slice_in B (boff r) hi) as [buf Hbuf]; [lia..|]. rewrite Hbuf. cbn [rbind].
  destruct (pin_ok s B (boff r) hi buf (r :: l) Hok Hbuf) as (s1 & -> & Hok1 & Hg1 & Hf1).
  { apply Forall_forall. intros x Hx. rewrite Forall_forall in Hh2, Hws. specialize (Hh2 x Hx). destruct (Hws x Hx) as (? & ? & ?).
    split_and!; try done. rewrite Hdrop in Hss. cbn [app] in Hss. apply StronglySorted_inv in Hss as [_ Hf].
    apply elem_of_cons in Hx as [->|Hx]; [lia|]. rewrite Forall_forall in Hf. apply Hf. set_solver. }
  cbn [rbind]. destruct (IH s1 B j Hok1) as (s' & -> & Hok' & Hg' & Hf'); try done; [by eapply grows_blob|].
  exists s'. split_and!; try done; [by eapply grows_trans|]. rewrite Hdrop. apply Forall_app. split; [|done].
  eapply Forall_impl; [exact Hf1|]. intros x Hx. by apply Hg'.
Qed.

Definition handle_ok (B : bytes) (h : Handle) : Prop :=
  0 <= Offset h /\ 0 <= Length h /\ (Length h <> 0 -> Offset h + Length h + blockTrailer <= len B).

Lemma reside_want_ok s B bhs :
  overlay_ok s B -> 0 <= blockTrailer -> Forall (handle_ok B) bhs ->
  exists want, reside_want blockTrailer s bhs = Ok want /\ Forall (wanted B) want /\
    Forall (fun h => Length h <> 0 -> isResident s (Offset h) = true \/ Offset h ∈ map boff want) bhs.
Proof.
  intros Hok Ht Hf. pose proof Hok as (Hsn & ? & H64 & _).
  induction Hf as [|h bhs (H1 & H2 & H3) _ (want & E & Hw & Hin)]; [by exists []|]. cbn [reside_want].
  destruct (Z.eqb_spec (Length h) 0) as [Hz|Hnz].
  { exists want. split_and!; try done. by constructor. }
  specialize (H3 Hnz). rewrite !u64_small by (unfold u64_ok; rewrite ?u64_small by (unfold u64_ok; lia); lia).
  rewrite (proj2 (Z.ltb_ge _ _)) by lia. destruct (isResident s (Offset h)) eqn:Er.
  { exists want. split_and!; try done. constructor; [by left|done]. }
  rewrite E. cbn [rbind]. eexists. split_and!; [done| |].
  - constructor; [|done]. unfold wanted. simpl. lia.
  - constructor; [intros _; right; set_solver|]. eapply Forall_impl; [exact Hin|].
    intros x Hx Hl. destruct (Hx Hl); [by left|right; set_solver].
Qed.

Lemma reside_ok s B bhs :
  overlay_ok s B -> blob_ok s B -> 0 <= blockTrailer -> Forall (handle_ok B) bhs ->
  exists s', reside blob_Read blockTrailer maxResideGap s bhs = Ok s' /\ overlay_ok s' B /\ grows s s' /\
    Forall (fun h => Length h <> 0 -> isResident s' (Offset h) = true) bhs.
Proof.
  intros Hok Hb Ht Hf. unfold reside. destruct (reside_want_ok s B bhs Hok Ht Hf) as (want & -> & Hw & Hin). cbn [rbind].
  pose proof (merge_sort_Permutation br_le want) as Hperm.
  destruct (reside_spans_ok (merge_sort br_le want) (resideSpans maxResideGap (merge_sort br_le want)) s B 0)
    as (s' & -> & Hok' & Hg & Hr); try done.
  - by rewrite Hperm.
  - apply StronglySorted_merge_sort; [|apply _]. intros x y z. unfold br_le. lia.
  - apply resideSpans_ok.
  - exists s'. split_and!; try done. eapply Forall_impl; [exact Hin|]. intros h Hh Hl.
    destruct (Hh Hl) as [Hx|Hx]; [by apply Hg|]. apply list_elem_of_fmap in Hx as (r & -> & Hx).
    rewrite drop_0, Hperm, Forall_forall in Hr. by apply Hr.
Qed.

Lemma resideAll_ok s B :
  overlay_ok s B -> blob_ok s B ->
  exists s', resideAll blob_Read s = Ok s' /\ overlay_ok s' B /\ soff s' = soff s.
Proof.
  intros Hok Hb. pose proof Hok as (Hsn & Hso & H64 & _ & _ & Ht). pose proof (len_nonneg B). unfold resideAll.
  destruct (Z.eqb_spec (sn s) 0) as [|Hnz]; [by exists s|].
  assert (Hlen : len (replicate (Z.to_nat (soff s)) 0) = soff s) by (lens; lia).
  assert (Hshift : forall o k, 0 <= o ->
    slice (replicate (Z.to_nat (soff s)) 0 ++ B) (soff s + o) (soff s + k) = slice B o k).
  { intros o k Ho. rewrite <- Hlen at 2 3. by apply slice_shift. }
  rewrite (RunFile.copy_loop_ok _ (replicate (Z.to_nat (soff s)) 0 ++ B));
    [|..|rewrite Z.add_0_r; apply slice_empty; lens; lia]; try (lens; lia).
  - pose proof (Hshift 0 (sn s) ltac:(lia)) as E0. rewrite Z.add_0_r in E0. rewrite E0.
    destruct (slice_in B 0 (sn s)) as [b Eb]; [lia..|]. rewrite Eb. cbn [rbind]. eexists. split_and!; [done| |done].
    pose proof (slice_Ok _ _ _ _ Eb) as (_ & _ & Hlb).
    split_and!; try done; cbn [sres]; [repeat constructor|]. constructor; [|constructor].
    unfold range_ok. cbn [roff rdata]. by replace (0 + len b) with (sn s) by lia.
  - intros o k Ho Hk Hle. lens. specialize (Hb (o - soff s) k ltac:(lia) Hk ltac:(lia)).
    replace (soff s + (o - soff s)) with o in Hb by lia. rewrite Hb, <- Hshift by lia. f_equal; lia.
  - apply RunFile.copy_fuel. lia.
Qed.

Lemma resideTail_ok s B d :
  overlay_ok s B -> blob_ok s B -> 0 <= d ->
  exists s', resideTail blob_Read s d = Ok s' /\ overlay_ok s' B /\ soff s' = soff s.
Proof.
  intros Hok Hb Hd. pose proof Hok as (Hsn & Hso & H64 & Hs & Hr & Ht). unfold resideTail. case_test; [by exists s|].
  rewrite u64_small by (unfold u64_ok; lia). rewrite Hb by lia. replace (d + (sn s - d)) with (sn s) by lia.
  destruct (slice_in B d (sn s)) as [b Eb]; [lia..|]. rewrite Eb. cbn [rbind]. eexists. split_and!; [done| |done].
  split_and!; try done. cbn [stail]. unfold range_ok. cbn [roff rdata].
  pose proof (slice_Ok _ _ _ _ Eb) as (_ & _ & Hlb). by replace (d + len b) with (sn s) by lia.
Qed.

(** The handles and sizes a section's own tables name. *)
Definition op_ok (B : bytes) (o : op) : Prop :=
  match o with OReside bhs => Forall (handle_ok B) bhs | OResideTail d => 0 <= d | _ => True end.

Lemma run_op_ok s B o :
  overlay_ok s B -> blob_ok s B -> 0 <= blockTrailer -> op_ok B o ->
  exists s', run_op blob_Read blockTrailer maxResideGap s o = Ok s' /\ overlay_ok s' B /\ soff s' = soff s.
Proof.
  intros Hok Hb Ht Ho. destruct o as [bhs| |d| |]; cbn [run_op].
  - destruct (reside_ok s B bhs Hok Hb Ht Ho) as (s' & -> & Hok' & (E & _) & _). eauto.
  - by apply resideAll_ok.
  - by apply resideTail_ok.
  - eexists. split_and!; [done| |done]. by destruct Hok as (? & ? & ? & ? & ? & _).
  - eexists. split_and!; [done| |done]. destruct Hok as (? & ? & ? & ? & ? & ?). split_and!; try done; constructor.
Qed.

(** the overlay is transparent. From a freshly placed section, whatever
    sequence of pinning blocks, taking the whole section or its tail into
    memory and letting them go again is made, every call succeeds, and a read
    of any range through the overlay returns exactly the artifact's bytes of
    that range, or io.EOF when the range leaves the section. *)
Theorem overlay_transparent B off ops n o :
  0 <= off -> off + len B < 2 ^ 64 -> 0 <= blockTrailer -> 0 <= n ->
  (forall o n, 0 <= o -> 0 <= n -> o + n <= len B -> blob_Read (off + o) n = slice B o (o + n)) ->
  Forall (op_ok B) ops ->
  exists s, run_ops blob_Read blockTrailer maxResideGap (MkSec off (len B) [] 0 None) ops = Ok s /\
    ReadAt blob_Read s n o = if (0 <=? o) && (o + n <=? len B) then slice B o (o + n) else Err "EOF".
Proof.
  intros Hoff H64 Ht Hn Hblob Hops.
  assert (G : forall s, overlay_ok s B -> soff s = off ->
    exists s', run_ops blob_Read blockTrailer maxResideGap s ops = Ok s' /\ overlay_ok s' B /\ soff s' = off).
  { induction Hops as [|x ops Hx _ IH]; intros s Hok Hs; [by exists s|]. cbn [run_ops].
    destruct (run_op_ok s B x Hok) as (s1 & -> & Hok1 & E1); try done; [unfold blob_ok; by rewrite Hs|].
    cbn [rbind]. apply IH; congruence. }
  destruct (G (MkSec off (len B) [] 0 None)) as (s & E & Hok & Hs); [|done|].
  { split_and!; try done; constructor. }
  exists s. split; [done|]. apply ReadAt_ok; [done|unfold blob_ok; by rewrite Hs|done].
Qed.

(** pinning is complete. After [reside] every non-empty block it was given
    is resident, whatever spans the blocks were read in, so that opening the
    section again reads none of them from the artifact. *)
Theorem reside_complete s B bhs :
  overlay_ok s B -> blob_ok s B -> 0 <= blockTrailer -> Forall (handle_ok B) bhs ->
  exists s', reside blob_Read blockTrailer maxResideGap s bhs = Ok s' /\ overlay_ok s' B /\
    Forall (fun h => Length h <> 0 -> isResident s' (Offset h) = true) bhs /\
    reside_want blockTrailer s' bhs = Ok [].
Proof.
  intros Hok Hb Ht Hf. destruct (reside_ok s B bhs Hok Hb Ht Hf) as (s' & E & Hok' & _ & Hres).
  exists s'. split_and!; try done. pose proof Hok' as (Hsn & ? & H64 & _).
  clear E. induction bhs as [|h bhs IH]; [done|].
  apply Forall_cons in Hf as [(H1 & H2 & H3) Hf], Hres as [Hr Hres]. cbn [reside_want].
  destruct (Z.eqb_spec (Length h) 0) as [|Hnz]; [by apply IH|]. specialize (H3 Hnz).
  rewrite (u64_small (Length h + _)), u64_small by (unfold u64_ok; lia).
  rewrite (proj2 (Z.ltb_ge _ _)) by lia. rewrite Hr by done. by apply IH.
Qed.

End Overlay.

(** ** Sidecars round trip *)

Definition entry_ok (e : Z * residentRange) : Prop := 0 <= e.1 < 3 /\ u64_ok (roff e.2).
Definition payload (es : list (Z * residentRange)) : bytes := concat (map (fun e => rdata e.2) es).
Definition add_entry (acc : list (list residentRange)) (e : Z * residentRange) : list (list residentRange) :=
  alter (fun l => l ++ [e.2]) (Z.to_nat e.1) acc.

Lemma len_enc_entry e : len (enc_entry e) = 17.
Proof. unfold enc_entry. lens. lia. Qed.

Lemma payload_cons e es : payload (e :: es) = rdata e.2 ++ payload es.
Proof. done. Qed.

(** What one entry's three fields read back as. *)
Lemma read_entry e rest :
  entry_ok e -> u64_ok (len (rdata e.2)) ->
  index (enc_entry e ++ rest) 0 = Ok e.1 /\
  (let* p := slice_from (enc_entry e ++ rest) 1 in be_get 8 p) = Ok (roff e.2) /\
  (let* p := slice_from (enc_entry e ++ rest) 9 in be_get 8 p) = Ok (len (rdata e.2)).
Proof.
  intros [Hs Ho] Hn. unfold enc_entry. rewrite <- !app_assoc. split_and!.
  - by apply (index_app []).
  - rewrite (slice_tail [e.1]) by done. cbn [rbind]. by apply be_get_app.
  - rewrite (app_assoc [e.1]), slice_tail by (lens; lia). cbn [rbind]. by apply be_get_app.
Qed.

(** The entries are read off the front while their payloads fit; the first one
    that does not stops the load. *)
Lemma load_entries_ok es : forall data i pay acc rest,
  Forall entry_ok es -> len data < 2 ^ 63 -> 0 <= i -> 0 <= pay <= len data ->
  slice_from data (head_len + i * 17) = Ok (concat (map enc_entry es) ++ rest) ->
  Forall (fun e => len (rdata e.2) < 2 ^ 63) es ->
  load_entries (length es) data i pay acc = Err "store: sidecar entry is torn" /\
    len data < pay + len (payload es) \/
  pay + len (payload es) <= len data /\
    (slice data pay (pay + len (payload es)) = Ok (payload es) ->
     load_entries (length es) data i pay acc = Ok (pay + len (payload es), fold_left add_entry es acc)).
Proof.
  induction es as [|[sec [off d]] es IH]; intros data i pay acc rest He Hd Hi Hp Hsl Hn.
  { right. unfold payload. simpl. rewrite len_nil, Z.add_0_r. split; [lia|]. done. }
  apply Forall_cons in He as [He Hes], Hn as [Hn Hns]. cbn [map concat] in Hsl. rewrite <- app_assoc in Hsl.
  cbn [length load_entries]. rewrite Hsl. cbn [rbind].
  pose proof (len_nonneg d). cbn [snd rdata] in Hn.
  destruct (read_entry (sec, MkRange off d) (concat (map enc_entry es) ++ rest) He) as (E1 & E2 & E3);
    [unfold u64_ok; cbn [snd rdata]; lia|]. rewrite E1. cbn [rbind]. rewrite E2. cbn [rbind]. rewrite E3. cbn [rbind].
  clear E1 E2 E3. cbn [fst snd roff rdata]. destruct He as [Hs _]. cbn [fst] in Hs.
  rewrite (proj2 (Z.leb_gt 3 sec)), u64_small by (unfold u64_ok; lia). cbn [orb].
  rewrite payload_cons. cbn [snd rdata]. lens. pose proof (len_nonneg (payload es)).
  destruct (Z.ltb_spec (len data) (pay + len d)) as [Hlt|Hge]; [left; split; [done|lia]|].
  destruct (slice_in data pay (pay + len d)) as [x Hx]; [lia..|]. rewrite Hx. cbn [rbind].
  assert (Hsl' : slice_from data (head_len + (i + 1) * 17) = Ok (concat (map enc_entry es) ++ rest)).
  { unfold slice_from in *. pose proof (slice_Ok _ _ _ _ Hsl) as (H1 & H2 & H3). rewrite len_app, len_enc_entry in H3.
    pose proof (len_nonneg (concat (map enc_entry es) ++ rest)).
    replace (head_len + (i + 1) * 17) with (head_len + i * 17 + 17) by lia.
    assert (Hs17 := slice_slice data _ _ _ 17 (len data - (head_len + i * 17)) Hsl ltac:(lia) ltac:(lia) ltac:(lia)).
    replace (head_len + i * 17 + (len data - (head_len + i * 17))) with (len data) in Hs17 by lia.
    rewrite <- Hs17. rewrite <- H3, <- (len_enc_entry (sec, MkRange off d)), <- len_app. by apply slice_tail. }
  destruct (IH data (i + 1) (pay + len d) (alter (fun l => l ++ [MkRange off x]) (Z.to_nat sec) acc) rest Hes Hd
    ltac:(lia) ltac:(lia) Hsl' Hns) as [[E Hlt]|[Hle E]].
  - left. split; [done|lia].
  - right. split; [lia|]. intros Hpay.
    assert (Hx' : slice data pay (pay + len d) = Ok d).
    { pose proof (slice_slice data _ _ _ 0 (len d) Hpay ltac:(lia) ltac:(lia) ltac:(lia)) as E'.
      rewrite Z.add_0_r in E'. rewrite <- E'. by apply (slice_app [] d). }
    assert (Hy : slice data (pay + len d) (pay + len d + len (payload es)) = Ok (payload es)).
    { pose proof (slice_slice data _ _ _ (len d) (len d + len (payload es)) Hpay ltac:(lia) ltac:(lia) ltac:(lia)) as E'.
      rewrite Z.add_assoc in E'. rewrite <- E', <- len_app. by apply slice_tail. }
    rewrite Hx in Hx'. injection Hx' as ->. rewrite E by done. by rewrite Z.add_assoc.
Qed.

Lemma add_section (sec : Z) l : forall acc x, acc !! Z.to_nat sec = Some x ->
  fold_left add_entry (map (fun r => (sec, r)) l) acc = <[Z.to_nat sec := x ++ l]> acc.
Proof.
  induction l as [|r l IH]; intros acc x Hx; cbn [map fold_left].
  { rewrite app_nil_r. by rewrite list_insert_id. }
  unfold add_entry at 2. cbn [fst snd]. rewrite (IH _ (x ++ [r])).
  - rewrite <- app_assoc. apply list_eq. intros j. destruct (decide (j = Z.to_nat sec)) as [->|Hne].
    + pose proof (lookup_lt_Some _ _ _ Hx). rewrite !list_lookup_insert_eq by (rewrite ?length_alter; done). done.
    + rewrite !list_lookup_insert_ne, list_lookup_alter_ne by done. done.
  - rewrite list_lookup_alter_eq, Hx. done.
Qed.

(** Sorting ranges that already ascend leaves them as they are. *)
Lemma merge_sort_sorted l : sorted_ranges l -> merge_sort rr_le l = l.
Proof.
  intros Hs. pose proof (merge_sort_Permutation rr_le l) as Hp.
  assert (Hs' : StronglySorted rr_le (merge_sort rr_le l)).
  { apply StronglySorted_merge_sort; [intros x y z; unfold rr_le; lia|apply _]. }
  revert Hs' Hp. generalize (merge_sort rr_le l) as l'. clear -Hs. revert Hs.
  induction l as [|x l IH]; intros Hs [|y l'] Hs' Hp; try done.
  - by apply Permutation_nil_r in Hp.
  - by apply Permutation_nil_l in Hp.
  - apply (sorted_ranges_app [x]) in Hs as (_ & Hs & Hlt). apply StronglySorted_inv in Hs' as [Hs' Hle].
    assert (Hxy : x = y).
    { assert (Hy : y ∈ x :: l) by (rewrite <- Hp; set_solver). apply elem_of_cons in Hy as [->|Hy]; [done|].
      assert (Hx : x ∈ y :: l') by (rewrite Hp; set_solver). apply elem_of_cons in Hx as [->|Hx]; [done|].
      specialize (Hlt x y ltac:(set_solver) Hy). rewrite Forall_forall in Hle. specialize (Hle x Hx). unfold rr_le in Hle. lia. }
    subst y. f_equal. apply IH; [done|done|]. by apply Permutation_cons_inv in Hp.
Qed.

(** The overlays of the three sections, small enough to have come off a file. *)
Definition sidecar_ok (secs : list (option (list residentRange))) : Prop :=
  length secs = 3%nat /\
  Forall (fun o => sorted_ranges (default [] o) /\ Forall (fun r => u64_ok (roff r)) (default [] o)) secs /\
  len (entries_of secs) < 2 ^ 32 /\ len (writeSidecar secs) < 2 ^ 63.

Lemma entries_ok secs : sidecar_ok secs -> Forall entry_ok (entries_of secs).
Proof.
  intros (Hl & Hf & _). destruct secs as [|a [|b [|c [|]]]]; try done.
  apply Forall_cons in Hf as [[_ Ha] Hf]. apply Forall_cons in Hf as [[_ Hb] Hf]. apply Forall_cons in Hf as [[_ Hc] _].
  unfold entries_of. cbn -[Z.of_nat]. rewrite app_nil_r.
  assert (G : forall sec o, 0 <= sec < 3 -> Forall (fun r => u64_ok (roff r)) (default [] o) ->
    Forall entry_ok (match o with None => [] | Some l => map (fun r => (sec, r)) l end)).
  { intros sec [l|] Hs Ho; [|constructor]. rewrite Forall_map. eapply Forall_impl; [exact Ho|]. intros r Hr. by split. }
  apply Forall_app; split; [by apply (G 0)|]. apply Forall_app; split; [by apply (G 1)|by apply (G 2)].
Qed.

Lemma len_entries es : len (concat (map enc_entry es)) = len es * 17.
Proof. induction es as [|e es IH]; [done|]. cbn [map concat]. lens. rewrite IH, len_enc_entry. lia. Qed.

Lemma payload_bound es : Forall (fun e => len (rdata e.2) <= len (payload es)) es.
Proof.
  induction es as [|e es IH]; constructor; rewrite payload_cons; lens; [pose proof (len_nonneg (payload es)); lia|].
  eapply Forall_impl; [exact IH|]. simpl. intros x Hx. pose proof (len_nonneg (rdata e.2)). lia.
Qed.

(** The load of a file that starts like a sidecar with these entries. *)
Lemma loadSidecar_front es body :
  Forall entry_ok es -> len es < 2 ^ 32 -> len (payload es) < 2 ^ 63 ->
  let data := resMagic ++ bigE 4 (len es) ++ concat (map enc_entry es) ++ body in
  len data < 2 ^ 63 ->
  (len body < len (payload es) -> exists m, loadSidecar data = Err m) /\
  (body = payload es ->
    loadSidecar data = Ok (map (merge_sort rr_le) (fold_left add_entry es [[]; []; []]))).
Proof.
  intros He Hc Hp data Hd. pose proof (len_nonneg es). pose proof (len_nonneg body). pose proof (len_nonneg (payload es)).
  assert (Hlen : len data = head_len + len es * 17 + len body).
  { subst data. lens. rewrite len_entries. change head_len with (len resMagic + 4). lia. }
  assert (Hh : head_len = 12) by done.
  assert (Hcount : loadSidecar data =
    let* (pay, ranges) := load_entries (length es) data 0 (head_len + len es * 17) [[]; []; []] in
    if negb (pay =? len data) then Err "store: sidecar: trailing bytes" else Ok (map (merge_sort rr_le) ranges)).
  { unfold loadSidecar. rewrite (proj2 (Z.ltb_ge _ _)) by lia.
    assert (Hm : slice data 0 (len resMagic) = Ok resMagic) by (by apply (slice_app [] resMagic)).
    rewrite Hm. cbn [rbind]. rewrite beqb_refl. cbn [negb].
    assert (Hc' : slice_from data (len resMagic) = Ok (bigE 4 (len es) ++ concat (map enc_entry es) ++ body))
      by (by apply slice_tail).
    rewrite Hc'. cbn [rbind]. rewrite be_get_app by (simpl; lia). cbn [rbind].
    rewrite (proj2 (Z.ltb_ge _ _)), len_to_nat by lia. done. }
  assert (Hsl : slice_from data (head_len + 0 * 17) = Ok (concat (map enc_entry es) ++ body)).
  { subst data. rewrite (app_assoc resMagic). apply slice_tail. lens. done. }
  destruct (load_entries_ok es data 0 (head_len + len es * 17) [[]; []; []] body He Hd) as [[E Hlt]|[Hle E]];
    try lia; try done.
  { eapply Forall_impl; [apply payload_bound|]. simpl. intros x Hx. lia. }
  - split; [|intros ->; lia]. intros _. rewrite Hcount, E. by eexists.
  - split; [lia|]. intros ->. rewrite Hcount, E; cbn [rbind].
    + rewrite (proj2 (Z.eqb_eq _ _)) by lia. done.
    + subst data. rewrite app_assoc, app_assoc. rewrite <- (app_nil_r (payload es)) at 1.
      apply slice_app; [|lia]. lens. rewrite len_entries. change (len resMagic) with 8. lia.
Qed.

(** Fewer entry bytes than the count says. *)
Lemma loadSidecar_few c x :
  0 <= c < 2 ^ 32 -> len x < c * 17 -> exists m, loadSidecar (resMagic ++ bigE 4 c ++ x) = Err m.
Proof.
  intros Hc Hx. unfold loadSidecar. set (data := resMagic ++ bigE 4 c ++ x).
  assert (Hlen : len data = 12 + len x) by (subst data; lens; change (len resMagic) with 8; lia).
  pose proof (len_nonneg x). change head_len with 12. rewrite Hlen, (proj2 (Z.ltb_ge _ _)) by lia.
  assert (Hm : slice data 0 (len resMagic) = Ok resMagic) by (by apply (slice_app [] resMagic)).
  rewrite Hm. cbn [rbind]. rewrite beqb_refl. cbn [negb].
  assert (Hc' : slice_from data (len resMagic) = Ok (bigE 4 c ++ x)) by (by apply slice_tail).
  rewrite Hc'. cbn [rbind]. rewrite be_get_app by (simpl; lia). cbn [rbind].
  rewrite (proj2 (Z.ltb_lt _ _)) by lia. eauto.
Qed.

(** sidecars. Loading the sidecar written for a run's overlays gives back the
    three sections' ranges, byte for byte and in offset order; and any torn
    file, that is any shorter prefix of a written one, is refused with an error,
    never loaded as a smaller overlay. *)
Theorem sidecar_roundtrip secs n :
  sidecar_ok secs ->
  loadSidecar (writeSidecar secs) = Ok (map (default []) secs) /\
  (n < length (writeSidecar secs) -> exists m, loadSidecar (take n (writeSidecar secs)) = Err m)%nat.
Proof.
  intros Hok. pose proof (entries_ok secs Hok) as He. destruct Hok as (Hl & Hf & Hc & Hn).
  set (es := entries_of secs) in *.
  assert (Hw : writeSidecar secs = resMagic ++ bigE 4 (len es) ++ concat (map enc_entry es) ++ payload es) by done.
  assert (Hp : len (payload es) < 2 ^ 63).
  { rewrite Hw in Hn. lens. rewrite len_entries in Hn. pose proof (len_nonneg es). change (len resMagic) with 8 in Hn. lia. }
  split.
  - destruct (loadSidecar_front es (payload es) He Hc Hp) as [_ E]; [by rewrite <- Hw|]. rewrite Hw, E by done. f_equal.
    destruct secs as [|a [|b [|c [|]]]]; try done.
    apply Forall_cons in Hf as [[Ha _] Hf]. apply Forall_cons in Hf as [[Hb _] Hf]. apply Forall_cons in Hf as [[Hcc _] _].
    assert (G : forall sec o, match o with None => [] | Some l => map (fun r => (sec, r)) l end
      = map (fun r : residentRange => (sec : Z, r)) (default [] o)) by (by intros sec []).
    subst es. unfold entries_of. cbn [imap concat]. unfold compose. rewrite !G, app_nil_r, !fold_left_app.
    rewrite (add_section (Z.of_nat 0) _ _ []) by done. rewrite (add_section (Z.of_nat 1) _ _ []) by done.
    rewrite (add_section (Z.of_nat 2) _ _ []) by done. rewrite !Nat2Z.id. cbn [insert list_insert app map].
    by rewrite !merge_sort_sorted.
  - intros Hlt. rewrite Hw in *. rewrite !length_app in Hlt. rewrite length_be in Hlt.
    change (length resMagic) with 8%nat in Hlt.
    pose proof (len_entries es) as Hle. unfold len in Hle, Hn, Hc.
    destruct (decide (n < 12)%nat) as [Hshort|Hlong].
    + unfold loadSidecar. rewrite (proj2 (Z.ltb_lt _ _)); [eauto|]. unfold len. rewrite length_take. change head_len with 12. lia.
    + rewrite (app_assoc resMagic), take_app_ge by (rewrite length_app, length_be; simpl; lia).
      rewrite length_app, length_be. change (length resMagic) with 8%nat. rewrite <- app_assoc.
      destruct (decide (n - 12 < length (concat (map enc_entry es)))%nat) as [Hmid|Hend].
      * rewrite take_app_le by lia. apply loadSidecar_few; unfold len; [lia|]. rewrite length_take. lia.
      * rewrite take_app_ge by lia. apply (loadSidecar_front es); try done.
        -- rewrite !len_app in *. unfold len in *. rewrite length_take. rewrite !length_app, length_be in Hn.
           rewrite length_be. lia.
        -- unfold len. rewrite length_take. lia.
Qed.

(** a corrupt length is not answered by a rebuild. The bound on an entry's
    payload is checked on a sum that wraps: with a length so large that
    [pay+n] passes 2^64, the check passes and the slice of the mapping panics,
    instead of the error that makes the opener rebuild the sidecar. *)
Theorem loadSidecar_wraps off n body :
  u64_ok off -> 2 ^ 64 - 29 <= n < 2 ^ 64 ->
  loadSidecar (resMagic ++ bigE 4 1 ++ ([0] ++ bigE 8 off ++ bigE 8 n) ++ body) = Panic.
Proof.
  intros Ho Hn. set (data := resMagic ++ _). pose proof (len_nonneg body).
  assert (Hlen : len data = 29 + len body) by (subst data; lens; change (len resMagic) with 8; lia).
  unfold loadSidecar. change head_len with 12. rewrite Hlen, (proj2 (Z.ltb_ge _ 12)) by lia.
  assert (Hm : slice data 0 (len resMagic) = Ok resMagic) by (by apply (slice_app [] resMagic)).
  rewrite Hm. cbn [rbind]. rewrite beqb_refl. cbn [negb].
  assert (Hc : slice_from data (len resMagic) = Ok (bigE 4 1 ++ ([0] ++ bigE 8 off ++ bigE 8 n) ++ body)) by (by apply slice_tail).
  rewrite Hc. cbn [rbind]. rewrite be_get_app by (simpl; lia). cbn [rbind].
  rewrite (proj2 (Z.ltb_ge _ (12 + 1 * 17))) by lia. change (Z.to_nat 1) with 1%nat. cbn [load_entries].
  assert (He : slice_from data (head_len + 0 * 17) = Ok (([0] ++ bigE 8 off ++ bigE 8 n) ++ body)).
  { subst data. rewrite (app_assoc resMagic). by apply slice_tail. }
  rewrite He. cbn [rbind]. rewrite <- !app_assoc.
  rewrite (index_app [] 0 _ 0 eq_refl : index ([0] ++ _) 0 = Ok 0). cbn [rbind].
  rewrite (slice_tail [0]) by done. cbn [rbind]. rewrite be_get_app by exact Ho. cbn [rbind].
  rewrite (app_assoc [0]), slice_tail by (lens; lia). cbn [rbind]. rewrite be_get_app by (simpl; lia). cbn [rbind].
  change (12 + 1 * 17) with 29.
  assert (Hu : u64 (29 + n) = n + 29 - 2 ^ 64).
  { unfold u64. rewrite <- (Z.mod_add _ (-1)) by lia. rewrite Z.mod_small; lia. }
  rewrite Hu, (proj2 (Z.leb_gt 3 0)), Hlen, (proj2 (Z.ltb_ge _ _)) by lia. cbn [orb].
  unfold slice. rewrite (proj2 (Z.leb_gt 29 _)) by lia. by rewrite andb_false_r.
Qed.

Lemma loadSidecar_wraps_witness :
  loadSidecar (resMagic ++ bigE 4 1 ++ ([0] ++ bigE 8 7 ++ bigE 8 (2 ^ 64 - 1)) ++ [1; 2; 3]) = Panic.
Proof. apply (loadSidecar_wraps 7 (2 ^ 64 - 1) [1; 2; 3]); unfold u64_ok; lia. Defined.

(** ** A section of a hundred bytes *)

Definition sample_B : bytes := map Z.of_nat (seq 0 100).
Definition sample_blob (o n : Z) : res bytes := slice sample_B (o - 1000) (o - 1000 + n).
Definition sample_handles : list Handle := [MkHandle 60 10; MkHandle 20 5; MkHandle 0 0; MkHandle 80 12].

Lemma sample_handles_ok : Forall (handle_ok 5 sample_B) sample_handles.
Proof. repeat constructor; simpl; vm_compute; congruence. Qed.

Lemma sample_blob_ok s : soff s = 1000 -> blob_ok sample_blob s sample_B.
Proof.
  intros Hs o n Ho Hn Hle. unfold sample_blob. rewrite Hs. f_equal; lia.
Qed.

Lemma overlay_transparent_witness :
  exists s, run_ops sample_blob 5 16 (MkSec 1000 (len sample_B) [] 0 None)
      [OResideTail 55; OReside sample_handles; ODropTail] = Ok s /\
    ReadAt sample_blob s 8 61 = Ok [61; 62; 63; 64; 65; 66; 67; 68].
Proof.
  apply (overlay_transparent sample_blob 5 16 sample_B 1000 [OResideTail 55; OReside sample_handles; ODropTail] 8 61);
    try lia; try reflexivity.
  - apply (sample_blob_ok (MkSec 1000 100 [] 0 None)). reflexivity.
  - constructor; [simpl; lia|]. constructor; [apply sample_handles_ok|]. by repeat constructor.
Defined.

Lemma reside_complete_witness :
  exists s', reside sample_blob 5 16 (MkSec 1000 (len sample_B) [] 0 None) sample_handles = Ok s' /\
    overlay_ok s' sample_B /\
    Forall (fun h => Length h <> 0 -> isResident s' (Offset h) = true) sample_handles /\
    reside_want 5 s' sample_handles = Ok [].
Proof.
  apply (reside_complete sample_blob 5 16).
  - split_and!; try done; constructor.
  - by apply sample_blob_ok.
  - lia.
  - apply sample_handles_ok.
Defined.

Definition sample_secs : list (option (list residentRange)) :=
  [Some [MkRange 5 [1; 2]; MkRange 90 [3]]; None; Some [MkRange 0 [7; 7; 7]]].

Lemma sidecar_roundtrip_witness :
  loadSidecar (writeSidecar sample_secs) = Ok (map (default []) sample_secs) /\
  (40 < length (writeSidecar sample_secs) -> exists m, loadSidecar (take 40 (writeSidecar sample_secs)) = Err m)%nat.
Proof.
  apply (sidecar_roundtrip sample_secs 40). split_and!; [reflexivity| |vm_compute; reflexivity..].
  repeat constructor; unfold u64_ok; simpl; lia.
Defined.

End Resident.
