(* ===== verification/Postings.v ===== *)
(** * store/postings.go: posting chunks and their scans

    A flush interns the posting groups, sorts the entries by group and TxNum,
    and cuts each group into Elias-Fano chunks of at most [MaxEntries] keyed by
    their first TxNum ([postSet]). [ScanChunks] walks the chunks under a prefix
    and decodes only those that can hold an entry of the range. Group ids are
    unbounded here (the code has int32). *)

From S2P Require Import Prelude Bytes Rows Ef Format Sst Memtable RunFile.
Import Format.

Module Postings.
Import Memtable.

(** ** postSet *)

Record postEnt := MkEnt { gid : nat; epay : Z; etx : Z }.
Record postSet := MkPS { groups : list bytes; ids : gmap bytes nat; ents : list postEnt }.

Definition ps_empty : postSet := MkPS [] ∅ [].

Definition ps_add (p : postSet) (g : bytes) (txnum pay : Z) : postSet :=
  match ids p !! g with
  | Some id => MkPS (groups p) (ids p) (ents p ++ [MkEnt id pay txnum])
  | None =>
      let id := length (groups p) in
      MkPS (groups p ++ [g]) (<[g := id]> (ids p)) (ents p ++ [MkEnt id pay txnum])
  end.

Definition group_of (gs : list bytes) (id : nat) : bytes := default [] (gs !! id).

(** [order]: the ids sorted by their group; [rank]: an id's place in it. *)
Definition id_le (gs : list bytes) (a b : nat) : Prop := ble (group_of gs a) (group_of gs b).
#[global] Instance id_le_dec gs a b : Decision (id_le gs a b).
Proof. unfold id_le. apply _. Defined.
#[global] Instance id_le_total gs : Total (id_le gs).
Proof. intros a b. unfold id_le. apply (total ble). Qed.

Definition order_of (gs : list bytes) : list nat := merge_sort (id_le gs) (seq 0 (length gs)).
Definition rank_of (gs : list bytes) (id : nat) : nat :=
  match list_find (eq id) (order_of gs) with Some (r, _) => r | None => 0%nat end.

(** The order of the entries: rank of the group, then TxNum. *)
Definition ent_le (gs : list bytes) (a b : postEnt) : Prop :=
  let ra := rank_of gs (gid a) in let rb := rank_of gs (gid b) in
  if (ra =? rb)%nat then etx a <= etx b else (ra < rb)%nat.
#[global] Instance ent_le_dec gs a b : Decision (ent_le gs a b).
Proof. unfold ent_le. cbv zeta. case_match; apply _. Defined.
#[global] Instance ent_le_total gs : Total (ent_le gs).
Proof.
  intros a b. unfold ent_le. cbv zeta. destruct (Nat.eqb_spec (rank_of gs (gid a)) (rank_of gs (gid b))) as [->|].
  - rewrite Nat.eqb_refl. lia.
  - destruct (Nat.eqb_spec (rank_of gs (gid b)) (rank_of gs (gid a))); lia.
Qed.
#[global] Instance ent_le_trans gs : Transitive (ent_le gs).
Proof.
  intros a b c. unfold ent_le. cbv zeta.
  destruct (Nat.eqb_spec (rank_of gs (gid a)) (rank_of gs (gid b))),
    (Nat.eqb_spec (rank_of gs (gid b)) (rank_of gs (gid c))),
    (Nat.eqb_spec (rank_of gs (gid a)) (rank_of gs (gid c))); lia.
Qed.

(** [flush]: the open chunk becomes a row. *)
Definition flush (gs : list bytes) (g : nat) (nums pay : list Z) (rows : list row) : res (list row) :=
  match nums with
  | [] => Ok rows
  | first :: _ =>
      let group := group_of gs g in
      let* v := Ef.Encode first nums pay (PayloadBits group) in
      Ok (rows ++ [(Suffixed group first, v)])
  end.

(** The loop over the sorted entries; [prev] is the group of the entry before. *)
Fixpoint chunk_loop (gs : list bytes) (es : list postEnt) (prev : option nat)
    (nums pay : list Z) (rows : list row) : res (list row) :=
  match es with
  | [] => match prev with None => Ok rows | Some g => flush gs g nums pay rows end
  | e :: es =>
      let* (nums, pay, rows) :=
        match prev with
        | Some g => if (g =? gid e)%nat then Ok (nums, pay, rows)
                    else let* rows := flush gs g nums pay rows in Ok ([], [], rows)
        | None => Ok (nums, pay, rows)
        end in
      let same := match last nums with Some n => n =? etx e | None => false end in
      if same
      then chunk_loop gs es (Some (gid e)) nums
             (removelast pay ++ [Z.lor (default 0 (last pay)) (epay e)]) rows
      else
        let* (nums, pay, rows) :=
          if len nums =? Ef.MaxEntries
          then let* rows := flush gs (gid e) nums pay rows in Ok ([], [], rows)
          else Ok (nums, pay, rows) in
        chunk_loop gs es (Some (gid e)) (nums ++ [etx e]) (pay ++ [epay e]) rows
  end.

Definition chunks (p : postSet) : res (list row) :=
  chunk_loop (groups p) (merge_sort (ent_le (groups p)) (ents p)) None [] [] [].

(** ** Scans *)

Definition bloomGated (prefix : bytes) : bool := split (Suffixed prefix 0) <? len prefix + 8.

Section Scans.
Context `{SSTable}.
Import RunFile.

(** The entries of a decoded chunk inside the range. *)
Fixpoint in_window (group : bytes) (lo hi : Z) (nums : list Z) (pay : option (list Z)) : list posting :=
  match nums with
  | [] => []
  | n :: nums =>
      let p := match pay with Some (p :: _) => p | _ => 0 end in
      let rest := in_window group lo hi nums (option_map tail pay) in
      if (n <? lo) || (hi <? n) then rest else MkPosting group n p :: rest
  end.

(** [decode]: the pending chunk, if there is one, goes to the output. *)
Definition decode_pending (lo hi : Z) (out : list posting) (pend : option row) : res (list posting) :=
  match pend with
  | None => Ok out
  | Some (k, v) =>
      let* group := slice k 0 (len k - 8) in
      let* first := TxNumOf k in
      let* (nums, pay) := Ef.Decode first v in
      Ok (out ++ in_window group lo hi nums pay)
  end.

Definition scan_body (prefix : bytes) (lo hi : Z) (s : list posting * option row) (k : bytes) (v : res bytes)
    : res (list posting * option row * bool) :=
  let '(out, pend) := s in
  if negb (has_prefix k prefix) || (len k <? len prefix + 8) then Ok (out, pend, false) else
  let* first := TxNumOf k in
  let sameGroup := match pend with
                   | None => false
                   | Some (pk, _) => beqb (take (length pk - 8) pk) (take (length k - 8) k)
                   end in
  let* (out, pend) :=
    if sameGroup && (first <=? lo) then Ok (out, None)
    else let* out := decode_pending lo hi out pend in Ok (out, None) in
  if hi <? first then Ok (out, pend, true) else
  let* v := v in
  Ok (out, Some (k, v), true).

Definition ScanChunks (fuel : nat) (r : Run) (prefix : bytes) (lo hi : Z) : res (list posting) :=
  if bloomGated prefix && negb (MayHave r SecLookup (Suffixed prefix 0)) then Ok [] else
  let* it := newIter r SecLookup in
  let* (out, pend) := for_kv (scan_body prefix lo hi) fuel (sst_SeekGE it prefix) ([], None) in
  decode_pending lo hi out pend.

(** [ScanGroups] with a callback over a state; [last] is the group before. *)
Definition group_body {St} (prefix : bytes) (fn : St -> bytes -> St * bool) (s : St * bytes) (k : bytes) (v : res bytes)
    : res (St * bytes * bool) :=
  let '(st, last) := s in
  if negb (has_prefix k prefix) || (len k <? len prefix + 8) then Ok (st, last, false) else
  let* g := slice k 0 (len k - 8) in
  if beqb g last then Ok (st, last, true) else
  let '(st, more) := fn st g in
  Ok (st, g, more).

Definition ScanGroups {St} (fuel : nat) (r : Run) (prefix : bytes) (fn : St -> bytes -> St * bool) (st : St) : res St :=
  if bloomGated prefix && negb (MayHave r SecLookup (Suffixed prefix 0)) then Ok st else
  let* it := newIter r SecLookup in
  let* (st, _) := for_kv (group_body prefix fn) fuel (sst_SeekGE it prefix) (st, []) in Ok st.

Definition set_body {St} (prefix : bytes) (fn : St -> bytes -> St * bool) (st : St) (k : bytes) (v : res bytes)
    : res (St * bool) :=
  if negb (has_prefix k prefix) then Ok (st, false) else Ok (fn st k).

Definition ScanSet {St} (fuel : nat) (r : Run) (prefix : bytes) (fn : St -> bytes -> St * bool) (st : St) : res St :=
  let* gated :=
    if setSplit <=? len prefix
    then let* p := slice prefix 0 setSplit in Ok (negb (MayHave r SecLookup p))
    else Ok false in
  if gated then Ok st else
  let* it := newIter r SecLookup in
  for_kv (set_body prefix fn) fuel (sst_SeekGE it prefix) st.

End Scans.

(** ** What a scan returns *)

(** A chunk: its group, and its TxNums with their payloads. *)
Record chunk := MkChunk { cg : bytes; cents : list (Z * Z) }.
Definition cfirst (c : chunk) : Z := match cents c with x :: _ => x.1 | [] => 0 end.

(** A group without payload bits reports 0. *)
Definition shown (g : bytes) (x : Z * Z) : posting :=
  MkPosting g x.1 (if 0 <? PayloadBits g then x.2 else 0).

Definition in_txs (lo hi : Z) (p : posting) : bool := (lo <=? ptx p) && (ptx p <=? hi).

(** The chunk's entries inside the range. *)
Definition cout (lo hi : Z) (c : chunk) : list posting :=
  List.filter (in_txs lo hi) (map (shown (cg c)) (cents c)).

Definition chunk_ok (c : chunk) : Prop :=
  cents c <> [] /\ StronglySorted Z.lt (map fst (cents c)) /\ Forall (fun x => u64_ok x.1) (cents c).

(** The row a chunk is stored as. *)
Definition is_row (c : chunk) (r : row) : Prop :=
  chunk_ok c /\ r.1 = Suffixed (cg c) (cfirst c) /\
  Ef.Decode (cfirst c) r.2 =
    Ok (map fst (cents c), if 0 <? PayloadBits (cg c) then Some (map snd (cents c)) else None).

(** Neighbouring chunks of one group follow each other. *)
Definition follows (a b : chunk) : Prop := cg a = cg b -> Forall (fun x => x.1 < cfirst b) (cents a).

Lemma in_window_spec g lo hi l :
  in_window g lo hi (map fst l) (if 0 <? PayloadBits g then Some (map snd l) else None)
  = List.filter (in_txs lo hi) (map (shown g) l).
Proof.
  unfold shown. destruct (0 <? PayloadBits g); induction l as [|[t p] l IH]; try done;
    cbn [map in_window List.filter option_map tail fst snd]; rewrite IH; unfold in_txs; cbn [ptx];
    destruct (Z.ltb_spec t lo), (Z.ltb_spec hi t), (Z.leb_spec lo t), (Z.leb_spec t hi); try lia; done.
Qed.

Lemma slice_group g n : slice (Suffixed g n) 0 (len (Suffixed g n) - 8) = Ok g.
Proof. unfold Suffixed at 1. lens. apply (slice_app [] g (bigE 8 n)); lens; lia. Qed.

Lemma take_group g n : take (length (Suffixed g n) - 8) (Suffixed g n) = g.
Proof. unfold Suffixed. rewrite length_app, length_be, Nat.add_sub. apply take_app_length. Qed.

Lemma cfirst_u64 c : chunk_ok c -> u64_ok (cfirst c).
Proof. intros (Hne & _ & Hu). unfold cfirst. destruct (cents c) as [|x l]; [done|]. by apply Forall_inv in Hu. Qed.

Lemma cfirst_le c x : chunk_ok c -> x ∈ cents c -> cfirst c <= x.1.
Proof.
  intros (Hne & Hs & _) Hx. unfold cfirst. destruct (cents c) as [|y l]; [done|]. cbn [map] in Hs.
  apply StronglySorted_inv in Hs as [_ Hf]. apply elem_of_cons in Hx as [->|Hx]; [lia|].
  rewrite Forall_map, Forall_forall in Hf. specialize (Hf x Hx). simpl in Hf. lia.
Qed.

Lemma decode_row lo hi out c r :
  is_row c r -> decode_pending lo hi out (Some r) = Ok (out ++ cout lo hi c).
Proof.
  destruct r as [k v]. intros (Hok & Hk & Hd). cbn [fst snd] in *. subst k. cbn [decode_pending]. rewrite slice_group. cbn [rbind].
  rewrite TxNumOf_Suffixed by (by apply cfirst_u64). cbn [rbind]. rewrite Hd. cbn [rbind]. by rewrite in_window_spec.
Qed.

Lemma cout_nil lo hi c :
  Forall (fun x => x.1 < lo \/ hi < x.1) (cents c) -> cout lo hi c = [].
Proof.
  unfold cout. induction 1 as [|x l Hx _ IH]; [done|]. cbn [map List.filter]. rewrite IH. unfold in_txs. cbn [shown ptx].
  destruct Hx; [by rewrite (proj2 (Z.leb_gt _ _)) by lia|]. rewrite (proj2 (Z.leb_gt x.1 hi)) by lia. by rewrite andb_false_r.
Qed.

Definition olist {A} (o : option A) : list A := match o with Some a => [a] | None => [] end.

(** The whole loop, from any pending chunk: the rest of the scan outputs the
    pending chunk's entries and those of the chunks still ahead. *)
Lemma scan_fold prefix lo hi B cs : forall rows pc pend out,
  Forall2 is_row cs rows -> Forall (fun c => has_prefix (cg c) prefix = true) cs ->
  Forall2 is_row (olist pc) (olist pend) -> Sorted follows (olist pc ++ cs) ->
  match B with [] => True | r :: _ => has_prefix r.1 prefix = false end ->
  (let* (o, pd) := fold_rows (scan_body prefix lo hi) (out, pend) (rows ++ B) in decode_pending lo hi o pd)
  = Ok (out ++ concat (map (cout lo hi) (olist pc ++ cs))).
Proof.
  induction cs as [|c cs IH]; intros rows pc pend out Hr Hp Hpc Hadj HB.
  - apply Forall2_nil_inv_l in Hr as ->. cbn [app].
    assert (Hend : decode_pending lo hi out pend = Ok (out ++ concat (map (cout lo hi) (olist pc ++ [])))).
    { rewrite app_nil_r. destruct pc as [c|], pend as [r|]; try by (apply Forall2_length in Hpc).
      - apply Forall2_cons in Hpc as [Hrow _]. rewrite (decode_row lo hi out c r Hrow). simpl. by rewrite app_nil_r.
      - simpl. by rewrite app_nil_r. }
    destruct B as [|[k v] B]; [done|]. cbn [fold_rows scan_body]. cbn [fst] in HB. rewrite HB. done.
  - apply Forall2_cons_inv_l in Hr as (r & rows' & Hrow & Hr & ->). destruct r as [k v].
    apply Forall_cons in Hp as [Hpc0 Hp]. pose proof Hrow as (Hok & Hk & _). cbn [fst] in Hk. subst k.
    cbn [app fold_rows scan_body].
    assert (Hpre : has_prefix (Suffixed (cg c) (cfirst c)) prefix = true).
    { apply has_prefix_spec in Hpc0 as [x ->]. unfold Suffixed. rewrite <- app_assoc. apply has_prefix_app. }
    assert (Hl : len (Suffixed (cg c) (cfirst c)) <? len prefix + 8 = false).
    { apply Z.ltb_ge. lens. apply has_prefix_spec in Hpc0 as [x ->]. lens. pose proof (len_nonneg x). lia. }
    rewrite Hpre, Hl. cbn [negb orb]. rewrite TxNumOf_Suffixed by (by apply cfirst_u64). cbn [rbind].
    set (same := match pend with None => false | Some _ => _ end).
    (* the pending chunk is done with, one way or the other *)
    assert (Hstep : (if same && (cfirst c <=? lo) then Ok (out, None)
      else let* o := decode_pending lo hi out pend in Ok (o, None))
      = Ok (out ++ concat (map (cout lo hi) (olist pc)), @None row)).
    { destruct pc as [pcc|], pend as [[pk pv]|]; try by (apply Forall2_length in Hpc).
      - apply Forall2_cons in Hpc as [Hprow _]. pose proof Hprow as (Hpok & Hpk & _). cbn [fst] in Hpk. subst pk.
        cbn [olist map concat]. rewrite app_nil_r. subst same. rewrite !take_group.
        destruct (beqb_spec (cg pcc) (cg c)) as [Hg|Hg]; cbn [andb].
        + destruct (Z.leb_spec (cfirst c) lo) as [Hle|Hgt]; [|by rewrite (decode_row lo hi out pcc)].
          cbn [olist app] in Hadj. apply Sorted_inv in Hadj as [_ Hf]. apply HdRel_inv in Hf. specialize (Hf Hg).
          rewrite cout_nil; [by rewrite app_nil_r|].
          eapply Forall_impl; [exact Hf|]. simpl. intros x Hx. left. lia.
        + by rewrite (decode_row lo hi out pcc).
      - subst same. cbn. by rewrite app_nil_r. }
    rewrite Hstep. cbn [rbind]. clear Hstep.
    set (out1 := out ++ concat (map (cout lo hi) (olist pc))).
    rewrite map_app, concat_app, app_assoc. fold out1. cbn [map concat].
    assert (Hadj' : Sorted follows (c :: cs)) by (destruct pc; [by apply Sorted_inv in Hadj as [? _]|done]).
    destruct (Z.ltb_spec hi (cfirst c)) as [Hlt|Hge].
    + rewrite (cout_nil lo hi c).
      2: { apply Forall_forall. intros x Hx. pose proof (cfirst_le c x Hok Hx). right. lia. }
      cbn [app rbind]. apply (IH rows' None None out1); try done. by apply Sorted_inv in Hadj' as [? _].
    + cbn [rbind]. rewrite (IH rows' (Some c) (Some (Suffixed (cg c) (cfirst c), v)) out1); try done.
      constructor; [done|constructor].
Qed.

Section ScanOk.
Context `{SSTLaws}.
Import RunFile.

(** The bloom question asked for the prefix is the one its rows answer. *)
Definition bloom_reaches (p : bytes) (l : list row) : Prop :=
  bloomGated p = true -> forall k, k ∈ keys l -> has_prefix k p = true -> bloom_key k = bloom_key (Suffixed p 0).

Lemma gate_sound r R p :
  run_holds r R -> bloom_reaches p (R SecLookup) ->
  bloomGated p && negb (MayHave r SecLookup (Suffixed p 0)) = true ->
  List.filter (fun x => has_prefix x.1 p) (R SecLookup) = [].
Proof.
  intros Hr Hb Hg. apply andb_true_iff in Hg as [Hg Hm]. apply negb_true_iff in Hm.
  destruct (List.filter _ _) as [|x l] eqn:Ef; [done|].
  assert (Hx : In x (List.filter (fun x => has_prefix x.1 p) (R SecLookup))) by (rewrite Ef; by left).
  apply filter_In in Hx as [Hx Hxp]. apply list_elem_of_In in Hx. apply (list_elem_of_fmap_2 fst) in Hx.
  by rewrite (MayHave_stored r R SecLookup _ x.1 Hr Hx) in Hm by (symmetry; by apply Hb).
Qed.

Lemma ScanChunks_ok fuel r R p lo hi cs :
  run_holds r R -> bloom_reaches p (R SecLookup) -> (length (R SecLookup) <= fuel)%nat ->
  Forall2 is_row cs (List.filter (fun x => has_prefix x.1 p) (R SecLookup)) ->
  Forall (fun c => has_prefix (cg c) p = true) cs -> Sorted follows cs ->
  ScanChunks fuel r p lo hi = Ok (concat (map (cout lo hi) cs)).
Proof.
  intros Hr Hb Hf Hcs Hp Hadj. unfold ScanChunks. destruct (_ && _) eqn:Eg.
  { rewrite (gate_sound r R p Hr Hb Eg) in Hcs. by apply Forall2_nil_inv_r in Hcs as ->. }
  destruct (newIter_ok r R SecLookup Hr) as (it & -> & Ho). cbn [rbind]. destruct (Hr SecLookup) as (_ & Hs & _).
  rewrite (for_kv_spec _ fuel _ _ _ _ (SeekGE_stands _ _ p Ho)) by lia.
  rewrite drop_count_lt by done. destruct (prefix_front p _ Hs) as (B & -> & HB).
  rewrite (scan_fold p lo hi B cs _ None None []); try done.
  destruct B; [done|]. by apply Forall_inv in HB.
Qed.

End ScanOk.

(** ** What the chunks of a set are *)

Abbreviation tri := (bytes * Z * Z)%type.

(** Group, then TxNum. *)
Definition key_lt (a b : tri) : Prop := blt a.1.1 b.1.1 \/ a.1.1 = b.1.1 /\ a.1.2 < b.1.2.
Definition key_le (a b : tri) : Prop := key_lt a b \/ a.1 = b.1.

(** One entry after the others: a repeated (group, TxNum) has its payload OR-ed in. *)
Definition merge_ent (D : list tri) (e : tri) : list tri :=
  match last D with
  | Some d => if beqb d.1.1 e.1.1 && (d.1.2 =? e.1.2) then removelast D ++ [(d.1, Z.lor d.2 e.2)] else D ++ [e]
  | None => D ++ [e]
  end.

#[global] Instance key_lt_trans : Transitive key_lt.
Proof.
  intros [[g1 t1] p1] [[g2 t2] p2] [[g3 t3] p3]. unfold key_lt. cbn.
  intros [H|[-> H]] [H'|[-> H']]; eauto using blt_trans. right. split; [done|lia].
Qed.

Lemma key_lt_irrefl a : ~ key_lt a a.
Proof. intros [H|[_ H]]; [by apply blt_irrefl in H|lia]. Qed.

Lemma key_le_lt_trans a b c : key_le a b -> key_lt b c -> key_lt a c.
Proof.
  intros [Hab|Hab] Hbc; [by transitivity b|]. unfold key_lt in *. by rewrite Hab.
Qed.

Lemma key_lt_le_trans a b c : key_lt a b -> key_le b c -> key_lt a c.
Proof.
  intros Hab [Hbc|Hbc]; [by transitivity b|]. unfold key_lt in *. by rewrite <- Hbc.
Qed.

Lemma SS_app {A} (R : A -> A -> Prop) l k :
  StronglySorted R (l ++ k) <-> StronglySorted R l /\ StronglySorted R k /\ forall x y, x ∈ l -> y ∈ k -> R x y.
Proof.
  induction l as [|a l IH]; cbn [app].
  - split; [intros; split_and!; [constructor|done|set_solver]|by intros (_ & ? & _)].
  - split.
    + intros Hs. apply StronglySorted_inv in Hs as [Hs Hf]. apply IH in Hs as (? & ? & Hlk).
      rewrite Forall_app in Hf. destruct Hf as [Hf Hf']. split_and!; [by constructor|done|].
      intros x y [->|Hx]%elem_of_cons Hy; [|by apply Hlk]. rewrite Forall_forall in Hf'. by apply Hf'.
    + intros (Hl & Hk & Hlk). apply StronglySorted_inv in Hl as [Hl Hf]. constructor; [apply IH; set_solver|].
      apply Forall_app. split; [done|]. apply Forall_forall. intros y Hy. apply Hlk; set_solver.
Qed.

(** The merged list stays strictly sorted and below what is still to come. *)
Lemma merge_ent_ok D e E :
  StronglySorted key_lt D -> StronglySorted key_le (e :: E) ->
  (forall d x, d ∈ D -> x ∈ e :: E -> key_le d x) ->
  StronglySorted key_lt (merge_ent D e) /\ StronglySorted key_le E /\
  (forall d x, d ∈ merge_ent D e -> x ∈ E -> key_le d x).
Proof.
  intros HD HE Hle. apply StronglySorted_inv in HE as [HE Hf]. rewrite Forall_forall in Hf. unfold merge_ent.
  destruct (last D) as [d|] eqn:El.
  - apply last_Some in El as [D' ->]. apply SS_app in HD as (HD' & _ & Hlt).
    destruct (beqb_spec d.1.1 e.1.1) as [Hg|Hg]; cbn [andb]; [destruct (Z.eqb_spec d.1.2 e.1.2) as [Ht|Ht]|].
    + assert (Hd1 : d.1 = e.1) by (destruct d as [[? ?] ?], e as [[? ?] ?]; cbn in *; congruence).
      rewrite removelast_last. split_and!; [|done|].
      * apply SS_app. split_and!; [done|repeat constructor|]. intros x y Hx ->%list_elem_of_singleton.
        specialize (Hlt x d Hx ltac:(set_solver)). by unfold key_lt in *.
      * intros x y [Hx| ->%list_elem_of_singleton]%elem_of_app Hy; [apply Hle; set_solver|].
        specialize (Hf y Hy). unfold key_le, key_lt in *. cbn [fst]. by rewrite Hd1.
    + split_and!; [|done|].
      * apply SS_app. split_and!; [apply SS_app; split_and!; [done|repeat constructor|done]|repeat constructor|].
        intros x y Hx ->%list_elem_of_singleton. destruct (Hle d e) as [Hde|Hde]; [set_solver..| |congruence].
        apply elem_of_app in Hx as [Hx| ->%list_elem_of_singleton]; [|done]. transitivity d; [|done]. apply Hlt; set_solver.
      * intros x y [Hx| ->%list_elem_of_singleton]%elem_of_app Hy; [apply Hle; set_solver|auto].
    + split_and!; [|done|].
      * apply SS_app. split_and!; [apply SS_app; split_and!; [done|repeat constructor|done]|repeat constructor|].
        intros x y Hx ->%list_elem_of_singleton. destruct (Hle d e) as [Hde|Hde]; [set_solver..| |congruence].
        apply elem_of_app in Hx as [Hx| ->%list_elem_of_singleton]; [|done]. transitivity d; [|done]. apply Hlt; set_solver.
      * intros x y [Hx| ->%list_elem_of_singleton]%elem_of_app Hy; [apply Hle; set_solver|auto].
  - apply last_None in El as ->. split_and!; [repeat constructor|done|].
    intros x y ->%list_elem_of_singleton Hy. auto.
Qed.

(** A chunk's entries with their group. *)
Definition with_group (g : bytes) (l : list (Z * Z)) : list tri := map (fun x => (g, x.1, x.2)) l.
Definition flatc (c : chunk) : list tri := with_group (cg c) (cents c).
Definition flat (cs : list chunk) : list tri := concat (map flatc cs).

Definition tri_ok (x : tri) : Prop := u64_ok x.1.2 /\ 0 <= x.2 /\ (0 < PayloadBits x.1.1 -> x.2 < 2 ^ PayloadBits x.1.1).

Lemma PayloadBits_range g : 0 <= PayloadBits g <= 8.
Proof. unfold PayloadBits. repeat case_match; lia. Qed.

Lemma with_group_sorted g l : StronglySorted key_lt (with_group g l) -> StronglySorted Z.lt (map fst l).
Proof.
  induction l as [|x l IH]; intros Hs; [constructor|].
  change (with_group g (x :: l)) with ((g, x.1, x.2) :: with_group g l) in Hs.
  apply StronglySorted_inv in Hs as [Hs Hf]. cbn [map]. constructor; [auto|].
  unfold with_group in Hf. rewrite Forall_map in Hf. rewrite Forall_map. eapply Forall_impl; [exact Hf|]. intros y [H|[_ H]]; [by apply blt_irrefl in H|done].
Qed.

Lemma lt_nondecr l : StronglySorted Z.lt l -> forall b, (forall x, x ∈ l -> b <= x) -> Ef.nondecr b l.
Proof.
  induction 1 as [|x l Hs IH Hf]; intros b Hb; [done|]. split; [apply Hb; set_solver|]. apply IH. intros y Hy.
  rewrite Forall_forall in Hf. specialize (Hf y Hy). lia.
Qed.

Lemma flush_ok gs g cur rows :
  cur <> [] -> len cur <= Ef.MaxEntries -> StronglySorted key_lt (with_group (group_of gs g) cur) ->
  Forall tri_ok (with_group (group_of gs g) cur) ->
  exists r, flush gs g (map fst cur) (map snd cur) rows = Ok (rows ++ [r]) /\ is_row (MkChunk (group_of gs g) cur) r.
Proof.
  intros Hne Hlen Hs Hok. set (G := group_of gs g) in *. pose proof (with_group_sorted _ _ Hs) as Hasc.
  unfold with_group in Hok. rewrite Forall_map in Hok.
  assert (Hc : chunk_ok (MkChunk G cur)).
  { split_and!; [done|done|]. eapply Forall_impl; [exact Hok|]. by intros x (? & _). }
  destruct cur as [|[t0 p0] cur]; [done|].
  destruct (Ef.decode_encode t0 (map fst ((t0, p0) :: cur)) (map snd ((t0, p0) :: cur)) (PayloadBits G)) as (v & Ev & Dv).
  - by apply (cfirst_u64 _ Hc).
  - split; [|rewrite Forall_map; eapply Forall_impl; [exact Hok|]; by intros x (? & _)].
    apply lt_nondecr; [done|]. intros x Hx. apply list_elem_of_fmap in Hx as (y & -> & Hy). by apply (cfirst_le _ _ Hc).
  - unfold len in *. by rewrite length_map.
  - apply PayloadBits_range.
  - intros Hb. split; [by rewrite !length_map|]. rewrite Forall_map. eapply Forall_impl; [exact Hok|].
    intros x (_ & Hx0 & Hx). cbn in Hx, Hx0. split; [done|]. by apply Hx.
  - exists (Suffixed G t0, v). split; [|by split_and!]. unfold flush. cbn [map fst snd]. fold G. cbn [map fst snd] in Ev. by rewrite Ev.
Qed.

Lemma flat_app a b : flat (a ++ b) = flat a ++ flat b.
Proof. unfold flat. by rewrite map_app, concat_app. Qed.
Lemma flat_one g l : flat [MkChunk g l] = with_group g l.
Proof. unfold flat. simpl. by rewrite app_nil_r. Qed.
Lemma with_group_app g a b : with_group g (a ++ b) = with_group g a ++ with_group g b.
Proof. apply map_app. Qed.

(** The chunk still open belongs to the group of the entry before. *)
Definition open_of (gs : list bytes) (prev : option nat) (cur : list (Z * Z)) : list tri :=
  match prev with Some g => with_group (group_of gs g) cur | None => [] end.

Definition triple (gs : list bytes) (e : postEnt) : tri := (group_of gs (gid e), etx e, epay e).

(** Two ids with one group are one id: the groups are interned. *)
Definition interned (gs : list bytes) (es : list postEnt) : Prop :=
  NoDup gs /\ Forall (fun e => (gid e < length gs)%nat) es.

Lemma interned_inj gs a b :
  NoDup gs -> (a < length gs)%nat -> (b < length gs)%nat -> group_of gs a = group_of gs b -> a = b.
Proof.
  intros Hn Ha Hb E. unfold group_of in E. destruct (lookup_lt_is_Some_2 gs a Ha) as [x Hx].
  destruct (lookup_lt_is_Some_2 gs b Hb) as [y Hy]. rewrite Hx, Hy in E. cbn in E. subst y. by eapply NoDup_lookup.
Qed.

Lemma tri_ok_lor g t p q : tri_ok (g, t, p) -> tri_ok (g, t, q) -> tri_ok (g, t, Z.lor p q).
Proof.
  intros (Hu & Hp & Hpb) (_ & Hq & Hqb). unfold tri_ok in *. cbn in *. split_and!; [done|by apply Z.lor_nonneg|].
  intros Hb. specialize (Hpb Hb). specialize (Hqb Hb).
  assert (G : forall x, 0 <= x -> x < 2 ^ PayloadBits g -> Z.log2 x < PayloadBits g).
  { intros x Hx Hlt. destruct (decide (x = 0)) as [->|]; [done|]. apply Z.log2_lt_pow2; lia. }
  destruct (decide (Z.lor p q = 0)) as [->|Hz]; [apply Z.pow_pos_nonneg; lia|].
  assert (0 <= Z.lor p q) by (by apply Z.lor_nonneg).
  apply Z.log2_lt_pow2; [lia|]. rewrite Z.log2_lor by done. pose proof (G p Hp Hpb). pose proof (G q Hq Hqb). lia.
Qed.

Lemma merge_ent_tri_ok D e : Forall tri_ok D -> tri_ok e -> Forall tri_ok (merge_ent D e).
Proof.
  intros HD He. unfold merge_ent. destruct (last D) as [[[g t] p]|] eqn:El; [|by apply Forall_app; split; [|constructor]].
  case_match; [|by apply Forall_app; split; [|constructor]]. apply last_Some in El as [D' ->]. rewrite removelast_last.
  apply Forall_app in HD as [HD Hl]. apply Forall_inv in Hl. apply Forall_app; split; [done|]. constructor; [|constructor].
  destruct e as [[g' t'] p']. cbn [fst snd] in *. bool_prop. destruct (beqb_spec g g') as [->|]; [|done]. subst t'.
  by apply tri_ok_lor.
Qed.

Lemma merge_ent_same D g t p q : merge_ent (D ++ [(g, t, p)]) (g, t, q) = D ++ [(g, t, Z.lor p q)].
Proof. unfold merge_ent. rewrite last_snoc. cbn [fst snd]. by rewrite beqb_refl, Z.eqb_refl, removelast_last. Qed.

Lemma merge_ent_new D d e : d.1 <> e.1 -> merge_ent (D ++ [d]) e = (D ++ [d]) ++ [e].
Proof.
  intros Hne. unfold merge_ent. rewrite last_snoc. destruct (beqb_spec d.1.1 e.1.1) as [Hg|]; [|done]. cbn [andb].
  destruct (Z.eqb_spec d.1.2 e.1.2) as [Ht|]; [|done]. destruct d as [[? ?] ?], e as [[? ?] ?]. cbn in *. congruence.
Qed.

(** What the loop has in hand. *)
Definition loop_ok (gs : list bytes) (prev : option nat) (cur : list (Z * Z)) (cs : list chunk) : Prop :=
  match prev with
  | Some g => (g < length gs)%nat /\ cur <> []
  | None => cur = [] /\ cs = []
  end /\ len cur <= Ef.MaxEntries /\ Forall tri_ok (flat cs ++ open_of gs prev cur) /\
  StronglySorted key_lt (flat cs ++ open_of gs prev cur).

Lemma loop_flush gs g cur cs rows :
  loop_ok gs (Some g) cur cs -> Forall2 is_row cs rows ->
  exists rows', flush gs g (map fst cur) (map snd cur) rows = Ok rows' /\
    Forall2 is_row (cs ++ [MkChunk (group_of gs g) cur]) rows' /\
    flat (cs ++ [MkChunk (group_of gs g) cur]) = flat cs ++ open_of gs (Some g) cur.
Proof.
  intros ([_ Hne] & Hlen & Hok & Hs) Hr. apply Forall_app in Hok as [_ Hok]. apply SS_app in Hs as (_ & Hs & _).
  destruct (flush_ok gs g cur rows Hne Hlen Hs Hok) as (r & E & Hrow). exists (rows ++ [r]). split_and!; [done| |].
  - apply Forall2_app; [done|]. by constructor.
  - by rewrite flat_app, flat_one.
Qed.

Lemma chunk_loop_ok gs es : forall prev cur cs rows,
  NoDup gs -> Forall (fun e => (gid e < length gs)%nat) es -> loop_ok gs prev cur cs -> Forall2 is_row cs rows ->
  StronglySorted key_le (map (triple gs) es) -> Forall tri_ok (map (triple gs) es) ->
  (forall d x, d ∈ flat cs ++ open_of gs prev cur -> x ∈ map (triple gs) es -> key_le d x) ->
  exists rows' cs', chunk_loop gs es prev (map fst cur) (map snd cur) rows = Ok rows' /\
    Forall2 is_row cs' rows' /\
    flat cs' = fold_left merge_ent (map (triple gs) es) (flat cs ++ open_of gs prev cur).
Proof.
  induction es as [|e es IH]; intros prev cur cs rows Hnd Hg Hlo Hr Hsort Hok Hle.
  { cbn [chunk_loop map fold_left]. destruct prev as [g|].
    - destruct (loop_flush gs g cur cs rows Hlo Hr) as (rows' & E & Hr' & Hfl). eauto.
    - exists rows, cs. destruct Hlo as ([-> ->] & _). split_and!; try done. }
  apply Forall_cons in Hg as [Hge Hg]. cbn [map] in Hsort, Hok, Hle. apply Forall_cons in Hok as [Hoke Hok].
  cbn [map fold_left]. set (D := flat cs ++ open_of gs prev cur) in *. set (x := triple gs e) in *.
  pose proof Hlo as (Hprev & Hlen & HDok & HDs). fold D in HDok, HDs.
  destruct (merge_ent_ok D x _ HDs Hsort Hle) as (HDs' & Hsort' & Hle').
  pose proof (merge_ent_tri_ok D x HDok Hoke) as HDok'. set (G := group_of gs (gid e)).
  (* continue once the entry is placed *)
  assert (Hnext : forall cur' cs' rows', cur' <> [] -> len cur' <= Ef.MaxEntries ->
    flat cs' ++ with_group G cur' = merge_ent D x -> Forall2 is_row cs' rows' ->
    exists rows'' cs'', chunk_loop gs es (Some (gid e)) (map fst cur') (map snd cur') rows' = Ok rows'' /\
      Forall2 is_row cs'' rows'' /\ flat cs'' = fold_left merge_ent (map (triple gs) es) (merge_ent D x)).
  { intros cur' cs' rows' Hne Hl E Hr'. rewrite <- E in HDs', HDok', Hle' |- *.
    apply (IH (Some (gid e)) cur' cs' rows'); try done. }
  assert (Hone : with_group G [(etx e, epay e)] = [x]) by done.
  cbn [chunk_loop]. destruct prev as [g|].
  - destruct Hprev as [Hgl Hne]. destruct (Nat.eqb_spec g (gid e)) as [->|Hgne]; cbn [rbind].
    + (* the same group *)
      destruct cur as [|[t p] cur _] using rev_ind; [done|]. rewrite !map_app. cbn [map fst snd]. rewrite !last_snoc.
      assert (HD : D = (flat cs ++ with_group G cur) ++ [(G, t, p)]).
      { subst D. cbn [open_of]. by rewrite with_group_app, app_assoc. }
      destruct (Z.eqb_spec t (etx e)) as [->|Htne].
      * rewrite removelast_last. cbn [default from_option id].
        replace (map fst cur ++ [etx e]) with (map fst (cur ++ [(etx e, Z.lor p (epay e))])) by (by rewrite map_app).
        replace (map snd cur ++ [Z.lor p (epay e)]) with (map snd (cur ++ [(etx e, Z.lor p (epay e))]))
          by (by rewrite map_app).
        apply (Hnext _ cs); [by destruct cur|by lens| |done].
        rewrite HD. unfold x, triple. fold G. by rewrite merge_ent_same, with_group_app, app_assoc.
      * assert (Hnew : merge_ent D x = D ++ [x]).
        { rewrite HD. apply merge_ent_new. unfold x, triple. cbn [fst]. congruence. }
        assert (HlenE : len (map fst cur ++ [t]) = len (cur ++ [(t, p)])) by (lens; unfold len; rewrite length_map; lia).
        rewrite HlenE. destruct (Z.eqb_spec (len (cur ++ [(t, p)])) Ef.MaxEntries) as [Hmax|Hmax].
        -- destruct (loop_flush gs (gid e) (cur ++ [(t, p)]) cs rows Hlo Hr) as (rows' & E & Hr' & Hfl).
           rewrite !map_app in E. cbn [map fst snd] in E. rewrite E. cbn [rbind].
           apply (Hnext [(etx e, epay e)] (cs ++ [MkChunk G (cur ++ [(t, p)])])); [done|done| |done].
           fold G in Hfl. by rewrite Hfl, Hone, Hnew.
        -- cbn [rbind].
           replace ((map fst cur ++ [t]) ++ [etx e]) with (map fst ((cur ++ [(t, p)]) ++ [(etx e, epay e)]))
             by (by rewrite !map_app).
           replace ((map snd cur ++ [p]) ++ [epay e]) with (map snd ((cur ++ [(t, p)]) ++ [(etx e, epay e)]))
             by (by rewrite !map_app).
           apply (Hnext ((cur ++ [(t, p)]) ++ [(etx e, epay e)]) cs);
             [by destruct cur|lens; lia| |done].
           rewrite with_group_app, app_assoc, Hone, Hnew. done.
    + (* another group *)
      destruct (loop_flush gs g cur cs rows Hlo Hr) as (rows' & -> & Hr' & Hfl). cbn [rbind last].
      change (len [] =? Ef.MaxEntries) with false. cbn [rbind].
      apply (Hnext [(etx e, epay e)] (cs ++ [MkChunk (group_of gs g) cur])); [done|done| |done].
      rewrite Hfl, Hone. destruct cur as [|[t p] cur _] using rev_ind; [done|].
      assert (HD : D = (flat cs ++ with_group (group_of gs g) cur) ++ [(group_of gs g, t, p)]).
      { subst D. cbn [open_of]. by rewrite with_group_app, app_assoc. }
      fold D. rewrite HD, merge_ent_new; [done|]. unfold x, triple. cbn [fst]. intros [= Heq _].
      apply Hgne. by apply (interned_inj gs).
  - destruct Hprev as [-> ->]. cbn [rbind map last]. change (len [] =? Ef.MaxEntries) with false. cbn [rbind].
    by apply (Hnext [(etx e, epay e)] []).
Qed.

(** ** The set holds the postings it was given *)

Definition tri_of (p : posting) : tri := (group p, ptx p, payload p).

Definition ps_ok (p : postSet) (posts : list posting) : Prop :=
  NoDup (groups p) /\ (forall g i, ids p !! g = Some i <-> groups p !! i = Some g) /\
  Forall (fun e => (gid e < length (groups p))%nat) (ents p) /\
  map (triple (groups p)) (ents p) = map tri_of posts.

Lemma triple_grow gs x e : (gid e < length gs)%nat -> triple (gs ++ x) e = triple gs e.
Proof. intros Hg. unfold triple, group_of. by rewrite lookup_app_l. Qed.

Lemma ps_add_ok p posts x :
  ps_ok p posts -> ps_ok (ps_add p (group x) (ptx x) (payload x)) (posts ++ [x]).
Proof.
  intros (Hn & Hi & Hg & Ht). unfold ps_add. destruct (ids p !! group x) as [id|] eqn:Eid.
  - pose proof (proj1 (Hi _ _) Eid) as Eg. pose proof (lookup_lt_Some _ _ _ Eg).
    split_and!; try done; cbn [groups ids ents].
    + apply Forall_app; split; [done|]. by constructor.
    + rewrite !map_app, Ht. cbn [map]. unfold triple, group_of, tri_of. cbn. by rewrite Eg.
  - assert (Hnew : group x ∉ groups p).
    { intros Hin. apply list_elem_of_lookup in Hin as [i E]. apply Hi in E. congruence. }
    split_and!; cbn [groups ids ents].
    + apply NoDup_app. split_and!; [done|set_solver|apply NoDup_singleton].
    + intros g i. destruct (decide (g = group x)) as [->|Hne].
      * rewrite lookup_insert_eq. split; [intros [= <-]; by rewrite list_lookup_middle|].
        intros E. f_equal. destruct (decide (i < length (groups p))%nat).
        -- rewrite lookup_app_l in E by done. apply Hi in E. congruence.
        -- apply lookup_lt_Some in E. rewrite length_app in E. simpl in E. lia.
      * rewrite lookup_insert_ne by done. rewrite Hi. split; intros E.
        -- rewrite lookup_app_l; [done|]. by eapply lookup_lt_Some.
        -- apply lookup_app_Some in E as [|[_ E]]; [done|]. apply list_lookup_singleton_Some in E as [_ E]. congruence.
    + apply Forall_app; split; [|constructor; [|constructor]]; rewrite length_app; cbn; [|lia].
      eapply Forall_impl; [exact Hg|]. simpl. lia.
    + rewrite !map_app, <- Ht. f_equal.
      * apply map_ext_in. intros e He. apply triple_grow. rewrite Forall_forall in Hg. apply Hg. by apply list_elem_of_In.
      * cbn [map]. unfold triple, group_of, tri_of. cbn. by rewrite list_lookup_middle.
Qed.

Definition ps_of (posts : list posting) : postSet :=
  fold_left (fun p x => ps_add p (group x) (ptx x) (payload x)) posts ps_empty.

Lemma ps_of_ok posts : ps_ok (ps_of posts) posts.
Proof.
  unfold ps_of. assert (G : forall l p done_, ps_ok p done_ ->
    ps_ok (fold_left (fun p x => ps_add p (group x) (ptx x) (payload x)) l p) (done_ ++ l)).
  { induction l as [|x l IH]; intros p dn Hp; cbn [fold_left]; [by rewrite app_nil_r|].
    rewrite (cons_middle x), app_assoc. apply IH. by apply ps_add_ok. }
  apply (G posts ps_empty []). split_and!; [constructor| |constructor|done]. intros g i. cbn [ps_empty ids groups]. rewrite lookup_empty. by split.
Qed.

(** ** The rank of a group is its place in key order *)

Lemma rank_lookup gs id : (id < length gs)%nat -> order_of gs !! rank_of gs id = Some id.
Proof.
  intros Hid. unfold rank_of. destruct (list_find (eq id) (order_of gs)) as [[r x]|] eqn:E.
  - apply list_find_Some in E as (E & -> & _). done.
  - apply list_find_None in E. rewrite Forall_forall in E. exfalso. apply (E id); [|done].
    unfold order_of. rewrite merge_sort_Permutation. apply elem_of_seq. lia.
Qed.

Lemma rank_lt gs a b :
  NoDup gs -> (a < length gs)%nat -> (b < length gs)%nat -> (rank_of gs a < rank_of gs b)%nat ->
  blt (group_of gs a) (group_of gs b).
Proof.
  intros Hn Ha Hb Hlt. pose proof (rank_lookup gs a Ha) as Ea. pose proof (rank_lookup gs b Hb) as Eb.
  assert (Hs : StronglySorted (id_le gs) (order_of gs)).
  { apply StronglySorted_merge_sort; [|apply _]. intros x y z. unfold id_le. apply ble_trans. }
  rewrite <- (take_drop (S (rank_of gs a)) (order_of gs)) in Hs. apply SS_app in Hs as (_ & _ & Hs).
  assert (Hle : id_le gs a b).
  { apply Hs; apply list_elem_of_lookup.
    - exists (rank_of gs a). by rewrite lookup_take_lt by lia.
    - exists (rank_of gs b - S (rank_of gs a))%nat. rewrite lookup_drop.
      by replace (S (rank_of gs a) + (rank_of gs b - S (rank_of gs a)))%nat with (rank_of gs b) by lia. }
  apply ble_lteq in Hle as [|Heq]; [done|]. apply (interned_inj gs) in Heq; [|done..]. subst b. lia.
Qed.

Lemma ent_le_key gs a b :
  NoDup gs -> (gid a < length gs)%nat -> (gid b < length gs)%nat -> ent_le gs a b ->
  key_le (triple gs a) (triple gs b).
Proof.
  intros Hn Ha Hb. unfold ent_le. cbv zeta. destruct (Nat.eqb_spec (rank_of gs (gid a)) (rank_of gs (gid b))) as [E|E]; intros Hle.
  - assert (gid a = gid b) as Hg.
    { pose proof (rank_lookup gs _ Ha) as Ea. pose proof (rank_lookup gs _ Hb) as Eb. rewrite E in Ea. congruence. }
    unfold key_le, key_lt, triple. cbn [fst snd]. rewrite Hg. destruct (decide (etx a = etx b)) as [->|]; [by right|].
    left. right. split; [done|lia].
  - left. left. by apply rank_lt.
Qed.

Lemma sorted_triples gs es :
  NoDup gs -> Forall (fun e => (gid e < length gs)%nat) es ->
  StronglySorted key_le (map (triple gs) (merge_sort (ent_le gs) es)).
Proof.
  intros Hn Hg. pose proof (merge_sort_Permutation (ent_le gs) es) as Hp. rewrite <- Hp in Hg.
  assert (Hs : StronglySorted (ent_le gs) (merge_sort (ent_le gs) es)) by (apply StronglySorted_merge_sort; apply _).
  revert Hg Hs. generalize (merge_sort (ent_le gs) es). clear -Hn. induction l as [|e l IH]; intros Hg Hs; [constructor|].
  apply Forall_cons in Hg as [He Hg]. apply StronglySorted_inv in Hs as [Hs Hf]. cbn [map]. constructor; [auto|].
  rewrite Forall_map. rewrite Forall_forall in *. intros x Hx. apply ent_le_key; auto.
Qed.

(** ** What the merged list means *)

Definition at_key (g : bytes) (t : Z) (x : tri) : bool := beqb g x.1.1 && (t =? x.1.2).

(** All payloads posted at a (group, TxNum), OR-ed. *)
Fixpoint ors (g : bytes) (t : Z) (X : list tri) : Z :=
  match X with [] => 0 | x :: X => if at_key g t x then Z.lor x.2 (ors g t X) else ors g t X end.

Lemma at_key_spec g t x : reflect (x.1 = (g, t)) (at_key g t x).
Proof.
  unfold at_key. destruct x as [[g' t'] p]. cbn [fst snd].
  destruct (beqb_spec g g') as [->|]; cbn [andb]; [destruct (Z.eqb_spec t t') as [->|]|]; constructor; congruence.
Qed.

Lemma ors_app g t X Y : ors g t (X ++ Y) = Z.lor (ors g t X) (ors g t Y).
Proof.
  induction X as [|x X IH]; cbn [app ors]; [by rewrite Z.lor_0_l|]. rewrite IH. case_match; [by rewrite Z.lor_assoc|done].
Qed.

Lemma ors_perm g t X Y : X ≡ₚ Y -> ors g t X = ors g t Y.
Proof.
  induction 1 as [|x X Y _ IH|x y X|X Y W _ IH1 _ IH2]; cbn [ors]; [done|by rewrite IH| |congruence].
  destruct (at_key g t x), (at_key g t y); try done. by rewrite !Z.lor_assoc, (Z.lor_comm x.2 y.2).
Qed.

Lemma ors_absent g t X : (forall p, (g, t, p) ∉ X) -> ors g t X = 0.
Proof.
  induction X as [|[k p] X IH]; intros Hn; [done|]. cbn [ors]. destruct (at_key_spec g t (k, p)) as [E|_].
  - cbn in E. subst k. exfalso. apply (Hn p). set_solver.
  - apply IH. intros q Hq. apply (Hn q). set_solver.
Qed.

(** [D] is the strictly sorted summary of the entries [X]. *)
Definition summary (D X : list tri) : Prop :=
  StronglySorted key_lt D /\
  forall g t p, (g, t, p) ∈ D <-> (exists q, (g, t, q) ∈ X) /\ p = ors g t X.

Lemma summary_nil : summary [] [].
Proof. split; [constructor|]. intros g t p. split; [set_solver|intros [[q Hq] _]; set_solver]. Qed.

Lemma summary_step D X e :
  summary D X -> (forall d, d ∈ D -> key_le d e) -> StronglySorted key_lt (merge_ent D e) ->
  summary (merge_ent D e) (X ++ [e]).
Proof.
  intros [HD HX] Hle Hs. split; [done|]. intros g t p. rewrite ors_app. cbn [ors]. rewrite Z.lor_0_r.
  destruct e as [[ge te] pe].
  assert (Hcase : (exists D' q, D = D' ++ [(ge, te, q)] /\ merge_ent D (ge, te, pe) = D' ++ [(ge, te, Z.lor q pe)]) \/
    merge_ent D (ge, te, pe) = D ++ [(ge, te, pe)]).
  { unfold merge_ent. destruct (last D) as [[[g0 t0] q]|] eqn:El; [|by right]. cbn [fst snd].
    destruct (beqb_spec g0 ge) as [->|]; cbn [andb]; [|by right]. destruct (Z.eqb_spec t0 te) as [->|]; [|by right].
    apply last_Some in El as [D' ->]. left. exists D', q. by rewrite removelast_last. }
  destruct (at_key_spec g t (ge, te, pe)) as [[= <- <-]|Hne].
  - (* the entry's own key *)
    assert (Hocc : exists q, (ge, te, q) ∈ X ++ [(ge, te, pe)]) by (exists pe; set_solver).
    destruct Hcase as [(D' & q & -> & HM)|HM]; rewrite HM in *.
    + destruct (proj1 (HX ge te q)) as [_ ->]; [set_solver|]. cbn [snd]. split; [|intros [_ ->]; set_solver].
      intros [Hin|Hin%list_elem_of_singleton]%elem_of_app; [|by simplify_eq].
      exfalso. apply SS_app in Hs as (_ & _ & Hlt). specialize (Hlt _ _ Hin (list_elem_of_here _ _)).
      destruct Hlt as [H|[_ H]]; cbn in H; [by apply blt_irrefl in H|lia].
    + apply SS_app in Hs as (_ & _ & Hlt).
      assert (Hno : forall q, (ge, te, q) ∉ D).
      { intros q Hin. specialize (Hlt _ _ Hin (list_elem_of_here _ _)).
        destruct Hlt as [H|[_ H]]; cbn in H; [by apply blt_irrefl in H|lia]. }
      rewrite (ors_absent ge te X).
      2: { intros q Hin. apply (Hno (ors ge te X)). apply HX. eauto. }
      cbn [snd]. rewrite Z.lor_0_l. split; [|intros [_ ->]; set_solver].
      intros [Hin|Hin%list_elem_of_singleton]%elem_of_app; [by apply Hno in Hin|]. by simplify_eq.
  - (* another key *)
    cbn [fst] in Hne. rewrite Z.lor_0_r. transitivity ((g, t, p) ∈ D).
    + destruct Hcase as [(D' & q & -> & HM)|HM]; rewrite HM; rewrite !elem_of_app, !list_elem_of_singleton.
      * split; (intros [|E]; [by left|]); exfalso; apply Hne; congruence.
      * split; [intros [|E]; [done|]; exfalso; apply Hne; congruence|by left].
    + rewrite HX. split; intros [[q Hq] ->]; (split; [|done]).
      * exists q. set_solver.
      * apply elem_of_app in Hq as [Hq|Hq%list_elem_of_singleton]; [eauto|]. exfalso. apply Hne. congruence.
Qed.

Lemma summary_fold E : forall D X,
  summary D X -> StronglySorted key_le E -> (forall d x, d ∈ D -> x ∈ E -> key_le d x) ->
  summary (fold_left merge_ent E D) (X ++ E).
Proof.
  induction E as [|e E IH]; intros D X HD HE Hle; cbn [fold_left]; [by rewrite app_nil_r|].
  destruct (merge_ent_ok D e E (proj1 HD) HE Hle) as (Hs & HE' & Hle').
  rewrite (cons_middle e), app_assoc. apply IH; try done. apply summary_step; try done. set_solver.
Qed.

Definition posts_ok (posts : list posting) : Prop := Forall (fun x => tri_ok (tri_of x)) posts.

(** The chunks of a set: encoded rows, cut out of the summary of its entries. *)
Lemma chunks_ok posts :
  posts_ok posts ->
  exists rows cs, chunks (ps_of posts) = Ok rows /\ Forall2 is_row cs rows /\
    summary (flat cs) (map tri_of posts).
Proof.
  intros Hok. destruct (ps_of_ok posts) as (Hn & _ & Hg & Ht). unfold chunks.
  set (p := ps_of posts) in *. set (es := merge_sort (ent_le (groups p)) (ents p)).
  pose proof (merge_sort_Permutation (ent_le (groups p)) (ents p)) as Hperm. fold es in Hperm.
  pose proof (sorted_triples (groups p) (ents p) Hn Hg) as Hsort. fold es in Hsort.
  assert (Hp : map (triple (groups p)) es ≡ₚ map tri_of posts) by (rewrite <- Ht; by apply Permutation_map).
  destruct (chunk_loop_ok (groups p) es None [] [] []) as (rows & cs & E & Hr & Hfl); try done.
  - by rewrite Hperm.
  - split_and!; try done; constructor.
  - rewrite Hp. by rewrite Forall_map.
  - cbn. set_solver.
  - exists rows, cs. split_and!; try done.
    destruct (summary_fold (map (triple (groups p)) es) [] [] summary_nil Hsort) as [Hs HX]; [set_solver|].
    cbn [app flat map concat open_of] in *. rewrite Hfl. split; [done|]. intros g t q. rewrite HX, (ors_perm g t _ _ Hp).
    by setoid_rewrite Hp.
Qed.

(** ** The posting families' keys *)

(** Tag, length of the first component, length of what follows its slash. *)
Definition pfam : list (bytes * Z * Z) :=
  [(PrefixAddr, 20, 0); (PrefixELog, 20, 33); (PrefixTVal, 32, 33); (PrefixSig, 32, 0)].

Definition fam_key (f : bytes * Z * Z) (a r : bytes) : bytes := f.1.1 ++ a ++ slash :: r.

(** The group keys the store posts under. *)
Definition posting_group (g : bytes) : Prop :=
  exists f a r, f ∈ pfam /\ g = fam_key f a r /\ len a = f.1.2 /\ len r = f.2.

(** The prefixes a scan is asked for: a family, a first component, or a group. *)
Definition scan_prefix (p : bytes) : Prop :=
  exists f, f ∈ pfam /\ (p = f.1.1 \/ exists a r, p = fam_key f a r /\ len a = f.1.2 /\ (r = [] \/ len r = f.2)).

Lemma posting_group_store :
  (forall a, len a = 20 -> posting_group (AddrPrefix a)) /\
  (forall e t, len e = 20 -> len t = 32 -> posting_group (ELogGroup e t)) /\
  (forall v t, len v = 32 -> len t = 32 -> posting_group (TValGroup v t)) /\
  (forall t, len t = 32 -> posting_group (SigGroup t)).
Proof.
  split_and!; intros; unfold AddrPrefix, ELogGroup, TValGroup, SigGroup; rewrite ?join2, join1, <- ?app_assoc.
  - exists (PrefixAddr, 20, 0), a, []. split_and!; [set_solver|done..].
  - exists (PrefixELog, 20, 33), e, (t ++ [slash]). split_and!; [set_solver|done|done|cbn; lens; lia].
  - exists (PrefixTVal, 32, 33), v, (t ++ [slash]). split_and!; [set_solver|done|done|cbn; lens; lia].
  - exists (PrefixSig, 32, 0), t, []. split_and!; [set_solver|done..].
Qed.

Ltac pfam_cases H :=
  unfold pfam in H; repeat (apply elem_of_cons in H as [->|H]); [..|by apply not_elem_of_nil in H].

(** One byte tells the families apart. *)
Lemma fam_eq f f' x y : f ∈ pfam -> f' ∈ pfam -> f.1.1 ++ x = f'.1.1 ++ y -> f = f' /\ x = y.
Proof.
  intros Hf Hf'. pfam_cases Hf; pfam_cases Hf'; intros E; try done; by apply app_inv_head in E.
Qed.

Lemma group_blt g g' n m :
  posting_group g -> posting_group g' -> blt g g' -> blt (Suffixed g n) (Suffixed g' m).
Proof.
  intros (f & a & r & Hf & -> & Ha & Hr) (f' & a' & r' & Hf' & -> & Ha' & Hr') Hlt.
  assert (Hne : fam_key f a r <> fam_key f' a' r') by (by apply blt_ne).
  destruct (decide (f = f')) as [<-|Hff].
  - unfold blt, Suffixed. rewrite bcmp_app_len; [done| |done].
    unfold fam_key. rewrite !length_app. cbn [length]. unfold len in *. lia.
  - clear Ha Hr Ha' Hr' Hne. revert Hlt Hff. unfold blt, Suffixed, fam_key. pfam_cases Hf; pfam_cases Hf'; done.
Qed.

(** The prefix ends inside the group, never in its TxNum. *)
Lemma prefix_in_group p g n :
  scan_prefix p -> posting_group g -> has_prefix (Suffixed g n) p = has_prefix g p.
Proof.
  intros (f & Hf & Hp) (f' & a' & r' & Hf' & -> & Ha' & Hr').
  destruct (has_prefix (Suffixed (fam_key f' a' r') n) p) eqn:E; symmetry.
  - apply has_prefix_spec in E as [s E]. unfold Suffixed in E.
    assert (Hlen : len p <= len (fam_key f' a' r')).
    { assert (f' = f) as ->.
      { destruct Hp as [->|(a & r & -> & _)]; unfold fam_key in E; rewrite <- ?app_assoc in E; by apply fam_eq in E as [-> _]. }
      unfold fam_key. destruct Hp as [->|(a & r & -> & Ha & Hr)]; unfold fam_key; lens; pose proof (len_nonneg a');
        pose proof (len_nonneg r'); [lia|]. destruct Hr as [->|Hr]; lens; lia. }
    apply has_prefix_spec. exists (drop (length p) (fam_key f' a' r')).
    rewrite <- (take_drop (length p) (fam_key f' a' r')) at 1. f_equal.
    apply (f_equal (take (length p))) in E. rewrite take_app_length, take_app_le in E; [done|]. unfold len in Hlen. lia.
  - destruct (has_prefix (fam_key f' a' r') p) eqn:E'; [|done]. apply has_prefix_spec in E' as [s E'].
    unfold Suffixed in E. rewrite E', <- app_assoc, has_prefix_app in E. done.
Qed.

(** The filter is asked about the first component, which the group shares. *)
Lemma bloom_fam f a r n :
  f ∈ pfam -> len a = f.1.2 -> (r = [] \/ len r = f.2) ->
  bloom_key (Suffixed (fam_key f a r) n) = fam_key f a [].
Proof.
  intros Hf Ha Hr. unfold Suffixed.
  assert (E : fam_key f a r ++ bigE 8 n = join f.1.1 [a] ++ (r ++ bigE 8 n)).
  { rewrite join1. unfold fam_key. by rewrite <- !app_assoc. }
  rewrite E. assert (Hj : fam_key f a [] = join f.1.1 [a]) by (by rewrite join1). rewrite Hj.
  apply bloom_key_app. rewrite len_join1. pose proof (len_nonneg r).
  pfam_cases Hf; cbn [fst snd] in *; rewrite Ha.
  - apply (split_join1 (PrefixAddr, 26)); [set_solver|by rewrite Ha|done|lens; lia].
  - apply (split_join1 (PrefixELog, 26)); [set_solver|by rewrite Ha|done|lens; lia].
  - apply (split_join1 (PrefixTVal, 38)); [set_solver|by rewrite Ha|done|lens; lia].
  - apply (split_join1 (PrefixSig, 37)); [set_solver|by rewrite Ha|done|lens; lia].
Qed.

Lemma bloom_shared p g n :
  scan_prefix p -> posting_group g -> has_prefix g p = true -> bloomGated p = true ->
  bloom_key (Suffixed g n) = bloom_key (Suffixed p 0).
Proof.
  intros (f & Hf & Hp) (f' & a' & r' & Hf' & -> & Ha' & Hr') Hpre Hg.
  destruct Hp as [->|(a & r & -> & Ha & Hr)].
  { exfalso. revert Hg. clear -Hf. unfold bloomGated. pfam_cases Hf; vm_compute; done. }
  rewrite !bloom_fam by auto. apply has_prefix_spec in Hpre as [s E].
  unfold fam_key in E |- *. rewrite <- !app_assoc in E. apply fam_eq in E as [-> E]; [|done..].
  apply app_inj_1 in E as [-> _]; [done|]. unfold len in *. lia.
Qed.

(** ** The chunk rows in key order *)

Lemma flatc_first c : chunk_ok c -> exists p, (cg c, cfirst c, p) ∈ flatc c.
Proof.
  intros (Hne & _). unfold flatc, with_group, cfirst. destruct (cents c) as [|[t p] l]; [done|]. exists p. set_solver.
Qed.

Lemma flat_in c cs x : c ∈ cs -> x ∈ flatc c -> x ∈ flat cs.
Proof. unfold flat. intros Hc Hx. apply list_elem_of_In, in_concat. exists (flatc c). split; apply list_elem_of_In; [by apply list_elem_of_fmap_2|done]. Qed.

(** Of two chunks the first one's entries all come first. *)
Lemma flat_before a cs c x :
  StronglySorted key_lt (flat (a :: cs)) -> chunk_ok c -> c ∈ cs -> x ∈ cents a ->
  blt (cg a) (cg c) \/ cg a = cg c /\ x.1 < cfirst c.
Proof.
  intros Hs Hc Hin Hx. change (flat (a :: cs)) with (flatc a ++ flat cs) in Hs. apply SS_app in Hs as (_ & _ & Hlt).
  destruct (flatc_first c Hc) as [p Hp]. specialize (Hlt (cg a, x.1, x.2) (cg c, cfirst c, p)).
  apply Hlt; [|by eapply flat_in]. unfold flatc, with_group. by apply (list_elem_of_fmap_2 (fun x => (cg a, x.1, x.2))).
Qed.

Lemma flat_follows cs : StronglySorted key_lt (flat cs) -> Forall chunk_ok cs -> Sorted follows cs.
Proof.
  induction cs as [|a cs IH]; intros Hs Hok; [constructor|]. pose proof Hs as Hs0.
  change (flat (a :: cs)) with (flatc a ++ flat cs) in Hs. apply SS_app in Hs as (_ & Hs & _).
  apply Forall_cons in Hok as [_ Hok]. constructor; [auto|]. destruct cs as [|c cs]; constructor.
  intros Hg. apply Forall_forall. intros x Hx. apply Forall_cons in Hok as [Hc _].
  destruct (flat_before a _ c x Hs0 Hc ltac:(set_solver) Hx) as [H|[_ H]]; [|done]. rewrite Hg in H. by apply blt_irrefl in H.
Qed.

Lemma rows_sorted cs rows :
  Forall2 is_row cs rows -> StronglySorted key_lt (flat cs) -> Forall (fun c => posting_group (cg c)) cs -> sorted_rows rows.
Proof.
  induction 1 as [|a r cs rows Hr Hrs IH]; intros Hs Hg; [constructor|]. pose proof Hs as Hs0.
  change (flat (a :: cs)) with (flatc a ++ flat cs) in Hs. apply SS_app in Hs as (_ & Hs & _).
  apply Forall_cons in Hg as [Hga Hg]. apply sorted_cons. split; [auto|]. apply Forall_forall. intros y Hy.
  apply list_elem_of_lookup in Hy as [i Hi]. destruct (Forall2_lookup_r _ _ _ _ _ Hrs Hi) as (c & Hc & Hcr).
  apply list_elem_of_lookup_2 in Hc. destruct Hr as (Hoka & -> & _), Hcr as (Hokc & -> & _).
  destruct (cents a) as [|x l] eqn:Ea; [by destruct Hoka as (? & _)|].
  assert (Hx : x ∈ cents a) by (rewrite Ea; set_solver).
  assert (Hfx : cfirst a = x.1) by (unfold cfirst; by rewrite Ea).
  destruct (flat_before a cs c x Hs0 Hokc Hc Hx) as [H|[H H']].
  - rewrite Forall_forall in Hg. apply group_blt; auto.
  - unfold blt. rewrite H, bcmp_Suffixed by (by apply cfirst_u64). apply Z.compare_lt_iff. lia.
Qed.

(** The chunks under a prefix. *)
Lemma filter_rows cs rows p :
  Forall2 is_row cs rows -> Forall (fun c => posting_group (cg c)) cs -> scan_prefix p ->
  Forall2 is_row (List.filter (fun c => has_prefix (cg c) p) cs) (List.filter (fun x => has_prefix x.1 p) rows).
Proof.
  intros Hr Hg Hp. induction Hr as [|c r cs rows Hc Hr IH]; [constructor|]. apply Forall_cons in Hg as [Hgc Hg].
  cbn [List.filter]. pose proof Hc as (_ & Hk & _). rewrite Hk, prefix_in_group by done.
  destruct (has_prefix (cg c) p); [constructor; auto|auto].
Qed.

Lemma flat_filter p cs :
  flat (List.filter (fun c => has_prefix (cg c) p) cs) = List.filter (fun x => has_prefix x.1.1 p) (flat cs).
Proof.
  induction cs as [|c cs IH]; [done|]. change (flat (c :: cs)) with (flatc c ++ flat cs). rewrite List.filter_app, <- IH.
  cbn [List.filter].
  assert (Hc : List.filter (fun x : tri => has_prefix x.1.1 p) (flatc c) = if has_prefix (cg c) p then flatc c else []).
  { unfold flatc, with_group. induction (cents c) as [|x l IHl]; [by destruct (has_prefix (cg c) p)|].
    cbn [map List.filter fst]. rewrite IHl. by destruct (has_prefix (cg c) p). }
  rewrite Hc. by destruct (has_prefix (cg c) p).
Qed.

Lemma cout_flat lo hi cs :
  concat (map (cout lo hi) cs) = List.filter (in_txs lo hi) (map (fun x : tri => shown x.1.1 (x.1.2, x.2)) (flat cs)).
Proof.
  induction cs as [|c cs IH]; [done|]. change (flat (c :: cs)) with (flatc c ++ flat cs).
  cbn [map concat]. rewrite map_app, List.filter_app, <- IH. f_equal. unfold cout, flatc, with_group. rewrite map_map.
  done.
Qed.

(** A lookup section: the posting rows, and rows of other families. *)
Definition lookup_section (L rows : list row) : Prop :=
  sorted_rows L /\ (forall x, x ∈ rows -> x ∈ L) /\
  forall x, x ∈ L -> x ∈ rows \/ Forall (fun f => has_prefix x.1 f.1.1 = false) pfam.

Lemma section_filter L rows p :
  lookup_section L rows -> sorted_rows rows -> scan_prefix p ->
  List.filter (fun x => has_prefix x.1 p) L = List.filter (fun x => has_prefix x.1 p) rows.
Proof.
  intros (Hs & Hin & Hout) Hsr (f & Hf & Hp). apply sorted_ext; [by apply sorted_filter..|].
  assert (Htag : forall k, has_prefix k p = true -> has_prefix k f.1.1 = true).
  { intros k Hk. apply has_prefix_spec in Hk as [s ->]. destruct Hp as [->|(a & r & -> & _)]; [apply has_prefix_app|].
    unfold fam_key. rewrite <- app_assoc. apply has_prefix_app. }
  assert (Hmem : forall x, x ∈ List.filter (fun x => has_prefix x.1 p) L <-> x ∈ List.filter (fun x => has_prefix x.1 p) rows).
  { intros x. rewrite !list_elem_of_In, !filter_In, <- !list_elem_of_In. split; intros [Hx Hk]; (split; [|done]); [|auto].
    destruct (Hout x Hx) as [|Hno]; [done|]. rewrite Forall_forall in Hno. specialize (Hno f Hf). by rewrite Htag in Hno. }
  intros k. destruct (aget (List.filter _ L) k) as [v|] eqn:E.
  - apply aget_elem, Hmem in E. symmetry. apply sorted_aget; [by apply sorted_filter|done].
  - destruct (aget (List.filter _ rows) k) as [v|] eqn:E'; [|done]. apply aget_elem, Hmem in E'.
    rewrite (sorted_aget _ k v) in E; [done|by apply sorted_filter|done].
Qed.

(** Group, then TxNum, of postings. *)
Definition post_lt (a b : posting) : Prop := blt (group a) (group b) \/ group a = group b /\ ptx a < ptx b.

Lemma flat_groups posts cs :
  summary (flat cs) (map tri_of posts) -> Forall chunk_ok cs -> Forall (fun x => posting_group (group x)) posts ->
  Forall (fun c => posting_group (cg c)) cs.
Proof.
  intros [_ HX] Hok Hg. apply Forall_forall. intros c Hc. rewrite Forall_forall in Hok. rewrite Forall_forall in Hg.
  destruct (flatc_first c (Hok c Hc)) as [p Hp]. apply (flat_in c cs) in Hp; [|done].
  apply HX in Hp as [[q Hq] _]. apply list_elem_of_fmap in Hq as (x & E & Hx). injection E as -> _ _. auto.
Qed.

Section Postings_ok.
Context `{SSTLaws}.
Import RunFile.

(** The round trip, shared with the sealed window. *)
Lemma scan_postings posts fuel r R p lo hi rows :
  posts_ok posts -> Forall (fun x => posting_group (group x)) posts -> scan_prefix p ->
  chunks (ps_of posts) = Ok rows -> run_holds r R -> lookup_section (R SecLookup) rows ->
  (length (R SecLookup) <= fuel)%nat ->
  exists out, ScanChunks fuel r p lo hi = Ok out /\ StronglySorted post_lt out /\
    forall g t q, MkPosting g t q ∈ out <->
      has_prefix g p = true /\ lo <= t <= hi /\ (exists x, x ∈ posts /\ group x = g /\ ptx x = t) /\
      q = if 0 <? PayloadBits g then ors g t (map tri_of posts) else 0.
Proof.
  intros Hok Hg Hp Hrows Hr HL Hf. destruct (chunks_ok posts Hok) as (rows' & cs & E & Hrow & HX).
  rewrite Hrows in E. injection E as <-. pose proof HX as [Hs Hmem].
  assert (Hcok : Forall chunk_ok cs).
  { clear -Hrow. induction Hrow as [|c r cs rows (? & _) _ IH]; constructor; done. }
  pose proof (flat_groups posts cs HX Hcok Hg) as Hcg. pose proof (rows_sorted cs rows Hrow Hs Hcg) as Hrs.
  set (cs' := List.filter (fun c => has_prefix (cg c) p) cs).
  assert (Hsub : StronglySorted key_lt (flat cs')).
  { subst cs'. rewrite flat_filter. clear -Hs. induction Hs as [|x l Hl IH Hf]; [constructor|]. cbn [List.filter].
    case_match; [|done]. constructor; [done|]. rewrite Forall_forall in *. intros y Hy.
    apply list_elem_of_In, filter_In in Hy as [Hy _]. apply Hf. by apply list_elem_of_In. }
  assert (Hok' : Forall chunk_ok cs' /\ Forall (fun c => has_prefix (cg c) p = true) cs').
  { subst cs'. rewrite !Forall_forall in *. split; intros c Hc; apply list_elem_of_In, filter_In in Hc as [Hc Hcp];
      [apply Hcok; by apply list_elem_of_In|done]. }
  destruct Hok' as [Hok' Hp'].
  rewrite (ScanChunks_ok fuel r R p lo hi cs'); try done.
  - eexists. split; [done|]. rewrite cout_flat. split.
    + clear -Hsub. induction Hsub as [|x l Hl IH Hf]; [constructor|]. cbn [map List.filter]. case_match; [|done].
      constructor; [done|]. rewrite Forall_forall in Hf. apply Forall_forall. intros y Hy.
      apply list_elem_of_In, filter_In in Hy as [Hy _]. apply in_map_iff in Hy as (z & <- & Hz). apply list_elem_of_In in Hz. exact (Hf z Hz).
    + intros g t q. rewrite list_elem_of_In, filter_In, <- list_elem_of_In. unfold in_txs. cbn [ptx].
      rewrite andb_true_iff, !Z.leb_le. split.
      * intros [Hin Hb]. apply list_elem_of_fmap in Hin as ([[g' t'] q'] & [= -> -> ->] & Hin). cbn [fst snd] in *.
        unfold cs' in Hin. rewrite flat_filter in Hin. apply list_elem_of_In, filter_In in Hin as [Hin Hgp].
        apply list_elem_of_In, Hmem in Hin as [[q'' Hq] ->]. apply list_elem_of_fmap in Hq as (x & [= -> -> _] & Hx). eauto 10.
      * intros (Hgp & Hb & (x & Hx & <- & <-) & ->). split; [|done].
        assert (Hin : (group x, ptx x, ors (group x) (ptx x) (map tri_of posts)) ∈ flat cs').
        { unfold cs'. rewrite flat_filter. apply list_elem_of_In, filter_In. split; [|done]. apply list_elem_of_In, Hmem.
          split; [|done]. exists (payload x). by apply (list_elem_of_fmap_2 tri_of). }
        by apply (list_elem_of_fmap_2 (fun x : tri => shown x.1.1 (x.1.2, x.2))) in Hin.
  - intros Hgate k Hk Hkp. apply list_elem_of_fmap in Hk as ([k' v] & -> & Hk). cbn [fst] in *.
    assert (Hin : (k', v) ∈ List.filter (fun x => has_prefix x.1 p) rows).
    { rewrite <- (section_filter _ rows p HL Hrs Hp). apply list_elem_of_In, filter_In. by rewrite <- list_elem_of_In. }
    apply list_elem_of_In, filter_In in Hin as [Hin _]. apply list_elem_of_In, list_elem_of_lookup in Hin as [i Hi].
    destruct (Forall2_lookup_r _ _ _ _ _ Hrow Hi) as (c & Hc & (_ & Hck & _)). cbn [fst] in Hck. subst k'.
    apply list_elem_of_lookup_2 in Hc. rewrite Forall_forall in Hcg. specialize (Hcg c Hc).
    apply bloom_shared; try done. by rewrite prefix_in_group in Hkp.
  - rewrite (section_filter _ rows p HL Hrs Hp). by apply filter_rows.
  - by apply flat_follows.
Qed.

(** C18: postings round trip. Whatever entries a window collected, in any order,
    their chunks encode; and on a run whose lookup section holds those chunk
    rows beside rows of other families, scanning any family, first component or
    group prefix over any TxNum range returns, in group and TxNum order and
    without repeats, exactly the (group, TxNum) pairs that were posted under the
    prefix and lie in the range, each with the OR of all payloads posted there
    (0 for families that carry none). Chunk cuts, skipped chunks and the bloom
    gate lose nothing. *)
Theorem postings_roundtrip posts fuel r R p lo hi rows :
  posts_ok posts -> Forall (fun x => posting_group (group x)) posts -> scan_prefix p ->
  chunks (ps_of posts) = Ok rows -> run_holds r R -> lookup_section (R SecLookup) rows ->
  (length (R SecLookup) <= fuel)%nat ->
  exists out, ScanChunks fuel r p lo hi = Ok out /\ StronglySorted post_lt out /\
    forall g t q, MkPosting g t q ∈ out <->
      has_prefix g p = true /\ lo <= t <= hi /\ (exists x, x ∈ posts /\ group x = g /\ ptx x = t) /\
      q = if 0 <? PayloadBits g then ors g t (map tri_of posts) else 0.
Proof. apply scan_postings. Qed.

End Postings_ok.

(** ** A few postings *)

Definition sample_addr : bytes := AddrPrefix (replicate 20 7).
Definition sample_posts : list posting :=
  [MkPosting (SigGroup (replicate 32 1)) 5 0; MkPosting sample_addr 5 1; MkPosting sample_addr 3 2;
   MkPosting sample_addr 5 8].
Definition sample_chunks : list row := match chunks (ps_of sample_posts) with Ok l => l | _ => [] end.
Definition sample_lookup : list row := sample_chunks ++ [(TxHashKey (replicate 32 9), bigE 8 3)].
Definition sample_R (s : Section) : list row := match s with SecLookup => sample_lookup | _ => [] end.
Definition sample_run : RunFile.Run := RunFile.MkRun (RunFile.MkFooter [] [] 3 9 1 2 [] 4) sample_R (fun _ => None).

Lemma sample_sorted : sorted_rows sample_lookup.
Proof.
  assert (E : keys sample_lookup =
    [Suffixed sample_addr 3; Suffixed (SigGroup (replicate 32 1)) 5; TxHashKey (replicate 32 9)]) by (vm_compute; reflexivity).
  unfold sorted_rows, blt. rewrite E. repeat constructor.
Qed.

Lemma postings_roundtrip_witness :
  exists out, ScanChunks 10 sample_run sample_addr 4 9 = Ok out /\ StronglySorted post_lt out /\
    forall g t q, MkPosting g t q ∈ out <->
      has_prefix g sample_addr = true /\ 4 <= t <= 9 /\ (exists x, x ∈ sample_posts /\ group x = g /\ ptx x = t) /\
      q = if 0 <? PayloadBits g then ors g t (map tri_of sample_posts) else 0.
Proof.
  apply (postings_roundtrip sample_posts 10 sample_run sample_R sample_addr 4 9 sample_chunks).
  - unfold posts_ok, sample_posts, tri_ok, u64_ok.
    repeat (apply Forall_cons; split; [cbn [tri_of fst snd group ptx payload]; split; [lia|split; [lia|]]|]); try done.
    all: change (PayloadBits _) with 5; lia.
  - destruct posting_group_store as (Ha & _ & _ & Hs).
    repeat constructor; [by apply Hs|by apply Ha..].
  - exists (PrefixAddr, 20, 0). split; [set_solver|]. right. exists (replicate 20 7), []. split_and!; try done. by left.
  - vm_compute. reflexivity.
  - intros s. split_and!; [done| |done]. destruct s; [constructor|constructor|apply sample_sorted].
  - split_and!; [apply sample_sorted| |].
    + intros x Hx. apply elem_of_app. by left.
    + intros x Hx. apply elem_of_app in Hx as [Hx|Hx]; [by left|right]. apply list_elem_of_singleton in Hx as ->.
      repeat constructor.
  - vm_compute. lia.
Defined.

Example sample_scan :
  ScanChunks 10 sample_run sample_addr 4 9 = Ok [MkPosting sample_addr 5 9].
Proof. vm_compute. reflexivity. Qed.

End Postings.
