(* ===== verification/Seal.v ===== *)
(** * Sealing a window into a run (store/db.go, writeSections)

    The frozen window is streamed into the three sections of an L0 run. This
    file has [writeSections], the well-formedness of a window that the blocks
    folded into it establish, and the proof that the run answers every read the
    window answered. *)

From S2P Require Import Prelude Bytes Rows Ef Format Sha256 Container Memtable MemRecover MemRead Sst RunFile Postings.
Import Format.

Module Seal.
Import Memtable MemRead RunFile Postings.

(** ** writeSections *)

Section Write.
Context `{SSTable}.

(** The rows of the chain families, family by family. *)
Fixpoint chain_section (m : memtable) (fam : nat) (pfxs : list bytes) : res (list row) :=
  match pfxs with
  | [] => Ok []
  | pfx :: pfxs =>
      let* l := eachChain m fam in
      let* rest := chain_section m (S fam) pfxs in
      Ok (map (fun x => (numKey pfx x.1, x.2)) l ++ rest)
  end.

Definition sorted_keys {A} (g : gmap bytes A) : list bytes := merge_sort ble (map fst (map_to_list g)).

(** Code blobs by hash, then every state history in prefix order. *)
Definition state_section (m : memtable) : list row :=
  map (fun h => (CodeKey h, default [] (code (mem m) !! h))) (sorted_keys (code (mem m))) ++
  concat (map (fun p => map (fun e => (Suffixed p e.1, e.2)) (default [] (state (mem m) !! p)))
    (sorted_keys (state (mem m)))).

Definition row_le (a b : row) : Prop := ble a.1 b.1.
#[global] Instance row_le_dec a b : Decision (row_le a b).
Proof. unfold row_le. apply _. Defined.
#[global] Instance row_le_total : Total row_le.
Proof. intros a b. apply (total ble). Qed.

(** [sortKV] *)
Definition sortKV (l : list row) : list row := merge_sort row_le l.

Definition lookup_rows_of (m : memtable) : res (list row) :=
  let* chunks := chunks (ps_of (post (mem m))) in
  Ok (sortKV (chunks ++ map (fun x => (x.1, bigE 8 x.2)) (map_to_list (nums (mem m)))
                     ++ map (fun k => (k, [])) (elements (sets (mem m))))).

Definition writeSections (w : RunWriter) (m : memtable) : res RunWriter :=
  let* w := Begin w SecChain in
  let* l := chain_section m 0 famPrefix in
  let* w := set_all w l in
  let* w := End_ w in
  let* w := Begin w SecState in
  let* w := set_all w (state_section m) in
  let* w := End_ w in
  let* w := Begin w SecLookup in
  let* l := lookup_rows_of m in
  let* w := set_all w l in
  End_ w.

End Write.

(** ** Sorted rows by membership *)

Lemma aget_iff l k v : sorted_rows l -> aget l k = Some v <-> (k, v) ∈ l.
Proof. intros Hs. split; [apply aget_elem|by apply sorted_aget]. Qed.

Lemma aget_is l k o : sorted_rows l -> (forall v, (k, v) ∈ l <-> o = Some v) -> aget l k = o.
Proof.
  intros Hs Hk. destruct o as [v|].
  - apply aget_iff; [done|]. by apply Hk.
  - destruct (aget l k) as [v|] eqn:E; [|done]. apply aget_iff, Hk in E; done.
Qed.

(** Two keys that part ways inside both prefixes. *)
Lemma bcmp_part a b x y :
  has_prefix a b = false -> has_prefix b a = false -> bcmp (a ++ x) (b ++ y) = bcmp a b.
Proof.
  revert b. induction a as [|c a IH]; intros [|d b]; simpl; try done.
  rewrite (Z.eqb_sym c d). destruct (Z.eqb_spec d c) as [->|Hne]; cbn [andb].
  - rewrite Z.compare_refl. apply IH.
  - destruct (c ?= d) eqn:E; try done. apply Z.compare_eq in E. congruence.
Qed.

(** ** The chain section *)

(** One family's rows are its ascending numbers. *)
Lemma each_rows_ok m c look e :
  fam_ok (mlog m) c look e -> flushed m = len (mlog m) -> cset c = true ->
  forall k i, (length (coff c) = i + k)%nat ->
  exists l, each_rows m (cbase c + Z.of_nat i) (drop i (coff c)) (drop i (cn c)) = Ok l /\
    StronglySorted Z.lt (map fst l) /\
    forall n v, (n, v) ∈ l <-> cbase c + Z.of_nat i <= n < cbase c + len (coff c) /\ look n = Some v.
Proof.
  intros (Hcn & Hb & He & Hset & Hfind) Hfl Hcs. rewrite Hcs in Hset.
  induction k as [|k IH]; intros i Hk.
  { exists []. rewrite !drop_ge by lia. split_and!; [done|constructor|]. intros n v. unfold len. split; [set_solver|lia]. }
  destruct (lookup_lt_is_Some_2 (coff c) i ltac:(lia)) as [o Ho]. destruct (lookup_lt_is_Some_2 (cn c) i ltac:(lia)) as [n0 Hn0].
  rewrite (drop_S _ _ _ Ho), (drop_S _ _ _ Hn0). cbn [each_rows].
  destruct (IH (S i) ltac:(lia)) as (l & El & Hs & Hin). unfold len in *.
  rewrite u64_small by (unfold u64_ok; lia). replace (cbase c + Z.of_nat i + 1) with (cbase c + Z.of_nat (S i)) by lia.
  specialize (Hfind (cbase c + Z.of_nat i)). unfold ci_find in Hfind. rewrite Hcs in Hfind. unfold len in Hfind.
  rewrite (proj2 (Z.ltb_ge _ _)), u64_small, (proj2 (Z.leb_gt _ _)) in Hfind by (unfold u64_ok; lia). cbn [negb orb] in Hfind.
  replace (Z.to_nat (cbase c + Z.of_nat i - cbase c)) with i in Hfind by lia. rewrite Ho, Hn0 in Hfind.
  destruct (o =? 0) eqn:Eo.
  - exists l. split_and!; try done. intros n v. rewrite Hin. split.
    + intros [? ?]. split; [lia|done].
    + intros [? Hv]. split; [|done]. destruct (decide (n = cbase c + Z.of_nat i)) as [->|]; [congruence|lia].
  - destruct Hfind as (v0 & Hv0 & Hoff & -> & Hsl). fold (len v0) in Hsl. fold (len v0).
    assert (Hrow : readRow m (Some (o, len v0)) = Ok (Some v0)).
    { unfold readRow. pose proof (slice_Ok _ _ _ _ Hsl) as (_ & Hle & _). destruct (Z.eqb_spec (len v0) 0) as [Hz|Hz].
      - destruct v0; [done|]. lensimp.
      - rewrite (proj2 (Z.ltb_ge _ _)) by (rewrite Hfl; unfold len in *; lia). by rewrite Hsl. }
    rewrite Hrow. cbn [rbind]. rewrite El. cbn [rbind].
    eexists. split_and!; [done| |].
    + cbn [map fst]. constructor; [done|]. apply Forall_forall. intros n Hn. apply list_elem_of_fmap in Hn as ([n' v'] & -> & Hn).
      apply Hin in Hn. cbn. lia.
    + intros n v. rewrite elem_of_cons, Hin. cbn [default from_option id]. split.
      * intros [[= -> ->]|[? ?]]; split; try done; lia.
      * intros [? Hv]. destruct (decide (n = cbase c + Z.of_nat i)) as [->|]; [left; congruence|right; split; [lia|done]].
Qed.

Lemma fam_ok_bounds log c look e n v :
  fam_ok log c look e -> look n = Some v ->
  cset c = true /\ cbase c <= n < cbase c + len (coff c) /\ u64_ok n.
Proof.
  intros (_ & Hb & He & Hset & Hfind) Hv. specialize (Hfind n). unfold ci_find in Hfind.
  destruct (cset c); cbn [negb orb] in Hfind; [|congruence].
  destruct (Z.ltb_spec n (cbase c)); cbn [orb] in Hfind; [congruence|]. rewrite u64_small in Hfind by (unfold u64_ok; lia).
  destruct (Z.leb_spec (cbase c + len (coff c)) n); cbn [orb] in Hfind; [congruence|]. split_and!; [done|lia..|unfold u64_ok; lia].
Qed.

Lemma eachChain_ok m C h t fam :
  at_rest m C h t -> (fam < 6)%nat ->
  exists l, eachChain m fam = Ok l /\ StronglySorted Z.lt (map fst l) /\ Forall (fun x => u64_ok x.1) l /\
    forall n v, (n, v) ∈ l <-> C !! (fam, n) = Some v.
Proof.
  intros (Hok & Hfl & Hfo & _) Hf. destruct (lookup_lt_is_Some_2 (ends h t) fam) as [e He]; [done|].
  destruct (chain_ok_lookup m C _ fam e Hok He) as (c & Hc & Hfam). pose proof (proj1 Hok) as Hpos.
  unfold eachChain. assert (Hflush : flushLocked m = m) by (unfold flushLocked; by rewrite Hfl, Z.eqb_refl).
  rewrite Hflush, Hc.
  assert (Hu : forall n v, C !! (fam, n) = Some v -> u64_ok n) by (intros n v Hn; eapply (fam_ok_bounds _ _ _ _ _ _ Hfam Hn)).
  destruct (cset c) eqn:Ecs.
  - destruct (each_rows_ok m c _ e Hfam ltac:(lia) Ecs (length (coff c)) 0 eq_refl) as (l & El & Hs & Hin).
    rewrite Z.add_0_r in El. rewrite !drop_0 in El. exists l.
    assert (Hmem : forall n v, (n, v) ∈ l <-> C !! (fam, n) = Some v).
    { intros n v. rewrite Hin. split; [by intros [_ ?]|]. intros Hv. split; [|done].
      destruct (fam_ok_bounds _ _ _ _ _ _ Hfam Hv) as (_ & ? & _). lia. }
    split_and!; try done. apply Forall_forall. intros [n v] Hx. cbn. apply Hmem in Hx. eauto.
  - destruct Hfam as (Hcn & Hfam'). rewrite Ecs in Hfam'. destruct Hfam' as (_ & _ & Hnil & Hfind).
    rewrite Hnil in *. destruct (cn c); [|done]. exists []. split_and!; [done|constructor|constructor|].
    intros n v. split; [set_solver|]. intros Hv. specialize (Hfind n). unfold ci_find in Hfind. rewrite Ecs in Hfind. cbn in Hfind. congruence.
Qed.

Lemma fam_blt i j p q x y :
  famPrefix !! i = Some p -> famPrefix !! j = Some q -> (i < j)%nat -> blt (p ++ x) (q ++ y).
Proof.
  intros Hi Hj Hlt. unfold famPrefix in *.
  do 6 (destruct i as [|i]; [injection Hi as <-; do 6 (destruct j as [|j]; [try lia; by injection Hj as <-|]); done|]). done.
Qed.

Lemma fam_inj i j p q x y :
  famPrefix !! i = Some p -> famPrefix !! j = Some q -> p ++ x = q ++ y -> i = j.
Proof.
  intros Hi Hj E. destruct (Nat.lt_total i j) as [Hlt|[|Hlt]]; [|done|].
  - pose proof (fam_blt i j p q x y Hi Hj Hlt) as H. rewrite E in H. by apply blt_irrefl in H.
  - pose proof (fam_blt j i q p y x Hj Hi Hlt) as H. rewrite E in H. by apply blt_irrefl in H.
Qed.

Lemma num_rows_sorted pfx l :
  StronglySorted Z.lt (map fst l) -> Forall (fun x => u64_ok x.1) l ->
  sorted_rows (map (fun x : Z * bytes => (numKey pfx x.1, x.2)) l).
Proof.
  induction l as [|x l IH]; intros Hs Hu; [constructor|]. cbn [map] in Hs. apply StronglySorted_inv in Hs as [Hs Hf].
  apply Forall_cons in Hu as [Hx Hu]. cbn [map]. apply sorted_cons. split; [auto|]. rewrite Forall_map. cbn [fst].
  rewrite Forall_map in Hf. rewrite Forall_forall in Hf. rewrite Forall_forall in Hu |- *. intros y Hy. unfold blt, numKey. rewrite bcmp_app.
  rewrite bcmp_be; [|exact Hx|by apply Hu]. apply Z.compare_lt_iff. by apply Hf.
Qed.

Lemma chain_section_ok m C h t :
  at_rest m C h t -> forall pfxs fam, pfxs = drop fam famPrefix ->
  exists l, chain_section m fam pfxs = Ok l /\ sorted_rows l /\
    forall k v, (k, v) ∈ l <-> exists f p n, (fam <= f)%nat /\ famPrefix !! f = Some p /\ u64_ok n /\
      k = numKey p n /\ C !! (f, n) = Some v.
Proof.
  intros Hr. induction pfxs as [|pfx pfxs IH]; intros fam Hp.
  { exists []. split_and!; [done|constructor|]. intros k v. split; [set_solver|].
    intros (f & p & n & Hf & Hl & _). apply lookup_lt_Some in Hl. apply (f_equal length) in Hp. rewrite length_drop in Hp.
    cbn in Hp, Hl. lia. }
  assert (Hpf : famPrefix !! fam = Some pfx) by (rewrite <- (Nat.add_0_r fam), <- lookup_drop, <- Hp; done).
  assert (Hp' : pfxs = drop (S fam) famPrefix) by (rewrite <- (Nat.add_1_r fam), <- drop_drop, <- Hp; done).
  pose proof (lookup_lt_Some _ _ _ Hpf) as Hlt. change (length famPrefix) with 6%nat in Hlt.
  destruct (IH (S fam) Hp') as (rest & Er & Hsr & Hmr). destruct (eachChain_ok m C h t fam Hr Hlt) as (l & El & Hsl & Hul & Hml).
  cbn [chain_section]. rewrite El. cbn [rbind]. rewrite Er. cbn [rbind]. eexists. split_and!; [done| |].
  - apply sorted_app. split_and!; [by apply num_rows_sorted|done|]. intros x [k v] Hx Hy.
    apply list_elem_of_fmap in Hx as (z & -> & _). apply Hmr in Hy as (f & p & n & Hf & Hl & _ & -> & _). cbn [fst].
    unfold numKey. by apply (fam_blt fam f).
  - intros k v. rewrite elem_of_app, Hmr. split.
    + intros [Hx|(f & p & n & Hf & ?)]; [|exists f, p, n; split; [lia|done]].
      apply list_elem_of_fmap in Hx as ([n v'] & [= -> ->] & Hx). exists fam, pfx, n.
      rewrite Forall_forall in Hul. split_and!; try done; [by apply (Hul (n, v'))|by apply Hml].
    + intros (f & p & n & Hf & Hl & Hu & -> & Hv). destruct (decide (f = fam)) as [->|]; [left|right].
      * rewrite Hpf in Hl. injection Hl as <-. apply Hml in Hv.
        by apply (list_elem_of_fmap_2 (fun x : Z * bytes => (numKey pfx x.1, x.2))) in Hv.
      * exists f, p, n. split; [lia|done].
Qed.

(** ** The state section *)

Lemma SS_blt_NoDup l : StronglySorted ble l -> NoDup l -> StronglySorted blt l.
Proof.
  induction 1 as [|x l Hs IH Hf]; intros Hn; [constructor|]. apply NoDup_cons in Hn as [Hx Hn]. constructor; [auto|].
  rewrite Forall_forall in Hf |- *. intros y Hy. destruct (proj1 (ble_lteq _ _) (Hf y Hy)) as [| ->]; done.
Qed.

Lemma sorted_keys_ok {A} (g : gmap bytes A) :
  StronglySorted blt (sorted_keys g) /\ forall k, k ∈ sorted_keys g <-> is_Some (g !! k).
Proof.
  unfold sorted_keys. pose proof (merge_sort_Permutation ble (map fst (map_to_list g))) as Hp. split.
  - apply SS_blt_NoDup; [apply StronglySorted_merge_sort; apply _|]. rewrite Hp. apply NoDup_fst_map_to_list.
  - intros k. rewrite Hp, list_elem_of_fmap. split.
    + intros ([k' v] & -> & Hin). apply elem_of_map_to_list in Hin. eauto.
    + intros [v Hv]. exists (k, v). split; [done|]. by apply elem_of_map_to_list.
Qed.

Lemma state_prefix_free p q : state_prefix p -> state_prefix q -> p <> q -> has_prefix q p = false.
Proof.
  intros Hp Hq Hne. destruct (has_prefix q p) eqn:E; [|done]. apply has_prefix_spec in E as [s E]. exfalso. apply Hne.
  destruct Hp as [a Ha|a Ha|a b Ha Hb], Hq as [a' Ha'|a' Ha'|a' b' Ha' Hb'];
    unfold AccountPrefix, CodeRefPrefix, SlotPrefix in *; rewrite <- !app_assoc in E;
    symmetry in E; apply state_inj in E as (-> & Hc & E); try done.
  apply app_inj_1 in E as [-> _]; [done|]. unfold len in *. lia.
Qed.

Definition state_wf (r : rows) : Prop :=
  (forall p h, state r !! p = Some h -> state_prefix p /\ ascending h /\ Forall (fun x => u64_ok x.1) h) /\
  (forall h b, code r !! h = Some b -> len h = 32).

Lemma hist_rows_sorted p h :
  ascending h -> Forall (fun x => u64_ok x.1) h -> sorted_rows (map (fun e : Z * bytes => (Suffixed p e.1, e.2)) h).
Proof. apply num_rows_sorted. Qed.

Lemma state_rows_sorted r ps :
  state_wf r -> StronglySorted blt ps -> Forall (fun p => is_Some (state r !! p)) ps ->
  sorted_rows (concat (map (fun p => map (fun e : Z * bytes => (Suffixed p e.1, e.2)) (default [] (state r !! p))) ps)).
Proof.
  intros [Hwf _]. induction 1 as [|p ps Hs IH Hf]; intros Hin; [constructor|]. apply Forall_cons in Hin as [[h Hh] Hin].
  cbn [map concat]. apply sorted_app. split_and!.
  - rewrite Hh. cbn. destruct (Hwf p h Hh) as (_ & Ha & Hu). by apply hist_rows_sorted.
  - by apply IH.
  - intros x y Hx Hy. apply list_elem_of_fmap in Hx as (e & -> & _). apply list_elem_of_In, in_concat in Hy as (l & Hl & Hy).
    apply in_map_iff in Hl as (q & <- & Hq). apply list_elem_of_In in Hq. apply in_map_iff in Hy as (e' & <- & _). cbn [fst].
    rewrite Forall_forall in Hf. rewrite Forall_forall in Hin. specialize (Hf q Hq). destruct (Hin q Hq) as [h' Hh'].
    destruct (Hwf p h Hh) as (Hp & _), (Hwf q h' Hh') as (Hq' & _).
    unfold blt, Suffixed. rewrite bcmp_part; [done|apply state_prefix_free; try done..].
    + intros ->. by apply blt_irrefl in Hf.
    + intros ->. by apply blt_irrefl in Hf.
Qed.

Lemma code_rows_sorted r hs :
  StronglySorted blt hs -> sorted_rows (map (fun h => (CodeKey h, default [] (code r !! h))) hs).
Proof.
  induction 1 as [|h hs Hs IH Hf]; [constructor|]. cbn [map]. apply sorted_cons. split; [done|]. rewrite Forall_map.
  eapply Forall_impl; [exact Hf|]. intros x Hx. cbn [fst]. unfold blt, CodeKey. by rewrite bcmp_app.
Qed.

Lemma state_section_ok m :
  state_wf (mem m) ->
  sorted_rows (state_section m) /\
  forall k v, (k, v) ∈ state_section m <->
    (exists h, k = CodeKey h /\ code (mem m) !! h = Some v) \/
    (exists p t, k = Suffixed p t /\ (t, v) ∈ default [] (state (mem m) !! p)).
Proof.
  intros Hwf. destruct (sorted_keys_ok (code (mem m))) as [Hsc Hmc]. destruct (sorted_keys_ok (state (mem m))) as [Hss Hms].
  unfold state_section. split.
  - apply sorted_app. split_and!; [by apply code_rows_sorted| |].
    + apply state_rows_sorted; [done|done|]. apply Forall_forall. intros p Hp. by apply Hms.
    + intros x y Hx Hy. apply list_elem_of_fmap in Hx as (h & -> & _).
      apply list_elem_of_In, in_concat in Hy as (l & Hl & Hy). apply in_map_iff in Hl as (q & <- & Hq).
      apply in_map_iff in Hy as (e & <- & _). apply list_elem_of_In, Hms in Hq as [hh Hhh].
      destruct (proj1 Hwf q hh Hhh) as (Hp & _). cbn [fst]. unfold blt, CodeKey, Suffixed. by destruct Hp.
  - intros k v. rewrite elem_of_app. f_equiv.
    + split.
      * intros Hx. apply list_elem_of_fmap in Hx as (h & [= -> ->] & Hh). apply Hmc in Hh as [b Hb]. exists h. by rewrite Hb.
      * intros (h & -> & Hh). apply list_elem_of_fmap. exists h. rewrite Hh. split; [done|]. apply Hmc. eauto.
    + split.
      * intros Hx. apply list_elem_of_In, in_concat in Hx as (l & Hl & Hx). apply in_map_iff in Hl as (p & <- & _).
        apply in_map_iff in Hx as ([t v'] & [= <- <-] & Hx). exists p, t. split; [done|]. by apply list_elem_of_In.
      * intros (p & t & -> & Hx). apply list_elem_of_In, in_concat.
        eexists. split; [apply in_map_iff; exists p; split; [done|]|].
        -- apply list_elem_of_In, Hms. destruct (state (mem m) !! p); [eauto|by apply not_elem_of_nil in Hx].
        -- apply in_map_iff. exists (t, v). split; [done|]. by apply list_elem_of_In.
Qed.

(** ** The lookup section *)

Definition num_key (k : bytes) : Prop :=
  exists tag h, tag ∈ [PrefixTxHash; PrefixBlkHash; PrefixCid] /\ k = tag ++ h /\ len h = 32.
Definition set_key (k : bytes) : Prop :=
  exists t p v e, len t = 32 /\ len v = 32 /\ len e = 20 /\ k = SetKey t p v e.

Definition lookup_wf (r : rows) : Prop :=
  (forall k n, nums r !! k = Some n -> num_key k /\ u64_ok n) /\
  (forall k, k ∈ sets r -> set_key k) /\
  posts_ok (post r) /\ Forall (fun x => posting_group (group x)) (post r).

Lemma num_key_tags k : num_key k ->
  Forall (fun f => has_prefix k f.1.1 = false) pfam /\ has_prefix k PrefixSet = false.
Proof.
  intros (tag & h & Ht & -> & _).
  repeat (apply elem_of_cons in Ht as [->|Ht]); [..|by apply not_elem_of_nil in Ht];
    (split; [unfold pfam; repeat constructor|done]).
Qed.

Lemma set_key_tags k : set_key k ->
  Forall (fun f => has_prefix k f.1.1 = false) pfam /\ has_prefix k PrefixSet = true.
Proof.
  intros (t & p & v & e & _ & _ & _ & ->). unfold SetKey, SetPrefix. rewrite join3, <- !app_assoc.
  split; [unfold pfam; repeat constructor|apply has_prefix_app].
Qed.

Lemma sortKV_sorted l : NoDup (map fst l) -> sorted_rows (sortKV l).
Proof.
  intros Hn. unfold sorted_rows, keys, sortKV. pose proof (merge_sort_Permutation row_le l) as Hp.
  apply SS_blt_NoDup; [|by rewrite Hp].
  assert (Hs : StronglySorted row_le (merge_sort row_le l)).
  { apply StronglySorted_merge_sort; [|apply _]. intros x y z. unfold row_le. apply ble_trans. }
  revert Hs. generalize (merge_sort row_le l). clear. induction 1 as [|x k Hk IH Hf]; [constructor|].
  cbn [map]. constructor; [done|]. by rewrite Forall_map.
Qed.

(** A chunk row's key belongs to a posting family. *)
Lemma chunk_key_tag cs rows x :
  Forall2 is_row cs rows -> Forall (fun c => posting_group (cg c)) cs -> x ∈ rows ->
  ~ Forall (fun f => has_prefix x.1 f.1.1 = false) pfam.
Proof.
  intros Hr Hg Hx Hno. apply list_elem_of_lookup in Hx as [i Hi]. destruct (Forall2_lookup_r _ _ _ _ _ Hr Hi) as (c & Hc & Hcr).
  apply list_elem_of_lookup_2 in Hc. rewrite Forall_forall in Hg. rewrite Forall_forall in Hno. destruct (Hg c Hc) as (f & a & rr & Hf & Hcg & _).
  specialize (Hno f Hf). destruct Hcr as (_ & Hk & _). rewrite Hk in Hno. unfold Suffixed in Hno. rewrite Hcg in Hno. unfold fam_key in Hno.
  by rewrite <- !app_assoc, has_prefix_app in Hno.
Qed.

Lemma lookup_rows_ok m :
  lookup_wf (mem m) ->
  exists l rows, lookup_rows_of m = Ok l /\ chunks (ps_of (post (mem m))) = Ok rows /\
    lookup_section l rows /\
    forall k, num_key k -> forall v, (k, v) ∈ l <-> bigE 8 <$> nums (mem m) !! k = Some v.
Proof.
  intros (Hn & Hset & Hp & Hg). destruct (chunks_ok (post (mem m)) Hp) as (rows & cs & Ec & Hrow & HX).
  assert (Hcok : Forall chunk_ok cs) by (clear -Hrow; induction Hrow as [|c r cs rows (? & _) _ IH]; by constructor).
  pose proof (flat_groups _ cs HX Hcok Hg) as Hcg. pose proof (rows_sorted cs rows Hrow (proj1 HX) Hcg) as Hrs.
  unfold lookup_rows_of. rewrite Ec. cbn [rbind].
  set (A := map (fun x => (x.1, bigE 8 x.2)) (map_to_list (nums (mem m)))).
  set (B := map (fun k => (k, [] : bytes)) (elements (sets (mem m)))).
  assert (HA : forall k v, (k, v) ∈ A <-> bigE 8 <$> nums (mem m) !! k = Some v).
  { intros k v. unfold A. rewrite list_elem_of_fmap. split.
    - intros ([k' n] & [= -> ->] & Hin). apply elem_of_map_to_list in Hin. by rewrite Hin.
    - intros E. destruct (nums (mem m) !! k) as [n|] eqn:En; [|done]. injection E as <-. exists (k, n). split; [done|].
      by apply elem_of_map_to_list. }
  assert (HB : forall k v, (k, v) ∈ B -> k ∈ sets (mem m)).
  { intros k v Hin. apply list_elem_of_fmap in Hin as (k' & [= -> ->] & Hin). by apply elem_of_elements. }
  assert (HAk : forall k, k ∈ map fst A -> num_key k).
  { intros k Hk. apply list_elem_of_fmap in Hk as ([k' v] & -> & Hk). apply HA in Hk. cbn.
    destruct (nums (mem m) !! k') as [n|] eqn:En; [|done]. by destruct (Hn k' n En). }
  assert (HBk : forall k, k ∈ map fst B -> set_key k).
  { intros k Hk. apply list_elem_of_fmap in Hk as ([k' v] & -> & Hk). apply HB in Hk. auto. }
  assert (Hmem : forall x, x ∈ sortKV (rows ++ A ++ B) <-> x ∈ rows \/ x ∈ A \/ x ∈ B).
  { intros x. unfold sortKV. rewrite merge_sort_Permutation, !elem_of_app. done. }
  assert (Hnd : NoDup (map fst (rows ++ A ++ B))).
  { rewrite !map_app. apply NoDup_app. split_and!.
    - clear -Hrs. unfold sorted_rows, keys in Hrs. induction Hrs as [|x l Hl IH Hf]; constructor; [|done].
      intros Hx. rewrite Forall_forall in Hf. by apply Hf, blt_irrefl in Hx.
    - intros k Hk HkAB. apply list_elem_of_fmap in Hk as (x & -> & Hx). apply (chunk_key_tag cs rows x Hrow Hcg Hx).
      apply elem_of_app in HkAB as [Hk|Hk]; [apply HAk, num_key_tags in Hk as [? _]|apply HBk, set_key_tags in Hk as [? _]]; done.
    - apply NoDup_app. split_and!.
      + unfold A. rewrite map_map. apply NoDup_fst_map_to_list.
      + intros k Hk HkB. apply HAk, num_key_tags in Hk as [_ Hk]. apply HBk, set_key_tags in HkB as [_ HkB]. congruence.
      + unfold B. rewrite map_map. cbn. rewrite map_id. apply NoDup_elements. }
  eexists _, rows. split_and!; [done|done| |].
  - split_and!; [by apply sortKV_sorted|intros x Hx; apply Hmem; by left|].
    intros [k v] Hx. apply Hmem in Hx as [|[Hx|Hx]]; [by left|right..].
    + apply (num_key_tags k). apply HAk. by apply (list_elem_of_fmap_2 fst A (k, v)).
    + apply (set_key_tags k). apply HBk. by apply (list_elem_of_fmap_2 fst B (k, v)).
  - intros k Hk v. unfold sortKV. rewrite merge_sort_Permutation, !elem_of_app, <- HA. split; [|by auto].
    intros [Hx|[|Hx]]; [|done|].
    + exfalso. apply (chunk_key_tag cs rows (k, v) Hrow Hcg Hx). by apply num_key_tags.
    + exfalso. apply num_key_tags in Hk as [_ Hk]. apply HB, Hset, set_key_tags in Hx as [_ Hx]. congruence.
Qed.

Lemma Suffixed_nonempty p n : [] = Suffixed p n -> False.
Proof. intros E. apply (f_equal len) in E. unfold Suffixed in E. lens. pose proof (len_nonneg p). lia. Qed.

Lemma lookup_keys m l : lookup_wf (mem m) -> lookup_rows_of m = Ok l -> Forall (fun r => r.1 <> []) l.
Proof.
  intros (Hn & Hset & Hp & Hg) E. unfold lookup_rows_of in E. destruct (chunks_ok (post (mem m)) Hp) as (rows & cs & Ec & Hrow & _).
  rewrite Ec in E. cbn [rbind] in E. injection E as <-. apply Forall_forall. intros [k v] Hx E0. cbn in E0. subst k. unfold sortKV in Hx.
  rewrite merge_sort_Permutation, !elem_of_app in Hx. destruct Hx as [Hx|[Hx|Hx]].
  - apply list_elem_of_lookup in Hx as [i Hi]. destruct (Forall2_lookup_r _ _ _ _ _ Hrow Hi) as (c & _ & _ & Hk & _).
    by apply Suffixed_nonempty in Hk.
  - apply list_elem_of_fmap in Hx as ([k n] & [= <- _] & Hx). apply elem_of_map_to_list in Hx.
    destruct (Hn _ _ Hx) as [(tag & h & _ & E & Hh) _]. destruct tag, h; done.
  - apply list_elem_of_fmap in Hx as (k & [= <- _] & Hx). apply elem_of_elements, Hset in Hx as (? & ? & ? & ? & _ & _ & _ & E). done.
Qed.

(** ** The sealed run answers like the window *)

Definition window_wf (m : memtable) (C : gmap (nat * Z) bytes) (h t : Z) : Prop :=
  at_rest m C h t /\ state_wf (mem m) /\ lookup_wf (mem m).

(** The rows [writeSections] streams. *)
Definition sections (m : memtable) : res (Section -> list row) :=
  let* c := chain_section m 0 famPrefix in
  let* l := lookup_rows_of m in
  Ok (fun s => match s with SecChain => c | SecState => state_section m | SecLookup => l end).

Lemma state_stored m : state_wf (mem m) -> stored_rows (state_section m).
Proof.
  intros Hwf k v Hx. apply (proj2 (state_section_ok m Hwf)) in Hx as [(h & -> & Hh)|(p & t & -> & Hx)].
  - eexists. apply (SkHash PrefixCode); [set_solver|]. by apply (proj2 Hwf h v).
  - destruct (state (mem m) !! p) as [h|] eqn:E; [|by apply not_elem_of_nil in Hx].
    destruct (proj1 Hwf p h E) as (Hp & _). destruct Hp; eexists; by constructor.
Qed.

Lemma state_history m p :
  state_wf (mem m) -> state_prefix p -> history_of p (default [] (state (mem m) !! p)) (state_section m).
Proof.
  intros Hwf Hp. assert (Hh : ascending (default [] (state (mem m) !! p)) /\
    Forall (fun x => u64_ok x.1) (default [] (state (mem m) !! p))).
  { destruct (state (mem m) !! p) as [h|] eqn:E; [|split; constructor]. by destruct (proj1 Hwf p h E) as (_ & ?). }
  split_and!; [apply Hh..|]. intros t v Ht. rewrite (proj2 (state_section_ok m Hwf)). split; [intros Hx; right; eauto|].
  intros [(h & E & _)|(q & t' & E & Hx)].
  - exfalso. unfold Suffixed, CodeKey in E. by destruct Hp.
  - destruct (state (mem m) !! q) as [hq|] eqn:Eq; [|by apply not_elem_of_nil in Hx].
    destruct (proj1 Hwf q hq Eq) as (_ & _ & Hu). cbn in Hx. rewrite Forall_forall in Hu. specialize (Hu _ Hx). cbn in Hu.
    apply Suffixed_inj in E as [-> ->]; [|done..]. by rewrite Eq.
Qed.

Section Sealed.
Context `{SSTLaws}.

(** The rows keep to pebble's limits and the file to 64-bit offsets. *)
Definition sections_fit (m : memtable) : Prop :=
  forall R, sections m = Ok R -> (forall s, Forall row_small (R s)) /\ fits 0 R.

Lemma writeSections_run prev m R :
  sections m = Ok R -> writeSections (NewRunWriter prev 0) m = write_run prev 0 R.
Proof.
  unfold sections, writeSections, write_run, write_section. intros E.
  apply rbind_Ok in E as (c & -> & E). apply rbind_Ok in E as (l & -> & E). injection E as <-. cbn [rbind].
  rewrite !rbind_assoc. destruct (Begin (NewRunWriter prev 0) SecChain) as [w| |]; cbn [rbind]; try done.
  rewrite !rbind_assoc. destruct (set_all w c) as [w1| |]; cbn [rbind]; try done.
  destruct (End_ w1) as [w2| |]; cbn [rbind]; try done. rewrite !rbind_assoc.
  destruct (Begin w2 SecState) as [w3| |]; cbn [rbind]; try done. rewrite !rbind_assoc.
  destruct (set_all w3 _) as [w4| |]; cbn [rbind]; try done.
Qed.

(** What a run must answer to stand in for the window. *)
Definition answers (r : Run) (m : memtable) : Prop :=
  (forall fam pfx n, famPrefix !! fam = Some pfx -> u64_ok n ->
    Get r SecChain (numKey pfx n) = (chainGet m fam n).1) /\
  (forall p at_, state_prefix p -> 0 <= at_ -> u64_ok (at_ + 1) ->
    Latest r SecState p at_ = Ok (latestState m p at_)) /\
  (forall hash, len hash = 32 -> Get r SecState (CodeKey hash) = Ok (codeBlob m hash)) /\
  (forall k, num_key k -> Get r SecLookup k = Ok (bigE 8 <$> lookupNum m k)) /\
  (exists N, forall p lo hi fuel, scan_prefix p -> (N <= fuel)%nat ->
    exists out, ScanChunks fuel r p lo hi = Ok out /\ StronglySorted post_lt out /\
      forall g t q, MkPosting g t q ∈ out <->
        has_prefix g p = true /\ lo <= t <= hi /\ (exists x, x ∈ post (mem m) /\ group x = g /\ ptx x = t) /\
        q = if 0 <? PayloadBits g then ors g t (map tri_of (post (mem m))) else 0).

(** The rows of a sealed window: what each section holds under every key the
    point reads ask for. *)
(** Every row of the chain section is a family's, under its number. *)
Definition chain_keyed (l : list row) : Prop :=
  forall k v, (k, v) ∈ l -> exists fam pfx n, famPrefix !! fam = Some pfx /\ u64_ok n /\ k = numKey pfx n.

Lemma sections_rows m C h t R :
  window_wf m C h t -> sections m = Ok R ->
  (forall s, sorted_rows (R s)) /\ (forall s, Forall (fun r => r.1 <> []) (R s)) /\
  (forall fam pfx n, famPrefix !! fam = Some pfx -> u64_ok n -> aget (R SecChain) (numKey pfx n) = C !! (fam, n)) /\
  stored_rows (R SecState) /\
  (forall p, state_prefix p -> history_of p (default [] (state (mem m) !! p)) (R SecState)) /\
  (forall hash, aget (R SecState) (CodeKey hash) = code (mem m) !! hash) /\
  (forall k, num_key k -> aget (R SecLookup) k = bigE 8 <$> nums (mem m) !! k) /\ chain_keyed (R SecChain).
Proof.
  intros (Hr & Hst & Hlk) ER. unfold sections in ER.
  destruct (chain_section_ok m C h t Hr famPrefix 0 eq_refl) as (c & Ec & Hsc & Hmc). rewrite Ec in ER. cbn [rbind] in ER.
  destruct (lookup_rows_ok m Hlk) as (l & rows & El & Ech & Hsec & Hnum). rewrite El in ER. cbn [rbind] in ER. injection ER as <-.
  split_and!.
  - intros []; [done|by apply state_section_ok|apply Hsec].
  - intros s. apply Forall_forall. intros [k v] Hx E0. cbn in E0. subst k. destruct s; cbn [fst] in *.
    + apply Hmc in Hx as (f & p & n & _ & _ & _ & E & _). unfold numKey in E. by destruct p.
    + apply (state_section_ok m Hst) in Hx as [(q & E & _)|(q & n & E & _)]; [done|]. by apply Suffixed_nonempty in E.
    + pose proof (lookup_keys m l Hlk El) as Hne. rewrite Forall_forall in Hne. by apply Hne in Hx.
  - intros fam pfx n Hpfx Hn. apply aget_is; [done|]. intros v. rewrite Hmc. split.
    + intros (f & p & n' & _ & Hp & Hu & E & Hv). pose proof (fam_inj _ _ _ _ _ _ Hpfx Hp E) as <-.
      rewrite Hpfx in Hp. injection Hp as <-. apply app_inv_head in E. apply (be_inj 8) in E; [|exact Hn|exact Hu]. by subst n'.
    + intros Hv. exists fam, pfx, n. split_and!; try done. lia.
  - by apply state_stored.
  - intros p Hp. by apply state_history.
  - intros hash. apply aget_is; [by apply state_section_ok|]. intros v.
    rewrite (proj2 (state_section_ok m Hst)). split.
    + intros [(h' & E & Hv)|(p & t' & E & Hx)]; [by apply app_inv_head in E as ->|]. exfalso.
      destruct (state (mem m) !! p) as [hh|] eqn:Ep; [|by apply not_elem_of_nil in Hx].
      destruct (proj1 Hst p hh Ep) as (Hp & _). unfold Suffixed, CodeKey in E. by destruct Hp.
    + intros Hv. left. eauto.
  - intros k Hk. apply aget_is; [by apply Hsec|]. intros v. by apply Hnum.
  - intros k v Hx. apply Hmc in Hx as (f & p & n & _ & Hp & Hu & -> & _). by exists f, p, n.
Qed.

Lemma sealed_answers r m C h t R :
  window_wf m C h t -> sections m = Ok R -> run_holds r R -> answers r m.
Proof.
  intros Hwf ER Hh. destruct (sections_rows m C h t R Hwf ER) as (_ & _ & Hc & Hst & Hhi & Hco & Hnu & _).
  pose proof Hwf as (Hr & _ & Hlk). split_and!.
  - intros fam pfx n Hpfx Hn. rewrite (run_Get_ok r _ _ _ Hh), (Hc _ _ _ Hpfx Hn).
    by rewrite (chainGet_ok m C h t) by (done || apply (lookup_lt_Some _ _ _ Hpfx)).
  - intros p at_ Hp Hat Hn. by apply (Latest_ok r R p _ at_ Hh); try done; apply Hhi.
  - intros hash Hl. by rewrite (run_Get_ok r _ _ _ Hh), Hco.
  - intros k Hk. by rewrite (run_Get_ok r _ _ _ Hh), Hnu.
  - destruct (lookup_rows_ok m Hlk) as (l & rows & El & Ech & Hsec & _). unfold sections in ER.
    destruct (chain_section m 0 famPrefix) as [c| |]; [|done..]. cbn [rbind] in ER. rewrite El in ER. injection ER as <-.
    exists (length l). intros p lo hi fuel Hp Hf. destruct Hlk as (_ & _ & Hpo & Hgr).
    eapply (scan_postings (post (mem m)) fuel r _ p lo hi rows Hpo Hgr Hp Ech Hh); done.
Qed.

(** Writing a well-formed window, finishing and opening the run. *)
Lemma seal_reads prev m C h t ft tt_ fh th :
  window_wf m C h t -> sections_fit m -> len prev = 32 -> u64_ok ft -> u64_ok tt_ -> u64_ok fh -> u64_ok th ->
  exists w r, writeSections (NewRunWriter prev 0) m = Ok w /\
    let fin := Finish w ft tt_ fh th in
    OpenRun (fin_file fin) = Ok r /\ fin_upload fin = false /\
    Prev (RFooter r) = prev /\ FromTx (RFooter r) = ft /\ ToTx (RFooter r) = tt_ /\
    FromHeight (RFooter r) = fh /\ ToHeight (RFooter r) = th /\ answers r m.
Proof.
  intros Hwf Hfit Hp H1 H2 H3 H4. pose proof Hwf as (Hr & Hst & Hlk).
  destruct (chain_section_ok m C h t Hr famPrefix 0 eq_refl) as (c & Ec & Hsc & _).
  destruct (lookup_rows_ok m Hlk) as (l & rows & El & _ & Hsec & _).
  assert (ER : exists R, sections m = Ok R /\ forall s, sorted_rows (R s)).
  { unfold sections. rewrite Ec. cbn [rbind]. rewrite El. cbn [rbind]. eexists. split; [done|].
    intros []; [done|by apply state_section_ok|apply Hsec]. }
  destruct ER as (R & ER & Hs). destruct (Hfit R ER) as [Hsm Hf].
  destruct (write_open prev 0 R ft tt_ fh th) as (w & r & Ew & _ & Hl & Hpr & Er & Eft & Hh); try done.
  exists w, r. cbn zeta. rewrite (writeSections_run prev m R ER), Ew. unfold Finish in *.
  cbn [fin_file fin_upload fin_footer] in *. rewrite Eft, Hl. split_and!; try done.
  by apply (sealed_answers r m C h t R).
Qed.

End Sealed.

End Seal.
