(* ===== verification/Window.v ===== *)
(** * Windows of valid blocks are well formed (store/mem.go, store/db.go)

    Every step of [memtable.add] keeps the indexes in the shape a run needs:
    state histories ascend, every key is one of the schema's, every payload fits
    its family's width. So any window built from valid blocks can be sealed. *)

From S2P Require Import Prelude Bytes Rows Ef Format Sha256 Container Memtable MemRecover MemRead Sst RunFile Postings Seal.
Import Format.

Module Window.
Import Memtable MemRecover MemRead RunFile Postings Seal.

(** ** Valid input: the widths of the Go types *)

Definition srow_valid (r : StateRow) : Prop :=
  len (Addr r) = 20 /\ (Kind r = 97 \/ Kind r = 99 \/ Kind r = 115 /\ len (Slot r) = 32).
Definition addr_valid (a : bytes) : Prop := a = [] \/ len a = 20.
Definition log_valid (l : LogWrite) : Prop := len (Emitter l) = 20 /\ Forall (fun t => len t = 32) (LTopics l).
Definition tx_valid (t : TxWrite) : Prop :=
  len (THash t) = 32 /\ Forall srow_valid (State t) /\ addr_valid (Sender t) /\ addr_valid (To t) /\
  addr_valid (Created t) /\ Forall addr_valid (FrameAddrs t) /\ Forall log_valid (TLogs t).
Definition block_valid (b : BlockWrite) : Prop :=
  Forall tx_valid (Txs b) /\ Forall (fun x => len x.1 = 32) (Code b) /\ Forall srow_valid (Tail b).

Lemma srow_prefix r : srow_valid r -> state_prefix (stateKeyPrefix r).
Proof.
  intros (Ha & Hk). unfold stateKeyPrefix. destruct Hk as [->|[->|[-> Hs]]]; cbn; by constructor.
Qed.

(** ** The indexes beside the chain families *)

(** Well formed, with no state row after [t]. *)
Definition aux_wf (r : rows) (t : Z) : Prop :=
  state_wf r /\ lookup_wf r /\ forall p h, state r !! p = Some h -> Forall (fun x => x.1 <= t) h.

(** Only the chain families differ. *)
Definition same_aux (r r' : rows) : Prop :=
  state r' = state r /\ code r' = code r /\ nums r' = nums r /\ post r' = post r /\ sets r' = sets r.

Lemma aux_same r r' t : same_aux r r' -> aux_wf r t -> aux_wf r' t.
Proof.
  intros (E1 & E2 & E3 & E4 & E5) (H1 & H2 & H3). unfold aux_wf, state_wf, lookup_wf in *. by rewrite E1, E2, E3, E4, E5.
Qed.

Lemma aux_later r t t' : t <= t' -> aux_wf r t -> aux_wf r t'.
Proof.
  intros Hle (H1 & H2 & H3). split_and!; try done. intros p h Hh. eapply Forall_impl; [by eapply H3|]. cbn. lia.
Qed.

Lemma putState_wf r t p v :
  aux_wf r t -> state_prefix p -> u64_ok t -> aux_wf (putState r p t v) t.
Proof.
  intros ([Hs Hc] & Hl & Hle) Hp Ht. set (h0 := default [] (state r !! p)).
  assert (H0 : ascending h0 /\ Forall (fun x => u64_ok x.1) h0 /\ Forall (fun x => x.1 <= t) h0).
  { subst h0. destruct (state r !! p) as [h|] eqn:E; [|split_and!; constructor]. cbn.
    destruct (Hs p h E) as (_ & ? & ?). split_and!; [done..|by eapply Hle]. }
  destruct H0 as (Ha & Hu & Hlt). destruct (put_hist_spec h0 t v Ha Hlt) as (Ha' & Hlt' & _).
  assert (Hu' : Forall (fun x => u64_ok x.1) (put_hist h0 t v)).
  { unfold put_hist. destruct (last h0) as [[t0 v0]|] eqn:El.
    - apply last_Some in El as [h' E]. rewrite E in *. apply Forall_app in Hu as [Hu Hu0]. apply Forall_inv in Hu0. cbn in Hu0.
      rewrite removelast_last. destruct (Z.eqb_spec t0 t); repeat (apply Forall_app; split); try done; by constructor.
    - apply Forall_app; split; [done|]. by constructor. }
  unfold putState. fold h0. split_and!.
  - split; [|done]. cbn [state]. intros q h Hq. destruct (decide (q = p)) as [->|Hne].
    + rewrite lookup_insert_eq in Hq. injection Hq as <-. by split_and!.
    + rewrite lookup_insert_ne in Hq by done. by apply Hs.
  - exact Hl.
  - cbn [state]. intros q h Hq. destruct (decide (q = p)) as [->|Hne].
    + rewrite lookup_insert_eq in Hq. by injection Hq as <-.
    + rewrite lookup_insert_ne in Hq by done. by eapply Hle.
Qed.

Lemma put_num_wf r t k n : aux_wf r t -> num_key k -> u64_ok n -> aux_wf (put_num r k n) t.
Proof.
  intros (Hs & (Hn & Hset & Hp) & Hle) Hk Hu. split_and!; [done| |done]. split_and!; try done; [|apply Hp..].
  cbn [put_num nums]. intros k' n' E. destruct (decide (k' = k)) as [->|Hne].
  - rewrite lookup_insert_eq in E. by injection E as <-.
  - rewrite lookup_insert_ne in E by done. by apply Hn.
Qed.

Lemma put_post_wf r t g n p :
  aux_wf r t -> posting_group g -> tri_ok (g, n, p) -> aux_wf (put_post r g n p) t.
Proof.
  intros (Hs & (Hn & Hset & Hp & Hg) & Hle) Hgg Htri. split_and!; [done| |done]. split_and!; try done; cbn [put_post post].
  - apply Forall_app. split; [done|]. by constructor.
  - apply Forall_app. split; [done|]. by constructor.
Qed.

Lemma put_set_wf r t k : aux_wf r t -> set_key k -> aux_wf (put_set r k) t.
Proof.
  intros (Hs & (Hn & Hset & Hp) & Hle) Hk. split_and!; [done| |done]. split_and!; try done; [|apply Hp..].
  cbn [put_set sets]. set_solver.
Qed.

Lemma put_code_wf r t h b : aux_wf r t -> len h = 32 -> aux_wf (put_code r h b) t.
Proof.
  intros ([Hs Hc] & Hl & Hle) Hh. split_and!; [|done|done]. split; [done|]. cbn [put_code code]. intros h' b' E.
  destruct (decide (h' = h)) as [->|Hne]; [done|]. rewrite lookup_insert_ne in E by done. by eapply Hc.
Qed.

(** ** Steps of a block *)

Lemma fold_wf {A} (f : memtable -> A -> memtable) (P : A -> Prop) t l : forall m,
  (forall m x, P x -> aux_wf (mem m) t -> aux_wf (mem (f m x)) t) ->
  Forall P l -> aux_wf (mem m) t -> aux_wf (mem (fold_left f l m)) t.
Proof.
  induction l as [|x l IH]; intros m Hf Hl Hm; cbn [fold_left]; [done|].
  apply Forall_cons in Hl as [Hx Hl]. apply IH; auto.
Qed.

Lemma chainRow_wf m fam n v m' t : chainRow m fam n v = Ok m' -> aux_wf (mem m) t -> aux_wf (mem m') t.
Proof.
  unfold chainRow. destruct (famRec !! fam); [|done]. cbn [write]. intros E. apply rbind_Ok in E as (r & E & [= <-]).
  cbn [with_mem mem] in *. unfold put_chain in E. cbn [mem] in E. destruct (chain (mem m) !! fam); [|done].
  apply rbind_Ok in E as (c1 & _ & [= <-]). by apply aux_same.
Qed.

Lemma stateRow_wf m t r : srow_valid r -> u64_ok t -> aux_wf (mem m) t -> aux_wf (mem (stateRow m t r)) t.
Proof. intros Hr Ht Hm. unfold stateRow. cbn. apply putState_wf; [done|by apply srow_prefix|done]. Qed.

Lemma codeRow_wf m x t : len x.1 = 32 -> aux_wf (mem m) t -> aux_wf (mem (codeRow m x)) t.
Proof. intros Hx Hm. unfold codeRow. destruct (code (mem m) !! x.1); [done|]. cbn. by apply put_code_wf. Qed.

Lemma setRow_wf n m k t : set_key k -> aux_wf (mem m) t -> aux_wf (mem (setRow n m k)) t.
Proof. intros Hk Hm. unfold setRow. case_decide; [done|]. cbn. by apply put_set_wf. Qed.

Lemma numRow_wf m k n t : num_key k -> u64_ok n -> aux_wf (mem m) t -> aux_wf (mem (numRow m k n)) t.
Proof. intros Hk Hn Hm. unfold numRow. cbn. by apply put_num_wf. Qed.

(** ** The postings of a transaction *)

(** Every group of the map is a posting group and its payload fits. *)
Definition posts_wf (p : gmap bytes Z) : Prop :=
  forall g v, p !! g = Some v -> posting_group g /\ 0 <= v /\ (0 < PayloadBits g -> v < 2 ^ PayloadBits g).

Lemma or_post_wf k r p :
  posts_wf p -> posting_group k -> 0 <= r -> (0 < PayloadBits k -> r < 2 ^ PayloadBits k) -> posts_wf (or_post k r p).
Proof.
  intros Hp Hk Hr Hb g v. unfold or_post. destruct (decide (g = k)) as [->|Hne].
  - rewrite lookup_insert_eq. intros [= <-]. split; [done|].
    assert (Hold : tri_ok (k, 0, default 0 (p !! k))).
    { unfold tri_ok, u64_ok. cbn. destruct (p !! k) as [w|] eqn:E; cbn [default from_option id fst snd].
      - destruct (Hp k w E) as (_ & ? & ?). split_and!; done || lia.
      - split_and!; [lia..|]. intros. apply Z.pow_pos_nonneg; lia. }
    destruct (tri_ok_lor k 0 _ r Hold) as (_ & H1 & H2); [by unfold tri_ok, u64_ok; cbn|]. by split.
  - rewrite lookup_insert_ne by done. apply Hp.
Qed.

Lemma role_wf a r p : posts_wf p -> addr_valid a -> 0 <= r < 32 -> posts_wf (role a r p).
Proof.
  intros Hp Ha Hr. unfold role. destruct Ha as [->|Ha]; [done|]. rewrite Ha. change (0 <? 20) with true. cbv match.
  apply or_post_wf; [done|by apply posting_group_store|lia|]. intros _. change (PayloadBits (AddrPrefix a)) with 5. lia.
Qed.

Lemma tval_posts_wf topic0 : len topic0 = 32 -> forall topics i p,
  (1 <= i)%nat -> posts_wf p -> Forall (fun t => len t = 32) topics -> posts_wf (tval_posts i topic0 topics p).
Proof.
  intros H0. induction topics as [|t topics IH]; intros i p Hi Hp Ht; cbn [tval_posts]; [done|].
  apply Forall_cons in Ht as [Htl Ht]. destruct (Nat.leb_spec i 3); [|done]. apply IH; [lia| |done].
  apply or_post_wf; [done|by apply posting_group_store| |].
  - apply Z.shiftl_nonneg. lia.
  - intros _. change (PayloadBits (TValGroup t topic0)) with 3. rewrite Z.shiftl_mul_pow2, Z.mul_1_l by lia.
    apply Z.pow_lt_mono_r; lia.
Qed.

Lemma logPostings_wf p l : posts_wf p -> log_valid l -> posts_wf (logPostings p (Emitter l) (LTopics l)).
Proof.
  intros Hp (He & Ht). unfold logPostings.
  assert (H0 : len (match LTopics l with [] => zeroHash | t :: _ => t end) = 32).
  { destruct (LTopics l); [done|]. by apply Forall_inv in Ht. }
  set (topic0 := match LTopics l with [] => zeroHash | t :: _ => t end) in *.
  apply tval_posts_wf; [done|lia| |by apply Forall_tail].
  apply or_post_wf; [|by apply posting_group_store|lia|done].
  destruct (LTopics l); [done|]. apply or_post_wf; [done|by apply posting_group_store|lia|done].
Qed.

Lemma tx_posts_wf t : tx_valid t -> posts_wf (tx_posts t).
Proof.
  intros (_ & _ & Hs & Ht & Hc & Hf & Hl). unfold tx_posts.
  assert (H0 : posts_wf ∅) by (intros g v; by rewrite lookup_empty).
  set (p1 := role (Created t) _ _).
  assert (H1 : posts_wf p1) by (repeat apply role_wf; try done; unfold RoleSender, RoleRecipient, RoleCreated; lia).
  assert (H2 : forall l p, posts_wf p -> Forall addr_valid l -> posts_wf (fold_left (fun p a => role a RoleFrame p) l p)).
  { induction l as [|a l IH]; intros p Hp Hl'; cbn [fold_left]; [done|]. apply Forall_cons in Hl' as [Ha Hl'].
    apply IH; [|done]. apply role_wf; [done|done|unfold RoleFrame; lia]. }
  specialize (H2 (FrameAddrs t) p1 H1 Hf). revert Hl H2. generalize (fold_left (fun p a => role a RoleFrame p) (FrameAddrs t) p1).
  induction (TLogs t) as [|l ls IH]; intros p Hl Hp; cbn [fold_left]; [done|]. apply Forall_cons in Hl as [Hl0 Hl].
  apply IH; [done|]. apply logPostings_wf; [|done]. apply role_wf; [done|right; apply Hl0|unfold RoleEmitter; lia].
Qed.

Lemma logSets_wf l : log_valid l -> Forall set_key (logSets (Emitter l) (LTopics l)).
Proof.
  intros (He & Ht). unfold logSets. destruct (LTopics l) as [|t0 rest]; [constructor|]. apply Forall_cons in Ht as [H0 Ht].
  generalize 1%nat. induction rest as [|t rest IH]; intros i; cbn [set_keys]; [constructor|].
  apply Forall_cons in Ht as [Htl Ht]. destruct (i <=? 3)%nat; constructor; [|by apply IH].
  exists t0, (Z.of_nat i), t, (Emitter l). by split_and!.
Qed.

(** ** Blocks *)

Lemma tx_hash_key h : len h = 32 -> num_key (TxHashKey h).
Proof. intros Hh. exists PrefixTxHash, h. split_and!; [set_solver|done..]. Qed.
Lemma blk_hash_key h : len h = 32 -> num_key (BlkHashKey h).
Proof. intros Hh. exists PrefixBlkHash, h. split_and!; [set_solver|done..]. Qed.
Lemma cid_key h : len h = 32 -> num_key (CidKey h).
Proof. intros Hh. exists PrefixCid, h. split_and!; [set_solver|done..]. Qed.
#[local] Hint Resolve tx_hash_key blk_hash_key cid_key Sha256.len_Sum256 : codec.

Lemma add_tx_wf m n t m' :
  add_tx m n t = Ok m' -> tx_valid t -> u64_ok n -> aux_wf (mem m) n -> aux_wf (mem m') n.
Proof.
  intros E Ht Hn Hm. pose proof Ht as (Hh & Hst & _ & _ & _ & _ & Hl). unfold add_tx in E.
  apply rbind_Ok in E as (m1 & E1 & E). apply rbind_Ok in E as (m2 & E2 & E). apply rbind_Ok in E as (m3 & E3 & E).
  injection E as <-. apply (chainRow_wf _ _ _ _ _ n) in E1; [|done]. apply (chainRow_wf _ _ _ _ _ n) in E2; [|done].
  apply (chainRow_wf _ _ _ _ _ n) in E3; [|done].
  apply (fold_wf _ srow_valid); [intros; by apply stateRow_wf|done|].
  apply (fold_wf _ set_key); [intros; by apply setRow_wf| |].
  { clear -Hl. induction Hl as [|l ls Hl0 _ IH]; cbn [map concat]; [constructor|]. apply Forall_app. split; [by apply logSets_wf|done]. }
  apply (fold_wf _ (fun g => is_Some (tx_posts t !! g))).
  - intros m0 g [v Hv] H0. unfold postRow. cbn [write with_mem mem]. rewrite Hv.
    destruct (tx_posts_wf t Ht g v Hv) as (Hg & Hv0 & Hvb). apply put_post_wf; [done|done|]. by split_and!.
  - apply Forall_forall. intros g Hg. unfold sortedKeys in Hg. rewrite merge_sort_Permutation in Hg.
    apply list_elem_of_fmap in Hg as ([k v] & -> & Hg). apply elem_of_map_to_list in Hg. cbn. eauto.
  - apply numRow_wf; auto with codec.
Qed.

Lemma add_txs_wf txs : forall m n m',
  add_txs m n txs = Ok m' -> Forall tx_valid txs -> 0 <= n -> n + len txs < 2 ^ 64 -> aux_wf (mem m) n ->
  aux_wf (mem m') (n + len txs).
Proof.
  induction txs as [|t txs IH]; intros m n m' E Ht Hn Hb Hm; cbn [add_txs] in E.
  - injection E as <-. lens. by rewrite Z.add_0_r.
  - apply rbind_Ok in E as (m1 & E1 & E). apply Forall_cons in Ht as [Ht0 Ht]. lens. pose proof (len_nonneg txs).
    rewrite u64_small in E by (unfold u64_ok; lia). apply (add_tx_wf _ _ _ _ E1 Ht0) in Hm; [|unfold u64_ok; lia].
    replace (n + (1 + len txs)) with (n + 1 + len txs) by lia. apply (IH m1 _ _ E); [done|lia|lia|].
    by apply (aux_later _ n); [lia|].
Qed.

Section Blocks.
Context (Keccak256 : bytes -> bytes) (EncodeBare : bytes -> list bytes -> res bytes).
Hypothesis keccak_len : forall x, len (Keccak256 x) = 32.

Lemma add_block_wf m b m' t :
  add_block Keccak256 EncodeBare m b = Ok m' -> block_valid b -> u64_ok (Height b) ->
  nextTx (win m) = t -> 0 <= t -> t + len (Txs b) + 1 < 2 ^ 64 -> aux_wf (mem m) t ->
  nextTx (win m') = t + len (Txs b) + 1 /\ aux_wf (mem m') (t + len (Txs b)).
Proof.
  intros E (Ht & Hc & Hta) Hh Hnt Ht0 Hb Hm. unfold add_block in E. rewrite Hnt in E. pose proof (len_nonneg (Txs b)).
  apply rbind_Ok in E as (m1 & E1 & E). apply rbind_Ok in E as (m2 & E2 & E). apply rbind_Ok in E as (m3 & E3 & E).
  apply rbind_Ok in E as (ct & _ & E). apply rbind_Ok in E as (m4 & E4 & E).
  rewrite (u64_small (t + _)), (u64_small (t + _ + 1)) in E by (unfold u64_ok; lia).
  apply (chainRow_wf _ _ _ _ _ t) in E1; [|done]. apply (chainRow_wf _ _ _ _ _ t) in E2; [|done].
  apply (chainRow_wf _ _ _ _ _ t) in E3; [|done].
  apply (add_txs_wf _ _ _ _) in E4; [|done|lia|lia|].
  2: { apply (fold_wf _ (fun x => len x.1 = 32)); [intros; by apply codeRow_wf|done|].
       apply numRow_wf; [auto with codec|done|]. apply numRow_wf; auto with codec. }
  assert (H5 : aux_wf (mem (fold_left (fun m r => stateRow m (t + len (Txs b)) r) (Tail b) m4)) (t + len (Txs b))).
  { apply (fold_wf _ srow_valid); [|done|done]. intros. apply stateRow_wf; [done|unfold u64_ok; lia|done]. }
  cbn [write] in E. injection E as <-. rewrite MemRecover.flushLocked_eq. cbn [win mem nextTx with_win]. split; [done|].
  eapply aux_same; [|exact H5]. done.
Qed.

Lemma add_all_wf bs : forall m m' t,
  add_all Keccak256 EncodeBare m bs = Ok m' -> Forall block_valid bs -> Forall (fun b => u64_ok (Height b)) bs ->
  nextTx (win m) = t -> 0 <= t -> end_tx t bs < 2 ^ 63 -> aux_wf (mem m) t ->
  exists t', aux_wf (mem m') t'.
Proof.
  induction bs as [|b bs IH]; intros m m' t E Hv Hh Hnt Ht Hb Hm; cbn [add_all] in E; [injection E as <-; eauto|].
  apply rbind_Ok in E as (m1 & E1 & E). apply Forall_cons in Hv as [Hvb Hv]. apply Forall_cons in Hh as [Hhb Hh].
  cbn [end_tx] in Hb. pose proof (end_tx_ge (t + len (Txs b) + 1) bs). pose proof (len_nonneg (Txs b)).
  unfold add in E1. destruct (Height b <? nextHeight (win m)).
  - (* already in the window *)
    injection E1 as <-. apply (IH m m' t); try done. enough (end_tx t bs <= end_tx (t + len (Txs b) + 1) bs) by lia.
    assert (G : forall l a c, a <= c -> end_tx a l <= end_tx c l).
    { clear. induction l as [|x l IHl]; intros a c Hac; cbn [end_tx]; [done|]. apply IHl. lia. }
    apply G. lia.
  - apply rbind_Ok in E1 as (m0 & E0 & E1).
    assert (Hpre : nextTx (win m0) = t /\ mem m0 = mem m).
    { destruct (started (win m)); [by injection E0 as <-|]. destruct (negb (nextHeight (win m) =? 0) && negb (Height b =? nextHeight (win m))); [done|]. by injection E0 as <-. }
    destruct Hpre as [Hn0 Hm0]. destruct (negb (Height b =? nextHeight (win m0))); [done|]. rewrite <- Hm0 in Hm.
    destruct (add_block_wf m0 b m1 t E1) as [Hn1 H1]; try done; [lia|].
    apply (IH m1 m' (t + len (Txs b) + 1)); try done; try lia. by apply (aux_later _ (t + len (Txs b))); [lia|].
Qed.

Lemma fresh_wf bt bh : aux_wf (mem (fresh bt bh)) bt.
Proof.
  split_and!.
  - split; intros p h; cbn; by rewrite lookup_empty.
  - split_and!; cbn; [intros k n; by rewrite lookup_empty|set_solver|constructor|constructor].
  - intros p h; cbn; by rewrite lookup_empty.
Qed.

Context `{SSTLaws}.

(** C5: a window of blocks can always be sealed, and sealing loses nothing. Take
    any consecutive blocks of valid shape folded into a fresh window: the window
    accepts them, and writing it into an L0 run, finishing and opening the run
    succeeds. The run stays local, carries the given ranges and links to the run
    before it, and answers every read the window answered: each chain row at its
    number, the last write of every account, code reference and slot at or
    before any TxNum, each code blob, each hash lookup, and each posting scan
    over any prefix and TxNum range. *)
Theorem sealed_window_reads bt bh h bs prev ft tt_ fh th :
  0 <= bt -> 0 <= bh -> bh = 0 \/ h = bh -> 0 <= h -> consecutive h bs -> Forall block_valid bs ->
  Forall block_small bs -> Forall (reassembles EncodeBare) bs -> h + len bs < 2 ^ 63 -> end_tx bt bs < 2 ^ 63 ->
  len prev = 32 -> u64_ok ft -> u64_ok tt_ -> u64_ok fh -> u64_ok th ->
  (forall m, add_all Keccak256 EncodeBare (fresh bt bh) bs = Ok m -> sections_fit m) ->
  exists m w r, add_all Keccak256 EncodeBare (fresh bt bh) bs = Ok m /\
    writeSections (NewRunWriter prev 0) m = Ok w /\
    let fin := Finish w ft tt_ fh th in
    OpenRun (fin_file fin) = Ok r /\ fin_upload fin = false /\
    Prev (RFooter r) = prev /\ FromTx (RFooter r) = ft /\ ToTx (RFooter r) = tt_ /\
    FromHeight (RFooter r) = fh /\ ToHeight (RFooter r) = th /\ answers r m.
Proof.
  intros Hbt Hbh Hh Hh0 Hc Hv Hs Hre Hlh Hlt Hp H1 H2 H3 H4 Hfit.
  destruct (fresh_add_all Keccak256 EncodeBare bt bh h bs) as (m & E & A & _); try done.
  assert (Hhs : Forall (fun b => u64_ok (Height b)) bs).
  { clear -Hc Hh0 Hlh. revert h Hc Hh0 Hlh. induction bs as [|b bs IH]; intros h Hc Hh0 Hlh; [constructor|].
    destruct Hc as [<- Hc]. lens. pose proof (len_nonneg bs). constructor; [unfold u64_ok; lia|].
    by apply (IH (Height b + 1)); try lia. }
  destruct (add_all_wf bs (fresh bt bh) m bt E Hv Hhs eq_refl Hbt Hlt (fresh_wf bt bh)) as (t' & Hst & Hlk & _).
  destruct (seal_reads prev m (chain_rows bt bs ∅) (h + len bs) (end_tx bt bs) ft tt_ fh th) as (w & r & Hw);
    [by split_and!|by apply Hfit|done..|]. by exists m, w, r.
Qed.

End Blocks.

(** ** The sample blocks, sealed *)

Definition small_rows (l : list row) : bool := forallb (fun r => (len r.1 <? 2 ^ 32) && (len r.2 <? 2 ^ 32)) l.
Definition table_len (l : list row) : Z := len (concat (map List_sst.enc l)).
Definition fit_check (m : memtable) : bool :=
  match sections m with
  | Ok R => small_rows (R SecChain) && small_rows (R SecState) && small_rows (R SecLookup)
            && (table_len (R SecChain) + table_len (R SecState) + table_len (R SecLookup) <? 2 ^ 64)
  | _ => true
  end.

Lemma small_rows_ok l : small_rows l = true -> Forall row_small l.
Proof.
  intros H. apply Forall_forall. intros x Hx. unfold small_rows in H. rewrite forallb_forall in H.
  specialize (H x (proj1 (list_elem_of_In _ _) Hx)). bool_prop. by split.
Qed.

Lemma fit_check_ok m : fit_check m = true -> sections_fit m.
Proof.
  unfold fit_check. intros Hc R HR. rewrite HR in Hc. bool_prop. split.
  - intros []; by apply small_rows_ok.
  - intros bc bs bl [= <-] [= <-] [= <-]. unfold table_len in *. lens. lia.
Qed.

Lemma sample_fit m : add_all sample_keccak sample_bare (fresh 0 0) sample_blocks = Ok m -> sections_fit m.
Proof.
  intros E. apply fit_check_ok.
  assert (G : match add_all sample_keccak sample_bare (fresh 0 0) sample_blocks with Ok m => fit_check m | _ => true end = true)
    by (vm_compute; reflexivity).
  by rewrite E in G.
Qed.

Lemma sample_valid : Forall block_valid sample_blocks.
Proof.
  unfold block_valid, tx_valid, srow_valid, addr_valid, log_valid.
  apply (bool_decide_unpack _). vm_compute. exact I.
Qed.

Lemma sealed_window_reads_witness :
  exists m w r, add_all sample_keccak sample_bare (fresh 0 0) sample_blocks = Ok m /\
    writeSections (NewRunWriter (replicate 32 9) 0) m = Ok w /\
    let fin := Finish w 0 4 1 2 in
    OpenRun (fin_file fin) = Ok r /\ fin_upload fin = false /\
    Prev (RFooter r) = replicate 32 9 /\ FromTx (RFooter r) = 0 /\ ToTx (RFooter r) = 4 /\
    FromHeight (RFooter r) = 1 /\ ToHeight (RFooter r) = 2 /\ answers r m.
Proof.
  apply (sealed_window_reads sample_keccak sample_bare sample_keccak_len 0 0 1 sample_blocks (replicate 32 9) 0 4 1 2);
    try lia; try (unfold u64_ok; lia).
  - vm_compute. auto.
  - exact sample_valid.
  - exact sample_small.
  - repeat constructor; by eexists.
  - vm_compute. reflexivity.
  - vm_compute. reflexivity.
  - reflexivity.
  - exact sample_fit.
Defined.

End Window.
