(* ===== verification/Growth.v ===== *)
(** * How a block grows the window (store/mem.go, add)

    What the indexes beside the chain families hold after a block, in terms of
    what they held before: the state rows are the block's writes put in order at
    their TxNums, and nothing that was there is lost. The database's invariant
    and the flat cache's are built on these facts. *)

From S2P Require Import Prelude Bytes Rows Ef Format Sha256 Container Memtable MemRecover MemRead Sst RunFile Postings Seal Window.
Import Format.

Module Growth.
Import Memtable MemRecover MemRead Seal Window.

(** A state write: the key's prefix, the TxNum, the value. *)
Abbreviation srow := (bytes * Z * bytes)%type.
Abbreviation states := (gmap bytes (list (Z * bytes))).

Definition hist (st : states) (p : bytes) : list (Z * bytes) := default [] (st !! p).

Definition put_row (st : states) (x : srow) : states := <[x.1.1 := put_hist (hist st x.1.1) x.1.2 x.2]> st.
Definition put_all (st : states) (L : list srow) : states := fold_left put_row L st.

(** The state writes of a block whose first TxNum is [t], in the order [add] makes them. *)
Definition rows_at (n : Z) (l : list StateRow) : list srow := map (fun r => (stateKeyPrefix r, n, Val r)) l.
Fixpoint tx_srows (n : Z) (txs : list TxWrite) : list srow :=
  match txs with [] => [] | t :: txs => rows_at n (State t) ++ tx_srows (n + 1) txs end.
Definition block_srows (t : Z) (b : BlockWrite) : list srow :=
  tx_srows t (Txs b) ++ rows_at (t + len (Txs b)) (Tail b).

(** The hash rows of transactions numbered from [n] on. *)
Fixpoint tx_nums (n : Z) (txs : list TxWrite) : list (bytes * Z) :=
  match txs with [] => [] | t :: txs => (TxHashKey (THash t), n) :: tx_nums (n + 1) txs end.

(** Hash rows overwrite; a code blob already in the window stays. *)
Definition put_nums (M : gmap bytes Z) (N : list (bytes * Z)) : gmap bytes Z := fold_left (fun M x => <[x.1 := x.2]> M) N M.
Definition put_codes (M : gmap bytes bytes) (C : list (bytes * bytes)) : gmap bytes bytes :=
  fold_left (fun M x => match M !! x.1 with Some _ => M | None => <[x.1 := x.2]> M end) C M.

(** What was put beside the chain families: state rows, hash rows, code blobs. *)
Record delta := MkDelta { dState : list srow; dNums : list (bytes * Z); dCode : list (bytes * bytes) }.
Definition none : delta := MkDelta [] [] [].
Definition join (a b : delta) : delta := MkDelta (dState a ++ dState b) (dNums a ++ dNums b) (dCode a ++ dCode b).

Lemma join_none a : join none a = a.
Proof. by destruct a. Qed.
Lemma none_join a : join a none = a.
Proof. destruct a. unfold join. cbn. by rewrite !app_nil_r. Qed.

(** From [m] to [m'] exactly [D] was put, and postings were only added, at
    TxNums from [t] on. *)
Definition adds (t : Z) (D : delta) (m m' : memtable) : Prop :=
  state (mem m') = put_all (state (mem m)) (dState D) /\ code (mem m') = put_codes (code (mem m)) (dCode D) /\
  nums (mem m') = put_nums (nums (mem m)) (dNums D) /\
  exists P, post (mem m') = post (mem m) ++ P /\ Forall (fun x => t <= ptx x) P.

Lemma adds_nil t m m' : same_aux (mem m) (mem m') -> adds t none m m'.
Proof.
  intros (E1 & E2 & E3 & E4 & _). split_and!; [done..|]. exists []. rewrite app_nil_r. by split.
Qed.

Lemma adds_app t D1 D2 m1 m2 m3 : adds t D1 m1 m2 -> adds t D2 m2 m3 -> adds t (join D1 D2) m1 m3.
Proof.
  intros (S1 & C1 & N1 & P1 & E1 & F1) (S2 & C2 & N2 & P2 & E2 & F2).
  unfold adds, put_all, put_codes, put_nums in *. split_and!; cbn [join dState dNums dCode]; rewrite ?fold_left_app, <- ?S1, <- ?C1, <- ?N1; [exact S2|exact C2|exact N2|].
  exists (P1 ++ P2). rewrite E2, E1, <- app_assoc. split; [done|]. by apply Forall_app.
Qed.

Lemma adds_quiet t m m' D : adds t none m m' -> forall m2, adds t D m' m2 -> adds t D m m2.
Proof. intros H m2 H'. rewrite <- (join_none D). by apply (adds_app t none D _ _ _ H H'). Qed.

(** Folding rows in, each adding [g x]. *)
Lemma adds_fold {A} t (f : memtable -> A -> memtable) (g : A -> delta) (l : list A) : forall m,
  (forall m x, x ∈ l -> adds t (g x) m (f m x)) -> adds t (foldr (fun x D => join (g x) D) none l) m (fold_left f l m).
Proof.
  induction l as [|x l IH]; intros m Hf; cbn [foldr fold_left]; [by apply adds_nil|].
  eapply adds_app; [apply Hf; set_solver|]. apply IH. intros m' y Hy. apply Hf. set_solver.
Qed.

(** Folding in rows that put nothing beside the families. *)
Lemma adds_fold_quiet {A} t (f : memtable -> A -> memtable) (l : list A) D m m2 :
  (forall m x, adds t none m (f m x)) -> adds t D (fold_left f l m) m2 -> adds t D m m2.
Proof.
  intros Hf H. eapply (adds_quiet t m (fold_left f l m)); [|exact H]. replace none with (foldr (fun _ : A => join none) none l).
  - apply (adds_fold t f (fun _ => none)). auto.
  - clear. induction l as [|x l IH]; [done|]. cbn [foldr]. by rewrite join_none.
Qed.

Lemma chainRow_adds t m fam n v m' : chainRow m fam n v = Ok m' -> adds t none m m'.
Proof.
  unfold chainRow. destruct (famRec !! fam); [|done]. cbn [write]. intros E. apply rbind_Ok in E as (r & E & [= <-]).
  cbn [with_mem mem] in *. unfold put_chain in E. cbn [mem] in E. destruct (chain (mem m) !! fam); [|done].
  apply rbind_Ok in E as (c1 & _ & [= <-]). by apply adds_nil.
Qed.

Lemma numRow_adds t m k n : adds t (MkDelta [] [(k, n)] []) m (numRow m k n).
Proof. split_and!; [done..|]. exists []. by rewrite app_nil_r. Qed.

Lemma postRow_adds t m g n p : t <= n -> adds t none m (postRow m g n p).
Proof. intros Hn. split_and!; [done..|]. exists [MkPosting g n p]. split; [done|]. by constructor. Qed.

Lemma setRow_adds t n m k : adds t none m (setRow n m k).
Proof. unfold setRow. case_decide; [by apply adds_nil|]. split_and!; [done..|]. exists []. by rewrite app_nil_r. Qed.

Lemma codeRow_adds t m x : adds t (MkDelta [] [] [x]) m (codeRow m x).
Proof.
  unfold codeRow. destruct (code (mem m) !! x.1) eqn:E.
  - split_and!; try done; [|exists []; by rewrite app_nil_r]. cbn. by rewrite E.
  - split_and!; try done; [|exists []; by rewrite app_nil_r]. cbn. by rewrite E.
Qed.

Lemma codeRows_adds t l m : adds t (MkDelta [] [] l) m (fold_left codeRow l m).
Proof.
  replace (MkDelta [] [] l) with (foldr (fun x => join (MkDelta [] [] [x])) none l).
  - apply adds_fold. intros. apply codeRow_adds.
  - clear. induction l as [|x l IH]; [done|]. cbn [foldr]. by rewrite IH.
Qed.

Lemma stateRow_adds t m n r : adds t (MkDelta (rows_at n [r]) [] []) m (stateRow m n r).
Proof. split_and!; [done..|]. exists []. by rewrite app_nil_r. Qed.

Lemma stateRows_adds t m n l : adds t (MkDelta (rows_at n l) [] []) m (fold_left (fun m r => stateRow m n r) l m).
Proof.
  replace (MkDelta (rows_at n l) [] []) with (foldr (fun r => join (MkDelta (rows_at n [r]) [] [])) none l).
  - apply adds_fold. intros. apply stateRow_adds.
  - clear. induction l as [|x l IH]; [done|]. cbn [foldr]. by rewrite IH.
Qed.

Lemma add_tx_adds t m n tx m' :
  add_tx m n tx = Ok m' -> t <= n -> adds t (MkDelta (rows_at n (State tx)) [(TxHashKey (THash tx), n)] []) m m'.
Proof.
  unfold add_tx. intros E Hn. apply rbind_Ok in E as (m1 & E1 & E). apply rbind_Ok in E as (m2 & E2 & E).
  apply rbind_Ok in E as (m3 & E3 & E). injection E as <-.
  eapply adds_quiet; [by eapply chainRow_adds|]. eapply adds_quiet; [by eapply chainRow_adds|].
  eapply adds_quiet; [by eapply chainRow_adds|].
  apply (adds_app t (MkDelta [] [(TxHashKey (THash tx), n)] []) (MkDelta (rows_at n (State tx)) [] []) _ (numRow m3 (TxHashKey (THash tx)) n)); [apply numRow_adds|].
  eapply (adds_fold_quiet t (fun m g => postRow m g n (default 0 (tx_posts tx !! g)))); [intros; by apply postRow_adds|].
  eapply (adds_fold_quiet t (setRow n)); [intros; by apply setRow_adds|].
  apply stateRows_adds.
Qed.

Lemma add_txs_adds t txs : forall m n m',
  add_txs m n txs = Ok m' -> 0 <= n -> t <= n -> n + len txs < 2 ^ 64 -> adds t (MkDelta (tx_srows n txs) (tx_nums n txs) []) m m'.
Proof.
  induction txs as [|tx txs IH]; intros m n m' E Hn Ht Hb; cbn [add_txs tx_srows tx_nums] in *.
  - injection E as <-. by apply adds_nil.
  - apply rbind_Ok in E as (m1 & E1 & E). lens. pose proof (len_nonneg txs).
    rewrite u64_small in E by (unfold u64_ok; lia).
    apply (adds_app t (MkDelta (rows_at n (State tx)) [(TxHashKey (THash tx), n)] []) (MkDelta (tx_srows (n + 1) txs) (tx_nums (n + 1) txs) []) _ m1); [by eapply add_tx_adds|].
    apply IH; [done|lia..].
Qed.

Section Blocks.
Context (Keccak256 : bytes -> bytes) (EncodeBare : bytes -> list bytes -> res bytes).

(** A block's hash rows: its header hash, its container id, its transactions. *)
Definition block_nums (t : Z) (b : BlockWrite) : list (bytes * Z) :=
  (BlkHashKey (Keccak256 (HeaderRLP b)), Height b)
  :: match Container.Reassemble EncodeBare (Pvm b) (HeaderRLP b) (map RLP (Txs b)) with
     | Ok container => [(CidKey (Sha256.Sum256 container), Height b)]
     | _ => []
     end ++ tx_nums t (Txs b).

Definition block_delta (t : Z) (b : BlockWrite) : delta := MkDelta (block_srows t b) (block_nums t b) (Code b).

Lemma add_block_adds m b m' t :
  add_block Keccak256 EncodeBare m b = Ok m' -> nextTx (win m) = t -> 0 <= t -> t + len (Txs b) < 2 ^ 64 ->
  adds t (block_delta t b) m m'.
Proof.
  intros E Hnt Ht Hb. unfold add_block in E. rewrite Hnt in E. pose proof (len_nonneg (Txs b)).
  apply rbind_Ok in E as (m1 & E1 & E). apply rbind_Ok in E as (m2 & E2 & E). apply rbind_Ok in E as (m3 & E3 & E).
  apply rbind_Ok in E as (ct & Ec & E). apply rbind_Ok in E as (m4 & E4 & E).
  rewrite (u64_small (t + _)) in E by (unfold u64_ok; lia). cbn [write] in E. injection E as <-.
  eapply adds_quiet; [by eapply chainRow_adds|]. eapply adds_quiet; [by eapply chainRow_adds|].
  eapply adds_quiet; [by eapply chainRow_adds|]. unfold block_delta, block_nums. rewrite Ec.
  set (k1 := BlkHashKey _). set (k2 := CidKey _).
  replace (MkDelta _ _ _) with (join (MkDelta [] [(k1, Height b)] []) (join (MkDelta [] [(k2, Height b)] [])
    (join (MkDelta [] [] (Code b)) (join (MkDelta (tx_srows t (Txs b)) (tx_nums t (Txs b)) []) (MkDelta (rows_at (t + len (Txs b)) (Tail b)) [] [])))))
    by (unfold join; cbn; by rewrite !app_nil_r).
  eapply adds_app; [apply numRow_adds|]. eapply adds_app; [apply numRow_adds|]. eapply adds_app; [apply codeRows_adds|].
  eapply adds_app; [eapply add_txs_adds; [exact E4|lia..]|].
  rewrite <- (none_join (MkDelta (rows_at _ _) [] [])). eapply adds_app; [apply stateRows_adds|].
  apply adds_nil. by rewrite MemRecover.flushLocked_eq.
Qed.

(** The bounds of the window and its rows after a block the window takes. *)
Lemma add_adds m b m' :
  add Keccak256 EncodeBare m b = Ok m' -> nextHeight (win m) <= Height b -> 0 <= nextTx (win m) ->
  nextTx (win m) + len (Txs b) < 2 ^ 64 -> adds (nextTx (win m)) (block_delta (nextTx (win m)) b) m m'.
Proof.
  unfold add. intros E Hh Ht Hb. rewrite (proj2 (Z.ltb_ge _ _)) in E by lia. apply rbind_Ok in E as (m0 & E0 & E).
  assert (Hm : nextTx (win m0) = nextTx (win m) /\ mem m0 = mem m).
  { destruct (started (win m)); [by injection E0 as <-|].
    destruct (negb (nextHeight (win m) =? 0) && negb (Height b =? nextHeight (win m))); [done|]. by injection E0 as <-. }
  destruct Hm as [Hn Hm]. destruct (negb (Height b =? nextHeight (win m0))); [done|].
  eapply (adds_quiet _ m m0); [apply adds_nil; by rewrite Hm|]. by apply add_block_adds.
Qed.

End Blocks.

(** ** Hash rows and codes under later writes *)

(** The last binding of a key in a list of writes. *)
Definition last_num (N : list (bytes * Z)) (k : bytes) : option Z :=
  fold_left (fun acc x => if decide (x.1 = k) then Some x.2 else acc) N None.

Lemma last_num_acc N k : forall acc,
  fold_left (fun acc x => if decide (x.1 = k) then Some x.2 else acc) N acc =
  match last_num N k with Some n => Some n | None => acc end.
Proof.
  unfold last_num. induction N as [|x N IH]; intros acc; cbn [fold_left]; [done|]. rewrite IH, (IH (if decide _ then _ else _)).
  destruct (fold_left _ N None); [done|]. by case_decide.
Qed.

Lemma put_nums_lookup N k : forall M, put_nums M N !! k = match last_num N k with Some n => Some n | None => M !! k end.
Proof.
  intros M. rewrite <- last_num_acc. revert M. induction N as [|x N IH]; intros M; cbn [put_nums fold_left]; [done|].
  fold (put_nums (<[x.1 := x.2]> M) N). rewrite IH. f_equal.
  case_decide as E; [by rewrite E, lookup_insert_eq|by rewrite lookup_insert_ne].
Qed.

Lemma put_codes_sub C : forall M, M ⊆ put_codes M C.
Proof.
  induction C as [|x C IH]; intros M; cbn [put_codes fold_left]; [done|].
  destruct (M !! x.1) eqn:E; [apply IH|]. etransitivity; [by apply (insert_subseteq M x.1 x.2)|apply IH].
Qed.

Lemma put_codes_In C k : forall M v, put_codes M C !! k = Some v -> M !! k = Some v \/ (k, v) ∈ C.
Proof.
  induction C as [|x C IH]; intros M v E; cbn [put_codes fold_left] in E; [by left|].
  apply IH in E as [E|E]; [|right; set_solver]. destruct (M !! x.1); [by left|].
  apply lookup_insert_Some in E as [[<- <-]|[_ E]]; [|by left]. right. destruct x. set_solver.
Qed.

Lemma put_codes_has C k v : forall M, (k, v) ∈ C -> is_Some (put_codes M C !! k).
Proof.
  induction C as [|x C IH]; intros M Hin; [set_solver|]. cbn [put_codes fold_left]. apply elem_of_cons in Hin as [<-|Hin]; [|by apply IH].
  cbn [fst snd]. destruct (M !! k) as [w|] eqn:E.
  - exists w. by apply (lookup_weaken _ _ _ _ E), put_codes_sub.
  - exists v. apply (lookup_weaken (<[k := v]> M)); [by rewrite lookup_insert_eq|apply put_codes_sub].
Qed.

(** ** Histories under later writes *)

Lemma put_hist_later h e n v t :
  Forall (fun x => x.1 < t) h -> t <= n -> Forall (fun x => t <= x.1) e ->
  exists e', put_hist (h ++ e) n v = h ++ e' /\ Forall (fun x => t <= x.1) e'.
Proof.
  intros Hh Hn He. unfold put_hist. destruct e as [|x e _] using rev_ind.
  - rewrite app_nil_r. destruct (last h) as [[t0 v0]|] eqn:El.
    + apply last_Some in El as [h' ->]. apply Forall_app in Hh as [_ Hh]. apply Forall_inv in Hh. cbn in Hh.
      destruct (Z.eqb_spec t0 n); [lia|]. exists [(n, v)]. split; [done|]. by constructor.
    + exists [(n, v)]. split; [done|]. by constructor.
  - rewrite app_assoc, last_snoc, removelast_last. destruct x as [t0 v0]. apply Forall_app in He as [He Hx].
    destruct (t0 =? n).
    + exists (e ++ [(t0, v)]). split; [by rewrite app_assoc|]. apply Forall_app; split; [done|].
      constructor; [|done]. by apply Forall_inv in Hx.
    + exists (e ++ [(t0, v0)] ++ [(n, v)]). rewrite <- !app_assoc. split; [done|].
      apply Forall_app; split; [done|]. apply Forall_app; split; [done|]. by constructor.
Qed.

Lemma hist_put st (x : srow) q :
  hist (put_row st x) q = if decide (q = x.1.1) then put_hist (hist st q) x.1.2 x.2 else hist st q.
Proof.
  unfold hist, put_row. case_decide as E; [by rewrite E, lookup_insert_eq|by rewrite lookup_insert_ne].
Qed.

(** Every key's history is the old one followed by rows from [t] on. *)
Definition extends (t : Z) (st st' : states) : Prop :=
  forall p, exists e, hist st' p = hist st p ++ e /\ Forall (fun x => t <= x.1) e.

Lemma put_all_extends t st L :
  (forall p, Forall (fun x => x.1 < t) (hist st p)) -> Forall (fun x : srow => t <= x.1.2) L -> extends t st (put_all st L).
Proof.
  intros Hst HL. unfold put_all.
  enough (G : forall st', extends t st st' -> extends t st (fold_left put_row L st')).
  { apply G. intros p. exists []. rewrite app_nil_r. by split. }
  induction HL as [|[[p n] v] L Hn _ IH]; intros st' He; cbn [fold_left]; [done|]. cbn in Hn. apply IH. intros q.
  destruct (He q) as (e & Eq & Fq). rewrite hist_put. cbn [fst snd]. case_decide; [|by exists e].
  rewrite Eq. by apply put_hist_later.
Qed.

Lemma rows_at_num n l : Forall (fun x : srow => x.1.2 = n) (rows_at n l).
Proof. apply Forall_forall. intros x Hx. by apply list_elem_of_fmap in Hx as (r & -> & _). Qed.

Lemma tx_srows_num txs : forall n, Forall (fun x : srow => n <= x.1.2 < n + len txs) (tx_srows n txs).
Proof.
  induction txs as [|tx txs IH]; intros n; cbn [tx_srows]; [constructor|]. lens. pose proof (len_nonneg txs).
  apply Forall_app. split.
  - eapply Forall_impl; [apply rows_at_num|]. cbn. intros x ->. lia.
  - eapply Forall_impl; [apply IH|]. cbn. intros x Hx. lia.
Qed.

Lemma block_srows_num t b : Forall (fun x : srow => t <= x.1.2 <= t + len (Txs b)) (block_srows t b).
Proof.
  pose proof (len_nonneg (Txs b)). apply Forall_app. split.
  - eapply Forall_impl; [apply tx_srows_num|]. cbn. intros x Hx. lia.
  - eapply Forall_impl; [apply rows_at_num|]. cbn. intros x ->. lia.
Qed.

End Growth.
