(* ===== verification/KMerge.v ===== *)
(** * The k-way merge (store/merge.go, cursor and mergeSection)

    One cursor per input run walks one section; a heap ordered by key, newest
    input first on a tie, hands the rows over. [container/heap] keeps the least
    cursor at [h[0]], which is all the loops use of it: [pop_least] takes that
    cursor out. The order is total because input numbers differ, so which cursor
    is least is determined. The same traversal drives mergeSection and
    frontier.go's MergeFrontier; [heap_loop] is that traversal, and the lemma
    [heap_loop_fold] says it visits every row of every input exactly once, in
    order. *)

From S2P Require Import Prelude Bytes Rows Format Sst Memtable MemRead RunFile.
Import Format.

Module KMerge.
Import RunFile.

Section Cursors.
Context `{SSTable}.

(** ** Cursors: a nil key is [None] *)

Record cursor := MkCur { idx : nat; it : sst_iter; key : option bytes; val : bytes }.

(** [append(old[:0], b...)]: nil stays nil when nothing is appended to it. *)
Definition append0 (old : option bytes) (b : bytes) : option bytes :=
  match old, b with None, [] => None | _, _ => Some b end.

(** What both bodies do with the row the iterator stands on. *)
Definition take_kv (c : cursor) (it' : sst_iter) : res cursor :=
  match sst_kv it' with
  | None => Ok (MkCur (idx c) it' None [])
  | Some (k, v) => let* raw := v in Ok (MkCur (idx c) it' (append0 (key c) k) raw)
  end.

Definition next (c : cursor) : res cursor := take_kv c (sst_Next (it c)).
Definition first (c : cursor) : res cursor := take_kv c (sst_First (it c)).

Definition key_of (c : cursor) : bytes := default [] (key c).

(** [cursorHeap.Less] *)
Definition Less (a b : cursor) : bool :=
  match bcmp (key_of a) (key_of b) with
  | Lt => true
  | Gt => false
  | Eq => (idx b <? idx a)%nat
  end.

(** The cursor [h[0]] of the heap and the others. *)
Fixpoint pop_least (h : list cursor) : option (cursor * list cursor) :=
  match h with
  | [] => None
  | c :: h =>
      match pop_least h with
      | None => Some (c, [])
      | Some (d, rest) => if Less c d then Some (c, h) else Some (d, c :: rest)
      end
  end.

(** ** Opening the cursors: the runs [use] selects, empty sections left out *)

Fixpoint open_cursors (use : Run -> bool) (s : Section) (i : nat) (rs : list Run) : res (list cursor) :=
  match rs with
  | [] => Ok []
  | r :: rs =>
      if negb (use r) then open_cursors use s (S i) rs else
      let* it0 := newIter r s in
      let* c := first (MkCur i it0 None []) in
      let* h := open_cursors use s (S i) rs in
      Ok (match key c with None => h | Some _ => c :: h end)
  end.

(** [for len(h) > 0 { c := h[0]; body; c.next(); drop c or fix the heap }] *)
Section Loop.
Context {St : Type} (body : St -> bytes -> bytes -> res St).

Fixpoint heap_loop (fuel : nat) (h : list cursor) (st : St) : res St :=
  match pop_least h with
  | None => Ok st
  | Some (c, h) =>
      match fuel with
      | O => Panic
      | S fuel =>
          let* st := body st (key_of c) (val c) in
          let* c := next c in
          heap_loop fuel (match key c with None => h | Some _ => c :: h end) st
      end
  end.

(** The body folded over rows in order. *)
Fixpoint fold_body (st : St) (l : list row) : res St :=
  match l with [] => Ok st | (k, v) :: l => let* st := body st k v in fold_body st l end.

End Loop.

(** ** mergeSection *)

Record msect := MkMS { msw : RunWriter; mlast : option bytes; mrows : Z }.

(** The loop body: write the row unless its key was just written. *)
Definition merge_body (st : msect) (k v : bytes) : res msect :=
  if match mlast st with None => true | Some l => negb (beqb l k) end then
    let* w := Set_ (msw st) k v in
    Ok (MkMS w (append0 (mlast st) k) (u64 (mrows st + 1)))
  else Ok st.

Definition mergeSection (fuel : nat) (inputs : list Run) (s : Section) (w : RunWriter) : res (Z * RunWriter) :=
  let* h := open_cursors (fun _ => true) s 0 inputs in
  let* st := heap_loop merge_body fuel h (MkMS w None 0) in
  Ok (mrows st, msw st).

End Cursors.

(** ** The order the heap hands rows over in *)

(** A row with the number of the input it comes from. *)
Abbreviation nrow := (nat * row)%type.

Definition mlt (a b : nrow) : Prop :=
  blt a.2.1 b.2.1 \/ a.2.1 = b.2.1 /\ (b.1 < a.1)%nat.

Lemma mlt_irrefl a : ~ mlt a a.
Proof. intros [H|[_ H]]; [by apply blt_irrefl in H|lia]. Qed.

Lemma mlt_trans a b c : mlt a b -> mlt b c -> mlt a c.
Proof.
  intros [H|[E H]] [H'|[E' H']]; unfold mlt.
  - left. by eapply blt_trans.
  - left. by rewrite <- E'.
  - left. by rewrite E.
  - right. split; [congruence|lia].
Qed.

(** The inputs' rows, numbered from [i]. *)
Fixpoint number (i : nat) (ls : list (list row)) : list nrow :=
  match ls with [] => [] | l :: ls => map (pair i) l ++ number (S i) ls end.

(** [S] lists every row once, in the heap's order. *)
Definition merges (S : list nrow) (ls : list (list row)) : Prop :=
  StronglySorted mlt S /\ S ≡ₚ number 0 ls.

(** ** What the traversal visits *)

Section Visit.
Context `{SSTLaws}.

Definition hd (c : cursor) : nrow := (idx c, (key_of c, val c)).

Lemma Less_mlt c d : Less c d = true <-> mlt (hd c) (hd d).
Proof.
  unfold Less, mlt, blt, hd. cbn [fst snd]. destruct (bcmp (key_of c) (key_of d)) eqn:E.
  - apply bcmp_eq in E. rewrite Nat.ltb_lt. split; [intros ?; by right|]. intros [?|[_ ?]]; done.
  - split; auto.
  - split; [done|]. intros [?|[E' _]]; [done|]. by rewrite E', bcmp_refl in E.
Qed.

Lemma mlt_total a b : mlt a b \/ mlt b a \/ a.1 = b.1.
Proof.
  unfold mlt. destruct (decide (a.2.1 = b.2.1)) as [E|Hne].
  - destruct (Nat.lt_total a.1 b.1) as [?|[?|?]]; [right; left|by right; right|left]; right; done.
  - destruct (bltb_spec a.2.1 b.2.1) as [?|Hge]; [by left; left|].
    apply ble_not_gt, ble_lteq in Hge as [?|?]; [by right; left; left|congruence].
Qed.

Lemma pop_least_spec h c rest :
  pop_least h = Some (c, rest) -> h ≡ₚ c :: rest /\ Forall (fun d => ~ mlt (hd d) (hd c)) rest.
Proof.
  revert c rest. induction h as [|c0 h IH]; intros c rest E; [done|]. cbn [pop_least] in E.
  destruct (pop_least h) as [[d r]|] eqn:Eh.
  - destruct (IH d r eq_refl) as [Hp Hf]. destruct (Less c0 d) eqn:El; injection E as <- <-.
    + apply Less_mlt in El. split; [done|]. rewrite Hp. constructor.
      * intros Hd. by apply (mlt_irrefl (hd d)), (mlt_trans _ (hd c0)).
      * eapply Forall_impl; [exact Hf|]. cbn. intros e He Hc. by apply He, (mlt_trans _ (hd c0)).
    + split; [rewrite Hp; constructor|]. constructor; [|done]. intros Hc. apply Less_mlt in Hc. congruence.
  - injection E as <- <-. destruct h as [|c1 h]; [by split|]. cbn [pop_least] in Eh.
    destruct (pop_least h) as [[? ?]|]; [destruct (Less _ _)|]; done.
Qed.

Lemma pop_least_None h : pop_least h = None -> h = [].
Proof.
  destruct h as [|c h]; [done|]. cbn [pop_least]. destruct (pop_least h) as [[d r]|]; [destruct (Less c d)|]; done.
Qed.

(** The cursor stands on the first of the rows [l] it still has to give. *)
Definition cur_at (c : cursor) (l : list row) : Prop :=
  exists L j r l', sst_stands (it c) L j /\ l = drop j L /\ l = r :: l' /\
    key c = Some r.1 /\ val c = r.2 /\ sorted_rows l.

Lemma take_kv_ok c it' L j :
  sst_stands it' L j -> sorted_rows L -> key c <> None \/ Forall (fun r => r.1 <> []) L ->
  exists c', take_kv c it' = Ok c' /\ idx c' = idx c /\
    match drop j L with [] => key c' = None | l => cur_at c' l end.
Proof.
  intros Hst Hs Hk. unfold take_kv. rewrite (kv_stands _ _ _ Hst). destruct (L !! j) as [[k v]|] eqn:E.
  - cbn [fmap option_fmap option_map rbind fst snd]. rewrite (drop_S L (k, v) j E). eexists. split; [done|]. split; [done|].
    exists L, j, (k, v), (drop (S j) L). cbn [it key val fst snd]. split_and!; try done.
    + by rewrite (drop_S L (k, v) j E).
    + unfold append0. destruct (key c); [done|]. destruct Hk as [?|Hk]; [done|].
      rewrite Forall_forall in Hk. specialize (Hk (k, v) (list_elem_of_lookup_2 _ _ _ E)). by destruct k.
    + rewrite <- (take_drop j L) in Hs. apply sorted_app in Hs as (_ & Hs & _). by rewrite (drop_S L (k, v) j E) in Hs.
  - rewrite drop_ge by (by apply lookup_ge_None). eexists. by split_and!.
Qed.

(** Stepping a cursor takes the first row away. *)
Lemma next_ok c r l :
  cur_at c (r :: l) -> exists c', next c = Ok c' /\ idx c' = idx c /\
    match l with [] => key c' = None | _ => cur_at c' l end.
Proof.
  intros (L & j & r' & l' & Hst & Hd & [= <- <-] & Hk & _ & Hs).
  assert (Ej : L !! j = Some r) by (rewrite <- (Nat.add_0_r j), <- lookup_drop, <- Hd; done).
  assert (Hl : l = drop (S j) L) by (rewrite (drop_S L r j Ej) in Hd; by injection Hd).
  pose proof (Next_stands _ _ _ Hst (lookup_lt_Some _ _ _ Ej)) as Hst'.
  unfold next, take_kv. rewrite (kv_stands _ _ _ Hst'). destruct (L !! S j) as [[k v]|] eqn:E.
  - cbn [fmap option_fmap option_map rbind fst snd]. rewrite (drop_S L (k, v) (S j) E) in Hl. subst l.
    eexists. split; [done|]. split; [done|]. exists L, (S j), (k, v), (drop (S (S j)) L). cbn [it key val fst snd].
    split_and!; try done; [by rewrite (drop_S L (k, v) (S j) E)|rewrite Hk; done|by apply sorted_cons in Hs as [? _]].
  - rewrite drop_ge in Hl by (by apply lookup_ge_None). subst l. eexists. by split_and!.
Qed.

(** The heap's cursors and the rows each still has to give. *)
Definition heap_at (h : list cursor) (hs : list (nat * list row)) : Prop :=
  Forall2 (fun c x => idx c = x.1 /\ cur_at c x.2) h hs.
Definition rows_of (hs : list (nat * list row)) : list nrow :=
  concat (map (fun x => map (pair x.1) x.2) hs).

Lemma cur_at_hd c l x : cur_at c l -> x ∈ map (pair (idx c)) l -> hd c = x \/ mlt (hd c) x.
Proof.
  intros (L & j & r & l' & _ & _ & -> & Hk & Hv & Hs) Hx. apply list_elem_of_fmap in Hx as (y & -> & Hy).
  unfold hd, key_of. rewrite Hk, Hv. cbn [default from_option id]. apply elem_of_cons in Hy as [->|Hy].
  - left. by destruct r.
  - right. left. cbn [fst snd]. apply sorted_cons in Hs as [_ Hf]. rewrite Forall_forall in Hf. by apply Hf.
Qed.

Lemma rows_of_perm hs hs' : hs ≡ₚ hs' -> rows_of hs ≡ₚ rows_of hs'.
Proof. intros Hp. unfold rows_of. by rewrite Hp. Qed.

(** The popped cursor's row is the next of the merged order. *)
Lemma pop_head h hs c rest x S :
  heap_at h hs -> NoDup (map fst hs) -> pop_least h = Some (c, rest) ->
  StronglySorted mlt (x :: S) -> x :: S ≡ₚ rows_of hs ->
  exists r l hs', hs ≡ₚ (idx c, r :: l) :: hs' /\ heap_at rest hs' /\ cur_at c (r :: l) /\
    x = (idx c, r) /\ key_of c = r.1 /\ val c = r.2 /\ S ≡ₚ map (pair (idx c)) l ++ rows_of hs'.
Proof.
  intros Hh Hnd Ep Hs Hp. destruct (pop_least_spec _ _ _ Ep) as [Hperm Hmin].
  destruct (Permutation_Forall2 Hperm Hh) as (hs1 & Hp1 & Hh1).
  inv Hh1 as [|? [i l] ? hs' [Hi Hc] Hrest]. cbn [fst snd] in *. subst i.
  pose proof Hc as (L & j & r & l' & _ & _ & El & Hk & Hv & _). subst l. exists r, l', hs'.
  assert (Hkc : key_of c = r.1) by (unfold key_of; by rewrite Hk).
  assert (Ehd : hd c = (idx c, r)) by (unfold hd; rewrite Hkc, Hv; by destruct r).
  assert (Hx : x = (idx c, r)).
  { assert (Hin : (idx c, r) ∈ x :: S).
    { rewrite Hp, (rows_of_perm _ _ Hp1). unfold rows_of. cbn [map concat fst snd]. set_solver. }
    apply elem_of_cons in Hin as [->|Hin]; [done|]. exfalso. apply StronglySorted_inv in Hs as [_ Hf].
    rewrite Forall_forall in Hf. specialize (Hf _ Hin). rewrite <- Ehd in Hf.
    assert (Hxin : x ∈ rows_of hs) by (rewrite <- Hp; set_solver). rewrite (rows_of_perm _ _ Hp1) in Hxin.
    unfold rows_of in Hxin. cbn [map concat fst snd] in Hxin. apply elem_of_app in Hxin as [Hxin|Hxin].
    - destruct (cur_at_hd c _ x Hc Hxin) as [<-|Hlt]; [by apply mlt_irrefl in Hf|].
      by apply (mlt_irrefl x), (mlt_trans _ (hd c)).
    - apply list_elem_of_In, in_concat in Hxin as (l2 & Hl2 & Hxin). apply in_map_iff in Hl2 as ([i2 l2'] & <- & Hl2).
      apply list_elem_of_In in Hl2, Hxin. cbn [fst snd] in Hxin.
      apply list_elem_of_lookup in Hl2 as [n Hn]. destruct (Forall2_lookup_r _ _ _ _ _ Hrest Hn) as (d & Hd & Hid & Hcd).
      cbn [fst snd] in Hid, Hcd. subst i2. rewrite Forall_forall in Hmin. specialize (Hmin d (list_elem_of_lookup_2 _ _ _ Hd)).
      assert (Hdx : hd d = x \/ mlt (hd d) x) by (by apply (cur_at_hd d l2')).
      assert (Hcd' : mlt (hd c) (hd d)).
      { destruct (mlt_total (hd c) (hd d)) as [?|[?|Hid]]; [done..|]. exfalso. rewrite Hp1 in Hnd. cbn [map fst] in Hnd.
        apply NoDup_cons in Hnd as [Hni _]. apply Hni. cbn in Hid. rewrite Hid.
        apply (list_elem_of_fmap_2 fst hs' (idx d, l2')). by eapply list_elem_of_lookup_2. }
      apply (mlt_irrefl x), (mlt_trans _ (hd c)); [done|]. destruct Hdx as [<-|?]; [done|]. by apply (mlt_trans _ (hd d)). }
  split_and!; try done. apply (Permutation_cons_inv (a := x)). rewrite Hp, (rows_of_perm _ _ Hp1), Hx. done.
Qed.

Lemma heap_loop_fold {St} (body : St -> bytes -> bytes -> res St) S : forall h hs st fuel,
  heap_at h hs -> NoDup (map fst hs) -> StronglySorted mlt S -> S ≡ₚ rows_of hs -> (length S <= fuel)%nat ->
  heap_loop body fuel h st = fold_body body st (map snd S).
Proof.
  induction S as [|x S IH]; intros h hs st fuel Hh Hnd Hs Hp Hf.
  - assert (h = []) as ->.
    { inv Hh as [|c [i l] ? ? [_ (L & j & r & l' & _ & _ & El & _)] ?]; [done|]. cbn in El. subst l.
      apply Permutation_nil in Hp. done. }
    by destruct fuel.
  - destruct fuel as [|fuel]; [cbn in Hf; lia|]. cbn [heap_loop]. destruct (pop_least h) as [[c rest]|] eqn:Ep.
    2: { apply pop_least_None in Ep as ->. inv Hh. apply Permutation_sym, Permutation_nil in Hp. done. }
    destruct (pop_head h hs c rest x S Hh Hnd Ep Hs Hp) as (r & l & hs' & Hp1 & Hrest & Hc & -> & Hkc & Hvc & HS).
    cbn [map snd fold_body]. destruct r as [k v]. rewrite Hkc, Hvc. cbn [fst snd].
    destruct (body st k v) as [st'| |]; cbn [rbind]; try done.
    destruct (next_ok c (k, v) l Hc) as (c' & -> & Hi & Hc'). cbn [rbind].
    rewrite Hp1 in Hnd. cbn [map fst] in Hnd. apply NoDup_cons in Hnd as [Hni Hnd]. apply StronglySorted_inv in Hs as [Hs _].
    destruct l as [|r' l].
    + rewrite Hc'. apply (IH rest hs'); [done..|cbn in Hf; lia].
    + assert (Hk' : exists k', key c' = Some k') by (destruct Hc' as (? & ? & r0 & ? & _ & _ & _ & ? & _); eauto).
      destruct Hk' as [k' ->]. apply (IH (c' :: rest) ((idx c, r' :: l) :: hs')); try done; [|by constructor|cbn in Hf; lia].
      constructor; [by rewrite Hi|done].
Qed.

Lemma rows_of_cons i l hs : rows_of ((i, l) :: hs) = map (pair i) l ++ rows_of hs.
Proof. done. Qed.

(** Opening gives one cursor per selected non-empty section. *)
Lemma open_cursors_ok use s rs Rs : forall i,
  Forall2 run_holds rs Rs -> Forall (fun R => Forall (fun r => r.1 <> []) (R s)) Rs ->
  exists h hs, open_cursors use s i rs = Ok h /\ heap_at h hs /\ NoDup (map fst hs) /\
    Forall (fun x => (i <= x.1)%nat) hs /\
    rows_of hs = number i (zip_with (fun r R => if use r then R s else []) rs Rs).
Proof.
  intros i Hr. revert i. induction Hr as [|r R rs Rs Hh Hr IH]; intros i Hk.
  { exists [], []. split_and!; try done; constructor. }
  apply Forall_cons in Hk as [Hk0 Hk]. destruct (IH (S i) Hk) as (h & hs & Eh & Hat & Hnd & Hge & Hrows).
  assert (Hge' : Forall (fun x : nat * list row => (i <= x.1)%nat) hs) by (eapply Forall_impl; [exact Hge|]; cbn; lia).
  cbn [open_cursors zip_with number]. destruct (use r); cbn [negb].
  2: { exists h, hs. by split_and!. }
  destruct (newIter_ok r R s Hh) as (it0 & -> & Ho). cbn [rbind].
  destruct (take_kv_ok (MkCur i it0 None []) (sst_First it0) (R s) 0 (First_stands _ _ Ho)) as (c & Ec & Hi & Hc);
    [by destruct (Hh s) as (_ & ? & _)|by right|].
  unfold first. cbn [it]. rewrite Ec. cbn [rbind]. rewrite Eh. cbn [rbind]. rewrite drop_0 in Hc. cbn in Hi.
  destruct (R s) as [|r0 l].
  - rewrite Hc. exists h, hs. by split_and!.
  - assert (Hkc : exists k, key c = Some k) by (destruct Hc as (? & ? & r1 & ? & _ & _ & _ & ? & _); eauto).
    destruct Hkc as [k ->]. exists (c :: h), ((i, r0 :: l) :: hs). split_and!; try done.
    + by constructor.
    + cbn [map fst]. apply NoDup_cons. split; [|done]. intros Hin. apply list_elem_of_fmap in Hin as (x & Hx & Hin).
      rewrite Forall_forall in Hge. specialize (Hge x Hin). lia.
    + by constructor.
    + by rewrite rows_of_cons, Hrows.
Qed.

End Visit.

(** ** The merged order exists *)

Definition mle (a b : nrow) : Prop := blt a.2.1 b.2.1 \/ a.2.1 = b.2.1 /\ (b.1 <= a.1)%nat.
#[local] Instance mle_dec a b : Decision (mle a b).
Proof. unfold mle. apply _. Defined.
#[local] Instance mle_total : Total mle.
Proof. intros a b. destruct (mlt_total a b) as [[?|[? ?]]|[[?|[? ?]]|?]]; unfold mle; try (left; left; done);
  try (right; left; done); [left; right|right; right|]; try (split; [done|lia]).
  destruct (decide (a.2.1 = b.2.1)); [left; right; split; [done|lia]|].
  destruct (bltb_spec a.2.1 b.2.1) as [?|Hge]; [by left; left|]. apply ble_not_gt, ble_lteq in Hge as [?|?]; [by right; left|congruence].
Qed.
#[local] Instance mle_trans : Transitive mle.
Proof.
  intros a b c [?|[E ?]] [?|[E' ?]]; unfold mle.
  - left. by eapply blt_trans.
  - left. by rewrite <- E'.
  - left. by rewrite E.
  - right. split; [congruence|lia].
Qed.

Lemma number_In x ls : forall i,
  x ∈ number i ls <-> exists l, (i <= x.1)%nat /\ ls !! (x.1 - i)%nat = Some l /\ x.2 ∈ l.
Proof.
  induction ls as [|l ls IH]; intros i; cbn [number].
  { split; [set_solver|]. intros (l & _ & Hl & _). done. }
  rewrite elem_of_app, IH, list_elem_of_fmap. split.
  - intros [(r & -> & Hr)|(l' & Hi & Hl & Hx)]; cbn [fst snd].
    + exists l. rewrite Nat.sub_diag. by split_and!.
    + exists l'. split_and!; [lia| |done]. by replace (x.1 - i)%nat with (S (x.1 - S i)) by lia.
  - intros (l' & Hi & Hl & Hx). destruct (x.1 - i)%nat as [|n] eqn:E.
    + left. injection Hl as ->. exists x.2. split; [|done]. destruct x as [j r]. cbn in *. f_equal. lia.
    + right. exists l'. split_and!; [lia| |done]. by replace (x.1 - S i)%nat with n by lia.
Qed.

Lemma number_NoDup ls : forall i, Forall sorted_rows ls -> NoDup (map (fun x : nrow => (x.1, x.2.1)) (number i ls)).
Proof.
  induction ls as [|l ls IH]; intros i Hs; cbn [number]; [constructor|]. apply Forall_cons in Hs as [Hl Hs].
  rewrite map_app, map_map. cbn [fst snd]. apply NoDup_app. split_and!; [|intros y Hy Hy'|by apply IH].
  - clear IH Hs ls. unfold sorted_rows, keys in Hl. induction l as [|r l IHl]; cbn [map] in *; [constructor|].
    apply StronglySorted_inv in Hl as [Hl Hf]. constructor; [|by apply IHl]. intros Hin.
    apply list_elem_of_fmap in Hin as (r' & [= E] & Hin). rewrite Forall_map, Forall_forall in Hf.
    specialize (Hf r' Hin). cbn in Hf. rewrite E in Hf. by apply blt_irrefl in Hf.
  - apply list_elem_of_fmap in Hy as (r & -> & _). apply list_elem_of_fmap in Hy' as (x & [= E1 E2] & Hx).
    apply number_In in Hx as (l' & Hi & _). lia.
Qed.

Lemma sorted_strict S : StronglySorted mle S -> NoDup (map (fun x : nrow => (x.1, x.2.1)) S) -> StronglySorted mlt S.
Proof.
  induction 1 as [|x S Hs IH Hf]; intros Hn; [constructor|]. cbn [map] in Hn. apply NoDup_cons in Hn as [Hx Hn].
  constructor; [auto|]. rewrite Forall_forall in Hf |- *. intros y Hy. destruct (Hf y Hy) as [?|[E Hle]]; [by left|].
  right. split; [done|]. destruct (decide (x.1 = y.1)) as [E1|]; [|lia]. exfalso. apply Hx. rewrite E, E1.
  by apply (list_elem_of_fmap_2 (fun z : nrow => (z.1, z.2.1))).
Qed.

Lemma merges_exists ls : Forall sorted_rows ls -> exists S, merges S ls.
Proof.
  intros Hs. exists (merge_sort mle (number 0 ls)). pose proof (merge_sort_Permutation mle (number 0 ls)) as Hp. split; [|done].
  apply sorted_strict; [apply StronglySorted_merge_sort; apply _|]. rewrite Hp. by apply number_NoDup.
Qed.

(** ** Newest wins *)

(** The descent over sorted tables, oldest first: the newest one that has it. *)
Fixpoint newest (ls : list (list row)) (k : bytes) : option bytes :=
  match ls with
  | [] => None
  | l :: ls => match newest ls k with Some v => Some v | None => aget l k end
  end.

Lemma newest_Some ls k v :
  newest ls k = Some v <-> exists i l, ls !! i = Some l /\ aget l k = Some v /\
    forall j l', (i < j)%nat -> ls !! j = Some l' -> aget l' k = None.
Proof.
  revert v. induction ls as [|l ls IH]; intros v; cbn [newest].
  { split; [done|]. intros (i & l & Hl & _). done. }
  destruct (newest ls k) as [w|] eqn:E.
  - rewrite IH. split.
    + intros (i & l' & Hi & Hv & Hj). exists (S i), l'. split_and!; [done..|]. intros [|j] l'' Hlt Hl''; [lia|].
      by apply (Hj j); [lia|].
    + intros ([|i] & l' & Hi & Hv & Hj).
      * exfalso. destruct (proj1 (IH w) eq_refl) as (i' & l'' & Hi' & Hv' & _). specialize (Hj (S i') l'' ltac:(lia) Hi'). congruence.
      * exists i, l'. split_and!; [done..|]. intros j l'' Hlt Hl''. by apply (Hj (S j)); [lia|].
  - split.
    + intros Hv. exists 0%nat, l. split_and!; [done..|]. intros [|j] l' Hlt Hl'; [lia|]. cbn in Hl'.
      clear IH. revert j Hl' Hlt E. induction ls as [|l0 ls IHls]; intros j Hl' Hlt E; [done|]. cbn [newest] in E.
      destruct (newest ls k); [done|]. destruct j as [|j]; [by injection Hl' as <-|]. apply (IHls j); [done|lia|done].
    + intros ([|i] & l' & Hi & Hv & Hj); [by injection Hi as <-|]. exfalso.
      assert (G : None = Some v); [|done]. apply (IH v). exists i, l'. split_and!; [done..|].
      intros j l'' Hlt Hl''. by apply (Hj (S j)); [lia|].
Qed.

(** The rows mergeSection writes: the first of each run of equal keys. *)
Fixpoint dedup (last : option bytes) (l : list row) : list row :=
  match l with
  | [] => []
  | (k, v) :: l =>
      if match last with None => true | Some x => negb (beqb x k) end
      then (k, v) :: dedup (Some k) l else dedup last l
  end.

Lemma dedup_spec l : forall last,
  StronglySorted ble (keys l) -> match last with None => True | Some x => Forall (fun r => ble x r.1) l end ->
  sorted_rows (dedup last l) /\
  match last with None => True | Some x => Forall (fun r => blt x r.1) (dedup last l) end /\
  forall k, aget (dedup last l) k = match last with
    | Some x => if beqb x k then None else aget l k | None => aget l k end.
Proof.
  induction l as [|[k0 v0] l IH]; intros last Hs Hl; cbn [dedup].
  { split_and!; [constructor|by destruct last|]. intros k. destruct last; [by case_cmp|done]. }
  cbn [keys map fst] in Hs. apply StronglySorted_inv in Hs as [Hs Hf]. rewrite Forall_map in Hf. cbn [fst] in Hf.
  destruct (IH (Some k0) Hs Hf) as (IS & IF & IA).
  assert (Hcons : sorted_rows ((k0, v0) :: dedup (Some k0) l)) by (by apply sorted_cons).
  assert (Hget : forall k, aget ((k0, v0) :: dedup (Some k0) l) k = aget ((k0, v0) :: l) k).
  { intros k. cbn [aget]. destruct (beqb_spec k k0) as [->|Hne]; [done|]. rewrite IA.
    rewrite (beqb_false k0 k) by congruence. done. }
  destruct last as [x|]; [|by split_and!]. apply Forall_cons in Hl as [Hx Hl]. cbn [fst] in Hx.
  destruct (beqb_spec x k0) as [->|Hne]; cbn [negb].
  - destruct (IH (Some k0) Hs Hl) as (? & ? & IA'). split_and!; try done. intros k. rewrite IA'. cbn [aget].
    destruct (beqb_spec k0 k) as [->|?]; [done|]. by rewrite (beqb_false k k0) by congruence.
  - assert (Hlt : blt x k0) by (apply ble_lteq in Hx as [?|?]; done). split_and!; [done| |].
    + constructor; [done|]. eapply Forall_impl; [exact IF|]. intros r Hr. by eapply blt_trans.
    + intros k. rewrite Hget. destruct (beqb_spec x k) as [->|?]; [|done].
      apply aget_above. constructor; [done|]. eapply Forall_impl; [exact Hf|]. intros r Hr. by eapply blt_ble_trans.
Qed.

Lemma merges_keys S ls : merges S ls -> StronglySorted ble (keys (map snd S)).
Proof.
  intros [Hs _]. unfold keys. rewrite map_map. induction Hs as [|x S Hs IH Hf]; cbn [map]; [constructor|]. constructor; [done|].
  rewrite Forall_map. eapply Forall_impl; [exact Hf|]. intros y [?|[-> _]]; [by apply blt_ble|apply ble_refl].
Qed.

(** In the merged order a key's first row is the newest input's. *)
Lemma merges_aget S ls k : Forall sorted_rows ls -> merges S ls -> aget (map snd S) k = newest ls k.
Proof.
  intros Hls [Hs Hp].
  assert (Hmem : forall x, x ∈ S <-> exists l, ls !! x.1 = Some l /\ x.2 ∈ l).
  { intros x. rewrite Hp, number_In. split; intros (l & Hl); exists l; rewrite Nat.sub_0_r in *; [|split; [lia|]]; by destruct Hl as (? & ? & ?) || done. }
  assert (Hfirst : forall v, aget (map snd S) k = Some v ->
    exists i, (i, (k, v)) ∈ S /\ forall j w, (j, (k, w)) ∈ S -> (j <= i)%nat).
  { clear Hmem Hp. intros v. induction Hs as [|[i [k0 v0]] S Hs IH Hf]; cbn [map snd aget]; [done|].
    rewrite Forall_forall in Hf. destruct (beqb_spec k k0) as [<-|Hne].
    - intros [= ->]. exists i. split; [set_solver|]. intros j w Hj. apply elem_of_cons in Hj as [[= -> _]|Hj]; [done|].
      destruct (Hf _ Hj) as [Hb|[_ Hb]]; cbn in Hb; [by apply blt_irrefl in Hb|lia].
    - intros E. destruct (IH E) as (i' & Hin & Hmax). exists i'. split; [set_solver|]. intros j w Hj.
      apply elem_of_cons in Hj as [[= _ ? _]|Hj]; [congruence|]. by eapply Hmax. }
  destruct (aget (map snd S) k) as [v|] eqn:E.
  - destruct (Hfirst v eq_refl) as (i & Hin & Hmax). apply Hmem in Hin as (l & Hl & Hin). cbn in Hl, Hin.
    symmetry. apply newest_Some. exists i, l. rewrite Forall_forall in Hls. split_and!; [done| |].
    + apply sorted_aget; [|done]. apply Hls. by eapply list_elem_of_lookup_2.
    + intros j l' Hlt Hl'. destruct (aget l' k) as [w|] eqn:Ew; [|done]. apply aget_elem in Ew.
      enough ((j <= i)%nat) by lia. apply (Hmax j w), Hmem. by exists l'.
  - symmetry. destruct (newest ls k) as [v|] eqn:En; [|done]. apply newest_Some in En as (i & l & Hl & Hv & _).
    apply aget_elem in Hv. apply aget_None in E. exfalso. apply E. unfold keys. rewrite map_map.
    apply (list_elem_of_fmap_2 (fun x : nrow => x.2.1) S (i, (k, v))), Hmem. by exists l.
Qed.

(** ** mergeSection writes the merged rows *)

Section Merged.
Context `{SSTLaws}.

Lemma merge_fold l : forall st,
  Forall (fun r => r.1 <> []) l ->
  exists last', fold_body merge_body st l =
    let* w := set_all (msw st) (dedup (mlast st) l) in
    Ok (MkMS w last' (if decide (dedup (mlast st) l = []) then mrows st
                      else u64 (mrows st + len (dedup (mlast st) l)))).
Proof.
  induction l as [|[k v] l IH]; intros st Hk; cbn [fold_body dedup].
  { exists (mlast st). cbn. by destruct st. }
  apply Forall_cons in Hk as [Hk0 Hk]. cbn [fst] in Hk0. unfold merge_body at 1.
  destruct (match mlast st with None => true | Some x => negb (beqb x k) end) eqn:Et.
  - cbn [set_all]. destruct (Set_ (msw st) k v) as [w| |] eqn:Ew; cbn [rbind]; [|by exists None..].
    assert (Ea : append0 (mlast st) k = Some k) by (by destruct (mlast st), k). rewrite Ea.
    destruct (IH (MkMS w (Some k) (u64 (mrows st + 1))) Hk) as [last' E]. cbn [msw mlast mrows] in E. exists last'. rewrite E.
    destruct (set_all w (dedup (Some k) l)) as [w'| |]; cbn [rbind]; try done. do 2 f_equal.
    rewrite (decide_False (P := (k, v) :: _ = [])) by done. rewrite len_cons. case_decide as En.
    + by rewrite En.
    + unfold u64. rewrite Zplus_mod_idemp_l. f_equal. lia.
  - apply (IH st Hk).
Qed.

(** The rows of one section of the inputs, oldest input first. *)
Definition section_rows (Rs : list (Section -> list row)) (s : Section) : list (list row) := map (fun R => R s) Rs.

Lemma section_sorted rs Rs s : Forall2 run_holds rs Rs -> Forall sorted_rows (section_rows Rs s).
Proof. induction 1 as [|r R rs Rs Hr _ IH]; cbn; constructor; [|done]. by destruct (Hr s) as (_ & ? & _). Qed.

Lemma zip_all {A B} (f : B -> list row) (l : list A) k :
  length l = length k -> zip_with (fun _ b => if true then f b else []) l k = map f k.
Proof. revert k. induction l as [|a l IH]; intros [|b k] Hl; try done. cbn. f_equal. apply IH. cbn in Hl. lia. Qed.

Lemma number_length ls : forall i, length (number i ls) = length (concat ls).
Proof. induction ls as [|l ls IH]; intros i; cbn; [done|]. by rewrite !length_app, length_map, IH. Qed.

(** The section mergeSection writes: sorted, newest input first on a tie, and the
    count it returns is the number of rows written. *)
Lemma mergeSection_rows fuel rs Rs s w :
  Forall2 run_holds rs Rs -> Forall (fun R => Forall (fun r => r.1 <> []) (R s)) Rs ->
  (length (concat (section_rows Rs s)) <= fuel)%nat ->
  exists M, sorted_rows M /\ (forall k, aget M k = newest (section_rows Rs s) k) /\
    mergeSection fuel rs s w = let* w := set_all w M in Ok (u64 (len M), w).
Proof.
  intros Hr Hk Hf. pose proof (section_sorted rs Rs s Hr) as Hs. destruct (merges_exists _ Hs) as (S & HS).
  destruct (open_cursors_ok (fun _ => true) s rs Rs 0 Hr Hk) as (h & hs & Eh & Hat & Hnd & _ & Hrows).
  rewrite (zip_all (fun R : Section -> list row => R s)) in Hrows by (by eapply Forall2_length).
  pose proof (merges_keys _ _ HS) as Hks. destruct (dedup_spec (map snd S) None Hks I) as (Hsm & _ & Hget).
  exists (dedup None (map snd S)). split_and!; [done| |].
  - intros k. rewrite Hget. by apply merges_aget.
  - unfold mergeSection. rewrite Eh. cbn [rbind].
    rewrite (heap_loop_fold merge_body S h hs); [|done|done|apply HS|rewrite (proj2 HS), Hrows; done|].
    2: { rewrite (Permutation_length (proj2 HS)), number_length. exact Hf. }
    assert (Hne : Forall (fun r => r.1 <> []) (map snd S)).
    { apply Forall_forall. intros r Hin. apply list_elem_of_fmap in Hin as (x & -> & Hin). rewrite (proj2 HS) in Hin.
      apply number_In in Hin as (l & _ & Hl & Hin). apply list_elem_of_lookup_2 in Hl. apply list_elem_of_fmap in Hl as (R & -> & HR).
      rewrite Forall_forall in Hk. specialize (Hk R HR). rewrite Forall_forall in Hk. by apply Hk. }
    destruct (merge_fold (map snd S) (MkMS w None 0) Hne) as [last' ->]. cbn [msw mlast mrows].
    destruct (set_all w (dedup None (map snd S))) as [w'| |]; cbn [rbind mrows msw]; try done. do 2 f_equal.
    case_decide as En; [by rewrite En|done].
Qed.

End Merged.
End KMerge.
