(* ===== verification/DB.v ===== *)
(** * store/db.go: the database over the windows and the runs

    The shared state is the active window, the window being sealed, the live run
    list and the manifest, all swapped under one mutex. Memtables are objects
    other goroutines keep pointers to, so they live in a heap and a reader holds
    addresses; a run list is replaced and never edited, so a reader holds the
    list itself. A read makes several accesses and the writer, the sealing
    goroutine and the merge run beside it: [s i] is the shared state at a read's
    [i]-th access, and [fun _ => d] is a read with nothing beside it. File
    operations succeed. Names of artifacts come from casfs, which is not part of
    this repository. *)

From S2P Require Import Prelude Bytes Rows Ef Format Sha256 Container Memtable MemRecover MemRead Sst RunFile Postings Seal.
Import Format.

Module DB.
Import Memtable RunFile Postings Seal.

(** ** The manifest *)

Definition FlushTxs : Z := 500000.
Definition FlushBlocks : Z := 50000.
Definition TerminalTxs : Z := 8000000.

Record RunRef := MkRef {
  rFromTx : Z; rToTx : Z; rFromHeight : Z; rToHeight : Z; rName : bytes; rLevel : Z }.

Definition Terminal (r : RunRef) : bool := TerminalLevel <=? rLevel r.

Record Manifest := MkMan { mVersion : Z; mChainRoot : bytes; mRuns : list RunRef }.

(** Run [b] starts exactly where run [a] ended. *)
Definition tiles (a b : RunRef) : bool :=
  (rFromTx b =? rToTx a) && (rFromHeight b =? u64 (rToHeight a + 1)).

Fixpoint tiling (a : RunRef) (rs : list RunRef) : res unit :=
  match rs with
  | [] => Ok tt
  | b :: rs => if tiles a b then tiling b rs else Err "store: runs do not tile"
  end.

Definition checkTiling (m : Manifest) : res unit :=
  match mRuns m with [] => Ok tt | a :: rs => tiling a rs end.

(** [Manifest.Head] *)
Definition man_Head (m : Manifest) : bytes := match last (mRuns m) with None => [] | Some r => rName r end.

(** hex.DecodeString and hex.EncodeToString on 32-byte names. *)
Definition hex_digit (c : Z) : option Z :=
  if (48 <=? c) && (c <=? 57) then Some (c - 48)
  else if (97 <=? c) && (c <=? 102) then Some (c - 87)
  else if (65 <=? c) && (c <=? 70) then Some (c - 55) else None.

Fixpoint hex_decode (b : bytes) : res bytes :=
  match b with
  | [] => Ok []
  | [_] => Err "encoding/hex"
  | a :: c :: b =>
      match hex_digit a, hex_digit c with
      | Some x, Some y => let* r := hex_decode b in Ok (16 * x + y :: r)
      | _, _ => Err "encoding/hex"
      end
  end.

Definition hex_char (x : Z) : Z := if x <? 10 then 48 + x else 87 + x.
Definition hexName (b : bytes) : bytes := concat (map (fun x => [hex_char (x / 16); hex_char (x mod 16)]) b).

Definition decodeRoot (s : bytes) : res bytes :=
  match hex_decode s with
  | Ok raw => if len raw =? 32 then Ok raw else Err "store: not a 32-byte hash"
  | _ => Err "store: not a 32-byte hash"
  end.

(** ** The shared state *)

Section DB.
Context `{SSTable} (casName : bytes -> bytes) (Keccak256 : bytes -> bytes) (EncodeBare : bytes -> list bytes -> res bytes).

(** The merge in flight: its span, and the inputs once it has taken them. *)
Record merge_job := MkJob { jstart : nat; jend : nat; jinputs : option (list RunRef * list Run * bytes) }.

Record DB := MkDB {
  chainRoot : bytes;
  heap : list memtable;      (* memtable objects, by address *)
  dmem : nat;                (* mem *)
  dfrozen : option nat;      (* frozen, nil being None *)
  man : Manifest;
  ver : list Run;            (* the runs of the current version *)
  merging : option merge_job;  (* mergeDone != nil, and what that merge holds *)
  flushTxs : Z; flushBlocks : Z; terminalTxs : Z }.

Definition with_heap (d : DB) (h : list memtable) : DB :=
  MkDB (chainRoot d) h (dmem d) (dfrozen d) (man d) (ver d) (merging d) (flushTxs d) (flushBlocks d) (terminalTxs d).
Definition with_mems (d : DB) (h : list memtable) (a : nat) (f : option nat) : DB :=
  MkDB (chainRoot d) h a f (man d) (ver d) (merging d) (flushTxs d) (flushBlocks d) (terminalTxs d).
Definition with_runs (d : DB) (rs : list RunRef) (v : list Run) (f : option nat) : DB :=
  MkDB (chainRoot d) (heap d) (dmem d) f (MkMan (mVersion (man d)) (mChainRoot (man d)) rs) v
    (merging d) (flushTxs d) (flushBlocks d) (terminalTxs d).
Definition with_merging (d : DB) (j : option merge_job) : DB :=
  MkDB (chainRoot d) (heap d) (dmem d) (dfrozen d) (man d) (ver d) j (flushTxs d) (flushBlocks d) (terminalTxs d).

(** The object at an address. *)
Definition obj (d : DB) (a : nat) : res memtable :=
  match heap d !! a with Some m => Ok m | None => Panic end.

Definition mems (d : DB) : nat * option nat := (dmem d, dfrozen d).
Definition snapshot (d : DB) : list Run := ver d.

Definition flushedTx (d : DB) : Z := match last (mRuns (man d)) with None => 0 | Some r => rToTx r end.
Definition flushedHeight (d : DB) : Z := match last (mRuns (man d)) with None => 0 | Some r => u64 (rToHeight r + 1) end.

(** What [window] shows of an object, if it has started. *)
Definition started_window (d : DB) (a : option nat) : res (option window) :=
  match a with
  | None => Ok None
  | Some a => let* m := obj d a in Ok (if started (win m) then Some (win m) else None)
  end.

Definition NextTx (s : nat -> DB) : res Z :=
  let (a, f) := mems (s 0%nat) in
  let* w := started_window (s 1%nat) (Some a) in
  match w with
  | Some w => Ok (nextTx w)
  | None =>
      let* w := started_window (s 2%nat) f in
      match w with Some w => Ok (nextTx w) | None => Ok (flushedTx (s 3%nat)) end
  end.

Definition NextHeight (s : nat -> DB) : res Z :=
  let (a, f) := mems (s 0%nat) in
  let* w := started_window (s 1%nat) (Some a) in
  match w with
  | Some w => Ok (nextHeight w)
  | None =>
      let* w := started_window (s 2%nat) f in
      match w with Some w => Ok (nextHeight w) | None => Ok (flushedHeight (s 3%nat)) end
  end.

Definition Head (s : nat -> DB) : res (option Z) :=
  let* n := NextHeight s in Ok (if n =? 0 then None else Some (n - 1)).

Definition FlushedFloor (d : DB) : Z := match last (mRuns (man d)) with None => 0 | Some r => rToHeight r end.

(** ** Cutting and sealing *)

(** [waitCut] has collected the cut before, so no window is frozen. The log is
    renamed under the frozen window and a fresh object takes its place. *)
Definition cutWindow (d : DB) : res DB :=
  let* m := obj d (dmem d) in
  let w := win m in
  if negb (started w) || (nextHeight w =? baseHeight w) then Ok d else
  let m := flushLocked m in
  let fresh := reset (newMemtableAt [] false) (nextTx w) (nextHeight w) in
  Ok (with_mems d (<[dmem d := m]> (heap d) ++ [fresh]) (length (heap d)) (Some (dmem d))).

Definition MaybeFlush (d : DB) : res DB :=
  let* m := obj d (dmem d) in
  let w := win m in
  if negb (started w) then Ok d
  else if (u64 (nextTx w - baseTx w) <? flushTxs d) && (u64 (nextHeight w - baseHeight w) <? flushBlocks d) then Ok d
  else cutWindow d.

(** The name of the run before, or the chain root. *)
Definition seal_prev (d : DB) : res bytes :=
  match last (mRuns (man d)) with None => Ok (chainRoot d) | Some r => decodeRoot (rName r) end.

(** The run a frozen window becomes, and its manifest entry. *)
Definition seal_run (prev : bytes) (m : memtable) : res (RunRef * Run) :=
  let w := win m in
  let* rw := writeSections (NewRunWriter prev 0) m in
  let fin := Finish rw (baseTx w) (nextTx w) (baseHeight w) (u64 (nextHeight w - 1)) in
  let* run := OpenRun (fin_file fin) in
  Ok (MkRef (baseTx w) (nextTx w) (baseHeight w) (u64 (nextHeight w - 1)) (casName (fin_hashed fin)) 0, run).

(** The manifest lands and the version swaps, in one critical section. *)
Definition publish (d : DB) (ref : RunRef) (run : Run) : DB :=
  with_runs d (mRuns (man d) ++ [ref]) (ver d ++ [run]) None.

(** [memtable.remove]: the log is closed and deleted; what is in RAM stays. *)
Definition mem_remove (m : memtable) : memtable :=
  MkMem (mlog m) (pos m) (flushed m) (win m) (mem m) false (readOnly m).

(** ** Point reads *)

(** ONE DESCENT FOR EVERYTHING: the active window, the frozen one, then the live
    runs newest to oldest; the first hit wins. *)
Definition descend {A} (s : nat -> DB) (get : memtable -> res (option A)) (run : list Run -> res (option A)) : res (option A) :=
  let (a, f) := mems (s 0%nat) in
  let* m := obj (s 1%nat) a in
  let* v := get m in
  match v with
  | Some v => Ok (Some v)
  | None =>
      let* v := match f with None => Ok None | Some f => let* m := obj (s 2%nat) f in get m end in
      match v with
      | Some v => Ok (Some v)
      | None => run (reverse (snapshot (s 3%nat)))
      end
  end.

Definition covers (byHeight : bool) (f : Footer) (n : Z) : bool :=
  if byHeight then (FromHeight f <=? n) && (n <=? ToHeight f) else (FromTx f <=? n) && (n <? ToTx f).

(** The run loop of [chainRow], newest run first. *)
Fixpoint chain_runs (pfx : bytes) (n : Z) (byHeight : bool) (rs : list Run) : res (option bytes) :=
  match rs with
  | [] => Ok None
  | r :: rs =>
      if covers byHeight (RFooter r) n then Get r SecChain (numKey pfx n)
      else chain_runs pfx n byHeight rs
  end.

Definition chainRow (s : nat -> DB) (fam : nat) (n : Z) (byHeight : bool) : res (option bytes) :=
  descend s (fun m => (chainGet m fam n).1) (fun rs =>
    match famPrefix !! fam with None => Panic | Some pfx => chain_runs pfx n byHeight rs end).

Definition famByHeight (fam : nat) : bool := (fam =? famBlk)%nat || (fam =? famHdr)%nat || (fam =? famPvm)%nat.

Fixpoint num_runs (key : bytes) (rs : list Run) : res (option Z) :=
  match rs with
  | [] => Ok None
  | r :: rs =>
      let* v := Get r SecLookup key in
      match v with
      | None => num_runs key rs
      | Some v => if len v =? 8 then Ok (Some (be_val v)) else Err "store: row length, want 8"
      end
  end.

Definition lookupNum (s : nat -> DB) (key : bytes) : res (option Z) :=
  descend s (fun m => Ok (Memtable.lookupNum m key)) (num_runs key).

Definition TxNumByHash (s : nat -> DB) (hash : bytes) := lookupNum s (TxHashKey hash).
Definition HeightByHash (s : nat -> DB) (hash : bytes) := lookupNum s (BlkHashKey hash).
Definition HeightByContainerID (s : nat -> DB) (id : bytes) := lookupNum s (CidKey id).

Fixpoint latest_runs (sec : Section) (prefix : bytes) (at_ : Z) (rs : list Run) : res (option bytes) :=
  match rs with
  | [] => Ok None
  | r :: rs =>
      if at_ <? FromTx (RFooter r) then latest_runs sec prefix at_ rs
      else
        let* o := Latest r sec prefix at_ in
        match o with Some (v, _) => Ok (Some v) | None => latest_runs sec prefix at_ rs end
  end.

Definition latest (s : nat -> DB) (sec : Section) (prefix : bytes) (at_ : Z) : res (option bytes) :=
  descend s (fun m => Ok (fst <$> latestState m prefix at_)) (latest_runs sec prefix at_).

Definition AccountAt (s : nat -> DB) (addr : bytes) (at_ : Z) := latest s SecState (AccountPrefix addr) at_.
Definition StorageAt (s : nat -> DB) (addr slot : bytes) (at_ : Z) := latest s SecState (SlotPrefix addr slot) at_.
Definition CodeHashAt (s : nat -> DB) (addr : bytes) (at_ : Z) := latest s SecState (CodeRefPrefix addr) at_.

(** [Code] behind its cache: the run loop. *)
Fixpoint code_runs (key : bytes) (rs : list Run) : res (option bytes) :=
  match rs with
  | [] => Ok None
  | r :: rs => let* v := Get r SecState key in match v with Some v => Ok (Some v) | None => code_runs key rs end
  end.

Definition Code_descent (s : nat -> DB) (hash : bytes) : res (option bytes) :=
  descend s (fun m => Ok (codeBlob m hash)) (code_runs (CodeKey hash)).

Definition HeaderRLPAt (s : nat -> DB) (height : Z) := chainRow s famHdr height true.
Definition PvmAt (s : nat -> DB) (height : Z) := chainRow s famPvm height true.
Definition TxRLP (s : nat -> DB) (n : Z) := chainRow s famTx n false.
Definition FramesAt (s : nat -> DB) (n : Z) := chainRow s famItx n false.
Definition ReceiptAt (s : nat -> DB) (n : Z) := chainRow s famRcpt n false.

(** A block's first TxNum and its transaction count. *)
Definition BlockTxRange (s : nat -> DB) (height : Z) : res (option (Z * Z)) :=
  let* v := chainRow s famBlk height true in
  match v with
  | None => Ok None
  | Some v =>
      if negb (len v =? 12) then Err "store: blk row length, want 12"
      else Ok (Some (u64 (be_val (take 8 v)), u32 (be_val (drop 8 v))))
  end.

(** frontier.go: the block's boundary slot. *)
Definition TxNumAtEndOf (s : nat -> DB) (height : Z) : res (option Z) :=
  let* r := BlockTxRange s height in
  match r with None => Ok None | Some (first, count) => Ok (Some (u64 (first + count))) end.

(** ** From a TxNum to its block *)

Fixpoint ref_bounds (txnum : Z) (rs : list RunRef) : option (Z * Z) :=
  match rs with
  | [] => None
  | r :: rs => if (rFromTx r <=? txnum) && (txnum <? rToTx r) then Some (rFromHeight r, rToHeight r)
               else ref_bounds txnum rs
  end.

Definition win_bounds (txnum : Z) (w : option window) : option (Z * Z) :=
  match w with
  | Some w => if (baseTx w <=? txnum) && (txnum <? nextTx w) then Some (baseHeight w, u64 (nextHeight w - 1)) else None
  | None => None
  end.

Definition heightBounds (s : nat -> DB) (txnum : Z) : res (option (Z * Z)) :=
  let (a, f) := mems (s 0%nat) in
  let* w := started_window (s 1%nat) (Some a) in
  match win_bounds txnum w with
  | Some b => Ok (Some b)
  | None =>
      let* w := started_window (s 2%nat) f in
      match win_bounds txnum w with
      | Some b => Ok (Some b)
      | None => Ok (ref_bounds txnum (mRuns (man (s 3%nat))))
      end
  end.

(** The binary search; each probe is a [BlockTxRange] of its own. *)
Fixpoint height_loop (fuel : nat) (probe : nat -> Z -> res (option (Z * Z))) (txnum lo hi : Z) : res (option Z) :=
  match fuel with
  | O => Panic
  | S fuel =>
      if lo <? hi then
        let mid := u64 (u64 (lo + hi) + 1) / 2 in
        let* r := probe fuel mid in
        match r with
        | None => Ok None
        | Some (first, _) =>
            if first <=? txnum then height_loop fuel probe txnum mid hi
            else height_loop fuel probe txnum lo (u64 (mid - 1))
        end
      else Ok (Some lo)
  end.

Definition HeightOfTx (s : nat -> DB) (txnum : Z) : res (option Z) :=
  let* b := heightBounds s txnum in
  match b with
  | None => Ok None
  | Some (lo, hi) => height_loop 65 (fun left => BlockTxRange (fun i => s (4 + (4 * (64 - left) + i))%nat)) txnum lo hi
  end.

End DB.
End DB.
