(* ===== verification/Contents.v ===== *)
(** * What the parts of the database hold

    A window or a run holds the rows of a stretch of blocks; [content] is that
    stretch's rows, independent of where they are stored. This file relates
    memtables and runs to contents, shows that the run loops of store/db.go read
    the newest-first union of their runs' contents, and that a merged run holds
    the union of its inputs. *)

From S2P Require Import Prelude Bytes Rows Ef Format Sha256 Container Memtable MemRecover MemRead Sst RunFile Postings Seal Window Growth KMerge DB.
Import Format.

Module Contents.
Import Memtable MemRecover MemRead RunFile Postings Seal Window Growth KMerge DB.

Record content := MkC {
  cChain : gmap (nat * Z) bytes;
  cState : states;
  cCode : gmap bytes bytes;
  cNums : gmap bytes Z;
  cFromTx : Z; cToTx : Z; cFromH : Z; cToH : Z }.

Definition empty_content (t h : Z) : content := MkC ∅ ∅ ∅ ∅ t t h h.

(** Every height of the stretch has its block row, and the blocks' first TxNums
    tile the stretch: a block of [n] transactions takes [n + 1] numbers. *)
Definition blk_row (first n : Z) : bytes := bigE 8 first ++ bigE 4 n.
Definition blocky (c : content) : Prop :=
  exists first : Z -> Z, first (cFromH c) = cFromTx c /\ first (cToH c) = cToTx c /\
    forall h, cFromH c <= h < cToH c -> exists n, 0 <= n < 2 ^ 32 /\ first (h + 1) = first h + n + 1 /\
      cChain c !! (famBlk, h) = Some (blk_row (first h) n).

(** Rows only at the numbers of the stretch. *)
Definition content_ok (c : content) : Prop :=
  0 <= cFromTx c <= cToTx c /\ cToTx c < 2 ^ 63 /\ 0 <= cFromH c <= cToH c /\ cToH c < 2 ^ 63 /\
  (forall fam n v, cChain c !! (fam, n) = Some v ->
    if famByHeight fam then cFromH c <= n < cToH c else cFromTx c <= n < cToTx c) /\
  (forall p, ascending (hist (cState c) p) /\ Forall (fun x => cFromTx c <= x.1 < cToTx c) (hist (cState c) p)) /\
  (forall k n, cNums c !! k = Some n -> u64_ok n) /\ blocky c.

(** A stretch of at least one block. *)
Definition nonempty (c : content) : Prop := cFromTx c < cToTx c /\ cFromH c < cToH c.

(** Each stretch starts where the one before ended. *)
Fixpoint tiled (cs : list content) : Prop :=
  match cs with
  | [] => True
  | c :: cs => match cs with [] => True | c' :: _ => nonempty c /\ cFromTx c' = cToTx c /\ cFromH c' = cToH c end /\ tiled cs
  end.

(** ** Reading a list of contents, oldest first *)

(** The newest that has an answer. *)
Fixpoint look {A} (f : content -> option A) (cs : list content) : option A :=
  match cs with
  | [] => None
  | c :: cs => match look f cs with Some v => Some v | None => f c end
  end.

Definition chain_of (k : nat * Z) (c : content) : option bytes := cChain c !! k.
Definition num_of (k : bytes) (c : content) : option Z := cNums c !! k.
Definition code_of (k : bytes) (c : content) : option bytes := cCode c !! k.
Definition hist_at (cs : list content) (p : bytes) : list (Z * bytes) := concat (map (fun c => hist (cState c) p) cs).

Lemma look_app {A} (f : content -> option A) a b :
  look f (a ++ b) = match look f b with Some v => Some v | None => look f a end.
Proof. induction a as [|c a IH]; cbn [look app]; [by destruct (look f b)|]. rewrite IH. by destruct (look f b). Qed.

Lemma look_None {A} (f : content -> option A) cs : look f cs = None <-> Forall (fun c => f c = None) cs.
Proof.
  induction cs as [|c cs IH]; cbn [look]; [by split|]. rewrite Forall_cons. destruct (look f cs) as [v|].
  - split; [done|]. intros [_ Hc]. by apply IH in Hc.
  - rewrite <- IH. tauto.
Qed.

Lemma look_Some_In {A} (f : content -> option A) cs v : look f cs = Some v -> exists c, c ∈ cs /\ f c = Some v.
Proof.
  induction cs as [|c cs IH]; cbn [look]; [done|]. destruct (look f cs) as [w|].
  - intros E. destruct (IH E) as (c' & Hin & Hc). exists c'. split; [set_solver|done].
  - intros E. exists c. split; [set_solver|done].
Qed.

Lemma hist_at_app a b p : hist_at (a ++ b) p = hist_at a p ++ hist_at b p.
Proof. unfold hist_at. by rewrite map_app, concat_app. Qed.

Lemma hist_at_snoc l c p : hist_at (l ++ [c]) p = hist_at l p ++ hist (cState c) p.
Proof. rewrite hist_at_app. unfold hist_at at 2. cbn. by rewrite app_nil_r. Qed.

Lemma look_snoc {A} (f : content -> option A) l c :
  look f (l ++ [c]) = match f c with Some v => Some v | None => look f l end.
Proof. by rewrite look_app. Qed.

(** ** Tiled stretches are disjoint and in order *)

Lemma tiled_app a b : tiled (a ++ b) -> tiled a /\ tiled b.
Proof.
  induction a as [|c a IH]; intros Ht; [by split|]. cbn [app tiled] in Ht. destruct Ht as [Hc Ht].
  destruct (IH Ht) as [Ha Hb]. split; [|done]. cbn [tiled]. split; [|done]. by destruct a.
Qed.

(** Every later stretch starts at or after the end of an earlier one. *)
Lemma tiled_after c cs x :
  tiled (c :: cs) -> Forall content_ok (c :: cs) -> x ∈ cs ->
  nonempty c /\ cToTx c <= cFromTx x /\ cToH c <= cFromH x.
Proof.
  revert c. induction cs as [|c' cs IH]; intros c Ht Ho Hx; [set_solver|].
  destruct Ht as [(Hn & E1 & E2) Ht]. apply Forall_cons in Ho as [Ho Ho'].
  apply elem_of_cons in Hx as [->|Hx]; [split_and!; [done|lia..]|].
  destruct (IH c' Ht Ho' Hx) as (Hn' & ? & ?). unfold nonempty in *. split_and!; lia.
Qed.

Lemma tiled_snoc_before cs c x :
  tiled (cs ++ [c]) -> Forall content_ok (cs ++ [c]) -> x ∈ cs ->
  nonempty x /\ cToTx x <= cFromTx c /\ cToH x <= cFromH c.
Proof.
  intros Ht Ho Hx. apply list_elem_of_split in Hx as (a & b & ->). rewrite <- app_assoc in Ht, Ho. cbn [app] in Ht, Ho.
  apply tiled_app in Ht as [_ Ht]. apply Forall_app in Ho as [_ Ho]. apply (tiled_after x (b ++ [c])); [done|done|set_solver].
Qed.

(** A chain row at a number of the last stretch is the last stretch's. *)
Lemma chain_last_owns cs c fam n :
  tiled (cs ++ [c]) -> Forall content_ok (cs ++ [c]) ->
  (if famByHeight fam then cFromH c <= n < cToH c else cFromTx c <= n < cToTx c) ->
  look (chain_of (fam, n)) (cs ++ [c]) = cChain c !! (fam, n).
Proof.
  intros Ht Ho Hn. rewrite look_app. cbn [look]. unfold chain_of at 1. destruct (cChain c !! (fam, n)); [done|].
  apply look_None, Forall_forall. intros x Hx. destruct (tiled_snoc_before cs c x Ht Ho Hx) as (_ & H1 & H2).
  unfold chain_of. destruct (cChain x !! (fam, n)) as [v|] eqn:E; [|done]. exfalso.
  apply Forall_app in Ho as [Ho _]. rewrite Forall_forall in Ho. destruct (Ho x Hx) as (_ & _ & _ & _ & Hc & _).
  specialize (Hc _ _ _ E). destruct (famByHeight fam); lia.
Qed.

(** ** Runs and their contents *)

Section Runs.
Context `{SSTLaws}.

(** The rows of a run that holds [c]. *)
Definition represents (R : Section -> list row) (c : content) : Prop :=
  rows_ok R /\ (forall s, Forall (fun r => r.1 <> []) (R s)) /\
  (forall fam pfx n, famPrefix !! fam = Some pfx -> u64_ok n ->
    aget (R SecChain) (numKey pfx n) = cChain c !! (fam, n)) /\
  stored_rows (R SecState) /\
  (forall p, state_prefix p -> history_of p (hist (cState c) p) (R SecState)) /\
  (forall h, aget (R SecState) (CodeKey h) = cCode c !! h) /\
  (forall k, num_key k -> aget (R SecLookup) k = bigE 8 <$> cNums c !! k) /\ chain_keyed (R SecChain).

Definition footer_of (f : Footer) (c : content) : Prop :=
  FromTx f = cFromTx c /\ ToTx f = cToTx c /\ FromHeight f = cFromH c /\ ToHeight f + 1 = cToH c.

Definition run_serves (r : Run) (c : content) : Prop :=
  content_ok c /\ (footer_of (RFooter r) c /\ nonempty c) /\ exists R, run_holds r R /\ represents R c.

Lemma serves_ok rs cs : Forall2 run_serves rs cs -> Forall content_ok cs.
Proof. induction 1 as [|r c rs cs [? _] _ IH]; by constructor. Qed.

Lemma serves_chain r c fam pfx n :
  run_serves r c -> famPrefix !! fam = Some pfx -> u64_ok n ->
  Get r SecChain (numKey pfx n) = Ok (cChain c !! (fam, n)).
Proof. intros (_ & _ & R & Hh & _ & _ & Hc & _) Hp Hn. by rewrite (run_Get_ok r R _ _ Hh), (Hc fam). Qed.

Lemma covers_spec r c fam n :
  run_serves r c -> covers (famByHeight fam) (RFooter r) n = true <->
  (if famByHeight fam then cFromH c <= n < cToH c else cFromTx c <= n < cToTx c).
Proof.
  intros (_ & ((E1 & E2 & E3 & E4) & _) & _). unfold covers. destruct (famByHeight fam);
    rewrite andb_true_iff, !Z.leb_le || rewrite andb_true_iff, Z.leb_le, Z.ltb_lt; lia.
Qed.

Lemma chain_runs_ok rs cs fam pfx n :
  Forall2 run_serves rs cs -> tiled cs -> famPrefix !! fam = Some pfx -> u64_ok n ->
  chain_runs pfx n (famByHeight fam) (reverse rs) = Ok (look (chain_of (fam, n)) cs).
Proof.
  intros Hr Ht Hp Hn. revert cs Hr Ht. induction rs as [|r rs IH] using rev_ind; intros cs Hr Ht.
  { inv Hr. done. }
  apply Forall2_app_inv_l in Hr as (cs' & l & Hr & Hl & ->). inv Hl as [|? c ? ? Hc Hnil]. inv Hnil.
  pose proof (serves_ok _ _ Hr) as Ho. pose proof (proj1 Hc) as Hco.
  rewrite reverse_app, reverse_singleton. cbn [app chain_runs].
  pose proof (covers_spec r c fam n Hc) as Hcov. destruct (covers _ _ _) eqn:Ecov.
  - rewrite (serves_chain r c fam pfx n Hc Hp Hn). f_equal. symmetry. apply chain_last_owns; [done| |by apply Hcov].
    apply Forall_app. split; [done|by constructor].
  - rewrite (IH cs' Hr) by (by apply tiled_app in Ht as [? _]). rewrite look_app. cbn [look]. unfold chain_of at 2.
    destruct (cChain c !! (fam, n)) as [v|] eqn:E; [|done]. exfalso.
    destruct Hco as (_ & _ & _ & _ & Hrow & _). apply Hrow in E. apply Hcov in E. done.
Qed.

Lemma last_write_app a b at_ :
  last_write (a ++ b) at_ = match last_write b at_ with Some x => Some x | None => last_write a at_ end.
Proof.
  unfold last_write. rewrite not_after_app, last_app. destruct (last (not_after at_ b)) as [[t v]|]; done.
Qed.

Lemma last_write_after h at_ : Forall (fun x => at_ < x.1) h -> last_write h at_ = None.
Proof.
  intros Hf. unfold last_write. replace (not_after at_ h) with (@nil (Z * bytes)); [done|].
  unfold not_after. induction Hf as [|x h Hx _ IH]; [done|]. cbn [List.filter]. by rewrite (proj2 (Z.leb_gt _ _)).
Qed.

Lemma serves_latest r c p at_ :
  run_serves r c -> state_prefix p -> 0 <= at_ -> u64_ok (at_ + 1) ->
  Latest r SecState p at_ = Ok (last_write (hist (cState c) p) at_).
Proof.
  intros (Ho & _ & R & Hh & _ & _ & _ & Hst & Hhi & _) Hp Ha Hb. rewrite (Latest_ok r R p _ at_ Hh (Hhi p Hp)) by done.
  f_equal. apply latest_in_spec. by destruct Ho as (_ & _ & _ & _ & _ & Hasc & _); apply Hasc.
Qed.

Lemma latest_runs_ok rs cs p at_ :
  Forall2 run_serves rs cs -> state_prefix p -> 0 <= at_ -> u64_ok (at_ + 1) ->
  latest_runs SecState p at_ (reverse rs) = Ok (fst <$> last_write (hist_at cs p) at_).
Proof.
  intros Hr Hp Ha Hb. revert cs Hr. induction rs as [|r rs IH] using rev_ind; intros cs Hr; [by inv Hr|].
  apply Forall2_app_inv_l in Hr as (cs' & l & Hr & Hl & ->). inv Hl as [|? c ? ? Hc Hnil]. inv Hnil.
  rewrite reverse_app, reverse_singleton. cbn [app latest_runs]. rewrite hist_at_app, last_write_app.
  unfold hist_at at 1. cbn [map concat]. rewrite app_nil_r. destruct (Z.ltb_spec at_ (FromTx (RFooter r))) as [Hlt|Hge].
  - rewrite (IH cs' Hr), (last_write_after (hist (cState c) p)); [done|]. destruct Hc as ((_ & _ & _ & _ & _ & Hs & _) & ((E & _) & _) & _).
    eapply Forall_impl; [apply Hs|]. cbn. lia.
  - rewrite (serves_latest r c p at_) by done. cbn [rbind]. destruct (last_write (hist (cState c) p) at_) as [[v t]|]; [done|].
    by apply IH.
Qed.

Lemma num_runs_ok rs cs k :
  Forall2 run_serves rs cs -> num_key k -> num_runs k (reverse rs) = Ok (look (num_of k) cs).
Proof.
  intros Hr Hk. revert cs Hr. induction rs as [|r rs IH] using rev_ind; intros cs Hr; [by inv Hr|].
  apply Forall2_app_inv_l in Hr as (cs' & l & Hr & Hl & ->). inv Hl as [|? c ? ? Hc Hnil]. inv Hnil.
  rewrite reverse_app, reverse_singleton. cbn [app num_runs]. rewrite look_app. cbn [look]. unfold num_of at 1.
  destruct Hc as ((_ & _ & _ & _ & _ & _ & Hu & _) & _ & R & Hh & _ & _ & _ & _ & _ & _ & Hn & _).
  rewrite (run_Get_ok r R _ _ Hh), (Hn k Hk). cbn [rbind]. destruct (cNums c !! k) as [n|] eqn:E; cbn [fmap option_fmap option_map].
  - lens. rewrite Z.eqb_refl, be_val_be_small; [done|]. specialize (Hu k n E). unfold u64_ok in Hu. lia.
  - by apply IH.
Qed.

Lemma code_runs_ok rs cs h :
  Forall2 run_serves rs cs -> code_runs (CodeKey h) (reverse rs) = Ok (look (code_of h) cs).
Proof.
  intros Hr. revert cs Hr. induction rs as [|r rs IH] using rev_ind; intros cs Hr; [by inv Hr|].
  apply Forall2_app_inv_l in Hr as (cs' & l & Hr & Hl & ->). inv Hl as [|? c ? ? Hc Hnil]. inv Hnil.
  rewrite reverse_app, reverse_singleton. cbn [app code_runs]. rewrite look_app. cbn [look]. unfold code_of at 1.
  destruct Hc as (_ & _ & R & Hh & _ & _ & _ & _ & _ & Hco & _).
  rewrite (run_Get_ok r R _ _ Hh), Hco. cbn [rbind]. destruct (cCode c !! h); [done|]. by apply IH.
Qed.

(** ** Joining stretches *)

Definition combine (a b : content) : content :=
  MkC (cChain b ∪ cChain a) (union_with (fun x y => Some (x ++ y)) (cState a) (cState b))
    (cCode b ∪ cCode a) (cNums b ∪ cNums a) (cFromTx a) (cToTx b) (cFromH a) (cToH b).
Definition combine_all (c : content) (cs : list content) : content := fold_left combine cs c.

Lemma hist_combine a b p : hist (cState (combine a b)) p = hist (cState a) p ++ hist (cState b) p.
Proof.
  unfold hist, combine. cbn [cState]. rewrite lookup_union_with.
  destruct (cState a !! p), (cState b !! p); cbn; by rewrite ?app_nil_r.
Qed.

Lemma hist_combine_all cs p : forall c, hist (cState (combine_all c cs)) p = hist_at (c :: cs) p.
Proof.
  induction cs as [|d cs IH]; intros c; cbn [combine_all fold_left]; [unfold hist_at; cbn; by rewrite app_nil_r|].
  fold (combine_all (combine c d) cs). rewrite IH. unfold hist_at. cbn [map concat]. by rewrite hist_combine, app_assoc.
Qed.

(** A lookup that takes the newer side where it has one distributes over [combine]. *)
Lemma look_combine_all {A} (f : content -> option A) :
  (forall a b, f (combine a b) = match f b with Some v => Some v | None => f a end) ->
  forall cs c, f (combine_all c cs) = look f (c :: cs).
Proof.
  intros Hf. induction cs as [|d cs IH]; intros c; cbn [combine_all fold_left]; [done|].
  fold (combine_all (combine c d) cs). rewrite IH. cbn [look]. rewrite Hf. by destruct (look f cs).
Qed.

Lemma union_newest {K} `{Countable K} {A} (b a : gmap K A) k :
  (b ∪ a) !! k = match b !! k with Some v => Some v | None => a !! k end.
Proof. rewrite lookup_union. destruct (b !! k), (a !! k); done. Qed.

Lemma chain_combine c cs k : cChain (combine_all c cs) !! k = look (chain_of k) (c :: cs).
Proof. apply (look_combine_all (chain_of k)). intros a b. apply union_newest. Qed.
Lemma num_combine c cs k : cNums (combine_all c cs) !! k = look (num_of k) (c :: cs).
Proof. apply (look_combine_all (num_of k)). intros a b. apply union_newest. Qed.
Lemma code_combine c cs k : cCode (combine_all c cs) !! k = look (code_of k) (c :: cs).
Proof. apply (look_combine_all (code_of k)). intros a b. apply union_newest. Qed.

Lemma last_cons {A} (e : A) l x : List.last (e :: l) x = List.last l e.
Proof.
  revert e x. induction l as [|y l IH]; intros e x; [done|].
  change (List.last (y :: l) x = List.last (y :: l) e). by rewrite (IH y x), (IH y e).
Qed.

Lemma last_In {A} (c : A) cs : List.last cs c ∈ c :: cs.
Proof. revert c. induction cs as [|d cs IH]; intros c; [set_solver|]. rewrite last_cons. specialize (IH d). set_solver. Qed.

Lemma combine_bounds cs : forall c,
  cFromTx (combine_all c cs) = cFromTx c /\ cFromH (combine_all c cs) = cFromH c /\
  cToTx (combine_all c cs) = cToTx (List.last cs c) /\ cToH (combine_all c cs) = cToH (List.last cs c).
Proof.
  induction cs as [|d cs IH]; intros c; cbn [combine_all fold_left]; [done|]. fold (combine_all (combine c d) cs).
  destruct (IH (combine c d)) as (E1 & E2 & E3 & E4). rewrite E1, E2, E3, E4. destruct cs as [|e cs]; [done|]. by rewrite !last_cons.
Qed.

(** Replacing a span by its join leaves the list tiled. *)
Lemma tiled_combine a x y b : tiled (a ++ x :: y :: b) -> tiled (a ++ combine x y :: b).
Proof.
  induction a as [|z a IH]; cbn [app]; intros Ht.
  - destruct Ht as [(Hx & E1 & E2) [Hy Ht]]. split; [|done]. destruct b as [|w b]; [done|].
    destruct Hy as ((? & ?) & ? & ?). destruct Hx. unfold nonempty, combine. cbn. split_and!; lia.
  - destruct Ht as [Hz Ht]. split; [|by apply IH]. destruct a; [|done]. exact Hz.
Qed.

Lemma tiled_join a b cs : forall c, tiled (a ++ (c :: cs) ++ b) -> tiled (a ++ combine_all c cs :: b).
Proof.
  induction cs as [|d cs IH]; intros c Ht; [done|]. cbn [combine_all fold_left]. apply IH. cbn [app]. by apply tiled_combine.
Qed.

(** Where a list of stretches lies. *)
Lemma tiled_within c cs x :
  tiled (c :: cs) -> Forall content_ok (c :: cs) -> x ∈ c :: cs ->
  cFromTx c <= cFromTx x /\ cToTx x <= cToTx (List.last cs c) /\
  cFromH c <= cFromH x /\ cToH x <= cToH (List.last cs c).
Proof.
  revert c x. induction cs as [|d cs IH]; intros c x Ht Ho Hx.
  { apply list_elem_of_singleton in Hx as ->. cbn. lia. }
  rewrite last_cons. pose proof Ho as Ho1. apply Forall_cons in Ho1 as [Hc Ho']. destruct Ht as [((Hn1 & Hn2) & E1 & E2) Ht].
  pose proof (IH d d Ht Ho' ltac:(set_solver)) as Hd. destruct Hc as (? & ? & ? & ? & _). pose proof (Forall_inv Ho') as (? & ? & ? & ? & _).
  apply elem_of_cons in Hx as [->|Hx]; [lia|].
  specialize (IH d x Ht Ho' Hx). lia.
Qed.

Lemma ascending_concat a b :
  ascending a -> ascending b -> (forall x y, x ∈ a -> y ∈ b -> x.1 < y.1) -> ascending (a ++ b).
Proof.
  unfold ascending. rewrite map_app. induction a as [|x a IH]; intros Ha Hb Hlt; [done|]. cbn [map app] in *.
  apply StronglySorted_inv in Ha as [Ha Hf]. constructor.
  - apply IH; [done..|]. intros. apply Hlt; [set_solver|done].
  - apply Forall_app. split; [done|]. rewrite Forall_map. apply Forall_forall. intros y Hy. apply Hlt; [set_solver|done].
Qed.

Lemma hist_at_In cs p x : x ∈ hist_at cs p <-> exists c, c ∈ cs /\ x ∈ hist (cState c) p.
Proof.
  unfold hist_at. rewrite list_elem_of_In, in_concat. split.
  - intros (l & Hl & Hx). apply in_map_iff in Hl as (c & <- & Hc). exists c. by rewrite !list_elem_of_In.
  - intros (c & Hc & Hx). exists (hist (cState c) p). apply list_elem_of_In in Hc. apply list_elem_of_In in Hx. split; [|done]. apply in_map_iff. eauto.
Qed.

Lemma hist_at_ascending cs p : tiled cs -> Forall content_ok cs -> ascending (hist_at cs p).
Proof.
  induction cs as [|c cs IH]; intros Ht Ho; [constructor|]. pose proof Ho as Ho'. apply Forall_cons in Ho' as [Hc Hcs].
  change (hist_at (c :: cs) p) with (hist (cState c) p ++ hist_at cs p). destruct Hc as (_ & _ & _ & _ & _ & Hh & _). apply ascending_concat.
  - apply Hh.
  - apply IH; [by destruct Ht|done].
  - intros x y Hx Hy. apply hist_at_In in Hy as (d & Hd & Hy). destruct (tiled_after c cs d Ht Ho Hd) as (_ & Hle & _).
    destruct (Hh p) as [_ Hr]. rewrite Forall_forall in Hr. specialize (Hr x Hx). cbn in Hr.
    rewrite Forall_forall in Hcs. destruct (Hcs d Hd) as (_ & _ & _ & _ & _ & Hh' & _). destruct (Hh' p) as [_ Hr'].
    rewrite Forall_forall in Hr'. specialize (Hr' y Hy). cbn in Hr'. lia.
Qed.

(** Adjacent stretches of blocks join. *)
Definition rows_in (c : content) : Prop :=
  cFromH c <= cToH c /\ forall h v, cChain c !! (famBlk, h) = Some v -> cFromH c <= h < cToH c.

Lemma ok_rows_in c : content_ok c -> rows_in c.
Proof. intros (_ & _ & ? & _ & Hr & _). split; [lia|]. intros h v Hv. exact (Hr _ _ _ Hv). Qed.

Lemma blocky_combine a b :
  rows_in a -> rows_in b -> blocky a -> blocky b -> cFromTx b = cToTx a -> cFromH b = cToH a ->
  rows_in (combine a b) /\ blocky (combine a b).
Proof.
  intros [Ha1 Ha2] [Hb1 Hb2] (fa & A1 & A2 & A3) (fb & B1 & B2 & B3) E1 E2. split.
  - split; cbn; [lia|]. intros h v Hv. rewrite union_newest in Hv. destruct (cChain b !! (famBlk, h)) as [w|] eqn:Eb.
    + specialize (Hb2 h w Eb). lia.
    + specialize (Ha2 h v Hv). lia.
  - exists (fun h => if h <? cToH a then fa h else fb h). cbn [combine cFromH cToH cFromTx cToTx cChain]. split_and!.
    + destruct (Z.ltb_spec (cFromH a) (cToH a)); [done|]. replace (cFromH a) with (cToH a) in * by lia. congruence.
    + rewrite (proj2 (Z.ltb_ge _ _)) by lia. done.
    + intros h Hh. rewrite union_newest. destruct (Z.ltb_spec h (cToH a)) as [Hlt|Hge].
      * destruct (A3 h ltac:(lia)) as (n & Hn & En & Er). exists n. split; [done|]. split.
        { destruct (Z.ltb_spec (h + 1) (cToH a)); [done|]. replace (h + 1) with (cToH a) in * by lia. congruence. }
        destruct (cChain b !! (famBlk, h)) as [w|] eqn:Eb; [specialize (Hb2 h w Eb); lia|done].
      * destruct (B3 h ltac:(lia)) as (n & Hn & En & Er). exists n. rewrite (proj2 (Z.ltb_ge (h + 1) _)) by lia. by rewrite Er.
Qed.

Lemma blocky_all cs : forall c,
  tiled (c :: cs) -> rows_in c -> blocky c -> Forall (fun x => rows_in x /\ blocky x) cs -> blocky (combine_all c cs).
Proof.
  induction cs as [|d cs IH]; intros c Ht Hr Hb Hf; [done|]. apply Forall_cons in Hf as [[Hdr Hdb] Hf].
  destruct Ht as [(_ & E1 & E2) Ht]. destruct (blocky_combine c d Hr Hdr Hb Hdb E1 E2) as [G1 G2].
  cbn [combine_all fold_left]. apply IH; try done. destruct cs as [|e cs]; [done|]. destruct Ht as [(Hn & F1 & F2) Ht].
  split; [|done]. split_and!; [|done..]. unfold nonempty in *. cbn. destruct Hdr as [? _]. destruct Hr as [? _]. destruct Hb as (fc & B1 & B2 & B3).
  split; [|lia]. clear IH. enough (cFromTx c <= cToTx c) by lia. rewrite <- B1, <- B2.
  enough (G : forall k : nat, cFromH c + Z.of_nat k <= cToH c -> fc (cFromH c) <= fc (cFromH c + Z.of_nat k)).
  { specialize (G (Z.to_nat (cToH c - cFromH c))). rewrite Z2Nat.id in G by lia.
    replace (cFromH c + (cToH c - cFromH c)) with (cToH c) in G by lia. apply G. lia. }
  induction k as [|k IHk]; intros Hk; [rewrite Z.add_0_r; lia|].
  destruct (B3 (cFromH c + Z.of_nat k) ltac:(lia)) as (n & Hn' & En & _). specialize (IHk ltac:(lia)).
  replace (cFromH c + Z.of_nat (S k)) with (cFromH c + Z.of_nat k + 1) by lia. lia.
Qed.

Lemma combine_ok c cs : tiled (c :: cs) -> Forall content_ok (c :: cs) -> content_ok (combine_all c cs).
Proof.
  intros Ht Ho. destruct (combine_bounds cs c) as (E1 & E2 & E3 & E4).
  pose proof (last_In c cs) as Hl.
  pose proof (tiled_within c cs _ Ht Ho Hl) as Hw. rewrite Forall_forall in Ho. pose proof (Ho _ Hl) as Hlo.
  pose proof (Ho c ltac:(set_solver)) as Hco. unfold content_ok in Hlo, Hco. unfold content_ok. rewrite E1, E2, E3, E4.
  split_and!; try lia.
  - intros fam n v Hv. rewrite chain_combine in Hv. apply look_Some_In in Hv as (x & Hx & Hv).
    pose proof (tiled_within c cs x Ht ltac:(by apply Forall_forall) Hx). destruct (Ho x Hx) as (_ & _ & _ & _ & Hc & _).
    specialize (Hc _ _ _ Hv). destruct (famByHeight fam); lia.
  - intros p. rewrite hist_combine_all. split; [apply hist_at_ascending; [done|by apply Forall_forall]|].
    apply Forall_forall. intros y Hy. apply hist_at_In in Hy as (x & Hx & Hy).
    pose proof (tiled_within c cs x Ht ltac:(by apply Forall_forall) Hx). destruct (Ho x Hx) as (_ & _ & _ & _ & _ & Hh & _).
    destruct (Hh p) as [_ Hr]. rewrite Forall_forall in Hr. specialize (Hr y Hy). cbn in Hr. lia.
  - intros k n Hn. rewrite num_combine in Hn. apply look_Some_In in Hn as (x & Hx & Hn).
    destruct (Ho x Hx) as (_ & _ & _ & _ & _ & _ & Hu & _). by eapply Hu.
  - apply blocky_all; [done|apply ok_rows_in, Ho; set_solver|apply Hco|]. apply Forall_forall. intros x Hx.
    split; [apply ok_rows_in, Ho; set_solver|]. apply (Ho x). set_solver.
Qed.

(** ** The merged sections hold the joined stretches *)

(** Newest-first reading of the inputs' rows is newest-first reading of their contents. *)
Lemma newest_look {A} (g : A -> bytes) (f : content -> option A) s k Rs cs :
  Forall2 (fun R c => aget (R s) k = g <$> f c) Rs cs -> newest (section_rows Rs s) k = g <$> look f cs.
Proof.
  induction 1 as [|R c Rs cs Hg _ IH]; [done|]. cbn [section_rows map newest look]. fold (section_rows Rs s). rewrite IH.
  destruct (look f cs); [done|]. exact Hg.
Qed.

Lemma newest_In Rs s k v : newest (section_rows Rs s) k = Some v -> exists R, R ∈ Rs /\ (k, v) ∈ R s.
Proof.
  intros E. apply newest_Some in E as (i & l & Hl & Hv & _). apply list_lookup_fmap_Some in Hl as (R & -> & HR).
  exists R. split; [by eapply list_elem_of_lookup_2|]. by apply aget_elem.
Qed.

Lemma merged_history Rs c cs M p :
  Forall2 represents Rs (c :: cs) -> tiled (c :: cs) -> Forall content_ok (c :: cs) ->
  sorted_rows M -> (forall k, aget M k = newest (section_rows Rs SecState) k) -> state_prefix p ->
  history_of p (hist_at (c :: cs) p) M.
Proof.
  intros Hr Ht Ho HM Hg Hp. split_and!; [by apply hist_at_ascending| |].
  - apply Forall_forall. intros x Hx. apply hist_at_In in Hx as (d & Hd & Hx). rewrite Forall_forall in Ho.
    destruct (Ho d Hd) as (? & ? & _ & _ & _ & Hh & _). destruct (Hh p) as [_ Hf]. rewrite Forall_forall in Hf.
    specialize (Hf x Hx). cbn in Hf. unfold u64_ok. lia.
  - intros t v Hu. assert (HR : forall i R d, Rs !! i = Some R -> (c :: cs) !! i = Some d ->
      forall w, (t, w) ∈ hist (cState d) p <-> (Suffixed p t, w) ∈ R SecState).
    { intros i R d HR Hd w. pose proof (Forall2_lookup_lr _ _ _ _ _ _ Hr HR Hd) as (_ & _ & _ & _ & Hh & _).
      destruct (Hh p Hp) as (_ & _ & Hin). by apply Hin. }
    assert (Hs : Forall sorted_rows (section_rows Rs SecState)).
    { apply Forall_forall. intros l Hl. apply list_elem_of_fmap in Hl as (R & -> & Hl). apply list_elem_of_lookup in Hl as [i Hi].
      destruct (Forall2_lookup_l _ _ _ _ _ Hr Hi) as (d & _ & Hok & _). apply (Hok SecState). }
    rewrite hist_at_In. split.
    + intros (d & Hd & Hin). apply aget_elem. rewrite Hg. apply newest_Some. apply list_elem_of_lookup in Hd as [i Hi].
      destruct (Forall2_lookup_r _ _ _ _ _ Hr Hi) as (R & HRi & _). exists i, (R SecState). split_and!.
      * apply list_lookup_fmap_Some. by exists R.
      * apply sorted_aget; [|by apply (HR i R d)]. rewrite Forall_forall in Hs. apply Hs.
        apply (list_elem_of_fmap_2 (fun R : Section -> list row => R SecState)). by eapply list_elem_of_lookup_2.
      * intros j l' Hlt Hl'. apply list_lookup_fmap_Some in Hl' as (R' & -> & HR').
        destruct (Forall2_lookup_l _ _ _ _ _ Hr HR') as (d' & Hd' & _). destruct (aget (R' SecState) (Suffixed p t)) as [w|] eqn:E; [|done].
        exfalso. apply aget_elem, (HR j R' d' HR' Hd') in E.
        assert (Hafter : cToTx d <= cFromTx d').
        { rewrite <- (take_drop_middle _ _ _ Hi) in Ht, Ho. apply tiled_app in Ht as [_ Ht]. apply Forall_app in Ho as [_ Ho].
          apply (tiled_after d (drop (S i) (c :: cs)) d' Ht Ho). apply list_elem_of_lookup. exists (j - S i)%nat.
          rewrite lookup_drop. by replace (S i + (j - S i))%nat with j by lia. }
        rewrite Forall_forall in Ho. destruct (Ho d (list_elem_of_lookup_2 _ _ _ Hi)) as (_ & _ & _ & _ & _ & Hh & _).
        destruct (Ho d' (list_elem_of_lookup_2 _ _ _ Hd')) as (_ & _ & _ & _ & _ & Hh' & _).
        destruct (Hh p) as [_ F], (Hh' p) as [_ F']. rewrite Forall_forall in F. rewrite Forall_forall in F'.
        specialize (F _ Hin). specialize (F' _ E). cbn in F, F'. lia.
    + intros Hin. apply sorted_aget in Hin; [|done]. rewrite Hg in Hin. apply newest_Some in Hin as (i & l & Hl & Hv & _).
      apply list_lookup_fmap_Some in Hl as (R & -> & HRi). destruct (Forall2_lookup_l _ _ _ _ _ Hr HRi) as (d & Hd & _).
      exists d. split; [by eapply list_elem_of_lookup_2|]. apply (HR i R d HRi Hd). by apply aget_elem.
Qed.

Lemma merged_represents Rs c cs M :
  Forall2 represents Rs (c :: cs) -> tiled (c :: cs) -> Forall content_ok (c :: cs) ->
  (forall s, sorted_rows (M s)) -> (forall s k, aget (M s) k = newest (section_rows Rs s) k) ->
  represents M (combine_all c cs).
Proof.
  intros Hr Ht Ho HM Hg.
  assert (Hall : forall s k v, (k, v) ∈ M s -> exists R d, represents R d /\ (k, v) ∈ R s).
  { intros s k v Hin. apply sorted_aget in Hin; [|done]. rewrite Hg in Hin. apply newest_In in Hin as (R & HR & Hin).
    apply list_elem_of_lookup in HR as [i Hi]. destruct (Forall2_lookup_l _ _ _ _ _ Hr Hi) as (d & _ & Hd). by exists R, d. }
  split_and!.
  - intros s. split; [done|]. apply Forall_forall. intros [k v] Hin. destruct (Hall s k v Hin) as (R & d & (Hok & _) & Hin').
    destruct (Hok s) as [_ Hsm]. rewrite Forall_forall in Hsm. by apply Hsm.
  - intros s. apply Forall_forall. intros [k v] Hin. destruct (Hall s k v Hin) as (R & d & (_ & Hne & _) & Hin').
    specialize (Hne s). rewrite Forall_forall in Hne. by apply Hne.
  - intros fam pfx n Hp Hn. rewrite Hg, chain_combine. rewrite (newest_look id (chain_of (fam, n)) SecChain _ Rs (c :: cs)); [by destruct (look _ _)|].
    eapply Forall2_impl; [exact Hr|]. intros R d (_ & _ & Hc & _). rewrite (Hc fam pfx n Hp Hn). unfold chain_of. by destruct (cChain d !! (fam, n)).
  - intros k v Hin. destruct (Hall SecState k v Hin) as (R & d & (_ & _ & _ & Hst & _) & Hin'). by eapply Hst.
  - intros p Hp. rewrite hist_combine_all. by apply (merged_history Rs).
  - intros h. rewrite Hg, code_combine. rewrite (newest_look id (code_of h) SecState _ Rs (c :: cs)); [by destruct (look _ _)|].
    eapply Forall2_impl; [exact Hr|]. intros R d (_ & _ & _ & _ & _ & Hc & _). rewrite Hc. unfold code_of. by destruct (cCode d !! h).
  - intros k Hk. rewrite Hg, num_combine. apply (newest_look (bigE 8) (num_of k)).
    eapply Forall2_impl; [exact Hr|]. intros R d (_ & _ & _ & _ & _ & _ & Hc & _). by rewrite Hc.
  - intros k v Hin. destruct (Hall SecChain k v Hin) as (R & d & (_ & _ & _ & _ & _ & _ & _ & Hck) & Hin'). by eapply Hck.
Qed.

End Runs.
End Contents.
