(* ===== verification/Merge.v ===== *)
(** * store/merge.go: the terminal merge

    Which runs the next terminal is made of ([mergeSpanLocked]), the merge of a
    span into one run with its verification pass, and the swap that replaces the
    span in the manifest and the live version. The merge runs on a goroutine: it
    takes its inputs at one moment and swaps at a later one, so the two halves
    are separate definitions. Page-cache advice and unlinking of the inputs'
    files are not modelled. *)

From S2P Require Import Prelude Bytes Rows Ef Format Sha256 Container Memtable MemRecover MemRead Sst RunFile Postings Seal Window Growth KMerge DB Contents.
Import Format.

Module Merge.
Import RunFile KMerge DB.

Section Merge.
Context `{SSTable} (casName : bytes -> bytes).

(** ** The span *)

(** [for start > 0 && runs[start-1].Level == 0 { start-- }] *)
Fixpoint span_start (runs : list RunRef) (start : nat) : nat :=
  match start with
  | O => O
  | S k => match runs !! k with
           | Some r => if rLevel r =? 0 then span_start runs k else S k
           | None => S k
           end
  end.

(** The first run that carries the span past the boundary. *)
Fixpoint span_end (from terminal : Z) (e : nat) (runs : list RunRef) : option nat :=
  match runs with
  | [] => None
  | r :: runs => if terminal <=? u64 (rToTx r - from) then Some (S e) else span_end from terminal (S e) runs
  end.

Definition mergeSpan (runs : list RunRef) (terminal : Z) : option (nat * nat) :=
  let start := span_start runs (length runs) in
  match runs !! start with
  | None => None
  | Some r => (fun e => (start, e)) <$> span_end (rFromTx r) terminal start (drop start runs)
  end.

Definition mergeSpanLocked (d : DB) : option (nat * nat) := mergeSpan (mRuns (man d)) (terminalTxs d).

(** ** Writing the terminal *)

Definition contiguous (refs : list RunRef) : bool :=
  match refs with [] => true | a :: rs => match tiling a rs with Ok _ => true | _ => false end end.

(** verifyRun: the range, and a count of every section read back. *)
Definition count_rows (fuel : nat) (r : Run) (s : Section) : res Z :=
  ScanRange fuel r s [] None (fun n _ _ => (u64 (n + 1), true)) 0.

Definition verify_section (fuel : nat) (r : Run) (s : Section) (rows : Z) : res unit :=
  let* n := count_rows fuel r s in
  if n =? rows then Ok tt else Err "store: merged run reads back another row count".

Definition verifyRun (fuel : nat) (r : Run) (rows : Section -> Z) (from to : RunRef) : res unit :=
  let f := RFooter r in
  if negb ((FromTx f =? rFromTx from) && (ToTx f =? rToTx to)
           && (FromHeight f =? rFromHeight from) && (ToHeight f =? rToHeight to))
  then Err "store: merged run covers another range" else
  let* _ := verify_section fuel r SecChain (rows SecChain) in
  let* _ := verify_section fuel r SecState (rows SecState) in
  verify_section fuel r SecLookup (rows SecLookup).

(** One section of the loop over the three. *)
Definition merge_one (fuel : nat) (inputs : list Run) (w : RunWriter) (s : Section) : res (Z * RunWriter) :=
  let* w := Begin w s in
  let* (n, w) := mergeSection fuel inputs s w in
  let* w := End_ w in
  Ok (n, w).

(** merge, up to the swap: the merged run and its manifest entry. *)
Definition merge_build (fuel : nat) (prev : bytes) (refs : list RunRef) (inputs : list Run) : res (RunRef * Run) :=
  match refs, last refs with
  | from :: _, Some to =>
      if negb (contiguous refs) then Err "store: merge inputs are not contiguous" else
      let* (nc, w) := merge_one fuel inputs (NewRunWriter prev TerminalLevel) SecChain in
      let* (ns, w) := merge_one fuel inputs w SecState in
      let* (nl, w) := merge_one fuel inputs w SecLookup in
      let fin := Finish w (rFromTx from) (rToTx to) (rFromHeight from) (rToHeight to) in
      let* merged := OpenRun (fin_file fin) in
      let* _ := verifyRun fuel merged (fun s => match s with SecChain => nc | SecState => ns | SecLookup => nl end) from to in
      Ok (MkRef (rFromTx from) (rToTx to) (rFromHeight from) (rToHeight to) (casName (fin_hashed fin)) TerminalLevel, merged)
  | _, _ => Panic
  end.

(** The inputs, taken in one critical section: refs, runs and the prev link. *)
Definition merge_inputs (d : DB) (start e : nat) : res (list RunRef * list Run * bytes) :=
  if (length (mRuns (man d)) <? e)%nat || (length (ver d) <? e)%nat || (e <? start)%nat then Panic else
  let refs := drop start (take e (mRuns (man d))) in
  let inputs := drop start (take e (ver d)) in
  let* prev := match start with
               | O => Ok (chainRoot d)
               | S k => match mRuns (man d) !! k with None => Panic | Some r => decodeRoot (rName r) end
               end in
  Ok (refs, inputs, prev).

(** The swap: the span is replaced, everything appended meanwhile is kept. *)
Definition splice {A} (l : list A) (start e : nat) (x : A) : list A := take start l ++ [x] ++ drop e l.

Definition name_at (l : list RunRef) (i : nat) : option bytes := rName <$> l !! i.

Definition merge_swap (d : DB) (start e : nat) (refs : list RunRef) (ref : RunRef) (merged : Run) : res DB :=
  let old := mRuns (man d) in
  if (length old <? e)%nat || negb (bool_decide (name_at old start = name_at refs 0))
     || negb (bool_decide (name_at old (e - 1) = (rName <$> last refs)))
  then Err "store: the merged span moved under the merge"
  else Ok (with_runs d (splice old start e ref) (splice (ver d) start e merged) (dfrozen d)).

(** MaybeMerge: start one unless one runs or the tail has not earned it. *)
Definition MaybeMerge (d : DB) : DB :=
  match merging d with
  | Some _ => d
  | None => match mergeSpanLocked d with
            | None => d
            | Some (start, e) => with_merging d (Some (MkJob start e None))
            end
  end.

(** [seal], the cut's goroutine, with nothing beside it: the window's run is
    written, reopened and published, its log goes, and a merge is started if the
    tail has earned one. Publishing the manifest to the bucket (dist) is not
    modelled. *)
Definition seal (d : DB) (id : nat) : res DB :=
  let* m := obj d id in
  let* prev := seal_prev d in
  let* (ref, run) := seal_run casName prev m in
  let d := publish d ref run in
  let d := with_heap d (<[id := mem_remove m]> (heap d)) in
  Ok (MaybeMerge d).

(** The whole merge with nothing beside it. *)
Definition merge (fuel : nat) (d : DB) (start e : nat) : res DB :=
  let* (refs, inputs, prev) := merge_inputs d start e in
  let* (ref, merged) := merge_build fuel prev refs inputs in
  merge_swap d start e refs ref merged.

(** RecomputeMerge: the name the merged run of these inputs would land under. *)
Definition RecomputeMerge (fuel : nat) (prev : bytes) (inputs : list Run) : res bytes :=
  match inputs, last inputs with
  | a :: _, Some z =>
      let* (_, w) := merge_one fuel inputs (NewRunWriter prev TerminalLevel) SecChain in
      let* (_, w) := merge_one fuel inputs w SecState in
      let* (_, w) := merge_one fuel inputs w SecLookup in
      let fin := Finish w (FromTx (RFooter a)) (ToTx (RFooter z)) (FromHeight (RFooter a)) (ToHeight (RFooter z)) in
      Ok (casName (fin_hashed fin))
  | _, _ => Panic
  end.

End Merge.

(** ** Which runs a merge takes *)

Lemma span_start_le runs n : (span_start runs n <= n)%nat.
Proof. induction n as [|n IH]; cbn [span_start]; [lia|]. destruct (runs !! n) as [r|]; [destruct (rLevel r =? 0)|]; lia. Qed.

Lemma span_start_app runs rs n : (n <= length runs)%nat -> span_start (runs ++ rs) n = span_start runs n.
Proof.
  induction n as [|n IH]; intros Hn; cbn [span_start]; [done|]. rewrite lookup_app_l by lia.
  destruct (runs !! n) as [r|]; [|done]. destruct (rLevel r =? 0); [apply IH; lia|done].
Qed.

Lemma span_start_tail runs rs : Forall (fun r => rLevel r = 0) rs ->
  span_start (runs ++ rs) (length (runs ++ rs)) = span_start runs (length runs).
Proof.
  induction rs as [|r rs IH] using rev_ind; intros Hf; [by rewrite app_nil_r|]. apply Forall_app in Hf as [Hf Hr]. apply Forall_inv in Hr.
  rewrite app_assoc, length_app. cbn [length]. rewrite Nat.add_1_r. cbn [span_start].
  rewrite lookup_app_r, Nat.sub_diag by lia. cbn. rewrite Hr, Z.eqb_refl. rewrite span_start_app by lia. by apply IH.
Qed.

Lemma span_end_app from terminal l k : forall e x, span_end from terminal e l = Some x -> span_end from terminal e (l ++ k) = Some x.
Proof.
  induction l as [|r l IH]; intros e x E; cbn [span_end app] in *; [done|]. destruct (terminal <=? u64 (rToTx r - from)); [done|by apply IH].
Qed.

Lemma span_start_levels runs n i r :
  (n <= length runs)%nat -> (span_start runs n <= i < n)%nat -> runs !! i = Some r -> rLevel r = 0.
Proof.
  induction n as [|n IH]; intros Hn Hi Hr; cbn [span_start] in Hi; [lia|].
  destruct (lookup_lt_is_Some_2 runs n ltac:(lia)) as [x Hx]. rewrite Hx in Hi. destruct (Z.eqb_spec (rLevel x) 0) as [E|]; [|lia].
  destruct (decide (i = n)) as [->|]; [congruence|]. apply IH; try lia. done.
Qed.

Lemma span_start_before runs n r :
  (n <= length runs)%nat -> (0 < span_start runs n)%nat -> runs !! (span_start runs n - 1)%nat = Some r -> rLevel r <> 0.
Proof.
  induction n as [|n IH]; intros Hn Hi Hr; cbn [span_start] in Hi, Hr; [lia|].
  destruct (lookup_lt_is_Some_2 runs n ltac:(lia)) as [x Hx]. rewrite Hx in Hi, Hr. destruct (Z.eqb_spec (rLevel x) 0) as [E|E].
  - apply IH; try done. lia.
  - replace (S n - 1)%nat with n in Hr by lia. congruence.
Qed.

Lemma span_end_spec from terminal l : forall e x, span_end from terminal e l = Some x ->
  exists k r, x = S (e + k) /\ l !! k = Some r /\ terminal <= u64 (rToTx r - from) /\
    forall j y, (j < k)%nat -> l !! j = Some y -> u64 (rToTx y - from) < terminal.
Proof.
  induction l as [|r l IH]; intros e x E; cbn [span_end] in E; [done|].
  destruct (Z.leb_spec terminal (u64 (rToTx r - from))) as [Hle|Hgt].
  - injection E as <-. exists 0%nat, r. split_and!; [lia|done|done|]. intros j y Hj. lia.
  - apply IH in E as (k & r' & -> & Hk & Hle & Hmin). exists (S k), r'. split_and!; [lia|done|done|].
    intros [|j] y Hj Hy; [by injection Hy as <-|]. apply (Hmin j y); [lia|done].
Qed.

(** which runs become a terminal depends on the run list alone, and not on
    when the merge looks. The span is made of level-0 runs, the run before it is
    a terminal (or there is none), its last run is the first that carries it to
    the terminal size, and appending further level-0 runs does not change it. *)
Theorem merge_span_stable runs terminal a e rs :
  mergeSpan runs terminal = Some (a, e) -> Forall (fun r => rLevel r = 0) rs ->
  mergeSpan (runs ++ rs) terminal = Some (a, e) /\ (a < e <= length runs)%nat /\
  (forall i r, (a <= i < length runs)%nat -> runs !! i = Some r -> rLevel r = 0) /\
  (forall r, (0 < a)%nat -> runs !! (a - 1)%nat = Some r -> rLevel r <> 0) /\
  exists from to, runs !! a = Some from /\ runs !! (e - 1)%nat = Some to /\ terminal <= u64 (rToTx to - rFromTx from) /\
    forall i r, (a <= i < e - 1)%nat -> runs !! i = Some r -> u64 (rToTx r - rFromTx from) < terminal.
Proof.
  intros E Hrs. unfold mergeSpan in *. rewrite (span_start_tail runs rs Hrs). set (s := span_start runs (length runs)) in *.
  destruct (runs !! s) as [from|] eqn:Ef; [|done]. destruct (span_end _ _ _ _) as [x|] eqn:Ex; [|done].
  cbn in E. assert (s = a /\ x = e) as [Es ->] by (by injection E as <- <-). clear E.
  pose proof (lookup_lt_Some _ _ _ Ef) as Hlt. rewrite lookup_app_l, Ef by done. rewrite drop_app_le by lia.
  rewrite (span_end_app _ _ _ _ _ _ Ex). cbn. destruct (span_end_spec _ _ _ _ _ Ex) as (k & r & -> & Hk & Hle & Hmin).
  rewrite lookup_drop in Hk. pose proof (lookup_lt_Some _ _ _ Hk). subst a. split_and!; try done; try lia.
  - intros i y Hi Hy. apply (span_start_levels runs (length runs) i y); [lia|unfold s in *; lia|done].
  - intros y Ha Hy. by apply (span_start_before runs (length runs)).
  - exists from, r. replace (S (s + k) - 1)%nat with (s + k)%nat by lia. split_and!; try done.
    intros i y Hi Hy. apply (Hmin (i - s)%nat y); [lia|]. rewrite lookup_drop. by replace (s + (i - s))%nat with i by lia.
Qed.

Lemma merge_span_stable_witness :
  mergeSpan ([MkRef 0 10 0 1 [] TerminalLevel; MkRef 10 13 2 3 [] 0; MkRef 13 15 4 5 [] 0] ++ [MkRef 15 90 6 7 [] 0]) 5 = Some (1%nat, 3%nat).
Proof.
  apply (merge_span_stable [MkRef 0 10 0 1 [] TerminalLevel; MkRef 10 13 2 3 [] 0; MkRef 13 15 4 5 [] 0] 5 1 3 [MkRef 15 90 6 7 [] 0]).
  - vm_compute. reflexivity.
  - repeat constructor.
Defined.

(** ** The merge of a span holds what the span held *)

Import Contents.

Section Merged.
Context `{SSTLaws} (casName : bytes -> bytes).

Definition ref_of (r : RunRef) (c : content) : Prop :=
  rFromTx r = cFromTx c /\ rToTx r = cToTx c /\ rFromHeight r = cFromH c /\ rToHeight r + 1 = cToH c.

Lemma refs_contiguous refs cs : Forall2 ref_of refs cs -> tiled cs -> Forall content_ok cs -> contiguous refs = true.
Proof.
  destruct 1 as [|r c refs cs Hr Hrs]; [done|]. intros Ht Ho. unfold contiguous.
  enough (G : tiling r refs = Ok tt) by (by rewrite G). revert r c Hr Ht Ho.
  induction Hrs as [|r' c' refs cs Hr' _ IH]; intros r c Hr Ht Ho; [done|]. cbn [tiling].
  destruct Ht as [(Hn & E1 & E2) Ht]. destruct Hr as (A1 & A2 & A3 & A4). pose proof Hr' as (B1 & B2 & B3 & B4).
  apply Forall_cons in Ho as [Hc Ho]. destruct Hc as (? & ? & ? & ? & _).
  unfold tiles. rewrite u64_small by (unfold u64_ok; lia).
  rewrite (proj2 (Z.eqb_eq _ _)), (proj2 (Z.eqb_eq _ _)) by lia. cbn [andb]. by apply (IH r' c').
Qed.

Lemma count_fold l : forall n, u64_ok n ->
  fold_rows (fun st (k : bytes) (v : res bytes) => let* v := v in Ok ((fun n _ _ => (u64 (n + 1), true)) st k v)) n l =
    Ok (u64 (n + len l)).
Proof.
  induction l as [|[k v] l IH]; intros n Hn; cbn [fold_rows rbind].
  - lens. by rewrite Z.add_0_r, u64_small.
  - rewrite IH by apply u64_range. lens. unfold u64. rewrite Zplus_mod_idemp_l. do 2 f_equal. lia.
Qed.

Lemma range_from_nil l : range (Some []) None l = l.
Proof.
  unfold range. apply List.forallb_filter_id, forallb_forall. intros x _. unfold in_range.
  by destruct (bleb_spec [] x.1) as [|Hn]; [|exfalso; apply Hn; apply (ble_prefix [] x.1)].
Qed.

Lemma count_rows_ok fuel r R s :
  run_holds r R -> (length (R s) <= fuel)%nat -> count_rows fuel r s = Ok (u64 (len (R s))).
Proof.
  intros Hr Hf. unfold count_rows. rewrite (ScanRange_ok fuel r R s [] None) by done.
  rewrite range_from_nil, count_fold by (unfold u64_ok; lia). done.
Qed.

(** The merged rows of a section. *)
Definition merged_rows (Rs : list (Section -> list row)) (M : Section -> list row) : Prop :=
  forall s, sorted_rows (M s) /\ forall k, aget (M s) k = newest (section_rows Rs s) k.

(** The merged file stays within 64-bit offsets. *)
Definition merge_fits (inputs : list Run) : Prop :=
  forall Rs M, Forall2 run_holds inputs Rs -> merged_rows Rs M -> fits TerminalLevel M.

Lemma sections_merged fuel inputs Rs :
  Forall2 run_holds inputs Rs -> (forall s, Forall (fun R => Forall (fun r => r.1 <> []) (R s)) Rs) ->
  (forall s, (length (concat (section_rows Rs s)) <= fuel)%nat) ->
  exists M, merged_rows Rs M /\ forall w s, mergeSection fuel inputs s w = let* w := set_all w (M s) in Ok (u64 (len (M s)), w).
Proof.
  intros Hr Hk Hf.
  assert (G : forall s, exists M, sorted_rows M /\ (forall k, aget M k = newest (section_rows Rs s) k) /\
    forall w, mergeSection fuel inputs s w = let* w := set_all w M in Ok (u64 (len M), w)).
  { intros s. destruct (mergeSection_rows fuel inputs Rs s (NewRunWriter [] 0) Hr (Hk s) (Hf s)) as (M & H1 & H2 & _).
    exists M. split_and!; [done..|]. intros w. destruct (mergeSection_rows fuel inputs Rs s w Hr (Hk s) (Hf s)) as (M' & H1' & H2' & E).
    assert (M' = M) as ->; [|done]. apply sorted_ext; [done..|]. intros k. by rewrite H2, H2'. }
  destruct (G SecChain) as (M1 & A1 & A2 & A3), (G SecState) as (M2 & B1 & B2 & B3), (G SecLookup) as (M3 & C1 & C2 & C3).
  exists (fun s => match s with SecChain => M1 | SecState => M2 | SecLookup => M3 end).
  split; [intros []; by split|intros w []; done].
Qed.

(** The three sections written one after the other. *)
Lemma merge_writes fuel inputs M prev :
  (forall w s, mergeSection fuel inputs s w = let* w := set_all w (M s) in Ok (u64 (len (M s)), w)) ->
  forall w, write_run prev TerminalLevel M = Ok w ->
  exists w1 w2, merge_one fuel inputs (NewRunWriter prev TerminalLevel) SecChain = Ok (u64 (len (M SecChain)), w1) /\
    merge_one fuel inputs w1 SecState = Ok (u64 (len (M SecState)), w2) /\
    merge_one fuel inputs w2 SecLookup = Ok (u64 (len (M SecLookup)), w).
Proof.
  intros HM w E. unfold write_run, write_section in E. apply rbind_Ok in E as (w1 & E1 & E). apply rbind_Ok in E as (w2 & E2 & E3).
  exists w1, w2. unfold merge_one.
  assert (G : forall w0 s w', (let* w := Begin w0 s in let* w := set_all w (M s) in End_ w) = Ok w' ->
    (let* w := Begin w0 s in let* (n, w) := mergeSection fuel inputs s w in let* w := End_ w in Ok (n, w)) = Ok (u64 (len (M s)), w')).
  { intros w0 s w' G. apply rbind_Ok in G as (wa & -> & G). apply rbind_Ok in G as (wb & Gb & Gc). cbn [rbind].
    rewrite HM, Gb. cbn [rbind]. by rewrite Gc. }
  split_and!; by apply G.
Qed.

Lemma rows_sub (Rs : list (Section -> list row)) M s : merged_rows Rs M -> M s ⊆+ concat (section_rows Rs s).
Proof.
  intros HM. destruct (HM s) as [Hs Hg]. apply NoDup_submseteq.
  - unfold sorted_rows, keys in Hs. clear -Hs. induction (M s) as [|r l IH]; [constructor|]. cbn [map] in Hs.
    apply StronglySorted_inv in Hs as [Hs Hf]. constructor; [|by apply IH]. intros Hin. rewrite Forall_map, Forall_forall in Hf.
    by apply Hf, blt_irrefl in Hin.
  - intros [k v] Hin. apply sorted_aget in Hin; [|done]. rewrite Hg in Hin. apply newest_In in Hin as (R & HR & Hin).
    apply list_elem_of_In, in_concat. exists (R s). split; [|by apply list_elem_of_In].
    apply list_elem_of_In. by apply (list_elem_of_fmap_2 (fun R : Section -> list row => R s)).
Qed.

Lemma rows_bound (Rs : list (Section -> list row)) M s :
  merged_rows Rs M -> (length (M s) <= length (concat (section_rows Rs s)))%nat.
Proof. intros HM. by apply submseteq_length, rows_sub. Qed.

(** Merging a span of runs succeeds and the merged run holds the joined stretch. *)
Lemma merge_build_ok prev refs inputs c cs :
  Forall2 run_serves inputs (c :: cs) -> Forall2 ref_of refs (c :: cs) -> tiled (c :: cs) ->
  merge_fits inputs -> len prev = 32 ->
  exists N ref merged, (forall fuel, (N <= fuel)%nat -> merge_build casName fuel prev refs inputs = Ok (ref, merged)) /\
    run_serves merged (combine_all c cs) /\ ref_of ref (combine_all c cs) /\ rLevel ref = TerminalLevel.
Proof.
  intros Hin Href Ht Hfit Hp. pose proof (serves_ok _ _ Hin) as Ho.
  assert (HR : exists Rs, Forall2 run_holds inputs Rs /\ Forall2 represents Rs (c :: cs)).
  { clear -Hin. induction Hin as [|r d rs ds (_ & _ & R & Hh & Hrep) _ (Rs & H1 & H2)]; [exists []; by split|].
    exists (R :: Rs). split; by constructor. }
  destruct HR as (Rs & Hh & Hrep).
  set (N := (length (concat (section_rows Rs SecChain)) + length (concat (section_rows Rs SecState)) + length (concat (section_rows Rs SecLookup)))%nat).
  assert (Hne : forall s, Forall (fun R => Forall (fun r => r.1 <> []) (R s)) Rs).
  { intros s. apply Forall_forall. intros R HRin. apply list_elem_of_lookup in HRin as [i Hi].
    destruct (Forall2_lookup_l _ _ _ _ _ Hrep Hi) as (d & _ & _ & Hne & _). apply Hne. }
  destruct (sections_merged N inputs Rs Hh Hne) as (M & HM & _); [intros []; lia|].
  assert (Hw : forall fuel, (N <= fuel)%nat -> forall w s, mergeSection fuel inputs s w = let* w := set_all w (M s) in Ok (u64 (len (M s)), w)).
  { intros fuel Hf w s. destruct (sections_merged fuel inputs Rs Hh Hne) as (M' & HM' & Hw); [intros []; lia|]. rewrite Hw.
    destruct (HM s) as [Hs Hg], (HM' s) as [Hs' Hg']. replace (M' s) with (M s); [done|].
    apply sorted_ext; [done..|]. intros k. by rewrite Hg, Hg'. }
  assert (HMr : represents M (combine_all c cs)) by (apply (merged_represents Rs); [done..|apply HM|apply HM]).
  destruct (combine_bounds cs c) as (E1 & E2 & E3 & E4). pose proof (combine_ok c cs Ht Ho) as Hco.
  destruct refs as [|from refs]; [inv Href|]. pose proof Href as Href'. inv Href' as [|? ? ? ? Hfrom Hrest].
  assert (Hto : exists to, last (from :: refs) = Some to /\ rToTx to = cToTx (List.last cs c) /\ rToHeight to + 1 = cToH (List.last cs c)).
  { clear -Hfrom Hrest. revert from c Hfrom. induction Hrest as [|r d refs cs Hr _ IH]; intros from c (?&?&?&?); [by exists from|].
    rewrite last_cons_cons, last_cons. by apply (IH r d). }
  destruct Hto as (to & Hto & T1 & T2). destruct Hfrom as (F1 & F2 & F3 & F4).
  assert (Hub : u64_ok (rFromTx from) /\ u64_ok (rToTx to) /\ u64_ok (rFromHeight from) /\ u64_ok (rToHeight to)).
  { pose proof (last_In c cs) as Hl. pose proof (tiled_within c cs _ Ht Ho Hl) as Hwi.
    rewrite Forall_forall in Ho. destruct (Ho _ Hl) as (? & ? & ? & ? & _). destruct (Ho c ltac:(set_solver)) as (? & ? & ? & ? & _).
    assert (Hnl : nonempty (List.last cs c)).
    { apply list_elem_of_lookup in Hl as [i Hi]. by destruct (Forall2_lookup_r _ _ _ _ _ Hin Hi) as (r & _ & _ & (_ & ?) & _). }
    destruct Hnl. unfold u64_ok. lia. }
  destruct Hub as (U1 & U2 & U3 & U4).
  destruct (write_open prev TerminalLevel M (rFromTx from) (rToTx to) (rFromHeight from) (rToHeight to))
    as (w & merged & Ew & _ & _ & _ & Eo & Ef & Hhold); [apply HMr|by apply (Hfit Rs)|done..|].
  exists N. eexists _, merged. split_and!.
  - intros fuel Hf. destruct (merge_writes fuel inputs M prev (Hw fuel Hf) w Ew) as (w1 & w2 & O1 & O2 & O3).
    assert (Hcnt : forall s, count_rows fuel merged s = Ok (u64 (len (M s)))).
    { intros s. apply (count_rows_ok fuel merged M s Hhold). pose proof (rows_bound Rs M s HM). destruct s; lia. }
    unfold merge_build. rewrite Hto, (refs_contiguous _ _ Href Ht Ho). cbn [negb].
    rewrite O1. cbn [rbind]. rewrite O2. cbn [rbind]. rewrite O3. cbn [rbind]. rewrite Eo. cbn [rbind].
    unfold verifyRun, verify_section. rewrite Ef. cbn [fin_footer Finish FromTx ToTx FromHeight ToHeight]. rewrite !Z.eqb_refl.
    cbn [andb negb]. rewrite !Hcnt. cbn [rbind]. rewrite !Z.eqb_refl. cbn [rbind]. done.
  - split; [done|]. split; [|by exists M]. rewrite Ef. cbn [fin_footer Finish]. unfold footer_of, nonempty.
    cbn [FromTx ToTx FromHeight ToHeight]. rewrite E1, E2, E3, E4. split; [lia|].
    pose proof (last_In c cs) as Hl. pose proof (tiled_within c cs _ Ht Ho Hl).
    apply list_elem_of_lookup in Hl as [i Hi]. destruct (Forall2_lookup_r _ _ _ _ _ Hin Hi) as (r & _ & _ & (_ & (? & ?)) & _). lia.
  - unfold ref_of. cbn [rFromTx rToTx rFromHeight rToHeight]. rewrite E1, E2, E3, E4. lia.
  - done.
Qed.

End Merged.
End Merge.
