(* ===== verification/Refine.v ===== *)
(** * The database refines an append-only store

    The writer, the sealing goroutine and the merge are steps on the shared
    state of DB.v. The abstract store knows only the rows of the blocks written
    so far; writing a block is the one step that changes it. This file has the
    steps, the invariant that ties the shared state to the abstract store, and
    what a read returns whatever steps run between its accesses. *)

From S2P Require Import Prelude Bytes Rows Ef Format Sha256 Container Memtable MemRecover MemRead Sst RunFile Postings Seal Window Growth KMerge DB Contents Merge.
Import Format.

Module Refine.
Import Memtable MemRecover MemRead RunFile Seal Window Growth KMerge DB Contents Merge.

(** ** Memtable objects and their contents *)

Definition window_of (c : content) : window :=
  MkWindow (cFromTx c) (cToTx c) (cFromH c) (cToH c) (cFromH c <? cToH c).

(** What stays readable of an object once its log is closed. *)
Definition obj_ok (m : memtable) (c : content) : Prop :=
  content_ok c /\ state (mem m) = cState c /\ code (mem m) = cCode c /\ nums (mem m) = cNums c /\ win m = window_of c.

(** An object whose log is open: untouched, or at rest after its last block. *)
Definition obj_open (m : memtable) (c : content) : Prop :=
  obj_ok m c /\
  (m = fresh (cFromTx c) (cFromH c) /\ c = empty_content (cFromTx c) (cFromH c) \/
   nonempty c /\ at_rest m (cChain c) (cToH c) (cToTx c) /\ aux_wf (mem m) (cToTx c - 1)).

Definition obj_any (m : memtable) (c : content) : Prop := obj_open m c \/ obj_ok m c /\ fopen m = false.

Lemma obj_any_ok m c : obj_any m c -> obj_ok m c.
Proof. intros [[? _]|[? _]]; done. Qed.

Lemma at_rest_fresh bt bh h : 0 <= bt < 2 ^ 63 -> 0 <= h < 2 ^ 63 -> at_rest (fresh bt bh) ∅ h bt.
Proof.
  intros Hb Hh. split_and!; try done. split; [done|]. unfold ends. simpl.
  do 6 (apply Forall2_cons; cbn [fst snd]; split; [apply fam_ok_ext with (look := fun _ => None);
    [intros; apply lookup_empty|apply fam_ok_empty; lia]|]). done.
Qed.

Lemma fresh_open t h : 0 <= t < 2 ^ 63 -> 0 <= h < 2 ^ 63 -> obj_open (fresh t h) (empty_content t h).
Proof.
  intros Ht Hh. split; [|by left]. split_and!; try done.
  - split_and!; cbn; try lia; [done| |done|].
    + intros p. split; constructor.
    + exists (fun _ => t). cbn. split_and!; [done..|]. intros k Hk. lia.
  - unfold window_of. cbn. by rewrite Z.ltb_irrefl.
Qed.

Lemma open_rest m c : obj_open m c -> at_rest m (cChain c) (cToH c) (cToTx c).
Proof.
  intros [(Hc & _) [[-> E]|(_ & ? & _)]]; [|done]. destruct Hc as (? & ? & ? & ? & _). rewrite E. cbn.
  apply at_rest_fresh; cbn in *; lia.
Qed.

Lemma open_chainGet m c fam n : obj_open m c -> (fam < 6)%nat -> chainGet m fam n = (Ok (cChain c !! (fam, n)), m).
Proof. intros Ho Hf. by apply (chainGet_ok m _ _ _ fam n (open_rest m c Ho)). Qed.

Lemma any_latest m c p at_ : obj_any m c -> latestState m p at_ = last_write (hist (cState c) p) at_.
Proof.
  intros Hm. destruct (obj_any_ok m c Hm) as ((_ & _ & _ & _ & _ & Hh & _) & Es & _). unfold latestState. rewrite Es.
  apply latest_in_spec, Hh.
Qed.

(** ** Writing a block into an object *)

Lemma txs_rows_In txs : forall n C fam k v,
  txs_rows n txs C !! (fam, k) = Some v ->
  C !! (fam, k) = Some v \/ famByHeight fam = false /\ n <= k < n + len txs.
Proof.
  induction txs as [|t txs IH]; intros n C fam k v E; cbn [txs_rows] in E; [by left|]. lens. pose proof (len_nonneg txs).
  apply IH in E as [E|(? & ?)]; [|right; split; [done|lia]]. unfold tx_rows in E.
  do 3 (apply lookup_insert_Some in E as [[[= <- <-] _]|[_ E]]; [right; split; [done|lia]|]). by left.
Qed.

Lemma block_rows_In t b C fam k v :
  block_rows t b C !! (fam, k) = Some v -> C !! (fam, k) = Some v \/
  (if famByHeight fam then k = Height b else t <= k < t + len (Txs b)).
Proof.
  unfold block_rows. intros E. apply txs_rows_In in E as [E|(-> & ?)]; [|by right].
  do 3 (apply lookup_insert_Some in E as [[[= <- <-] _]|[_ E]]; [by right|]). by left.
Qed.

Lemma txs_rows_union txs : forall n C, txs_rows n txs C = txs_rows n txs ∅ ∪ C.
Proof.
  induction txs as [|t txs IH]; intros n C; cbn [txs_rows]; [by rewrite map_empty_union|].
  rewrite (IH _ (tx_rows n t C)), (IH _ (tx_rows n t ∅)), <- map_union_assoc. f_equal. unfold tx_rows.
  by rewrite <- !insert_union_l, map_empty_union.
Qed.

Lemma block_rows_union t b C k :
  block_rows t b C !! k = match block_rows t b ∅ !! k with Some v => Some v | None => C !! k end.
Proof.
  assert (E : block_rows t b C = block_rows t b ∅ ∪ C).
  { unfold block_rows. rewrite txs_rows_union. rewrite (txs_rows_union _ _ (<[(famPvm, Height b) := Pvm b]> _)).
    rewrite <- map_union_assoc. f_equal. by rewrite <- !insert_union_l, map_empty_union. }
  by rewrite E, union_newest.
Qed.

Section Blocks.
Context (Keccak256 : bytes -> bytes) (EncodeBare : bytes -> list bytes -> res bytes).
Hypothesis keccak_len : forall x, len (Keccak256 x) = 32.

(** What the executor hands to WriteBlock, and room for it in the numbering. *)
Definition writable (m : memtable) (b : BlockWrite) : Prop :=
  block_valid b /\ block_small b /\ reassembles EncodeBare b /\ 0 <= Height b /\ Height b + 1 < 2 ^ 63 /\
  nextTx (win m) + len (Txs b) + 1 < 2 ^ 63 /\ len (Txs b) < 2 ^ 32.

(** The content after a block. *)
Definition grown (c : content) (b : BlockWrite) (m' : memtable) : content :=
  MkC (block_rows (cToTx c) b (cChain c)) (put_all (cState c) (block_srows (cToTx c) b)) (code (mem m')) (nums (mem m'))
    (cFromTx c) (cToTx c + len (Txs b) + 1) (if cFromH c <? cToH c then cFromH c else Height b) (Height b + 1).

Lemma put_all_hist c b :
  content_ok c -> (forall p, ascending (hist (put_all (cState c) (block_srows (cToTx c) b)) p) /\
    Forall (fun x => x.1 <= cToTx c + len (Txs b)) (hist (put_all (cState c) (block_srows (cToTx c) b)) p)) ->
  forall p, ascending (hist (put_all (cState c) (block_srows (cToTx c) b)) p) /\
    Forall (fun x => cFromTx c <= x.1 < cToTx c + len (Txs b) + 1) (hist (put_all (cState c) (block_srows (cToTx c) b)) p).
Proof.
  intros (? & _ & _ & _ & _ & Hh & _) Ha p. destruct (Ha p) as [Hasc Hle]. split; [done|].
  destruct (put_all_extends (cToTx c) (cState c) (block_srows (cToTx c) b)) with (p := p) as (e & E & He).
  - intros q. destruct (Hh q) as [_ F]. eapply Forall_impl; [exact F|]. cbn. lia.
  - eapply Forall_impl; [apply block_srows_num|]. cbn. lia.
  - destruct (Hh p) as [_ F]. rewrite Forall_forall in Hle. apply Forall_forall. intros x Hx. specialize (Hle x Hx). cbn in Hle.
    rewrite E in Hx. apply elem_of_app in Hx as [Hx|Hx].
    + rewrite Forall_forall in F. specialize (F x Hx). cbn in F. lia.
    + rewrite Forall_forall in He. specialize (He x Hx). cbn in He. lia.
Qed.

Lemma aux_hist m t p : aux_wf (mem m) t -> ascending (hist (state (mem m)) p) /\ Forall (fun x => x.1 <= t) (hist (state (mem m)) p).
Proof.
  intros ((Hs & _) & _ & Hle). unfold hist. destruct (state (mem m) !! p) as [h|] eqn:E; [|split; constructor]. cbn.
  destruct (Hs p h E) as (_ & ? & _). split; [done|by eapply Hle].
Qed.

Lemma open_aux m c : obj_open m c -> aux_wf (mem m) (cToTx c).
Proof.
  intros [(Hc & _) [[-> E]|(_ & _ & ?)]]; [|by apply (aux_later _ (cToTx c - 1)); [lia|]].
  destruct Hc as (? & ? & _). apply (aux_later _ (cFromTx c)); [lia|]. by eapply fresh_wf.
Qed.

Lemma block_rows_blk t b C : block_rows t b C !! (famBlk, Height b) = Some (blk_row t (len (Txs b))).
Proof.
  assert (G : forall txs n (C : gmap (nat * Z) bytes) h, txs_rows n txs C !! (famBlk, h) = C !! (famBlk, h)).
  { induction txs as [|x txs IH]; intros n C' h; cbn [txs_rows]; [done|]. rewrite IH. unfold tx_rows. by rewrite !lookup_insert_ne. }
  unfold block_rows. rewrite G, !lookup_insert_ne by done. by rewrite lookup_insert_eq.
Qed.

Lemma grown_row c b m' : cChain (grown c b m') !! (famBlk, Height b) = Some (blk_row (cToTx c) (len (Txs b))).
Proof. apply block_rows_blk. Qed.

Lemma grown_blocky c b m' :
  content_ok c -> len (Txs b) < 2 ^ 32 -> c = empty_content (cFromTx c) (cFromH c) \/ nonempty c /\ Height b = cToH c ->
  blocky (grown c b m').
Proof.
  intros (Ht & _ & Hhh & _ & Hch & _ & _ & (first & F1 & F2 & F3)) Hb Hcase. pose proof (grown_row c b m') as Hrow. pose proof (len_nonneg (Txs b)).
  destruct Hcase as [Ec|[[Hn1 Hn2] Hh]].
  - exists (fun h => if h <=? Height b then cToTx c else cToTx c + len (Txs b) + 1).
    assert (Eh : cFromH c = cToH c) by (rewrite Ec; done). assert (Et : cFromTx c = cToTx c) by (rewrite Ec; done).
    cbn [grown cFromH cToH cFromTx cToTx]. rewrite Eh, Z.ltb_irrefl, Z.leb_refl. split_and!; [done| |].
    + by rewrite (proj2 (Z.leb_gt _ _)) by lia.
    + intros h Hhh'. assert (h = Height b) as -> by lia. exists (len (Txs b)). rewrite Z.leb_refl, (proj2 (Z.leb_gt _ _)) by lia. done.
  - exists (fun h => if h <=? cToH c then first h else cToTx c + len (Txs b) + 1).
    cbn [grown cFromH cToH cFromTx cToTx]. rewrite (proj2 (Z.ltb_lt _ _) Hn2), Hh. split_and!.
    + by rewrite (proj2 (Z.leb_le _ _)) by lia.
    + by rewrite (proj2 (Z.leb_gt _ _)) by lia.
    + intros h Hhh'. rewrite (proj2 (Z.leb_le h (cToH c))) by lia. destruct (decide (h = cToH c)) as [->|Hne].
      * exists (len (Txs b)). rewrite (proj2 (Z.leb_gt _ _)), F2 by lia. rewrite Hh in Hrow. done.
      * destruct (F3 h ltac:(lia)) as (n & Hn & En & Er). exists n. rewrite (proj2 (Z.leb_le _ _)) by lia. split_and!; try done; try lia.
        cbn [grown cChain]. rewrite block_rows_union. destruct (block_rows (cToTx c) b ∅ !! (famBlk, h)) as [v|] eqn:E; [|done].
        apply block_rows_In in E as [E|E]; [by rewrite lookup_empty in E|]. cbn in E. lia.
Qed.

(** A block at or above the window's height is folded in whole. *)
Lemma add_open m c b m' :
  obj_open m c -> writable m b -> add Keccak256 EncodeBare m b = Ok m' -> nextHeight (win m) <= Height b ->
  obj_open m' (grown c b m') /\ (Height b = cToH c \/ cFromH c = 0 /\ cToH c = 0).
Proof.
  intros Ho (Hv & Hsm & Hre & Hh0 & Hh1 & Hb & Hb32) E Hge. pose proof Ho as [(Hc & Es & Eco & Enu & Ew) Hcase].
  pose proof Hc as (Ht & Ht63 & Hhh & Hh63 & Hch & Hst & Hnu & Hbl). rewrite Ew in Hb, Hge. cbn [nextTx nextHeight window_of] in Hb, Hge.
  pose proof (len_nonneg (Txs b)) as Hlen.
  assert (Hheight : Height b = cToH c \/ cFromH c = 0 /\ cToH c = 0).
  { unfold add in E. rewrite Ew in E. cbn [nextHeight started window_of baseTx nextTx] in E.
    rewrite (proj2 (Z.ltb_ge _ _)) in E by lia. apply rbind_Ok in E as (m0 & E0 & E).
    destruct (Z.ltb_spec (cFromH c) (cToH c)).
    - injection E0 as <-. rewrite Ew in E. cbn [nextHeight window_of] in E.
      destruct (Z.eqb_spec (Height b) (cToH c)); [by left|done].
    - destruct (Z.eqb_spec (cToH c) 0); [right; lia|]. destruct (Z.eqb_spec (Height b) (cToH c)); [by left|]. done. }
  assert (Hrest : at_rest m (cChain c) (Height b) (cToTx c)).
  { destruct Hheight as [->|[Z1 Z2]]; [by apply open_rest|]. destruct Hcase as [[-> Ec]|((_ & ?) & _)]; [|lia].
    rewrite Ec. cbn. apply at_rest_fresh; lia. }
  assert (Hnext : nextHeight (win m) = Height b \/ started (win m) = false /\ nextHeight (win m) = 0).
  { rewrite Ew. cbn. destruct Hheight as [?|[-> ->]]; [by left|right]. done. }
  destruct (add_ok Keccak256 EncodeBare m (cChain c) (cToTx c) b) as (m1 & E1 & A1 & N1 & S1 & B1 & B2); try done; try lia.
  rewrite E in E1. injection E1 as <-. rewrite Ew in B1, B2. cbn [baseTx baseHeight started window_of] in B1, B2.
  assert (Hadds : adds (cToTx c) (block_delta Keccak256 EncodeBare (cToTx c) b) m m').
  { pose proof (add_adds Keccak256 EncodeBare m b m' E) as G. rewrite Ew in G. cbn [nextHeight nextTx window_of] in G. apply G; lia. }
  destruct Hadds as (Est & _ & _ & _). rewrite Es in Est. cbn [block_delta dState] in Est.
  assert (Haux : aux_wf (mem m') (cToTx c + len (Txs b))).
  { unfold add in E. rewrite Ew in E. cbn [nextHeight started window_of baseTx nextTx] in E.
    rewrite (proj2 (Z.ltb_ge _ _)) in E by lia. apply rbind_Ok in E as (m0 & E0 & E).
    assert (Hm0 : nextTx (win m0) = cToTx c /\ mem m0 = mem m).
    { destruct (cFromH c <? cToH c); [injection E0 as <-; by rewrite Ew|].
      destruct (negb (cToH c =? 0) && negb (Height b =? cToH c)); [done|]. by injection E0 as <-. }
    destruct Hm0 as (Hn0 & Hm0). destruct (negb (Height b =? nextHeight (win m0))); [done|].
    apply (add_block_wf Keccak256 EncodeBare keccak_len m0 b m' (cToTx c) E); try done; try (unfold u64_ok; lia).
    rewrite Hm0. by apply open_aux. }
  split; [|done].
  assert (Hgc : content_ok (grown c b m')).
  { assert (Hbh : 0 <= (if cFromH c <? cToH c then cFromH c else Height b) <= Height b + 1).
    { destruct (Z.ltb_spec (cFromH c) (cToH c)); lia. }
    unfold content_ok, grown. cbn [cFromTx cToTx cFromH cToH cChain cState cNums]. split_and!; try lia.
    - intros fam n v Hrow. apply block_rows_In in Hrow as [Hrow|Hrow].
      + specialize (Hch _ _ _ Hrow). destruct (famByHeight fam); [|lia]. rewrite (proj2 (Z.ltb_lt _ _)) by lia. lia.
      + destruct (famByHeight fam); [|lia]. subst n. destruct (Z.ltb_spec (cFromH c) (cToH c)); lia.
    - intros p. apply put_all_hist; [done|]. intros q. rewrite <- Est. by apply aux_hist.
    - intros k n Hk. destruct Haux as (_ & (Hnum & _) & _). by destruct (Hnum k n Hk).
    - apply grown_blocky; try done. destruct Hcase as [[_ ->]|(Hne & _)]; [left; by cbn|right; split; [done|]].
      destruct Hheight as [?|[? ?]]; [done|]. destruct Hne. lia. }
  split.
  - split_and!; try done. unfold window_of, grown. cbn [cFromTx cToTx cFromH cToH].
    assert (Hst' : (if cFromH c <? cToH c then cFromH c else Height b) < Height b + 1) by (destruct (Z.ltb_spec (cFromH c) (cToH c)); lia).
    rewrite (proj2 (Z.ltb_lt _ _) Hst'). pose proof (proj2 (proj2 (proj2 A1))) as Hn. destruct (win m'); cbn in *; congruence.
  - right. unfold grown. cbn [cChain cToH cToTx]. split_and!; [|done|by replace (cToTx c + len (Txs b) + 1 - 1) with (cToTx c + len (Txs b)) by lia].
    unfold nonempty. cbn. destruct (Z.ltb_spec (cFromH c) (cToH c)); lia.
Qed.

End Blocks.

(** ** The abstract store *)

Record store := MkStore {
  aChain : nat * Z -> option bytes;
  aHist : bytes -> list (Z * bytes);
  aNum : bytes -> option Z;
  aCode : bytes -> option bytes;
  aNextTx : Z; aNextH : Z }.

Definition store_eq (X Y : store) : Prop :=
  (forall k, aChain X k = aChain Y k) /\ (forall p, aHist X p = aHist Y p) /\ (forall k, aNum X k = aNum Y k) /\
  (forall k, aCode X k = aCode Y k) /\ aNextTx X = aNextTx Y /\ aNextH X = aNextH Y.

#[global] Instance store_eq_equiv : Equivalence store_eq.
Proof.
  split.
  - intros X. by split_and!.
  - intros X Y (H1 & H2 & H3 & H4 & H5 & H6). split_and!; congruence.
  - intros X Y W (H1 & H2 & H3 & H4 & H5 & H6) (G1 & G2 & G3 & G4 & G5 & G6). split_and!; congruence.
Qed.

(** One key's history after a list of writes. *)
Definition puts (L : list srow) (p : bytes) (h : list (Z * bytes)) : list (Z * bytes) :=
  fold_left (fun h x => if decide (p = x.1.1) then put_hist h x.1.2 x.2 else h) L h.

Inductive event := EvWrite (b : BlockWrite) | EvCut | EvPublish | EvRemove | EvMerge.

(** The store a list of contents, oldest first, amounts to. *)
Definition store_of (l : list content) : store :=
  MkStore (fun k => look (chain_of k) l) (hist_at l) (fun k => look (num_of k) l) (fun k => look (code_of k) l)
    (match last l with None => 0 | Some c => cToTx c end) (match last l with None => 0 | Some c => cToH c end).

Lemma hist_put_all st L p : hist (put_all st L) p = puts L p (hist st p).
Proof.
  unfold put_all, puts. revert st. induction L as [|x L IH]; intros st; cbn [fold_left]; [done|]. rewrite IH, hist_put.
  by case_decide.
Qed.

Lemma put_hist_app pre h n v : Forall (fun x => x.1 < n) pre -> put_hist (pre ++ h) n v = pre ++ put_hist h n v.
Proof.
  intros Hp. unfold put_hist. destruct h as [|x h _] using rev_ind.
  - rewrite app_nil_r. cbn. destruct (last pre) as [[t0 v0]|] eqn:El; [|done].
    apply last_Some in El as [h' ->]. apply Forall_app in Hp as [_ Hp]. apply Forall_inv in Hp. cbn in Hp.
    destruct (Z.eqb_spec t0 n); [lia|done].
  - rewrite app_assoc, !last_snoc, !removelast_last. destruct x as [t0 v0]. destruct (t0 =? n); by rewrite ?app_assoc.
Qed.

Lemma puts_app pre L p : forall h, Forall (fun x : srow => Forall (fun y => y.1 < x.1.2) pre) L -> puts L p (pre ++ h) = pre ++ puts L p h.
Proof.
  unfold puts. induction L as [|x L IH]; intros h Hf; cbn [fold_left]; [done|]. apply Forall_cons in Hf as [Hx Hf].
  case_decide; [rewrite put_hist_app by done|]; by apply IH.
Qed.

Section Steps.
Context `{SSTLaws} (casName : bytes -> bytes) (Keccak256 : bytes -> bytes) (EncodeBare : bytes -> list bytes -> res bytes).
Hypothesis keccak_len : forall x, len (Keccak256 x) = 32.

(** The store after one more block: its rows at the next numbers, its state
    writes appended to their keys' histories, its hash rows bound, its codes
    present, nothing else changed. Codes are keyed by their hash: a code the
    store has already may be stored again and then either copy is the answer. *)
Definition block_added (b : BlockWrite) (X Y : store) : Prop :=
  (forall k, aChain Y k = match block_rows (aNextTx X) b ∅ !! k with Some v => Some v | None => aChain X k end) /\
  (forall p, aHist Y p = puts (block_srows (aNextTx X) b) p (aHist X p)) /\
  (forall k, aNum Y k = match last_num (block_nums Keccak256 EncodeBare (aNextTx X) b) k with Some n => Some n | None => aNum X k end) /\
  (forall k, aCode Y k = aCode X k \/ exists v, (k, v) ∈ Code b /\ aCode Y k = Some v) /\
  (forall k v, (k, v) ∈ Code b -> is_Some (aCode Y k)) /\
  aNextTx Y = aNextTx X + len (Txs b) + 1 /\ aNextH Y = Height b + 1.

(** What a step of the database does to the store. *)
Definition astep (e : event) (X Y : store) : Prop :=
  match e with
  | EvWrite b => if Height b <? aNextH X then store_eq X Y else block_added b X Y
  | _ => store_eq X Y
  end.

(** ** The steps *)

(** [step_publish]'s window was read by the sealing goroutine and [prev] is a
    run name it read before; the merge takes its inputs at one moment and swaps
    at another. *)
Inductive step : DB -> event -> DB -> Prop :=
| step_write d b m m' : heap d !! dmem d = Some m -> writable EncodeBare m b -> add Keccak256 EncodeBare m b = Ok m' ->
    step d (EvWrite b) (with_heap d (<[dmem d := m']> (heap d)))
| step_cut d d' : dfrozen d = None -> cutWindow d = Ok d' -> step d EvCut d'
| step_publish d id m prev ref run : dfrozen d = Some id -> heap d !! id = Some m -> len prev = 32 -> sections_fit m ->
    seal_run casName prev m = Ok (ref, run) -> step d EvPublish (publish d ref run)
| step_remove d id m : (id < dmem d)%nat -> dfrozen d <> Some id -> heap d !! id = Some m ->
    step d EvRemove (with_heap d (<[id := mem_remove m]> (heap d)))
| step_merge_start d : step d EvMerge (MaybeMerge d)
| step_merge_read d j inp : merging d = Some j -> jinputs j = None -> merge_inputs d (jstart j) (jend j) = Ok inp ->
    step d EvMerge (with_merging d (Some (MkJob (jstart j) (jend j) (Some inp))))
| step_merge_swap d j refs inputs prev ref merged d' :
    merging d = Some j -> jinputs j = Some (refs, inputs, prev) -> merge_fits inputs ->
    (exists N, forall fuel, (N <= fuel)%nat -> merge_build casName fuel prev refs inputs = Ok (ref, merged)) ->
    merge_swap d (jstart j) (jend j) refs ref merged = Ok d' -> step d EvMerge (with_merging d' None).

(** ** The invariant *)

Definition same_rows (a b : list content) : Prop :=
  (forall k, look (chain_of k) a = look (chain_of k) b) /\ (forall p, hist_at a p = hist_at b p) /\
  (forall k, look (num_of k) a = look (num_of k) b) /\ (forall k, look (code_of k) a = look (code_of k) b).

(** The merge in flight holds a span of the live runs. *)
Definition merge_ok (d : DB) : Prop :=
  len (chainRoot d) = 32 /\
  match merging d with
  | None => True
  | Some j => (jstart j < jend j)%nat /\ (jend j <= length (ver d))%nat /\
      match jinputs j with
      | None => True
      | Some (refs, inputs, prev) =>
          refs = drop (jstart j) (take (jend j) (mRuns (man d))) /\
          inputs = drop (jstart j) (take (jend j) (ver d)) /\ len prev = 32
      end
  end.

(** [base] is what the runs held at open, [L] what each window object holds in
    the order they were created, the first [p] of them published; [cs] is what
    the live runs hold. *)
Definition Inv (d : DB) (base cs L : list content) (p : nat) : Prop :=
  Forall2 run_serves (ver d) cs /\ Forall2 ref_of (mRuns (man d)) cs /\ Forall2 obj_any (heap d) L /\
  (forall i m c, heap d !! i = Some m -> L !! i = Some c -> (p <= i)%nat -> obj_open m c) /\
  length L = S (dmem d) /\ (dfrozen d = None /\ p = dmem d \/ dfrozen d = Some p /\ dmem d = S p) /\
  same_rows cs (base ++ take p L) /\ tiled (base ++ L) /\ Forall content_ok base /\ tiled (cs ++ drop p L) /\
  merge_ok d.

(** Windows only grow, and only the last one. *)
Definition grew (c c' : content) : Prop :=
  cChain c ⊆ cChain c' /\ extends (cToTx c) (cState c) (cState c') /\ cCode c ⊆ cCode c' /\
  (forall k, is_Some (cNums c !! k) -> is_Some (cNums c' !! k)) /\ cToTx c <= cToTx c'.
Definition later (L L' : list content) : Prop :=
  (length L <= length L')%nat /\
  forall i c, L !! i = Some c -> exists c', L' !! i = Some c' /\ grew c c' /\ ((S i < length L)%nat -> c' = c).

Lemma grew_refl c : grew c c.
Proof. split_and!; try done. intros p. exists []. rewrite app_nil_r. by split. Qed.

Lemma later_refl L : later L L.
Proof. split; [done|]. intros i c Hc. exists c. split_and!; [done|apply grew_refl|done]. Qed.

Lemma later_last l c c' : grew c c' -> later (l ++ [c]) (l ++ [c']).
Proof.
  intros Hg. split; [by rewrite !length_app|]. intros i x Hx. destruct (decide (i < length l)%nat) as [Hi|Hi].
  - rewrite lookup_app_l in Hx |- * by done. exists x. split_and!; [done|apply grew_refl|done].
  - rewrite lookup_app_r in Hx |- * by lia. destruct (i - length l)%nat eqn:E; [|done]. injection Hx as <-.
    exists c'. split_and!; [done..|]. rewrite length_app. cbn. lia.
Qed.

Lemma later_snoc L c : later L (L ++ [c]).
Proof.
  split; [rewrite length_app; lia|]. intros i x Hx. exists x. rewrite lookup_app_l by (by eapply lookup_lt_Some).
  split_and!; [done|apply grew_refl|done].
Qed.

Lemma Inv_content_ok d base cs L p : Inv d base cs L p -> Forall content_ok (base ++ L).
Proof.
  intros (_ & _ & Hobj & _ & _ & _ & _ & _ & Hb & _). apply Forall_app. split; [done|].
  clear -Hobj. induction Hobj as [|m c ms cs Hm _ IH]; constructor; [|done]. by apply obj_any_ok in Hm as [? _].
Qed.

(** The active object and its content. *)
Lemma Inv_active d base cs L p m :
  Inv d base cs L p -> heap d !! dmem d = Some m ->
  exists l c, L = l ++ [c] /\ length l = dmem d /\ obj_open m c /\ (p <= dmem d)%nat.
Proof.
  intros (_ & _ & _ & Ho & HL & Hf & _) Hm. destruct L as [|c l _] using rev_ind; [done|].
  rewrite length_app in HL. cbn in HL. exists l, c. assert (length l = dmem d) by lia.
  assert (p <= dmem d)%nat by lia. split_and!; try done. apply (Ho (dmem d)); try done.
  rewrite lookup_app_r, H1, Nat.sub_diag by lia. done.
Qed.

Lemma drop_snoc {A} (l : list A) c p : (p <= length l)%nat -> drop p (l ++ [c]) = drop p l ++ [c].
Proof. intros Hp. rewrite drop_app, (proj2 (Nat.sub_0_le p (length l)) Hp). done. Qed.

Lemma tiled_last a c c' :
  tiled (a ++ [c]) -> cFromTx c' = cFromTx c -> (a <> [] -> cFromH c' = cFromH c) -> tiled (a ++ [c']).
Proof.
  induction a as [|x a IH]; intros Ht E1 E2; cbn [app tiled] in *; [done|]. destruct Ht as [Hx Ht].
  specialize (E2 ltac:(done)). split; [|by apply IH]. destruct a; cbn [app] in *; [|done]. rewrite E1, E2. done.
Qed.

Lemma tiled_add a c t h :
  tiled (a ++ [c]) -> nonempty c -> t = cToTx c -> h = cToH c -> tiled (a ++ [c; empty_content t h]).
Proof.
  induction a as [|x a IH]; intros Ht Hn -> ->; cbn [app tiled] in *; [by cbn|]. destruct Ht as [Hx Ht].
  split; [|by apply IH]. destruct a; done.
Qed.

(** A window above others starts above height 0. *)
Lemma tiled_low a c : tiled (a ++ [c]) -> Forall content_ok (a ++ [c]) -> a <> [] -> 0 < cFromH c.
Proof.
  intros Ht Ho Ha. destruct a as [|x a]; [done|].
  destruct (tiled_snoc_before (x :: a) c x Ht Ho ltac:(set_solver)) as ((_ & ?) & _ & ?).
  apply Forall_cons in Ho as [(_ & _ & ? & _) _]. lia.
Qed.

Lemma store_last l c : aNextTx (store_of (l ++ [c])) = cToTx c /\ aNextH (store_of (l ++ [c])) = cToH c.
Proof. unfold store_of. cbn. by rewrite last_snoc. Qed.

(** What a block adds to the codes and the numbers of a window. *)
Lemma add_maps m c b m' : obj_open m c -> writable EncodeBare m b -> add Keccak256 EncodeBare m b = Ok m' -> cToH c <= Height b ->
  code (mem m') = put_codes (cCode c) (Code b) /\ nums (mem m') = put_nums (cNums c) (block_nums Keccak256 EncodeBare (cToTx c) b).
Proof.
  intros Ho Hw E Hge. pose proof Ho as [(Hc & Es & Eco & Enu & Ew) _]. pose proof Hw as (_ & _ & _ & _ & _ & Hb & _). rewrite Ew in Hb. cbn in Hb.
  destruct Hc as (? & ? & _). pose proof (len_nonneg (Txs b)). pose proof (add_adds Keccak256 EncodeBare m b m' E) as G. rewrite Ew in G. cbn in G.
  destruct (G ltac:(lia) ltac:(lia) ltac:(lia)) as (_ & Gc & Gn & _). by rewrite <- Eco, <- Enu.
Qed.

Lemma grown_grew m c b m' : obj_open m c -> writable EncodeBare m b -> add Keccak256 EncodeBare m b = Ok m' -> cToH c <= Height b -> grew c (grown c b m').
Proof.
  intros Ho Hw E Hge. destruct (add_maps m c b m' Ho Hw E Hge) as [Gc Gn]. pose proof Ho as [(Hc & _) _]. split_and!.
  - apply map_subseteq_spec. intros [fam n] v Hv. cbn [grown cChain]. rewrite block_rows_union.
    destruct (block_rows (cToTx c) b ∅ !! (fam, n)) as [w|] eqn:Ew; [|done]. exfalso. apply block_rows_In in Ew as [Ew|Ew]; [by rewrite lookup_empty in Ew|].
    destruct Hc as (_ & _ & _ & _ & Hrow & _). specialize (Hrow _ _ _ Hv). destruct (famByHeight fam); lia.
  - apply put_all_extends.
    + intros q. destruct Hc as (_ & _ & _ & _ & _ & Hh & _). destruct (Hh q) as [_ F]. eapply Forall_impl; [exact F|]. cbn. lia.
    + eapply Forall_impl; [apply block_srows_num|]. cbn. lia.
  - cbn [grown cCode]. rewrite Gc. apply put_codes_sub.
  - cbn [grown cNums]. intros k Hk. rewrite Gn, put_nums_lookup. destruct (last_num _ k); eauto.
  - cbn. pose proof (len_nonneg (Txs b)). lia.
Qed.

Lemma grown_tiled m c b m' a : obj_open m c -> writable EncodeBare m b -> add Keccak256 EncodeBare m b = Ok m' -> cToH c <= Height b ->
  tiled (a ++ [c]) -> Forall content_ok (a ++ [c]) -> tiled (a ++ [grown c b m']).
Proof.
  intros Ho Hw E Hge Ha Hao. pose proof Ho as [(Hc & _ & _ & _ & Ew) _].
  destruct (add_open Keccak256 EncodeBare keccak_len m c b m' Ho Hw E) as [_ Hh]; [rewrite Ew; cbn; lia|].
  apply (tiled_last a c _ Ha); [done|]. intros Hne. cbn [grown cFromH]. destruct (Z.ltb_spec (cFromH c) (cToH c)); [done|].
  pose proof (tiled_low a c Ha Hao Hne). destruct Hh as [->|[? _]]; [|lia]. destruct Hc as (_ & _ & ? & _). lia.
Qed.

(** The store with the grown window is the store with the block added. *)
Lemma grown_added a m c b m' : obj_open m c -> writable EncodeBare m b -> add Keccak256 EncodeBare m b = Ok m' -> cToH c <= Height b ->
  tiled (a ++ [c]) -> Forall content_ok (a ++ [c]) -> block_added b (store_of (a ++ [c])) (store_of (a ++ [grown c b m'])).
Proof.
  intros Ho Hw E Hge Ht Hok. destruct (add_maps m c b m' Ho Hw E Hge) as [Gc Gn]. pose proof Ho as [(Hc & _) _].
  unfold block_added. rewrite (proj1 (store_last a c)). destruct (store_last a (grown c b m')) as [-> ->]. split_and!; try done.
  - intros k. cbn [store_of aChain]. rewrite !look_snoc. unfold chain_of at 1 3. cbn [grown cChain].
    rewrite block_rows_union. destruct (block_rows (cToTx c) b ∅ !! k); done.
  - intros q. cbn [store_of aHist]. rewrite !hist_at_snoc. cbn [grown cState]. rewrite hist_put_all. symmetry. apply puts_app.
    eapply Forall_impl; [apply block_srows_num|]. cbn. intros x [Hx _]. apply Forall_forall. intros y Hy. apply hist_at_In in Hy as (z & Hz & Hy).
    destruct (tiled_snoc_before a c z Ht Hok Hz) as (_ & Hle & _). apply Forall_app in Hok as [Hok _]. rewrite Forall_forall in Hok.
    destruct (Hok z Hz) as (_ & _ & _ & _ & _ & Hh & _). destruct (Hh q) as [_ F]. rewrite Forall_forall in F. specialize (F y Hy). cbn in F.
    destruct Hc as (? & _). lia.
  - intros k. cbn [store_of aNum]. rewrite !look_snoc. unfold num_of at 1 3. cbn [grown cNums]. rewrite Gn, put_nums_lookup.
    destruct (last_num _ k); [done|]. by destruct (cNums c !! k).
  - intros k. cbn [store_of aCode]. rewrite !look_snoc. unfold code_of at 1 3 5. cbn [grown cCode]. rewrite Gc.
    destruct (put_codes (cCode c) (Code b) !! k) as [w|] eqn:Ek; [apply put_codes_In in Ek as [->|Ek]; [by left|right; eauto]|].
    left. destruct (cCode c !! k) as [n0|] eqn:Ek0; [|done]. pose proof (lookup_weaken _ _ _ _ Ek0 (put_codes_sub (Code b) _)). congruence.
  - intros k v Hkv. cbn [store_of aCode]. rewrite look_snoc. unfold code_of at 1. cbn [grown cCode]. rewrite Gc.
    destruct (put_codes_has (Code b) k v (cCode c) Hkv) as [w ->]. eauto.
Qed.

(** Replacing the active window's object and content. *)
Lemma inv_active d base cs l c c' m' p :
  Inv d base cs (l ++ [c]) p -> obj_open m' c' -> tiled (base ++ l ++ [c']) -> tiled (cs ++ drop p (l ++ [c'])) ->
  Inv (with_heap d (<[dmem d := m']> (heap d))) base cs (l ++ [c']) p.
Proof.
  intros (Hr & Href & Hobj & Hop & HL & Hf & Hsame & Htile & Hbase & Hlive & Hmg) Ho' Ht1 Ht2.
  rewrite length_app in HL. cbn in HL. assert (Hl : length l = dmem d) by lia. assert (Hp : (p <= dmem d)%nat) by lia.
  unfold Inv. cbn [with_heap ver man heap dmem dfrozen chainRoot merging]. split_and!; try done.
  - apply Forall2_app_inv_r in Hobj as (h1 & h2 & H1' & H2' & Eh). rewrite Eh. inv H2' as [|? ? h3 ? ? Hnil]. inv Hnil.
    pose proof (Forall2_length _ _ _ H1') as Hlen. rewrite insert_app_r_alt by lia. rewrite Hlen, Hl, Nat.sub_diag. cbn.
    apply Forall2_app; [done|]. constructor; [by left|constructor].
  - intros i m0 c0 Hm0 Hc0 Hi. destruct (decide (i = dmem d)) as [->|Hne].
    + apply Forall2_length in Hobj. rewrite length_app in Hobj. cbn in Hobj. rewrite list_lookup_insert_eq in Hm0 by lia. injection Hm0 as <-.
      rewrite lookup_app_r, Hl, Nat.sub_diag in Hc0 by lia. by injection Hc0 as <-.
    + rewrite list_lookup_insert_ne in Hm0 by done. apply (Hop i m0 c0 Hm0); [|done].
      destruct (decide (i < length l)%nat) as [Hi'|Hi']; [by rewrite lookup_app_l in Hc0 |- *|].
      rewrite lookup_app_r in Hc0 by lia. destruct (i - length l)%nat eqn:Ei; [lia|done].
  - rewrite length_app. cbn. lia.
  - by rewrite take_app_le in Hsame |- * by lia.
Qed.

(** Writing a block. *)
Lemma inv_write d base cs L p b m m' :
  Inv d base cs L p -> heap d !! dmem d = Some m -> writable EncodeBare m b -> add Keccak256 EncodeBare m b = Ok m' ->
  exists L', Inv (with_heap d (<[dmem d := m']> (heap d))) base cs L' p /\ later L L' /\
    astep (EvWrite b) (store_of (base ++ L)) (store_of (base ++ L')) /\
    (L' = L /\ m' = m /\ Height b < nextHeight (win m) \/ nextHeight (win m) <= Height b /\ exists l c, L = l ++ [c] /\ L' = l ++ [grown c b m']).
Proof.
  intros HI Hm Hw E. pose proof (Inv_content_ok _ _ _ _ _ HI) as Hok. destruct (Inv_active _ _ _ _ _ _ HI Hm) as (l & c & -> & Hl & Ho & Hp).
  pose proof HI as (Hr & _ & _ & _ & _ & _ & _ & Htile & _ & Hlive & _).
  pose proof Ho as [(Hc & _ & _ & _ & Ew) _]. pose proof Hok as Hok'. rewrite app_assoc in Hok'.
  cbn [astep]. rewrite (app_assoc base l [c]), (proj2 (store_last (base ++ l) c)). destruct (Z.ltb_spec (Height b) (cToH c)) as [Hlt|Hge].
  { (* already in the window *)
    assert (m' = m) as ->.
    { unfold add in E. rewrite Ew in E. cbn [nextHeight window_of] in E. rewrite (proj2 (Z.ltb_lt _ _)) in E by done. by injection E. }
    exists (l ++ [c]). rewrite list_insert_id, (app_assoc base) by done. split_and!; [by destruct d|apply later_refl|done|left; by rewrite Ew]. }
  destruct (add_open Keccak256 EncodeBare keccak_len m c b m' Ho Hw E) as [Ho' _]; [rewrite Ew; cbn; lia|].
  exists (l ++ [grown c b m']). rewrite (app_assoc base l [grown _ _ _]). split; [|split; [|split; [|right; rewrite Ew; eauto]]].
  - apply inv_active with c; [done..| |].
    + rewrite app_assoc in Htile |- *. by apply (grown_tiled m).
    + rewrite drop_snoc in Hlive |- * by lia. rewrite app_assoc in Hlive |- *. apply (grown_tiled m); try done.
      apply Forall_app. split; [|by apply Forall_app in Hok' as [_ ?]]. apply Forall_app. split; [by eapply serves_ok|].
      apply Forall_app in Hok' as [Hok' _]. apply Forall_app in Hok' as [_ Hok']. by apply Forall_drop.
  - apply later_last. by apply (grown_grew m).
  - rewrite app_assoc in Htile. by apply (grown_added _ m).
Qed.

(** Cutting the window: the same rows, and an empty window in front. *)
Lemma inv_cut d base cs L p d' :
  Inv d base cs L p -> dfrozen d = None -> cutWindow d = Ok d' ->
  exists L', Inv d' base cs L' p /\ later L L' /\ astep EvCut (store_of (base ++ L)) (store_of (base ++ L')) /\
    (d' = d /\ L' = L \/ exists l c, L = l ++ [c] /\ L' = L ++ [empty_content (cToTx c) (cToH c)] /\
      d' = with_mems d (heap d ++ [fresh (cToTx c) (cToH c)]) (length (heap d)) (Some (dmem d))).
Proof.
  intros HI Hf E. unfold cutWindow in E. apply rbind_Ok in E as (m & Em & E). unfold obj in Em.
  destruct (heap d !! dmem d) as [m0|] eqn:Hm; [|done]. injection Em as <-.
  destruct (Inv_active _ _ _ _ _ _ HI Hm) as (l & c & -> & Hl & Ho & Hp).
  pose proof Ho as [(Hc & _ & _ & _ & Ew) Hcase]. rewrite Ew in E. cbn [started nextHeight baseHeight window_of nextTx] in E.
  destruct (negb (cFromH c <? cToH c) || (cToH c =? cFromH c)) eqn:Eg.
  { injection E as <-. exists (l ++ [c]). split_and!; [done|apply later_refl|by cbn|by left]. }
  assert (Hne : nonempty c).
  { destruct Hcase as [[_ Ec]|(? & _)]; [|done]. rewrite Ec in Eg. cbn in Eg. by rewrite Z.ltb_irrefl in Eg. }
  assert (Hfl : flushLocked m0 = m0).
  { unfold flushLocked. destruct (open_rest m0 c Ho) as (_ & -> & _). by rewrite Z.eqb_refl. }
  rewrite Hfl, list_insert_id in E by done. injection E as <-. set (e := empty_content (cToTx c) (cToH c)).
  pose proof HI as (Hr & Href & Hobj & Hop & HL & Hfz & Hsame & Htile & Hbase & Hlive & Hmg). rewrite length_app in HL. cbn in HL.
  assert (p = dmem d) as -> by (destruct Hfz as [[_ ?]|[? _]]; congruence).
  pose proof (Forall2_length _ _ _ Hobj) as Hlen. rewrite length_app in Hlen. cbn in Hlen.
  assert (He : obj_open (fresh (cToTx c) (cToH c)) e) by (destruct Hc as (? & ? & ? & ? & _); apply fresh_open; lia).
  exists ((l ++ [c]) ++ [e]). split; [|split; [|split; [|right; by exists l, c]]].
  - unfold Inv. cbn [with_mems ver man heap dmem dfrozen chainRoot merging]. split_and!; try done.
    + apply Forall2_app; [done|]. constructor; [by left|constructor].
    + intros i m1 c1 Hm1 Hc1 Hi. destruct (decide (i < length (heap d))%nat) as [Hlt|Hge].
      * rewrite lookup_app_l in Hm1 by done. rewrite lookup_app_l in Hc1 by (rewrite length_app; cbn; lia). by apply (Hop i).
      * rewrite lookup_app_r in Hm1 by lia. rewrite lookup_app_r in Hc1 by (rewrite length_app; cbn; lia).
        rewrite length_app in Hc1. cbn in Hc1. rewrite Hlen in Hm1.
        destruct (i - (length l + 1))%nat; [|done]. injection Hm1 as <-. by injection Hc1 as <-.
    + rewrite !length_app. cbn. lia.
    + right. split; [done|lia].
    + rewrite take_app_le by (rewrite length_app; cbn; lia). done.
    + rewrite <- app_assoc, app_assoc. cbn [app]. rewrite app_assoc in Htile. by apply tiled_add.
    + rewrite (drop_snoc (l ++ [c])) by (rewrite length_app; cbn; lia). rewrite (drop_snoc l) in Hlive |- * by lia.
      rewrite <- !app_assoc. cbn [app]. rewrite app_assoc. rewrite app_assoc in Hlive. by apply tiled_add.
  - apply later_snoc.
  - cbn [astep]. rewrite (app_assoc base (l ++ [c]) [e]). unfold store_eq. destruct (store_last (base ++ l ++ [c]) e) as [-> ->].
    rewrite (app_assoc base l [c]).
    destruct (store_last (base ++ l) c) as [-> ->]. cbn [store_of aChain aHist aNum aCode]. split_and!; try done; intros k.
    + rewrite (look_snoc _ _ e). unfold chain_of at 2. cbn. by rewrite lookup_empty.
    + rewrite (hist_at_snoc _ e). unfold e, hist at 1. cbn. rewrite lookup_empty. cbn. by rewrite app_nil_r.
    + rewrite (look_snoc _ _ e). unfold num_of at 2. cbn. by rewrite lookup_empty.
    + rewrite (look_snoc _ _ e). unfold code_of at 2. cbn. by rewrite lookup_empty.
Qed.

(** Sealing an object gives a run that holds its content. *)
Lemma seal_run_ok prev m c :
  obj_open m c -> nonempty c -> sections_fit m -> len prev = 32 ->
  exists ref run, seal_run casName prev m = Ok (ref, run) /\ run_serves run c /\ ref_of ref c /\ rLevel ref = 0.
Proof.
  intros Ho Hn Hfit Hp. pose proof Ho as [(Hc & Es & Eco & Enu & Ew) Hcase].
  destruct Hcase as [[_ Ec]|(_ & Hrest & Haux)]; [rewrite Ec in Hn; unfold nonempty in Hn; cbn in Hn; lia|].
  assert (Hwf : window_wf m (cChain c) (cToH c) (cToTx c)) by (destruct Haux as (? & ? & _); by split_and!).
  pose proof Hc as (? & ? & ? & ? & _). pose proof Hn as [Hn1 Hn2].
  assert (Hsec : exists R, sections m = Ok R).
  { pose proof Hwf as (Hr & _ & Hlk). unfold sections.
    destruct (chain_section_ok m _ _ _ Hr famPrefix 0 eq_refl) as (ch & -> & _). cbn [rbind].
    destruct (lookup_rows_ok m Hlk) as (l & rows & -> & _). cbn [rbind]. eauto. }
  destruct Hsec as [R ER]. destruct (sections_rows m _ _ _ R Hwf ER) as (Hsr & Hne & R1 & R2 & R3 & R4 & R5 & R6).
  destruct (Hfit R ER) as [Hsm Hf].
  unfold seal_run. rewrite Ew. cbn [window_of baseTx nextTx baseHeight nextHeight].
  rewrite (u64_small (cToH c - 1)) by (unfold u64_ok; lia). rewrite (writeSections_run prev m R ER).
  destruct (write_open prev 0 R (cFromTx c) (cToTx c) (cFromH c) (cToH c - 1)) as (w & r & Ew' & _ & _ & _ & Eo & Ef & Hh);
    try done; try (unfold u64_ok; lia). rewrite Ew'. cbn [rbind]. rewrite Eo. cbn [rbind].
  eexists _, r. split_and!; try done.
  - split; [done|]. split.
    + rewrite Ef. unfold footer_of. cbn [fin_footer Finish FromTx ToTx FromHeight ToHeight]. split; [lia|done].
    + exists R. split; [done|]. rewrite Es in R3. rewrite Eco in R4. rewrite Enu in R5. by split_and!.
  - unfold ref_of. cbn. lia.
Qed.

Lemma inv_publish d base cs L p id m prev ref run :
  Inv d base cs L p -> dfrozen d = Some id -> heap d !! id = Some m -> len prev = 32 -> sections_fit m ->
  seal_run casName prev m = Ok (ref, run) ->
  exists c, L !! p = Some c /\ Inv (publish d ref run) base (cs ++ [c]) L (S p).
Proof.
  intros HI Hf Hm Hp Hfit E. pose proof HI as (Hr & Href & Hobj & Hop & HL & Hfz & Hsame & Htile & Hbase & Hlive & Hmg).
  destruct Hfz as [[? _]|[Hfp Hd]]; [congruence|]. rewrite Hf in Hfp. injection Hfp as ->.
  destruct (lookup_lt_is_Some_2 L p ltac:(lia)) as [c Hc]. exists c. split; [done|].
  pose proof (Hop p m c Hm Hc ltac:(lia)) as Ho.
  assert (Hne : nonempty c).
  { destruct (lookup_lt_is_Some_2 L (S p) ltac:(lia)) as [c2 Hc2]. pose proof (drop_S L c p Hc) as Ed. rewrite (drop_S L c2 (S p) Hc2) in Ed.
    rewrite Ed in Hlive. apply tiled_app in Hlive as [_ [Hn _]]. by destruct Hn. }
  destruct (seal_run_ok prev m c Ho Hne Hfit Hp) as (ref' & run' & E' & Hs & Hrf & _). rewrite E in E'. injection E' as <- <-.
  unfold Inv. cbn [publish with_runs ver man mRuns heap dmem dfrozen chainRoot merging].
  split_and!; try done.
  - apply Forall2_app; [done|]. by constructor.
  - apply Forall2_app; [done|]. by constructor.
  - intros i m0 c0 Hm0 Hc0 Hi. apply (Hop i); [done..|lia].
  - left. split; [done|lia].
  - rewrite (take_S_r L p c Hc), app_assoc. destruct Hsame as (S1 & S2 & S3 & S4). split_and!; intros k.
    + by rewrite !look_snoc, S1.
    + by rewrite !hist_at_snoc, S2.
    + by rewrite !look_snoc, S3.
    + by rewrite !look_snoc, S4.
  - rewrite <- app_assoc. cbn [app]. by rewrite <- (drop_S L c p Hc).
  - destruct Hmg as [Hroot Hmg]. split; [done|]. cbn [publish with_runs ver man mRuns chainRoot merging]. destruct (merging d) as [j|]; [|done]. destruct Hmg as (J1 & J2 & J3).
    rewrite length_app. split_and!; [done|lia|]. destruct (jinputs j) as [[[refs inputs] prv]|]; [|done]. destruct J3 as (-> & -> & ?).
    pose proof (Forall2_length _ _ _ Hr). pose proof (Forall2_length _ _ _ Href).
    rewrite !take_app_le by lia. done.
Qed.

Lemma inv_remove d base cs L p id m :
  Inv d base cs L p -> (id < dmem d)%nat -> dfrozen d <> Some id -> heap d !! id = Some m ->
  Inv (with_heap d (<[id := mem_remove m]> (heap d))) base cs L p.
Proof.
  intros HI Hlt Hnf Hm. pose proof HI as (Hr & Href & Hobj & Hop & HL & Hfz & Hsame & Htile & Hbase & Hlive & Hmg).
  assert (Hid : (id < p)%nat).
  { destruct Hfz as [[_ ->]|[Ef Hd]]; [done|]. destruct (decide (id = p)) as [->|]; [done|lia]. }
  unfold Inv. cbn [with_heap ver man heap dmem dfrozen chainRoot merging]. split_and!; try done.
  - destruct (Forall2_lookup_l _ _ _ _ _ Hobj Hm) as (c & Hc & Hmc). rewrite <- (list_insert_id L id c Hc).
    apply Forall2_insert; [done|]. right. apply obj_any_ok in Hmc. by split.
  - intros i m0 c0 Hm0 Hc0 Hi. rewrite list_lookup_insert_ne in Hm0 by lia. by apply (Hop i).
Qed.

Lemma inv_merging d base cs L p j :
  Inv d base cs L p -> merge_ok (with_merging d j) -> Inv (with_merging d j) base cs L p.
Proof. intros (? & ? & ? & ? & ? & ? & ? & ? & ? & ? & _) Hj. by split_and!. Qed.

Lemma span_end_range from term runs : forall e x, span_end from term e runs = Some x -> (e < x <= e + length runs)%nat.
Proof.
  induction runs as [|r runs IH]; intros e x E; cbn [span_end] in E; [done|].
  destruct (term <=? u64 (rToTx r - from)); [injection E as <-; cbn; lia|]. apply IH in E. cbn. lia.
Qed.

Lemma mergeSpan_range runs term a e : mergeSpan runs term = Some (a, e) -> (a < e <= length runs)%nat.
Proof.
  unfold mergeSpan. destruct (runs !! span_start runs (length runs)) as [r|] eqn:Er; [|done]. intros E.
  destruct (span_end _ _ _ _) as [x|] eqn:Ex; [|done]. cbn in E. injection E as <- <-.
  apply span_end_range in Ex. rewrite length_drop in Ex. apply lookup_lt_Some in Er. lia.
Qed.

Lemma inv_merge_start d base cs L p : Inv d base cs L p -> Inv (MaybeMerge d) base cs L p.
Proof.
  intros HI. unfold MaybeMerge. destruct (merging d) eqn:Ej; [done|]. destruct (mergeSpanLocked d) as [[a e]|] eqn:Es; [|done].
  apply inv_merging; [done|]. pose proof HI as (Hr & Href & _ & _ & _ & _ & _ & _ & _ & _ & Hroot & _).
  apply mergeSpan_range in Es. split; [done|]. cbn. pose proof (Forall2_length _ _ _ Hr). pose proof (Forall2_length _ _ _ Href).
  split_and!; [lia..|done].
Qed.

Lemma decodeRoot_len s r : decodeRoot s = Ok r -> len r = 32.
Proof. unfold decodeRoot. destruct (hex_decode s) as [raw| |]; try done. destruct (Z.eqb_spec (len raw) 32); [|done]. by intros [= <-]. Qed.

Lemma inv_merge_read d base cs L p j inp :
  Inv d base cs L p -> merging d = Some j -> merge_inputs d (jstart j) (jend j) = Ok inp ->
  Inv (with_merging d (Some (MkJob (jstart j) (jend j) (Some inp)))) base cs L p.
Proof.
  intros HI Hj E. apply inv_merging; [done|]. pose proof HI as (_ & _ & _ & _ & _ & _ & _ & _ & _ & _ & Hroot & Hmg).
  rewrite Hj in Hmg. destruct Hmg as (J1 & J2 & _). split; [done|]. cbn. split_and!; [done..|].
  unfold merge_inputs in E. destruct (_ || _); [done|]. apply rbind_Ok in E as (prev & Ep & E). injection E as <-. split_and!; try done.
  destruct (jstart j) as [|k]; [by injection Ep as <-|]. destruct (mRuns (man d) !! k); [|done]. by eapply decodeRoot_len.
Qed.

(** The span of the live contents a merge works on. *)
Lemma span_split {A} (l : list A) a e : (a < e <= length l)%nat ->
  exists x sp, drop a (take e l) = x :: sp /\ l = take a l ++ (x :: sp) ++ drop e l.
Proof.
  intros Hr. destruct (drop a (take e l)) as [|x sp] eqn:E.
  - apply (f_equal length) in E. rewrite length_drop, length_take in E. cbn in E. lia.
  - exists x, sp. split; [done|]. rewrite <- E, app_assoc. replace (take a l) with (take a (take e l)) by (by rewrite take_take, Nat.min_l by lia).
    by rewrite !take_drop.
Qed.

Lemma Forall2_span {A B} (P : A -> B -> Prop) l k a e :
  Forall2 P l k -> Forall2 P (drop a (take e l)) (drop a (take e k)) /\ Forall2 P (take a l) (take a k) /\ Forall2 P (drop e l) (drop e k).
Proof. intros Hp. split_and!; [by apply Forall2_drop, Forall2_take|by apply Forall2_take|by apply Forall2_drop]. Qed.

Lemma inv_merge_swap d base cs L p j refs inputs prev ref merged d' :
  Inv d base cs L p -> merging d = Some j -> jinputs j = Some (refs, inputs, prev) -> merge_fits inputs ->
  (exists N, forall fuel, (N <= fuel)%nat -> merge_build casName fuel prev refs inputs = Ok (ref, merged)) ->
  merge_swap d (jstart j) (jend j) refs ref merged = Ok d' ->
  exists cs', Inv (with_merging d' None) base cs' L p.
Proof.
  intros HI Hj Hji Hfit (N & HN) E. pose proof HI as (Hr & Href & Hobj & Hop & HL & Hfz & Hsame & Htile & Hbase & Hlive & Hroot & Hmg).
  rewrite Hj, Hji in Hmg. destruct Hmg as (J1 & J2 & -> & -> & Hp). set (a := jstart j) in *. set (e := jend j) in *.
  pose proof (Forall2_length _ _ _ Hr) as Hlr. pose proof (Forall2_length _ _ _ Href) as Hlf.
  destruct (span_split cs a e ltac:(lia)) as (c & sp & Esp & Ecs).
  destruct (Forall2_span _ _ _ a e Hr) as (R1 & R2 & R3). destruct (Forall2_span _ _ _ a e Href) as (F1 & F2 & F3).
  rewrite Esp in R1, F1.
  assert (Htsp : tiled (c :: sp)) by (rewrite Ecs, <- !app_assoc in Hlive; apply tiled_app in Hlive as [_ Hlive]; by apply tiled_app in Hlive as [? _]).
  destruct (merge_build_ok casName prev _ _ c sp R1 F1 Htsp Hfit Hp) as (N' & ref' & merged' & HN' & Hs & Hrf & _).
  specialize (HN' (max N N') ltac:(lia)). rewrite HN in HN' by lia. injection HN' as <- <-.
  unfold merge_swap in E. destruct (_ || _); [done|]. injection E as <-.
  exists (take a cs ++ combine_all c sp :: drop e cs).
  unfold Inv. cbn [with_merging with_runs ver man mRuns heap dmem dfrozen chainRoot merging]. unfold splice. split_and!; try done.
  - apply Forall2_app; [done|]. cbn [app]. by constructor.
  - apply Forall2_app; [done|]. cbn [app]. by constructor.
  - destruct Hsame as (S1 & S2 & S3 & S4).
    assert (G : forall A (f : content -> option A), (forall c cs, f (combine_all c cs) = look f (c :: cs)) ->
      look f (take a cs ++ combine_all c sp :: drop e cs) = look f cs).
    { intros A f Hf. rewrite Ecs at 3. rewrite !look_app. cbn [look]. rewrite Hf. cbn [look].
      destruct (look f (drop e cs)); [done|]. by destruct (look f sp). }
    split_and!.
    + intros k. rewrite G; [apply S1|intros; apply chain_combine].
    + intros q. rewrite <- S2. rewrite Ecs at 3. rewrite !hist_at_app. f_equal.
      change (hist_at (combine_all c sp :: drop e cs) q) with (hist (cState (combine_all c sp)) q ++ hist_at (drop e cs) q).
      by rewrite hist_combine_all.
    + intros k. rewrite G; [apply S3|intros; apply num_combine].
    + intros k. rewrite G; [apply S4|intros; apply code_combine].
  - rewrite Ecs, <- !app_assoc in Hlive. rewrite <- app_assoc. cbn [app]. apply tiled_join. exact Hlive.
Qed.

(** Every step keeps the invariant, grows the windows and does to the store what
    [astep] says. *)
Lemma step_inv d e d' base cs L p :
  Inv d base cs L p -> step d e d' ->
  exists cs' L' p', Inv d' base cs' L' p' /\ later L L' /\ (p <= p')%nat /\
    astep e (store_of (base ++ L)) (store_of (base ++ L')).
Proof.
  intros HI Hs. destruct Hs as [d b m m' Hm Hw E|d d' Hf E|d id m prev ref run Hf Hm Hp Hfit E|d id m Hlt Hnf Hm|d|d j inp Hj Hji E|
    d j refs inputs prev ref merged d' Hj Hji Hfit HN E].
  - destruct (inv_write _ _ _ _ _ _ _ _ HI Hm Hw E) as (L' & H1 & H2 & H3 & _). by exists cs, L', p.
  - destruct (inv_cut _ _ _ _ _ _ HI Hf E) as (L' & H1 & H2 & H3 & _). by exists cs, L', p.
  - destruct (inv_publish _ _ _ _ _ _ _ _ _ _ HI Hf Hm Hp Hfit E) as (c & _ & H1). exists (cs ++ [c]), L, (S p).
    split_and!; [done|apply later_refl|lia|cbn; done].
  - exists cs, L, p. split_and!; [by apply inv_remove|apply later_refl|lia|cbn; done].
  - exists cs, L, p. split_and!; [by apply inv_merge_start|apply later_refl|lia|cbn; done].
  - exists cs, L, p. split_and!; [by apply inv_merge_read|apply later_refl|lia|cbn; done].
  - destruct (inv_merge_swap _ _ _ _ _ _ _ _ _ _ _ _ HI Hj Hji Hfit HN E) as (cs' & H1). exists cs', L, p.
    split_and!; [done|apply later_refl|lia|cbn; done].
Qed.

(** ** Any number of steps *)

Definition steps : DB -> DB -> Prop := rtc (fun d d' => exists e, step d e d').

Lemma grew_trans a b c : grew a b -> grew b c -> grew a c.
Proof.
  intros (A1 & A2 & A3 & A4 & A5) (B1 & B2 & B3 & B4 & B5). split_and!; [by etransitivity| |by etransitivity|auto|lia].
  intros p. destruct (A2 p) as (e & E & F), (B2 p) as (e' & E' & F'). exists (e ++ e'). rewrite E', E, app_assoc.
  split; [done|]. apply Forall_app. split; [done|]. eapply Forall_impl; [exact F'|]. cbn. lia.
Qed.

Lemma later_trans L1 L2 L3 : later L1 L2 -> later L2 L3 -> later L1 L3.
Proof.
  intros [H1 G1] [H2 G2]. split; [lia|]. intros i c Hc. destruct (G1 i c Hc) as (c' & Hc' & g1 & e1).
  destruct (G2 i c' Hc') as (c2 & Hc2 & g2 & e2). exists c2. split_and!; [done|by eapply grew_trans|].
  intros Hi. rewrite e2 by lia. by apply e1.
Qed.

Lemma steps_inv d d' base cs L p :
  Inv d base cs L p -> steps d d' -> exists cs' L' p', Inv d' base cs' L' p' /\ later L L' /\ (p <= p')%nat.
Proof.
  intros HI Hs. revert cs L p HI. induction Hs as [d|d d1 d2 (e & Hstep) _ IH]; intros cs L p HI.
  { exists cs, L, p. split_and!; [done|apply later_refl|lia]. }
  destruct (step_inv _ _ _ _ _ _ _ HI Hstep) as (cs1 & L1 & p1 & HI1 & Hl1 & Hp1 & _).
  destruct (IH cs1 L1 p1 HI1) as (cs2 & L2 & p2 & HI2 & Hl2 & Hp2). exists cs2, L2, p2.
  split_and!; [done|by eapply later_trans|lia].
Qed.

(** The states a reader sees: each reached from the one before. *)
Definition moments (s : nat -> DB) : Prop := forall i, steps (s i) (s (S i)).

Lemma moments_steps s i j : moments s -> (i <= j)%nat -> steps (s i) (s j).
Proof.
  intros Hm Hij. induction Hij as [|j _ IH]; [apply rtc_refl|]. transitivity (s j); [exact IH|apply Hm].
Qed.

(** An object a reader holds the address of. *)
Lemma Inv_obj d base cs L p a :
  Inv d base cs L p -> (a < length L)%nat ->
  exists m c, obj d a = Ok m /\ L !! a = Some c /\ obj_any m c /\ ((p <= a)%nat -> obj_open m c).
Proof.
  intros (_ & _ & Hobj & Hop & _) Ha. destruct (lookup_lt_is_Some_2 L a Ha) as [c Hc].
  destruct (Forall2_lookup_r _ _ _ _ _ Hobj Hc) as (m & Hm & Hmc). exists m, c. unfold obj. rewrite Hm.
  split_and!; try done. intros Hp. by apply (Hop a).
Qed.

(** Which windows a reader that takes [mems] now can still have to look at. *)
Lemma Inv_unpublished d base cs L p i :
  Inv d base cs L p -> (p <= i < length L)%nat -> i = dmem d \/ dfrozen d = Some i.
Proof. intros (_ & _ & _ & _ & HL & Hf & _) Hi. destruct Hf as [[_ ?]|[-> ?]]; [left; lia|]. destruct (decide (i = p)) as [->|]; [by right|left; lia]. Qed.

(** ** The descent finds what was there *)

Section Descent.
Context {A : Type} (f : content -> option A) (get : memtable -> res (option A)) (run : list Run -> res (option A)).
Hypothesis get_open : forall m c, obj_open m c -> get m = Ok (f c).
Hypothesis get_closed : forall m c, obj_ok m c -> fopen m = false -> get m = Ok (f c) \/ get m = Ok None.
Hypothesis run_look : forall rs cs, Forall2 run_serves rs cs -> tiled cs -> run (reverse rs) = Ok (look f cs).
Hypothesis look_same : forall a b, same_rows a b -> look f a = look f b.

(** Reading an object gives its answer, or nothing if it is closed. *)
Lemma get_any m c : obj_any m c -> get m = Ok (f c) \/ get m = Ok None.
Proof. intros [Ho|[Ho Hc]]; [left; by apply get_open|by apply get_closed]. Qed.

Lemma runs_answer d base cs L p :
  Inv d base cs L p -> run (reverse (snapshot d)) = Ok (look f cs) /\ look f cs = look f (base ++ take p L).
Proof.
  intros (Hr & _ & _ & _ & _ & _ & Hsame & _ & _ & Hlive & _). split; [|by apply look_same].
  apply run_look; [done|]. by apply tiled_app in Hlive as [? _].
Qed.

(** The answers of every window and run a reader may meet, from the state it starts in. *)
Definition agree (s : nat -> DB) (base L : list content) (v : A) : Prop :=
  forall i cs' L' p', Inv (s i) base cs' L' p' -> later L L' ->
    Forall (fun c => f c = None \/ f c = Some v) L' /\ (look f cs' = None \/ look f cs' = Some v).

Lemma descend_finds s base cs L p v :
  Inv (s 0%nat) base cs L p -> moments s -> (forall c c', grew c c' -> f c = Some v -> is_Some (f c')) ->
  agree s base L v -> (exists x, x ∈ base ++ L /\ f x = Some v) -> descend s get run = Ok (Some v).
Proof.
  intros HI Hmo Hgrow Hag (x & Hx & Hv).
  destruct (steps_inv _ (s 1%nat) _ _ _ _ HI (moments_steps s 0 1 Hmo ltac:(lia))) as (cs1 & L1 & p1 & HI1 & Hl1 & Hp1).
  destruct (steps_inv _ (s 2%nat) _ _ _ _ HI1 (moments_steps s 1 2 Hmo ltac:(lia))) as (cs2 & L2 & p2 & HI2 & Hl2 & Hp2).
  destruct (steps_inv _ (s 3%nat) _ _ _ _ HI2 (moments_steps s 2 3 Hmo ltac:(lia))) as (cs3 & L3 & p3 & HI3 & Hl3 & Hp3).
  pose proof (later_trans _ _ _ Hl1 Hl2) as Hl02. pose proof (later_trans _ _ _ Hl02 Hl3) as Hl03.
  pose proof HI as (_ & _ & _ & _ & HL & Hf & _).
  assert (Hsome : forall i cs' L' p' a c, Inv (s i) base cs' L' p' -> later L L' -> L' !! a = Some c -> f c = None \/ f c = Some v).
  { intros i cs' L' p' a c Hi Hl Hc. destruct (Hag i cs' L' p' Hi Hl) as [F _]. rewrite Forall_forall in F. by apply F, (list_elem_of_lookup_2 _ a). }
  (* the runs, once the windows had nothing *)
  assert (Hruns : (forall c, L1 !! dmem (s 0%nat) = Some c -> (p1 <= dmem (s 0%nat))%nat -> f c = None) ->
    (forall a c, dfrozen (s 0%nat) = Some a -> L2 !! a = Some c -> (p2 <= a)%nat -> f c = None) ->
    run (reverse (snapshot (s 3%nat))) = Ok (Some v)).
  { intros N1 N2. destruct (runs_answer _ _ _ _ _ HI3) as [-> Hlook]. f_equal. destruct (Hag 3%nat _ _ _ HI3 Hl03) as [_ [Hn| ->]]; [|done].
    exfalso. rewrite Hlook in Hn. apply look_None in Hn. rewrite Forall_forall in Hn. apply elem_of_app in Hx as [Hx|Hx].
    { rewrite Hn in Hv; [done|]. apply elem_of_app. by left. }
    apply list_elem_of_lookup in Hx as [i Hi]. destruct (decide (i < p3)%nat) as [Hlt|Hge].
    { destruct Hl03 as [_ G]. destruct (G i x Hi) as (c3 & Hc3 & Hg & _).
      assert (Hin : c3 ∈ base ++ take p3 L3).
      { apply elem_of_app. right. apply list_elem_of_lookup. exists i. by rewrite lookup_take_lt. }
      specialize (Hn c3 Hin). destruct (Hgrow x c3 Hg Hv). congruence. }
    pose proof (lookup_lt_Some _ _ _ Hi) as Hli.
    destruct (Inv_unpublished _ _ _ _ _ i HI ltac:(lia)) as [->|Hfz].
    - destruct Hl1 as [_ G]. destruct (G _ x Hi) as (c1 & Hc1 & Hg & _). specialize (N1 c1 Hc1 ltac:(lia)). destruct (Hgrow x c1 Hg Hv). congruence.
    - destruct Hl02 as [_ G]. destruct (G _ x Hi) as (c2 & Hc2 & Hg & _). specialize (N2 i c2 Hfz Hc2 ltac:(lia)). destruct (Hgrow x c2 Hg Hv). congruence. }
  unfold descend, mems.
  destruct (Inv_obj _ _ _ _ _ (dmem (s 0%nat)) HI1) as (m1 & c1 & -> & Hc1 & Hany1 & Hop1); [destruct Hl1; lia|]. cbn [rbind].
  assert (Hstep2 : (forall c, L1 !! dmem (s 0%nat) = Some c -> (p1 <= dmem (s 0%nat))%nat -> f c = None) ->
    (let* v := match dfrozen (s 0%nat) with None => Ok None | Some a => let* m := obj (s 2%nat) a in get m end in
     match v with Some v => Ok (Some v) | None => run (reverse (snapshot (s 3%nat))) end) = Ok (Some v)).
  { intros N1. destruct (dfrozen (s 0%nat)) as [a|] eqn:Efz.
    - destruct Hf as [[? _]|[[= ->] Hd]]; [done|].
      destruct (Inv_obj _ _ _ _ _ p HI2) as (m2 & c2 & -> & Hc2 & Hany2 & Hop2); [destruct Hl02; lia|]. cbn [rbind].
      destruct (get_any m2 c2 Hany2) as [Eg|Eg]; rewrite Eg; cbn [rbind].
      + destruct (Hsome 2%nat _ _ _ p c2 HI2 Hl02 Hc2) as [En|En]; rewrite En; [|done].
        apply Hruns; [done|]. intros a c [= <-] Hc _. rewrite Hc2 in Hc. by injection Hc as <-.
      + apply Hruns; [done|]. intros a c [= <-] Hc Hpa. specialize (Hop2 Hpa). rewrite (get_open m2 c2 Hop2) in Eg.
        rewrite Hc2 in Hc. injection Hc as <-. by injection Eg.
    - cbn [rbind]. apply Hruns; [done|]. intros a c [=]. }
  destruct (get_any m1 c1 Hany1) as [Eg|Eg]; rewrite Eg; cbn [rbind].
  - destruct (Hsome 1%nat _ _ _ _ c1 HI1 Hl1 Hc1) as [En|En]; rewrite En; [|done].
    apply Hstep2. intros c Hc _. rewrite Hc1 in Hc. by injection Hc as <-.
  - apply Hstep2. intros c Hc Hpa. specialize (Hop1 Hpa). rewrite (get_open m1 c1 Hop1) in Eg. rewrite Hc1 in Hc. injection Hc as <-. by injection Eg.
Qed.

(** With nothing beside it the descent is exact: the newest content that binds
    the key answers, and nothing if none does. *)
Lemma descend_exact d base cs L p : Inv d base cs L p -> descend (fun _ => d) get run = Ok (look f (base ++ L)).
Proof.
  intros HI. destruct (runs_answer _ _ _ _ _ HI) as [Hrun Hlook]. pose proof HI as (_ & _ & _ & _ & HL & Hf & _).
  destruct (Inv_obj _ _ _ _ _ (dmem d) HI) as (m & c & Em & Hc & _ & Hop); [lia|]. unfold descend, mems. rewrite Em. cbn [rbind].
  destruct L as [|c' l _] using rev_ind; [done|]. rewrite length_app in HL. cbn in HL.
  rewrite lookup_app_r in Hc by lia. replace (dmem d - length l)%nat with 0%nat in Hc by lia. injection Hc as ->.
  rewrite (get_open m c) by (apply Hop; lia). cbn [rbind]. rewrite app_assoc, look_snoc. destruct (f c) as [v|]; [done|].
  destruct Hf as [[-> Hd]|[Hfz Hd]]; cbn [rbind].
  - rewrite Hrun, Hlook. rewrite take_app_le, take_ge by lia. done.
  - rewrite Hfz. destruct (Inv_obj _ _ _ _ _ p HI) as (m2 & c2 & Em2 & Hc2 & _ & Hop2); [rewrite length_app; cbn; lia|].
    rewrite Em2. cbn [rbind]. rewrite (get_open m2 c2) by (apply Hop2; lia). cbn [rbind].
    rewrite lookup_app_l in Hc2 by lia. rewrite Hrun, Hlook, take_app_le by lia.
    assert (Hl : look f (base ++ l) = look f ((base ++ take p l) ++ [c2])).
    { f_equal. rewrite <- app_assoc. f_equal. rewrite <- (take_drop_middle l p c2 Hc2) at 1. by rewrite drop_ge by lia. }
    rewrite Hl, look_snoc. by destruct (f c2).
Qed.

(** Whatever runs beside it, the descent answers, and with what some content of
    the last state it saw binds, or bound before it grew. *)
Lemma descend_sound s base cs L p :
  Inv (s 0%nat) base cs L p -> moments s ->
  exists r cs3 L3 p3, descend s get run = Ok r /\ Inv (s 3%nat) base cs3 L3 p3 /\ later L L3 /\
    forall v, r = Some v -> exists y x, f y = Some v /\ grew y x /\ x ∈ base ++ L3.
Proof.
  intros HI Hmo.
  destruct (steps_inv _ (s 1%nat) _ _ _ _ HI (moments_steps s 0 1 Hmo ltac:(lia))) as (cs1 & L1 & p1 & HI1 & Hl1 & Hp1).
  destruct (steps_inv _ (s 2%nat) _ _ _ _ HI1 (moments_steps s 1 2 Hmo ltac:(lia))) as (cs2 & L2 & p2 & HI2 & Hl2 & Hp2).
  destruct (steps_inv _ (s 3%nat) _ _ _ _ HI2 (moments_steps s 2 3 Hmo ltac:(lia))) as (cs3 & L3 & p3 & HI3 & Hl3 & Hp3).
  pose proof (later_trans _ _ _ Hl1 Hl2) as Hl02. pose proof (later_trans _ _ _ Hl2 Hl3) as Hl13. pose proof (later_trans _ _ _ Hl02 Hl3) as Hl03.
  pose proof HI as (_ & _ & _ & _ & HL & Hf & _).
  enough (G : exists r, descend s get run = Ok r /\ forall v, r = Some v -> exists y x, f y = Some v /\ grew y x /\ x ∈ base ++ L3).
  { destruct G as (r & E & G). by exists r, cs3, L3, p3. }
  assert (Hobj : forall L' a c, later L' L3 -> L' !! a = Some c -> exists r, Ok (f c) = Ok r /\ forall v, r = Some v ->
    exists y x, f y = Some v /\ grew y x /\ x ∈ base ++ L3).
  { intros L' a c [_ G] Hc. exists (f c). split; [done|]. intros v Hv. destruct (G a c Hc) as (c' & Hc' & Hg & _). exists c, c'.
    split_and!; try done. apply elem_of_app. right. by eapply list_elem_of_lookup_2. }
  assert (Hrun : exists r, run (reverse (snapshot (s 3%nat))) = Ok r /\ forall v, r = Some v ->
    exists y x, f y = Some v /\ grew y x /\ x ∈ base ++ L3).
  { destruct (runs_answer _ _ _ _ _ HI3) as [-> Hlook]. exists (look f cs3). split; [done|]. rewrite Hlook. intros v Hv.
    apply look_Some_In in Hv as (x & Hx & Hv). exists x, x. split_and!; [done|apply grew_refl|].
    apply elem_of_app in Hx as [Hx|Hx]; apply elem_of_app; [by left|right; by eapply subseteq_take]. }
  unfold descend, mems.
  destruct (Inv_obj _ _ _ _ _ (dmem (s 0%nat)) HI1) as (m1 & c1 & -> & Hc1 & Hany1 & _); [destruct Hl1; lia|]. cbn [rbind].
  assert (Hrest : exists r, (let* v := match dfrozen (s 0%nat) with None => Ok None | Some a => let* m := obj (s 2%nat) a in get m end in
     match v with Some v => Ok (Some v) | None => run (reverse (snapshot (s 3%nat))) end) = Ok r /\ forall v, r = Some v ->
    exists y x, f y = Some v /\ grew y x /\ x ∈ base ++ L3).
  { destruct (dfrozen (s 0%nat)) as [a|] eqn:Efz; [|exact Hrun]. destruct Hf as [[? _]|[[= ->] Hd]]; [done|].
    destruct (Inv_obj _ _ _ _ _ p HI2) as (m2 & c2 & -> & Hc2 & Hany2 & _); [destruct Hl02; lia|]. cbn [rbind].
    destruct (get_any m2 c2 Hany2) as [Eg|Eg]; rewrite Eg; cbn [rbind]; [|exact Hrun].
    pose proof (Hobj L2 p c2 Hl3 Hc2) as G. destruct (f c2); [exact G|exact Hrun]. }
  destruct (get_any m1 c1 Hany1) as [Eg|Eg]; rewrite Eg; cbn [rbind]; [|exact Hrest].
  pose proof (Hobj L1 _ c1 Hl13 Hc1) as G. destruct (f c1); [exact G|exact Hrest].
Qed.

End Descent.

End Steps.
End Refine.
