(* ===== verification/DBReads.v ===== *)
(** * What the database promises (store/db.go, store/merge.go)

    The refinement of the abstract store, what point reads return beside any
    writer, sealing and merging steps, and that sealing and merging can always
    be finished. *)

From S2P Require Import Prelude Bytes Rows Ef Format Sha256 Container Memtable MemRecover MemRead Sst RunFile Postings Seal Window Growth KMerge DB Contents Merge Refine.
Import Format.

Module DBReads.
Import Memtable MemRecover MemRead RunFile Seal Window Growth KMerge DB Contents Merge Refine.

Lemma chain_unique l x k v :
  tiled l -> Forall content_ok l -> x ∈ l -> cChain x !! k = Some v -> look (chain_of k) l = Some v.
Proof.
  induction l as [|c l IH]; intros Ht Ho Hx Hv; [set_solver|]. pose proof Ho as Ho'. apply Forall_cons in Ho' as [Hc Hl].
  cbn [look]. apply elem_of_cons in Hx as [->|Hx]; [|by rewrite (IH (proj2 Ht) Hl Hx Hv)].
  destruct (look (chain_of k) l) as [w|] eqn:E; [|done]. exfalso. apply look_Some_In in E as (y & Hy & Ey).
  destruct (tiled_after c l y Ht Ho Hy) as (_ & H1 & H2). rewrite Forall_forall in Hl. destruct k as [fam n].
  destruct (Hl y Hy) as (_ & _ & _ & _ & Hr & _). destruct Hc as (_ & _ & _ & _ & Hr' & _).
  specialize (Hr _ _ _ Ey). specialize (Hr' _ _ _ Hv). destruct (famByHeight fam); lia.
Qed.

(** A content of the list at a later moment, grown. *)
Lemma later_In base L L' x :
  later L L' -> x ∈ base ++ L -> exists x', x' ∈ base ++ L' /\ grew x x'.
Proof.
  intros [_ G] Hx. apply elem_of_app in Hx as [Hx|Hx]; [exists x; split; [set_solver|apply grew_refl]|].
  apply list_elem_of_lookup in Hx as [i Hi]. destruct (G i x Hi) as (x' & Hx' & Hg & _). exists x'.
  split; [|done]. apply elem_of_app. right. by eapply list_elem_of_lookup_2.
Qed.

Section Promise.
Context `{SSTLaws} (casName : bytes -> bytes) (Keccak256 : bytes -> bytes) (EncodeBare : bytes -> list bytes -> res bytes).
Hypothesis keccak_len : forall x, len (Keccak256 x) = 32.

Abbreviation dbstep := (step casName Keccak256 EncodeBare).
Abbreviation dbastep := (astep Keccak256 EncodeBare).
Abbreviation seen := (moments casName Keccak256 EncodeBare).

(** The database stands for the abstract store [X]. *)
Definition shows (d : DB) (X : store) : Prop :=
  exists base cs L p, Inv d base cs L p /\ store_eq (store_of (base ++ L)) X.

(** An empty data directory: one untouched window, no runs. *)
Definition empty_db (root : bytes) (txs blocks terminal : Z) : DB :=
  MkDB root [fresh 0 0] 0 None (MkMan StorageVersion (hexName root) []) [] None txs blocks terminal.
Definition empty_store : store := MkStore (fun _ => None) (fun _ => []) (fun _ => None) (fun _ => None) 0 0.

Lemma empty_shows root txs blocks terminal : len root = 32 -> shows (empty_db root txs blocks terminal) empty_store.
Proof.
  intros Hr. exists [], [], [empty_content 0 0], 0%nat. split.
  - assert (Hf : obj_open (fresh 0 0) (empty_content 0 0)) by (by apply fresh_open).
    unfold Inv. split_and!; try done; try by constructor.
    + constructor; [by left|constructor].
    + intros [|i] m c Hm Hc _; [|done]. injection Hm as <-. by injection Hc as <-.
  - done.
Qed.

Lemma astep_eq e X Y Z : store_eq X Y -> dbastep e X Z -> dbastep e Y Z.
Proof.
  intros HE. pose proof HE as (E1 & E2 & E3 & E4 & E5 & E6).
  destruct e as [b| | | |]; cbn [astep]; try (intros Ha; etransitivity; [symmetry; exact HE|exact Ha]).
  rewrite <- E6. destruct (Height b <? aNextH X); [intros Ha; etransitivity; [symmetry; exact HE|exact Ha]|].
  intros (A1 & A2 & A3 & A4 & A5 & A6 & A7). rewrite E5 in *. split_and!; try done.
  - intros k. by rewrite A1, E1.
  - intros p. by rewrite A2, E2.
  - intros k. by rewrite A3, E3.
  - intros k. destruct (A4 k) as [Hk|Hk]; [left; by rewrite Hk, E4|by right].
Qed.

Lemma shows_step d X e d' : shows d X -> dbstep d e d' -> exists Y, shows d' Y /\ dbastep e X Y.
Proof.
  intros (base & cs & L & p & HI & HX) Hs.
  destruct (step_inv casName Keccak256 EncodeBare keccak_len _ _ _ _ _ _ _ HI Hs) as (cs' & L' & p' & HI' & _ & _ & Ha).
  exists (store_of (base ++ L')). split; [by exists base, cs', L', p'|]. by eapply astep_eq.
Qed.

(** C1: the database refines an append-only store of blocks. An empty data
    directory stands for the empty store, and every step of the writer, the
    sealing goroutine and the merge takes a state that stands for a store to one
    that stands for the store after the step: writing a block the window has
    not seen adds exactly its chain rows at the next height and TxNums and
    appends exactly its state writes to their keys' histories; a block below
    the next height, a cut, a publish, a removal of a sealed log and every
    stage of a merge leave the store as it was. *)
Theorem db_refines d X e d' root txs blocks terminal :
  shows d X -> dbstep d e d' -> len root = 32 ->
  shows (empty_db root txs blocks terminal) empty_store /\ exists Y, shows d' Y /\ dbastep e X Y.
Proof. intros Hd Hs Hr. split; [by apply empty_shows|by eapply shows_step]. Qed.

(** ** Point reads *)

Lemma agree_chain s base cs L p k x v :
  Inv (s 0%nat) base cs L p -> x ∈ base ++ L -> cChain x !! k = Some v -> agree (chain_of k) s base L v.
Proof.
  intros HI Hx Hv i cs' L' p' HI' Hl. destruct (later_In base L L' x Hl Hx) as (x' & Hx' & Hg & _).
  pose proof (lookup_weaken _ _ _ _ Hv Hg) as Hv'. pose proof (Inv_content_ok _ _ _ _ _ HI') as Hok.
  pose proof HI' as (_ & _ & _ & _ & _ & _ & (Hs & _) & Ht & _).
  pose proof (chain_unique _ _ _ _ Ht Hok Hx' Hv') as Hlook.
  assert (Huni : forall c w, c ∈ base ++ L' -> cChain c !! k = Some w -> w = v).
  { intros c w Hc Hw. pose proof (chain_unique _ _ _ _ Ht Hok Hc Hw). congruence. }
  split.
  - apply Forall_forall. intros c Hc. unfold chain_of. destruct (cChain c !! k) as [w|] eqn:E; [right|by left].
    f_equal. apply (Huni c w); [set_solver|done].
  - rewrite Hs. destruct (look (chain_of k) (base ++ take p' L')) as [w|] eqn:E; [right|by left]. f_equal.
    apply look_Some_In in E as (c & Hc & Hw). apply (Huni c w); [|done]. apply elem_of_app in Hc as [Hc|Hc]; [set_solver|].
    apply elem_of_app. right. by eapply subseteq_take.
Qed.

Lemma chain_read s base cs L p fam n v :
  Inv (s 0%nat) base cs L p -> seen s -> (fam < 6)%nat -> u64_ok n -> look (chain_of (fam, n)) (base ++ L) = Some v ->
  chainRow s fam n (famByHeight fam) = Ok (Some v).
Proof.
  intros HI Hm Hf Hn Hl. apply look_Some_In in Hl as (x & Hx & Hv).
  destruct (lookup_lt_is_Some_2 famPrefix fam) as [pfx Hp]; [done|]. unfold chainRow. rewrite Hp.
  apply (descend_finds casName Keccak256 EncodeBare keccak_len (chain_of (fam, n))) with base cs L p; try done.
  - intros m c Ho. by rewrite (open_chainGet m c fam n Ho Hf).
  - intros m c _ Hc. right. unfold chainGet. by rewrite Hc.
  - intros rs cs0 Hr Ht. by apply chain_runs_ok.
  - intros a b (Hs & _). apply Hs.
  - intros c c' (Hg & _) Hc. exists v. by eapply lookup_weaken.
  - by eapply agree_chain.
  - by exists x.
Qed.

(** No write of the key at or before [at_]. *)
Definition silent (p : bytes) (at_ : Z) (c : content) : Prop := last_write (hist (cState c) p) at_ = None.

Lemma hist_at_silent p at_ l l' :
  Forall (silent p at_) l' -> last_write (hist_at (l ++ l') p) at_ = last_write (hist_at l p) at_.
Proof.
  intros Hf. rewrite hist_at_app, last_write_app. replace (last_write (hist_at l' p) at_) with (@None (bytes * Z)); [done|].
  induction Hf as [|c l' Hc _ IH]; [done|]. change (hist_at (c :: l') p) with (hist (cState c) p ++ hist_at l' p).
  by rewrite last_write_app, <- IH, Hc.
Qed.

Lemma grew_latest p at_ c c' :
  grew c c' -> at_ < cToTx c -> last_write (hist (cState c') p) at_ = last_write (hist (cState c) p) at_.
Proof.
  intros (_ & He & _) Hlt. destruct (He p) as (e & -> & F). rewrite last_write_app, last_write_after; [done|].
  eapply Forall_impl; [exact F|]. cbn. lia.
Qed.

(** Windows cut after the reader started are silent at its TxNum. *)
Lemma later_silent base L L' p at_ l c :
  L = l ++ [c] -> later L L' -> tiled (base ++ L') -> Forall content_ok (base ++ L') -> at_ < cToTx c ->
  Forall (silent p at_) (drop (length L) L').
Proof.
  intros -> [Hlen G] Ht Ho Hat. destruct (G (length l) c) as (c' & Hc' & Hg & _).
  { by rewrite lookup_app_r, Nat.sub_diag by lia. }
  apply Forall_forall. intros x Hx. rewrite length_app in Hx. cbn in Hx. rewrite Nat.add_1_r in Hx.
  rewrite <- (take_drop_middle _ _ _ Hc') in Ht, Ho. rewrite app_assoc in Ht, Ho. apply tiled_app in Ht as [_ Ht]. apply Forall_app in Ho as [_ Ho].
  destruct (tiled_after c' _ x Ht Ho Hx) as (_ & Hle & _). destruct Hg as (_ & _ & _ & _ & ?).
  apply Forall_cons in Ho as [_ Ho]. rewrite Forall_forall in Ho. destruct (Ho x Hx) as (_ & _ & _ & _ & _ & Hh & _).
  apply last_write_after. destruct (Hh p) as [_ F]. eapply Forall_impl; [exact F|]. cbn. lia.
Qed.

Lemma later_prefix L L' p : later L L' -> (S p <= length L)%nat -> take p L' = take p L.
Proof.
  intros [_ G] Hp. apply list_eq. intros i. destruct (decide (i < p)%nat) as [Hi|Hi].
  - rewrite !lookup_take_lt by done. destruct (lookup_lt_is_Some_2 L i ltac:(lia)) as [c Hc].
    destruct (G i c Hc) as (c' & Hc' & _ & E). rewrite Hc', Hc. by rewrite E by lia.
  - by rewrite !lookup_take_ge by lia.
Qed.

Lemma latest_read s base cs L p0 p at_ :
  Inv (s 0%nat) base cs L p0 -> seen s -> state_prefix p -> 0 <= at_ -> at_ < aNextTx (store_of (base ++ L)) ->
  latest s SecState p at_ = Ok (fst <$> last_write (hist_at (base ++ L) p) at_).
Proof.
  intros HI Hmo Hp Hat0 Hat.
  destruct (steps_inv casName Keccak256 EncodeBare keccak_len _ (s 1%nat) _ _ _ _ HI) as (cs1 & L1 & p1 & HI1 & Hl1 & Hp1); [apply moments_steps; [done|lia]|].
  destruct (steps_inv casName Keccak256 EncodeBare keccak_len _ (s 2%nat) _ _ _ _ HI1) as (cs2 & L2 & p2 & HI2 & Hl2 & Hp2); [apply moments_steps; [done|lia]|].
  destruct (steps_inv casName Keccak256 EncodeBare keccak_len _ (s 3%nat) _ _ _ _ HI2) as (cs3 & L3 & p3 & HI3 & Hl3 & Hp3); [apply moments_steps; [done|lia]|].
  pose proof (later_trans _ _ _ Hl1 Hl2) as Hl02. pose proof (later_trans _ _ _ Hl02 Hl3) as Hl03.
  pose proof HI as (_ & _ & _ & _ & HL & Hf & _).
  destruct L as [|c l _] using rev_ind; [done|]. rewrite length_app in HL. cbn in HL. assert (Hlen : length l = dmem (s 0%nat)) by lia.
  rewrite app_assoc in Hat. destruct (store_last (base ++ l) c) as [En _]. rewrite En in Hat.
  assert (Hc : (l ++ [c]) !! dmem (s 0%nat) = Some c) by (by rewrite lookup_app_r, Hlen, Nat.sub_diag by lia).
  unfold latest, descend, mems.
  destruct (Inv_obj _ _ _ _ _ (dmem (s 0%nat)) HI1) as (m1 & c1 & -> & Hc1 & Hany1 & _); [destruct Hl1 as [Hle _]; rewrite length_app in Hle; cbn in Hle; lia|].
  cbn [rbind]. rewrite (any_latest m1 c1 p at_ Hany1).
  destruct (proj2 Hl1 _ _ Hc) as (c1' & Hc1' & Hg1 & _). rewrite Hc1 in Hc1'. injection Hc1' as <-.
  rewrite (grew_latest p at_ c c1 Hg1 Hat). rewrite app_assoc, hist_at_snoc, last_write_app.
  destruct (last_write (hist (cState c) p) at_) as [[v tx]|] eqn:Ea; [done|]. cbn [fmap option_fmap option_map].
  (* the windows from the first unpublished one on have nothing for the key *)
  assert (Hruns : Forall (silent p at_) (drop p0 l) -> latest_runs SecState p at_ (reverse (snapshot (s 3%nat))) = Ok (fst <$> last_write (hist_at (base ++ l) p) at_)).
  { intros Hsil. pose proof HI3 as (Hr3 & _ & _ & _ & _ & _ & (_ & Hh3 & _) & Ht3 & _). unfold snapshot.
    assert (Hb63 : aNextTx (store_of (base ++ l ++ [c])) < 2 ^ 63).
    { rewrite app_assoc, En. pose proof (Inv_content_ok _ _ _ _ _ HI) as Hok. apply Forall_app in Hok as [_ Hok].
      apply Forall_app in Hok as [_ Hok]. apply Forall_inv in Hok as (_ & ? & _). done. }
    rewrite app_assoc, En in Hb63. rewrite (latest_runs_ok _ _ p at_ Hr3) by (done || (unfold u64_ok; lia)).
    rewrite Hh3. do 2 f_equal.
    assert (Hsplit : take p3 L3 = take p0 l ++ take (p3 - p0) (drop p0 L3)).
    { rewrite <- (take_drop p0 (take p3 L3)), take_take, Nat.min_l by lia. f_equal; [|by rewrite skipn_firstn_comm].
      rewrite (later_prefix _ _ _ Hl03) by (rewrite length_app; cbn; lia). by rewrite take_app_le by lia. }
    rewrite Hsplit, app_assoc. rewrite hist_at_silent.
    - by rewrite <- (hist_at_silent p at_ (base ++ take p0 l) (drop p0 l) Hsil), <- app_assoc, take_drop.
    - apply Forall_take. rewrite <- (take_drop (length (l ++ [c])) L3) , drop_app, Forall_app. split; [|apply Forall_drop].
      2: { eapply (later_silent base (l ++ [c]) L3 p at_ l c); [done|done|done|by eapply Inv_content_ok|done]. }
      apply Forall_forall. intros x Hx. apply list_elem_of_lookup in Hx as [i Hi]. rewrite lookup_drop in Hi.
      apply lookup_take_Some in Hi as [Hi Hlt]. destruct (lookup_lt_is_Some_2 (l ++ [c]) _ Hlt) as [y Hy].
      destruct (proj2 Hl03 _ _ Hy) as (y' & Hy' & Hg & Heq). rewrite Hi in Hy'. injection Hy' as <-.
      destruct (decide (S (p0 + i) < length (l ++ [c]))%nat) as [Hin|Hin].
      + rewrite (Heq Hin). rewrite Forall_forall in Hsil. apply Hsil. rewrite length_app in Hin. cbn in Hin.
        rewrite lookup_app_l in Hy by lia. apply list_elem_of_lookup. exists i. by rewrite lookup_drop.
      + assert (y = c) as ->.
        { rewrite length_app in Hin, Hlt. cbn in Hin, Hlt. rewrite lookup_app_r in Hy by lia.
          replace (p0 + i - length l)%nat with 0%nat in Hy by lia. by injection Hy. }
        unfold silent. by rewrite (grew_latest p at_ c x Hg Hat). }
  destruct (dfrozen (s 0%nat)) as [a|] eqn:Efz.
  - destruct Hf as [[? _]|[[= ->] Hd]]; [done|].
    destruct (Inv_obj _ _ _ _ _ p0 HI2) as (m2 & c2 & -> & Hc2 & Hany2 & _); [destruct Hl02 as [Hle _]; rewrite length_app in Hle; cbn in Hle; lia|].
    cbn [rbind]. rewrite (any_latest m2 c2 p at_ Hany2). destruct l as [|cf l' _] using rev_ind; [cbn in Hlen; lia|].
    rewrite length_app in Hlen. cbn in Hlen. assert (Hcf : ((l' ++ [cf]) ++ [c]) !! p0 = Some cf).
    { rewrite lookup_app_l by (rewrite length_app; cbn; lia). rewrite lookup_app_r by lia. by replace (p0 - length l')%nat with 0%nat by lia. }
    destruct (proj2 Hl02 _ _ Hcf) as (c2' & Hc2' & _ & E2). rewrite Hc2 in Hc2'. injection Hc2' as <-.
    rewrite E2 by (rewrite !length_app; cbn; lia). rewrite app_assoc, hist_at_snoc, last_write_app.
    destruct (last_write (hist (cState cf) p) at_) as [[v tx]|] eqn:Ef; [done|]. cbn [fmap option_fmap option_map].
    rewrite Hruns.
    + by rewrite app_assoc, hist_at_snoc, last_write_app, Ef.
    + rewrite drop_snoc, drop_ge by lia. by constructor.
  - cbn [rbind]. apply Hruns. destruct Hf as [[_ ->]|[? _]]; [|done]. rewrite drop_ge by lia. constructor.
Qed.

(** ** Hash rows and codes *)

Lemma descend_fmap {A B} (g : A -> B) s get run :
  descend s (fun m => let* v := get m in Ok (g <$> v)) (fun rs => let* v := run rs in Ok (g <$> v)) =
  let* v := descend s get run in Ok (g <$> v).
Proof.
  unfold descend, mems. destruct (obj (s 1%nat) (dmem (s 0%nat))) as [m| |]; cbn [rbind]; try done.
  destruct (get m) as [[v|]| |]; cbn [rbind]; try done. cbn [fmap option_fmap option_map].
  destruct (dfrozen (s 0%nat)) as [a|]; cbn [rbind]; [|done].
  destruct (obj (s 2%nat) a) as [m2| |]; cbn [rbind]; try done. by destruct (get m2) as [[v|]| |].
Qed.

(** A key some content binds is found, whichever binding answers. *)
Lemma descend_present {A} (f : content -> option A) get run s base cs L p x :
  (forall m c, obj_any m c -> get m = Ok (f c)) ->
  (forall rs cs, Forall2 run_serves rs cs -> tiled cs -> run (reverse rs) = Ok (look f cs)) ->
  (forall a b, same_rows a b -> look f a = look f b) ->
  (forall c c', grew c c' -> is_Some (f c) -> is_Some (f c')) ->
  Inv (s 0%nat) base cs L p -> seen s -> x ∈ base ++ L -> is_Some (f x) -> exists v, descend s get run = Ok (Some v).
Proof.
  intros Hget Hrun Hsame Hg HI Hm Hx [v0 Hv0].
  assert (Hlook : forall l, look (fun c => const tt <$> f c) l = const tt <$> look f l).
  { induction l as [|c l IH]; [done|]. cbn [look]. rewrite IH. by destruct (look f l). }
  pose proof (descend_finds casName Keccak256 EncodeBare keccak_len (fun c => const tt <$> f c)
    (fun m => let* v := get m in Ok (const tt <$> v)) (fun rs => let* v := run rs in Ok (const tt <$> v))) as G.
  assert (E : descend s (fun m => let* v := get m in Ok (const tt <$> v)) (fun rs => let* v := run rs in Ok (const tt <$> v)) = Ok (Some tt)).
  { apply G with base cs L p; try done.
    - intros m c Ho. by rewrite (Hget m c) by (by left).
    - intros m c Ho Hc. left. by rewrite (Hget m c) by (by right).
    - intros rs cs0 Hr Ht. by rewrite (Hrun rs cs0 Hr Ht), Hlook.
    - intros a b Hab. by rewrite !Hlook, (Hsame a b Hab).
    - intros c c' Hcc Hc. destruct (Hg c c' Hcc) as [w ->]; [|by exists tt]. destruct (f c); [eauto|done].
    - intros i cs' L' p' _ _. split.
      + apply Forall_forall. intros c _. destruct (f c); [by right|by left].
      + rewrite Hlook. destruct (look f cs'); [by right|by left].
    - exists x. by rewrite Hv0. }
  rewrite descend_fmap in E. destruct (descend s get run) as [[v|]| |]; try done. by exists v.
Qed.

Lemma num_found s base cs L p k n :
  Inv (s 0%nat) base cs L p -> seen s -> num_key k -> look (num_of k) (base ++ L) = Some n -> exists n', lookupNum s k = Ok (Some n').
Proof.
  intros HI Hm Hk Hl. apply look_Some_In in Hl as (x & Hx & Hv). unfold lookupNum.
  apply (descend_present (num_of k)) with base cs L p x; try done.
  - intros m c Hc. destruct (obj_any_ok m c Hc) as (_ & _ & _ & E & _). unfold Memtable.lookupNum. by rewrite E.
  - intros. by apply num_runs_ok.
  - intros a b (_ & _ & Hs & _). apply Hs.
  - intros c c' (_ & _ & _ & Hg & _). apply Hg.
Qed.

Lemma code_found s base cs L p h v :
  Inv (s 0%nat) base cs L p -> seen s -> look (code_of h) (base ++ L) = Some v -> exists v', Code_descent s h = Ok (Some v').
Proof.
  intros HI Hm Hl. apply look_Some_In in Hl as (x & Hx & Hv). unfold Code_descent.
  apply (descend_present (code_of h)) with base cs L p x; try done.
  - intros m c Hc. destruct (obj_any_ok m c Hc) as (_ & _ & E & _). unfold codeBlob. by rewrite E.
  - intros. by apply code_runs_ok.
  - intros a b (_ & _ & _ & Hs). apply Hs.
  - intros c c' (_ & _ & Hg & _) [w Hw]. exists w. by eapply lookup_weaken.
Qed.

(** A chain row read beside other steps is one the database has at the end. *)
Lemma chain_sound s base cs L p fam n :
  Inv (s 0%nat) base cs L p -> seen s -> (fam < 6)%nat -> u64_ok n ->
  exists r cs3 L3 p3, chainRow s fam n (famByHeight fam) = Ok r /\ Inv (s 3%nat) base cs3 L3 p3 /\ later L L3 /\
    forall v, r = Some v -> look (chain_of (fam, n)) (base ++ L3) = Some v.
Proof.
  intros HI Hm Hf Hn. destruct (lookup_lt_is_Some_2 famPrefix fam) as [pfx Hp]; [done|]. unfold chainRow. rewrite Hp.
  destruct (descend_sound casName Keccak256 EncodeBare keccak_len (chain_of (fam, n)) (fun m => (chainGet m fam n).1)
    (fun rs => chain_runs pfx n (famByHeight fam) rs)) with s base cs L p as (r & cs3 & L3 & p3 & Er & HI3 & Hl & Hr); try done.
  - intros m c Ho. by rewrite (open_chainGet m c fam n Ho Hf).
  - intros m c _ Hc. right. unfold chainGet. by rewrite Hc.
  - intros rs cs0 Hr Ht. by apply chain_runs_ok.
  - intros a b (Hs & _). apply Hs.
  - exists r, cs3, L3, p3. split_and!; try done. intros v Hv. destruct (Hr v Hv) as (y & x & Hy & (Hg & _) & Hx).
    pose proof HI3 as (_ & _ & _ & _ & _ & _ & _ & Ht & _).
    apply (chain_unique _ x); [done|by eapply Inv_content_ok|done|]. by eapply lookup_weaken.
Qed.

Lemma chain_exact d base cs L p fam n :
  Inv d base cs L p -> (fam < 6)%nat -> u64_ok n ->
  chainRow (fun _ => d) fam n (famByHeight fam) = Ok (look (chain_of (fam, n)) (base ++ L)).
Proof.
  intros HI Hf Hn. destruct (lookup_lt_is_Some_2 famPrefix fam) as [pfx Hp]; [done|]. unfold chainRow. rewrite Hp.
  apply (descend_exact (chain_of (fam, n))) with cs p; try done.
  - intros m c Ho. by rewrite (open_chainGet m c fam n Ho Hf).
  - intros rs cs0 Hr Ht. by apply chain_runs_ok.
  - intros a b (Hs & _). apply Hs.
Qed.

(** ** The theorems *)

(** C2: what the database has it never loses sight of. A reader takes the window
    pointers, reads the active window, reads the frozen one and then the run
    list, with any number of writes, cuts, publishes, log removals and merge
    steps between those accesses. Every chain row the database had when the
    read began is returned, and what is returned is a row the database has when
    the read ends; the value of every account, code reference and slot at a
    TxNum assigned before the read began is the last write at or before it in
    the store the read began with; a hash or a code the store had is found. *)
Theorem point_reads_stable s X :
  shows (s 0%nat) X -> seen s ->
  (forall fam n, (fam < 6)%nat -> u64_ok n -> exists r Y, chainRow s fam n (famByHeight fam) = Ok r /\ shows (s 3%nat) Y /\
    (forall v, aChain X (fam, n) = Some v -> r = Some v) /\ (forall v, r = Some v -> aChain Y (fam, n) = Some v)) /\
  (forall p at_, state_prefix p -> 0 <= at_ < aNextTx X -> latest s SecState p at_ = Ok (fst <$> last_write (aHist X p) at_)) /\
  (forall k n, num_key k -> aNum X k = Some n -> exists n', lookupNum s k = Ok (Some n')) /\
  (forall h v, aCode X h = Some v -> exists v', Code_descent s h = Ok (Some v')).
Proof.
  intros (base & cs & L & p & HI & (E1 & E2 & E3 & E4 & E5 & E6)) Hm. split_and!.
  - intros fam n Hf Hn. destruct (chain_sound s base cs L p fam n HI Hm Hf Hn) as (r & cs3 & L3 & p3 & Er & HI3 & _ & Hr).
    exists r, (store_of (base ++ L3)). split_and!; try done; [by exists base, cs3, L3, p3|].
    intros v Hv. rewrite <- E1 in Hv. rewrite (chain_read s base cs L p fam n v HI Hm Hf Hn Hv) in Er. by injection Er.
  - intros q at_ Hq [Ha Hb]. rewrite <- E5 in Hb. rewrite <- E2. by apply (latest_read s base cs L p).
  - intros k n Hk Hn. rewrite <- E3 in Hn. by apply (num_found s base cs L p k n).
  - intros h v Hv. rewrite <- E4 in Hv. by apply (code_found s base cs L p h v).
Qed.

Lemma code_read_exact d X h : shows d X -> Code_descent (fun _ => d) h = Ok (aCode X h).
Proof.
  intros (base & cs & L & p & HI & (_ & _ & _ & E4 & _ & _)). rewrite <- E4. apply (descend_exact (code_of h)) with cs p; try done.
  - intros m c [(_ & _ & E & _) _]. unfold codeBlob. by rewrite E.
  - intros. by apply code_runs_ok.
  - intros a b (_ & _ & _ & Hs). apply Hs.
Qed.

(** C32: with no step beside it a read is exact, on every branch: the chain row,
    hash row and code are the store's, absent ones reported absent, and the
    value of a key at a TxNum below the next one is the last write at or before it. *)
Theorem point_reads_exact d X :
  shows d X ->
  (forall fam n, (fam < 6)%nat -> u64_ok n -> chainRow (fun _ => d) fam n (famByHeight fam) = Ok (aChain X (fam, n))) /\
  (forall k, num_key k -> lookupNum (fun _ => d) k = Ok (aNum X k)) /\
  (forall h, Code_descent (fun _ => d) h = Ok (aCode X h)) /\
  (forall p at_, state_prefix p -> 0 <= at_ < aNextTx X ->
    latest (fun _ => d) SecState p at_ = Ok (fst <$> last_write (aHist X p) at_)).
Proof.
  intros (base & cs & L & p & HI & (E1 & E2 & E3 & E4 & E5 & E6)). split_and!.
  - intros fam n Hf Hn. rewrite <- E1. by apply (chain_exact d base cs L p).
  - intros k Hk. rewrite <- E3. apply (descend_exact (num_of k)) with cs p; try done.
    + intros m c [(_ & _ & _ & E & _) _]. unfold Memtable.lookupNum. by rewrite E.
    + intros. by apply num_runs_ok.
    + intros a b (_ & _ & Hs & _). apply Hs.
  - intros h. apply code_read_exact. by exists base, cs, L, p.
  - intros q at_ Hq [Ha Hb]. rewrite <- E5 in Hb. rewrite <- E2. apply (latest_read (fun _ => d) base cs L p); try done.
    intros i. apply rtc_refl.
Qed.

(** ** Sealing and merging can be finished *)

(** The span a merge took is still where it was, whatever was appended since. *)
Lemma swap_accepts d base cs L p j refs inputs prev ref merged :
  Inv d base cs L p -> merging d = Some j -> jinputs j = Some (refs, inputs, prev) ->
  exists d', merge_swap d (jstart j) (jend j) refs ref merged = Ok d'.
Proof.
  intros (Hr & Href & _ & _ & _ & _ & _ & _ & _ & _ & _ & Hmg) Hj Hji. rewrite Hj, Hji in Hmg.
  destruct Hmg as (J1 & J2 & -> & _ & _). pose proof (Forall2_length _ _ _ Hr). pose proof (Forall2_length _ _ _ Href).
  unfold merge_swap. rewrite (proj2 (Nat.ltb_ge _ _)) by lia. unfold name_at.
  rewrite !bool_decide_eq_true_2; [cbn; eauto| |].
  - rewrite last_lookup, lookup_drop, length_drop, length_take. f_equal.
    rewrite lookup_take_lt by lia. f_equal. lia.
  - by rewrite lookup_drop, Nat.add_0_r, lookup_take_lt by lia.
Qed.

(** The span a merge holds and what its runs hold. *)
Lemma merge_span d base cs L p j refs inputs prev :
  Inv d base cs L p -> merging d = Some j -> jinputs j = Some (refs, inputs, prev) ->
  len prev = 32 /\ exists c sp, Forall2 run_serves inputs (c :: sp) /\ Forall2 ref_of refs (c :: sp) /\ tiled (c :: sp).
Proof.
  intros (Hr & Href & _ & _ & _ & _ & _ & _ & _ & Hlive & _ & Hmg) Hj Hji.
  rewrite Hj, Hji in Hmg. destruct Hmg as (J1 & J2 & -> & -> & Hp).
  pose proof (Forall2_length _ _ _ Hr). pose proof (Forall2_length _ _ _ Href).
  destruct (span_split cs (jstart j) (jend j) ltac:(lia)) as (c & sp & Esp & Ecs).
  destruct (Forall2_span _ _ _ (jstart j) (jend j) Hr) as (R1 & _). destruct (Forall2_span _ _ _ (jstart j) (jend j) Href) as (F1 & _).
  rewrite Esp in R1, F1. split; [done|]. exists c, sp. split_and!; [done..|].
  rewrite Ecs, <- !app_assoc in Hlive. apply tiled_app in Hlive as [_ Hlive]. by apply tiled_app in Hlive as [? _].
Qed.

(** C35: background work can always be finished. In every reachable state, a
    frozen window within the run format's limits seals to a run (no error of the
    sections, of the writer or of reopening) and publishing it is a step that
    unfreezes it; a merge that holds its inputs builds the merged run with some
    amount of fuel and the same one with any larger, passes its own
    verification, and its swap is accepted however many runs were published
    since it took its inputs, ending the merge. *)
Theorem background_finishes d X :
  shows d X ->
  (forall id m prev, dfrozen d = Some id -> heap d !! id = Some m -> sections_fit m -> len prev = 32 ->
    exists ref run, seal_run casName prev m = Ok (ref, run) /\ dbstep d EvPublish (publish d ref run) /\
      dfrozen (publish d ref run) = None) /\
  (forall j refs inputs prev, merging d = Some j -> jinputs j = Some (refs, inputs, prev) -> merge_fits inputs ->
    exists N ref merged d', (forall fuel, (N <= fuel)%nat -> merge_build casName fuel prev refs inputs = Ok (ref, merged)) /\
      merge_swap d (jstart j) (jend j) refs ref merged = Ok d' /\ dbstep d EvMerge (with_merging d' None) /\
      merging (with_merging d' None) = None).
Proof.
  intros (base & cs & L & p & HI & _). split.
  - intros id m prev Hf Hm Hfit Hp. pose proof HI as (_ & _ & _ & Hop & HL & Hfz & _ & Ht & _).
    destruct Hfz as [[? _]|[Hfp Hd]]; [congruence|]. rewrite Hf in Hfp. injection Hfp as ->.
    destruct (lookup_lt_is_Some_2 L p ltac:(lia)) as [c Hc]. pose proof (Hop p m c Hm Hc ltac:(lia)) as Ho.
    assert (Hne : nonempty c).
    { destruct (lookup_lt_is_Some_2 L (S p) ltac:(lia)) as [c' Hc']. rewrite <- (take_drop_middle L p c Hc), app_assoc in Ht.
      apply tiled_app in Ht as [_ Ht]. rewrite (drop_S L c' (S p) Hc') in Ht. by destruct Ht as [(? & _) _]. }
    destruct (seal_run_ok casName prev m c Ho Hne Hfit Hp) as (ref & run & E & _). exists ref, run. split_and!; try done.
    by eapply step_publish.
  - intros j refs inputs prev Hj Hji Hfit.
    destruct (merge_span d base cs L p j refs inputs prev HI Hj Hji) as (Hp & c & sp & R1 & F1 & Htsp).
    destruct (merge_build_ok casName prev refs inputs c sp R1 F1 Htsp Hfit Hp) as (N & ref & merged & HN & _).
    destruct (swap_accepts d base cs L p j refs inputs prev ref merged HI Hj Hji) as (d' & Ed). exists N, ref, merged, d'.
    split_and!; try done. eapply step_merge_swap; eauto.
Qed.

(** C6: a merged run is indistinguishable from its inputs. The run a merge
    builds (one entry at terminal level) gives, to every point read, the answer
    the descent over the input runs gives: every chain row, hash row, code
    and value of a key at a TxNum, present or absent. *)
Theorem merged_run_equivalent d X j refs inputs prev :
  shows d X -> merging d = Some j -> jinputs j = Some (refs, inputs, prev) -> merge_fits inputs ->
  exists N ref merged, (forall fuel, (N <= fuel)%nat -> merge_build casName fuel prev refs inputs = Ok (ref, merged)) /\
    Terminal ref = true /\
    (forall fam pfx n, famPrefix !! fam = Some pfx -> u64_ok n ->
      chain_runs pfx n (famByHeight fam) [merged] = chain_runs pfx n (famByHeight fam) (reverse inputs)) /\
    (forall k, num_key k -> num_runs k [merged] = num_runs k (reverse inputs)) /\
    (forall h, code_runs (CodeKey h) [merged] = code_runs (CodeKey h) (reverse inputs)) /\
    (forall p at_, state_prefix p -> 0 <= at_ -> u64_ok (at_ + 1) ->
      latest_runs SecState p at_ [merged] = latest_runs SecState p at_ (reverse inputs)).
Proof.
  intros (base & cs & L & q & HI & _) Hj Hji Hfit.
  destruct (merge_span d base cs L q j refs inputs prev HI Hj Hji) as (Hp & c & sp & R1 & F1 & Ht).
  destruct (merge_build_ok casName prev refs inputs c sp R1 F1 Ht Hfit Hp) as (N & ref & merged & HN & Hs & _ & Hlv).
  assert (Hm : Forall2 run_serves [merged] [combine_all c sp]) by (by constructor).
  exists N, ref, merged. split_and!; try done.
  - unfold Terminal. by rewrite Hlv.
  - intros fam pfx n Hf Hn. rewrite (chain_runs_ok _ _ fam pfx n R1) by done.
    rewrite <- (reverse_singleton merged), (chain_runs_ok _ _ fam pfx n Hm) by done. cbn [look]. f_equal. apply chain_combine.
  - intros k Hk. rewrite (num_runs_ok _ _ k R1 Hk), <- (reverse_singleton merged), (num_runs_ok _ _ k Hm Hk). cbn [look]. f_equal. apply num_combine.
  - intros h. rewrite (code_runs_ok _ _ h R1), <- (reverse_singleton merged), (code_runs_ok _ _ h Hm). cbn [look]. f_equal. apply code_combine.
  - intros p at_ Hpp H1 H2. rewrite (latest_runs_ok _ _ p at_ R1), <- (reverse_singleton merged), (latest_runs_ok _ _ p at_ Hm) by done.
    do 3 f_equal. unfold hist_at at 1. cbn. by rewrite app_nil_r, hist_combine_all.
Qed.

End Promise.
(** ** A trace

    Two sample blocks, each sealed into a run of its own, and a merge of the two
    begun, over the tables of Sst.v. *)

Definition s_root : bytes := replicate 32 9.
Definition s_name (_ : bytes) : bytes := hexName (replicate 32 3).
Definition or_else {A} (d : A) (r : res A) : A := match r with Ok x => x | _ => d end.

Definition s_write (d : DB) (b : BlockWrite) : DB :=
  match heap d !! dmem d with
  | Some m => match add sample_keccak sample_bare m b with Ok m' => with_heap d (<[dmem d := m']> (heap d)) | _ => d end
  | None => d
  end.
Definition s_publish (d : DB) : DB :=
  match dfrozen d with
  | None => d
  | Some id => match heap d !! id with
               | None => d
               | Some m => match seal_run s_name s_root m with Ok (ref, run) => publish d ref run | _ => d end
               end
  end.
Definition s_read (d : DB) : DB :=
  match merging d with
  | None => d
  | Some j => match merge_inputs d (jstart j) (jend j) with
              | Ok inp => with_merging d (Some (MkJob (jstart j) (jend j) (Some inp)))
              | _ => d
              end
  end.

Definition blk (i : nat) : BlockWrite := default (MkBlockWrite 0 [] [] [] [] []) (sample_blocks !! i).
Definition t0 : DB := empty_db s_root FlushTxs FlushBlocks 4.
Definition t1 : DB := s_write t0 (blk 0).
Definition t2 : DB := or_else t1 (cutWindow t1).
Definition t3 : DB := s_publish t2.
Definition t4 : DB := s_write t3 (blk 1).
Definition t5 : DB := or_else t4 (cutWindow t4).
Definition t6 : DB := s_publish t5.
Definition t7 : DB := MaybeMerge t6.
Definition t8 : DB := s_read t7.

Abbreviation s_step := (step s_name sample_keccak sample_bare).

Definition is_ok {A} (r : res A) : bool := match r with Ok _ => true | _ => false end.

(** Checks that make a write, a publish and a read of the inputs steps. *)
Definition write_check (d : DB) (b : BlockWrite) : bool :=
  match heap d !! dmem d with
  | Some m => is_ok (add sample_keccak sample_bare m b) && (0 <=? nextTx (win m)) && (nextTx (win m) <? 1000)
  | None => false
  end.
Definition publish_check (d : DB) : bool :=
  match dfrozen d with
  | Some id => match heap d !! id with Some m => fit_check m && is_ok (seal_run s_name s_root m) | None => false end
  | None => false
  end.
Definition read_check (d : DB) : bool :=
  match merging d with
  | Some j => match jinputs j with None => is_ok (merge_inputs d (jstart j) (jend j)) | Some _ => false end
  | None => false
  end.

Lemma write_step d i : (i < 2)%nat -> write_check d (blk i) = true -> s_step d (EvWrite (blk i)) (s_write d (blk i)).
Proof.
  intros Hi Hc. unfold write_check in Hc. unfold s_write. destruct (heap d !! dmem d) as [m|] eqn:Hm; [|done].
  destruct (add _ _ m (blk i)) as [m'| |] eqn:E; try done. cbn [is_ok] in Hc.
  apply (step_write _ _ _ d (blk i) m m' Hm); [|done]. bool_prop.
  assert (Hb : blk i ∈ sample_blocks).
  { unfold blk. destruct (lookup_lt_is_Some_2 sample_blocks i Hi) as [b Hb]. rewrite Hb. by eapply list_elem_of_lookup_2. }
  pose proof sample_valid as Hv. pose proof sample_small as Hs. rewrite Forall_forall in Hv. rewrite Forall_forall in Hs.
  assert (len (Txs (blk i)) < 10) by (destruct i as [|[|i]]; [vm_compute; reflexivity..|lia]).
  split_and!; [by apply Hv|by apply Hs| | | |lia|lia].
  - destruct i as [|[|i]]; [by eexists|by eexists|lia].
  - destruct i as [|[|i]]; [vm_compute; congruence..|lia].
  - destruct i as [|[|i]]; [vm_compute; reflexivity..|lia].
Qed.

Lemma publish_step d : publish_check d = true -> s_step d EvPublish (s_publish d).
Proof.
  unfold publish_check, s_publish. intros Hc. destruct (dfrozen d) as [id|] eqn:Hf; [|done].
  destruct (heap d !! id) as [m|] eqn:Hm; [|done]. apply andb_prop in Hc as [Hc Hs].
  destruct (seal_run s_name s_root m) as [[ref run]| |] eqn:E; try done.
  apply (step_publish _ _ _ d id m s_root ref run); try done. by apply fit_check_ok.
Qed.

Lemma read_step d : read_check d = true -> s_step d EvMerge (s_read d).
Proof.
  unfold read_check, s_read. intros Hc. destruct (merging d) as [j|] eqn:Hj; [|done]. destruct (jinputs j) eqn:Hi; [done|].
  destruct (merge_inputs d (jstart j) (jend j)) as [inp| |] eqn:Ei; try done. by apply (step_merge_read _ _ _ d j inp).
Qed.

Lemma cut_step d : dfrozen d = None -> match cutWindow d with Ok _ => true | _ => false end = true -> s_step d EvCut (or_else d (cutWindow d)).
Proof. intros Hf E. destruct (cutWindow d) as [d'| |] eqn:Ed; try done. by apply step_cut. Qed.

Lemma step1 : s_step t0 (EvWrite (blk 0)) t1.
Proof. refine (write_step t0 0 Nat.lt_0_2 _). vm_compute. reflexivity. Qed.
Lemma step2 : s_step t1 EvCut t2.
Proof. refine (cut_step t1 _ _); vm_compute; reflexivity. Qed.
Lemma step3 : s_step t2 EvPublish t3.
Proof. refine (publish_step t2 _). vm_compute. reflexivity. Qed.
Lemma step4 : s_step t3 (EvWrite (blk 1)) t4.
Proof. refine (write_step t3 1 Nat.lt_1_2 _). vm_compute. reflexivity. Qed.
Lemma step5 : s_step t4 EvCut t5.
Proof. refine (cut_step t4 _ _); vm_compute; reflexivity. Qed.
Lemma step6 : s_step t5 EvPublish t6.
Proof. refine (publish_step t5 _). vm_compute. reflexivity. Qed.
Lemma step7 : s_step t6 EvMerge t7.
Proof. exact (step_merge_start _ _ _ t6). Qed.
Lemma step8 : s_step t7 EvMerge t8.
Proof. refine (read_step t7 _). vm_compute. reflexivity. Qed.

Lemma sample_shows : exists X1 X2 X6 X8, shows t1 X1 /\ block_added sample_keccak sample_bare (blk 0) empty_store X1 /\
  shows t2 X2 /\ shows t6 X6 /\ shows t8 X8.
Proof.
  assert (G : forall d X e d', shows d X -> s_step d e d' -> exists Y, shows d' Y /\ astep sample_keccak sample_bare e X Y).
  { intros d X e d'. apply (shows_step s_name sample_keccak sample_bare sample_keccak_len). }
  destruct (G _ _ _ _ (empty_shows s_root FlushTxs FlushBlocks 4 eq_refl) step1) as (X1 & H1 & A1).
  destruct (G _ _ _ _ H1 step2) as (X2 & H2 & _). destruct (G _ _ _ _ H2 step3) as (X3 & H3 & _).
  destruct (G _ _ _ _ H3 step4) as (X4 & H4 & _). destruct (G _ _ _ _ H4 step5) as (X5 & H5 & _).
  destruct (G _ _ _ _ H5 step6) as (X6 & H6 & _). destruct (G _ _ _ _ H6 step7) as (X7 & H7 & _).
  destruct (G _ _ _ _ H7 step8) as (X8 & H8 & _). exists X1, X2, X6, X8. by split_and!.
Qed.

Lemma db_refines_witness : exists Y, shows t1 Y /\ astep sample_keccak sample_bare (EvWrite (blk 0)) empty_store Y.
Proof.
  apply (db_refines s_name sample_keccak sample_bare sample_keccak_len t0 empty_store (EvWrite (blk 0)) t1 s_root FlushTxs FlushBlocks 4).
  - by apply empty_shows.
  - exact step1.
  - reflexivity.
Defined.

(** A reader that starts before the window is cut and ends after it was published. *)
Definition s_seen (i : nat) : DB := match i with 0%nat => t1 | 1%nat => t2 | _ => t3 end.

Lemma s_moments : moments s_name sample_keccak sample_bare s_seen.
Proof.
  intros [|[|i]]; cbn [s_seen].
  - apply rtc_once. exists EvCut. exact step2.
  - apply rtc_once. exists EvPublish. exact step3.
  - apply rtc_refl.
Qed.

Lemma point_reads_stable_witness : exists r Y, chainRow s_seen famHdr 1 (famByHeight famHdr) = Ok r /\ shows (s_seen 3%nat) Y /\ r = Some [1; 2; 3].
Proof.
  destruct sample_shows as (X1 & _ & _ & _ & H1 & (A1 & _) & _).
  destruct (proj1 (point_reads_stable s_name sample_keccak sample_bare sample_keccak_len s_seen X1 H1 s_moments) famHdr 1)
    as (r & Y & E & HY & Hr & _); [unfold famHdr; lia|unfold u64_ok; lia|].
  exists r, Y. split; [exact E|]. split; [exact HY|]. apply Hr. rewrite A1. vm_compute. reflexivity.
Defined.

Lemma point_reads_exact_witness : exists X, shows t6 X /\ lookupNum (fun _ => t6) (TxHashKey (replicate 32 7)) = Ok (aNum X (TxHashKey (replicate 32 7))).
Proof.
  destruct sample_shows as (_ & _ & X6 & _ & _ & _ & _ & H6 & _). exists X6. split; [exact H6|].
  apply (point_reads_exact s_name sample_keccak sample_bare sample_keccak_len t6 X6 H6).
  exists PrefixTxHash, (replicate 32 7). split; [left|]. by split.
Defined.

(** The merged tables of the list instance are no larger than the inputs'. *)
Lemma table_len_app a b : table_len (a ++ b) = table_len a + table_len b.
Proof. unfold table_len. rewrite map_app, concat_app. by lens. Qed.

Lemma table_len_sub a b : a ⊆+ b -> table_len a <= table_len b.
Proof.
  intros Hs. apply submseteq_Permutation in Hs as [k Hk].
  assert (E : table_len b = table_len (a ++ k)).
  { clear -Hk. induction Hk as [|x l l' _ IH|x y l|l1 l2 l3 _ IH1 _ IH2]; [done| | |congruence].
    - change (table_len ([x] ++ l) = table_len ([x] ++ l')). rewrite !table_len_app. lia.
    - change (table_len ([y] ++ [x] ++ l) = table_len ([x] ++ [y] ++ l)). rewrite !table_len_app. lia. }
  rewrite E, table_len_app. pose proof (len_nonneg (concat (map List_sst.enc k))). unfold table_len at 3. lia.
Qed.

Definition inputs_len (inputs : list Run) (s : Section) : Z := table_len (concat (map (fun r => rd r s) inputs)).

Lemma list_merge_fits inputs :
  (inputs_len inputs SecChain + inputs_len inputs SecState + inputs_len inputs SecLookup <? 2 ^ 64) = true -> merge_fits inputs.
Proof.
  intros Hb Rs M Hh HM. apply Z.ltb_lt in Hb.
  assert (E : forall s, section_rows Rs s = map (fun r => rd r s) inputs).
  { intros s. clear -Hh. induction Hh as [|r R rs Rs Hr _ IH]; [done|]. cbn [section_rows map]. f_equal; [|exact IH].
    destruct (Hr s) as [Hs _]. symmetry. exact Hs. }
  assert (G : forall s, table_len (M s) <= inputs_len inputs s).
  { intros s. unfold inputs_len. rewrite <- E. by apply table_len_sub, rows_sub. }
  intros bc bs bl [= <-] [= <-] [= <-]. pose proof (G SecChain). pose proof (G SecState). pose proof (G SecLookup).
  unfold table_len in *. lens. lia.
Qed.

Definition at_frozen (d : DB) : memtable := match dfrozen d with Some a => or_else (fresh 0 0) (obj d a) | None => fresh 0 0 end.
Definition s_inputs (d : DB) : list RunRef * list Run * bytes :=
  match merging d with Some j => default ([], [], []) (jinputs j) | None => ([], [], []) end.
Definition s_job (d : DB) : merge_job := default (MkJob 0 0 None) (merging d).

Lemma triple_eta {A B C} (x : A * B * C) : Some x = Some (x.1.1, x.1.2, x.2).
Proof. by destruct x as [[? ?] ?]. Qed.

Lemma t8_job : merging t8 = Some (s_job t8) /\ jinputs (s_job t8) = Some (s_inputs t8).
Proof.
  assert (G : forall d, match merging d with Some j => match jinputs j with Some _ => true | None => false end | None => false end = true ->
    merging d = Some (s_job d) /\ jinputs (s_job d) = Some (s_inputs d)).
  { intros d Hd. unfold s_job, s_inputs. destruct (merging d) as [j|]; [|done]. cbn. by destruct (jinputs j). }
  apply G. vm_compute. reflexivity.
Qed.

Lemma background_finishes_witness :
  (exists ref run, seal_run s_name s_root (at_frozen t2) = Ok (ref, run) /\ s_step t2 EvPublish (publish t2 ref run) /\
    dfrozen (publish t2 ref run) = None) /\
  (exists N ref merged d', (forall fuel, (N <= fuel)%nat ->
      merge_build s_name fuel (s_inputs t8).2 (s_inputs t8).1.1 (s_inputs t8).1.2 = Ok (ref, merged)) /\
    merge_swap t8 (jstart (s_job t8)) (jend (s_job t8)) (s_inputs t8).1.1 ref merged = Ok d' /\
    s_step t8 EvMerge (with_merging d' None) /\ merging (with_merging d' None) = None).
Proof.
  destruct sample_shows as (_ & X2 & _ & X8 & _ & _ & H2 & _ & H8). split.
  - apply (proj1 (background_finishes s_name sample_keccak sample_bare t2 X2 H2) 0%nat (at_frozen t2) s_root).
    + vm_compute. reflexivity.
    + assert (G : forall d a, dfrozen d = Some a -> is_ok (obj d a) = true -> heap d !! a = Some (at_frozen d)).
      { intros d a Hf Hd. unfold at_frozen. rewrite Hf. unfold obj in *. by destruct (heap d !! a). }
      apply G; vm_compute; reflexivity.
    + apply fit_check_ok. vm_compute. reflexivity.
    + reflexivity.
  - destruct t8_job as [J1 J2].
    apply (proj2 (background_finishes s_name sample_keccak sample_bare t8 X8 H8) (s_job t8) (s_inputs t8).1.1 (s_inputs t8).1.2 (s_inputs t8).2).
    + exact J1.
    + rewrite J2. apply triple_eta.
    + apply list_merge_fits. vm_compute. reflexivity.
Defined.

Lemma merged_run_equivalent_witness :
  exists N ref merged, (forall fuel, (N <= fuel)%nat ->
      merge_build s_name fuel (s_inputs t8).2 (s_inputs t8).1.1 (s_inputs t8).1.2 = Ok (ref, merged)) /\ Terminal ref = true.
Proof.
  destruct sample_shows as (_ & _ & _ & X8 & _ & _ & _ & _ & H8). destruct t8_job as [J1 J2].
  destruct (merged_run_equivalent s_name t8 X8 (s_job t8) (s_inputs t8).1.1 (s_inputs t8).1.2 (s_inputs t8).2 H8 J1) as (N & ref & merged & HN & Ht & _).
  - rewrite J2. apply triple_eta.
  - apply list_merge_fits. vm_compute. reflexivity.
  - exists N, ref, merged. by split.
Defined.

End DBReads.
