(* ===== verification/DBHeights.v ===== *)
(** * Numbers and heights of the database (store/db.go)

    The binary search from a TxNum to its block, which inverts the block rows,
    and the next TxNum and height, which are the abstract store's. *)

From S2P Require Import Prelude Bytes Rows Ef Format Sha256 Container Memtable MemRecover MemRead Sst RunFile Postings Seal Window Growth KMerge DB Contents Merge Refine DBReads.
Import Format.

Module DBHeights.
Import Memtable MemRecover MemRead RunFile Seal Window Growth KMerge DB Contents Merge Refine DBReads.

(** ** The search *)

Section Search.
Context (first : Z -> Z) (lo0 hi0 txnum : Z) (probe : nat -> Z -> res (option (Z * Z))).
Hypothesis probe_ok : forall k h, lo0 <= h <= hi0 -> exists n, probe k h = Ok (Some (first h, n)).
Hypothesis range_ok : 0 <= lo0 /\ hi0 < 2 ^ 63.

Lemma height_loop_ok k : forall lo hi,
  lo0 <= lo -> lo <= hi -> hi <= hi0 -> hi - lo < 2 ^ Z.of_nat k -> first lo <= txnum < first (hi + 1) ->
  exists h, height_loop (S k) probe txnum lo hi = Ok (Some h) /\ lo <= h <= hi /\ first h <= txnum < first (h + 1).
Proof.
  induction k as [|k IH]; intros lo hi H1 H2 H3 Hk Hf; cbn [height_loop].
  - change (2 ^ Z.of_nat 0) with 1 in Hk. assert (hi = lo) as -> by lia. rewrite Z.ltb_irrefl. exists lo. split_and!; lia || done.
  - destruct (Z.ltb_spec lo hi) as [Hlt|Hge]; [|exists lo; replace hi with lo in Hf by lia; split_and!; lia || done].
    rewrite Nat2Z.inj_succ, Z.pow_succ_r in Hk by lia.
    rewrite (u64_small (lo + hi)), (u64_small (lo + hi + 1)) by (unfold u64_ok; lia).
    set (mid := (lo + hi + 1) / 2).
    assert (Hm : 2 * mid <= lo + hi + 1 < 2 * mid + 2).
    { pose proof (Z.div_mod (lo + hi + 1) 2 ltac:(lia)). pose proof (Z.mod_pos_bound (lo + hi + 1) 2 ltac:(lia)). fold mid in H. lia. }
    destruct (probe_ok (S k) mid ltac:(lia)) as (n & ->). cbn [rbind]. destruct (Z.leb_spec (first mid) txnum) as [Hle|Hgt].
    + destruct (IH mid hi) as (h & E & Hh & Ht); try lia. exists h. split_and!; try done; lia.
    + rewrite u64_small by (unfold u64_ok; lia). destruct (IH lo (mid - 1)) as (h & E & Hh & Ht); try lia.
      { by replace (mid - 1 + 1) with mid by lia; lia. }
      exists h. split_and!; try done; lia.
Qed.

End Search.

(** ** The live stretches *)

Lemma tiled_owner l x z tx :
  tiled l -> Forall content_ok l -> x ∈ l -> z ∈ l -> cFromTx x <= tx < cToTx x -> cFromTx z <= tx < cToTx z -> x = z.
Proof.
  induction l as [|c l IH]; intros Ht Ho Hx Hz Tx Tz; [set_solver|].
  apply elem_of_cons in Hx as [->|Hx]; apply elem_of_cons in Hz as [->|Hz]; [done| | |].
  - destruct (tiled_after c l z Ht Ho Hz) as (_ & ? & _). lia.
  - destruct (tiled_after c l x Ht Ho Hx) as (_ & ? & _). lia.
  - apply IH; try done; [by destruct Ht|by apply Forall_cons in Ho as [_ ?]].
Qed.

(** The first TxNums of a stretch ascend. *)
Lemma first_step (first : Z -> Z) a b :
  (forall h, a <= h < b -> exists n, 0 <= n < 2 ^ 32 /\ first (h + 1) = first h + n + 1) ->
  forall x y, a <= x -> x <= y -> y <= b -> first x + (y - x) <= first y.
Proof.
  intros Hf x y Hx Hxy Hy.
  enough (G : forall k : nat, x + Z.of_nat k <= b -> first x + Z.of_nat k <= first (x + Z.of_nat k)).
  { specialize (G (Z.to_nat (y - x))). rewrite Z2Nat.id in G by lia. replace (x + (y - x)) with y in G by lia. apply G. lia. }
  induction k as [|k IH]; intros Hk; [rewrite !Z.add_0_r; lia|]. destruct (Hf (x + Z.of_nat k) ltac:(lia)) as (n & Hn & E).
  specialize (IH ltac:(lia)). replace (x + Z.of_nat (S k)) with (x + Z.of_nat k + 1) by lia. lia.
Qed.

Lemma first_mono z first :
  content_ok z -> first (cFromH z) = cFromTx z -> first (cToH z) = cToTx z ->
  (forall h, cFromH z <= h < cToH z -> exists n, 0 <= n < 2 ^ 32 /\ first (h + 1) = first h + n + 1 /\
    cChain z !! (famBlk, h) = Some (blk_row (first h) n)) ->
  forall h, cFromH z <= h < cToH z -> 0 <= first h < 2 ^ 63 /\ cFromTx z <= first h < cToTx z.
Proof.
  intros (Z1 & Z2 & _) F1 F2 F3 h Hh. pose proof (first_step first (cFromH z) (cToH z)) as G.
  assert (F : forall h, cFromH z <= h < cToH z -> exists n, 0 <= n < 2 ^ 32 /\ first (h + 1) = first h + n + 1).
  { intros k Hk. destruct (F3 k Hk) as (n & ? & ? & _). eauto. }
  pose proof (G F (cFromH z) h ltac:(lia) ltac:(lia) ltac:(lia)). pose proof (G F h (cToH z) ltac:(lia) ltac:(lia) ltac:(lia)). lia.
Qed.

(** Numbers come with heights. *)
Lemma blocky_heights c tx : content_ok c -> cFromTx c <= tx < cToTx c -> cFromH c < cToH c.
Proof.
  intros (_ & _ & Hh & _ & _ & _ & _ & (first & F1 & F2 & _)) Ht. destruct (decide (cFromH c = cToH c)) as [E|]; [|lia].
  rewrite E in F1. lia.
Qed.

Definition owns (tx : Z) (c : content) : bool := (cFromTx c <=? tx) && (tx <? cToTx c).
Definition span_of (c : content) : Z * Z := (cFromH c, cToH c - 1).

Lemma owns_spec tx c : owns tx c = true <-> cFromTx c <= tx < cToTx c.
Proof. unfold owns. rewrite andb_true_iff, Z.leb_le, Z.ltb_lt. done. Qed.

Lemma window_bounds m c tx :
  obj_ok m c -> win_bounds tx (if started (win m) then Some (win m) else None) = if owns tx c then Some (span_of c) else None.
Proof.
  intros (Hc & _ & _ & _ & ->). cbn [window_of started]. pose proof Hc as (_ & _ & ? & ? & _). destruct (owns tx c) eqn:E.
  - apply owns_spec in E as E'. rewrite (proj2 (Z.ltb_lt _ _) (blocky_heights c tx Hc E')). cbn [window_of win_bounds baseTx nextTx baseHeight nextHeight].
    unfold owns in E. rewrite E. unfold span_of. rewrite u64_small; [done|]. pose proof (blocky_heights c tx Hc E'). unfold u64_ok. lia.
  - destruct (cFromH c <? cToH c); [|done]. cbn [window_of win_bounds baseTx nextTx]. unfold owns in E. by rewrite E.
Qed.

Lemma refs_bounds refs cs tx :
  Forall2 ref_of refs cs -> ref_bounds tx refs = span_of <$> List.find (owns tx) cs.
Proof.
  induction 1 as [|r c refs cs (E1 & E2 & E3 & E4) _ IH]; [done|]. cbn [ref_bounds List.find]. unfold owns at 1. rewrite E1, E2.
  destruct ((cFromTx c <=? tx) && (tx <? cToTx c)); [|done]. cbn. unfold span_of. do 2 f_equal; lia.
Qed.

Section Numbers.
Context `{SSTLaws} (casName : bytes -> bytes) (Keccak256 : bytes -> bytes) (EncodeBare : bytes -> list bytes -> res bytes).
Hypothesis keccak_len : forall x, len (Keccak256 x) = 32.

(** The stretches the database answers from: the live runs, then the windows not
    published yet. *)
Lemma live_ok d base cs L p :
  Inv d base cs L p -> tiled (cs ++ drop p L) /\ Forall content_ok (cs ++ drop p L) /\
    forall k, look (chain_of k) (base ++ L) = look (chain_of k) (cs ++ drop p L).
Proof.
  intros HI. pose proof (Inv_content_ok _ _ _ _ _ HI) as Hok. destruct HI as (Hr & _ & _ & _ & _ & _ & (Hs & _) & _ & _ & Hl & _).
  split_and!; [done| |].
  - apply Forall_app. split; [by eapply serves_ok|]. apply Forall_app in Hok as [_ Hok]. by apply Forall_drop.
  - intros k. rewrite (look_app _ cs), Hs, <- look_app, <- app_assoc. by rewrite take_drop.
Qed.

(** Which stretch holds a TxNum: asked of the active window, the frozen one and
    then the manifest. *)
Lemma bounds_ok d base cs L p tx :
  Inv d base cs L p -> heightBounds (fun _ => d) tx = Ok (span_of <$> List.find (owns tx) (cs ++ drop p L)).
Proof.
  intros HI. destruct (live_ok _ _ _ _ _ HI) as (Ht & Hok & _). pose proof HI as (Hr & Href & _ & _ & HL & Hf & _).
  destruct (Inv_obj _ _ _ _ _ (dmem d) HI) as (m & c & Em & Hc & Hany & _); [lia|].
  unfold heightBounds, mems, started_window. rewrite Em. cbn [rbind]. rewrite (window_bounds m c tx) by (by apply obj_any_ok).
  assert (Hfind : forall x, x ∈ cs ++ drop p L -> owns tx x = true -> List.find (owns tx) (cs ++ drop p L) = Some x).
  { intros x Hx Ho. destruct (List.find (owns tx) (cs ++ drop p L)) as [y|] eqn:E.
    - apply List.find_some in E as [Hy Ey]. f_equal. apply (tiled_owner (cs ++ drop p L) y x tx); try done;
        [by apply list_elem_of_In|by apply owns_spec|by apply owns_spec].
    - by rewrite (List.find_none _ _ E x (proj1 (list_elem_of_In _ _) Hx)) in Ho. }
  assert (Hin : forall a y, (p <= a)%nat -> L !! a = Some y -> y ∈ cs ++ drop p L).
  { intros a y Ha Hy. apply elem_of_app. right. apply list_elem_of_lookup. exists (a - p)%nat. rewrite lookup_drop. by replace (p + (a - p))%nat with a by lia. }
  assert (Hdrop : forall a, owns tx a = false -> List.find (owns tx) [a] = None) by (intros a Ha; cbn; by rewrite Ha).
  assert (Hcat : forall l k, List.find (owns tx) (l ++ k) = match List.find (owns tx) l with Some x => Some x | None => List.find (owns tx) k end).
  { induction l as [|x l IH]; intros k; [done|]. cbn. destruct (owns tx x); [done|apply IH]. }
  destruct (owns tx c) eqn:Ec; [rewrite (Hfind c); [done|apply (Hin (dmem d)); [lia|done]|done]|].
  destruct Hf as [[-> Hd]|[Hfz Hd]]; cbn [rbind win_bounds].
  - rewrite (refs_bounds _ _ tx Href), Hcat. rewrite (drop_S L c p) by (by rewrite Hd). rewrite drop_ge, (Hdrop c Ec) by lia. by destruct (List.find (owns tx) cs).
  - rewrite Hfz. destruct (Inv_obj _ _ _ _ _ p HI) as (m2 & c2 & Em2 & Hc2 & Hany2 & _); [lia|]. rewrite Em2. cbn [rbind].
    rewrite (window_bounds m2 c2 tx) by (by apply obj_any_ok). destruct (owns tx c2) eqn:Ec2; [rewrite (Hfind c2); [done|apply (Hin p); [lia|done]|done]|].
    rewrite (refs_bounds _ _ tx Href), Hcat. rewrite (drop_S L c2 p Hc2), (drop_S L c (S p)) by (by rewrite <- Hd).
    rewrite drop_ge by lia. cbn [List.find]. rewrite Ec2, Ec. by destruct (List.find (owns tx) cs).
Qed.

Lemma blk_exact d base cs L p h :
  Inv d base cs L p -> u64_ok h -> chainRow (fun _ => d) famBlk h true = Ok (look (chain_of (famBlk, h)) (base ++ L)).
Proof. intros HI Hh. apply (chain_exact d base cs L p famBlk h HI); [unfold famBlk; lia|done]. Qed.

(** A block row read back. *)
Lemma range_row d base cs L p z first h n :
  Inv d base cs L p -> z ∈ cs ++ drop p L -> cChain z !! (famBlk, h) = Some (blk_row first n) ->
  u64_ok h -> u64_ok first -> 0 <= n < 2 ^ 32 -> BlockTxRange (fun _ => d) h = Ok (Some (first, n)).
Proof.
  intros HI Hz Hrow Hh Hf Hn. destruct (live_ok _ _ _ _ _ HI) as (Ht & Hok & Hl). unfold BlockTxRange.
  rewrite (blk_exact d base cs L p h HI Hh).
  rewrite Hl, (chain_unique _ z _ _ Ht Hok Hz Hrow). cbn [rbind]. unfold blk_row. lens.
  rewrite take_app_length', drop_app_length' by (by rewrite length_be). rewrite !be_val_be_small by (unfold u64_ok in *; simpl; lia).
  rewrite u64_small by done. unfold u32. by rewrite Z.mod_small by lia.
Qed.

(** The stretch that has a block row, and the row's place in it. *)
Lemma range_inv d base cs L p h f n :
  Inv d base cs L p -> u64_ok h -> BlockTxRange (fun _ => d) h = Ok (Some (f, n)) ->
  exists z first, z ∈ cs ++ drop p L /\ cFromH z <= h < cToH z /\
    (first (cFromH z) = cFromTx z /\ first (cToH z) = cToTx z /\
     forall h, cFromH z <= h < cToH z -> exists n, 0 <= n < 2 ^ 32 /\ first (h + 1) = first h + n + 1 /\
      cChain z !! (famBlk, h) = Some (blk_row (first h) n)) /\ f = first h /\ first (h + 1) = f + n + 1.
Proof.
  intros HI Hh E. destruct (live_ok _ _ _ _ _ HI) as (Ht & Hok & Hl).
  pose proof E as E0. unfold BlockTxRange in E. rewrite (blk_exact d base cs L p h HI Hh), Hl in E. cbn [rbind] in E.
  destruct (look (chain_of (famBlk, h)) (cs ++ drop p L)) as [v|] eqn:Ev; [|done]. apply look_Some_In in Ev as (z & Hz & Hv).
  pose proof Hok as Hok'. rewrite Forall_forall in Hok'. pose proof (Hok' z Hz) as Hzok.
  pose proof Hzok as (Z1 & Z2 & Z3 & Z4 & Hrow & _ & _ & (first & F1 & F2 & F3)). specialize (Hrow _ _ _ Hv). cbn in Hrow.
  exists z, first. destruct (F3 h Hrow) as (n' & Hn' & En & Er).
  assert (Hu : u64_ok (first h)) by (destruct (first_mono z first Hzok F1 F2 F3 h Hrow); unfold u64_ok; lia).
  rewrite (range_row d base cs L p z (first h) h n' HI Hz Er Hh Hu Hn') in E0. injection E0 as <- <-. split_and!; try done; lia.
Qed.

(** Inside one stretch the search finds the one block whose numbers include it. *)
Lemma search_stretch d base cs L p z tx :
  Inv d base cs L p -> z ∈ cs ++ drop p L -> cFromTx z <= tx < cToTx z ->
  exists h f n, height_loop 65 (fun left => BlockTxRange (fun i => d)) tx (cFromH z) (cToH z - 1) = Ok (Some h) /\
    u64_ok h /\ BlockTxRange (fun _ => d) h = Ok (Some (f, n)) /\ f <= tx <= f + n.
Proof.
  intros HI Hz Htx. destruct (live_ok _ _ _ _ _ HI) as (Ht & Hok & _). rewrite Forall_forall in Hok. pose proof (Hok z Hz) as Hzok.
  pose proof (blocky_heights z tx Hzok Htx) as Hlt. pose proof Hzok as (Z1 & Z2 & Z3 & Z4 & _ & _ & _ & (first & F1 & F2 & F3)).
  assert (Hread : forall h, cFromH z <= h <= cToH z - 1 -> exists n, BlockTxRange (fun _ => d) h = Ok (Some (first h, n)) /\ first (h + 1) = first h + n + 1).
  { intros h Hh. destruct (F3 h ltac:(lia)) as (n & Hn & En & Er). exists n. split; [|done].
    destruct (first_mono z first Hzok F1 F2 F3 h ltac:(lia)). apply (range_row d base cs L p z); try done; unfold u64_ok; lia. }
  destruct (height_loop_ok first (cFromH z) (cToH z - 1) tx (fun _ => BlockTxRange (fun _ => d))) with (k := 64%nat) (lo := cFromH z) (hi := cToH z - 1)
    as (h & E & Hh & Hf); try lia.
  - intros _ h Hh. destruct (Hread h Hh) as (n & E & _). eauto.
  - replace (cToH z - 1 + 1) with (cToH z) by lia. lia.
  - destruct (Hread h Hh) as (n & Er & En). exists h, (first h), n. split_and!; try done; try (unfold u64_ok; lia); lia.
Qed.

(** Two block rows that include the same TxNum are one. *)
Lemma range_unique d base cs L p tx h f n h' f' n' :
  Inv d base cs L p -> u64_ok h -> u64_ok h' -> BlockTxRange (fun _ => d) h = Ok (Some (f, n)) -> f <= tx <= f + n ->
  BlockTxRange (fun _ => d) h' = Ok (Some (f', n')) -> f' <= tx <= f' + n' -> h = h'.
Proof.
  intros HI Hh Hh' E Ht E' Ht'. destruct (live_ok _ _ _ _ _ HI) as (Htile & Hok & _).
  destruct (range_inv d base cs L p h f n HI Hh E) as (z & first & Hz & Hr & (F1 & F2 & F3) & -> & En).
  destruct (range_inv d base cs L p h' f' n' HI Hh' E') as (z' & first' & Hz' & Hr' & (F1' & F2' & F3') & -> & En').
  pose proof Hok as Ho. rewrite Forall_forall in Ho. pose proof (Ho z Hz) as Hzok. pose proof (Ho z' Hz') as Hzok'.
  assert (G : forall y fy, (forall k, cFromH y <= k < cToH y -> exists n, 0 <= n < 2 ^ 32 /\ fy (k + 1) = fy k + n + 1 /\
      cChain y !! (famBlk, k) = Some (blk_row (fy k) n)) ->
    forall a b, cFromH y <= a -> a <= b -> b <= cToH y -> fy a + (b - a) <= fy b).
  { intros y fy Hy. apply first_step. intros k Hk. destruct (Hy k Hk) as (m & ? & ? & _). eauto. }
  pose proof (G z first F3) as Gz. pose proof (G z' first' F3') as Gz'.
  assert (z = z') as <-.
  { apply (tiled_owner (cs ++ drop p L) z z' tx); try done.
    - pose proof (Gz (cFromH z) h). pose proof (Gz (h + 1) (cToH z)). lia.
    - pose proof (Gz' (cFromH z') h'). pose proof (Gz' (h' + 1) (cToH z')). lia. }
  destruct (Z.lt_trichotomy h h') as [Hlt|[?|Hlt]]; [|done|]; exfalso.
  - assert (first h' = first' h') as Efh.
    { destruct (F3 h' ltac:(lia)) as (n1 & Hn1 & E1 & R1). pose proof (range_row d base cs L p z (first h') h' n1 HI Hz R1 Hh') as Q.
      destruct (first_mono z first Hzok F1 F2 F3 h' ltac:(lia)). rewrite Q in E' by (done || (unfold u64_ok; lia)). by injection E'. }
    pose proof (Gz (h + 1) h'). lia.
  - assert (first' h = first h) as Efh.
    { destruct (F3' h ltac:(lia)) as (n1 & Hn1 & E1 & R1). pose proof (range_row d base cs L p z (first' h) h n1 HI Hz R1 Hh) as Q.
      destruct (first_mono z first' Hzok F1' F2' F3' h ltac:(lia)). rewrite Q in E by (done || (unfold u64_ok; lia)). by injection E. }
    pose proof (Gz' (h' + 1) h). lia.
Qed.

(** The block row of [h] says that a TxNum is one of its own: one of its
    transactions or its closing slot. *)
Definition in_block (d : DB) (tx h : Z) : Prop :=
  exists f n, BlockTxRange (fun _ => d) h = Ok (Some (f, n)) /\ f <= tx <= f + n.

(** C34: HeightOfTx inverts BlockTxRange. On a database at rest the search ends
    within its fuel without an error, and it names height [h] exactly when the
    block row of [h] says that the TxNum is one of that block's: one of its
    transactions or its closing slot. No block holds a TxNum it reports absent,
    and no two blocks hold the same one. *)
Theorem height_of_tx_inverts d X tx :
  shows d X -> u64_ok tx ->
  exists r, HeightOfTx (fun _ => d) tx = Ok r /\
    forall h, u64_ok h -> (r = Some h <-> in_block d tx h).
Proof.
  intros (base & cs & L & p & HI & _) Hu. unfold HeightOfTx. rewrite (bounds_ok d base cs L p tx HI). cbn [rbind].
  destruct (live_ok _ _ _ _ _ HI) as (Htile & Hok & _).
  destruct (List.find (owns tx) (cs ++ drop p L)) as [z|] eqn:Ef; cbn [fmap option_fmap option_map].
  - apply List.find_some in Ef as [Hz Ho]. apply list_elem_of_In in Hz. apply owns_spec in Ho.
    destruct (search_stretch d base cs L p z tx HI Hz Ho) as (h & f & n & E & Hh & Er & Ht). unfold span_of. rewrite E.
    exists (Some h). split; [done|]. intros h' Hh'. split; [intros [= <-]; unfold in_block; eauto|].
    intros (f' & n' & E' & Ht'). f_equal. by apply (range_unique d base cs L p tx h f n h' f' n').
  - exists None. split; [done|]. intros h Hh. split; [done|]. intros (f & n & E & Ht). exfalso.
    destruct (range_inv d base cs L p h f n HI Hh E) as (z & first & Hz & Hr & (F1 & F2 & F3) & -> & En).
    assert (G : owns tx z = true); [|by rewrite (List.find_none _ _ Ef z (proj1 (list_elem_of_In _ _) Hz)) in G].
    apply owns_spec. pose proof (first_step first (cFromH z) (cToH z)) as G.
    assert (F : forall h, cFromH z <= h < cToH z -> exists n, 0 <= n < 2 ^ 32 /\ first (h + 1) = first h + n + 1).
    { intros k Hk. destruct (F3 k Hk) as (m & ? & ? & _). eauto. }
    pose proof (G F (cFromH z) h). pose proof (G F (h + 1) (cToH z)). lia.
Qed.

(** ** The next numbers *)

(** With no run and no frozen window, an untouched window starts at zero. *)
Definition rooted (d : DB) : Prop :=
  ver d = [] -> dfrozen d = None -> forall m, heap d !! dmem d = Some m ->
  started (win m) = true \/ nextTx (win m) = 0 /\ nextHeight (win m) = 0.

Lemma add_started m c b m' :
  obj_open m c -> writable EncodeBare m b -> add Keccak256 EncodeBare m b = Ok m' -> m' = m \/ started (win m') = true.
Proof.
  intros Ho Hw E. destruct (Z.ltb_spec (Height b) (nextHeight (win m))) as [Hlt|Hge].
  - left. unfold add in E. rewrite (proj2 (Z.ltb_lt _ _) Hlt) in E. by injection E.
  - right. destruct (add_open Keccak256 EncodeBare keccak_len m c b m' Ho Hw E Hge) as [[(_ & _ & _ & _ & ->) _] _].
    cbn [window_of started grown cFromH cToH]. apply Z.ltb_lt. destruct (Z.ltb_spec (cFromH c) (cToH c)) as [|]; [|lia].
    destruct Ho as [(_ & _ & _ & _ & Ew) _]. rewrite Ew in Hge. cbn in Hge. lia.
Qed.

Lemma rooted_step d X e d' : shows d X -> rooted d -> step casName Keccak256 EncodeBare d e d' -> rooted d'.
Proof.
  intros (base & cs & L & p & HI & _) Hr Hs. destruct Hs as [d b m m' Hm Hw E|d d' Hf E|d id m prev ref run Hf Hm Hp Hfit E|d id m Hlt Hnf Hm|d|d j inp Hj Hji E|
    d j refs inputs prev ref merged d' Hj Hji Hfit HN E]; unfold rooted in *; cbn [with_heap with_merging publish with_runs ver dfrozen heap dmem].
  - intros Hv Hf m0 Hm0. rewrite list_lookup_insert_eq in Hm0 by (by eapply lookup_lt_Some). injection Hm0 as <-.
    destruct (Inv_active _ _ _ _ _ _ HI Hm) as (l & c & _ & _ & Ho & _).
    destruct (add_started m c b m' Ho Hw E) as [->|?]; [by apply Hr|by left].
  - unfold cutWindow in E. apply rbind_Ok in E as (m & Em & E). destruct (negb (started (win m)) || (nextHeight (win m) =? baseHeight (win m))).
    + injection E as <-. exact Hr.
    + injection E as <-. done.
  - intros Hv. by destruct (ver d).
  - intros Hv Hf m0 Hm0. rewrite list_lookup_insert_ne in Hm0 by lia. by apply Hr.
  - unfold MaybeMerge. destruct (merging d); [done|]. by destruct (mergeSpanLocked d) as [[? ?]|].
  - exact Hr.
  - unfold merge_swap in E. destruct (_ || _); [done|]. injection E as <-. cbn [with_runs ver]. unfold splice. intros Hv.
    by destruct (take (jstart j) (ver d)).
Qed.

Lemma window_started d a m c :
  obj d a = Ok m -> obj_ok m c -> started_window d (Some a) = Ok (if cFromH c <? cToH c then Some (window_of c) else None).
Proof. intros E (_ & _ & _ & _ & Ew). unfold started_window. rewrite E. cbn [rbind]. by rewrite Ew. Qed.

(** the numbers the next block takes. On a database at rest NextTx and
    NextHeight are the abstract store's next TxNum and height, whichever of the
    active window, the frozen window and the manifest they come from; Head is
    the height below, absent for an empty store. The side condition holds of an
    empty data directory and every step keeps it. *)
Theorem next_numbers d X root txs blocks terminal :
  shows d X -> rooted d ->
  NextTx (fun _ => d) = Ok (aNextTx X) /\ NextHeight (fun _ => d) = Ok (aNextH X) /\
  Head (fun _ => d) = Ok (if aNextH X =? 0 then None else Some (aNextH X - 1)) /\
  rooted (empty_db root txs blocks terminal) /\
  forall e d', step casName Keccak256 EncodeBare d e d' -> rooted d'.
Proof.
  intros Hsh Hroot. pose proof Hsh as (base & cs & L & p & HI & (_ & _ & _ & _ & E5 & E6)).
  assert (G : NextTx (fun _ => d) = Ok (aNextTx X) /\ NextHeight (fun _ => d) = Ok (aNextH X)).
  { pose proof HI as (Hr & Href & _ & _ & HL & Hf & _ & Htile & _ & Hlive & _). rewrite <- E5, <- E6.
    destruct (Inv_obj _ _ _ _ _ (dmem d) HI) as (m & c & Em & Hc & Hany & _); [lia|]. pose proof (obj_any_ok m c Hany) as Hok.
    destruct L as [|x l _] using rev_ind; [done|]. rewrite length_app in HL. cbn in HL.
    assert (Ex : x = c). { rewrite lookup_app_r in Hc by lia. replace (dmem d - length l)%nat with 0%nat in Hc by lia. by injection Hc. }
    subst x. rewrite app_assoc in Htile. rewrite app_assoc. destruct (store_last (base ++ l) c) as [-> ->].
    unfold NextTx, NextHeight, mems. rewrite (window_started d _ m c Em Hok). cbn [rbind].
    destruct (Z.ltb_spec (cFromH c) (cToH c)) as [Hlt|Hge]; [done|].
    assert (Hee : cFromTx c = cToTx c /\ cFromH c = cToH c).
    { destruct Hok as ((? & _ & ? & _ & _ & _ & _ & (first & F1 & F2 & _)) & _). assert (cFromH c = cToH c) as Eh by lia.
      rewrite Eh in F1. lia. }
    destruct Hee as [Et Eh]. destruct Hf as [[Hfz Hp]|[Hfz Hp]].
    - rewrite Hfz. cbn [started_window rbind]. unfold flushedTx, flushedHeight.
      destruct (last (mRuns (man d))) as [r|] eqn:El.
      + apply last_Some in El as [rs Ers]. rewrite Ers in Href. apply Forall2_app_inv_l in Href as (cs' & k & _ & Hk & Ecs).
        inv Hk as [|? y ? ? (R1 & R2 & R3 & R4) Hn]. inv Hn. rewrite drop_snoc, drop_ge in Hlive by lia. cbn [app] in Hlive.
        rewrite <- app_assoc in Hlive. apply tiled_app in Hlive as [_ [(_ & T1 & T2) _]].
        destruct Hok as ((? & ? & ? & ? & _) & _). rewrite R2, R4, u64_small by (unfold u64_ok; lia). split; f_equal; lia.
      + apply last_None in El. rewrite El in Href. inv Href. inv Hr. destruct Hok as (_ & _ & _ & _ & Ew).
        assert (Hm : heap d !! dmem d = Some m) by (unfold obj in Em; destruct (heap d !! dmem d); by inv Em).
        destruct (Hroot ltac:(done) Hfz m Hm) as [Hs|[Hs1 Hs2]]; rewrite Ew in *; cbn in *.
        * apply Z.ltb_lt in Hs. lia.
        * by rewrite Hs1, Hs2.
    - rewrite Hfz. destruct (Inv_obj _ _ _ _ _ p HI) as (m2 & c2 & Em2 & Hc2 & Hany2 & _); [rewrite length_app; cbn; lia|].
      rewrite (window_started d p m2 c2 Em2) by (by apply obj_any_ok). cbn [rbind].
      rewrite lookup_app_l in Hc2 by lia. rewrite drop_app_le, (drop_S l c2 p Hc2), drop_ge in Hlive by lia. cbn [app] in Hlive.
      apply tiled_app in Hlive as [_ [((? & Hlt2) & T1 & T2) _]]. rewrite (proj2 (Z.ltb_lt _ _) Hlt2). cbn [window_of nextTx nextHeight].
      split; f_equal; lia. }
  destruct G as [G1 G2]. split_and!; [done|done| | |intros e d'; by apply (rooted_step d X)].
  - unfold Head. by rewrite G2.
  - intros _ _ m Hm. injection Hm as <-. by right.
Qed.

End Numbers.
(** ** The trace of DBReads.v *)

Lemma height_of_tx_inverts_witness : exists r, HeightOfTx (fun _ => t6) 2 = Ok r /\
  (r = Some 1 <-> in_block t6 2 1).
Proof.
  destruct sample_shows as (_ & _ & X6 & _ & _ & _ & _ & H6 & _).
  destruct (height_of_tx_inverts t6 X6 2 H6) as (r & E & Hr); [unfold u64_ok; lia|]. exists r. split; [exact E|].
  apply Hr. unfold u64_ok. lia.
Defined.

Lemma t1_rooted : rooted t1.
Proof.
  apply (rooted_step s_name sample_keccak sample_bare sample_keccak_len t0 empty_store (EvWrite (blk 0)) t1);
    [by apply empty_shows| |exact step1].
  intros _ _ m Hm. injection Hm as <-. by right.
Qed.

Lemma next_numbers_witness : exists X, shows t1 X /\ NextTx (fun _ => t1) = Ok (aNextTx X).
Proof.
  destruct sample_shows as (X1 & _ & _ & _ & H1 & _). exists X1. split; [exact H1|].
  apply (next_numbers s_name sample_keccak sample_bare sample_keccak_len t1 X1 s_root FlushTxs FlushBlocks 4 H1 t1_rooted).
Defined.

End DBHeights.
