(* ===== verification/Frontier.v ===== *)
(** * store/frontier.go: the latest value of every key at a TxNum

    MergeFrontier walks the state section of the live runs with the heap of
    KMerge.v, holds the last row of the current key at or below the target, and
    hands it to the callback when the key changes. The callback's row is only
    read during the call, so the buffers the code reuses for it are plain values
    here. *)

From S2P Require Import Prelude Bytes Rows Ef Format Sha256 Container Memtable MemRecover MemRead Sst RunFile Postings Seal Window Growth KMerge DB Contents Merge Refine DBReads DBHeights.
Import Format.

Module Frontier.
Import Memtable MemRecover MemRead RunFile KMerge Growth DB Contents Merge Refine DBReads DBHeights.

Record FrontierRow := MkFrontier { FKey : bytes; FTxNum : Z; FVal : bytes }.

Section Frontier.
Context `{SSTable} {St : Type} (atTx : Z) (fn : St -> FrontierRow -> res St).

(** The held row ([None] when [have] is false) and the callback's state. *)
Definition emit (x : option FrontierRow * St) : res (option FrontierRow * St) :=
  match x.1 with None => Ok x | Some held => let* st := fn x.2 held in Ok (None, st) end.

Definition frontier_body (x : option FrontierRow * St) (k v : bytes) : res (option FrontierRow * St) :=
  if has_prefix k PrefixState && (8 <? len k) then
    let* key := slice k 0 (len k - 8) in
    let* num := TxNumOf k in
    let* x := if match x.1 with None => true | Some held => negb (beqb (FKey held) key) end then emit x else Ok x in
    Ok (if num <=? atTx then (Some (MkFrontier key num v), x.2) else x)
  else Ok x.

Definition MergeFrontier (fuel : nat) (runs : list Run) (st : St) : res St :=
  let* h := open_cursors (fun r => negb (atTx <? FromTx (RFooter r))) SecState 0 runs in
  let* x := heap_loop frontier_body fuel h (None, st) in
  let* x := emit x in
  Ok x.2.

End Frontier.

(** ** Keys of the state family *)

Lemma bcmp_free p q x y :
  (forall s, q <> p ++ s) -> (forall s, p <> q ++ s) -> bcmp (p ++ x) (q ++ y) = bcmp p q.
Proof.
  revert q. induction p as [|a p IH]; intros q H1 H2; [by destruct (H1 q)|]. destruct q as [|b q]; [by destruct (H2 (a :: p))|].
  cbn [app bcmp]. destruct (Z.compare_spec a b) as [->|_|_]; try done. apply IH; intros s E; [apply (H1 s)|apply (H2 s)]; by rewrite E.
Qed.

Lemma state_shape p : state_prefix p -> exists addr c r, len addr = 20 /\ p = PrefixState ++ addr ++ slash :: c :: slash :: r /\
  ((c = 97 \/ c = 99) /\ r = [] \/ c = 115 /\ len r = 33).
Proof.
  intros [addr Ha|addr Ha|addr slot Ha Hs].
  - exists addr, 97, []. split_and!; [done| |left; auto]. unfold AccountPrefix. done.
  - exists addr, 99, []. split_and!; [done| |left; auto]. unfold CodeRefPrefix. done.
  - exists addr, 115, (slot ++ [slash]). split_and!; [done| |right; split; [done|lens; lia]]. unfold SlotPrefix. done.
Qed.

Lemma state_free p q s : state_prefix p -> state_prefix q -> q = p ++ s -> q = p.
Proof.
  intros Hp Hq E. destruct (state_shape p Hp) as (a & c & r & Ha & -> & Hc), (state_shape q Hq) as (a' & c' & r' & Ha' & -> & Hc').
  rewrite <- !app_assoc in E. cbn [app] in E. apply state_inj in E as (-> & -> & ->); [|done..].
  assert (s = []) as ->; [|by rewrite app_nil_r]. destruct Hc as [[Hc ->]|[Hc Hl]], Hc' as [[Hc' E]|[Hc' Hl']]; try lia.
  - done.
  - lens. destruct s; [done|]. lens. pose proof (len_nonneg s). lia.
Qed.

(** State rows in key order are in the order of their keys, then of their TxNums. *)
Lemma state_order p q n m :
  state_prefix p -> state_prefix q -> u64_ok n -> u64_ok m -> ble (Suffixed p n) (Suffixed q m) ->
  blt p q \/ p = q /\ n <= m.
Proof.
  intros Hp Hq Hn Hm Hle. destruct (decide (p = q)) as [->|Hne].
  - right. split; [done|]. unfold ble, Suffixed in Hle. rewrite bcmp_app, bcmp_be in Hle by (unfold u64_ok in *; simpl; lia).
    by destruct (Z.compare_spec n m); lia || done.
  - left. unfold ble, Suffixed in Hle. rewrite bcmp_free in Hle.
    + unfold blt. destruct (bcmp p q) eqn:E; [|done|done]. by apply bcmp_eq in E.
    + intros s E. by rewrite (state_free p q s Hp Hq E) in Hne.
    + intros s E. by rewrite (state_free q p s Hq Hp E) in Hne.
Qed.

(** ** The rows handed over, as a function of the rows visited *)

Definition opt_list {A} (o : option A) : list A := match o with Some x => [x] | None => [] end.

Fixpoint front (atTx : Z) (h : option FrontierRow) (l : list FrontierRow) : list FrontierRow :=
  match l with
  | [] => opt_list h
  | r :: l =>
      let same := match h with Some g => beqb (FKey g) (FKey r) | None => false end in
      let h1 := if same then h else None in
      (if same then [] else opt_list h) ++ front atTx (if FTxNum r <=? atTx then Some r else h1) l
  end.

(** The callback over the rows, stopping at its first error. *)
Fixpoint each {St} (fn : St -> FrontierRow -> res St) (st : St) (l : list FrontierRow) : res St :=
  match l with [] => Ok st | r :: l => let* st := fn st r in each fn st l end.

(** The state rows among the rows of a section. *)
Definition state_row (r : row) (f : FrontierRow) : Prop :=
  state_prefix (FKey f) /\ u64_ok (FTxNum f) /\ r = (Suffixed (FKey f) (FTxNum f), FVal f).
Inductive state_rows : list row -> list FrontierRow -> Prop :=
| sr_nil : state_rows [] []
| sr_row r f l k : state_row r f -> state_rows l k -> state_rows (r :: l) (f :: k)
| sr_other r l k : has_prefix r.1 PrefixState = false -> state_rows l k -> state_rows (r :: l) k.

Lemma each_app {St} (fn : St -> FrontierRow -> res St) a : forall st b, each fn st (a ++ b) = let* st := each fn st a in each fn st b.
Proof.
  induction a as [|r a IH]; intros st b; [done|]. cbn [app each]. destruct (fn st r) as [st'| |]; cbn [rbind]; [apply IH|done|done].
Qed.

Lemma state_row_parse f : state_prefix (FKey f) -> u64_ok (FTxNum f) ->
  has_prefix (Suffixed (FKey f) (FTxNum f)) PrefixState = true /\ (8 <? len (Suffixed (FKey f) (FTxNum f))) = true /\
  slice (Suffixed (FKey f) (FTxNum f)) 0 (len (Suffixed (FKey f) (FTxNum f)) - 8) = Ok (FKey f) /\
  TxNumOf (Suffixed (FKey f) (FTxNum f)) = Ok (FTxNum f).
Proof.
  intros Hp Hn. destruct (state_shape _ Hp) as (a & c & r & Ha & E & _). split_and!.
  - unfold Suffixed. rewrite E, <- app_assoc. apply has_prefix_app.
  - apply Z.ltb_lt. rewrite len_Suffixed, E. lens. pose proof (len_nonneg r). pose proof (len_nonneg PrefixState). lia.
  - rewrite len_Suffixed. replace (len (FKey f) + 8 - 8) with (len (FKey f)) by lia. unfold slice. pose proof (len_nonneg (FKey f)).
    rewrite len_Suffixed. ztests. rewrite drop_0, Z.sub_0_r, len_to_nat. unfold Suffixed. by rewrite take_app_length.
  - by apply TxNumOf_Suffixed.
Qed.

Lemma frontier_fold {St} atTx (fn : St -> FrontierRow -> res St) l k : state_rows l k -> forall h st,
  (let* x := fold_body (frontier_body atTx fn) (h, st) l in let* x := emit fn x in Ok x.2) = each fn st (front atTx h k).
Proof.
  induction 1 as [|r f l k (Hp & Hn & ->) _ IH|[k0 v0] l k Hr _ IH]; intros h st.
  - cbn [fold_body rbind front]. unfold emit. destruct h as [g|]; cbn [fst snd opt_list each]; [|done].
    by destruct (fn st g).
  - cbn [fold_body front]. destruct (state_row_parse f Hp Hn) as (E1 & E2 & E3 & E4). unfold frontier_body at 1.
    rewrite E1, E2, E3, E4. cbn [andb rbind fst snd]. rewrite each_app.
    destruct h as [g|]; cbn [emit fst snd].
    + destruct (beqb (FKey g) (FKey f)) eqn:Eb; cbn [negb rbind fst snd each opt_list].
      * destruct (FTxNum f <=? atTx); [|apply IH]. rewrite <- IH. by destruct f.
      * unfold emit. cbn [fst snd]. destruct (fn st g) as [st'| |]; cbn [rbind]; try done.
        destruct (FTxNum f <=? atTx); [|apply IH]. rewrite <- IH. by destruct f.
    + cbn [emit fst snd rbind each opt_list]. destruct (FTxNum f <=? atTx); [|apply IH]. rewrite <- IH. by destruct f.
  - cbn [fold_body]. unfold frontier_body at 1. cbn [fst] in Hr. rewrite Hr. cbn [andb rbind]. apply IH.
Qed.

Definition fle (a b : FrontierRow) : Prop := blt (FKey a) (FKey b) \/ FKey a = FKey b /\ FTxNum a <= FTxNum b.
Definition flt (a b : FrontierRow) : Prop := blt (FKey a) (FKey b).

(** A key's last row at or below the target. *)
Definition wins (atTx : Z) (l : list FrontierRow) (x : FrontierRow) : Prop :=
  x ∈ l /\ FTxNum x <= atTx /\ forall y, y ∈ l -> FKey y = FKey x -> FTxNum y <= atTx -> FTxNum y <= FTxNum x.

Lemma front_spec atTx l : forall h,
  StronglySorted fle (opt_list h ++ l) -> (forall g, h = Some g -> FTxNum g <= atTx) ->
  (forall x y, x ∈ opt_list h ++ l -> y ∈ opt_list h ++ l -> FKey x = FKey y -> FTxNum x = FTxNum y -> x = y) ->
  StronglySorted flt (front atTx h l) /\ forall x, x ∈ front atTx h l <-> wins atTx (opt_list h ++ l) x.
Proof.
  induction l as [|r l IH]; intros h Hs Hh Hu; cbn [front].
  - rewrite app_nil_r in *. split; [destruct h; repeat constructor|]. intros x. unfold wins. split.
    + intros Hx. destruct h as [g|]; [|by apply not_elem_of_nil in Hx]. apply list_elem_of_singleton in Hx as ->. split_and!; [by left|by apply Hh|].
      intros y Hy _ _. apply list_elem_of_singleton in Hy as ->. lia.
    + by intros [? _].
  - set (h2 := if FTxNum r <=? atTx then Some r else if match h with Some g => beqb (FKey g) (FKey r) | None => false end then h else None).
    assert (Hsl : StronglySorted fle (r :: l)).
    { destruct h; cbn in Hs; [by apply StronglySorted_inv in Hs as [? _]|done]. }
    assert (Hlower : forall y, y ∈ l -> blt (FKey r) (FKey y) \/ FKey r = FKey y /\ FTxNum r <= FTxNum y).
    { apply StronglySorted_inv in Hsl as [_ F]. rewrite Forall_forall in F. exact F. }
    assert (Hsub : forall x, x ∈ opt_list h2 ++ l -> x ∈ opt_list h ++ r :: l).
    { intros x Hx. subst h2. destruct (FTxNum r <=? atTx); [apply elem_of_app; right; by destruct h|].
      destruct h as [g|]; [destruct (beqb (FKey g) (FKey r))|]; cbn in *; set_solver. }
    destruct (IH h2) as [IH1 IH2].
    { subst h2. destruct (FTxNum r <=? atTx); [done|]. apply StronglySorted_inv in Hsl as [Hsl _].
      destruct h as [g|]; [destruct (beqb (FKey g) (FKey r))|]; cbn in *; try done.
      apply StronglySorted_inv in Hs as [_ F]. constructor; [done|]. by apply Forall_cons in F as [_ F]. }
    { intros g Hg. subst h2. destruct (Z.leb_spec (FTxNum r) atTx); [by injection Hg as <-|].
      destruct h as [g'|]; [destruct (beqb (FKey g') (FKey r))|]; try done. by apply Hh. }
    { intros x y Hx Hy. apply Hu; by apply Hsub. }
    destruct h as [g|]; cbn [opt_list app] in *.
    + pose proof (Hh g eq_refl) as Hg. assert (Hgr : blt (FKey g) (FKey r) \/ FKey g = FKey r /\ FTxNum g <= FTxNum r).
      { apply StronglySorted_inv in Hs as [_ F]. by apply Forall_cons in F as [? _]. }
      destruct (beqb_spec (FKey g) (FKey r)) as [Eb|Hne].
      * split; [done|]. intros x. rewrite IH2. subst h2. unfold wins. destruct (Z.leb_spec (FTxNum r) atTx) as [Hr|Hr]; cbn [opt_list app].
        -- split.
           ++ intros (Hx & Hxa & Hmax). split_and!; [set_solver|done|]. intros y Hy Ek Ea. apply elem_of_cons in Hy as [->|Hy]; [|by apply Hmax].
              specialize (Hmax r ltac:(set_solver) ltac:(congruence) Hr). destruct Hgr as [Hlt|[_ ?]]; [|lia].
              rewrite Eb in Hlt. by apply blt_irrefl in Hlt.
           ++ intros (Hx & Hxa & Hmax). apply elem_of_cons in Hx as [->|Hx].
              ** assert (g = r) as ->.
                 { apply Hu; [set_solver..|done|]. specialize (Hmax r ltac:(set_solver) ltac:(done) Hr). destruct Hgr as [Hlt|[_ ?]]; [|lia].
                   rewrite Eb in Hlt. by apply blt_irrefl in Hlt. }
                 split_and!; [set_solver|done|]. intros y Hy. apply Hmax. set_solver.
              ** split_and!; [done|done|]. intros y Hy. apply Hmax. set_solver.
        -- split.
           ++ intros (Hx & Hxa & Hmax). split_and!; [set_solver|done|]. intros y Hy Ek Ea.
              apply elem_of_cons in Hy as [->|Hy]; [apply Hmax; try done; set_solver|]. apply elem_of_cons in Hy as [->|Hy]; [lia|apply Hmax; try done; set_solver].
           ++ intros (Hx & Hxa & Hmax). split_and!; [|done|intros y Hy; apply Hmax; set_solver].
              apply elem_of_cons in Hx as [->|Hx]; [set_solver|]. apply elem_of_cons in Hx as [->|Hx]; [lia|set_solver].
      * destruct Hgr as [Hgr|[? _]]; [|done].
        assert (Hall : forall y, y ∈ r :: l -> blt (FKey g) (FKey y)).
        { intros y Hy. apply elem_of_cons in Hy as [->|Hy]; [done|]. destruct (Hlower y Hy) as [Hl|[<- _]]; [by eapply blt_trans|done]. }
        assert (Hin : forall x, x ∈ front atTx h2 l -> x ∈ r :: l).
        { intros x Hx. apply IH2 in Hx as [Hx _]. subst h2. destruct (FTxNum r <=? atTx); cbn in Hx; set_solver. }
        split.
        -- cbn [app]. constructor; [done|]. apply Forall_forall. intros x Hx. by apply Hall, Hin.
        -- cbn [app]. intros x. rewrite elem_of_cons, IH2. unfold wins. split.
           ++ intros [->|(Hx & Hxa & Hmax)].
              ** split_and!; [set_solver|done|]. intros y Hy Ek _. apply elem_of_cons in Hy as [->|Hy]; [lia|].
                 specialize (Hall y Hy). rewrite Ek in Hall. by apply blt_irrefl in Hall.
              ** split_and!; [apply elem_of_cons; right; apply Hin, IH2; done|done|]. intros y Hy Ek Ea. apply elem_of_cons in Hy as [->|Hy].
                 { assert (Hxin : x ∈ r :: l) by (apply Hin, IH2; done). specialize (Hall x Hxin). rewrite Ek in Hall. by apply blt_irrefl in Hall. }
                 apply Hmax; try done. subst h2. apply elem_of_cons in Hy as [->|Hy].
                 { destruct (Z.leb_spec (FTxNum r) atTx); [set_solver|lia]. } set_solver.
           ++ intros (Hx & Hxa & Hmax). apply elem_of_cons in Hx as [->|Hx]; [by left|right].
              split_and!; [|done|].
              ** subst h2. apply elem_of_cons in Hx as [->|Hx]; [|set_solver]. destruct (Z.leb_spec (FTxNum r) atTx); [set_solver|lia].
              ** intros y Hy. apply Hmax. subst h2. destruct (FTxNum r <=? atTx); cbn in Hy; set_solver.
    + split; [done|]. intros x. rewrite IH2. subst h2. unfold wins. destruct (Z.leb_spec (FTxNum r) atTx) as [Hr|Hr]; cbn [opt_list app]; [done|].
      split.
      * intros (Hx & Hxa & Hmax). split_and!; [set_solver|done|]. intros y Hy Ek Ea. apply elem_of_cons in Hy as [->|Hy]; [lia|by apply Hmax].
      * intros (Hx & Hxa & Hmax). split_and!; [|done|intros y Hy; apply Hmax; set_solver]. apply elem_of_cons in Hx as [->|Hx]; [lia|done].
Qed.

(** ** The rows of the live runs *)

Lemma state_rows_exist l : stored_rows l -> exists k, state_rows l k.
Proof.
  induction l as [|[k v] l IH]; intros Hl; [exists []; constructor|]. destruct IH as [fs Hfs]; [intros k' v' Hin; apply (Hl k' v'); set_solver|].
  destruct (has_prefix k PrefixState) eqn:Ep; [|exists fs; by constructor]. apply has_prefix_spec in Ep as [t Et].
  destruct (Hl k v ltac:(set_solver)) as [q Hq]. destruct (stored_state_inv k q t Hq Et) as (p & n & Hp & ->).
  exists (MkFrontier p (u64 n) v :: fs). constructor; [|done]. split_and!; cbn [FKey FTxNum FVal]; [done|apply u64_range|by rewrite Suffixed_u64].
Qed.

Lemma state_rows_In l k : state_rows l k -> forall p n v, state_prefix p -> u64_ok n ->
  MkFrontier p n v ∈ k <-> (Suffixed p n, v) ∈ l.
Proof.
  induction 1 as [|r f l k (Hf & Hu & ->) _ IH|r l k Hr _ IH]; intros p n v Hp Hn.
  - split; intros ?%not_elem_of_nil; done.
  - rewrite !elem_of_cons, IH by done. split; (intros [E|?]; [left|by right]).
    + by destruct f; injection E as -> -> ->.
    + injection E as E Ev. destruct f as [q m w]. cbn [FKey FTxNum FVal] in *. apply Suffixed_inj in E as [-> ->]; [|done..]. by subst.
  - rewrite IH, elem_of_cons by done. split; [by right|]. intros [<-|?]; [|done].
    exfalso. destruct (state_row_parse (MkFrontier p n v)) as [Ht _]; [done..|]. cbn [FKey FTxNum] in Ht. cbn [fst] in Hr. congruence.
Qed.

Lemma state_rows_ok l k : state_rows l k -> Forall (fun f => state_prefix (FKey f) /\ u64_ok (FTxNum f)) k.
Proof. induction 1 as [|r f l k (? & ? & _) _ IH|]; [constructor|by constructor|done]. Qed.

Lemma state_rows_fle l k : state_rows l k -> StronglySorted ble (keys l) -> StronglySorted fle k.
Proof.
  induction 1 as [|r f l k (Hf & Hu & ->) Hk IH|r l k _ _ IH]; intros Hs; [constructor| |].
  - apply StronglySorted_inv in Hs as [Hs F]. constructor; [by apply IH|]. apply Forall_forall. intros g Hg.
    pose proof (state_rows_ok _ _ Hk) as Hok. rewrite Forall_forall in Hok. destruct (Hok g Hg) as [Hgp Hgu].
    rewrite Forall_forall in F. apply (state_order (FKey f) (FKey g)); try done. apply F. apply list_elem_of_In, in_map_iff.
    exists (Suffixed (FKey g) (FTxNum g), FVal g). split; [done|]. apply list_elem_of_In. apply (state_rows_In _ _ Hk); try done. by destruct g.
  - apply IH. by apply StronglySorted_inv in Hs as [? _].
Qed.

(** The last write at or before a TxNum, by what it is. *)
Lemma last_write_wins h at_ v n : ascending h ->
  last_write h at_ = Some (v, n) <-> (n, v) ∈ h /\ n <= at_ /\ forall x, x ∈ h -> x.1 <= at_ -> x.1 <= n.
Proof.
  intros Ha. unfold last_write.
  assert (Hna : ascending (not_after at_ h)) by (by apply ascending_not_after).
  split.
  - destruct (last (not_after at_ h)) as [[n0 v0]|] eqn:El; [|done]. intros [= <- <-].
    pose proof (ascending_last _ _ Hna El) as F. rewrite Forall_forall in F.
    apply last_Some in El as [l El]. assert (Hin : (n0, v0) ∈ not_after at_ h) by (rewrite El; set_solver).
    apply not_after_In in Hin as [Hin Hle]. split_and!; [done|done|]. intros x Hx Hxa. apply F. by apply not_after_In.
  - intros (Hin & Hle & Hmax). assert (Hin' : (n, v) ∈ not_after at_ h) by (by apply not_after_In).
    destruct (last (not_after at_ h)) as [[n0 v0]|] eqn:El.
    + apply last_Some in El as [l El]. rewrite El in Hin', Hna. apply elem_of_app in Hin' as [Hin'|Hin'].
      * apply ascending_app in Hna as [_ F]. rewrite Forall_forall in F. specialize (F _ Hin'). cbn in F.
        assert (Hx : (n0, v0) ∈ not_after at_ h) by (rewrite El; set_solver). apply not_after_In in Hx as [Hx Hxa].
        specialize (Hmax _ Hx Hxa). cbn in Hmax. lia.
      * apply list_elem_of_singleton in Hin'. by injection Hin' as <- <-.
    + apply last_None in El. rewrite El in Hin'. by apply not_elem_of_nil in Hin'.
Qed.

Lemma number_snd ls : forall i, map snd (number i ls) = concat ls.
Proof.
  induction ls as [|l ls IH]; intros i; [done|]. cbn [number concat]. rewrite map_app, IH. f_equal. rewrite map_map. apply map_id.
Qed.

Lemma ascending_unique h n v w : ascending h -> (n, v) ∈ h -> (n, w) ∈ h -> v = w.
Proof.
  intros Ha Hv Hw. apply list_elem_of_lookup in Hv as [i Hi]. apply list_elem_of_lookup in Hw as [j Hj].
  destruct (Nat.lt_total i j) as [Hlt|[->|Hlt]]; [|congruence|].
  - pose proof (ascending_lookup h i j _ _ Ha Hlt Hi Hj). cbn in *. lia.
  - pose proof (ascending_lookup h j i _ _ Ha Hlt Hj Hi). cbn in *. lia.
Qed.

Lemma hist_at_u64 cs p n v : Forall content_ok cs -> (n, v) ∈ hist_at cs p -> u64_ok n.
Proof.
  intros Ho Hx. apply hist_at_In in Hx as (c & Hc & Hx). rewrite Forall_forall in Ho. destruct (Ho c Hc) as (? & ? & _ & _ & _ & Hh & _).
  destruct (Hh p) as [_ F]. rewrite Forall_forall in F. specialize (F _ Hx). cbn in F. unfold u64_ok. lia.
Qed.

Section Runs.
Context `{SSTLaws}.

(** The rows of the runs the frontier opens. *)
Definition used (atTx : Z) (r : Run) : bool := negb (atTx <? FromTx (RFooter r)).
Definition open_rows (atTx : Z) (rs : list Run) (Rs : list (Section -> list row)) : list (list row) :=
  zip_with (fun r R => if used atTx r then R SecState else []) rs Rs.

Lemma open_rows_In atTx rs Rs x :
  x ∈ concat (open_rows atTx rs Rs) <-> exists i r R, rs !! i = Some r /\ Rs !! i = Some R /\ used atTx r = true /\ x ∈ R SecState.
Proof.
  unfold open_rows. revert Rs. induction rs as [|r rs IH]; intros Rs; [split; [by intros ?%not_elem_of_nil|by intros ([|] & ? & ? & ? & _)]|].
  destruct Rs as [|R Rs]; [split; [by intros ?%not_elem_of_nil|by intros ([|] & ? & ? & _ & ? & _)]|].
  cbn [zip_with concat]. rewrite elem_of_app, IH. split.
  - intros [Hx|(i & r' & R' & H1 & H2 & H3)]; [|by exists (S i), r', R'].
    destruct (used atTx r) eqn:Eu; [by exists 0%nat, r, R|by apply not_elem_of_nil in Hx].
  - intros ([|i] & r' & R' & H1 & H2 & H3 & H4); [left|right; by exists i, r', R'].
    injection H1 as <-. injection H2 as <-. by rewrite H3.
Qed.

(** Which state rows they are: those of the contents, up to the target at least. *)
Lemma open_rows_state atTx rs Rs cs p n v :
  Forall2 run_serves rs cs -> Forall2 run_holds rs Rs -> Forall2 represents Rs cs -> state_prefix p -> u64_ok n ->
  ((Suffixed p n, v) ∈ concat (open_rows atTx rs Rs) -> (n, v) ∈ hist_at cs p) /\
  ((n, v) ∈ hist_at cs p -> n <= atTx -> (Suffixed p n, v) ∈ concat (open_rows atTx rs Rs)).
Proof.
  intros Hs Hh Hr Hp Hn. rewrite open_rows_In, hist_at_In. split.
  - intros (i & r & R & H1 & H2 & _ & Hin). destruct (Forall2_lookup_l _ _ _ _ _ Hr H2) as (c & Hc & (_ & _ & _ & _ & Hhi & _)).
    exists c. split; [by eapply list_elem_of_lookup_2|]. destruct (Hhi p Hp) as (_ & _ & Hiff). by apply Hiff.
  - intros (c & Hc & Hin) Hle. apply list_elem_of_lookup in Hc as [i Hi]. destruct (Forall2_lookup_r _ _ _ _ _ Hr Hi) as (R & HR & (_ & _ & _ & _ & Hhi & _)).
    destruct (Forall2_lookup_r _ _ _ _ _ Hs Hi) as (r & Hri & ((_ & _ & _ & _ & _ & Hst & _) & ((E1 & _) & _) & _)). exists i, r, R. split_and!; try done.
    + unfold used. rewrite E1. destruct (Hst p) as [_ F]. rewrite Forall_forall in F. specialize (F _ Hin). cbn in F.
      rewrite (proj2 (Z.ltb_ge _ _)) by lia. done.
    + destruct (Hhi p Hp) as (_ & _ & Hiff). by apply Hiff.
Qed.

Lemma frontier_runs rs cs atTx :
  Forall2 run_serves rs cs -> tiled cs ->
  exists N out, (forall fuel, (N <= fuel)%nat -> forall St (fn : St -> FrontierRow -> res St) st,
      MergeFrontier atTx fn fuel rs st = each fn st out) /\
    StronglySorted flt out /\ Forall (fun f => state_prefix (FKey f)) out /\
    forall p n v, state_prefix p -> MkFrontier p n v ∈ out <-> last_write (hist_at cs p) atTx = Some (v, n).
Proof.
  intros Hs Ht. pose proof (serves_ok _ _ Hs) as Ho.
  assert (HR : exists Rs, Forall2 run_holds rs Rs /\ Forall2 represents Rs cs).
  { clear -Hs. induction Hs as [|r d rs ds (_ & _ & R & Hh & Hrep) _ (Rs & H1 & H2)]; [exists []; by split|]. exists (R :: Rs). split; by constructor. }
  destruct HR as (Rs & Hh & Hr).
  assert (Hne : Forall (fun R => Forall (fun r => r.1 <> []) (R SecState)) Rs).
  { apply Forall_forall. intros R HRin. apply list_elem_of_lookup in HRin as [i Hi].
    destruct (Forall2_lookup_l _ _ _ _ _ Hr Hi) as (d & _ & _ & Hne & _). apply Hne. }
  destruct (open_cursors_ok (used atTx) SecState rs Rs 0 Hh Hne) as (h & hs & Eh & Hat & Hnd & _ & Hrows).
  fold (open_rows atTx rs Rs) in Hrows.
  assert (Hsorted : Forall sorted_rows (open_rows atTx rs Rs)).
  { clear -Hh. unfold open_rows. induction Hh as [|r R rs Rs Hr _ IH]; cbn [zip_with]; constructor; [|done].
    destruct (used atTx r); [apply (Hr SecState)|constructor]. }
  destruct (merges_exists _ Hsorted) as (S & HS).
  assert (HM : forall x, x ∈ map snd S <-> x ∈ concat (open_rows atTx rs Rs)).
  { intros x. destruct HS as [_ Hp]. rewrite <- (number_snd _ 0). by rewrite Hp. }
  assert (Hstored : stored_rows (map snd S)).
  { intros k v Hin. apply HM, open_rows_In in Hin as (i & r & R & _ & H2 & _ & Hin).
    destruct (Forall2_lookup_l _ _ _ _ _ Hr H2) as (d & _ & (_ & _ & _ & Hst & _)). by apply (Hst k v). }
  destruct (state_rows_exist _ Hstored) as [fs Hfs]. pose proof (state_rows_ok _ _ Hfs) as Hok. rewrite Forall_forall in Hok.
  assert (Hin : forall f, f ∈ fs -> (FTxNum f, FVal f) ∈ hist_at cs (FKey f)).
  { intros f Hf. destruct (Hok f Hf) as [Hp Hu]. apply (open_rows_state atTx rs Rs cs (FKey f) (FTxNum f) (FVal f)); try done.
    apply HM, (state_rows_In _ _ Hfs); try done. by destruct f. }
  assert (Hasc : forall p, ascending (hist_at cs p)) by (intros p; by apply hist_at_ascending).
  destruct (front_spec atTx fs None) as [F1 F2]; [|done| |].
  { cbn. apply (state_rows_fle _ _ Hfs). by eapply merges_keys. }
  { cbn. intros x y Hx Hy Ek En. apply Hin in Hx as Hx'. apply Hin in Hy as Hy'. rewrite Ek, En in Hx'.
    pose proof (ascending_unique _ _ _ _ (Hasc _) Hx' Hy') as Ev. destruct x, y. cbn in *. congruence. }
  exists (length S), (front atTx None fs). split_and!; try done.
  - intros fuel Hf St fn st. unfold MergeFrontier. fold (used atTx). rewrite Eh. cbn [rbind].
    destruct HS as [HS1 HS2]. rewrite <- Hrows in HS2. rewrite (heap_loop_fold _ S h hs) by done. by apply frontier_fold.
  - apply Forall_forall. intros f Hf. apply F2 in Hf as [Hf _]. by apply Hok.
  - intros p n v Hp. rewrite F2, last_write_wins by done. unfold wins. cbn [opt_list app FKey FTxNum]. split.
    + intros (Hf & Hle & Hmax). split_and!; [by apply Hin in Hf|done|]. intros [n' v'] Hx Hxa. cbn in *.
      assert (Hu : u64_ok n') by (by apply (hist_at_u64 cs p n' v')).
      apply (Hmax (MkFrontier p n' v')); try done. apply (state_rows_In _ _ Hfs); try done. apply HM.
      by apply (open_rows_state atTx rs Rs cs p n' v').
    + intros (Hx & Hle & Hmax). assert (Hu : u64_ok n) by (by apply (hist_at_u64 cs p n v)). split_and!; [|done|].
      * apply (state_rows_In _ _ Hfs); try done. apply HM. by apply (open_rows_state atTx rs Rs cs p n v).
      * intros y Hy Ek Ea. apply Hin in Hy. rewrite Ek in Hy. by apply (Hmax (FTxNum y, FVal y)).
Qed.

(** Below the flushed end the windows have nothing to say. *)
Lemma flushed_history d base cs L q p atTx :
  Inv d base cs L q -> 0 <= atTx < flushedTx d ->
  last_write (hist_at (base ++ L) p) atTx = last_write (hist_at cs p) atTx.
Proof.
  intros HI Hat. pose proof (Inv_content_ok _ _ _ _ _ HI) as Hok. pose proof HI as (Hr & Href & _ & _ & _ & _ & (_ & Hh & _) & _ & _ & Hlive & _).
  rewrite <- (take_drop q L), app_assoc, hist_at_app, <- Hh, <- hist_at_app. apply hist_at_silent. apply Forall_forall. intros c Hc.
  unfold flushedTx in Hat. destruct (last (mRuns (man d))) as [r|] eqn:El; [|lia]. apply last_Some in El as [rs Ers].
  rewrite Ers in Href. apply Forall2_app_inv_l in Href as (cs' & k & _ & Hk & Ecs). inv Hk as [|? y ? ? (_ & R2 & _) Hn]. inv Hn.
  rewrite <- app_assoc in Hlive. apply tiled_app in Hlive as [_ Hlive]. cbn [app] in Hlive.
  apply Forall_app in Hok as [_ Hok]. pose proof (serves_ok _ _ Hr) as Hcs. apply Forall_app in Hcs as [_ Hy]. apply Forall_inv in Hy.
  destruct (tiled_after y (drop q L) c Hlive) as (_ & Hle & _); [constructor; [done|by apply Forall_drop]|done|].
  assert (Hcok : content_ok c).
  { rewrite Forall_forall in Hok. apply Hok. apply list_elem_of_lookup in Hc as [i Hi]. rewrite lookup_drop in Hi. by eapply list_elem_of_lookup_2. }
  destruct Hcok as (_ & _ & _ & _ & _ & Hst & _). apply last_write_after. destruct (Hst p) as [_ F]. eapply Forall_impl; [exact F|]. cbn. lia.
Qed.

(** the frontier is the state. For any TxNum below the flushed end, the
    frontier merge over the live runs (with enough fuel, and for any callback,
    whose first error it returns) hands over rows in strictly ascending key
    order, every one of a state key, and for each account, code reference and
    slot exactly one row if the store has a write of it at or before the TxNum:
    the last such write, with its TxNum; a key with no such write has none. *)
Theorem frontier_latest d X atTx :
  shows d X -> 0 <= atTx < flushedTx d ->
  exists N out, (forall fuel, (N <= fuel)%nat -> forall St (fn : St -> FrontierRow -> res St) st,
      MergeFrontier atTx fn fuel (snapshot d) st = each fn st out) /\
    StronglySorted flt out /\ Forall (fun f => state_prefix (FKey f)) out /\
    forall p n v, state_prefix p -> MkFrontier p n v ∈ out <-> last_write (aHist X p) atTx = Some (v, n).
Proof.
  intros (base & cs & L & q & HI & (_ & E2 & _)) Hat. pose proof HI as (Hr & _ & _ & _ & _ & _ & _ & _ & _ & Hlive & _).
  destruct (frontier_runs (ver d) cs atTx Hr) as (N & out & H1 & H2 & H3 & H4); [by apply tiled_app in Hlive as [? _]|].
  exists N, out. split_and!; try done. intros p n v Hp. rewrite H4 by done.
  rewrite <- E2. cbn [store_of aHist]. by rewrite (flushed_history d base cs L q p atTx HI Hat).
Qed.

End Runs.

(** ** Taking a key apart *)

Lemma frontier_latest_witness :
  exists N out, (forall fuel, (N <= fuel)%nat -> forall (fn : list FrontierRow -> FrontierRow -> res (list FrontierRow)) st,
      MergeFrontier 2 fn fuel (snapshot t6) st = each fn st out) /\ StronglySorted flt out.
Proof.
  destruct sample_shows as (_ & _ & X6 & _ & _ & _ & _ & H6 & _).
  destruct (frontier_latest t6 X6 2 H6) as (N & out & H1 & H2 & _).
  - assert (E : flushedTx t6 = 4) by (vm_compute; reflexivity). rewrite E. lia.
  - exists N, out. split; [|exact H2]. intros fuel Hf fn st. exact (H1 fuel Hf _ fn st).
Defined.

End Frontier.
