(* ===== verification/Flat.v ===== *)
(** * store/flat.go, store/statedb.go: the flat latest-state cache

    A two-generation map in front of the state descent, tagged with the height
    it is the latest state of. A Go map is a [gmap], a nil map the empty one; the
    value slices are shared with the block and the runs but never written. The
    environment, the cgroup file and the container ceiling are arguments. *)

From S2P Require Import Prelude Bytes Rows Ef Format Sha256 Container Memtable MemRecover MemRead Sst RunFile Postings Seal Window Growth KMerge DB Contents Merge Refine DBReads DBHeights.
Import Format.

Module Flat.
Import Memtable MemRecover MemRead RunFile Growth DB Contents Merge Refine DBReads DBHeights.

(** ** The budgets *)

(** strconv.ParseUint(v, 10, 64): decimal digits only, at least one, within 64 bits. *)
Fixpoint parse_digits (n : Z) (b : bytes) : option Z :=
  match b with
  | [] => Some n
  | c :: b => if (48 <=? c) && (c <=? 57) then
                let n' := 10 * n + (c - 48) in if n' <? 2 ^ 64 then parse_digits n' b else None
              else None
  end.
Definition ParseUint10 (b : bytes) : option Z := match b with [] => None | _ => parse_digits 0 b end.

(** strings.TrimSpace on ASCII text. *)
Definition is_space (c : Z) : bool := (c =? 32) || ((9 <=? c) && (c <=? 13)).
Fixpoint trim_left (b : bytes) : bytes :=
  match b with [] => [] | c :: b' => if is_space c then trim_left b' else b end.
Definition TrimSpace (b : bytes) : bytes := reverse (trim_left (reverse (trim_left b))).

Definition flatCacheShare : Z := 8.
Definition flatCacheNoContainer : Z := 2 ^ 30.
Definition codeCacheShare : Z := 10.
Definition jumpDestShare : Z := 8.

(** The file's content, [None] when it cannot be read. *)
Definition containerMemoryLimit (file : option bytes) : option Z :=
  match file with
  | None => None
  | Some b =>
      let s := TrimSpace b in
      if beqb s (str "max") then None
      else match ParseUint10 s with Some n => if n =? 0 then None else Some n | None => None end
  end.

(** Where a budget came from. *)
Inductive why := Override | Off | Eighth (limitMB : Z) | NoContainer | Tenth | EighthOfCode.

(** [env] is os.Getenv, an unset variable being the empty string. *)
Definition flatCacheBytes (env : bytes) (file : option bytes) : res (Z * why) :=
  match env with
  | _ :: _ =>
      match ParseUint10 env with
      | None => Err "EPOCHDB_FLAT_CACHE is not a byte count"
      | Some n => if n =? 0 then Ok (0, Off) else Ok (n, Override)
      end
  | [] =>
      match containerMemoryLimit file with
      | Some limit => Ok (limit / flatCacheShare, Eighth (Z.shiftr limit 20))
      | None => Ok (flatCacheNoContainer, NoContainer)
      end
  end.

Definition codeCacheBytes (env : bytes) (flat : Z) : res (Z * why) :=
  match env with
  | _ :: _ =>
      match ParseUint10 env with
      | None => Err "EPOCHDB_CODE_CACHE is not a byte count"
      | Some n => if n =? 0 then Ok (0, Off) else Ok (n, Override)
      end
  | [] => Ok (flat / codeCacheShare, Tenth)
  end.

(** store/jumpdest.go *)
Definition jumpDestCacheBytes (env : bytes) (code : Z) : res (Z * why) :=
  match env with
  | _ :: _ =>
      match ParseUint10 env with
      | None => Err "EPOCHDB_JUMPDEST_CACHE is not a byte count"
      | Some n => if n =? 0 then Ok (0, Off) else Ok (n, Override)
      end
  | [] => Ok (code / jumpDestShare, EighthOfCode)
  end.

(** ** The cache *)

Record flatVal := MkFV { fval : bytes; found : bool }.

Definition flatEntryOverhead : Z := 64.
Definition flatEntryBytes (k : bytes) (v : flatVal) : Z := u64 (len k + len (fval v) + flatEntryOverhead).

Record flatCache := MkFlat {
  budget : Z; half : Z; hot : gmap bytes flatVal; cold : gmap bytes flatVal; fbytes : Z; fheight : Z; fset : bool }.

Definition newFlatCache (b : Z) : flatCache := MkFlat b (b / 2) ∅ ∅ 0 0 false.

Definition at_height (c : flatCache) (h : Z) : flatCache :=
  MkFlat (budget c) (half c) (hot c) (cold c) (fbytes c) h true.

Definition adopt (c : flatCache) (h : Z) : flatCache := if budget c =? 0 then c else at_height c h.

(** A hit, with what the descent would report. *)
Definition get (c : flatCache) (prefix : bytes) (height : Z) : option flatVal :=
  if budget c =? 0 then None
  else if negb (fset c) || negb (fheight c =? height) then None
  else match hot c !! prefix with Some e => Some e | None => cold c !! prefix end.

Definition put (c : flatCache) (k : bytes) (v : flatVal) : flatCache :=
  let b := match hot c !! k with Some old => u64 (fbytes c - flatEntryBytes k old) | None => fbytes c end in
  let hot' := <[k := v]> (hot c) in
  let b := u64 (b + flatEntryBytes k v) in
  if half c <? b then MkFlat (budget c) (half c) ∅ hot' 0 (fheight c) (fset c)
  else MkFlat (budget c) (half c) hot' (cold c) b (fheight c) (fset c).

Definition fill (c : flatCache) (prefix val : bytes) (fnd : bool) (height : Z) : flatCache :=
  if budget c =? 0 then c
  else if negb (fset c) || negb (fheight c =? height) then c
  else put c prefix (MkFV val fnd).

Definition drop_all (c : flatCache) : flatCache := MkFlat (budget c) (half c) ∅ ∅ 0 (fheight c) (fset c).

Definition put_row (c : flatCache) (r : StateRow) : flatCache := put c (stateKeyPrefix r) (MkFV (Val r) true).

Definition apply (c : flatCache) (b : BlockWrite) : flatCache :=
  if budget c =? 0 then c else
  let c := if fset c && negb (Height b =? u64 (fheight c + 1)) then drop_all c else c in
  let c := fold_left (fun c t => fold_left put_row (State t) c) (Txs b) c in
  let c := fold_left put_row (Tail b) c in
  at_height c (Height b).

(** ** In front of the descent *)

Section Node.
Context `{SSTable} (Keccak256 : bytes -> bytes) (EncodeBare : bytes -> list bytes -> res bytes).

(** [txCeiling]: the TxNum ceiling of a height (the flag is [floor]), and the
    one-slot memo after it. *)
Definition txCeiling (ceil : option (Z * Z)) (s : nat -> DB) (height : Z) : res (Z * bool * option (Z * Z)) :=
  match (match ceil with Some c => if c.1 =? height then Some c.2 else None | None => None end) with
  | Some at_ => Ok (at_, false, ceil)
  | None =>
      let* r := TxNumAtEndOf s height in
      match r with
      | Some at_ => Ok (at_, false, Some (height, at_))
      | None => if height =? 0 then Ok (0, true, ceil) else Err "store: block is not stored"
      end
  end.

(** [stateRow]: [c0] is the cache at the lookup, [s] the database the descent
    sees, [c1] the cache at the fill, which it leaves changed. *)
Definition stateRow (c0 : flatCache) (s : nat -> DB) (c1 : flatCache) (prefix : bytes) (height at_ : Z)
    : res (option bytes * flatCache) :=
  match get c0 prefix height with
  | Some e => Ok (if found e then Some (fval e) else None, c1)
  | None =>
      let* v := latest s SecState prefix at_ in
      Ok (v, fill c1 prefix (default [] v) (bool_decide (is_Some v)) height)
  end.

(** [WriteBlock]: the window takes the block, then the cache moves, then the
    triggers are looked at. *)
Definition WriteBlock (d : DB) (c : flatCache) (b : BlockWrite) : res (DB * flatCache) :=
  let* m := obj d (dmem d) in
  let* m := add Keccak256 EncodeBare m b in
  let d := with_heap d (<[dmem d := m]> (heap d)) in
  let c := apply c b in
  let* d := MaybeFlush d in
  Ok (d, c).

End Node.

(** ** Lookups after writes *)

(** What a lookup at the cache's height finds. *)
Definition eff (c : flatCache) (k : bytes) : option flatVal :=
  match hot c !! k with Some e => Some e | None => cold c !! k end.

Lemma put_eff c k v k' w : eff (put c k v) k' = Some w -> k' = k /\ w = v \/ k' <> k /\ eff c k' = Some w.
Proof.
  unfold put, eff. destruct (half c <? _); cbn [hot cold]; destruct (decide (k' = k)) as [->|Hne].
  - rewrite lookup_empty, lookup_insert_eq. intros [= <-]. by left.
  - rewrite lookup_empty, lookup_insert_ne by done. intros E. right. by rewrite E.
  - rewrite lookup_insert_eq. intros [= <-]. by left.
  - rewrite lookup_insert_ne by done. by right.
Qed.

Lemma put_tags c k v : budget (put c k v) = budget c /\ half (put c k v) = half c /\ fheight (put c k v) = fheight c /\ fset (put c k v) = fset c.
Proof. unfold put. by destruct (half c <? _). Qed.

(** The rows a block's writes are, in order. *)
Definition block_vals (b : BlockWrite) : list (bytes * bytes) :=
  map (fun r => (stateKeyPrefix r, Val r)) (concat (map State (Txs b)) ++ Tail b).
Definition put_vals (c : flatCache) (l : list (bytes * bytes)) : flatCache :=
  fold_left (fun c x => put c x.1 (MkFV x.2 true)) l c.
Definition last_val (l : list (bytes * bytes)) (k : bytes) : option bytes :=
  fold_left (fun acc x => if decide (k = x.1) then Some x.2 else acc) l None.

Lemma put_rows_vals l : forall c, fold_left put_row l c = put_vals c (map (fun r => (stateKeyPrefix r, Val r)) l).
Proof. induction l as [|r l IH]; intros c; [done|]. cbn [map put_vals fold_left]. apply IH. Qed.

Lemma put_vals_app a b c : put_vals c (a ++ b) = put_vals (put_vals c a) b.
Proof. unfold put_vals. by rewrite fold_left_app. Qed.

Lemma apply_vals c b :
  fold_left put_row (Tail b) (fold_left (fun c t => fold_left put_row (State t) c) (Txs b) c) = put_vals c (block_vals b).
Proof.
  unfold block_vals. rewrite map_app, put_vals_app, put_rows_vals. f_equal. revert c.
  induction (Txs b) as [|t l IH]; intros c; [done|]. cbn [fold_left map concat]. by rewrite map_app, put_vals_app, IH, put_rows_vals.
Qed.

Lemma last_val_acc l k : forall acc,
  fold_left (fun acc x => if decide (k = x.1) then Some x.2 else acc) l acc = match last_val l k with Some v => Some v | None => acc end.
Proof.
  unfold last_val. induction l as [|x l IH]; intros acc; cbn [fold_left]; [done|]. rewrite IH, (IH (if decide _ then _ else _)).
  destruct (fold_left _ l None); [done|]. by case_decide.
Qed.

Lemma put_vals_eff l : forall c k w, eff (put_vals c l) k = Some w ->
  match last_val l k with Some v => w = MkFV v true | None => eff c k = Some w end.
Proof.
  induction l as [|[a v] l IH]; intros c k w E; [done|]. cbn [put_vals fold_left] in E. apply IH in E.
  unfold last_val. cbn [fold_left fst snd]. rewrite last_val_acc. destruct (last_val l k); [done|].
  apply put_eff in E as [[-> ->]|[Hne E]]; [by rewrite decide_True|by rewrite decide_False].
Qed.

Lemma put_vals_tags l : forall c, budget (put_vals c l) = budget c /\ half (put_vals c l) = half c /\ fheight (put_vals c l) = fheight c /\ fset (put_vals c l) = fset c.
Proof.
  induction l as [|x l IH]; intros c; [done|]. cbn [put_vals fold_left]. destruct (IH (put c x.1 (MkFV x.2 true))) as (E1 & E2 & E3 & E4).
  destruct (put_tags c x.1 (MkFV x.2 true)) as (F1 & F2 & F3 & F4). unfold put_vals in *. split_and!; congruence.
Qed.

(** ** The store as it grows *)

Definition grows (X Y : store) : Prop :=
  (forall k v, aChain X k = Some v -> aChain Y k = Some v) /\
  (forall p at_, at_ < aNextTx X -> last_write (aHist Y p) at_ = last_write (aHist X p) at_) /\ aNextTx X <= aNextTx Y.

#[global] Instance grows_pre : PreOrder grows.
Proof.
  split; [intros X; by split_and!|]. intros X Y Z (A1 & A2 & A3) (B1 & B2 & B3). split_and!; [auto| |lia].
  intros p at_ Hat. rewrite B2 by lia. by apply A2.
Qed.

(** The boundary slot of a stored block. *)
Definition ends_at (X : store) (h at_ : Z) : Prop :=
  exists first n, aChain X (famBlk, h) = Some (blk_row first n) /\ u64_ok first /\ 0 <= n < 2 ^ 32 /\ at_ = first + n.

Lemma blk_row_inj f n f' n' :
  u64_ok f -> u64_ok f' -> 0 <= n < 2 ^ 32 -> 0 <= n' < 2 ^ 32 -> blk_row f n = blk_row f' n' -> f = f' /\ n = n'.
Proof.
  intros Hf Hf' Hn Hn' E. unfold blk_row in E. apply app_inj_1 in E as [E1 E2]; [|by rewrite !length_be].
  apply be_inj in E1; [|unfold u64_ok in *; simpl; lia..]. apply be_inj in E2; [done|simpl; lia..].
Qed.

Lemma ends_unique X h a b : ends_at X h a -> ends_at X h b -> a = b.
Proof.
  intros (f & n & E & Hf & Hn & ->) (f' & n' & E' & Hf' & Hn' & ->). rewrite E in E'. apply (inj Some) in E'.
  apply blk_row_inj in E' as [-> ->]; done.
Qed.

Lemma ends_grows X Y h a : grows X Y -> ends_at X h a -> ends_at Y h a.
Proof. intros (Hc & _) (f & n & E & ?). exists f, n. split; [by apply Hc|done]. Qed.

Section Shown.
Context `{SSTLaws} (casName : bytes -> bytes) (Keccak256 : bytes -> bytes) (EncodeBare : bytes -> list bytes -> res bytes).
Hypothesis keccak_len : forall x, len (Keccak256 x) = 32.
Abbreviation nsteps := (steps casName Keccak256 EncodeBare).
Abbreviation seen := (moments casName Keccak256 EncodeBare).

Lemma later_hist base L L' p at_ l c :
  L = l ++ [c] -> later L L' -> tiled (base ++ L') -> Forall content_ok (base ++ L') -> at_ < cToTx c ->
  last_write (hist_at (base ++ L') p) at_ = last_write (hist_at (base ++ L) p) at_.
Proof.
  intros -> Hl Ht Ho Hat. pose proof (later_silent base (l ++ [c]) L' p at_ l c eq_refl Hl Ht Ho Hat) as Hs.
  rewrite <- (take_drop (length (l ++ [c])) L'), app_assoc, hist_at_silent by done.
  destruct Hl as [Hlen G]. destruct (G (length l) c) as (c' & Hc' & Hg & _); [by rewrite lookup_app_r, Nat.sub_diag by lia|].
  assert (Et : take (length (l ++ [c])) L' = l ++ [c']).
  { rewrite length_app. cbn. rewrite Nat.add_1_r. rewrite (take_S_r _ _ c') by done. f_equal.
    rewrite (later_prefix (l ++ [c]) L' (length l)); [by rewrite take_app_length|done|rewrite length_app; cbn; lia]. }
  rewrite Et, !app_assoc, !hist_at_snoc, !last_write_app. by rewrite (grew_latest p at_ c c' Hg Hat).
Qed.

Lemma later_grows d d' base cs L p cs' L' p' X :
  Inv d base cs L p -> Inv d' base cs' L' p' -> later L L' -> store_eq (store_of (base ++ L)) X -> grows X (store_of (base ++ L')).
Proof.
  intros HI HI' Hl (E1 & E2 & _ & _ & E5 & _).
  pose proof (Inv_content_ok _ _ _ _ _ HI') as Hok. pose proof HI' as (_ & _ & _ & _ & HL' & _ & _ & Ht & _).
  pose proof HI as (_ & _ & _ & _ & HL & _). destruct L as [|c l _] using rev_ind; [done|].
  assert (En : aNextTx X = cToTx c) by (rewrite <- E5, app_assoc; apply store_last). split_and!.
  - intros k v Hv. rewrite <- E1 in Hv. cbn [store_of aChain] in *. apply look_Some_In in Hv as (x & Hx & Hv).
    destruct (later_In base (l ++ [c]) L' x Hl Hx) as (x' & Hx' & Hg & _). apply (chain_unique _ x'); try done. by eapply lookup_weaken.
  - intros q at_ Hat. rewrite <- E2. cbn [store_of aHist]. apply (later_hist base (l ++ [c]) L' q at_ l c); try done. lia.
  - destruct L' as [|c' l' _] using rev_ind; [done|].
    rewrite app_assoc, (proj1 (store_last (base ++ l') c')), En. destruct Hl as [Hlen G].
    destruct (G (length l) c) as (c2 & Hc2 & (_ & _ & _ & _ & Hle) & _); [by rewrite lookup_app_r, Nat.sub_diag by lia|].
    rewrite !length_app in Hlen. cbn in Hlen. destruct (decide (length l < length l')%nat) as [Hlt|Hge].
    + rewrite lookup_app_l in Hc2 by lia. rewrite app_assoc in Ht, Hok.
      destruct (tiled_snoc_before (base ++ l') c' c2 Ht Hok) as (_ & ? & _); [apply elem_of_app; right; by eapply list_elem_of_lookup_2|].
      apply Forall_app in Hok as [_ Hok]. apply Forall_inv in Hok as (? & _). lia.
    + rewrite lookup_app_r in Hc2 by lia. replace (length l - length l')%nat with 0%nat in Hc2 by lia. injection Hc2 as <-. done.
Qed.

Lemma steps_grow d X d' : shows d X -> nsteps d d' -> exists Y, shows d' Y /\ grows X Y.
Proof.
  intros (base & cs & L & p & HI & HE) Hs.
  destruct (steps_inv casName Keccak256 EncodeBare keccak_len _ _ _ _ _ _ HI Hs) as (cs' & L' & p' & HI' & Hl & _).
  exists (store_of (base ++ L')). split; [by exists base, cs', L', p'|]. by apply (later_grows d d' base cs L p cs' L' p' X).
Qed.

Lemma step_grow d X e d' :
  shows d X -> step casName Keccak256 EncodeBare d e d' -> exists Y, shows d' Y /\ astep Keccak256 EncodeBare e X Y /\ grows X Y.
Proof.
  intros (base & cs & L & p & HI & HE) Hs.
  destruct (step_inv casName Keccak256 EncodeBare keccak_len _ _ _ _ _ _ _ HI Hs) as (cs' & L' & p' & HI' & Hl & _ & Ha).
  exists (store_of (base ++ L')). split_and!; [by exists base, cs', L', p'|by apply (astep_eq Keccak256 EncodeBare e _ X _ HE)|].
  apply (later_grows d d' base cs L p cs' L' p' X); done.
Qed.

Lemma tiled_adjacent l c z :
  tiled (l ++ [c]) -> Forall content_ok (l ++ [c]) -> z ∈ l -> cToH z = cFromH c -> cToTx z = cFromTx c.
Proof.
  intros Ht Ho Hz E. apply list_elem_of_split in Hz as (a & b & ->). pose proof Ht as Ht'. rewrite <- app_assoc in Ht'.
  apply tiled_app in Ht' as [_ Ht']. destruct b as [|y b]; cbn [app tiled] in Ht'; [by destruct Ht' as [(_ & ? & _) _]|].
  destruct Ht' as [(_ & _ & E2) _]. destruct (tiled_snoc_before _ c y Ht Ho ltac:(set_solver)) as ((_ & ?) & _ & ?). lia.
Qed.

(** The block rows of the database and the store's. *)
Lemma ends_range d X h at_ : shows d X -> u64_ok h ->
  (exists f n, BlockTxRange (fun _ => d) h = Ok (Some (f, n)) /\ at_ = f + n) <-> ends_at X h at_.
Proof.
  intros (base & cs & L & p & HI & (E1 & _)) Hh. destruct (live_ok _ _ _ _ _ HI) as (Ht & Hok & Hl). split.
  - intros (f & n & E & ->). destruct (range_inv d base cs L p h f n HI Hh E) as (z & first & Hz & Hr & (F1 & F2 & F3) & -> & En).
    destruct (F3 h Hr) as (n' & Hn' & En' & Er). assert (n' = n) as -> by lia. rewrite Forall_forall in Hok.
    destruct (first_mono z first (Hok z Hz) F1 F2 F3 h Hr). exists (first h), n. split_and!; try done; try lia; [|unfold u64_ok; lia..].
    rewrite <- E1. cbn [store_of aChain]. rewrite Hl. apply (chain_unique _ z); try done. by apply Forall_forall.
  - intros (f & n & E & Hf & Hn & ->). rewrite <- E1 in E. cbn [store_of aChain] in E. rewrite Hl in E. apply look_Some_In in E as (z & Hz & E).
    exists f, n. split; [|done]. by apply (range_row d base cs L p z).
Qed.

(** A boundary slot is below the next TxNum, and the head's is just below. *)
Lemma ends_below d X h at_ : shows d X -> u64_ok h -> ends_at X h at_ ->
  0 <= at_ < aNextTx X /\ h < aNextH X /\ (h + 1 = aNextH X -> at_ + 1 = aNextTx X).
Proof.
  intros Hsh Hh He. apply (ends_range d X h at_ Hsh Hh) in He as (f & n & E & ->).
  pose proof Hsh as (base & cs & L & p & HI & (_ & _ & _ & _ & E5 & E6)). destruct (live_ok _ _ _ _ _ HI) as (Ht & Hok & _).
  destruct (range_inv d base cs L p h f n HI Hh E) as (z & first & Hz & Hr & (F1 & F2 & F3) & -> & En).
  pose proof Hok as Ho. rewrite Forall_forall in Ho. pose proof (Ho z Hz) as Hzok. destruct (first_mono z first Hzok F1 F2 F3 h Hr).
  destruct (F3 h Hr) as (n' & Hn' & En' & _). assert (n' = n) as -> by lia.
  assert (Hstep : forall x y, cFromH z <= x -> x <= y -> y <= cToH z -> first x + (y - x) <= first y).
  { apply first_step. intros k Hk. destruct (F3 k Hk) as (m & ? & ? & _). eauto. }
  pose proof (Hstep (h + 1) (cToH z)) as Hnext.
  pose proof HI as (_ & _ & _ & _ & HL & Hf & _). destruct L as [|c l _] using rev_ind; [done|].
  rewrite length_app in HL. cbn in HL. rewrite drop_snoc in Ht, Hok, Hz by lia. rewrite app_assoc in Ht, Hok, Hz.
  rewrite <- E5, <- E6, app_assoc, (proj1 (store_last (base ++ l) c)), (proj2 (store_last (base ++ l) c)).
  apply elem_of_app in Hz as [Hz|Hz].
  - destruct (tiled_snoc_before _ _ _ Ht Hok Hz) as (_ & T1 & T2). pose proof Hok as Hok'. apply Forall_app in Hok as [_ Hok]. apply Forall_inv in Hok as (C1 & _ & C2 & _ & _ & _ & _ & (fc & G1 & G2 & _)).
    split_and!; try lia. intros Eh. assert (Ec : cFromH c = cToH c) by lia. rewrite Ec in G1. assert (h + 1 = cToH z) as Ez by lia.
    rewrite Ez in En. pose proof (tiled_adjacent _ c z Ht Hok' Hz ltac:(lia)). lia.
  - apply list_elem_of_singleton in Hz as ->. split_and!; try lia. intros Eh. rewrite Eh in En. lia.
Qed.

Lemma next_bounds d X p : shows d X ->
  0 <= aNextTx X < 2 ^ 63 /\ 0 <= aNextH X < 2 ^ 63 /\ Forall (fun x => x.1 < aNextTx X) (aHist X p).
Proof.
  intros (base & cs & L & q & HI & (_ & E2 & _ & _ & E5 & E6)). pose proof (Inv_content_ok _ _ _ _ _ HI) as Hok.
  pose proof HI as (_ & _ & _ & _ & HL & _ & _ & Ht & _). destruct L as [|c l _] using rev_ind; [done|].
  rewrite app_assoc in Ht, Hok. rewrite <- E2, <- E5, <- E6, app_assoc, (proj1 (store_last (base ++ l) c)), (proj2 (store_last (base ++ l) c)).
  pose proof Hok as Ho. apply Forall_app in Ho as [Hb Ho]. apply Forall_inv in Ho as (? & ? & ? & ? & _ & Hc & _).
  split_and!; try lia. cbn [store_of aHist]. apply Forall_forall. intros x Hx. apply hist_at_In in Hx as (z & Hz & Hx).
  apply elem_of_app in Hz as [Hz|Hz].
  - destruct (tiled_snoc_before _ _ _ Ht Hok Hz) as (_ & ? & _). rewrite Forall_forall in Hb. destruct (Hb z Hz) as (_ & _ & _ & _ & _ & Hz' & _).
    destruct (Hz' p) as [_ F]. rewrite Forall_forall in F. specialize (F x Hx). cbn in F. lia.
  - apply list_elem_of_singleton in Hz as ->. destruct (Hc p) as [_ F]. rewrite Forall_forall in F. specialize (F x Hx). cbn in F. lia.
Qed.

(** ** The cache is the state at its height *)

Definition answer (w : flatVal) : option bytes := if found w then Some (fval w) else None.

Definition flat_ok (X : store) (c : flatCache) : Prop :=
  (fset c = false -> forall k, eff c k = None) /\
  (fset c = true -> u64_ok (fheight c) /\ exists at_, ends_at X (fheight c) at_ /\
    forall k w, eff c k = Some w -> answer w = fst <$> last_write (aHist X k) at_).

Lemma flat_grows d X Y c : shows d X -> grows X Y -> flat_ok X c -> flat_ok Y c.
Proof.
  intros Hd Hg [H1 H2]. split; [done|]. intros Hs. destruct (H2 Hs) as (Hu & at_ & He & Hr). split; [done|]. exists at_.
  split; [by eapply ends_grows|]. intros k w Hw. rewrite (Hr k w Hw). destruct (ends_below d X _ _ Hd Hu He) as (? & _).
  destruct Hg as (_ & Hg & _). by rewrite Hg by lia.
Qed.

Lemma fill_ok d X Y c k h at_ v :
  shows d X -> grows X Y -> flat_ok Y c -> u64_ok h -> ends_at X h at_ -> v = fst <$> last_write (aHist X k) at_ ->
  flat_ok Y (fill c k (default [] v) (bool_decide (is_Some v)) h).
Proof.
  intros Hd Hg Hc Hu He Hv. unfold fill. destruct (budget c =? 0); [done|]. destruct (fset c) eqn:Es; [|done]. cbn [negb orb].
  destruct (Z.eqb_spec (fheight c) h) as [Eh|]; [|done]. cbn [negb]. destruct Hc as [_ H2]. destruct (H2 Es) as (_ & a2 & He2 & Hr).
  destruct (put_tags c k (MkFV (default [] v) (bool_decide (is_Some v)))) as (_ & _ & Th & Ts). split; [rewrite Ts; by rewrite Es|].
  intros _. rewrite Th, Eh in *. split; [done|]. exists a2. split; [done|]. intros k' w Hw.
  apply put_eff in Hw as [[-> ->]|[_ Hw]]; [|by apply Hr]. assert (a2 = at_) as ->.
  { apply (ends_unique Y h); [done|by eapply ends_grows]. }
  destruct (ends_below d X h at_ Hd Hu He) as (? & _). destruct Hg as (_ & Hg & _). rewrite Hg, <- Hv by lia. unfold answer. by destruct v.
Qed.

(** ** A block's writes *)

Lemma block_vals_srows t b : block_vals b = map (fun x : srow => (x.1.1, x.2)) (block_srows t b).
Proof.
  unfold block_vals, block_srows. rewrite !map_app. f_equal.
  - revert t. induction (Txs b) as [|x l IH]; intros t; [done|]. cbn [map concat tx_srows]. rewrite !map_app, (IH (t + 1)). f_equal.
    unfold rows_at. by rewrite map_map.
  - unfold rows_at. by rewrite map_map.
Qed.

Lemma last_put h n v : last (put_hist h n v) = Some (n, v).
Proof.
  unfold put_hist. destruct (last h) as [[t0 v0]|] eqn:El; [|by rewrite last_snoc]. destruct (Z.eqb_spec t0 n) as [->|]; by rewrite last_snoc.
Qed.

Lemma puts_last L p : forall h,
  match last_val (map (fun x : srow => (x.1.1, x.2)) L) p with
  | Some v => exists n, last (puts L p h) = Some (n, v)
  | None => puts L p h = h
  end.
Proof.
  unfold puts. induction L as [|x L IH]; intros h; [done|]. cbn [map fold_left]. unfold last_val. cbn [fold_left fst snd].
  rewrite last_val_acc. specialize (IH (if decide (p = x.1.1) then put_hist h x.1.2 x.2 else h)).
  destruct (last_val _ p) as [v|]; [done|]. rewrite IH. case_decide; [|done]. exists x.1.2. apply last_put.
Qed.

Lemma last_write_all h T : Forall (fun x => x.1 <= T) h -> last_write h T = (fun x => (x.2, x.1)) <$> last h.
Proof.
  intros Hf. unfold last_write. replace (not_after T h) with h; [by destruct (last h) as [[? ?]|]|].
  unfold not_after. symmetry. apply List.forallb_filter_id, forallb_forall. intros x Hx. apply Z.leb_le.
  rewrite Forall_forall in Hf. apply Hf. by apply list_elem_of_In.
Qed.

Lemma apply_ok d X d' Y c b :
  shows d X -> shows d' Y -> block_added Keccak256 EncodeBare b X Y -> grows X Y -> len (Txs b) < 2 ^ 32 -> u64_ok (Height b) ->
  Height b = aNextH X \/ aNextH X = 0 -> flat_ok X c -> flat_ok Y (apply c b).
Proof.
  intros Hd Hd' (B1 & B2 & _ & _ & _ & B6 & B7) Hg Hlen Hu Hh Hc. unfold apply. destruct (budget c =? 0); [by apply (flat_grows d X Y)|].
  set (c1 := if fset c && negb (Height b =? u64 (fheight c + 1)) then drop_all c else c). rewrite apply_vals.
  assert (Hend : ends_at Y (Height b) (aNextTx X + len (Txs b))).
  { exists (aNextTx X), (len (Txs b)). rewrite B1, block_rows_blk. pose proof (len_nonneg (Txs b)).
    destruct (next_bounds d X [] Hd) as (? & _). split_and!; try done; unfold u64_ok; lia. }
  split; [done|]. intros _. cbn [fheight at_height]. split; [done|]. exists (aNextTx X + len (Txs b)). split; [done|]. intros k w Hw.
  change (eff (at_height (put_vals c1 (block_vals b)) (Height b)) k) with (eff (put_vals c1 (block_vals b)) k) in Hw.
  apply put_vals_eff in Hw. rewrite (block_vals_srows (aNextTx X)) in Hw. pose proof (puts_last (block_srows (aNextTx X) b) k (aHist X k)) as Hp.
  rewrite B2. destruct (next_bounds d' Y k Hd') as (_ & _ & HY). rewrite B2 in HY.
  assert (HYle : Forall (fun x => x.1 <= aNextTx X + len (Txs b)) (puts (block_srows (aNextTx X) b) k (aHist X k))).
  { eapply Forall_impl; [exact HY|]. cbn. lia. }
  rewrite (last_write_all _ _ HYle). destruct (last_val _ k) as [v|].
  - destruct Hp as [n ->]. by rewrite Hw.
  - rewrite Hp. destruct Hc as [H1 H2]. subst c1. destruct (fset c) eqn:Es; cbn [andb] in Hw.
    2: { rewrite (H1 eq_refl k) in Hw. done. }
    destruct (Z.eqb_spec (Height b) (u64 (fheight c + 1))) as [Eh|]; cbn [negb] in Hw.
    2: { unfold eff, drop_all in Hw. cbn in Hw. by rewrite !lookup_empty in Hw. }
    destruct (H2 eq_refl) as (Hfu & at_ & He & Hr). rewrite (Hr k w Hw).
    destruct (ends_below d X _ _ Hd Hfu He) as (? & Hlt & Hnext). destruct (next_bounds d X k Hd) as (? & ? & HX).
    rewrite u64_small in Eh by (unfold u64_ok in *; lia).
    assert (Eat : at_ + 1 = aNextTx X) by (apply Hnext; unfold u64_ok in *; lia).
    rewrite last_write_all; [by destruct (last (aHist X k))|]. eapply Forall_impl; [exact HX|]. cbn. lia.
Qed.

Lemma shows_eq d X Y : shows d X -> store_eq X Y -> shows d Y.
Proof. intros (base & cs & L & p & HI & HE) E. exists base, cs, L, p. split; [done|]. by etransitivity. Qed.

(** The triggers cut the window or leave it. *)
Lemma MaybeFlush_shows d d' Y : shows d Y -> dfrozen d = None -> MaybeFlush d = Ok d' -> shows d' Y.
Proof.
  intros Hd Hf E. unfold MaybeFlush in E. apply rbind_Ok in E as (m & Em & E).
  destruct (negb (started (win m))); [by injection E as <-|].
  destruct ((u64 (nextTx (win m) - baseTx (win m)) <? flushTxs d) && (u64 (nextHeight (win m) - baseHeight (win m)) <? flushBlocks d)); [by injection E as <-|].
  destruct (step_grow d Y EvCut d' Hd) as (Y' & Hd' & Ha & _); [by apply step_cut|]. cbn in Ha. by eapply shows_eq, (symmetry Ha).
Qed.

(** A new block is at the store's next height, or the first of an empty store. *)
Lemma new_height d X m b m' :
  shows d X -> heap d !! dmem d = Some m -> writable EncodeBare m b -> add Keccak256 EncodeBare m b = Ok m' ->
  nextHeight (win m) <= Height b -> aNextH X <= Height b /\ (Height b = aNextH X \/ aNextH X = 0).
Proof.
  intros (base & cs & L & p & HI & (_ & _ & _ & _ & _ & E6)) Hm Hw E Hge.
  destruct (Inv_active _ _ _ _ _ _ HI Hm) as (l & c & -> & _ & Ho & _). rewrite <- E6, app_assoc, (proj2 (store_last (base ++ l) c)).
  destruct (add_open Keccak256 EncodeBare keccak_len m c b m' Ho Hw E Hge) as [_ Hh]. destruct Ho as [(_ & _ & _ & _ & Ew) _].
  rewrite Ew in Hge. cbn in Hge. split; [done|]. destruct Hh as [?|[_ ?]]; [by left|by right].
Qed.


Lemma stateRow_exact s X Y c0 c1 prefix height at_ :
  shows (s 0%nat) X -> seen s -> flat_ok X c0 -> u64_ok height -> ends_at X height at_ -> state_prefix prefix ->
  grows X Y -> flat_ok Y c1 ->
  exists c2, stateRow c0 s c1 prefix height at_ = Ok (fst <$> last_write (aHist X prefix) at_, c2) /\ flat_ok Y c2.
Proof.
  intros Hd Hm Hc0 Hu He Hp Hg Hc1. destruct (ends_below _ X height at_ Hd Hu He) as (Hat & _).
  assert (Hlat : latest s SecState prefix at_ = Ok (fst <$> last_write (aHist X prefix) at_)).
  { pose proof Hd as (base & cs & L & p & HI & (_ & E2 & _ & _ & E5 & _)). rewrite <- E5 in Hat. rewrite <- E2.
    apply (latest_read casName Keccak256 EncodeBare keccak_len s base cs L p); try done; lia. }
  unfold stateRow, get. rewrite Hlat. cbn [rbind].
  assert (Hmiss : exists c2, Ok (fst <$> last_write (aHist X prefix) at_, fill c1 prefix (default [] (fst <$> last_write (aHist X prefix) at_))
      (bool_decide (is_Some (fst <$> last_write (aHist X prefix) at_))) height) = Ok (fst <$> last_write (aHist X prefix) at_, c2) /\ flat_ok Y c2).
  { eexists. split; [done|]. by apply (fill_ok (s 0%nat) X Y c1 prefix height at_). }
  destruct (budget c0 =? 0); [exact Hmiss|]. destruct (fset c0) eqn:Es; cbn [negb orb]; [|exact Hmiss].
  destruct (Z.eqb_spec (fheight c0) height) as [Eh|]; cbn [negb]; [|exact Hmiss]. fold (eff c0 prefix).
  destruct (eff c0 prefix) as [w|] eqn:Ew; [|exact Hmiss]. exists c1. split; [|done].
  destruct Hc0 as [_ H2]. destruct (H2 Es) as (_ & a2 & He2 & Hr). rewrite Eh in He2. rewrite (ends_unique X height at_ a2 He He2).
  rewrite <- (Hr prefix w Ew). done.
Qed.

(** C30: a read through the cache is a read of the state. At a stored height,
    stateRow returns the last write of the key at or before the height's
    boundary slot (absent when the key was never written by then), whether the
    lookup hits or the descent answers beside any steps of the writer, the
    sealing goroutine and the merge; and the cache it may fill afterwards, by
    then of any later height, is still exact. *)
Theorem flat_read_exact s X Y c0 c1 prefix height at_ :
  shows (s 0%nat) X -> seen s -> flat_ok X c0 -> u64_ok height -> ends_at X height at_ -> state_prefix prefix ->
  grows X Y -> flat_ok Y c1 ->
  exists c2, stateRow c0 s c1 prefix height at_ = Ok (fst <$> last_write (aHist X prefix) at_, c2) /\ flat_ok Y c2.
Proof. by apply stateRow_exact. Qed.

End Shown.
(** ** The byte budget *)

Definition size (m : gmap bytes flatVal) : Z := map_fold (fun k v acc => flatEntryBytes k v + acc) 0 m.

Lemma flatEntryBytes_nonneg k v : 0 <= flatEntryBytes k v.
Proof. unfold flatEntryBytes. apply u64_range. Qed.

Lemma size_insert m k v : m !! k = None -> size (<[k := v]> m) = flatEntryBytes k v + size m.
Proof. intros Hk. unfold size. rewrite map_fold_insert_L; [done| |done]. intros. lia. Qed.

Lemma size_delete m k v : m !! k = Some v -> size m = flatEntryBytes k v + size (delete k m).
Proof. intros Hk. rewrite <- (insert_delete_id m k v Hk) at 1. apply size_insert. by rewrite lookup_delete_eq. Qed.

Lemma size_overwrite m k v : size (<[k := v]> m) = flatEntryBytes k v + size (delete k m).
Proof. rewrite <- insert_delete_eq. apply size_insert. by rewrite lookup_delete_eq. Qed.

Lemma size_nonneg m : 0 <= size m.
Proof.
  unfold size. apply (map_fold_weak_ind (fun acc _ => 0 <= acc)); [lia|]. intros k v acc m' _ Hm. pose proof (flatEntryBytes_nonneg k v). lia.
Qed.

(** The accounting: hot's bytes are exact and within half the budget, and the
    cold generation is one entry of at most [B] bytes past it. *)
Definition within (B : Z) (c : flatCache) : Prop :=
  0 <= budget c < 2 ^ 64 /\ half c = budget c / 2 /\ fbytes c = size (hot c) /\ size (hot c) <= half c /\ size (cold c) <= half c + B.

Lemma put_within B c k v : within B c -> flatEntryBytes k v <= B -> B < 2 ^ 63 -> within B (put c k v).
Proof.
  intros (H1 & H2 & H3 & H4 & H5) Hv HB. pose proof (flatEntryBytes_nonneg k v).
  assert (Hhalf : 0 <= half c < 2 ^ 63) by (rewrite H2; split; [apply Z.div_pos; lia|apply Z.div_lt_upper_bound; lia]).
  pose proof (size_nonneg (hot c)). pose proof (size_nonneg (delete k (hot c))).
  assert (Hb : match hot c !! k with Some old => u64 (fbytes c - flatEntryBytes k old) | None => fbytes c end = size (delete k (hot c)) /\
    size (delete k (hot c)) <= half c).
  { destruct (hot c !! k) as [old|] eqn:E.
    - pose proof (size_delete _ _ _ E) as Es. pose proof (flatEntryBytes_nonneg k old). rewrite H3, Es, u64_small by (unfold u64_ok; lia). split; lia.
    - by rewrite (delete_id _ _ E), H3. }
  destruct Hb as [Hb Hb2]. unfold put. rewrite Hb, u64_small by (unfold u64_ok; lia). pose proof (size_overwrite (hot c) k v) as Eo.
  destruct (Z.ltb_spec (half c) (size (delete k (hot c)) + flatEntryBytes k v)) as [Hlt|Hge].
  - unfold within. cbn [budget half hot cold fbytes]. unfold size at 1 2. rewrite map_fold_empty. split_and!; try done; lia.
  - unfold within. cbn [budget half hot cold fbytes]. split_and!; try done; lia.
Qed.

Lemma put_vals_within B l : forall c, within B c -> Forall (fun x => flatEntryBytes x.1 (MkFV x.2 true) <= B) l -> B < 2 ^ 63 -> within B (put_vals c l).
Proof.
  induction l as [|x l IH]; intros c Hc Hl HB; [done|]. apply Forall_cons in Hl as [Hx Hl]. cbn [put_vals fold_left].
  apply IH; [by apply put_within|done|done].
Qed.

(** the cache stays within its byte budget. From an empty cache on, after
    any adopt, fill and apply whose entries are accounted at no more than [B]
    bytes, the counter is exactly the hot generation's accounted bytes, at most
    half the budget, its 64-bit arithmetic never having wrapped, and the two
    generations together are at most the budget and one entry. *)
Theorem flat_within_budget B c b n prefix val fnd height :
  within B c -> B < 2 ^ 63 -> 0 <= n < 2 ^ 64 -> 0 <= B ->
  Forall (fun x => flatEntryBytes x.1 (MkFV x.2 true) <= B) (block_vals b) -> flatEntryBytes prefix (MkFV val fnd) <= B ->
  within B (newFlatCache n) /\ within B (adopt c height) /\ within B (fill c prefix val fnd height) /\ within B (apply c b) /\
  fbytes c <= budget c / 2 /\ size (hot c) + size (cold c) <= budget c + B.
Proof.
  intros Hc HB Hn HB0 Hb Hf. pose proof Hc as (H1 & H2 & H3 & H4 & H5). split_and!.
  - unfold within, newFlatCache. cbn. unfold size. rewrite map_fold_empty. pose proof (Z.div_pos n 2). split_and!; try done; lia.
  - unfold adopt. by destruct (budget c =? 0).
  - unfold fill. destruct (budget c =? 0); [done|]. destruct (negb (fset c) || negb (fheight c =? height)); [done|]. by apply put_within.
  - unfold apply. destruct (budget c =? 0); [done|]. rewrite apply_vals.
    enough (G : within B (put_vals (if fset c && negb (Height b =? u64 (fheight c + 1)) then drop_all c else c) (block_vals b))) by exact G.
    apply put_vals_within; try done. destruct (fset c && negb (Height b =? u64 (fheight c + 1))); [|done].
    unfold within, drop_all. cbn. unfold size. rewrite !map_fold_empty. pose proof (Z.div_pos (budget c) 2). split_and!; try done; lia.
  - lia.
  - pose proof (Z.mul_div_le (budget c) 2). lia.
Qed.

(** a cache budget is what the operator wrote or the program refuses to
    start. A variable that is set but is not a decimal 64-bit byte count is an
    error for each of the three caches, never a fallback; a byte count is the
    budget, 0 turning the cache off; unset, the flat cache takes an eighth of the
    container ceiling or the fixed default, the code cache a tenth of the flat
    one and the jump-destination cache an eighth of the code cache. *)
Theorem cache_budgets env file flat code :
  (env <> [] -> ParseUint10 env = None ->
    (exists e, flatCacheBytes env file = Err e) /\ (exists e, codeCacheBytes env flat = Err e) /\ (exists e, jumpDestCacheBytes env code = Err e)) /\
  (forall n, ParseUint10 env = Some n -> 0 <= n < 2 ^ 64 /\
    (exists w, flatCacheBytes env file = Ok (n, w) /\ codeCacheBytes env flat = Ok (n, w) /\ jumpDestCacheBytes env code = Ok (n, w))) /\
  (env = [] -> codeCacheBytes env flat = Ok (flat / 10, Tenth) /\ jumpDestCacheBytes env code = Ok (code / 8, EighthOfCode) /\
    exists n w, flatCacheBytes env file = Ok (n, w) /\ n = match containerMemoryLimit file with Some l => l / 8 | None => 2 ^ 30 end).
Proof.
  assert (G : forall b n m, 0 <= n < 2 ^ 64 -> parse_digits n b = Some m -> 0 <= m < 2 ^ 64).
  { induction b as [|c b IH]; intros n m Hn E; cbn [parse_digits] in E; [by injection E as <-|].
    destruct ((48 <=? c) && (c <=? 57)) eqn:Ed; [|done]. destruct (Z.ltb_spec (10 * n + (c - 48)) (2 ^ 64)); [|done].
    apply andb_prop in Ed as [Ed _]. apply Z.leb_le in Ed. eapply IH; [|exact E]. lia. }
  split_and!.
  - intros Hne Hp. unfold flatCacheBytes, codeCacheBytes, jumpDestCacheBytes. rewrite Hp. destruct env; [done|]. split_and!; eauto.
  - intros n Hp. split.
    + unfold ParseUint10 in Hp. destruct env; [done|]. by apply (G _ 0 n ltac:(lia) Hp).
    + unfold flatCacheBytes, codeCacheBytes, jumpDestCacheBytes. rewrite Hp. destruct env; [done|].
      destruct (Z.eqb_spec n 0) as [->|]; eexists; split_and!; reflexivity.
  - intros ->. split; [done|]. split; [done|]. cbn [flatCacheBytes]. destruct (containerMemoryLimit file); eauto.
Qed.

(** ** The trace of DBReads.v *)

Definition s_flat : flatCache := newFlatCache 4096.
Definition t1_flat : DB * flatCache := or_else (t0, s_flat) (WriteBlock sample_keccak sample_bare t0 s_flat (blk 0)).

Lemma new_flat_ok X n : flat_ok X (newFlatCache n).
Proof. split; [|done]. intros _ k. unfold eff. cbn. by rewrite !lookup_empty. Qed.

Lemma blk0_writable : writable sample_bare (fresh 0 0) (blk 0).
Proof.
  pose proof Window.sample_valid as Hv. pose proof MemRead.sample_small as Hs. rewrite Forall_forall in Hv. rewrite Forall_forall in Hs.
  assert (Hb : blk 0 ∈ sample_blocks) by (by left).
  split_and!; [by apply Hv|by apply Hs|by eexists|..]; by vm_compute.
Qed.


Lemma flat_read_exact_witness : exists X at_ c2,
  stateRow s_flat (fun _ => t1) s_flat (AccountPrefix (replicate 20 7)) 1 at_ = Ok (fst <$> last_write (aHist X (AccountPrefix (replicate 20 7))) at_, c2).
Proof.
  destruct sample_shows as (X1 & _ & _ & _ & H1 & (A1 & _) & _). exists X1, 2.
  destruct (flat_read_exact s_name sample_keccak sample_bare sample_keccak_len (fun _ => t1) X1 X1 s_flat s_flat (AccountPrefix (replicate 20 7)) 1 2)
    as (c2 & E & _).
  - exact H1.
  - intros i. apply rtc_refl.
  - apply new_flat_ok.
  - unfold u64_ok. lia.
  - exists 0, 2. split; [rewrite A1; vm_compute; reflexivity|]. unfold u64_ok. lia.
  - apply SpAccount. reflexivity.
  - reflexivity.
  - apply new_flat_ok.
  - exists c2. exact E.
Defined.

Lemma flat_within_budget_witness : within 512 (apply s_flat (blk 0)) /\ size (hot s_flat) + size (cold s_flat) <= budget s_flat + 512.
Proof.
  destruct (flat_within_budget 512 s_flat (blk 0) 4096 [1] [2] true 0) as (H1 & _ & _ & H2 & _ & H3); try lia.
  - unfold within. vm_compute. repeat split; congruence.
  - apply (bool_decide_unpack _). vm_compute. exact I.
  - vm_compute. congruence.
  - by split.
Defined.

Lemma cache_budgets_witness : exists w, flatCacheBytes (str "4096") None = Ok (4096, w) /\ codeCacheBytes (str "4096") 0 = Ok (4096, w) /\
  jumpDestCacheBytes (str "4096") 0 = Ok (4096, w).
Proof. apply (cache_budgets (str "4096") None 0 0). vm_compute. reflexivity. Defined.

End Flat.
