(* ===== verification/Open.v ===== *)
(** * store/db.go: opening a data directory

    [open] loads the manifest, opens its runs, finishes a cut a crash left behind
    (the frozen log is replayed and sealed, or dropped when a run already holds
    it) and replays the window log. The disk is what a crash can leave: the
    manifest (as its JSON decodes, absent before the first publish), the frozen
    log and the window log. Artifacts are found by name through the parameter
    [cas]. The theorem ties it to the running database of Refine.v: whatever the
    moment of the crash, what opens is the store with its last blocks missing. *)

From S2P Require Import Prelude Bytes Rows Ef Format Sha256 Container Memtable MemRecover MemRead Sst RunFile Postings Seal Window Growth KMerge DB Contents Merge Refine DBReads DBHeights Flat.
Import Format.

Module Open.
Import Memtable MemRecover MemRead RunFile Seal Window Growth DB Contents Merge Refine DBReads DBHeights Flat.

Record disk := MkDisk { kman : option Manifest; kfrozen : option bytes; kwindow : bytes }.

(** [loadManifest] *)
Definition loadManifest (m : option Manifest) : res Manifest :=
  match m with
  | None => Ok (MkMan StorageVersion [] [])
  | Some m =>
      if negb (mVersion m =? StorageVersion) then Err "store: manifest is another storage version"
      else let* _ := checkTiling m in Ok m
  end.

(** A manifest without a chain root takes the caller's, any other must match. *)
Definition root_manifest (root : bytes) (m : Manifest) : res Manifest :=
  if beqb (mChainRoot m) [] then Ok (MkMan (mVersion m) (hexName root) (mRuns m))
  else if beqb (mChainRoot m) (hexName root) then Ok m
  else Err "store: data dir holds another chain root".

Section Open.
Context `{SSTable} (casName : bytes -> bytes) (cas : bytes -> res bytes).

Fixpoint open_runs (refs : list RunRef) : res (list Run) :=
  match refs with
  | [] => Ok []
  | ref :: refs =>
      let* f := cas (rName ref) in
      let* r := OpenRun f in
      let* rs := open_runs refs in
      Ok (r :: rs)
  end.

(** The frozen log: the database with the cut finished, and where the window
    starts. A reader leaves a started window frozen. *)
Definition open_frozen (d : DB) (log : option bytes) (ro : bool) : res (DB * (Z * Z)) :=
  let base := (flushedTx d, flushedHeight d) in
  match log with
  | None => Ok (d, base)
  | Some log =>
      let* fm := recover (newMemtableAt log ro) base.1 base.2 in
      let w := win fm in
      if started w then
        let* mem := obj d (dmem d) in
        let d := with_mems d [fm; mem] 1 (Some 0%nat) in
        let* d := if ro then Ok d else seal casName d 0 in
        Ok (d, (nextTx w, nextHeight w))
      else Ok (d, base)
  end.

Definition open (k : disk) (root : bytes) (ro : bool) (env : bytes * bytes * bytes) (cgroup : option bytes) : res (DB * flatCache) :=
  let* man := loadManifest (kman k) in
  let* man := root_manifest root man in
  let mem := newMemtableAt (kwindow k) ro in
  let* (budget, _) := flatCacheBytes env.1.1 cgroup in
  let* (codeBudget, _) := codeCacheBytes env.1.2 budget in
  let* _ := jumpDestCacheBytes env.2 codeBudget in
  let* runs := open_runs (mRuns man) in
  let d := MkDB root [mem] 0 None man runs None FlushTxs FlushBlocks TerminalTxs in
  let* (d, base) := open_frozen d (kfrozen k) ro in
  let* mem := obj d (dmem d) in
  let* mem := recover mem base.1 base.2 in
  let d := with_heap d (<[dmem d := mem]> (heap d)) in
  let* h := Head (fun _ => d) in
  let flat := newFlatCache budget in
  Ok (d, match h with Some h => adopt flat h | None => flat end).

End Open.

(** ** Windows and the blocks they were built from *)

Section Recovers.
Context `{SSTLaws} (casName : bytes -> bytes) (Keccak256 : bytes -> bytes) (EncodeBare : bytes -> list bytes -> res bytes).
Hypothesis keccak_len : forall x, len (Keccak256 x) = 32.

(** Folding blocks into a window, with what it then holds. *)
Inductive builds : memtable -> content -> list BlockWrite -> memtable -> content -> Prop :=
| builds_nil m c : builds m c [] m c
| builds_cons m c b m1 bs m2 c2 : block_ok b -> writable EncodeBare m b -> nextHeight (win m) <= Height b ->
    add Keccak256 EncodeBare m b = Ok m1 -> builds m1 (grown c b m1) bs m2 c2 -> builds m c (b :: bs) m2 c2.

(** [m] holding [c] is what the blocks make of a window parked at a TxNum and a
    height. *)
Definition built (bt bh : Z) (bs : list BlockWrite) (m : memtable) (c : content) : Prop :=
  0 <= bt < 2 ^ 63 /\ 0 <= bh < 2 ^ 63 /\ builds (fresh bt bh) (empty_content bt bh) bs m c.

Lemma builds_app m c bs bs' m2 c2 :
  builds m c (bs ++ bs') m2 c2 <-> exists m1 c1, builds m c bs m1 c1 /\ builds m1 c1 bs' m2 c2.
Proof.
  revert m c. induction bs as [|b bs IH]; intros m c; cbn [app]; split.
  - intros Hb. exists m, c. split; [constructor|done].
  - intros (m1 & c1 & H1 & H2). by inv H1.
  - intros Hb. inv Hb as [|? ? ? m0 ? ? ? H1 H2 H3 H4 H5]. apply IH in H5 as (m1 & c1 & H5 & H6). exists m1, c1. split; [by econstructor|done].
  - intros (m1 & c1 & H1 & H2). inv H1. econstructor; [done..|]. apply IH. eauto.
Qed.

Lemma builds_snoc m c bs m1 c1 b m2 :
  builds m c bs m1 c1 -> block_ok b -> writable EncodeBare m1 b -> nextHeight (win m1) <= Height b -> add Keccak256 EncodeBare m1 b = Ok m2 ->
  builds m c (bs ++ [b]) m2 (grown c1 b m2).
Proof. intros H1 H2 H3 H4 H5. apply builds_app. exists m1, c1. split; [done|]. econstructor; try done. constructor. Qed.

Lemma builds_open m c bs m' c' : builds m c bs m' c' -> obj_open m c ->
  obj_open m' c' /\ cFromTx c' = cFromTx c /\ cToH c <= cToH c' /\ Forall (fun b => Height b < cToH c') bs.
Proof.
  induction 1 as [m c|m c b m1 bs m2 c2 _ Hw Hge E _ IH]; intros Ho; [split_and!; [done|done|lia|constructor]|].
  destruct (add_open Keccak256 EncodeBare keccak_len m c b m1 Ho Hw E Hge) as [Ho1 _].
  destruct (IH Ho1) as (I1 & I2 & I3 & I4). cbn [grown cFromTx cToH] in I2, I3.
  destruct Ho as [(_ & _ & _ & _ & Ew) _]. rewrite Ew in Hge. cbn in Hge. split_and!; [done|done|lia|]. constructor; [lia|done].
Qed.

Lemma builds_adds m c bs m' c' : builds m c bs m' c' -> add_all Keccak256 EncodeBare m bs = Ok m' /\ Forall block_ok bs.
Proof. induction 1 as [|m c b m1 bs m2 c2 Hb _ _ E _ [IH F]]; [done|]. cbn [add_all]. rewrite E. split; [done|by constructor]. Qed.

Lemma built_open bt bh bs m c : built bt bh bs m c ->
  obj_open m c /\ cFromTx c = bt /\ bh <= cToH c /\ Forall (fun b => Height b < cToH c) bs.
Proof. intros (H1 & H2 & Hb). by apply (builds_open _ _ _ _ _ Hb), fresh_open. Qed.

Lemma built_snoc bt bh bs m c b m' :
  built bt bh bs m c -> block_ok b -> writable EncodeBare m b -> nextHeight (win m) <= Height b -> add Keccak256 EncodeBare m b = Ok m' ->
  built bt bh (bs ++ [b]) m' (grown c b m').
Proof. intros (B1 & B2 & B3) Hb Hw Hge E. split; [done|]. split; [done|]. by apply builds_snoc with m. Qed.

(** ** What a crash and a recovery need of the running database *)

Definition window_at (d : DB) (L : list content) (i : nat) (bt bh : Z) : Prop :=
  exists m c bs, heap d !! i = Some m /\ L !! i = Some c /\ built bt bh bs m c.

(** The manifest is this version's and this chain's, and names are hashes. The
    oldest unpublished window was parked where the runs end, the one after it
    where that one ends, and a published window's log is below the runs' end. *)
Definition logged (d : DB) (L : list content) (p : nat) : Prop :=
  mVersion (man d) = StorageVersion /\ mChainRoot (man d) = hexName (chainRoot d) /\
  Forall (fun r => exists h, decodeRoot (rName r) = Ok h) (mRuns (man d)) /\
  window_at d L p (flushedTx d) (flushedHeight d) /\
  (dfrozen d = Some p -> exists c, L !! p = Some c /\ window_at d L (S p) (cToTx c) (cToH c)) /\
  (forall i m, (i < p)%nat -> heap d !! i = Some m ->
    exists bt bh bs m0 c0, built bt bh bs m0 c0 /\ mlog m0 = mlog m /\ cToH c0 <= flushedHeight d).

Lemma Inv_flushed d base cs L p c :
  Inv d base cs L p -> mRuns (man d) <> [] -> L !! p = Some c -> flushedTx d = cFromTx c /\ flushedHeight d = cFromH c.
Proof.
  intros (Hrun & Href & _ & _ & _ & _ & _ & _ & _ & Hlive & _) Hne Hc. pose proof (serves_ok _ _ Hrun) as Hok. rewrite (drop_S L c p Hc) in Hlive.
  destruct (mRuns (man d)) as [|r rs _] eqn:Er using rev_ind; [done|]. apply Forall2_app_inv_l in Href as (cs1 & cs2 & _ & Hr & ->).
  inv Hr as [|? z ? ? Hz Hnil]. inv Hnil. unfold flushedTx, flushedHeight. rewrite Er, last_snoc. rewrite <- app_assoc in Hlive. cbn [app] in Hlive.
  apply tiled_app in Hlive as [_ Hlive]. destruct Hlive as [((Hn1 & Hn2) & -> & ->) _]. destruct Hz as (_ & -> & _ & Ez). split; [done|].
  rewrite Ez. apply u64_small. apply Forall_app in Hok as [_ Hok]. apply Forall_inv in Hok as (_ & _ & ? & ? & _). unfold u64_ok. lia.
Qed.

Lemma window_kept d d' L L' i bt bh :
  heap d' !! i = heap d !! i -> L' !! i = L !! i -> window_at d L i bt bh -> window_at d' L' i bt bh.
Proof. intros E1 E2 (m & c & bs & ? & ? & ?). exists m, c, bs. by rewrite E1, E2. Qed.

(** A block written to the active window. *)
Lemma window_grows d l c i b m m' bt bh :
  i = dmem d -> length l = dmem d -> heap d !! dmem d = Some m -> window_at d (l ++ [c]) i bt bh ->
  block_ok b -> writable EncodeBare m b -> nextHeight (win m) <= Height b -> add Keccak256 EncodeBare m b = Ok m' ->
  window_at (with_heap d (<[dmem d := m']> (heap d))) (l ++ [grown c b m']) i bt bh.
Proof.
  intros -> Hl Hm (m0 & c0 & bs & Hm0 & Hc0 & HB) Hb Hw Hge E. rewrite Hm in Hm0. injection Hm0 as <-.
  rewrite lookup_app_r, Hl, Nat.sub_diag in Hc0 by lia. injection Hc0 as <-.
  exists m', (grown c b m'), (bs ++ [b]). cbn [with_heap heap]. split; [|split; [|by apply built_snoc with m]].
  - apply list_lookup_insert_eq. by eapply lookup_lt_Some.
  - by rewrite lookup_app_r, Hl, Nat.sub_diag by lia.
Qed.

Lemma logged_write d base cs L p b m m' :
  Inv d base cs L p -> logged d L p -> heap d !! dmem d = Some m -> writable EncodeBare m b -> add Keccak256 EncodeBare m b = Ok m' -> block_ok b ->
  exists L', Inv (with_heap d (<[dmem d := m']> (heap d))) base cs L' p /\
    astep Keccak256 EncodeBare (EvWrite b) (store_of (base ++ L)) (store_of (base ++ L')) /\
    logged (with_heap d (<[dmem d := m']> (heap d))) L' p /\
    (nextHeight (win m) <= Height b -> exists l c, L = l ++ [c] /\ L' = l ++ [grown c b m']).
Proof.
  intros HI (G1 & G2 & G3 & G4 & G5 & G6) Hm Hw E Hb.
  destruct (inv_write Keccak256 EncodeBare keccak_len _ _ _ _ _ _ _ _ HI Hm Hw E) as (L' & HI' & _ & Ha & Hcase).
  exists L'. split; [done|]. split; [done|]. destruct Hcase as [(-> & -> & Hlt)|(Hge & l & c & -> & ->)].
  { rewrite list_insert_id by done. split; [by destruct d|lia]. }
  split; [|eauto]. pose proof HI as (_ & _ & _ & _ & HL & Hf & _). rewrite length_app in HL. cbn in HL.
  assert (Hl : length l = dmem d) by lia. unfold logged. cbn [with_heap man chainRoot dfrozen heap].
  change (flushedTx (with_heap d _)) with (flushedTx d). change (flushedHeight (with_heap d _)) with (flushedHeight d).
  split_and!; try done.
  - destruct Hf as [[_ Hp]|[_ Hp]]; [by apply (window_grows d l c p b m m')|]. revert G4. apply window_kept; cbn [with_heap heap].
    + apply list_lookup_insert_ne. lia.
    + by rewrite !lookup_app_l by lia.
  - intros Hfz. destruct (G5 Hfz) as (z & Hz & G). destruct Hf as [[? _]|[_ Hp]]; [congruence|]. exists z. split.
    + by rewrite lookup_app_l in Hz |- * by lia.
    + by apply (window_grows d l c (S p) b m m').
  - intros i m0 Hi Hm0. rewrite list_lookup_insert_ne in Hm0 by lia. by apply (G6 i).
Qed.

Lemma logged_cut d base cs L p d' :
  Inv d base cs L p -> logged d L p -> dfrozen d = None -> cutWindow d = Ok d' ->
  exists L', Inv d' base cs L' p /\ astep Keccak256 EncodeBare EvCut (store_of (base ++ L)) (store_of (base ++ L')) /\ logged d' L' p.
Proof.
  intros HI HG Hf E. pose proof HG as (G1 & G2 & G3 & G4 & G5 & G6).
  destruct (inv_cut Keccak256 EncodeBare _ _ _ _ _ _ HI Hf E) as (L' & HI' & _ & Ha & Hcase).
  exists L'. split; [done|]. split; [done|]. destruct Hcase as [(-> & ->)|(l & c & -> & -> & ->)]; [done|].
  pose proof HI as (_ & _ & Hobj & _ & HL & Hfz & _). rewrite length_app in HL. cbn in HL. pose proof (Forall2_length _ _ _ Hobj) as Hlen.
  rewrite length_app in Hlen. cbn in Hlen. assert (p = dmem d) as -> by (destruct Hfz as [[_ ?]|[? _]]; [done|congruence]).
  pose proof (Inv_content_ok _ _ _ _ _ HI) as Hok. apply Forall_app in Hok as [_ Hok]. apply Forall_app in Hok as [_ Hok].
  apply Forall_inv in Hok as (? & ? & ? & ? & _). set (d' := with_mems _ _ _ _).
  assert (Hk : forall i, (i <= dmem d)%nat -> heap d' !! i = heap d !! i) by (intros i Hi; cbn; by rewrite lookup_app_l by lia).
  unfold logged. cbn [d' with_mems man chainRoot dfrozen].
  change (flushedTx d') with (flushedTx d). change (flushedHeight d') with (flushedHeight d). split_and!; try done.
  - revert G4. apply window_kept; [by apply Hk|]. by rewrite (lookup_app_l _ [empty_content _ _]) by (rewrite length_app; cbn; lia).
  - intros _. exists c. split; [rewrite <- app_assoc, lookup_app_r by lia; by replace (dmem d - length l)%nat with 0%nat by lia|].
    exists (fresh (cToTx c) (cToH c)), (empty_content (cToTx c) (cToH c)), []. split_and!.
    + cbn. rewrite lookup_app_r by lia. by replace (S (dmem d) - length (heap d))%nat with 0%nat by lia.
    + rewrite lookup_app_r by (rewrite length_app; cbn; lia). rewrite length_app. cbn. by replace (S (dmem d) - (length l + 1))%nat with 0%nat by lia.
    + split_and!; [lia..|constructor].
  - intros i m0 Hi Hm0. rewrite Hk in Hm0 by lia. by apply (G6 i).
Qed.

Hypothesis casName_hex : forall b, exists h, decodeRoot (casName b) = Ok h.

(** The manifest entry of a sealed window. *)
Lemma seal_run_ref prev m ref run : seal_run casName prev m = Ok (ref, run) ->
  rToTx ref = nextTx (win m) /\ rToHeight ref = u64 (nextHeight (win m) - 1) /\ exists h, decodeRoot (rName ref) = Ok h.
Proof.
  unfold seal_run. intros E. apply rbind_Ok in E as (rw & _ & E). apply rbind_Ok in E as (r & _ & E). injection E as <- _. cbn. by split_and!.
Qed.

Lemma logged_publish d base cs L p m prev ref run :
  Inv d base cs L p -> logged d L p -> dfrozen d = Some p -> heap d !! p = Some m -> seal_run casName prev m = Ok (ref, run) ->
  logged (publish d ref run) L (S p).
Proof.
  intros HI (G1 & G2 & G3 & G4 & G5 & G6) Hf Hm E. destruct (seal_run_ref _ _ _ _ E) as (E1 & E2 & E3).
  destruct G4 as (m0 & c & bs & Hm0 & Hc & HB). rewrite Hm in Hm0. injection Hm0 as <-. destruct (G5 Hf) as (c' & Hc' & G).
  rewrite Hc in Hc'. injection Hc' as <-. destruct (built_open _ _ _ _ _ HB) as ([(Hok & _ & _ & _ & Ew) _] & _ & Hge & _).
  pose proof Hok as (? & ? & ? & ? & _). rewrite Ew in E1, E2. cbn in E1, E2.
  assert (Hne : 0 < cToH c).
  { pose proof HI as (_ & _ & _ & _ & HL & Hfz & _ & Ht & _). destruct Hfz as [[? _]|[_ Hd]]; [congruence|].
    destruct (lookup_lt_is_Some_2 L (S p) ltac:(lia)) as [c2 Hc2]. apply tiled_app in Ht as [_ Ht]. rewrite <- (take_drop p L) in Ht.
    apply tiled_app in Ht as [_ Ht]. rewrite (drop_S L c p Hc), (drop_S L c2 (S p) Hc2) in Ht. destruct Ht as [((_ & ?) & _) _]. lia. }
  rewrite u64_small in E2 by (unfold u64_ok; lia).
  assert (F1 : flushedTx (publish d ref run) = cToTx c) by (unfold flushedTx; cbn; by rewrite last_snoc).
  assert (F2 : flushedHeight (publish d ref run) = cToH c).
  { unfold flushedHeight. cbn. rewrite last_snoc, E2. rewrite u64_small by (unfold u64_ok; lia). lia. }
  unfold logged. rewrite F1, F2. cbn [publish with_runs man mVersion mChainRoot mRuns chainRoot dfrozen heap]. split_and!; try done.
  - apply Forall_app. split; [done|]. by constructor.
  - intros i m0 Hi Hm0. destruct (decide (i = p)) as [->|Hne'].
    + rewrite Hm in Hm0. injection Hm0 as <-. exists (flushedTx d), (flushedHeight d), bs, m, c. split_and!; try done; lia.
    + destruct (G6 i m0 ltac:(lia) Hm0) as (bt & bh & bs0 & m1 & c0 & ? & ? & ?). exists bt, bh, bs0, m1, c0. split_and!; try done; lia.
Qed.

Lemma logged_remove d L p id m :
  logged d L p -> (id < p)%nat -> heap d !! id = Some m -> logged (with_heap d (<[id := mem_remove m]> (heap d))) L p.
Proof.
  intros (G1 & G2 & G3 & G4 & G5 & G6) Hid Hm. unfold logged. cbn [with_heap man chainRoot dfrozen heap].
  change (flushedTx (with_heap d _)) with (flushedTx d). change (flushedHeight (with_heap d _)) with (flushedHeight d).
  assert (Hk : forall i, (p <= i)%nat -> heap (with_heap d (<[id := mem_remove m]> (heap d))) !! i = heap d !! i)
    by (intros i Hi; cbn; apply list_lookup_insert_ne; lia).
  split_and!; try done.
  - revert G4. by apply window_kept; [apply Hk|].
  - intros Hf. destruct (G5 Hf) as (c & Hc & G). exists c. split; [done|]. revert G. apply window_kept; [apply Hk; lia|done].
  - intros i m0 Hi Hm0. destruct (decide (i = id)) as [->|Hne].
    + rewrite list_lookup_insert_eq in Hm0 by (by eapply lookup_lt_Some). injection Hm0 as <-. cbn. by apply (G6 id).
    + rewrite list_lookup_insert_ne in Hm0 by done. by apply (G6 i).
Qed.

Lemma logged_merging d L p j : logged d L p -> logged (with_merging d j) L p.
Proof. done. Qed.

Lemma MaybeMerge_merging d : exists j, MaybeMerge d = with_merging d j.
Proof.
  unfold MaybeMerge. destruct (merging d) eqn:E; [exists (merging d); by destruct d|].
  destruct (mergeSpanLocked d) as [[a e]|]; [by eexists|]. exists None. destruct d. cbn in *. by subst.
Qed.

Lemma merge_build_name fuel prev refs inputs ref merged :
  merge_build casName fuel prev refs inputs = Ok (ref, merged) -> exists h, decodeRoot (rName ref) = Ok h.
Proof.
  unfold merge_build. destruct refs as [|from refs]; [done|]. destruct (last (from :: refs)); [|done]. destruct (negb _); [done|]. intros E.
  apply rbind_Ok in E as ([? ?] & _ & E). apply rbind_Ok in E as ([? ?] & _ & E). apply rbind_Ok in E as ([? ?] & _ & E).
  apply rbind_Ok in E as (? & _ & E). apply rbind_Ok in E as (? & _ & E). injection E as <- _. apply casName_hex.
Qed.

Lemma logged_swap d base cs cs' L p start e refs ref merged d' :
  Inv d base cs L p -> logged d L p -> mRuns (man d) <> [] -> (exists h, decodeRoot (rName ref) = Ok h) ->
  merge_swap d start e refs ref merged = Ok d' -> Inv (with_merging d' None) base cs' L p -> logged (with_merging d' None) L p.
Proof.
  intros HI (G1 & G2 & G3 & G4 & G5 & G6) Hne Hn E HI'. pose proof G4 as (m & c & bs & _ & Hc & _).
  unfold merge_swap in E. destruct (_ || _); [done|]. injection E as <-.
  destruct (Inv_flushed _ _ _ _ _ c HI Hne Hc) as [F1 F2].
  destruct (Inv_flushed _ _ _ _ _ c HI') as [F1' F2']; [cbn; unfold splice; by destruct (take start _)|done|].
  unfold logged. rewrite F1', F2'. rewrite F1, F2 in *. cbn [with_merging with_runs man mVersion mChainRoot mRuns chainRoot dfrozen heap].
  split_and!; try done. unfold splice. apply Forall_app. split; [by apply Forall_take|]. constructor; [done|by apply Forall_drop].
Qed.

(** Every step keeps what a recovery needs. *)
Lemma step_logged d e d' base cs L p :
  Inv d base cs L p -> logged d L p -> step casName Keccak256 EncodeBare d e d' -> (forall b, e = EvWrite b -> block_ok b) ->
  exists cs' L' p', Inv d' base cs' L' p' /\ logged d' L' p' /\
    astep Keccak256 EncodeBare e (store_of (base ++ L)) (store_of (base ++ L')).
Proof.
  intros HI HG Hs Hb. destruct Hs as [d b m m' Hm Hw E|d d' Hf E|d id m prev ref run Hf Hm Hp Hfit E|d id m Hlt Hnf Hm|d|d j inp Hj Hji E|
    d j refs inputs prev ref merged d' Hj Hji Hfit HN E].
  - destruct (logged_write _ _ _ _ _ _ _ _ HI HG Hm Hw E (Hb b eq_refl)) as (L' & H1 & H2 & H3 & _). by exists cs, L', p.
  - destruct (logged_cut _ _ _ _ _ _ HI HG Hf E) as (L' & H1 & H2 & H3). by exists cs, L', p.
  - destruct (inv_publish casName _ _ _ _ _ _ _ _ _ _ HI Hf Hm Hp Hfit E) as (c & _ & H1). exists (cs ++ [c]), L, (S p).
    pose proof HI as (_ & _ & _ & _ & _ & Hfz & _). assert (id = p) as -> by (destruct Hfz as [[? _]|[? _]]; congruence).
    split_and!; [done|by eapply logged_publish|done].
  - exists cs, L, p. pose proof HI as (_ & _ & _ & _ & _ & Hfz & _). split_and!; [by apply inv_remove| |done]. apply logged_remove; [done| |done].
    destruct Hfz as [[_ Hz]|[Hz Hz']]; [lia|]. assert (id <> p) by congruence. lia.
  - exists cs, L, p. split_and!; [by apply inv_merge_start| |done]. destruct (MaybeMerge_merging d) as [j ->]. by apply logged_merging.
  - exists cs, L, p. split_and!; [by apply inv_merge_read|by apply logged_merging|done].
  - destruct (inv_merge_swap casName _ _ _ _ _ _ _ _ _ _ _ _ HI Hj Hji Hfit HN E) as (cs' & H1). exists cs', L, p. split_and!; [done| |done].
    destruct HN as [N HN]. specialize (HN N ltac:(lia)). apply merge_build_name in HN.
    refine (logged_swap _ _ _ _ _ _ _ _ _ _ _ _ HI HG _ HN E H1). pose proof HI as (Hr & Href & _ & _ & _ & _ & _ & _ & _ & _ & _ & Hmg).
    rewrite Hj in Hmg. destruct Hmg as (J1 & J2 & _). pose proof (Forall2_length _ _ _ Hr). pose proof (Forall2_length _ _ _ Href).
    destruct (mRuns (man d)); [cbn in *; lia|done].
Qed.

(** ** The database a directory opens to *)

(** The invariant of a database that has just been put together: what its runs
    hold is what it starts from. *)
Lemma Inv_restart d cs hs Ls a f mn x y z :
  Forall2 run_serves (ver d) cs -> Forall2 ref_of (mRuns mn) cs -> Forall2 obj_open hs Ls -> tiled (cs ++ Ls) -> len (chainRoot d) = 32 ->
  length Ls = S a -> f = None /\ a = 0%nat \/ f = Some 0%nat /\ a = 1%nat ->
  Inv (MkDB (chainRoot d) hs a f mn (ver d) None x y z) cs cs Ls 0.
Proof.
  intros Hr Href Hobj Ht Hroot HL Hf. unfold Inv, merge_ok. cbn [ver man heap dmem dfrozen chainRoot merging]. split_and!; try done.
  - eapply Forall2_impl; [exact Hobj|]. intros m c Hmc. by left.
  - intros i m c Hm Hc _. by apply (Forall2_lookup_lr _ _ _ i m c Hobj).
  - destruct Hf as [[-> ->]|[-> ->]]; [by left|by right].
  - cbn [take]. by rewrite app_nil_r.
  - by eapply serves_ok.
Qed.

(** The live runs and the unpublished windows are the whole store. *)
Lemma live_store d base cs L p : Inv d base cs L p -> store_eq (store_of (cs ++ drop p L)) (store_of (base ++ L)).
Proof.
  intros (_ & _ & _ & _ & HL & Hf & (S1 & S2 & S3 & S4) & _). rewrite <- (take_drop p L) at 2. rewrite app_assoc.
  destruct (drop p L) as [|c l _] eqn:Ed using rev_ind.
  { apply (f_equal length) in Ed. rewrite length_drop in Ed. cbn in Ed. lia. }
  rewrite !(app_assoc _ l [c]). unfold store_eq. destruct (store_last (cs ++ l) c) as [-> ->], (store_last ((base ++ take p L) ++ l) c) as [-> ->].
  rewrite <- !app_assoc. cbn [store_of aChain aHist aNum aCode].
  split_and!; try done; intros k; rewrite ?(look_app _ cs), ?(hist_at_app cs), (app_assoc base), ?(look_app _ (base ++ _)), ?(hist_at_app (base ++ _)).
  - by rewrite S1.
  - by rewrite S2.
  - by rewrite S3.
  - by rewrite S4.
Qed.

(** The blocks between two stores. *)
Fixpoint blocks_added (bs : list BlockWrite) (X Y : store) : Prop :=
  match bs with
  | [] => store_eq X Y
  | b :: bs => exists Z, block_added Keccak256 EncodeBare b X Z /\ blocks_added bs Z Y
  end.

Lemma blocks_added_eq bs X Y Y' : blocks_added bs X Y -> store_eq Y Y' -> blocks_added bs X Y'.
Proof.
  revert X. induction bs as [|b bs IH]; intros X; cbn [blocks_added]; [by intros -> ->|]. intros (Z & HZ & Hb) E. exists Z. split; [done|by apply IH].
Qed.

Lemma builds_added d base cs l p m c bs m' c' :
  builds m c bs m' c' -> Inv d base cs (l ++ [c]) p -> heap d !! dmem d = Some m -> 
  blocks_added bs (store_of (base ++ l ++ [c])) (store_of (base ++ l ++ [c'])).
Proof.
  intros Hb. revert d. induction Hb as [m c|m c b m1 bs m2 c2 _ Hw Hge E _ IH]; intros d HI Hm; cbn [blocks_added]; [done|].
  destruct (inv_write Keccak256 EncodeBare keccak_len _ _ _ _ _ _ _ _ HI Hm Hw E) as (L' & HI' & _ & Ha & Hcase).
  destruct Hcase as [(_ & _ & ?)|(_ & l' & c' & El & ->)]; [lia|]. apply app_inj_2 in El as [<- [= <-]]; [|done].
  exists (store_of (base ++ l ++ [grown c b m1])). split.
  - cbn [astep] in Ha. destruct (Inv_active _ _ _ _ _ _ HI Hm) as (l0 & c0 & El & _ & [(_ & _ & _ & _ & Ew) _] & _).
    apply app_inj_2 in El as [<- [= <-]]; [|done]. rewrite Ew in Hge. cbn in Hge.
    rewrite app_assoc, (proj2 (store_last (base ++ l) c)), <- app_assoc in Ha. by rewrite (proj2 (Z.ltb_ge _ _)) in Ha by lia.
  - apply (IH _ HI'). cbn. apply list_lookup_insert_eq. by eapply lookup_lt_Some.
Qed.

(** A window that comes back shorter starts where it did. *)
Lemma builds_from m c bs m' c' : builds m c bs m' c' -> obj_open m c -> 0 < cToH c -> cFromH c' = cFromH c.
Proof.
  induction 1 as [|m c b m1 bs m2 c2 _ Hw Hge E Hb IH]; intros Ho Hp; [done|].
  destruct (add_open Keccak256 EncodeBare keccak_len m c b m1 Ho Hw E Hge) as [Ho1 Hh].
  destruct Ho as [((_ & _ & Hr & _) & _ & _ & _ & Ew) _]. rewrite Ew in Hge. cbn in Hge.
  rewrite IH; [|done|cbn; lia]. cbn [grown cFromH]. destruct (Z.ltb_spec (cFromH c) (cToH c)); [done|]. lia.
Qed.

(** What comes back of a window whose log lost its end: some of its blocks. *)
Lemma window_back bt bh bs a c n : built bt bh bs a c ->
  exists lost mj cj bs', recover (newMemtableAt (take n (mlog a)) false) bt bh = Ok mj /\ built bt bh bs' mj cj /\ builds mj cj lost a c /\
    ((length (mlog a) <= n)%nat -> lost = [] /\ mj = a /\ cj = c).
Proof.
  intros HB. pose proof HB as (Hbt & Hbh & Hb). destruct (builds_adds _ _ _ _ _ Hb) as [A F].
  destruct (decide (length (mlog a) <= n)%nat) as [Hn|Hn].
  { exists [], a, c, bs. rewrite take_ge by done. split; [apply (recover_whole Keccak256 EncodeBare keccak_len bt bh bs); done || (unfold u64_ok; lia)|].
    split; [done|]. split; [constructor|done]. }
  destruct (recover_cut Keccak256 EncodeBare keccak_len bt bh bs a n) as (j & mj & (_ & Aj & _) & R); try done; try (unfold u64_ok; lia).
  rewrite <- (take_drop j bs) in Hb. apply builds_app in Hb as (m1 & c1 & H1 & H2). destruct (builds_adds _ _ _ _ _ H1) as [A1 _].
  rewrite A1 in Aj. injection Aj as ->. exists (drop j bs), mj, c1, (take j bs). split_and!; try done; lia.
Qed.

Lemma tiled_back A bt bh bs m c bs' m' c' :
  built bt bh bs m c -> built bt bh bs' m' c' -> (A <> [] -> 0 < bh) -> tiled (A ++ [c]) -> tiled (A ++ [c']).
Proof.
  intros HB HB' Hp Ht. destruct (built_open _ _ _ _ _ HB) as (_ & E & _), (built_open _ _ _ _ _ HB') as (_ & E' & _).
  apply (tiled_last A c c' Ht); [congruence|]. intros Hne. specialize (Hp Hne).
  destruct HB as (H1 & H2 & HB), HB' as (_ & _ & HB').
  rewrite (builds_from _ _ _ _ _ HB), (builds_from _ _ _ _ _ HB'); try done; by apply fresh_open.
Qed.

Context (cas : bytes -> res bytes).

(** What a crash at some moment leaves: the manifest (not yet written before the
    first publish), the runs it names, the frozen log whole (or a published one
    not yet removed), and a prefix of the window log. *)
Definition image (k : disk) (d : DB) : Prop :=
  (kman k = Some (man d) \/ kman k = None /\ mRuns (man d) = []) /\
  Forall2 (fun ref r => exists f, cas (rName ref) = Ok f /\ OpenRun f = Ok r) (mRuns (man d)) (ver d) /\
  match dfrozen d with
  | Some f => exists m, heap d !! f = Some m /\ kfrozen k = Some (mlog m)
  | None => kfrozen k = None \/ exists i m, (i < dmem d)%nat /\ heap d !! i = Some m /\ kfrozen k = Some (mlog m)
  end /\
  exists a n, heap d !! dmem d = Some a /\ kwindow k = take n (mlog a).

Lemma open_runs_ok refs rs :
  Forall2 (fun ref r => exists f, cas (rName ref) = Ok f /\ OpenRun f = Ok r) refs rs -> open_runs cas refs = Ok rs.
Proof. induction 1 as [|ref r refs rs (f & E1 & E2) _ IH]; [done|]. cbn [open_runs]. rewrite E1. cbn [rbind]. rewrite E2. cbn [rbind]. by rewrite IH. Qed.

Lemma manifest_back k d base cs L p : Inv d base cs L p -> logged d L p -> image k d ->
  (let* m := loadManifest (kman k) in root_manifest (chainRoot d) m) = Ok (man d).
Proof.
  intros HI (G1 & G2 & _) (Hm & _). pose proof HI as (Hr & Href & _ & _ & _ & _ & _ & _ & _ & Hlive & Hroot & _). destruct Hm as [->|[-> Hn]].
  - cbn [loadManifest]. rewrite G1, Z.eqb_refl. cbn [negb]. apply tiled_app in Hlive as [Ht _].
    pose proof (refs_contiguous _ _ Href Ht (serves_ok _ _ Hr)) as Hc. unfold contiguous in Hc. unfold checkTiling.
    assert (Hok : match mRuns (man d) with [] => Ok tt | a :: rs => tiling a rs end = Ok tt).
    { destruct (mRuns (man d)) as [|a rs]; [done|]. destruct (tiling a rs) as [[]| |]; done. }
    rewrite Hok. cbn [rbind]. unfold root_manifest. rewrite G2.
    destruct (beqb_spec (hexName (chainRoot d)) []), (beqb_spec (hexName (chainRoot d)) (hexName (chainRoot d))); try done;
      destruct (man d); cbn in *; congruence.
  - cbn [loadManifest rbind root_manifest mChainRoot beqb mVersion mRuns]. destruct (man d). cbn in *. congruence.
Qed.

Lemma MaybeMerge_heap d h : with_heap (MaybeMerge d) h = MaybeMerge (with_heap d h).
Proof. unfold MaybeMerge. cbn [with_heap merging]. destruct (merging d); [done|]. change (mergeSpanLocked (with_heap d h)) with (mergeSpanLocked d).
  by destruct (mergeSpanLocked d) as [[a e]|].
Qed.

(** A database put together from the runs and windows parked after them. *)
Lemma logged_restart d L p hs Ls a f x y z :
  logged d L p -> window_at (MkDB (chainRoot d) hs a f (man d) (ver d) None x y z) Ls 0 (flushedTx d) (flushedHeight d) ->
  (f = Some 0%nat -> exists c, Ls !! 0%nat = Some c /\ window_at (MkDB (chainRoot d) hs a f (man d) (ver d) None x y z) Ls 1 (cToTx c) (cToH c)) ->
  logged (MkDB (chainRoot d) hs a f (man d) (ver d) None x y z) Ls 0.
Proof.
  intros (G1 & G2 & G3 & _) W1 W2. unfold logged. change (flushedTx (MkDB _ _ _ _ (man d) _ _ _ _ _)) with (flushedTx d).
  change (flushedHeight (MkDB _ _ _ _ (man d) _ _ _ _ _)) with (flushedHeight d). split_and!; try done. intros i m Hi. lia.
Qed.

Lemma flushed_pos d base cs L p : Inv d base cs L p -> cs <> [] -> 0 < flushedHeight d.
Proof.
  intros HI Hne. pose proof HI as (Hr & Href & _ & _ & HL & Hf & _ & _ & _ & Hlive & _).
  destruct (lookup_lt_is_Some_2 L p ltac:(lia)) as [c Hc].
  destruct (Inv_flushed _ _ _ _ _ c HI) as [_ ->]; [destruct (mRuns (man d)); [by inv Href|done]|done|].
  destruct (live_ok _ _ _ _ _ HI) as (_ & Hok & _). rewrite (drop_S L c p Hc) in Hlive, Hok.
  change (c :: drop (S p) L) with ([c] ++ drop (S p) L) in Hlive, Hok. rewrite app_assoc in Hlive, Hok.
  apply tiled_app in Hlive as [Ht _]. apply Forall_app in Hok as [Hok _]. by apply (tiled_low Keccak256 keccak_len cs c).
Qed.

(** Where [open] starts from, before the logs are looked at. *)
Definition opened (d : DB) (log : bytes) : DB :=
  MkDB (chainRoot d) [newMemtableAt log false] 0 None (man d) (ver d) None FlushTxs FlushBlocks TerminalTxs.

(** What the logs make of it. *)
Definition comes_back (k : disk) (d : DB) (cs : list content) (X : store) : Prop :=
  exists D2 b mj D cs' L' p' lost,
    open_frozen casName (opened d (kwindow k)) (kfrozen k) false = Ok (D2, b) /\ obj D2 (dmem D2) = Ok (newMemtableAt (kwindow k) false) /\
    recover (newMemtableAt (kwindow k) false) b.1 b.2 = Ok mj /\ D = with_heap D2 (<[dmem D2 := mj]> (heap D2)) /\
    Inv D cs cs' L' p' /\ logged D L' p' /\ dfrozen D = None /\ blocks_added lost (store_of (cs ++ L')) X /\
    (forall a, heap d !! dmem d = Some a -> kwindow k = mlog a -> lost = []).

Lemma back_window k d base cs L p :
  Inv d base cs L p -> logged d L p -> image k d -> dfrozen d = None -> comes_back k d cs (store_of (base ++ L)).
Proof.
  intros HI HG Him Hf. pose proof HG as (_ & _ & _ & (m & c & bs & Hm & Hc & HB) & _ & G6).
  pose proof HI as (Hr & Href & _ & _ & HL & Hfz & _ & _ & _ & Hlive & Hroot & _).
  assert (p = dmem d) as -> by (destruct Hfz as [[_ ?]|[? _]]; congruence).
  assert (Ed : drop (dmem d) L = [c]) by (rewrite (drop_S L c _ Hc), drop_ge by lia; done). rewrite Ed in Hlive.
  destruct Him as (_ & _ & Hkf & a & n & Ha & Ew). rewrite Hm in Ha. injection Ha as <-. rewrite Hf in Hkf.
  destruct (window_back _ _ bs m c n HB) as (lost & mj & cj & bs' & R & HB' & Hl & Hw).
  assert (Ho : open_frozen casName (opened d (kwindow k)) (kfrozen k) false = Ok (opened d (kwindow k), (flushedTx d, flushedHeight d))).
  { unfold open_frozen. destruct Hkf as [->|(i & m0 & Hi & Hm0 & ->)]; [done|].
    destruct (G6 i m0 Hi Hm0) as (bt & bh & bs0 & m1 & c0 & HB0 & <- & Hle). destruct (built_open _ _ _ _ _ HB0) as (_ & _ & _ & Hlow).
    destruct HB0 as (? & ? & HB0). destruct (builds_adds _ _ _ _ _ HB0) as [A F].
    destruct (recover_drops_sealed Keccak256 EncodeBare keccak_len bt bh bs0 m1 (flushedTx d) (flushedHeight d)) as (fm & E & _ & Ef & _); try done.
    { unfold u64_ok. lia. } { lia. } { eapply Forall_impl; [exact Hlow|]. cbn. lia. }
    change (flushedTx (opened d _)) with (flushedTx d). change (flushedHeight (opened d _)) with (flushedHeight d). cbn [fst snd]. rewrite E. cbn [rbind]. by rewrite Ef. }
  exists (opened d (kwindow k)), (flushedTx d, flushedHeight d), mj, (MkDB (chainRoot d) [mj] 0 None (man d) (ver d) None FlushTxs FlushBlocks TerminalTxs), cs, [cj], 0%nat, lost.
  assert (HI' : Inv (MkDB (chainRoot d) [mj] 0 None (man d) (ver d) None FlushTxs FlushBlocks TerminalTxs) cs cs [cj] 0).
  { apply Inv_restart; try done; [constructor; [by apply (built_open _ _ _ _ _ HB')|constructor]| |by left].
    apply (tiled_back cs _ _ _ _ _ _ _ _ HB HB'); [|done]. by apply (flushed_pos d base cs L (dmem d)). }
  split_and!; try done.
  - by rewrite Ew.
  - apply logged_restart with L (dmem d); [done| |done]. by exists mj, cj, bs'.
  - apply blocks_added_eq with (store_of (cs ++ [c])); [|rewrite <- Ed; by apply (live_store d)].
    apply (builds_added _ cs cs [] 0 mj cj lost m c Hl HI'). done.
  - intros a Ha Hk. rewrite Hm in Ha. injection Ha as <-. destruct (decide (length (mlog m) <= n)%nat) as [Hn|Hn]; [by apply Hw|].
    rewrite Hk in Ew. apply (f_equal length) in Ew. rewrite length_take in Ew. lia.
Qed.

Lemma seal_prev_ok d : len (chainRoot d) = 32 -> Forall (fun r => exists h, decodeRoot (rName r) = Ok h) (mRuns (man d)) ->
  exists prev, seal_prev d = Ok prev /\ len prev = 32.
Proof.
  intros Hr F. unfold seal_prev. destruct (last (mRuns (man d))) as [r|] eqn:El; [|eauto]. apply last_Some in El as [l El]. rewrite El in F.
  apply Forall_app in F as [_ F]. apply Forall_inv in F as [h Hh]. exists h. split; [done|by eapply decodeRoot_len].
Qed.

(** Finishing the cut a crash left behind. *)
Lemma seal_restart d cs hs c fm mem mj prev ref run :
  Inv (MkDB (chainRoot d) [fm; mj] 1 (Some 0%nat) (man d) (ver d) None FlushTxs FlushBlocks TerminalTxs) cs cs (c :: hs) 0 ->
  logged (MkDB (chainRoot d) [fm; mj] 1 (Some 0%nat) (man d) (ver d) None FlushTxs FlushBlocks TerminalTxs) (c :: hs) 0 ->
  sections_fit fm -> len prev = 32 -> seal_prev d = Ok prev -> seal_run casName prev fm = Ok (ref, run) ->
  exists D2, seal casName (MkDB (chainRoot d) [fm; mem] 1 (Some 0%nat) (man d) (ver d) None FlushTxs FlushBlocks TerminalTxs) 0 = Ok D2 /\
    obj D2 (dmem D2) = Ok mem /\ dfrozen D2 = None /\
    Inv (with_heap D2 (<[dmem D2 := mj]> (heap D2))) cs (cs ++ [c]) (c :: hs) 1 /\ logged (with_heap D2 (<[dmem D2 := mj]> (heap D2))) (c :: hs) 1.
Proof.
  set (DA := MkDB _ [fm; mj] _ _ _ _ _ _ _ _). set (DM := MkDB _ [fm; mem] _ _ _ _ _ _ _ _). intros HI HG Hfit Hp Hprev E.
  exists (MaybeMerge (with_heap (publish DM ref run) [mem_remove fm; mem])). split.
  { unfold seal. cbn [obj heap DM lookup list_lookup rbind]. change (seal_prev DM) with (seal_prev d). rewrite Hprev. cbn [rbind]. rewrite E. done. }
  destruct (MaybeMerge_merging (with_heap (publish DM ref run) [mem_remove fm; mem])) as [j Ej].
  split; [by rewrite Ej|]. split; [by rewrite Ej|].
  assert (ED : with_heap (MaybeMerge (with_heap (publish DM ref run) [mem_remove fm; mem]))
      (<[dmem (MaybeMerge (with_heap (publish DM ref run) [mem_remove fm; mem])) := mj]> (heap (MaybeMerge (with_heap (publish DM ref run) [mem_remove fm; mem]))))
    = MaybeMerge (with_heap (publish DA ref run) (<[0%nat := mem_remove fm]> (heap (publish DA ref run))))).
  { rewrite MaybeMerge_heap, Ej. done. }
  rewrite ED. destruct (inv_publish casName DA cs cs (c :: hs) 0 0 fm prev ref run HI eq_refl eq_refl Hp Hfit E) as (c' & [= <-] & HI').
  pose proof (logged_publish DA cs cs (c :: hs) 0 fm prev ref run HI HG eq_refl eq_refl E) as HG'. split.
  - apply inv_merge_start. by apply inv_remove; [|cbn; lia|..].
  - destruct (MaybeMerge_merging (with_heap (publish DA ref run) (<[0%nat := mem_remove fm]> (heap (publish DA ref run))))) as [j' ->].
    apply logged_merging. by apply logged_remove; [|lia|].
Qed.

Lemma back_frozen k d base cs L p m :
  Inv d base cs L p -> logged d L p -> image k d -> dfrozen d = Some p -> heap d !! p = Some m -> sections_fit m ->
  comes_back k d cs (store_of (base ++ L)).
Proof.
  intros HI HG Him Hf Hm Hfit. pose proof HG as (_ & _ & G3 & (m0 & c & bs & Hm0 & Hc & HB) & G5 & _).
  rewrite Hm in Hm0. injection Hm0 as <-. destruct (G5 Hf) as (c' & Hc' & a & ca & bsa & Ha & Hca & HBa). rewrite Hc in Hc'. injection Hc' as <-.
  pose proof HI as (Hr & Href & _ & _ & HL & Hfz & _ & _ & _ & Hlive & Hroot & _).
  assert (Hd : dmem d = S p) by (destruct Hfz as [[? _]|[_ ?]]; congruence).
  assert (Ed : drop p L = [c; ca]) by (rewrite (drop_S L c _ Hc), (drop_S L ca _ Hca), drop_ge by lia; done). rewrite Ed in Hlive.
  destruct Him as (_ & _ & Hkf & a0 & n & Ha0 & Ew). rewrite Hf in Hkf. destruct Hkf as (m0 & Hm0 & Ek). rewrite Hm in Hm0. injection Hm0 as <-.
  rewrite Hd, Ha in Ha0. injection Ha0 as <-.
  destruct (window_back _ _ bsa a ca n HBa) as (lost & mj & cj & bs' & R & HB' & Hl & Hw).
  destruct (window_back _ _ bs m c (length (mlog m)) HB) as (l0 & fm & c0 & b0 & Rf & _ & _ & Hwf). destruct (Hwf ltac:(lia)) as (_ & -> & _).
  rewrite take_ge in Rf by lia. destruct (built_open _ _ _ _ _ HB) as (Ho & _).
  assert (Hne : nonempty c) by (apply tiled_app in Hlive as [_ [(? & _) _]]; done).
  pose proof Ho as [(Hok & _ & _ & _ & Ewin) _].
  destruct (seal_prev_ok d Hroot G3) as (prev & Hprev & Hp). destruct (seal_run_ok casName prev m c Ho Hne Hfit Hp) as (ref & run & E & _).
  set (DA := MkDB (chainRoot d) [m; mj] 1 (Some 0%nat) (man d) (ver d) None FlushTxs FlushBlocks TerminalTxs).
  assert (HI' : Inv DA cs cs [c; cj] 0).
  { apply Inv_restart; try done; [| |by right].
    - constructor; [done|]. constructor; [by apply (built_open _ _ _ _ _ HB')|constructor].
    - change [c; cj] with ([c] ++ [cj]). rewrite app_assoc. apply (tiled_back (cs ++ [c]) _ _ _ _ _ _ _ _ HBa HB'); [|by rewrite <- app_assoc].
      intros _. destruct Hne. destruct Hok as (_ & _ & ? & _). lia. }
  assert (HG' : logged DA [c; cj] 0).
  { apply logged_restart with L p; [done|by exists m, c, bs|]. intros _. exists c. split; [done|]. by exists mj, cj, bs'. }
  destruct (seal_restart d cs [cj] c m (newMemtableAt (kwindow k) false) mj prev ref run HI' HG' Hfit Hp Hprev E) as (D2 & Es & Eo & Ef & HI2 & HG2).
  exists D2, (cToTx c, cToH c), mj, (with_heap D2 (<[dmem D2 := mj]> (heap D2))), (cs ++ [c]), [c; cj], 1%nat, lost. split_and!; try done.
  - unfold open_frozen. rewrite Ek. change (flushedTx (opened d _)) with (flushedTx d). change (flushedHeight (opened d _)) with (flushedHeight d).
    cbn [fst snd]. rewrite Rf. cbn [rbind]. rewrite Ewin. cbn [window_of started nextTx nextHeight]. destruct Hne as [_ Hne].
    rewrite (proj2 (Z.ltb_lt _ _) Hne).
    change ((let* D := seal casName (MkDB (chainRoot d) [m; newMemtableAt (kwindow k) false] 1 (Some 0%nat) (man d) (ver d) None FlushTxs FlushBlocks TerminalTxs) 0
      in Ok (D, (cToTx c, cToH c))) = Ok (D2, (cToTx c, cToH c))).
    rewrite Es. done.
  - by rewrite Ew.
  - apply blocks_added_eq with (store_of (cs ++ [c; ca])); [|rewrite <- Ed; by apply (live_store d)].
    apply (builds_added DA cs cs [c] 0 mj cj lost a ca Hl HI'). done.
  - intros a0 Ha0 Hk. rewrite Hd, Ha in Ha0. injection Ha0 as <-. destruct (decide (length (mlog a) <= n)%nat) as [Hn|Hn]; [by apply Hw|].
    rewrite Hk in Ew. apply (f_equal length) in Ew. rewrite length_take in Ew. lia.
Qed.

(** The head is a stored block, so an empty cache may be pinned to it. *)
Lemma block_ends d base cs L p z h : Inv d base cs L p -> z ∈ cs ++ drop p L -> cFromH z < cToH z -> h + 1 = cToH z ->
  u64_ok h /\ exists at_, ends_at (store_of (base ++ L)) h at_.
Proof.
  intros HI Hz Hlt Eh. destruct (live_ok _ _ _ _ _ HI) as (Ht & Hok & Hl). pose proof Hok as Ho. rewrite Forall_forall in Ho.
  pose proof (Ho z Hz) as Hzok. pose proof Hzok as (? & ? & ? & ? & _ & _ & _ & first & F1 & F2 & F3). split; [unfold u64_ok; lia|].
  destruct (F3 h ltac:(lia)) as (n & Hn & _ & Er). destruct (first_mono z first Hzok F1 F2 F3 h ltac:(lia)).
  exists (first h + n), (first h), n. split_and!; try done; try lia; [|unfold u64_ok; lia..]. cbn [store_of aChain]. rewrite Hl.
  by apply (chain_unique _ z).
Qed.

Lemma head_ok d base cs L p : Inv d base cs L p -> dfrozen d = None -> exists o, Head (fun _ => d) = Ok o /\
  forall h, o = Some h -> u64_ok h /\ exists at_, ends_at (store_of (base ++ L)) h at_.
Proof.
  intros HI Hf. pose proof HI as (Hr & Href & _ & _ & HL & Hfz & _ & _ & _ & Hlive & _).
  assert (p = dmem d) as -> by (destruct Hfz as [[_ ?]|[? _]]; congruence).
  destruct (Inv_obj _ _ _ _ _ (dmem d) HI) as (m & c & Em & Hc & Hany & _); [lia|]. pose proof (obj_any_ok m c Hany) as Hok.
  unfold Head, NextHeight, mems. rewrite (window_started d _ m c Em Hok). cbn [rbind]. rewrite Hf. cbn [started_window rbind].
  assert (Hcin : c ∈ cs ++ drop (dmem d) L) by (rewrite (drop_S L c _ Hc); set_solver).
  pose proof Hok as ((_ & _ & Hch & _) & _).
  destruct (Z.ltb_spec (cFromH c) (cToH c)) as [Hlt|Hge]; cbn [rbind window_of nextHeight].
  - eexists. split; [done|]. intros h Hh. destruct (Z.eqb_spec (cToH c) 0); [done|]. injection Hh as <-.
    apply (block_ends d base cs L (dmem d) c); [done|done|done|lia].
  - eexists. split; [done|]. intros h Hh. destruct (Z.eqb_spec (flushedHeight d) 0) as [|Hn]; [done|]. injection Hh as <-.
    destruct cs as [|z cs _] using rev_ind.
    { exfalso. apply Hn. unfold flushedHeight. by inv Href. }
    destruct (Inv_flushed _ _ _ _ _ c HI) as [_ ->]; [by intros E; rewrite E in Href; apply Forall2_nil_inv_l in Href; destruct cs|done|].
    rewrite <- app_assoc, (drop_S L c _ Hc) in Hlive. cbn [app] in Hlive. apply tiled_app in Hlive as [_ [((_ & Hz) & _ & Ez) _]].
    apply (block_ends d base (cs ++ [z]) L (dmem d) z); [done|set_solver|done|lia].
Qed.

(** ** The theorem *)

(** The running database shows [X] and can be recovered after a crash. *)
Definition recoverable (d : DB) (X : store) : Prop :=
  exists base cs L p, Inv d base cs L p /\ logged d L p /\ store_eq (store_of (base ++ L)) X.

Lemma empty_logged root txs blocks terminal : logged (empty_db root txs blocks terminal) [empty_content 0 0] 0.
Proof.
  refine (conj eq_refl (conj eq_refl (conj (Forall_nil_2 _) (conj _ (conj _ _))))); [|done|intros i m Hi; lia].
  exists (fresh 0 0), (empty_content 0 0), []. split; [done|]. split; [done|]. split; [cbn; lia|]. split; [cbn; lia|constructor].
Qed.

Lemma empty_recoverable root txs blocks terminal : len root = 32 -> recoverable (empty_db root txs blocks terminal) empty_store.
Proof.
  intros Hr. exists [], [], [empty_content 0 0], 0%nat. split; [|split; [apply empty_logged|done]].
  apply (Inv_restart (empty_db root txs blocks terminal) [] [fresh 0 0] [empty_content 0 0] 0 None); try done; [|by left].
  constructor; [by apply fresh_open|constructor].
Qed.

Lemma recoverable_step d X e d' : recoverable d X -> step casName Keccak256 EncodeBare d e d' -> (forall b, e = EvWrite b -> block_ok b) ->
  exists Y, recoverable d' Y /\ astep Keccak256 EncodeBare e X Y.
Proof.
  intros (base & cs & L & p & HI & HG & HX) Hs Hb. destruct (step_logged _ _ _ _ _ _ _ HI HG Hs Hb) as (cs' & L' & p' & HI' & HG' & Ha).
  exists (store_of (base ++ L')). split; [by exists base, cs', L', p'|]. by apply (astep_eq Keccak256 EncodeBare) with (store_of (base ++ L)).
Qed.


End Recovers.
(** ** A crash while the window of the sample trace is being sealed *)

Definition disk_of (d : DB) : disk :=
  MkDisk None (match dfrozen d with Some f => mlog <$> heap d !! f | None => None end)
    (match heap d !! dmem d with Some a => mlog a | None => [] end).

Definition frozen_check (d : DB) : bool :=
  match mRuns (man d), ver d, dfrozen d with
  | [], [], Some f => match heap d !! f, heap d !! dmem d with Some m, Some _ => fit_check m | _, _ => false end
  | _, _, _ => false
  end.

Lemma frozen_image cas d : frozen_check d = true ->
  image cas (disk_of d) d /\ forall f m, dfrozen d = Some f -> heap d !! f = Some m -> sections_fit m.
Proof.
  unfold frozen_check, image, disk_of. intros Hc. destruct (mRuns (man d)) eqn:Em; [|done]. destruct (ver d) eqn:Ev; [|done].
  destruct (dfrozen d) as [f|] eqn:Ef; [|done]. destruct (heap d !! f) as [m|] eqn:Hm; [|done]. destruct (heap d !! dmem d) as [a|] eqn:Ha; [|done].
  split; [|intros f' m' [= <-] Hm'; rewrite Hm in Hm'; injection Hm' as <-; by apply fit_check_ok]. cbn [kman kfrozen kwindow].
  split; [by right|]. split; [constructor|]. split; [by exists m|]. exists a, (length (mlog a)). split; [done|]. by rewrite take_ge by lia.
Qed.

Lemma disk_whole cas d (lost : list BlockWrite) : image cas (disk_of d) d ->
  (forall a, heap d !! dmem d = Some a -> kwindow (disk_of d) = mlog a -> lost = []) -> lost = [].
Proof. intros (_ & _ & _ & a & n & Ha & _) Hl. apply (Hl a Ha). unfold disk_of. by rewrite Ha. Qed.

Lemma s_name_hex b : exists h, decodeRoot (s_name b) = Ok h.
Proof. exists (replicate 32 3). vm_compute. reflexivity. Qed.

Lemma t2_recoverable : exists X, recoverable sample_keccak sample_bare t2 X.
Proof.
  pose proof (empty_recoverable sample_keccak sample_bare s_root FlushTxs FlushBlocks 4 eq_refl) as H0.
  destruct (recoverable_step s_name sample_keccak sample_bare sample_keccak_len s_name_hex _ _ _ _ H0 step1) as (X1 & H1 & _).
  { intros b [= <-]. pose proof sample_blocks_ok as F. rewrite Forall_forall in F. apply F. by left. }
  destruct (recoverable_step s_name sample_keccak sample_bare sample_keccak_len s_name_hex _ _ _ _ H1 step2) as (X2 & H2 & _); [done|]. by exists X2.
Qed.


End Open.
