(* ===== verification/ScanPool.v ===== *)
(** * store/db.go, scanRuns: the concurrent run scan

    A producer goroutine opens one result channel per run, in order, and starts a
    worker for it; the channels queue in [slots], whose capacity bounds the
    read-ahead; the caller takes the channels in order, waits for each result and
    hands it to [emit]. The state below is that of the three parties and a step is
    one communication of one of them, in any order. [scanSlots], the process-wide
    ceiling, only delays a worker: its other users release their slot after a
    finite scan, so a worker's step is always eventually possible. *)

From S2P Require Import Prelude.

Module ScanPool.

Definition scanFanout : nat := 32.

Section Pool.
Context {T St : Type} (n : nat) (work : nat -> res T) (emit : St -> T -> St * bool).

(** The sequential loop it replaces: the runs from [i] on, [k] of them. *)
Fixpoint scan_loop (k i : nat) (st : St) : res St :=
  match k with
  | O => Ok st
  | S k => let* v := work i in
           let (st, more) := emit st v in
           if more then scan_loop k (S i) st else Ok st
  end.

(** [next] runs were started; [slots] is the queue of channels, [held] the one the
    caller waits on, [ready] the results sent, [out] what the caller returns. *)
Record pool := MkPool {
  next : nat; slots : list nat; held : option nat; ready : gmap nat (res T); acc : St; out : option (res St) }.

Definition start (st : St) : pool := MkPool 0 [] None ∅ st None.

(** The caller, once the result of its channel is there. *)
Definition receive (p : pool) (r : res T) : pool :=
  match r with
  | Ok v => let (st, more) := emit (acc p) v in
            if more then MkPool (next p) (slots p) None (ready p) st None
            else MkPool (next p) (slots p) None (ready p) st (Some (Ok st))
  | Err e => MkPool (next p) (slots p) None (ready p) (acc p) (Some (Err e))
  | Panic => MkPool (next p) (slots p) None (ready p) (acc p) (Some Panic)
  end.

Inductive pstep : pool -> pool -> Prop :=
| p_start p : out p = None -> (next p < n)%nat -> (length (slots p) < scanFanout)%nat ->
    pstep p (MkPool (S (next p)) (slots p ++ [next p]) (held p) (ready p) (acc p) None)
| p_work p i : (i < next p)%nat -> ready p !! i = None ->
    pstep p (MkPool (next p) (slots p) (held p) (<[i := work i]> (ready p)) (acc p) (out p))
| p_take p i rest : out p = None -> held p = None -> slots p = i :: rest ->
    pstep p (MkPool (next p) rest (Some i) (ready p) (acc p) None)
| p_receive p i r : out p = None -> held p = Some i -> ready p !! i = Some r -> pstep p (receive p r)
| p_end p : out p = None -> held p = None -> slots p = [] -> next p = n ->
    pstep p (MkPool (next p) [] None (ready p) (acc p) (Some (Ok (acc p)))).

(** The channels still to be received from, in order. *)
Definition queue (p : pool) : list nat := match held p with Some i => i :: slots p | None => slots p end.

(** The caller stands before run [k]: everything below was handed over in order,
    the channels from [k] on are queued, and what is left to do from here is the
    rest of the loop. *)
Definition inv (st0 : St) (p : pool) : Prop :=
  (next p <= n)%nat /\ (forall i r, ready p !! i = Some r -> r = work i /\ (i < next p)%nat) /\
  match out p with
  | Some r => r = scan_loop n 0 st0
  | None => exists k, (k <= next p)%nat /\ queue p = seq k (next p - k) /\
      scan_loop (n - k) k (acc p) = scan_loop n 0 st0
  end.

Lemma inv_start st : inv st (start st).
Proof. split_and!; cbn; [lia|intros i r Hi; by rewrite lookup_empty in Hi|]. exists 0%nat. split_and!; [lia|done|by rewrite Nat.sub_0_r]. Qed.

Lemma seq_head k m i rest : i :: rest = seq k m -> i = k /\ rest = seq (S k) (m - 1) /\ (0 < m)%nat.
Proof. destruct m as [|m]; cbn [seq]; [done|]. intros [= -> ->]. split_and!; [done| |lia]. by rewrite Nat.sub_1_r. Qed.

Lemma inv_step st p p' : inv st p -> pstep p p' -> inv st p'.
Proof.
  intros (Hn & Hr & Ho) Hs. destruct Hs as [p Eo Hlt Hcap|p i Hi Hnone|p i rest Eo Eh Es|p i r Eo Eh Er|p Eo Eh Es En]; unfold inv; cbn [next slots held ready acc out].
  - rewrite Eo in Ho. destruct Ho as (k & Hk & Hq & Hl). split_and!; [lia|intros i r Hir; destruct (Hr i r Hir); split; [done|lia]|].
    exists k. split_and!; [lia| |done]. rewrite Nat.sub_succ_l, seq_S, <- Hq by lia. unfold queue. cbn [held slots].
    replace (k + (next p - k))%nat with (next p) by lia. by destruct (held p).
  - split_and!; [done| |done]. intros j r Hj. destruct (decide (j = i)) as [->|Hne].
    + rewrite lookup_insert_eq in Hj. by injection Hj as <-.
    + rewrite lookup_insert_ne in Hj by done. by apply Hr.
  - rewrite Eo in Ho. destruct Ho as (k & Hk & Hq & Hl). unfold queue in Hq. rewrite Eh, Es in Hq. split_and!; [done|done|]. exists k. by split_and!.
  - rewrite Eo in Ho. destruct Ho as (k & Hk & Hq & Hl). unfold queue in Hq. rewrite Eh in Hq. apply seq_head in Hq as (-> & Hq & Hpos).
    destruct (Hr k r Er) as [-> _]. replace (n - k)%nat with (S (n - S k)) in Hl by lia. cbn [scan_loop] in Hl.
    unfold receive. destruct (work k) as [v|e|] eqn:Ew; cbn [rbind] in Hl; cbn [next ready out]; try (split_and!; done).
    destruct (emit (acc p) v) as [st' more]. destruct more; cbn [next slots held ready acc out]; split_and!; try done.
    exists (S k). split_and!; [lia| |done]. unfold queue. cbn [held slots]. rewrite Hq. f_equal. lia.
  - rewrite Eo in Ho. destruct Ho as (k & Hk & Hq & Hl). unfold queue in Hq. rewrite Eh, Es in Hq. split_and!; [done|done|].
    assert (next p - k = 0)%nat as Ek by (destruct (next p - k)%nat; [done|]; done).
    replace (n - k)%nat with 0%nat in Hl by lia. by rewrite <- Hl.
Qed.

(** Some party can always move until the caller returns. *)
Lemma progress st p : inv st p -> out p = None -> exists p', pstep p p'.
Proof.
  intros (Hn & _ & Ho) Eo. rewrite Eo in Ho. destruct Ho as (k & Hk & Hq & _). unfold queue in Hq. destruct (held p) as [i|] eqn:Eh.
  - apply seq_head in Hq as (-> & _ & Hpos). destruct (ready p !! k) as [r|] eqn:Er.
    + eexists. by apply (p_receive p k r).
    + eexists. apply (p_work p k); [lia|done].
  - destruct (slots p) as [|i rest] eqn:Es; [|eexists; by apply (p_take p i rest)].
    destruct (decide (next p = n)) as [En|]; [eexists; by apply p_end|]. eexists. apply p_start; [done|lia|]. rewrite Es. cbn. unfold scanFanout. lia.
Qed.

(** Every step spends some of this. *)
Definition missing (p : pool) : nat := next p - size (ready p).
Definition fuel_of (p : pool) : nat :=
  4 * (n - next p) + 2 * length (slots p) + (if held p then 1 else 0) + missing p + (if out p then 0 else 1).

Lemma ready_size (p : pool) : (forall i r, ready p !! i = Some r -> (i < next p)%nat) -> (size (ready p) <= next p)%nat.
Proof.
  intros Hr. rewrite <- size_dom. transitivity (size (set_seq 0 (next p) : gset nat)).
  - apply subseteq_size. intros i Hi. apply elem_of_dom in Hi as [r Hi]. apply elem_of_set_seq. specialize (Hr i r Hi). lia.
  - by rewrite size_set_seq.
Qed.

Lemma step_spends st p p' : inv st p -> pstep p p' -> (fuel_of p' < fuel_of p)%nat.
Proof.
  intros HI Hs. pose proof (inv_step st p p' HI Hs) as HI'. pose proof HI as (Hn & Hr & _).
  assert (Hsz : (size (ready p) <= next p)%nat) by (apply ready_size; intros i r Hi; by apply (Hr i r)).
  assert (Hsz' : (size (ready p') <= next p')%nat) by (apply ready_size; destruct HI' as (_ & Hr' & _); intros i r Hi; by apply (Hr' i r)).
  unfold fuel_of, missing.
  destruct Hs as [p Eo Hlt Hcap|p i Hi Hnone|p i rest Eo Eh Es|p i r Eo Eh Er|p Eo Eh Es En]; cbn [next slots held ready acc out] in *.
  - rewrite Eo, length_app. cbn [length]. destruct (held p); lia.
  - rewrite map_size_insert_None in Hsz' |- * by done. lia.
  - rewrite Eo, Eh, Es. cbn [length]. lia.
  - unfold receive. destruct r as [v|e|]; [destruct (emit (acc p) v) as [st' []]|..]; cbn [next slots held ready acc out]; rewrite Eo, Eh; lia.
  - rewrite Eo, Eh, Es. cbn [length]. lia.
Qed.


End Pool.
(** Two runs and a caller that stops after the first: the first run is started
    and scanned, its channel taken and its result received. *)
Definition w_emit (st v : nat) : nat * bool := ((st + S v)%nat, false).
Definition w_end : pool (T := nat) (St := nat) := MkPool 1 [] None {[0%nat := Ok 0%nat]} 1%nat (Some (Ok 1%nat)).


End ScanPool.
