(* ===== verification/Scans.v ===== *)
(** * store/db.go: range scans over the runs and the windows

    ChainRows, StateTxNums, Postings, Groups and SetScan take the run list at one
    access and the window pointers at another; [s i] is the shared state at the
    [i]-th access as in DB.v. A callback is a function on a state of the caller's
    that also says whether to go on. The fan-out of scanRuns is the sequential
    loop (ScanPool.v). Go iterates a map in no fixed order; the model takes
    ascending key order where the code ranges over one. *)

From S2P Require Import Prelude Bytes Rows Ef Format Sha256 Container Memtable MemRecover MemRead Sst RunFile Postings Seal Window Growth KMerge DB Contents Merge Refine DBReads ScanPool.
Import Format.

Module Scans.
Import Memtable MemRecover MemRead RunFile Postings Seal Growth DB Contents Merge Refine DBReads ScanPool.

Section Scans.
Context `{SSTable} {St : Type}.

(** ** ChainRows *)

(** The callback of the run scan: what is next, whether the consumer stopped, and
    the consumer's state; a key of less than eight bytes would be a panic. *)
Definition chain_row_fn (yield : St -> Z -> bytes -> St * bool) (x : res (Z * bool * St)) (k v : bytes) : res (Z * bool * St) * bool :=
  match x with
  | Ok (_, _, st) =>
      match TxNumOf k with
      | Ok n => let (st, more) := yield st n v in (Ok (u64 (n + 1), negb more, st), more)
      | _ => (Panic, false)
      end
  | _ => (x, false)
  end.

Definition run_lo_hi (byHeight : bool) (f : Footer) : Z * Z :=
  if byHeight then (FromHeight f, ToHeight f) else (FromTx f, u64 (ToTx f - 1)).

Fixpoint chain_rows_runs (fuel : nat) (yield : St -> Z -> bytes -> St * bool) (pfx : bytes) (byHeight : bool) (to : Z)
    (rs : list Run) (x : Z * bool * St) : res (Z * bool * St) :=
  match rs with
  | [] => Ok x
  | r :: rs =>
      let '(nxt, _, st) := x in
      let f := RFooter r in
      let (lo, hi) := run_lo_hi byHeight f in
      if (ToTx f =? FromTx f) && negb byHeight then chain_rows_runs fuel yield pfx byHeight to rs x
      else if (hi <? nxt) || (to <? lo) then chain_rows_runs fuel yield pfx byHeight to rs x
      else
        let* y := ScanRange fuel r SecChain (numKey pfx nxt) (Some (numKey pfx (u64 (to + 1)))) (chain_row_fn yield) (Ok (nxt, false, st)) in
        let* y := y in
        let '(_, stopped, _) := y in
        if stopped then Ok y else chain_rows_runs fuel yield pfx byHeight to rs y
  end.

(** [for n := next; n <= to; n++]: row [i] of the loop reads at access [2 + 2 i]
    and the one after. *)
Fixpoint chain_rows_windows (fuel : nat) (yield : St -> Z -> bytes -> St * bool) (s : nat -> DB) (i fam a : nat) (f : option nat) (n to : Z) (st : St) : res St :=
  match fuel with
  | O => Panic
  | S fuel =>
      if n <=? to then
        let* m := obj (s (2 + 2 * i)%nat) a in
        let* v := (chainGet m fam n).1 in
        let* v := match v, f with
                  | None, Some f => let* m := obj (s (3 + 2 * i)%nat) f in (chainGet m fam n).1
                  | _, _ => Ok v
                  end in
        match v with
        | None => chain_rows_windows fuel yield s (S i) fam a f (u64 (n + 1)) to st
        | Some v => let (st, more) := yield st n v in
                    if more then chain_rows_windows fuel yield s (S i) fam a f (u64 (n + 1)) to st else Ok st
        end
      else Ok st
  end.

Definition ChainRows (fuel : nat) (s : nat -> DB) (fam : nat) (from to : Z) (yield : St -> Z -> bytes -> St * bool) (st : St) : res St :=
  if to <? from then Ok st else
  match famPrefix !! fam with
  | None => Panic
  | Some pfx =>
      let* x := chain_rows_runs fuel yield pfx (famByHeight fam) to (snapshot (s 0%nat)) (from, false, st) in
      let '(nxt, stopped, st) := x in
      if stopped then Ok st else
      let (a, f) := mems (s 1%nat) in
      chain_rows_windows fuel yield s 0 fam a f nxt to st
  end.

(** ** StateTxNums *)

Definition state_num_fn (lo hi : Z) (fn : St -> Z -> St) (x : res St) (k v : bytes) : res St * bool :=
  match x with
  | Ok st =>
      if has_prefix k PrefixState then
        match TxNumOf k with
        | Ok n => (Ok (if (lo <=? n) && (n <=? hi) then fn st n else st), true)
        | _ => (Panic, false)
        end
      else (Ok st, true)
  | _ => (x, false)
  end.

Fixpoint state_nums_runs (fuel : nat) (lo hi : Z) (fn : St -> Z -> St) (rs : list Run) (st : St) : res St :=
  match rs with
  | [] => Ok st
  | r :: rs =>
      if (ToTx (RFooter r) <=? lo) || (hi <? FromTx (RFooter r)) then state_nums_runs fuel lo hi fn rs st
      else
        let* x := ScanRange fuel r SecState [] None (state_num_fn lo hi fn) (Ok st) in
        let* st := x in state_nums_runs fuel lo hi fn rs st
  end.

Definition state_nums_window (lo hi : Z) (fn : St -> Z -> St) (m : memtable) (st : St) : St :=
  fold_left (fun st p => fold_left (fun st e => if (lo <=? e.1) && (e.1 <=? hi) then fn st e.1 else st) (default [] (state (mem m) !! p)) st)
    (sorted_keys (state (mem m))) st.

Definition StateTxNums (fuel : nat) (s : nat -> DB) (lo hi : Z) (fn : St -> Z -> St) (st : St) : res St :=
  let* st := state_nums_runs fuel lo hi fn (snapshot (s 0%nat)) st in
  let (a, f) := mems (s 1%nat) in
  let* st := match f with None => Ok st | Some f => let* m := obj (s 2%nat) f in Ok (state_nums_window lo hi fn m st) end in
  let* m := obj (s 3%nat) a in
  Ok (state_nums_window lo hi fn m st).

(** ** Postings *)

(** [windowPostings], its accesses from [i] on. *)
Definition windowPostings (s : nat -> DB) (i : nat) : res (list posting) :=
  let (a, f) := mems (s i) in
  let* pf := match f with None => Ok [] | Some f => let* m := obj (s (1 + i)%nat) f in Ok (post (mem m)) end in
  let* m := obj (s (2 + i)%nat) a in
  Ok (pf ++ post (mem m)).

(** sort.SliceStable is a stable sort; insertion keeps equal TxNums in order. *)
Fixpoint insert_by (before : posting -> posting -> bool) (x : posting) (l : list posting) : list posting :=
  match l with [] => [x] | y :: l' => if before x y then x :: l else y :: insert_by before x l' end.
Definition sort_by (before : posting -> posting -> bool) (l : list posting) : list posting := foldr (insert_by before) [] l.
Definition sort_tx (desc : bool) (l : list posting) : list posting :=
  if desc then sort_by (fun x y => ptx y <=? ptx x) l else sort_by (fun x y => ptx x <=? ptx y) l.

Fixpoint emit_all (fn : St -> Z -> Z -> St * bool) (l : list posting) (st : St) : St * bool :=
  match l with
  | [] => (st, true)
  | e :: l => let (st, more) := fn st (ptx e) (payload e) in if more then emit_all fn l st else (st, false)
  end.

Definition emit_sorted (desc : bool) (fn : St -> Z -> Z -> St * bool) (st : St) (l : list posting) : St * bool :=
  emit_all fn (sort_tx desc l) st.

Definition window_posts (prefix : bytes) (lo hi : Z) (l : list posting) : list posting :=
  List.filter (fun p => (lo <=? ptx p) && (ptx p <=? hi) && has_prefix (group p) prefix) l.

Definition run_posts (fuel : nat) (prefix : bytes) (lo hi : Z) (rs : list Run) (i : nat) : res (list posting) :=
  match rs !! i with
  | None => Panic
  | Some r => if (ToTx (RFooter r) <=? lo) || (hi <? FromTx (RFooter r)) then Ok [] else ScanChunks fuel r prefix lo hi
  end.

(** The scan over the runs; the flag is [stop]. *)
Definition scan_posts (fuel : nat) (prefix : bytes) (lo hi : Z) (desc : bool) (fn : St -> Z -> Z -> St * bool) (rs : list Run) (st : St) : res (St * bool) :=
  scan_loop (run_posts fuel prefix lo hi (if desc then reverse rs else rs))
    (fun x ents => let (st, more) := emit_sorted desc fn x.1 ents in ((st, negb more), more)) (length rs) 0 (st, false).

Definition postings (fuel : nat) (s : nat -> DB) (prefix : bytes) (lo hi : Z) (desc : bool) (fn : St -> Z -> Z -> St * bool) (st : St) : res St :=
  if desc then
    let* w := windowPostings s 0 in
    let (st, more) := emit_sorted true fn st (window_posts prefix lo hi w) in
    if more then let* x := scan_posts fuel prefix lo hi true fn (snapshot (s 3%nat)) st in Ok x.1 else Ok st
  else
    let* (st, stop) := scan_posts fuel prefix lo hi false fn (snapshot (s 0%nat)) st in
    if stop then Ok st else
    let* w := windowPostings s 1 in
    Ok (emit_sorted false fn st (window_posts prefix lo hi w)).1.

Definition Postings (fuel : nat) (s : nat -> DB) (prefix : bytes) (lo hi : Z) (fn : St -> Z -> Z -> St * bool) (st : St) := postings fuel s prefix lo hi false fn st.
Definition PostingsDesc (fuel : nat) (s : nat -> DB) (prefix : bytes) (lo hi : Z) (fn : St -> Z -> Z -> St * bool) (st : St) := postings fuel s prefix lo hi true fn st.

(** ** Groups and SetScan *)

Fixpoint each_key (fn : St -> bytes -> St * bool) (l : list bytes) (st : St) : St * bool :=
  match l with
  | [] => (st, true)
  | k :: l => let (st, more) := fn st k in if more then each_key fn l st else (st, false)
  end.

Definition collect (l : list bytes) (k : bytes) : list bytes * bool := (l ++ [k], true).

(** The first posting of each group under the prefix. *)
Fixpoint new_groups (prefix : bytes) (seen : gset bytes) (l : list posting) : list bytes :=
  match l with
  | [] => []
  | p :: l => if has_prefix (group p) prefix && bool_decide (group p ∉ seen)
              then group p :: new_groups prefix ({[group p]} ∪ seen) l else new_groups prefix seen l
  end.

Definition Groups (fuel : nat) (s : nat -> DB) (prefix : bytes) (fn : St -> bytes -> St * bool) (st : St) : res St :=
  let rs := snapshot (s 0%nat) in
  let* (st, stop) := scan_loop (fun i => match rs !! i with None => Panic | Some r => ScanGroups fuel r prefix collect [] end)
    (fun x groups => let (st, more) := each_key fn groups x.1 in ((st, negb more), more)) (length rs) 0 (st, false) in
  if stop then Ok st else
  let* w := windowPostings s 1 in
  Ok (each_key fn (new_groups prefix ∅ w) st).1.

(** [windowSets], its accesses from [i] on: both windows' set rows, sorted; a key
    in both is there twice. *)
Definition set_keys (m : memtable) (prefix : bytes) : list bytes :=
  List.filter (fun k => has_prefix k prefix) (elements (sets (mem m))).
Definition windowSets (s : nat -> DB) (i : nat) (prefix : bytes) : res (list bytes) :=
  let (a, f) := mems (s i) in
  let* pf := match f with None => Ok [] | Some f => let* m := obj (s (1 + i)%nat) f in Ok (set_keys m prefix) end in
  let* m := obj (s (2 + i)%nat) a in
  Ok (merge_sort ble (pf ++ set_keys m prefix)).

(** [visit]: the keys seen so far and the caller's state. *)
Definition visit (fn : St -> bytes -> St * bool) (x : gset bytes * St) (k : bytes) : gset bytes * St * bool :=
  if bool_decide (k ∈ x.1) then (x, true) else
  let (st, more) := fn x.2 k in (({[k]} ∪ x.1, st), more).

Fixpoint visit_all (fn : St -> bytes -> St * bool) (l : list bytes) (x : gset bytes * St) : gset bytes * St * bool :=
  match l with
  | [] => (x, true)
  | k :: l => let (x, more) := visit fn x k in if more then visit_all fn l x else (x, false)
  end.

Definition SetScan (fuel : nat) (s : nat -> DB) (prefix : bytes) (fn : St -> bytes -> St * bool) (st : St) : res St :=
  let rs := snapshot (s 0%nat) in
  let* (x, stop) := scan_loop (fun i => match rs !! i with None => Panic | Some r => ScanSet fuel r prefix collect [] end)
    (fun y ks => let (x, more) := visit_all fn ks y.1 in ((x, negb more), more)) (length rs) 0 ((∅, st), false) in
  if stop then Ok x.2 else
  let* w := windowSets s 1 prefix in
  Ok (visit_all fn w x).1.2.

End Scans.
(** ** A scan beside a publish

    The scans read the run list before they read the window pointers, the other
    way round from the point reads. A window sealed in between is in neither: it
    was not yet a run at the first access and is no longer frozen at the second. *)

Definition rows_fn (l : list (Z * bytes)) (n : Z) (v : bytes) : list (Z * bytes) * bool := (l ++ [(n, v)], true).
Definition posts_fn (l : list Z) (n _ : Z) : list Z * bool := (l ++ [n], true).

(** The trace of DBReads.v: the run list is read while the window is frozen
    ([t2]), everything else after it was published ([t3]). *)
Definition race (i : nat) : DB := match i with O => t2 | _ => t3 end.


End Scans.
