(* ===== verification/ScanRows.v ===== *)
(** * ChainRows is exact on a database at rest (store/db.go)

    One pass over the runs and then the windows hands over every stored row of a
    family in a range of numbers, once, in ascending order. *)

From S2P Require Import Prelude Bytes Rows Ef Format Sha256 Container Memtable MemRecover MemRead Sst RunFile Postings Seal Window Growth KMerge DB Contents Merge Refine DBReads DBHeights ScanPool Scans.
Import Format.

Module ScanRows.
Import Memtable MemRecover MemRead RunFile Seal Growth DB Contents Merge Refine DBReads DBHeights Scans.

(** The consumer over a list of rows, stopping where it says so. *)
Fixpoint feed {St} (yield : St -> Z -> bytes -> St * bool) (st : St) (l : list (Z * bytes)) : St * bool :=
  match l with
  | [] => (st, true)
  | (n, v) :: l => let (st, more) := yield st n v in if more then feed yield st l else (st, false)
  end.

Lemma feed_app {St} (yield : St -> Z -> bytes -> St * bool) a : forall st b,
  feed yield st (a ++ b) = let (st, more) := feed yield st a in if more then feed yield st b else (st, false).
Proof.
  induction a as [|[n v] a IH]; intros st b; [done|]. cbn [app feed]. destruct (yield st n v) as [st' []]; [apply IH|done].
Qed.

(** Where the scan goes on after some rows. *)
Definition after (nxt : Z) (l : list (Z * bytes)) : Z := match last l with Some x => x.1 + 1 | None => nxt end.

Lemma after_cons nxt x l : after (x.1 + 1) l = after nxt (x :: l).
Proof. unfold after. destruct l as [|y l]; [done|]. rewrite last_cons_cons.
  destruct (last (y :: l)) eqn:E; [done|]. by apply last_None in E.
Qed.

(** The run scan's callback over the family's rows. *)
Abbreviation scan_step yield := (fun x k v => let* v := v in Ok (chain_row_fn yield x k v)).
Abbreviation as_rows pfx l := (map (fun x : Z * bytes => (numKey pfx x.1, x.2)) l).

Lemma scan_feed {St} (yield : St -> Z -> bytes -> St * bool) pfx l :
  Forall (fun x => 0 <= x.1 < 2 ^ 63) l -> forall nxt st,
  exists nx, fold_rows (scan_step yield) (Ok (nxt, false, st)) (as_rows pfx l) =
    Ok (Ok (nx, negb (feed yield st l).2, (feed yield st l).1)) /\ ((feed yield st l).2 = true -> nx = after nxt l).
Proof.
  induction 1 as [|[n v] l Hn _ IH]; intros nxt st; [by exists nxt|]. cbn [map fold_rows rbind fst snd feed]. cbn [fst] in Hn.
  unfold chain_row_fn at 1. change (numKey pfx n) with (Suffixed pfx n). rewrite TxNumOf_Suffixed by (unfold u64_ok; lia).
  destruct (yield st n v) as [st' more] eqn:Ey. rewrite u64_small by (unfold u64_ok; lia). destruct more; cbn [negb].
  - destruct (IH (n + 1) st') as (nx & E & Ha). exists nx. split; [exact E|]. intros Hm. rewrite (Ha Hm). apply (after_cons nxt (n, v)).
  - exists (n + 1). by split.
Qed.

(** ** The rows of one run in a range of numbers *)

Lemma numKey_ble pfx n m : u64_ok n -> u64_ok m -> ble (numKey pfx n) (numKey pfx m) <-> n <= m.
Proof.
  intros Hn Hm. unfold ble, numKey. rewrite bcmp_app, bcmp_be by (unfold u64_ok in *; simpl; lia). apply Z.compare_le_iff.
Qed.

Lemma numKey_blt pfx n m : u64_ok n -> u64_ok m -> blt (numKey pfx n) (numKey pfx m) <-> n < m.
Proof.
  intros Hn Hm. unfold blt, numKey. rewrite bcmp_app, bcmp_be by (unfold u64_ok in *; simpl; lia). apply Z.compare_lt_iff.
Qed.

Lemma sorted_range lo hi l : sorted_rows l -> sorted_rows (range lo hi l).
Proof.
  unfold sorted_rows, keys, range. induction l as [|x l IH]; [done|]. cbn [map List.filter]. intros Hs. apply StronglySorted_inv in Hs as [Hs F].
  specialize (IH Hs). destruct (in_range lo hi x.1); [|done]. cbn [map]. constructor; [done|]. rewrite Forall_map, Forall_forall in F |- *.
  intros y Hy. apply F. apply list_elem_of_In in Hy. apply filter_In in Hy as [Hy _]. by apply list_elem_of_In.
Qed.

Lemma range_family l fam pfx a b :
  sorted_rows l -> chain_keyed l -> famPrefix !! fam = Some pfx -> u64_ok a -> u64_ok b ->
  exists rows, range (Some (numKey pfx a)) (Some (numKey pfx b)) l = as_rows pfx rows /\ ascending rows /\
    forall n v, (n, v) ∈ rows <-> a <= n < b /\ u64_ok n /\ aget l (numKey pfx n) = Some v.
Proof.
  intros Hs Hk Hp Ha Hb. set (L := range _ _ l).
  assert (HL : forall k v, (k, v) ∈ L <-> (k, v) ∈ l /\ ble (numKey pfx a) k /\ blt k (numKey pfx b)).
  { intros k v. unfold L, range. rewrite list_elem_of_In, filter_In, <- list_elem_of_In. cbn [fst]. unfold in_range. rewrite andb_true_iff.
    destruct (bleb_spec (numKey pfx a) k), (bltb_spec k (numKey pfx b)); naive_solver. }
  assert (Hrows : Forall (fun x => exists n, u64_ok n /\ a <= n < b /\ x.1 = numKey pfx n) L).
  { apply Forall_forall. intros [k v] Hx. apply HL in Hx as (Hin & H1 & H2). destruct (Hk k v Hin) as (fam' & pfx' & n & Hp' & Hn & ->).
    assert (Hpre : has_prefix (numKey pfx' n) pfx = true).
    { apply (between_has_prefix pfx _ (bigE 8 b)); [|by apply blt_ble]. eapply ble_trans; [|exact H1]. apply ble_prefix. }
    apply has_prefix_spec in Hpre as [r Er]. pose proof (fam_inj _ _ _ _ _ _ Hp' Hp Er) as ->. rewrite Hp in Hp'. injection Hp' as <-.
    exists n. cbn [fst]. apply numKey_ble in H1; [|done..]. apply numKey_blt in H2; [|done..]. split_and!; done || lia. }
  assert (Hsl : sorted_rows L) by (by apply sorted_range).
  assert (Hex : exists rows, L = as_rows pfx rows /\ Forall (fun x => u64_ok x.1 /\ a <= x.1 < b) rows).
  { clear -Hrows. induction Hrows as [|[k v] L' (n & Hn & Hab & E) _ (rows & -> & F)]; [exists []; by split|].
    cbn [fst] in E. subst k. exists ((n, v) :: rows). split; [done|]. by constructor. }
  destruct Hex as (rows & EL & F). exists rows. split_and!; [done| |].
  - rewrite EL in Hsl. clear -Hsl F. unfold sorted_rows, keys in Hsl. rewrite map_map in Hsl. unfold ascending. cbn [fst] in Hsl.
    induction F as [|[n v] rows [Hn _] F IH]; [constructor|]. cbn [map] in *. apply StronglySorted_inv in Hsl as [Hsl G]. constructor; [by apply IH|].
    rewrite Forall_map in G |- *. rewrite Forall_forall in *. intros y Hy. apply (numKey_blt pfx); [done|by apply F|]. by apply G.
  - intros n v. rewrite Forall_forall in F. split.
    + intros Hx. destruct (F _ Hx) as [Hn Hab]. cbn in Hn, Hab. split_and!; try done; try lia. apply sorted_aget; [done|]. apply HL. rewrite EL.
      apply (list_elem_of_fmap_2 (fun x : Z * bytes => (numKey pfx x.1, x.2)) _ (n, v) Hx).
    + intros (Hab & Hn & Hg). apply aget_elem in Hg.
      assert (Hin : (numKey pfx n, v) ∈ L). { apply HL. split_and!; [done|apply numKey_ble; [done..|lia]|apply numKey_blt; [done..|lia]]. }
      rewrite EL in Hin. apply list_elem_of_fmap in Hin as ([n' v'] & E & Hin). cbn [fst snd] in E. injection E as E ->.
      destruct (F _ Hin) as [Hn' _]. cbn in Hn'. apply app_inv_head in E. apply (be_inj 8) in E; [by subst|exact Hn|exact Hn'].
Qed.

(** ** The runs *)

(** The numbers of a family a stretch may hold. *)
Definition numbers (fam : nat) (c : content) : Z * Z := if famByHeight fam then (cFromH c, cToH c) else (cFromTx c, cToTx c).

Lemma numbers_ok fam c n v : content_ok c -> cChain c !! (fam, n) = Some v -> (numbers fam c).1 <= n < (numbers fam c).2.
Proof. intros (_ & _ & _ & _ & Hr & _) Hv. specialize (Hr _ _ _ Hv). unfold numbers. by destruct (famByHeight fam). Qed.

Lemma numbers_before fam c cs c' : tiled (c :: cs) -> Forall content_ok (c :: cs) -> c' ∈ cs -> (numbers fam c).2 <= (numbers fam c').1.
Proof. intros Ht Ho Hc. destruct (tiled_after c cs c' Ht Ho Hc) as (_ & ? & ?). unfold numbers. by destruct (famByHeight fam). Qed.

Lemma after_range nxt to l : Forall (fun x => nxt <= x.1 <= to) l -> nxt <= after nxt l <= Z.max nxt (to + 1).
Proof.
  intros F. unfold after. destruct (last l) as [x|] eqn:E; [|lia]. apply last_Some in E as [l' ->]. apply Forall_app in F as [_ F]. apply Forall_inv in F. lia.
Qed.

Lemma after_above nxt l : ascending l -> Forall (fun x => x.1 < after nxt l) l.
Proof.
  intros Ha. unfold after. destruct (last l) as [x|] eqn:E; [|apply last_None in E as ->; constructor].
  pose proof (ascending_last l x Ha E) as F. eapply Forall_impl; [exact F|]. cbn. lia.
Qed.

Lemma ascending_join a b m : ascending a -> ascending b -> Forall (fun x => x.1 < m) a -> Forall (fun x => m <= x.1) b -> ascending (a ++ b).
Proof.
  intros Ha Hb Fa Fb. apply ascending_concat; [done..|]. intros x y Hx Hy. rewrite Forall_forall in Fa, Fb. specialize (Fa x Hx). specialize (Fb y Hy). cbn in *. lia.
Qed.

Section Exact.
Context `{SSTLaws}.

Lemma run_numbers fam r c : run_serves r c ->
  run_lo_hi (famByHeight fam) (RFooter r) = ((numbers fam c).1, (numbers fam c).2 - 1) /\ (ToTx (RFooter r) =? FromTx (RFooter r)) = false.
Proof.
  intros ((? & ? & ? & ? & _) & ((E1 & E2 & E3 & E4) & (N1 & N2)) & _). unfold run_lo_hi, numbers. rewrite E1, E2, E3. split.
  - destruct (famByHeight fam); cbn [fst snd]; [f_equal; lia|]. by rewrite u64_small by (unfold u64_ok; lia).
  - apply Z.eqb_neq. lia.
Qed.

Lemma runs_feed fam pfx to rs cs :
  Forall2 run_serves rs cs -> tiled cs -> famPrefix !! fam = Some pfx -> 0 <= to -> to + 1 < 2 ^ 63 -> forall nxt, 0 <= nxt < 2 ^ 63 ->
  exists N rows, ascending rows /\
    (forall n v, (n, v) ∈ rows <-> nxt <= n <= to /\ exists c, c ∈ cs /\ cChain c !! (fam, n) = Some v) /\
    forall fuel, (N <= fuel)%nat -> forall St (yield : St -> Z -> bytes -> St * bool) st,
      exists nx, chain_rows_runs fuel yield pfx (famByHeight fam) to rs (nxt, false, st) =
        Ok (nx, negb (feed yield st rows).2, (feed yield st rows).1) /\ ((feed yield st rows).2 = true -> nx = after nxt rows).
Proof.
  intros Hr Ht Hp Hto Hto2. pose proof (serves_ok _ _ Hr) as Ho. revert Ht Ho. induction Hr as [|r c rs cs Hrc Hr IH]; intros Ht Ho nxt Hn.
  { exists 0%nat, []. split_and!; [constructor| |].
    - intros n v. split; [by intros ?%not_elem_of_nil|]. intros (_ & c & Hc & _). by apply not_elem_of_nil in Hc.
    - intros fuel _ St yield st. by exists nxt. }
  pose proof Ho as Ho'. apply Forall_cons in Ho' as [Hc Hcs]. assert (Ht' : tiled cs) by (by destruct Ht).
  destruct (run_numbers fam r c Hrc) as [Elh Ene]. cbn [chain_rows_runs]. rewrite Elh, Ene. cbn [andb].
  destruct (((numbers fam c).2 - 1 <? nxt) || (to <? (numbers fam c).1)) eqn:Eskip.
  - destruct (IH Ht' Hcs nxt Hn) as (N & rows & H1 & H2 & H3). exists N, rows. split_and!; [done| |done].
    intros n v. rewrite H2. split; intros (Hrange & c' & Hc' & Hv); (split; [done|]); [exists c'; set_solver|].
    apply elem_of_cons in Hc' as [->|Hc']; [|by exists c']. exfalso. pose proof (numbers_ok fam c n v Hc Hv).
    apply orb_prop in Eskip as [E|E]; apply Z.ltb_lt in E; lia.
  - pose proof Hrc as (_ & _ & R & Hh & Hrep). pose proof Hrep as (_ & _ & Hget & _ & _ & _ & _ & Hck).
    destruct (range_family (R SecChain) fam pfx nxt (to + 1)) as (rows1 & E1 & A1 & M1); [apply Hh|done|done|unfold u64_ok; lia..|].
    assert (M1' : forall n v, (n, v) ∈ rows1 <-> nxt <= n <= to /\ cChain c !! (fam, n) = Some v).
    { intros n v. rewrite M1. split; intros (? & Hx).
      - destruct Hx as [Hu Hg]. rewrite (Hget fam pfx n Hp Hu) in Hg. split; [lia|done].
      - assert (u64_ok n) by (unfold u64_ok; lia). rewrite (Hget fam pfx n Hp) by done. split_and!; lia || done. }
    assert (F1 : Forall (fun x => nxt <= x.1 <= to) rows1) by (apply Forall_forall; intros [n v] Hx; by apply M1' in Hx as [? _]).
    pose proof (after_range nxt to rows1 F1) as Haft. pose proof (after_above nxt rows1 A1) as Habove.
    destruct (IH Ht' Hcs (after nxt rows1)) as (N & rows2 & A2 & M2 & R2); [lia|].
    assert (F2 : Forall (fun x => after nxt rows1 <= x.1) rows2) by (apply Forall_forall; intros [n v] Hx; apply M2 in Hx as [? _]; cbn; lia).
    exists (Nat.max N (length (R SecChain))), (rows1 ++ rows2). split_and!.
    + by apply (ascending_join _ _ (after nxt rows1)).
    + intros n v. rewrite elem_of_app, M1', M2. split.
      * intros [[? Hv]|(? & c' & Hc' & Hv)]; (split; [lia|]); [exists c; set_solver|exists c'; set_solver].
      * intros (Hrange & c' & Hc' & Hv). apply elem_of_cons in Hc' as [->|Hc']; [by left|right]. split; [|by exists c'].
        split; [|lia]. unfold after. destruct (last rows1) as [[n0 v0]|] eqn:El; [|lia]. apply last_Some in El as [l El].
        assert (Hin : (n0, v0) ∈ rows1) by (rewrite El; set_solver). apply M1' in Hin as [_ Hv0].
        pose proof (numbers_ok fam c n0 v0 Hc Hv0). rewrite Forall_forall in Hcs. pose proof (numbers_ok fam c' n v (Hcs c' Hc') Hv).
        pose proof (numbers_before fam c cs c' Ht Ho Hc'). cbn. lia.
    + intros fuel Hf St yield st. rewrite u64_small by (unfold u64_ok; lia).
      rewrite (ScanRange_ok fuel r R SecChain) by (done || lia). rewrite E1.
      destruct (scan_feed yield pfx rows1) with (nxt := nxt) (st := st) as (nx & Es & Ha).
      { eapply Forall_impl; [exact F1|]. cbn. lia. }
      rewrite Es. cbn [rbind]. rewrite feed_app. destruct (feed yield st rows1) as [st1 more]. cbn [fst snd negb] in *. destruct more; cbn [negb].
      * rewrite (Ha eq_refl). destruct (R2 fuel ltac:(lia) St yield st1) as (nx2 & Er & Ha2). exists nx2. split; [exact Er|].
        intros Hm. rewrite (Ha2 Hm). unfold after. rewrite last_app. destruct (last rows2); done.
      * exists nx. by split.
Qed.

(** ** The windows *)

Lemma windows_feed d base cs L p fam to : Inv d base cs L p -> (fam < 6)%nat -> to + 1 < 2 ^ 63 -> forall k nxt, 0 <= nxt -> to + 1 - nxt <= Z.of_nat k ->
  exists rows, ascending rows /\ Forall (fun x => nxt <= x.1) rows /\
    (forall n v, (n, v) ∈ rows <-> nxt <= n <= to /\ look (chain_of (fam, n)) (drop p L) = Some v) /\
    forall fuel i, (k < fuel)%nat -> forall St (yield : St -> Z -> bytes -> St * bool) st,
      chain_rows_windows fuel yield (fun _ => d) i fam (dmem d) (dfrozen d) nxt to st = Ok (feed yield st rows).1.
Proof.
  intros HI Hfam Hto. induction k as [|k IH]; intros nxt Hn Hk.
  - exists []. split_and!; [constructor|constructor| |].
    + intros n v. split; [by intros ?%not_elem_of_nil|]. intros [? _]. lia.
    + intros [|fuel] i Hf St yield st; [lia|]. cbn [chain_rows_windows]. by rewrite (proj2 (Z.leb_gt _ _)) by lia.
  - destruct (Z.leb_spec nxt to) as [Hle|Hgt].
    2: { exists []. split_and!; [constructor|constructor| |].
      - intros n v. split; [by intros ?%not_elem_of_nil|]. intros [? _]. lia.
      - intros [|fuel] i Hf St yield st; [lia|]. cbn [chain_rows_windows]. by rewrite (proj2 (Z.leb_gt _ _)) by lia. }
    destruct (IH (nxt + 1)) as (rows & A & F & M & R); [lia..|].
    assert (Hread : exists m, obj d (dmem d) = Ok m /\
      (let* v := (chainGet m fam nxt).1 in match v, dfrozen d with None, Some f => let* m := obj d f in (chainGet m fam nxt).1 | _, _ => Ok v end) =
        Ok (look (chain_of (fam, nxt)) (drop p L))).
    { pose proof HI as (_ & _ & _ & _ & HL & Hf & _).
      destruct (Inv_obj _ _ _ _ _ (dmem d) HI) as (m & c & Em & Hc & _ & Hop); [lia|]. exists m. split; [done|].
      rewrite (open_chainGet m c) by (done || (apply Hop; lia)). cbn [fst rbind].
      destruct Hf as [[-> Hd]|[Hfz Hd]].
      - rewrite (drop_S L c p), drop_ge by (done || lia || by rewrite Hd). cbn [look]. unfold chain_of. by destruct (cChain c !! (fam, nxt)).
      - rewrite Hfz. destruct (Inv_obj _ _ _ _ _ p HI) as (m2 & c2 & Em2 & Hc2 & _ & Hop2); [lia|]. rewrite Em2. cbn [rbind].
        rewrite (open_chainGet m2 c2) by (done || (apply Hop2; lia)). cbn [fst].
        rewrite (drop_S L c2 p Hc2), (drop_S L c (S p)), drop_ge by (lia || by rewrite <- Hd). cbn [look]. unfold chain_of.
        by destruct (cChain c !! (fam, nxt)). }
    destruct Hread as (m & Em & Hread). destruct (look (chain_of (fam, nxt)) (drop p L)) as [v0|] eqn:El.
    + exists ((nxt, v0) :: rows). split_and!.
      * unfold ascending. cbn [map]. constructor; [exact A|]. rewrite Forall_map. eapply Forall_impl; [exact F|]. cbn. lia.
      * constructor; [cbn; lia|]. eapply Forall_impl; [exact F|]. cbn. lia.
      * intros n v. rewrite elem_of_cons, M. split.
        -- intros [[= -> ->]|[? Hv]]; [split; [lia|done]|split; [lia|done]].
        -- intros [Hr Hv]. destruct (decide (n = nxt)) as [->|]; [left; congruence|right; split; [lia|done]].
      * intros [|fuel] i Hf St yield st; [lia|]. cbn [chain_rows_windows feed]. rewrite (proj2 (Z.leb_le _ _) Hle), Em. cbn [rbind].
        destruct ((chainGet m fam nxt).1) as [w| |]; cbn [rbind] in Hread |- *; try done. rewrite Hread. cbn [rbind].
        destruct (yield st nxt v0) as [st' []]; [|done]. rewrite u64_small by (unfold u64_ok; lia). apply R. lia.
    + exists rows. split_and!; [done|eapply Forall_impl; [exact F|]; cbn; lia| |].
      * intros n v. rewrite M. split; intros [Hr Hv]; [split; [lia|done]|]. destruct (decide (n = nxt)) as [->|]; [congruence|]. split; [lia|done].
      * intros [|fuel] i Hf St yield st; [lia|]. cbn [chain_rows_windows]. rewrite (proj2 (Z.leb_le _ _) Hle), Em. cbn [rbind].
        destruct ((chainGet m fam nxt).1) as [w| |]; cbn [rbind] in Hread |- *; try done. rewrite Hread. cbn [rbind].
        rewrite u64_small by (unfold u64_ok; lia). apply R. lia.
Qed.

(** ChainRows is the range, whole and in order. On a database at rest, with
    enough fuel, the pass over the runs and the windows hands the consumer the
    rows of one family with numbers in [from, to], each stored row exactly once,
    in strictly ascending order, runs and windows joined without a gap or a
    repeat, and stops where the consumer stops; it never fails. *)
Theorem chain_rows_exact d X fam from to :
  shows d X -> (fam < 6)%nat -> 0 <= from <= to -> to + 1 < 2 ^ 63 ->
  exists N rows, ascending rows /\ (forall n v, (n, v) ∈ rows <-> from <= n <= to /\ aChain X (fam, n) = Some v) /\
    forall fuel, (N <= fuel)%nat -> forall St (yield : St -> Z -> bytes -> St * bool) st,
      ChainRows fuel (fun _ => d) fam from to yield st = Ok (feed yield st rows).1.
Proof.
  intros (base & cs & L & p & HI & (E1 & _)) Hfam Hft Hto. destruct (lookup_lt_is_Some_2 famPrefix fam) as [pfx Hp]; [done|].
  destruct (live_ok _ _ _ _ _ HI) as (Ht & Hok & Hl). pose proof HI as (Hr & _). pose proof Ht as Htcs. apply tiled_app in Htcs as [Htcs _].
  destruct (runs_feed fam pfx to (ver d) cs Hr Htcs Hp ltac:(lia) Hto from ltac:(lia)) as (N & rows1 & A1 & M1 & R1).
  assert (F1 : Forall (fun x => from <= x.1 <= to) rows1) by (apply Forall_forall; intros [n v] Hx; by apply M1 in Hx as [? _]).
  pose proof (after_range from to rows1 F1) as Haft. pose proof (after_above from rows1 A1) as Habove.
  destruct (windows_feed d base cs L p fam to HI Hfam Hto (Z.to_nat (to + 1)) (after from rows1)) as (rows2 & A2 & F2 & M2 & R2); [lia..|].
  exists (Nat.max N (S (Z.to_nat (to + 1)))), (rows1 ++ rows2). split_and!.
  - by apply (ascending_join _ _ (after from rows1)).
  - intros n v. rewrite elem_of_app, M1, M2, <- E1. cbn [store_of aChain]. rewrite Hl. pose proof Hok as Ho. rewrite Forall_forall in Ho. split.
    + intros [(Hr1 & c & Hc & Hv)|(Hr2 & Hv)]; (split; [lia|]).
      * apply (chain_unique _ c); try done. apply elem_of_app. by left.
      * by rewrite look_app, Hv.
    + intros (Hrange & Hv). rewrite look_app in Hv. destruct (look (chain_of (fam, n)) (drop p L)) as [w|] eqn:Ew.
      * injection Hv as ->. right. split; [|done]. split; [|lia]. unfold after. destruct (last rows1) as [[n0 v0]|] eqn:El; [|lia].
        apply last_Some in El as [l El]. assert (Hin : (n0, v0) ∈ rows1) by (rewrite El; set_solver). apply M1 in Hin as (_ & c & Hc & Hv0).
        apply look_Some_In in Ew as (z & Hz & Hzv). apply list_elem_of_split in Hc as (l1 & l2 & ->). rewrite <- app_assoc in Ht, Hok. cbn [app] in Ht, Hok.
        apply tiled_app in Ht as [_ Ht]. apply Forall_app in Hok as [_ Hok].
        pose proof (numbers_before fam c (l2 ++ drop p L) z Ht Hok ltac:(set_solver)). apply Forall_cons in Hok as [Hc Hok]. rewrite Forall_forall in Hok.
        pose proof (numbers_ok fam c n0 v0 Hc Hv0). pose proof (numbers_ok fam z n v (Hok z ltac:(set_solver)) Hzv). cbn. lia.
      * left. split; [done|]. by apply look_Some_In in Hv.
  - intros fuel Hf St yield st. unfold ChainRows, snapshot. rewrite (proj2 (Z.ltb_ge _ _)) by lia. rewrite Hp.
    destruct (R1 fuel ltac:(lia) St yield st) as (nx & -> & Ha). cbn [rbind]. rewrite feed_app. destruct (feed yield st rows1) as [st1 more].
    cbn [fst snd] in *. destruct more; cbn [negb]; [|done]. unfold mems. rewrite (Ha eq_refl). apply R2. lia.
Qed.

End Exact.

Lemma chain_rows_exact_witness :
  exists N rows, ascending rows /\ forall fuel, (N <= fuel)%nat -> ChainRows fuel (fun _ => t6) famHdr 1 2 rows_fn [] = Ok (feed rows_fn [] rows).1.
Proof.
  destruct sample_shows as (_ & _ & X6 & _ & _ & _ & _ & H6 & _).
  destruct (chain_rows_exact t6 X6 famHdr 1 2 H6) as (N & rows & H1 & _ & H2); [unfold famHdr; lia|lia|lia|].
  exists N, rows. split; [exact H1|]. intros fuel Hf. exact (H2 fuel Hf _ rows_fn []).
Defined.

End ScanRows.
