(* ===== verification/LatestRun.v ===== *)
(** * latest/run.go: the front-coded sorted run

    The writer that packs ascending rows into 4096 byte blocks with an index of
    first-key prefixes and a checksummed footer, and the reader over the bytes
    it wrote: [Open], the two-level [seek], the [scanBlock] that never
    materialises a key, and the range iterator. The file is the byte list the
    writer emitted; writes, syncs and the mapping succeed. *)

From S2P Require Import Prelude Bytes Rows.

Module LatestRun.

Definition blockSize : Z := 4096.
Definition prefixLen : Z := 40.
Definition footerLen : Z := 76.
Definition maxKey : Z := 255.
Definition maxValue : Z := 255.
Definition magic : bytes := str "epochrun".
Definition version : Z := 1.

(** ** hash/crc32, IEEE polynomial, at 32 bits *)

Fixpoint crc_entry (n : nat) (c : Z) : Z :=
  match n with
  | O => c
  | S n => crc_entry n (if Z.testbit c 0 then Z.lxor (Z.shiftr c 1) 3988292384 else Z.shiftr c 1)
  end.

Definition crc_step (c b : Z) : Z :=
  Z.lxor (crc_entry 8 (Z.land (Z.lxor c b) 255)) (Z.shiftr c 8).

(** [crc32.Update(crc, IEEETable, p)] *)
Definition crc32_Update (crc : Z) (p : bytes) : Z :=
  u32 (Z.lxor (fold_left crc_step p (Z.lxor crc (2 ^ 32 - 1))) (2 ^ 32 - 1)).
Definition crc32_ChecksumIEEE (p : bytes) : Z := crc32_Update 0 p.

Example crc32_check : crc32_ChecksumIEEE (str "123456789") = 3421780262.
Proof. vm_compute. reflexivity. Qed.

(** ** Writer *)

Record Writer := MkWriter {
  wout : bytes;   (* what has gone to the file *)
  blk : bytes;    (* current block: header then entries *)
  prev : bytes;   (* last key added *)
  windex : bytes; (* packed first-key prefixes *)
  wn : Z;
  user : bytes }.

Definition NewWriter : Writer := MkWriter [] [0; 0] [] [] 0 (replicate 32 0).
Definition SetUserData (u : bytes) (w : Writer) : Writer :=
  MkWriter (wout w) (blk w) (prev w) (windex w) (wn w) u.

(** [for shared < len(prev) && shared < len(key) && prev[shared] == key[shared]] *)
Fixpoint shared_len (a b : bytes) : Z :=
  match a, b with
  | x :: a, y :: b => if x =? y then 1 + shared_len a b else 0
  | _, _ => 0
  end.

(** [var p [n]byte; copy(p[:], key)] *)
Definition fit (n : nat) (key : bytes) : bytes := take n (key ++ replicate n 0).

Definition flush (w : Writer) : Writer :=
  let used := len (blk w) in
  if used =? 2 then w
  else
    let b := litE 2 used ++ drop 2 (blk w) in
    let b := b ++ replicate (Z.to_nat (blockSize - used)) 0 in
    MkWriter (wout w ++ b) (take 2 b) (prev w) (windex w) (wn w) (user w).

Definition Add (w : Writer) (key value : bytes) : res Writer :=
  if (len key =? 0) || (maxKey <? len key) || (maxValue <? len value)
  then Err "latest: key or value length"
  else if (0 <? wn w) && bleb key (prev w) then Err "latest: key not after"
  else
    let '(w, shared) :=
      if 2 <? len (blk w) then
        let shared := shared_len (prev w) key in
        if blockSize <? len (blk w) + 3 + len key - shared + len value
        then (flush w, 0) else (w, shared)
      else (w, 0) in
    let idx := if len (blk w) =? 2 then windex w ++ fit 40 key else windex w in
    let b := blk w ++ [shared mod 256; (len key - shared) mod 256; len value mod 256] in
    let* suf := slice_from key shared in
    Ok (MkWriter (wout w) (b ++ suf ++ value) key idx (u64 (wn w + 1)) (user w)).

(** [Close]: the bytes of the file. *)
Definition footer (w : Writer) : bytes :=
  let nblk := u64 (len (windex w) / prefixLen) in
  magic ++ litE 4 version ++ litE 4 blockSize ++ litE 8 (wn w) ++ litE 8 nblk
  ++ litE 8 (u64 (nblk * blockSize)) ++ user w.

Definition Close (w : Writer) : bytes :=
  let w := flush w in
  let ft := footer w in
  wout w ++ windex w ++ ft ++ litE 4 (crc32_Update (crc32_ChecksumIEEE (windex w)) ft).

(** ** Run *)

Record Run := MkRun { mm : bytes; rindex : bytes; nblk : Z; rn : Z; ruser : bytes }.

(** [binary.LittleEndian.UintN(ft[off:])] *)
Definition le_at (n : nat) (ft : bytes) (off : Z) : res Z :=
  let* b := slice_from ft off in le_get n b.

Definition Open (f : bytes) : res Run :=
  let size := len f in
  if size <? footerLen then Err "latest: no footer" else
  let* ft := slice_from f (size - footerLen) in
  let* nb := le_at 8 ft 24 in
  let* ioff := le_at 8 ft 32 in
  let* mg := slice ft 0 8 in
  let* ver := le_at 4 ft 8 in
  let* bs := le_at 4 ft 12 in
  if negb (beqb mg magic) || negb (ver =? version) || negb (bs =? blockSize)
     || (u64 size / blockSize <? nb) || negb (ioff =? u64 (nb * blockSize))
     || negb (u64 (u64 (ioff + u64 (nb * prefixLen)) + footerLen) =? u64 size)
  then Err "latest: bad footer" else
  let* index := slice f ioff (u64 (ioff + u64 (nb * prefixLen))) in
  let* h := slice ft 0 72 in
  let* sum := le_at 4 ft 72 in
  if negb (crc32_Update (crc32_ChecksumIEEE index) h =? sum)
  then Err "latest: index checksum mismatch" else
  let* n := le_at 8 ft 16 in
  let* u := slice ft 40 72 in
  Ok (MkRun f index (i64 nb) n u).

Definition block (r : Run) (b : Z) : res bytes := slice (mm r) (b * blockSize) ((b + 1) * blockSize).
Definition prefix (r : Run) (b : Z) : res bytes :=
  slice (rindex r) (b * prefixLen) (b * prefixLen + prefixLen).

Definition firstKey (r : Run) (b : Z) : res bytes :=
  let* blk := block r b in
  let* un := index blk 3 in
  slice blk 5 (5 + un).

(** [for lo < hi { m := (lo+hi)/2; if f(m) { lo = m+1 } else { hi = m } }] *)
Fixpoint bsearch (fuel : nat) (f : Z -> res bool) (lo hi : Z) : res Z :=
  if lo <? hi then
    match fuel with
    | O => Panic
    | S fuel =>
        let m := (lo + hi) / 2 in
        let* t := f m in
        if t then bsearch fuel f (m + 1) hi else bsearch fuel f lo m
    end
  else Ok lo.

Definition seek (r : Run) (key : bytes) : res Z :=
  let kp := fit 40 key in
  let fuel := S (Z.to_nat (nblk r)) in
  let* lo := bsearch fuel (fun m => let* p := prefix r m in Ok (bleb p kp)) 0 (nblk r) in
  let b := lo - 1 in
  if b <? 0 then Ok b else
  let* p := prefix r b in
  if negb (beqb p kp) then Ok b else
  let* fk := firstKey r b in
  if bleb fk key then Ok b else
  let* lo := bsearch fuel (fun m => let* p := prefix r m in Ok (bltb p kp)) 0 b in
  let* lo := bsearch fuel (fun m => let* k := firstKey r m in Ok (bleb k key)) lo b in
  Ok (lo - 1).

(** The walk of a block's entries at offset [i], [eq] the number of leading
    bytes the previous entry's key shares with [key]. *)
Fixpoint scan_loop (fuel : nat) (b key : bytes) (used eq i : Z) : res (option bytes) :=
  if i <? used then
    match fuel with
    | O => Panic
    | S fuel =>
        let* sh := index b i in
        let* un := index b (i + 1) in
        let* vl := index b (i + 2) in
        let i := i + 3 in
        if sh <? eq then Ok None
        else if sh =? eq then
          let* suf := slice b i (i + un) in
          let* rest := slice_from key eq in
          let n := Z.min (len suf) (len rest) in
          let j := shared_len suf rest in
          if ((j <? n) && (default 0 (rest !! Z.to_nat j) <? default 0 (suf !! Z.to_nat j)))
             || ((j =? n) && (len rest <? len suf)) then Ok None
          else if (j =? n) && (len suf =? len rest) then
            let* v := slice b (i + un) (i + un + vl) in Ok (Some v)
          else scan_loop fuel b key used (eq + j) (i + (un + vl))
        else scan_loop fuel b key used eq (i + (un + vl))
    end
  else Ok None.

Definition scanBlock (b key : bytes) : res (option bytes) :=
  let* used := le_get 2 b in
  scan_loop (S (length b)) b key used 0 2.

Definition Get (r : Run) (key : bytes) : res (option bytes) :=
  let* b := seek r key in
  if b <? 0 then Ok None
  else let* bl := block r b in scanBlock bl key.

(** ** The iterator *)

Record runIter := MkIter {
  ir : Run; ilo : option bytes; ihi : option bytes;
  ib : Z; ii : Z; iused : Z; iblk : bytes; ikey : bytes; ival : bytes }.

Definition Iter (r : Run) (lo hi : option bytes) : res runIter :=
  let it b := MkIter r lo hi b 0 0 [] [] [] in
  match lo with
  | None => Ok (it (-1))
  | Some l => let* b := seek r l in Ok (it (if 0 <? b then b - 1 else -1))
  end.

(** The block-advance loop of [step]. *)
Fixpoint advance (fuel : nat) (it : runIter) : res (option runIter) :=
  if ii it <? iused it then Ok (Some it) else
  match fuel with
  | O => Panic
  | S fuel =>
      let b := ib it + 1 in
      if nblk (ir it) <=? b then
        Ok None
      else
        let* bl := block (ir it) b in
        let* used := le_get 2 bl in
        advance fuel (MkIter (ir it) (ilo it) (ihi it) b 2 used bl (ikey it) (ival it))
  end.

Definition step (it : runIter) : res (option runIter) :=
  let* o := advance (S (S (Z.to_nat (nblk (ir it))))) it in
  match o with
  | None => Ok None
  | Some it =>
      let b := iblk it in
      let* sh := index b (ii it) in
      let* un := index b (ii it + 1) in
      let* vl := index b (ii it + 2) in
      let i := ii it + 3 in
      let* kept := slice (ikey it) 0 sh in
      let* suf := slice b i (i + un) in
      let* val := slice b (i + un) (i + un + vl) in
      Ok (Some (MkIter (ir it) (ilo it) (ihi it) (ib it) (i + un + vl) (iused it) b
        (kept ++ suf) val))
  end.

(** [Next]: [Some it] is [true] with the iterator on the next row. The rows of
    the run bound the rows the low bound skips. *)
Fixpoint next_loop (fuel : nat) (it : runIter) : res (option runIter) :=
  let* o := step it in
  match o with
  | None => Ok None
  | Some it =>
      let skip := match ilo it with Some lo => bltb (ikey it) lo | None => false end in
      if skip then match fuel with O => Panic | S fuel => next_loop fuel it end
      else
        let it := MkIter (ir it) None (ihi it) (ib it) (ii it) (iused it) (iblk it)
                    (ikey it) (ival it) in
        match ihi it with
        | Some hi => if bleb hi (ikey it) then Ok None else Ok (Some it)
        | None => Ok (Some it)
        end
  end.

Definition Next (it : runIter) : res (option runIter) := next_loop (length (mm (ir it))) it.

#[global] Instance runIter_iterator : Iterator runIter :=
  { it_next := Next; it_key := ikey; it_val := ival }.

(** Writing a list of rows through a fresh writer. *)
Fixpoint add_all (w : Writer) (l : list row) : res Writer :=
  match l with
  | [] => Ok w
  | (k, v) :: l => let* w := Add w k v in add_all w l
  end.

Definition write_run (u : bytes) (l : list row) : res bytes :=
  let* w := add_all (SetUserData u NewWriter) l in Ok (Close w).

(** ** The abstract file: blocks of rows *)

Definition row_ok (r : row) : Prop :=
  1 <= len r.1 <= 255 /\ len r.2 <= 255 /\ Forall byte_ok r.1.

Definition enc_row (p : bytes) (r : row) : bytes :=
  let sh := shared_len p r.1 in
  [sh; len r.1 - sh; len r.2] ++ drop (Z.to_nat sh) r.1 ++ r.2.

Fixpoint enc_rows (p : bytes) (l : list row) : bytes :=
  match l with [] => [] | r :: l => enc_row p r ++ enc_rows r.1 l end.

Definition used_of (l : list row) : Z := 2 + len (enc_rows [] l).

Definition enc_block (l : list row) : bytes :=
  litE 2 (used_of l) ++ enc_rows [] l ++ replicate (Z.to_nat (blockSize - used_of l)) 0.

Definition first_of (l : list row) : bytes := match l with [] => [] | r :: _ => r.1 end.
Definition last_key (l : list row) : bytes := match last l with Some r => r.1 | None => [] end.

Definition block_ok (l : list row) : Prop := l <> [] /\ used_of l <= blockSize.

(** A run over these blocks of ascending rows. *)
Record is_run (r : Run) (bs : list (list row)) : Prop := {
  run_mm : exists rest, mm r = concat (map enc_block bs) ++ rest;
  run_index : rindex r = concat (map (fun b => fit 40 (first_of b)) bs);
  run_nblk : nblk r = len bs;
  run_blocks : Forall block_ok bs;
  run_rows : Forall row_ok (concat bs);
  run_sorted : sorted_rows (concat bs) }.

(** ** Shared prefixes *)

Lemma shared_len_bounds a b : 0 <= shared_len a b /\ shared_len a b <= len a /\ shared_len a b <= len b.
Proof.
  revert b; induction a as [|x a IH]; intros [|y b]; simpl; lens; try lensimp.
  case_test; [specialize (IH b); lia|lensimp].
Qed.

Lemma shared_len_take a b :
  take (Z.to_nat (shared_len a b)) a = take (Z.to_nat (shared_len a b)) b.
Proof.
  revert b; induction a as [|x a IH]; intros [|y b]; simpl; try done.
  case_test; [|done]. subst. pose proof (shared_len_bounds a b) as [? _].
  rewrite (Z2Nat.inj_add 1) by lia. simpl. by rewrite IH.
Qed.

Lemma shared_take_drop p k :
  take (Z.to_nat (shared_len p k)) p ++ drop (Z.to_nat (shared_len p k)) k = k.
Proof. rewrite shared_len_take. apply take_drop. Qed.

Lemma shared_len_app p a b : shared_len (p ++ a) (p ++ b) = len p + shared_len a b.
Proof.
  induction p as [|x p IH]; simpl; [by lens|]. rewrite Z.eqb_refl, IH. lens. lia.
Qed.

(** Two keys taken apart at their shared prefix. *)
Lemma shared_split a b :
  exists p a' b', a = p ++ a' /\ b = p ++ b' /\ shared_len a b = len p /\
    shared_len a' b' = 0.
Proof.
  revert b; induction a as [|x a IH]; intros b; [by exists [], [], b|].
  destruct b as [|y b]; [by exists [], (x :: a), []|]. simpl. case_test.
  - subst. destruct (IH b) as (p & a' & b' & -> & -> & -> & ?). exists (y :: p), a', b'.
    split_and!; [done|done|lens; lia|done].
  - exists [], (x :: a), (y :: b). split_and!; try done. simpl.
    by rewrite (proj2 (Z.eqb_neq _ _)).
Qed.

(** Keys that share nothing are ordered by their first bytes. *)
Lemma blt_shared0 a b :
  shared_len a b = 0 ->
  blt a b <-> match a, b with
              | [], [] => False | [], _ :: _ => True | _ :: _, [] => False
              | x :: _, y :: _ => x < y end.
Proof.
  destruct a as [|x a], b as [|y b]; simpl; intros H; unfold blt; simpl; try (split; done).
  destruct (Z.compare_spec x y) as [->|Hlt|Hgt].
  - rewrite Z.eqb_refl in H. pose proof (shared_len_bounds a b). lia.
  - done.
  - split; [done|lia].
Qed.

Lemma blt_app p a b : blt (p ++ a) (p ++ b) <-> blt a b.
Proof. unfold blt. by rewrite bcmp_app. Qed.

(** [k] leaves [p] before [key] does, upwards: it is past [key]. *)
Lemma diverge p k key :
  shared_len p k < shared_len p key -> blt p k ->
  blt key k /\ shared_len key k = shared_len p k.
Proof.
  intros Hs Hlt. destruct (shared_split p k) as (q & p1 & k1 & Hp & -> & Hq & H0).
  rewrite Hq in *. subst p. apply blt_app in Hlt.
  assert (exists y, key = q ++ y /\ shared_len (q ++ p1) key = len q + shared_len p1 y) as (y & -> & Hy).
  { pose proof (shared_len_take (q ++ p1) key) as Ht.
    exists (drop (length q) key). apply (f_equal (take (length q))) in Ht.
    rewrite !take_take, !Nat.min_l in Ht by (unfold len in Hs; lia). rewrite take_app_length in Ht.
    assert (Hk : key = q ++ drop (length q) key) by (rewrite Ht at 1; by rewrite take_drop).
    split; [done|]. rewrite Hk at 1. apply shared_len_app. }
  rewrite Hy in Hs. rewrite shared_len_app, blt_app.
  apply blt_shared0 in Hlt; [|done].
  destruct p1 as [|c p1], k1 as [|d k1]; try done; destruct y as [|c' y]; simpl in Hs; try lia.
  destruct (Z.eqb_spec c c') as [<-|]; [|lia].
  simpl. rewrite (proj2 (Z.eqb_neq _ _)) by lia. split; [|lia].
  unfold blt. simpl. by rewrite (proj2 (Z.compare_lt_iff _ _)).
Qed.

(** [k] and [key] leave [p] at the same byte: their order is their suffixes'. *)
Lemma same_fork p k key s :
  shared_len p k = s -> shared_len p key = s ->
  exists q k1 key1, k = q ++ k1 /\ key = q ++ key1 /\ len q = s /\
    drop (Z.to_nat s) k = k1 /\ drop (Z.to_nat s) key = key1.
Proof.
  intros H1 H2. exists (take (Z.to_nat s) p), (drop (Z.to_nat s) k), (drop (Z.to_nat s) key).
  pose proof (shared_len_take p k) as E1. pose proof (shared_len_take p key) as E2.
  pose proof (shared_len_bounds p k). rewrite H1 in E1. rewrite H2 in E2.
  split_and!; [by rewrite E1, take_drop|by rewrite E2, take_drop| |done|done].
  unfold len in *. rewrite length_take. lia.
Qed.

(** What the suffix comparison of [scanBlock] decides. *)
Lemma suffix_cmp suf rest :
  let n := Z.min (len suf) (len rest) in
  let j := shared_len suf rest in
  let after := ((j <? n) && (default 0 (rest !! Z.to_nat j) <? default 0 (suf !! Z.to_nat j)))
     || ((j =? n) && (len rest <? len suf)) in
  let same := (j =? n) && (len suf =? len rest) in
  if after then blt rest suf else if same then suf = rest else blt suf rest.
Proof.
  destruct (shared_split suf rest) as (q & a & b & -> & -> & Hj & H0). cbn zeta. rewrite Hj, !len_app.
  assert (E : forall a b, blt (q ++ a) (q ++ b) = blt a b)
    by (intros; unfold blt; by rewrite bcmp_app).
  rewrite len_to_nat, !E.
  replace ((q ++ b) !! length q) with (b !! 0%nat)
    by (rewrite lookup_app_r by lia; f_equal; lia).
  replace ((q ++ a) !! length q) with (a !! 0%nat)
    by (rewrite lookup_app_r by lia; f_equal; lia).
  destruct a as [|x a], b as [|y b]; cbn [lookup list_lookup default length] in *; lens.
  - ztests; done.
  - pose proof (len_nonneg b). ztests; done.
  - pose proof (len_nonneg a). ztests; done.
  - pose proof (len_nonneg a). pose proof (len_nonneg b).
    pose proof (blt_shared0 _ _ H0) as Hlt.
    assert (x <> y). { intros ->. simpl in H0. rewrite Z.eqb_refl in H0.
      pose proof (shared_len_bounds a b). lia. }
    unfold id. ztests; try (apply Hlt; lia); unfold blt; simpl;
      by rewrite (proj2 (Z.compare_lt_iff _ _)) by lia.
Qed.

(** Reading an entry's header and parts in place. *)
Lemma index_at a h b i : i = len a -> index (a ++ [h] ++ b) i = Ok h.
Proof. apply index_app. Qed.

Lemma enc_row_read pre p r post :
  row_ok r ->
  let b := pre ++ enc_row p r ++ post in
  let sh := shared_len p r.1 in let un := len r.1 - sh in let i := len pre in
  index b i = Ok sh /\ index b (i + 1) = Ok un /\ index b (i + 2) = Ok (len r.2) /\
  slice b (i + 3) (i + 3 + un) = Ok (drop (Z.to_nat sh) r.1) /\
  slice b (i + 3 + un) (i + 3 + un + len r.2) = Ok r.2 /\
  i + 3 + (un + len r.2) = len (pre ++ enc_row p r).
Proof.
  intros Hr. cbn zeta. unfold enc_row. pose proof (shared_len_bounds p r.1).
  assert (Hd : len (drop (Z.to_nat (shared_len p r.1)) r.1) = len r.1 - shared_len p r.1)
    by (unfold len in *; rewrite length_drop; lia).
  split_and!.
  - by apply index_app.
  - cbn [app]. rewrite cons_middle, app_assoc. apply index_app. lens. lia.
  - cbn [app]. rewrite cons_middle, app_assoc, (cons_middle (_ - _)), app_assoc.
    apply index_app. lens. lia.
  - rewrite <- !app_assoc, (app_assoc pre). apply slice_app; lens; lia.
  - rewrite <- !app_assoc, (app_assoc pre), (app_assoc _ (drop _ _)). apply slice_app; lens; lia.
  - lens. lia.
Qed.

Lemma len_enc_row p r : 3 <= len (enc_row p r).
Proof. unfold enc_row. lensimp. Qed.

Lemma scan_loop_spec fuel l p b key pre post used eq i :
  b = pre ++ enc_rows p l ++ post -> i = len pre -> used = len (pre ++ enc_rows p l) ->
  eq = shared_len p key -> ble p key ->
  Forall row_ok l -> sorted_rows l -> Forall (fun r => blt p r.1) l -> (length l < fuel)%nat ->
  scan_loop fuel b key used eq i = Ok (aget l key).
Proof.
  revert fuel p pre eq i. induction l as [|r l IH];
    intros fuel p pre eq i Hb Hi Hu He Hp Hok Hs Hlow Hf.
  - subst. cbn [enc_rows]. rewrite app_nil_r. destruct fuel; cbn [scan_loop]; by rewrite Z.ltb_irrefl.
  - destruct fuel as [|fuel]; [simpl in Hf; lia|].
    apply Forall_cons in Hok as [Hr Hok]. apply sorted_cons in Hs as [Hs Hab].
    apply Forall_cons in Hlow as [Hpr _]. cbn [enc_rows] in *.
    pose proof (len_enc_row p r). rewrite <- (app_assoc (enc_row p r)) in Hb.
    pose proof (enc_row_read pre p r (enc_rows r.1 l ++ post) Hr) as (R1 & R2 & R3 & R4 & R5 & R6).
    rewrite <- Hb in R1, R2, R3, R4, R5. rewrite <- Hi in *.
    cbn [scan_loop]. rewrite (proj2 (Z.ltb_lt _ _)) by (subst used; lensimp).
    rewrite R1, R2, R3. cbn [rbind].
    assert (Hnext : forall eq', eq' = shared_len r.1 key -> blt r.1 key ->
      scan_loop fuel b key used eq' (i + 3 + (len r.1 - shared_len p r.1 + len r.2)) = Ok (aget (r :: l) key)).
    { intros eq' He' Hlt. destruct r as [k v]; cbn [fst snd] in *. simpl aget.
      rewrite beqb_false by (apply not_eq_sym, blt_ne; done).
      apply (IH fuel k (pre ++ enc_row p (k, v))); try done.
      - by rewrite Hb, <- app_assoc.
      - by rewrite Hu, <- app_assoc.
      - auto with codec.
      - simpl in Hf. lia. }
    assert (Hgone : blt key r.1 -> Ok None = Ok (aget (r :: l) key)).
    { intros Hlt. rewrite aget_above; [done|]. constructor; [done|].
      eapply Forall_impl; [exact Hab|]. simpl. eauto using blt_trans. }
    destruct (Z.ltb_spec (shared_len p r.1) eq) as [Hlt|Hge].
    { apply Hgone. apply (diverge p); [lia|done]. }
    destruct (Z.eqb_spec (shared_len p r.1) eq) as [Heq|Hne].
    + rewrite R4. cbn [rbind].
      destruct (same_fork p r.1 key eq) as (q & k1 & key1 & Ek & Ekey & Hq & Dk & Dkey); [done|done|].
      rewrite Heq, Dk. rewrite Ekey at 1. rewrite slice_tail by done. cbn [rbind].
      pose proof (suffix_cmp k1 key1) as Hc. cbn zeta in Hc.
      destruct (_ || _); [apply Hgone; rewrite Ek, Ekey; by apply blt_app|].
      destruct (_ && _).
      * rewrite <- Heq, R5. cbn [rbind]. destruct r as [k v]; cbn [fst snd] in *.
        assert (Hkk : key = k) by (by rewrite Ek, Ekey, Hc). simpl aget.
        by rewrite Hkk, beqb_refl.
      * rewrite <- Heq. apply Hnext; [|rewrite Ek, Ekey; by apply blt_app].
        rewrite Heq. rewrite Ek, Ekey at 1. rewrite shared_len_app. lia.
    + apply ble_lteq in Hp as [Hp|Hp].
      * destruct (diverge p key r.1) as [Hlt Hsh]; [lia|done|]. apply Hnext; [lia|done].
      * subst p. exfalso. pose proof (shared_len_bounds key r.1). 
        pose proof (shared_len_app key [] []) as Hk. rewrite app_nil_r in Hk. simpl in Hk. lia.
Qed.

(** ** Blocks in the file *)

Lemma slice_chunk (ls : list bytes) rest (n : Z) (i : nat) x :
  Forall (fun c => len c = n) ls -> ls !! i = Some x ->
  slice (concat ls ++ rest) (Z.of_nat i * n) (Z.of_nat i * n + n) = Ok x.
Proof.
  intros Hn Hi. rewrite <- (take_drop_middle ls i x) by done.
  rewrite concat_app. cbn [concat]. rewrite <- !app_assoc.
  assert (Hl : len (concat (take i ls)) = Z.of_nat i * n).
  { apply lookup_lt_Some in Hi.
    assert (H : forall j, (j <= length ls)%nat -> len (concat (take j ls)) = Z.of_nat j * n).
    { clear Hi. induction Hn as [|c ls Hc _ IH]; intros [|j] Hj; simpl in *; try done; try lia.
      rewrite len_app, IH by lia. lia. }
    apply H. lia. }
  apply slice_app; [done|]. rewrite Forall_forall in Hn.
  rewrite (Hn x); [done|]. by eapply list_elem_of_lookup_2.
Qed.

Lemma len_enc_block l : used_of l <= blockSize -> len (enc_block l) = blockSize.
Proof.
  unfold enc_block, used_of. intros H. lens. unfold blockSize in *.
  pose proof (len_nonneg (enc_rows [] l)). lia.
Qed.

Lemma len_fit n k : len (fit n k) = Z.of_nat n.
Proof. unfold fit, len. rewrite length_take, length_app, length_replicate. lia. Qed.

Lemma length_enc_rows p l : (length l <= length (enc_rows p l))%nat.
Proof.
  revert p; induction l as [|r l IH]; intros p; simpl; [done|]. rewrite length_app.
  specialize (IH r.1). pose proof (len_enc_row p r). unfold len in *. lia.
Qed.

Lemma le_get_block l : used_of l <= blockSize -> le_get 2 (enc_block l) = Ok (used_of l).
Proof.
  intros H. unfold enc_block. apply le_get_app. unfold used_of, blockSize in *.
  pose proof (len_nonneg (enc_rows [] l)). change (256 ^ Z.of_nat 2) with 65536. lia.
Qed.

Lemma scanBlock_spec l key :
  block_ok l -> Forall row_ok l -> sorted_rows l -> scanBlock (enc_block l) key = Ok (aget l key).
Proof.
  intros [Hne Hu] Hok Hs. unfold scanBlock. rewrite le_get_block by done. cbn [rbind].
  eapply (scan_loop_spec _ _ [] _ _ (litE 2 (used_of l))); try done.
  - unfold used_of. by lens.
  - by destruct key.
  - apply Forall_forall. intros r Hr. rewrite Forall_forall in Hok.
    destruct (Hok r Hr) as [Hk _]. destruct r as [[|c k] v]; [unfold len in Hk; simpl in Hk; lia|done].
  - unfold enc_block. rewrite !length_app. pose proof (length_enc_rows [] l). lia.
Qed.

(** ** The index: zero-padded prefixes keep the order *)

Lemma take_app_zeros n m k :
  (n <= m)%nat -> take n (k ++ replicate m 0) = take n (k ++ replicate n 0).
Proof.
  revert n m; induction k as [|c k IH]; intros n m H; cbn [app].
  - by rewrite !take_replicate, Nat.min_l, Nat.min_id.
  - destruct n; [done|]. cbn [take]. f_equal. rewrite (IH n m), (IH n (S n)) by lia. done.
Qed.

Lemma fit_cons n c k : fit (S n) (c :: k) = c :: fit n k.
Proof. unfold fit. cbn [app take]. f_equal. apply take_app_zeros. lia. Qed.
Lemma fit_nil n : fit (S n) [] = 0 :: fit n [].
Proof. unfold fit. simpl. done. Qed.

Lemma ble_cons c d a b : ble (c :: a) (d :: b) <-> c < d \/ (c = d /\ ble a b).
Proof.
  unfold ble. simpl. destruct (Z.compare_spec c d); naive_solver lia.
Qed.

Lemma fit_mono n k k' : Forall byte_ok k' -> ble k k' -> ble (fit n k) (fit n k').
Proof.
  revert k k'. induction n as [|n IH]; intros k k' Hb H; [done|].
  destruct k as [|c k], k' as [|d k']; rewrite ?fit_cons, ?fit_nil.
  - apply ble_refl.
  - apply Forall_cons in Hb as [Hd Hb]. apply ble_cons. unfold byte_ok in Hd.
    destruct (decide (0 = d)) as [<-|]; [right|left; lia]. split; [done|]. apply IH; [done|by destruct k'].
  - by destruct H.
  - apply Forall_cons in Hb as [Hd Hb]. apply ble_cons in H as [H|[-> H]]; apply ble_cons; auto.
Qed.

Lemma fit_lt_inv n k k' : Forall byte_ok k -> blt (fit n k) (fit n k') -> blt k k'.
Proof.
  intros Hb. rewrite !blt_not_ge. intros H Hle. apply H. by apply fit_mono.
Qed.

(** ** The binary search *)

Lemma bsearch_spec fuel f g lo hi :
  (Z.to_nat (hi - lo) < fuel)%nat -> 0 <= lo <= hi ->
  (forall m, lo <= m < hi -> f m = Ok (g m)) ->
  (forall m m', lo <= m <= m' -> m' < hi -> g m' = true -> g m = true) ->
  exists r, bsearch fuel f lo hi = Ok r /\ lo <= r <= hi /\
    (forall m, lo <= m < r -> g m = true) /\ (forall m, r <= m < hi -> g m = false).
Proof.
  revert lo hi. induction fuel as [|fuel IH]; intros lo hi Hf Hb Hfg Hm; [lia|].
  cbn [bsearch]. destruct (Z.ltb_spec lo hi) as [Hlt|Hge]; [|exists lo; split_and!; try done; lia].
  set (m := (lo + hi) / 2).
  assert (Hmid : lo <= m < hi) by (subst m; split;
    [apply Z.div_le_lower_bound; lia|apply Z.div_lt_upper_bound; lia]).
  rewrite Hfg by lia. cbn [rbind]. destruct (g m) eqn:Eg.
  - destruct (IH (m + 1) hi) as (r & -> & ? & Hr1 & Hr2); try lia.
    { intros; apply Hfg; lia. } { intros; eapply Hm; eauto; lia. }
    exists r. split_and!; try done; try lia. intros x Hx.
    destruct (decide (x <= m)); [eapply (Hm x m); eauto; lia|apply Hr1; lia].
  - destruct (IH lo m) as (r & -> & ? & Hr1 & Hr2); try lia.
    { intros; apply Hfg; lia. } { intros; eapply Hm; eauto; lia. }
    exists r. split_and!; try done; try lia. intros x Hx.
    destruct (decide (x < m)); [apply Hr2; lia|].
    destruct (g x) eqn:Ex; [|done]. rewrite (Hm m x) in Eg; [done|lia|lia|done].
Qed.

Section Reading.
Context (r : Run) (bs : list (list row)) (HR : is_run r bs).

Definition fk (m : Z) : bytes := first_of (default [] (bs !! Z.to_nat m)).

Lemma block_lookup m : 0 <= m < nblk r -> exists b, bs !! Z.to_nat m = Some b.
Proof.
  rewrite (run_nblk _ _ HR). intros H. apply lookup_lt_is_Some. unfold len in H. lia.
Qed.

Lemma block_spec m b : bs !! Z.to_nat m = Some b -> 0 <= m -> block r m = Ok (enc_block b).
Proof.
  intros Hb Hm. unfold block. destruct (run_mm _ _ HR) as [rest ->].
  replace ((m + 1) * blockSize) with (m * blockSize + blockSize) by ring.
  replace m with (Z.of_nat (Z.to_nat m)) at 1 2 by lia.
  apply slice_chunk; [|by rewrite list_lookup_fmap, Hb].
  rewrite Forall_map. eapply Forall_impl; [exact (run_blocks _ _ HR)|].
  intros l [_ Hl]. by apply len_enc_block.
Qed.

Lemma prefix_spec m : 0 <= m < nblk r -> prefix r m = Ok (fit 40 (fk m)).
Proof.
  intros Hm. destruct (block_lookup m Hm) as [b Hb]. unfold prefix, fk. rewrite Hb.
  rewrite (run_index _ _ HR), <- (app_nil_r (concat _)).
  replace m with (Z.of_nat (Z.to_nat m)) at 1 2 by lia.
  apply slice_chunk; [|by rewrite list_lookup_fmap, Hb].
  rewrite Forall_map. apply Forall_true. intros l. apply len_fit.
Qed.

Lemma block_props m b : bs !! Z.to_nat m = Some b ->
  block_ok b /\ Forall row_ok b /\ sorted_rows b.
Proof.
  intros Hb. apply list_elem_of_lookup_2 in Hb as Hin.
  split; [pose proof (run_blocks _ _ HR) as H; rewrite Forall_forall in H; auto|].
  rewrite <- (take_drop_middle bs _ _ Hb) in HR. destruct HR as [_ _ _ _ Hok Hs].
  rewrite concat_app in Hok, Hs. cbn [concat] in Hok, Hs.
  rewrite !Forall_app in Hok. apply sorted_app in Hs as (_ & Hs & _).
  apply sorted_app in Hs as (Hs & _). naive_solver.
Qed.

Lemma firstKey_spec m : 0 <= m < nblk r -> firstKey r m = Ok (fk m).
Proof.
  intros Hm. destruct (block_lookup m Hm) as [b Hb]. unfold firstKey, fk.
  rewrite (block_spec m b Hb) by lia. rewrite Hb. cbn [rbind default].
  destruct (block_props m b Hb) as ([Hne _] & Hok & _). destruct b as [|x b]; [done|].
  apply Forall_cons in Hok as [Hx _]. cbn [first_of]. unfold enc_block. cbn [enc_rows].
  rewrite <- (app_assoc (enc_row [] x)).
  pose proof (enc_row_read (litE 2 (used_of (x :: b))) [] x
    (enc_rows x.1 b ++ replicate (Z.to_nat (blockSize - used_of (x :: b))) 0) Hx)
    as (_ & R2 & _ & R4 & _).
  rewrite len_le in *. change (Z.of_nat 2) with 2 in *. cbn [shared_len] in *.
  rewrite Z.sub_0_r in *. change (2 + 1) with 3 in R2. change (2 + 3) with 5 in R4.
  rewrite R2. cbn [rbind]. by rewrite R4.
Qed.

(** The blocks' first keys ascend. *)
Lemma fk_mono m m' : 0 <= m < m' -> m' < nblk r -> blt (fk m) (fk m').
Proof.
  intros Hm Hm'. destruct (block_lookup m) as [b Hb]; [lia|]. destruct (block_lookup m') as [b' Hb']; [lia|].
  unfold fk. rewrite Hb, Hb'. cbn [default].
  destruct (block_props m b Hb) as ([Hne _] & _), (block_props m' b' Hb') as ([Hne' _] & _).
  pose proof (run_sorted _ _ HR) as Hs. rewrite <- (take_drop_middle bs _ _ Hb) in Hs.
  rewrite concat_app in Hs. cbn [concat] in Hs.
  apply sorted_app in Hs as (_ & Hs & _). apply sorted_app in Hs as (_ & _ & Hs).
  destruct b as [|x b], b' as [|x' b']; try done. cbn [first_of]. apply Hs; [set_solver|].
  apply list_elem_of_In, in_concat. exists (x' :: b'). split; [|by left].
  apply list_elem_of_In, (list_elem_of_lookup_2 _ (Z.to_nat m' - S (Z.to_nat m))%nat).
  rewrite lookup_drop. rewrite <- Hb'. f_equal. lia.
Qed.

Lemma fk_mono_le m m' : 0 <= m <= m' -> m' < nblk r -> ble (fk m) (fk m').
Proof.
  intros. destruct (decide (m = m')) as [->|]; [apply ble_refl|].
  apply blt_ble, fk_mono; lia.
Qed.

Lemma fk_bytes m : 0 <= m < nblk r -> Forall byte_ok (fk m).
Proof.
  intros Hm. destruct (block_lookup m Hm) as [b Hb]. unfold fk. rewrite Hb. cbn [default].
  destruct (block_props m b Hb) as (_ & Hok & _). destruct b as [|x b]; [constructor|].
  apply Forall_cons in Hok as [(_ & _ & H) _]. done.
Qed.

Lemma pad_mono m m' : 0 <= m <= m' -> m' < nblk r -> ble (fit 40 (fk m)) (fit 40 (fk m')).
Proof. intros. apply fit_mono; [apply fk_bytes; lia|by apply fk_mono_le]. Qed.

Lemma pad_below key m :
  0 <= m < nblk r -> blt (fit 40 (fk m)) (fit 40 key) -> blt (fk m) key.
Proof. intros. by apply (fit_lt_inv 40); [apply fk_bytes|]. Qed.

(** [b] is the answer of [seek] for [key] among the first [n] blocks. *)
Definition seek_answer (key : bytes) (n b : Z) : Prop :=
  -1 <= b < n /\ (forall m, 0 <= m <= b -> ble (fk m) key) /\
  (forall m, b < m < n -> blt key (fk m)).

(** The search of the tied range, below a block that starts after the key. *)
Lemma seek_tied key fuel b :
  0 <= b < nblk r -> (Z.to_nat (nblk r) < fuel)%nat -> blt key (fk b) ->
  exists b',
    (let* lo := bsearch fuel (fun m => let* p := prefix r m in Ok (bltb p (fit 40 key))) 0 b in
     let* lo := bsearch fuel (fun m => let* k := firstKey r m in Ok (bleb k key)) lo b in
     Ok (lo - 1)) = Ok b' /\ seek_answer key (b + 1) b'.
Proof.
  intros Hb Hfuel Hf.
  destruct (bsearch_spec fuel (fun m => let* p := prefix r m in Ok (bltb p (fit 40 key)))
    (fun m => bltb (fit 40 (fk m)) (fit 40 key)) 0 b) as (lo2 & -> & Hlo2 & T1 & _); try lia.
  { intros m Hm. by rewrite prefix_spec by lia. }
  { intros m m' Hm Hm'. destruct (bltb_spec (fit 40 (fk m')) (fit 40 key)) as [H|]; [|done].
    intros _. apply bltb_true. eapply ble_blt_trans; [apply (pad_mono m m'); lia|done]. }
  cbn [rbind].
  destruct (bsearch_spec fuel (fun m => let* k := firstKey r m in Ok (bleb k key))
    (fun m => bleb (fk m) key) lo2 b) as (lo3 & -> & Hlo3 & S1 & S2); try lia.
  { intros m Hm. by rewrite firstKey_spec by lia. }
  { intros m m' Hm Hm'. destruct (bleb_spec (fk m') key) as [H|]; [|done].
    intros _. apply bleb_true. eapply ble_trans; [apply (fk_mono_le m m'); lia|done]. }
  cbn [rbind]. exists (lo3 - 1). split; [done|]. unfold seek_answer. split_and!; try lia.
  - intros m Hm. destruct (decide (m < lo2)).
    + specialize (T1 m ltac:(lia)). destruct (bltb_spec (fit 40 (fk m)) (fit 40 key)) as [H|]; [|done].
      apply blt_ble, pad_below; [lia|done].
    + specialize (S1 m ltac:(lia)). by destruct (bleb_spec (fk m) key).
  - intros m Hm. destruct (decide (m < b)) as [|Hge]; [|by replace m with b by lia].
    specialize (S2 m ltac:(lia)). destruct (bleb_spec (fk m) key) as [|H]; [done|]. by apply blt_not_ge.
Qed.

(** [seek] finds the last block whose first key is at or before the key. *)
Lemma seek_spec key :
  Forall byte_ok key -> exists b, seek r key = Ok b /\ seek_answer key (nblk r) b.
Proof.
  intros Hk. pose proof (run_nblk _ _ HR) as Hn. pose proof (len_nonneg bs) as Hpos.
  unfold seek.
  destruct (bsearch_spec (S (Z.to_nat (nblk r)))
    (fun m => let* p := prefix r m in Ok (bleb p (fit 40 key)))
    (fun m => bleb (fit 40 (fk m)) (fit 40 key)) 0 (nblk r)) as (lo & -> & Hlo & L1 & L2); try lia.
  { intros m Hm. by rewrite prefix_spec. }
  { intros m m' Hm Hm'. destruct (bleb_spec (fit 40 (fk m')) (fit 40 key)) as [H|]; [|done].
    intros _. apply bleb_true. eapply ble_trans; [apply (pad_mono m m'); lia|done]. }
  cbn [rbind].
  assert (Hup : forall m, lo - 1 < m < nblk r -> blt key (fk m)).
  { intros m Hm. apply (fit_lt_inv 40); [done|]. specialize (L2 m ltac:(lia)).
    destruct (bleb_spec (fit 40 (fk m)) (fit 40 key)) as [|H]; [done|]. by apply blt_not_ge. }
  destruct (Z.ltb_spec (lo - 1) 0) as [Hneg|Hb].
  { exists (lo - 1). unfold seek_answer. split_and!; try done; try lia. }
  rewrite prefix_spec by lia. cbn [rbind].
  assert (Hdone : ble (fk (lo - 1)) key -> exists b, Ok (lo - 1) = Ok b /\ seek_answer key (nblk r) b).
  { intros H. exists (lo - 1). unfold seek_answer. split_and!; try done; try lia. intros m Hm.
    eapply ble_trans; [apply (fk_mono_le m (lo - 1)); lia|done]. }
  destruct (beqb_spec (fit 40 (fk (lo - 1))) (fit 40 key)) as [Heq|Hne]; cbn [negb].
  2: { apply Hdone, blt_ble, pad_below; [lia|]. specialize (L1 (lo - 1) ltac:(lia)).
    destruct (bleb_spec (fit 40 (fk (lo - 1))) (fit 40 key)) as [Hle|]; [|done].
    apply ble_lteq in Hle as [Hlt|?]; done. }
  rewrite firstKey_spec by lia. cbn [rbind].
  destruct (bleb_spec (fk (lo - 1)) key) as [Hf|Hf]; [by apply Hdone|].
  apply blt_not_ge in Hf.
  destruct (seek_tied key (S (Z.to_nat (nblk r))) (lo - 1)) as (b & -> & A1 & A2 & A3); [lia..|done|].
  exists b. unfold seek_answer. split_and!; try done; try lia. intros m Hm.
  destruct (decide (m < lo)); [apply A3; lia|apply Hup; lia].
Qed.

(** The lookup of a key touches only the block [seek] names. *)
Lemma aget_block key b x :
  seek_answer key (nblk r) b -> 0 <= b -> bs !! Z.to_nat b = Some x ->
  aget (concat bs) key = aget x key.
Proof.
  intros (Hb & Hlo & Hhi) Hpos Hx.
  destruct (block_props b x Hx) as ([Hne _] & _ & Hsx).
  pose proof (run_sorted _ _ HR) as Hs. rewrite <- (take_drop_middle bs _ _ Hx) in Hs |- *.
  rewrite concat_app in *. cbn [concat] in *. rewrite !aget_app.
  apply sorted_app in Hs as (_ & Hs & Hpre). apply sorted_app in Hs as (_ & _ & Hpost).
  destruct x as [|y x]; [done|].
  assert (Hy : ble y.1 key). { specialize (Hlo b ltac:(lia)). unfold fk in Hlo. by rewrite Hx in Hlo. }
  rewrite aget_below.
  2: { apply Forall_forall. intros z Hz. eapply blt_ble_trans; [apply (Hpre z y)|exact Hy]; set_solver. }
  destruct (aget (y :: x) key); [done|]. apply aget_above, Forall_forall. intros z Hz.
  apply list_elem_of_In, in_concat in Hz as (c & Hc & Hz). apply list_elem_of_In in Hc, Hz.
  apply list_elem_of_lookup in Hc as [i Hi]. rewrite lookup_drop in Hi.
  set (m := Z.of_nat (S (Z.to_nat b) + i)). assert (Hm : bs !! Z.to_nat m = Some c)
    by (rewrite <- Hi; f_equal; lia).
  pose proof (lookup_lt_Some _ _ _ Hi) as Hlt. 
  specialize (Hhi m). rewrite (run_nblk _ _ HR) in Hhi. unfold len, fk in Hhi. rewrite Hm in Hhi.
  destruct (block_props m c Hm) as ([Hcne _] & _ & Hsc). destruct c as [|c0 c]; [done|].
  cbn [default first_of] in Hhi. specialize (Hhi ltac:(lia)).
  apply elem_of_cons in Hz as [->|Hz]; [done|]. apply sorted_cons in Hsc as [_ Hsc].
  rewrite Forall_forall in Hsc. specialize (Hsc z Hz). simpl in Hsc. eauto using blt_trans.
Qed.

Lemma aget_none_below key :
  seek_answer key (nblk r) (-1) -> aget (concat bs) key = None.
Proof.
  intros (_ & _ & Hhi). apply aget_above, Forall_forall. intros z Hz.
  pose proof (run_sorted _ _ HR) as Hs. pose proof (run_blocks _ _ HR) as Hok.
  assert (H0 : (0 < length bs)%nat) by (destruct bs; simpl in *; [set_solver|lia]).
  specialize (Hhi 0). rewrite (run_nblk _ _ HR) in Hhi. unfold len in Hhi. specialize (Hhi ltac:(lia)).
  unfold fk in Hhi. clear HR. destruct bs as [|c cs]; [simpl in H0; lia|].
  apply Forall_cons in Hok as [[Hne _] _]. destruct c as [|c0 c]; [done|]. simpl in *.
  apply elem_of_cons in Hz as [->|Hz]; [done|]. apply sorted_cons in Hs as [_ Hs].
  rewrite Forall_forall in Hs. specialize (Hs z Hz). eauto using blt_trans.
Qed.

Lemma Get_is_run key : Forall byte_ok key -> Get r key = Ok (aget (concat bs) key).
Proof.
  intros Hk. unfold Get. destruct (seek_spec key Hk) as (b & -> & Ha). cbn [rbind].
  pose proof Ha as (Hb & _). destruct (Z.ltb_spec b 0).
  - replace b with (-1) in * by lia. by rewrite aget_none_below.
  - destruct (block_lookup b) as [x Hx]; [lia|]. rewrite (block_spec b x) by (done || lia). cbn [rbind].
    destruct (block_props b x Hx) as (Hbo & Hok & Hs).
    by rewrite scanBlock_spec, (aget_block key b x).
Qed.

End Reading.

(** ** The writer keeps the abstract file *)

Definition all_blocks (bs : list (list row)) (cur : list row) : list (list row) :=
  bs ++ match cur with [] => [] | _ => [cur] end.

Record wrote (w : Writer) (bs : list (list row)) (cur : list row) : Prop := {
  w_out : wout w = concat (map enc_block bs);
  w_blk : exists h, len h = 2 /\ blk w = h ++ enc_rows [] cur;
  w_idx : windex w = concat (map (fun b => fit 40 (first_of b)) (all_blocks bs cur));
  w_n : wn w = len (concat bs ++ cur);
  w_prev : prev w = last_key (concat bs ++ cur);
  w_blocks : Forall block_ok bs;
  w_used : used_of cur <= blockSize }.

Lemma concat_all_blocks bs cur : concat (all_blocks bs cur) = concat bs ++ cur.
Proof. unfold all_blocks. rewrite concat_app. destruct cur; simpl; by rewrite ?app_nil_r. Qed.

Lemma enc_rows_snoc p l r :
  enc_rows p (l ++ [r])
  = enc_rows p l ++ enc_row (match l with [] => p | _ => last_key l end) r.
Proof.
  revert p; induction l as [|x l IH]; intros p; [by simpl; rewrite app_nil_r|].
  cbn [app enc_rows]. rewrite IH, app_assoc. f_equal. destruct l as [|y l]; [done|].
  unfold last_key. by rewrite (last_cons_cons x y).
Qed.

Lemma last_key_app l x c : last_key (l ++ x :: c) = last_key (x :: c).
Proof. unfold last_key. rewrite last_app.
  destruct (last (x :: c)) eqn:E; [done|]. by apply last_None in E. Qed.
Lemma last_key_snoc l r : last_key (l ++ [r]) = r.1.
Proof. unfold last_key. by rewrite last_snoc. Qed.

Lemma mod256 x : 0 <= x <= 255 -> x mod 256 = x.
Proof. intros. apply Z.mod_small. lia. Qed.

(** Appending an entry to the current block. *)
Lemma wrote_append w bs cur k v idx :
  wrote w bs cur -> row_ok (k, v) ->
  let p := match cur with [] => [] | _ => last_key cur end in
  let sh := shared_len p k in
  used_of (cur ++ [(k, v)]) <= blockSize ->
  len (concat bs ++ cur ++ [(k, v)]) < 2 ^ 64 ->
  idx = (match cur with [] => windex w ++ fit 40 k | _ => windex w end) ->
  wrote (MkWriter (wout w)
    ((blk w ++ [sh mod 256; (len k - sh) mod 256; len v mod 256]) ++ drop (Z.to_nat sh) k ++ v)
    k idx (u64 (wn w + 1)) (user w)) bs (cur ++ [(k, v)]).
Proof.
  intros [Ho (h & Hh & Hb) Hi Hn Hp Hbs Hu] ((Hk1 & Hk2) & Hv & _) p sh Hfit Hlen ->.
  cbn [fst snd] in *. pose proof (shared_len_bounds p k). pose proof (len_nonneg v).
  constructor; cbn [wout blk windex wn prev user]; try done.
  - exists h. split; [done|]. rewrite Hb, enc_rows_snoc. unfold enc_row. cbn [fst snd].
    fold p. fold sh. rewrite !mod256 by (subst sh; lia). by rewrite <- !app_assoc.
  - destruct cur as [|y cur]; unfold all_blocks in *; cbn [app] in *.
    + rewrite Hi, app_nil_r, map_app, concat_app. simpl. by rewrite app_nil_r.
    + rewrite Hi, !map_app, !concat_app. done.
  - rewrite Hn. rewrite u64_small; lens; [lia|]. unfold u64_ok. lensimp.
  - by rewrite app_assoc, last_key_snoc.
Qed.

Lemma wrote_flush w bs cur :
  wrote w bs cur -> cur <> [] -> wrote (flush w) (bs ++ [cur]) [] /\ user (flush w) = user w.
Proof.
  intros [Ho (h & Hh & Hb) Hi Hn Hp Hbs Hu] Hne. unfold flush. rewrite Hb. lens.
  assert (Hpos : 3 <= len (enc_rows [] cur)).
  { destruct cur as [|y cur]; [done|]. cbn [enc_rows]. pose proof (len_enc_row [] y). lensimp. }
  rewrite (proj2 (Z.eqb_neq _ _)) by lia. split; [|done].
  assert (Hused : len h + len (enc_rows [] cur) = used_of cur) by (unfold used_of; lia).
  assert (Hdrop : drop 2 (h ++ enc_rows [] cur) = enc_rows [] cur)
    by (apply drop_app_length'; unfold len in Hh; lia).
  constructor; cbn [wout blk windex wn prev user].
  - rewrite Ho, map_app, concat_app. f_equal. simpl map. simpl concat. rewrite app_nil_r.
    rewrite Hdrop, Hused, <- app_assoc. done.
  - exists (litE 2 (used_of cur)). split; [by lens|]. rewrite Hused, <- app_assoc.
    cbn [enc_rows]. rewrite app_nil_r. by rewrite take_app_length' by (by rewrite length_le).
  - rewrite Hi. unfold all_blocks. rewrite app_nil_r. by destruct cur.
  - rewrite Hn, concat_app. simpl. rewrite !app_nil_r. by lens.
  - rewrite Hp, concat_app. simpl. by rewrite !app_nil_r.
  - apply Forall_app; split; [done|]. by constructor.
  - done.
Qed.

Lemma last_key_below l k :
  l <> [] -> Forall (fun x => blt x.1 k) l -> blt (last_key l) k.
Proof.
  intros Hne Hf. unfold last_key. destruct (last l) as [x|] eqn:E; [|by apply last_None in E].
  apply last_Some_elem_of in E. rewrite Forall_forall in Hf. by apply Hf.
Qed.

Lemma used_of_snoc cur k v :
  used_of (cur ++ [(k, v)])
  = used_of cur + 3 + len k - shared_len (match cur with [] => [] | _ => last_key cur end) k + len v.
Proof.
  unfold used_of. rewrite enc_rows_snoc. unfold enc_row. cbn [fst snd].
  pose proof (shared_len_bounds (match cur with [] => [] | _ => last_key cur end) k).
  lens. match goal with |- context [len (drop ?n k)] => assert (len (drop n k) = len k - Z.of_nat n) end.
  { unfold len in *. rewrite length_drop. lia. }
  lia.
Qed.

Lemma slice_from_drop b i : 0 <= i <= len b -> slice_from b i = Ok (drop (Z.to_nat i) b).
Proof.
  intros H. unfold slice_from, slice. ztests. f_equal. apply take_ge. unfold len in *. rewrite length_drop. lia.
Qed.

Lemma wrote_len w bs cur : wrote w bs cur -> len (blk w) = used_of cur.
Proof. intros Hw. destruct (w_blk _ _ _ Hw) as (h & Hh & ->). unfold used_of. lens. lia. Qed.

Lemma used_of_pos y c : 2 < used_of (y :: c).
Proof. unfold used_of. cbn [enc_rows]. pose proof (len_enc_row [] y). lensimp. Qed.

(** The tail of [Add], once the block and the shared length are settled. *)
Lemma Add_place w bs cur k v :
  wrote w bs cur -> row_ok (k, v) -> used_of (cur ++ [(k, v)]) <= blockSize ->
  len (concat bs ++ cur) < 2 ^ 62 ->
  let sh := shared_len (match cur with [] => [] | _ => last_key cur end) k in
  exists w',
    (let* suf := slice_from k sh in
     Ok (MkWriter (wout w)
      ((blk w ++ [sh mod 256; (len k - sh) mod 256; len v mod 256]) ++ suf ++ v) k
      (if len (blk w) =? 2 then windex w ++ fit 40 k else windex w)
      (u64 (wn w + 1)) (user w))) = Ok w' /\
    wrote w' bs (cur ++ [(k, v)]) /\ user w' = user w.
Proof.
  intros Hw Hr Hfit Hn sh.
  pose proof (shared_len_bounds (match cur with [] => [] | _ => last_key cur end) k).
  rewrite slice_from_drop by (subst sh; lia). cbn [rbind]. eexists.
  split; [done|]. split; [|done]. apply wrote_append; try done.
  - rewrite app_assoc. lens. lia.
  - rewrite (wrote_len _ _ _ Hw). destruct cur as [|y c]; [done|].
    pose proof (used_of_pos y c). by rewrite (proj2 (Z.eqb_neq _ _)) by lia.
Qed.

(** One [Add]: the row joins the current block, or opens a new one. *)
Lemma Add_spec w bs cur k v :
  wrote w bs cur -> row_ok (k, v) -> Forall (fun x => blt x.1 k) (concat bs ++ cur) ->
  len (concat bs ++ cur) < 2 ^ 62 ->
  exists w' bs' cur', Add w k v = Ok w' /\ wrote w' bs' cur' /\
    concat bs' ++ cur' = (concat bs ++ cur) ++ [(k, v)] /\ user w' = user w.
Proof.
  intros Hw Hr Hlow Hn. pose proof Hr as ((Hk1 & Hk2) & Hv & _). cbn [fst snd] in *.
  pose proof (len_nonneg v).
  assert (Hg : (len k =? 0) || (maxKey <? len k) || (maxValue <? len v) = false)
    by (unfold maxKey, maxValue; ztests; done).
  assert (Hord : (0 <? wn w) && bleb k (prev w) = false).
  { rewrite (w_n _ _ _ Hw), (w_prev _ _ _ Hw).
    destruct (Z.ltb_spec 0 (len (concat bs ++ cur))) as [Hp|]; [|done].
    cbn [andb]. apply bleb_false, last_key_below; [|done]. intros E. rewrite E in Hp. done. }
  unfold Add. rewrite Hg, Hord. clear Hg Hord. rewrite (wrote_len _ _ _ Hw).
  pose proof (used_of_snoc cur k v) as Hsn.
  destruct cur as [|y c].
  - change (used_of []) with 2. cbn [Z.ltb Z.compare Pos.compare Pos.compare_cont].
    destruct (Add_place w bs [] k v) as (w' & E & Hw' & Hu); try done.
    { unfold blockSize. change (used_of []) with 2 in Hsn. simpl shared_len in Hsn. lia. }
    exists w', bs, [(k, v)]. split; [exact E|]. split; [done|]. by rewrite app_nil_r.
  - pose proof (used_of_pos y c). rewrite (proj2 (Z.ltb_lt 2 _)) by lia.
    assert (Hprev : prev w = last_key (y :: c)) by (rewrite (w_prev _ _ _ Hw); apply last_key_app).
    rewrite Hprev. case_test.
    + destruct (wrote_flush w bs (y :: c) Hw ltac:(done)) as [Hfl Hus].
      destruct (Add_place (flush w) (bs ++ [y :: c]) [] k v) as (w' & E' & Hw' & Hu); try done.
      { rewrite used_of_snoc. change (used_of []) with 2. simpl shared_len. unfold blockSize. lia. }
      { rewrite concat_app. simpl. by rewrite !app_nil_r. }
      exists w', (bs ++ [y :: c]), [(k, v)]. split; [exact E'|]. split; [done|].
      rewrite concat_app. simpl. rewrite app_nil_r. by rewrite Hu.
    + destruct (Add_place w bs (y :: c) k v) as (w' & E' & Hw' & Hu); try done; [lia|].
      rewrite (wrote_len _ _ _ Hw) in E'.
      exists w', bs, ((y :: c) ++ [(k, v)]). split; [|by rewrite app_assoc]. rewrite (wrote_len _ _ _ Hw). exact E'.
Qed.

Lemma add_all_spec l w bs cur :
  wrote w bs cur -> Forall row_ok l -> sorted_rows ((concat bs ++ cur) ++ l) ->
  len ((concat bs ++ cur) ++ l) < 2 ^ 62 ->
  exists w' bs' cur', add_all w l = Ok w' /\ wrote w' bs' cur' /\
    concat bs' ++ cur' = (concat bs ++ cur) ++ l /\ user w' = user w.
Proof.
  revert w bs cur. induction l as [|[k v] l IH]; intros w bs cur Hw Hok Hs Hn.
  - exists w, bs, cur. by rewrite app_nil_r.
  - apply Forall_cons in Hok as [Hr Hok].
    destruct (Add_spec w bs cur k v) as (w1 & bs1 & cur1 & HA & Hw1 & Hc1 & Hu1); try done.
    { apply Forall_forall. intros x Hx. apply sorted_app in Hs as (_ & _ & Hs).
      apply (Hs x (k, v)); [done|set_solver]. }
    { lensimp. }
    rewrite cons_middle, app_assoc, <- Hc1 in Hs, Hn.
    destruct (IH w1 bs1 cur1 Hw1 Hok Hs Hn) as (w2 & bs2 & cur2 & HA2 & Hw2 & Hc2 & Hu2).
    exists w2, bs2, cur2. cbn [add_all]. rewrite HA. cbn [rbind]. split_and!; try done.
    + rewrite Hc2, Hc1, <- app_assoc. done.
    + congruence.
Qed.

(** ** The file: what [Close] writes, [Open] accepts *)

Lemma len_concat_const {A} (f : A -> bytes) n (l : list A) :
  Forall (fun x => len (f x) = n) l -> len (concat (map f l)) = len l * n.
Proof. induction 1; cbn [map concat]; lens; lia. Qed.

Lemma len_blocks_le bs : Forall block_ok bs -> len bs <= len (concat bs).
Proof.
  induction 1 as [|b bs [Hne _] _ IH]; cbn [concat]; lens; [lia|].
  destruct b; [done|]. lensimp.
Qed.

Lemma slice_head b c hi : hi = len b -> slice (b ++ c) 0 hi = Ok b.
Proof. intros ->. by apply (slice_app [] b c). Qed.

(** The fields of a footer, at their offsets. *)
Lemma footer_fields w nb sum :
  len (user w) = 32 -> u64_ok (wn w) -> nb = len (windex w) / 40 -> 0 <= nb < 2 ^ 50 -> u32_ok sum ->
  let ft := footer w ++ litE 4 sum in
  len (footer w) = 72 /\
  slice ft 0 8 = Ok magic /\
  le_at 4 ft 8 = Ok version /\
  le_at 4 ft 12 = Ok blockSize /\
  le_at 8 ft 16 = Ok (wn w) /\
  le_at 8 ft 24 = Ok nb /\
  le_at 8 ft 32 = Ok (nb * blockSize) /\
  slice ft 40 72 = Ok (user w) /\ slice ft 0 72 = Ok (footer w) /\
  le_at 4 ft 72 = Ok sum.
Proof.
  intros Hu Hn -> Hnb Hs ft. subst ft. unfold footer. unfold prefixLen, blockSize.
  set (nb := len (windex w) / 40) in *. unfold u64_ok, u32_ok in *.
  rewrite (u64_small nb), (u64_small (nb * 4096)) by (unfold u64_ok; lia).
  set (ft := magic ++ _). assert (Hlen : len ft = 72)
    by (subst ft; lens; change (len magic) with 8; lia).
  assert (Hm : len magic = 8) by done.
  split; [done|]. subst ft. rewrite <- !app_assoc. split.
  { apply (slice_app [] magic); lens; lia. }
  unfold le_at.
  rewrite slice_tail by lia. cbn [rbind]. rewrite le_get_app by (unfold version; split; vm_compute; congruence).
  split; [done|]. 
  rewrite (app_assoc magic), slice_tail by (lens; lia). cbn [rbind].
  rewrite le_get_app by (change (256 ^ Z.of_nat 4) with (2 ^ 32); lia). split; [done|].
  rewrite (app_assoc (magic ++ _)), slice_tail by (lens; lia). cbn [rbind].
  rewrite le_get_app by (change (256 ^ Z.of_nat 8) with (2 ^ 64); lia). split; [done|].
  rewrite (app_assoc ((magic ++ _) ++ _)), slice_tail by (lens; lia). cbn [rbind].
  rewrite le_get_app by (change (256 ^ Z.of_nat 8) with (2 ^ 64); lia). split; [done|].
  rewrite (app_assoc (((magic ++ _) ++ _) ++ _)), slice_tail by (lens; lia). cbn [rbind].
  rewrite le_get_app by (change (256 ^ Z.of_nat 8) with (2 ^ 64); lia). split; [done|].
  rewrite (app_assoc ((((magic ++ _) ++ _) ++ _) ++ _)).
  split; [apply slice_app; lens; lia|].
  match goal with |- context [slice (?a ++ ?b ++ ?c) 0 72] => rewrite (app_assoc a b c) end.
  split.
  { rewrite slice_head by (lens; lia). by rewrite <- !app_assoc. }
  rewrite slice_tail by (lens; lia). cbn [rbind].
  rewrite <- (app_nil_r (litE 4 sum)). apply le_get_app. change (256 ^ Z.of_nat 4) with (2 ^ 32). lia.
Qed.

Lemma crc32_range c p : u32_ok (crc32_Update c p).
Proof. unfold crc32_Update, u32, u32_ok. apply Z.mod_pos_bound. lia. Qed.

Lemma Open_Close w bs :
  wrote w bs [] -> Forall row_ok (concat bs) -> sorted_rows (concat bs) ->
  len (user w) = 32 -> len (concat bs) < 2 ^ 50 ->
  exists r, Open (Close w) = Ok r /\ is_run r bs /\ rn r = len (concat bs) /\ ruser r = user w.
Proof.
  intros Hw Hok Hs Hu Hn. pose proof (len_blocks_le bs (w_blocks _ _ _ Hw)) as Hbs.
  pose proof (len_nonneg bs).
  assert (Hidx : windex w = concat (map (fun b => fit 40 (first_of b)) bs))
    by (rewrite (w_idx _ _ _ Hw); unfold all_blocks; by rewrite app_nil_r).
  assert (Hli : len (windex w) = len bs * 40).
  { rewrite Hidx. apply len_concat_const, Forall_true. intros; apply len_fit. }
  assert (Hlo : len (wout w) = len bs * blockSize).
  { rewrite (w_out _ _ _ Hw). apply len_concat_const. eapply Forall_impl; [exact (w_blocks _ _ _ Hw)|].
    intros b [_ Hb]. by apply len_enc_block. }
  assert (Hfl : flush w = w).
  { unfold flush. rewrite (wrote_len _ _ _ Hw). done. }
  pose proof (w_n _ _ _ Hw) as Hwn. rewrite app_nil_r in Hwn.
  unfold Close. rewrite Hfl. set (sum := crc32_Update _ _).
  assert (Hdiv : len (windex w) / 40 = len bs) by (rewrite Hli; apply Z.div_mul; lia).
  destruct (footer_fields w (len bs) sum) as (Lf & F1 & F2 & F3 & F4 & F5 & F6 & F7 & F8 & F9); try done.
  { unfold u64_ok. lia. } { lia. } { apply crc32_range. }
  set (ft := footer w ++ litE 4 sum) in *.
  assert (Hft : len ft = 76) by (subst ft; lens; lia).
  exists (MkRun (wout w ++ windex w ++ ft) (windex w) (len bs) (len (concat bs)) (user w)).
  split; [|split; [|done]].
  2: { constructor; cbn [mm rindex nblk]; try done; [|apply (w_blocks _ _ _ Hw)].
       rewrite (w_out _ _ _ Hw). eauto. }
  unfold Open. set (f := wout w ++ windex w ++ ft).
  assert (Hsize : len f = len bs * 4096 + len bs * 40 + 76) by (subst f; unfold blockSize in *; lens; lia).
  unfold footerLen, blockSize, prefixLen in *. rewrite Hsize.
  rewrite (proj2 (Z.ltb_ge _ _)) by lia. subst f.
  rewrite (app_assoc (wout w)) at 1. rewrite slice_tail by (lens; lia). cbn [rbind].
  rewrite F5, F6, F1, F2, F3. cbn [rbind].
  rewrite (u64_small (_ + 76)), (u64_small (_ * 4096)), (u64_small (_ * 40)) by (unfold u64_ok; lia).
  rewrite (u64_small (len bs * 4096 + len bs * 40)), (u64_small (_ + 76)) by (unfold u64_ok; lia).
  assert (Hd : len bs <= (len bs * 4096 + len bs * 40 + 76) / 4096)
    by (apply Z.div_le_lower_bound; lia).
  rewrite beqb_refl, !Z.eqb_refl, (proj2 (Z.ltb_ge _ _)) by done. cbn [negb orb].
  rewrite slice_app by lia. cbn [rbind]. rewrite F8, F9. cbn [rbind].
  subst sum. rewrite Z.eqb_refl. cbn [negb]. rewrite F4, F7. cbn [rbind].
  by rewrite i64_small, Hwn by lia.
Qed.

(** A run written from ascending rows, opened. *)
Lemma write_run_spec u l :
  Forall row_ok l -> sorted_rows l -> len u = 32 -> len l < 2 ^ 50 ->
  exists f r bs, write_run u l = Ok f /\ Open f = Ok r /\ is_run r bs /\ concat bs = l /\
    rn r = len l /\ ruser r = u.
Proof.
  intros Hok Hs Hu Hn.
  assert (Hw0 : wrote (SetUserData u NewWriter) [] []).
  { constructor; try done. exists [0; 0]. done. }
  destruct (add_all_spec l _ _ _ Hw0 Hok) as (w & bs & cur & HA & Hw & Hc & Huw); [done|simpl; lia|].
  simpl in Hc. unfold write_run. rewrite HA. cbn [rbind].
  assert (Hclose : exists w' bs', wrote w' bs' [] /\ Close w = Close w' /\ concat bs' = l /\ user w' = u).
  { destruct cur as [|y c].
    - exists w, bs. rewrite app_nil_r in Hc. done.
    - destruct (wrote_flush w bs (y :: c) Hw ltac:(done)) as [Hfl Hus].
      exists (flush w), (bs ++ [y :: c]). split_and!; [done| | |].
      + unfold Close. f_equal; assert (Hff : flush (flush w) = flush w) by
          (unfold flush at 1; rewrite (wrote_len _ _ _ Hfl); done); by rewrite Hff.
      + rewrite concat_app. simpl. by rewrite app_nil_r.
      + by rewrite Hus, Huw. }
  destruct Hclose as (w' & bs' & Hw' & -> & Hl & Hu'). clear HA Hc. rewrite <- Hl in *.
  destruct (Open_Close w' bs' Hw' Hok Hs) as (r & HO & Hr & Hrn & Hru); [by rewrite Hu'|done|].
  exists (Close w'), r, bs'. split_and!; try done. congruence.
Qed.

(** the checkpoint round trip. Rows added in strictly ascending key order
    are packed into blocks, indexed and footed; the file opens (magic, sizes
    and the index checksum all check out) and [Get] answers every key, present
    or absent, exactly as the rows say, with no error and no panic. *)
Theorem latest_run_roundtrip u l :
  Forall row_ok l -> sorted_rows l -> len u = 32 -> len l < 2 ^ 50 ->
  exists f r, write_run u l = Ok f /\ Open f = Ok r /\ rn r = len l /\ ruser r = u /\
    forall key, Forall byte_ok key -> Get r key = Ok (aget l key).
Proof.
  intros Hok Hs Hu Hn.
  destruct (write_run_spec u l Hok Hs Hu Hn) as (f & r & bs & HW & HO & Hr & <- & Hrn & Hru).
  exists f, r. split_and!; try done. intros key Hk. by apply Get_is_run.
Qed.

(** ** The iterator *)

Section Iterating.
Context (r : Run) (bs : list (list row)) (HR : is_run r bs).

(** The iterator stands in block [n] with the entries [rem] of it unread,
    [p] being the key the next entry was coded against. *)
Definition at_entry (it : runIter) (p : bytes) (rem : list row) (n : Z) : Prop :=
  ir it = r /\ ib it = n /\ -1 <= n /\
  exists pre post, iblk it = pre ++ enc_rows p rem ++ post /\ ii it = len pre /\
    iused it = len (pre ++ enc_rows p rem) /\ (p = [] \/ p = ikey it).

Definition rows_left (rem : list row) (n : Z) : list row := rem ++ concat (drop (Z.to_nat (n + 1)) bs).

(** The iterator has the rows [l] of the run still to visit. *)
Definition at_rows (it : runIter) (l : list row) : Prop :=
  exists p rem n, at_entry it p rem n /\ rows_left rem n = l.

Lemma advance_spec fuel it l :
  at_rows it l -> (Z.to_nat (nblk r - ib it) < fuel)%nat ->
  exists o, advance fuel it = Ok o /\
    match o with
    | None => l = []
    | Some it' => exists p x rem n, at_entry it' p (x :: rem) n /\ l = rows_left (x :: rem) n /\
        ilo it' = ilo it /\ ihi it' = ihi it
    end.
Proof.
  revert it. induction fuel as [|fuel IH]; intros it (p & rem & n & (Hr & Hb & Hn & pre & post & E1 & E2 & E3 & E4) & Hl) Hf; [lia|].
  cbn [advance]. destruct rem as [|x rem].
  - rewrite E2, E3. cbn [enc_rows]. rewrite app_nil_r, Z.ltb_irrefl. rewrite Hb, Hr.
    destruct (Z.leb_spec (nblk r) (n + 1)) as [Hend|Hmore].
    + exists None. split; [done|]. rewrite <- Hl. unfold rows_left. simpl.
      rewrite (run_nblk _ _ HR) in Hend. rewrite drop_ge; [done|]. unfold len in Hend. lia.
    + destruct (block_lookup r bs HR (n + 1)) as [b Hx]; [lia|].
      rewrite (block_spec r bs HR (n + 1) b Hx) by lia. cbn [rbind].
      destruct (block_props r bs HR (n + 1) b Hx) as ([Hne Hu] & Hok & _).
      rewrite le_get_block by done. cbn [rbind].
      set (it1 := MkIter r (ilo it) (ihi it) (n + 1) 2 (used_of b) (enc_block b) (ikey it) (ival it)).
      destruct (IH it1) as (o & Ho & Hspec).
      * exists [], b, (n + 1). split.
        { split_and!; try done; [lia|]. exists (litE 2 (used_of b)), (replicate (Z.to_nat (blockSize - used_of b)) 0).
          split_and!; [done|cbn [ii]; by lens|cbn [iused]; unfold used_of at 1; by lens|by left]. }
        rewrite <- Hl. unfold rows_left. cbn [app].
        erewrite (drop_S bs b (Z.to_nat (n + 1))) by done. cbn [concat].
        do 3 f_equal. lia.
      * simpl. lia.
      * exists o. split; [exact Ho|]. by destruct o.
  - exists (Some it). pose proof (len_enc_row p x).
    rewrite E2, E3. rewrite (proj2 (Z.ltb_lt _ _)) by (cbn [enc_rows]; lensimp). split; [done|].
    exists p, x, rem, n. unfold at_entry. split_and!; try done. by exists pre, post.
Qed.

Lemma step_spec it l :
  at_rows it l -> Forall row_ok l ->
  exists o, step it = Ok o /\
    match o with
    | None => l = []
    | Some it' => exists l', l = (ikey it', ival it') :: l' /\ at_rows it' l' /\
        ilo it' = ilo it /\ ihi it' = ihi it
    end.
Proof.
  intros Hat Hok. unfold step. pose proof Hat as (p0 & rem0 & n0 & (Hr0 & Hb0 & Hn0 & _) & _).
  destruct (advance_spec (S (S (Z.to_nat (nblk (ir it))))) it l Hat) as (o & -> & Ho).
  { rewrite Hr0, Hb0. lia. }
  cbn [rbind]. destruct o as [it1|]; [|by exists None].
  destruct Ho as (p & x & rem & n & (Hr & Hb & Hn & pre & post & E1 & E2 & E3 & E4) & -> & Hlo & Hhi).
  unfold rows_left in *. cbn [app] in Hok. apply Forall_cons in Hok as [Hx Hok].
  cbn [enc_rows] in E1. rewrite <- app_assoc in E1.
  pose proof (enc_row_read pre p x (enc_rows x.1 rem ++ post) Hx) as (R1 & R2 & R3 & R4 & R5 & R6).
  rewrite <- E1, <- E2 in R1, R2, R3, R4, R5. rewrite <- E2 in R6.
  rewrite R1, R2, R3. cbn [rbind].
  assert (Hkept : slice (ikey it1) 0 (shared_len p x.1) = Ok (take (Z.to_nat (shared_len p x.1)) p)).
  { pose proof (shared_len_bounds p x.1). destruct E4 as [->|<-].
    - simpl. unfold slice. pose proof (len_nonneg (ikey it1)). ztests. done.
    - unfold slice. ztests. by rewrite Z.sub_0_r. }
  rewrite Hkept, R4, R5. cbn [rbind]. eexists. split; [done|]. cbn beta iota.
  exists (rem ++ concat (drop (Z.to_nat (n + 1)) bs)). cbn [ikey ival ilo ihi].
  rewrite shared_take_drop. split; [by destruct x|]. split; [|done].
  exists x.1, rem, n. split; [|done].
  split_and!; try done. exists (pre ++ enc_row p x), post. cbn [iblk ii iused ikey].
  split_and!.
  - by rewrite E1, <- app_assoc.
  - lia.
  - rewrite E3. cbn [enc_rows]. by rewrite app_assoc.
  - by right.
Qed.

Lemma next_loop_spec fuel it l :
  at_rows it l -> Forall row_ok l -> sorted_rows l -> (length l <= fuel)%nat ->
  exists o, next_loop fuel it = Ok o /\
    match o with
    | None => range (ilo it) (ihi it) l = []
    | Some it' => exists l', range (ilo it) (ihi it) l = (ikey it', ival it') :: range None (ihi it) l' /\
        at_rows it' l' /\ Forall row_ok l' /\ sorted_rows l' /\ (length l' < length l)%nat /\
        ilo it' = None /\ ihi it' = ihi it
    end.
Proof.
  revert it l. induction fuel as [|fuel IH]; intros it l Hat Hok Hs Hf;
    destruct (step_spec it l Hat Hok) as (o & Ho & Hspec); cbn [next_loop]; rewrite Ho; cbn [rbind];
    (destruct o as [it1|]; [|exists None; by rewrite Hspec]).
  { destruct Hspec as (l' & -> & _). simpl in Hf. lia. }
  destruct Hspec as (l' & -> & Hat' & Hlo & Hhi). rewrite Hlo.
  apply Forall_cons in Hok as [Hx Hok]. apply sorted_cons in Hs as [Hs Hab]. cbn [fst] in Hab.
  destruct (match ilo it with Some lo => bltb (ikey it1) lo | None => false end) eqn:Eskip.
  - destruct (IH it1 l' Hat' Hok Hs) as (o & Ho' & Hspec); [simpl in Hf; lia|].
    exists o. split; [done|]. rewrite Hlo, Hhi in Hspec.
    destruct (ilo it) as [lo|] eqn:Elo; [|done].
    assert (Hdrop : forall hi, range (Some lo) hi ((ikey it1, ival it1) :: l') = range (Some lo) hi l').
    { intros hi. simpl. unfold in_range at 1. destruct (bltb_spec (ikey it1) lo); [|done].
      by rewrite bleb_false by done. }
    rewrite Hdrop. destruct o as [it2|]; [|done].
    destruct Hspec as (l2 & ? & ? & ? & ? & ? & ? & ?). exists l2. split_and!; try done. simpl. lia.
  - rewrite Hhi. cbn [ihi ikey].
    assert (Hge : forall lo, ilo it = Some lo -> ble lo (ikey it1)).
    { intros lo E. rewrite E in Eskip. destruct (bltb_spec (ikey it1) lo); [done|]. by apply ble_not_gt. }
    assert (Hrest : range (ilo it) (ihi it) l' = range None (ihi it) l').
    { destruct (ilo it) as [lo|]; [|done]. apply range_lo_none. eapply Forall_impl; [exact Hab|].
      intros y Hy. simpl in Hy. eapply ble_trans; [by apply Hge|]. by apply blt_ble. }
    assert (Hinlo : match ilo it with Some lo => bleb lo (ikey it1) | None => true end = true).
    { destruct (ilo it); [|done]. by apply bleb_true, Hge. }
    set (it2 := MkIter _ _ _ _ _ _ _ _ _).
    assert (Hat2 : at_rows it2 l').
    { destruct Hat' as (p & rem & n & H & Hl). by exists p, rem, n. }
    assert (Hyes : match ihi it with Some hi => bltb (ikey it1) hi | None => true end = true ->
      exists l0, range (ilo it) (ihi it) ((ikey it1, ival it1) :: l') = (ikey it2, ival it2) :: range None (ihi it) l0 /\
        at_rows it2 l0 /\ Forall row_ok l0 /\ sorted_rows l0 /\
        (length l0 < length ((ikey it1, ival it1) :: l'))%nat /\ ilo it2 = None /\ ihi it2 = ihi it).
    { intros Hin. exists l'. split_and!; try done; [|simpl; lia]. simpl. unfold in_range at 1.
      rewrite Hinlo, Hin. cbn [andb]. f_equal. exact Hrest. }
    destruct (ihi it) as [hi|] eqn:Ehi; [|exists (Some it2); split; [done|by apply Hyes]].
    destruct (bleb_spec hi (ikey it1)) as [Hout|Hin].
    + exists None. split; [done|]. apply range_above. constructor; [done|].
      eapply Forall_impl; [exact Hab|]. intros y Hy. eapply ble_trans; [exact Hout|]. by apply blt_ble.
    + exists (Some it2). split; [done|]. apply Hyes. apply bltb_true, blt_not_ge. done.
Qed.

Lemma length_rows_mm : (length (concat bs) <= length (mm r))%nat.
Proof.
  destruct (run_mm _ _ HR) as [rest ->]. rewrite length_app.
  clear HR. induction bs as [|b cs IH]; cbn [map concat]; [simpl; lia|].
  unfold enc_block at 1. rewrite !length_app. pose proof (length_enc_rows [] b). lia.
Qed.

Lemma enumerates_rows it l :
  at_rows it l -> Forall row_ok l -> sorted_rows l -> (length l <= length (concat bs))%nat ->
  enumerates it (range (ilo it) (ihi it) l).
Proof.
  remember (length l) as n eqn:Hn. revert it l Hn.
  induction n as [n IH] using lt_wf_ind; intros it l -> Hat Hok Hs Hl.
  pose proof length_rows_mm. pose proof Hat as (p & rem & m & (Hr & _) & _).
  destruct (next_loop_spec (length (mm r)) it l Hat Hok Hs) as (o & Ho & Hspec); [lia|].
  assert (Hnext : it_next it = Ok o) by (cbn [it_next runIter_iterator]; unfold Next; by rewrite Hr).
  destruct o as [it'|]; [|rewrite Hspec; by apply en_nil].
  destruct Hspec as (l' & -> & Hat' & Hok' & Hs' & Hlen & Hlo & Hhi).
  change (ikey it', ival it') with (it_key it', it_val it').
  apply en_cons; [done|]. rewrite <- Hlo, <- Hhi. apply (IH (length l')); [done|done|done|done|done|lia].
Qed.

(** The rows before the block the low bound seeks to are below the bound. *)
Lemma range_from_block lo hi b :
  seek_answer bs lo (nblk r) b -> 0 <= b ->
  range (Some lo) hi (concat bs) = range (Some lo) hi (concat (drop (Z.to_nat b) bs)).
Proof.
  intros (Hb & Hlo & _) Hpos. rewrite <- (take_drop (Z.to_nat b) bs) at 1.
  rewrite concat_app, range_app, range_below; [done|].
  pose proof (run_sorted _ _ HR) as Hs. rewrite <- (take_drop (Z.to_nat b) bs), concat_app in Hs.
  apply sorted_app in Hs as (_ & _ & Hs). destruct (block_lookup r bs HR b) as [x Hx]; [lia|].
  destruct (block_props r bs HR b x Hx) as ([Hne _] & _). destruct x as [|y x]; [done|].
  apply Forall_forall. intros z Hz. eapply blt_ble_trans; [apply (Hs z y Hz)|].
  - erewrite drop_S by done. simpl. set_solver.
  - specialize (Hlo b ltac:(lia)). unfold fk in Hlo. by rewrite Hx in Hlo.
Qed.

Lemma Iter_is_run lo hi :
  (forall l, lo = Some l -> Forall byte_ok l) ->
  exists it, Iter r lo hi = Ok it /\ enumerates it (range lo hi (concat bs)).
Proof.
  intros Hlo. pose proof (run_rows _ _ HR) as Hok. pose proof (run_sorted _ _ HR) as Hs.
  assert (Hstart : forall n, -1 <= n -> enumerates (MkIter r lo hi n 0 0 [] [] [])
    (range lo hi (concat (drop (Z.to_nat (n + 1)) bs)))).
  { intros n Hn. rewrite <- (take_drop (Z.to_nat (n + 1)) bs), concat_app in Hok, Hs.
    apply Forall_app in Hok as [_ Hok]. apply sorted_app in Hs as (_ & Hs & _).
    apply (enumerates_rows (MkIter r lo hi n 0 0 [] [] [])); try done.
    - exists [], [], n. split; [|done]. split_and!; try done. exists [], []. split_and!; try done. by left.
    - rewrite <- (take_drop (Z.to_nat (n + 1)) bs) at 2. rewrite concat_app, length_app. lia. }
  unfold Iter. destruct lo as [lo|].
  - destruct (seek_spec r bs HR lo) as (b & -> & Ha); [by apply Hlo|]. cbn [rbind]. eexists. split; [done|].
    destruct (Z.ltb_spec 0 b) as [Hpos|Hz]; [|apply (Hstart (-1)); lia].
    rewrite (range_from_block lo hi b) by (done || lia).
    specialize (Hstart (b - 1) ltac:(lia)). by replace (b - 1 + 1) with b in Hstart by lia.
  - eexists. split; [done|]. apply (Hstart (-1)). lia.
Qed.

End Iterating.

(** iterating an opened checkpoint over [lo, hi) (either bound may be
    absent) yields exactly the rows in that range, in ascending order, and
    stops: no row is missed at a block boundary or repeated, and every skip of
    the low bound terminates. *)
Theorem latest_run_iter u l lo hi :
  Forall row_ok l -> sorted_rows l -> len u = 32 -> len l < 2 ^ 50 ->
  (forall b, lo = Some b -> Forall byte_ok b) ->
  exists f r it, write_run u l = Ok f /\ Open f = Ok r /\ Iter r lo hi = Ok it /\
    enumerates it (range lo hi l).
Proof.
  intros Hok Hs Hu Hn Hlo.
  destruct (write_run_spec u l Hok Hs Hu Hn) as (f & r & bs & HW & HO & Hr & <- & _).
  destruct (Iter_is_run r bs Hr lo hi Hlo) as (it & HI & He). by exists f, r, it.
Qed.

(** ** Witnesses *)

Definition sample_rows : list row :=
  [([1], [9; 9]); ([1; 0], []); ([1; 2; 3], [7]); ([2], replicate 200 5)].

Lemma sample_rows_ok : Forall row_ok sample_rows.
Proof.
  unfold row_ok, byte_ok. repeat constructor; simpl; try (vm_compute; congruence); try lia.
Qed.
Lemma sample_rows_sorted : sorted_rows sample_rows.
Proof. unfold sorted_rows. simpl. repeat constructor. Qed.

Definition sample_run : Run :=
  match (let* f := write_run (replicate 32 0) sample_rows in Open f) with
  | Ok r => r
  | _ => MkRun [] [] 0 0 []
  end.

Lemma sample_is_run : exists bs, is_run sample_run bs /\ concat bs = sample_rows.
Proof.
  destruct (write_run_spec (replicate 32 0) sample_rows) as (f & r & bs & E & EO & Hr & Hc & _);
    [exact sample_rows_ok|exact sample_rows_sorted|done|done|].
  exists bs. unfold sample_run. rewrite E. cbn [rbind]. by rewrite EO.
Qed.

Lemma latest_run_roundtrip_witness :
  exists f r, write_run (replicate 32 0) sample_rows = Ok f /\ Open f = Ok r /\
    rn r = 4 /\ ruser r = replicate 32 0 /\
    forall key, Forall byte_ok key -> Get r key = Ok (aget sample_rows key).
Proof.
  apply (latest_run_roundtrip (replicate 32 0) sample_rows);
    [exact sample_rows_ok|exact sample_rows_sorted|reflexivity|vm_compute; reflexivity].
Defined.

Lemma latest_run_iter_witness :
  exists f r it, write_run (replicate 32 0) sample_rows = Ok f /\ Open f = Ok r /\
    Iter r (Some [1; 0]) (Some [2]) = Ok it /\ enumerates it [([1; 0], []); ([1; 2; 3], [7])].
Proof.
  apply (latest_run_iter (replicate 32 0) sample_rows (Some [1; 0]) (Some [2]));
    [exact sample_rows_ok|exact sample_rows_sorted|reflexivity|vm_compute; reflexivity|].
  intros b [= <-]. repeat constructor; vm_compute; congruence.
Defined.

End LatestRun.
