(* ===== verification/LatestOverlay.v ===== *)
(** * latest/view.go: the in-memory overlay

    The writes since the last checkpoint: a byte slab of entries behind an
    index of fixed-width keys, with a second index for long keys. A [Put] of an
    existing key rewrites the value in place when it fits its slack, else
    appends a new entry and leaves the old one dead. Operations run under the
    overlay's lock, so each is one step. *)

From S2P Require Import Prelude Bytes Rows LatestRun.

Module Overlay.
Import LatestRun.

Definition entryOverhead : Z := 64.
Definition fixedKey : nat := 72.

Record Overlay := MkOverlay {
  idx : gmap bytes Z;   (* [len u8][key...] zero padded -> slab offset *)
  long : gmap bytes Z;  (* the longer keys *)
  slab : bytes;
  obytes : Z }.

Definition NewOverlay : Overlay := MkOverlay ∅ ∅ [] 0.

(** [fixed]: the padded index key, for a key shorter than [fixedKey]. *)
Definition fixed (key : bytes) : option bytes :=
  if Z.of_nat fixedKey <=? len key then None
  else Some (fit fixedKey (len key mod 256 :: key)).

Definition find (o : Overlay) (key : bytes) : option Z :=
  match fixed key with Some k => idx o !! k | None => long o !! key end.

Definition set (o : Overlay) (key : bytes) (off : Z) : Overlay :=
  match fixed key with
  | Some k => MkOverlay (<[k := off]> (idx o)) (long o) (slab o) (obytes o)
  | None => MkOverlay (idx o) (<[key := off]> (long o)) (slab o) (obytes o)
  end.

Definition keyAt (slab : bytes) (off : Z) : res bytes :=
  let* kl := index slab off in slice slab (off + 3) (off + 3 + kl).

Definition valueAt (slab : bytes) (off : Z) : res bytes :=
  let* kl := index slab off in
  let k := off + 3 + kl in
  let* vl := index slab (off + 1) in
  slice slab k (k + vl).

(** [slab[i] = b], and [copy(slab[i:], v)], which stops at the slab's end. *)
Definition set_byte (s : bytes) (i : Z) (b : Z) : res bytes :=
  let* _ := index s i in Ok (<[Z.to_nat i := b]> s).
Definition copy_at (s : bytes) (i : Z) (v : bytes) : res bytes :=
  let* tl := slice_from s i in
  Ok (take (Z.to_nat i) s ++ take (length tl) v ++ drop (length v) tl).

(** The slab entry [Put] appends. *)
Definition vcap (value : bytes) : Z := Z.min maxValue (Z.ldiff (len value + 15) 15).
Definition entry (key value : bytes) : bytes :=
  [len key mod 256; len value mod 256; vcap value mod 256] ++ key ++ value
  ++ replicate (Z.to_nat (vcap value - len value)) 0.

Definition put_append (o : Overlay) (key value : bytes) (nb : Z) : Overlay :=
  set (MkOverlay (idx o) (long o) (slab o ++ entry key value) nb) key (len (slab o)).

Definition Put (o : Overlay) (key value : bytes) : res Overlay :=
  if (len key =? 0) || (maxKey <? len key) || (maxValue <? len value) then Panic else
  match find o key with
  | Some off =>
      let* vl := index (slab o) (off + 1) in
      let* vc := index (slab o) (off + 2) in
      let nb := obytes o + (len value - vl) in
      if len value <=? vc then
        let* s := set_byte (slab o) (off + 1) (len value mod 256) in
        let* s := copy_at s (off + 3 + len key) value in
        Ok (MkOverlay (idx o) (long o) s nb)
      else Ok (put_append o key value nb)
  | None => Ok (put_append o key value (obytes o + (len key + len value + entryOverhead)))
  end.

(** [Get]: the value ([None] for [ok] false) and the tombstone flag. *)
Definition Get (o : Overlay) (key : bytes) : res (option bytes * bool) :=
  match find o key with
  | None => Ok (None, false)
  | Some off => let* v := valueAt (slab o) off in Ok (Some v, len v =? 0)
  end.

Definition Len (o : Overlay) : Z := Z.of_nat (size (idx o)) + Z.of_nat (size (long o)).
Definition Bytes (o : Overlay) : Z := obytes o.

(** ** Iter: a sorted snapshot of the keys in range *)

(** The range test on an index key: [in(k[1 : 1+k[0]])]. *)
Fixpoint keep_idx (lo hi : option bytes) (l : list (bytes * Z)) : res (list Z) :=
  match l with
  | [] => Ok []
  | (k, off) :: l =>
      let* n := index k 0 in
      let* kk := slice k 1 (1 + n) in
      let* r := keep_idx lo hi l in
      Ok (if in_range lo hi kk then off :: r else r)
  end.

Definition keep_long (lo hi : option bytes) (l : list (bytes * Z)) : list Z :=
  map snd (List.filter (fun x => in_range lo hi x.1) l).

Fixpoint keys_at (slab : bytes) (offs : list Z) : res (list (bytes * Z)) :=
  match offs with
  | [] => Ok []
  | off :: offs =>
      let* k := keyAt slab off in let* r := keys_at slab offs in Ok ((k, off) :: r)
  end.

Definition key_le (a b : bytes * Z) : Prop := ble a.1 b.1.
#[global] Instance key_le_dec : RelDecision key_le.
Proof. intros a b. unfold key_le. apply _. Defined.

Record slabIter := MkSlabIter { sslab : bytes; offs : list Z; si : Z }.

(** The map ranges come in an unspecified order, which the sort removes. *)
Definition Iter (o : Overlay) (lo hi : option bytes) : res slabIter :=
  let* short := keep_idx lo hi (map_to_list (idx o)) in
  let* ks := keys_at (slab o) (short ++ keep_long lo hi (map_to_list (long o))) in
  Ok (MkSlabIter (slab o) (map snd (merge_sort key_le ks)) (-1)).

Definition slab_next (it : slabIter) : slabIter := MkSlabIter (sslab it) (offs it) (si it + 1).
Definition current (at_ : bytes -> Z -> res bytes) (it : slabIter) : bytes :=
  match offs it !! Z.to_nat (si it) with
  | Some off => match at_ (sslab it) off with Ok b => b | _ => [] end
  | None => []
  end.

#[global] Instance slabIter_iterator : Iterator slabIter := {
  it_next it := Ok (if si it + 1 <? len (offs it) then Some (slab_next it) else None);
  it_key := current keyAt;
  it_val := current valueAt }.

(** ** The slab as entries *)

Record seg := MkSeg { sk : bytes; sv : bytes; spad : bytes }.

Definition enc_seg (s : seg) : bytes :=
  [len (sk s); len (sv s); len (sv s) + len (spad s)] ++ sk s ++ sv s ++ spad s.

Definition seg_ok (s : seg) : Prop := 1 <= len (sk s) <= 255 /\ len (sv s) + len (spad s) <= 255.

Definition offset_of (segs : list seg) (i : nat) : Z := len (concat (map enc_seg (take i segs))).

Definition key_ok (k : bytes) : Prop := 1 <= len k <= 255 /\ Forall byte_ok k.

(** [o] holds the map [m]: every key of [m] is indexed at an entry that holds
    it with its value, and nothing else is indexed. *)
Definition indexed (o : Overlay) (segs : list seg) (m : gmap bytes bytes) : Prop :=
  forall k, match find o k with
  | Some off => exists i s, segs !! i = Some s /\ off = offset_of segs i /\ sk s = k /\ m !! k = Some (sv s)
  | None => m !! k = None
  end.

(** The accounted size of a map's rows. *)
Definition accounted (m : gmap bytes bytes) : Z :=
  map_fold (fun k v n => len k + len v + entryOverhead + n) 0 m.

Record overlay_ok (o : Overlay) (m : gmap bytes bytes) : Prop := {
  ok_segs : exists segs, slab o = concat (map enc_seg segs) /\ Forall seg_ok segs /\ indexed o segs m;
  ok_idx : forall fk off, idx o !! fk = Some off -> exists k, fixed k = Some fk /\ is_Some (m !! k);
  ok_long : forall k off, long o !! k = Some off -> fixed k = None;
  ok_keys : forall k v, m !! k = Some v -> key_ok k /\ len v <= 255;
  ok_bytes : obytes o = accounted m }.

(** ** Index keys *)

Lemma fit_ge n k : (length k <= n)%nat -> fit n k = k ++ replicate (n - length k) 0.
Proof.
  intros H. unfold fit. rewrite take_app_ge by lia. f_equal. rewrite take_replicate. f_equal. lia.
Qed.

Lemma fixed_inj k k' f : fixed k = Some f -> fixed k' = Some f -> k = k'.
Proof.
  unfold fixed, fixedKey. repeat case_test; try done. intros H1 H2.
  assert (H : fit 72 (len k mod 256 :: k) = fit 72 (len k' mod 256 :: k')) by congruence. clear H1 H2.
  rewrite !fit_ge in H by (simpl; unfold len in *; lia). simpl in H. injection H as H1 H2.
  rewrite !Z.mod_small in H1 by (pose proof (len_nonneg k); pose proof (len_nonneg k'); lia).
  apply app_inj_1 in H2 as [-> _]; [done|]. unfold len in H1. lia.
Qed.

Lemma find_set o k off k' :
  find (set o k off) k' = if beqb k' k then Some off else find o k'.
Proof.
  unfold find, set. destruct (fixed k) as [f|] eqn:E, (fixed k') as [f'|] eqn:E'; cbn [idx long];
    case_cmp; subst; try congruence.
  - replace f' with f by congruence. by simplify_map_eq.
  - rewrite lookup_insert_ne; [done|]. intros <-. eauto using fixed_inj.
  - by simplify_map_eq.
  - by rewrite lookup_insert_ne.
Qed.

Lemma set_fields o k off :
  slab (set o k off) = slab o /\ obytes (set o k off) = obytes o.
Proof. unfold set. by destruct (fixed k). Qed.

(** ** Accounting *)

Lemma accounted_insert m k v :
  m !! k = None -> accounted (<[k := v]> m) = len k + len v + entryOverhead + accounted m.
Proof.
  intros H. unfold accounted. rewrite map_fold_insert_L; [done| |done].
  intros. lia.
Qed.

Lemma accounted_delete m k v :
  m !! k = Some v -> accounted m = len k + len v + entryOverhead + accounted (delete k m).
Proof.
  intros H. rewrite <- (insert_delete_id m k v H) at 1. apply accounted_insert.
  apply lookup_delete_eq.
Qed.

Lemma accounted_update m k v v' :
  m !! k = Some v -> accounted (<[k := v']> m) = accounted m + (len v' - len v).
Proof.
  intros H. rewrite (accounted_delete m k v H), <- insert_delete_eq, accounted_insert; [lia|].
  apply lookup_delete_eq.
Qed.

(** ** The slab *)

Lemma slab_at segs i s :
  segs !! i = Some s ->
  concat (map enc_seg segs)
  = concat (map enc_seg (take i segs)) ++ enc_seg s ++ concat (map enc_seg (drop (S i) segs)).
Proof.
  intros H. rewrite <- (take_drop_middle segs i s H) at 1.
  by rewrite map_app, concat_app.
Qed.

Lemma seg_read A s B :
  let sl := A ++ enc_seg s ++ B in let off := len A in
  index sl off = Ok (len (sk s)) /\ index sl (off + 1) = Ok (len (sv s)) /\
  index sl (off + 2) = Ok (len (sv s) + len (spad s)) /\
  keyAt sl off = Ok (sk s) /\ valueAt sl off = Ok (sv s).
Proof.
  cbn zeta. unfold enc_seg.
  assert (H0 : index (A ++ ([len (sk s); len (sv s); len (sv s) + len (spad s)] ++ sk s ++ sv s ++ spad s) ++ B) (len A)
    = Ok (len (sk s))) by (by apply index_app).
  assert (H1 : index (A ++ ([len (sk s); len (sv s); len (sv s) + len (spad s)] ++ sk s ++ sv s ++ spad s) ++ B) (len A + 1)
    = Ok (len (sv s))).
  { cbn [app]. rewrite cons_middle, app_assoc. apply index_app. lens. lia. }
  split_and!; [done|done| | |].
  - cbn [app]. rewrite cons_middle, app_assoc, (cons_middle (len (sv s))), app_assoc.
    apply index_app. lens. lia.
  - unfold keyAt. rewrite H0. cbn [rbind]. rewrite <- !app_assoc, (app_assoc A).
    apply slice_app; lens; lia.
  - unfold valueAt. rewrite H0. cbn [rbind]. rewrite H1. cbn [rbind].
    rewrite <- !app_assoc, (app_assoc A), (app_assoc _ (sk s)). apply slice_app; lens; lia.
Qed.

(** The in-place rewrite: the entry's value and padding change, its length
    does not. *)
Definition rewritten (s : seg) (v : bytes) : seg :=
  MkSeg (sk s) v (drop (length v) (sv s ++ spad s)).

Lemma rewritten_cap s v :
  len v <= len (sv s) + len (spad s) ->
  len (sv (rewritten s v)) + len (spad (rewritten s v)) = len (sv s) + len (spad s).
Proof. intros H. simpl. unfold len in *. rewrite length_drop, length_app. lia. Qed.

Lemma len_rewritten s v :
  len v <= len (sv s) + len (spad s) -> len (enc_seg (rewritten s v)) = len (enc_seg s).
Proof. intros H. pose proof (rewritten_cap s v H). unfold enc_seg. simpl in *. lens. lia. Qed.

Lemma insert_middle (A : bytes) x y B : <[length A := y]> (A ++ x :: B) = A ++ y :: B.
Proof. rewrite insert_app_r_alt by lia. by rewrite Nat.sub_diag. Qed.

Lemma rewrite_slab A s v B :
  len v <= len (sv s) + len (spad s) -> len v <= 255 ->
  (let* sl := set_byte (A ++ enc_seg s ++ B) (len A + 1) (len v mod 256) in
   copy_at sl (len A + 3 + len (sk s)) v)
  = Ok (A ++ enc_seg (rewritten s v) ++ B).
Proof.
  intros Hc Hv. unfold set_byte.
  pose proof (seg_read A s B) as (_ & -> & _). cbn [rbind]. unfold enc_seg. cbn [app].
  pose proof (len_nonneg v). rewrite Z.mod_small by lia.
  rewrite cons_middle, app_assoc.
  replace (Z.to_nat (len A + 1)) with (length (A ++ [len (sk s)])) by (rewrite length_app; unfold len; simpl; lia).
  rewrite insert_middle.
  set (P := (A ++ [len (sk s)]) ++ [len v; len (sv s) + len (spad s)] ++ sk s).
  replace ((A ++ [len (sk s)]) ++ len v :: len (sv s) + len (spad s) :: (sk s ++ sv s ++ spad s) ++ B)
    with (P ++ (sv s ++ spad s) ++ B) by (subst P; rewrite <- !app_assoc; done).
  assert (HP : len P = len A + 3 + len (sk s)) by (subst P; lens; lia).
  unfold copy_at. rewrite slice_tail by done. cbn [rbind].
  rewrite <- HP, len_to_nat, take_app_length.
  rewrite take_ge by (unfold len in *; rewrite !length_app; lia).
  rewrite drop_app_le by (unfold len in *; rewrite !length_app; lia).
  subst P. pose proof (rewritten_cap s v Hc) as Hcap. unfold rewritten in *. cbn [sk sv spad] in *. rewrite Hcap.
  f_equal. rewrite <- !app_assoc. done.
Qed.

Lemma offset_insert segs i s s' j :
  segs !! i = Some s -> len (enc_seg s') = len (enc_seg s) ->
  offset_of (<[i := s']> segs) j = offset_of segs j.
Proof.
  intros Hi Hl. unfold offset_of. destruct (decide (j <= i)%nat) as [Hj|Hj].
  { by rewrite take_insert_ge. }
  rewrite take_insert_lt by lia.
  assert (H : take j segs !! i = Some s) by (by rewrite lookup_take_lt by lia).
  rewrite (slab_at (take j segs) i s H).
  rewrite (slab_at (<[i := s']> (take j segs)) i s').
  2: { apply list_lookup_insert_eq. by eapply lookup_lt_Some. }
  rewrite take_insert_ge, drop_insert_lt by lia. lens. lia.
Qed.

(** ** Operations refine the map *)

Lemma vcap_bounds v : len v <= 255 -> len v <= vcap v <= 255.
Proof.
  intros H. pose proof (len_nonneg v). unfold vcap, maxValue.
  assert (Hb : (len v <=? Z.ldiff (len v + 15) 15) = true).
  { apply (byte_forall (fun n => n <=? Z.ldiff (n + 15) 15)); [vm_compute; reflexivity|].
    unfold byte_ok. lia. }
  apply Z.leb_le in Hb. lia.
Qed.

Lemma entry_seg k v :
  1 <= len k <= 255 -> len v <= 255 ->
  exists pad, entry k v = enc_seg (MkSeg k v pad) /\ seg_ok (MkSeg k v pad).
Proof.
  intros Hk Hv. pose proof (vcap_bounds v Hv). pose proof (len_nonneg v).
  exists (replicate (Z.to_nat (vcap v - len v)) 0). unfold entry, enc_seg, seg_ok. cbn [sk sv spad].
  rewrite !Z.mod_small by lia. lens. split; [|lia]. repeat f_equal. lia.
Qed.

Lemma indexed_append o segs m k v s nb :
  slab o = concat (map enc_seg segs) -> indexed o segs m ->
  sk s = k -> sv s = v -> entry k v = enc_seg s ->
  indexed (put_append o k v nb) (segs ++ [s]) (<[k := v]> m).
Proof.
  intros Hsl Hix Hk Hv He k'. unfold put_append. rewrite find_set. case_cmp.
  - subst k'. exists (length segs), s. rewrite list_lookup_middle by done.
    split_and!; [done| |done|by rewrite lookup_insert_eq, Hv].
    unfold offset_of. rewrite take_app_length. by rewrite Hsl.
  - rewrite lookup_insert_ne by done. specialize (Hix k'). unfold find in *. cbn [idx long].
    destruct (match fixed k' with Some k0 => idx o !! k0 | None => long o !! k' end); [|done].
    destruct Hix as (i & s' & Hi & -> & Hs & Hm). exists i, s'. split_and!; try done.
    + by apply lookup_app_l_Some.
    + unfold offset_of. rewrite take_app_le; [done|]. apply lookup_lt_Some in Hi. lia.
Qed.

Lemma indexed_rewrite o segs m k v i s o' :
  indexed o segs m -> segs !! i = Some s -> sk s = k -> len v <= len (sv s) + len (spad s) ->
  (forall k', find o' k' = find o k') -> is_Some (find o k) -> find o k = Some (offset_of segs i) ->
  indexed o' (<[i := rewritten s v]> segs) (<[k := v]> m).
Proof.
  intros Hix Hi Hk Hc Hf _ Hfk k'. rewrite Hf.
  destruct (decide (k' = k)) as [->|Hne].
  - rewrite Hfk. exists i, (rewritten s v). split_and!.
    + apply list_lookup_insert_eq. by eapply lookup_lt_Some.
    + by erewrite offset_insert by (done || by apply len_rewritten).
    + done.
    + by rewrite lookup_insert_eq.
  - specialize (Hix k'). rewrite lookup_insert_ne by done. destruct (find o k'); [|done].
    destruct Hix as (j & s' & Hj & -> & Hs & Hm). exists j, s'. split_and!; try done.
    + rewrite list_lookup_insert_ne; [done|]. intros ->. congruence.
    + by erewrite offset_insert by (done || by apply len_rewritten).
Qed.

Lemma put_append_ok o m k v nb :
  overlay_ok o m -> key_ok k -> len v <= 255 -> nb = accounted (<[k := v]> m) ->
  overlay_ok (put_append o k v nb) (<[k := v]> m).
Proof.
  intros [(segs & Hsl & Hseg & Hix) Hidx Hlong Hkeys _] Hk Hv Hnb.
  destruct (entry_seg k v) as (pad & He & Hs); [apply Hk|done|]. constructor.
  - exists (segs ++ [MkSeg k v pad]). split_and!.
    + unfold put_append. rewrite (proj1 (set_fields _ _ _)). cbn [slab].
      rewrite Hsl, map_app, concat_app, He. simpl. by rewrite app_nil_r.
    + apply Forall_app; split; [done|]. by constructor.
    + by apply indexed_append.
  - unfold put_append, set. intros fk off. destruct (fixed k) as [f|] eqn:E; cbn [idx].
    + intros H. destruct (decide (fk = f)) as [->|Hne].
      * exists k. split; [done|]. rewrite lookup_insert_eq. eauto.
      * rewrite lookup_insert_ne in H by done. destruct (Hidx fk off H) as (k' & Hf & Hm).
        exists k'. split; [done|]. rewrite lookup_insert_is_Some'. auto.
    + intros H. destruct (Hidx fk off H) as (k' & Hf & Hm).
      exists k'. split; [done|]. rewrite lookup_insert_is_Some'. auto.
  - unfold put_append, set. intros k' off. destruct (fixed k) as [f|] eqn:E; cbn [long]; [apply Hlong|].
    destruct (decide (k' = k)) as [->|Hne]; [done|]. rewrite lookup_insert_ne by done. apply Hlong.
  - intros k' v'. destruct (decide (k' = k)) as [->|Hne].
    + rewrite lookup_insert_eq. by intros [= <-].
    + rewrite lookup_insert_ne by done. apply Hkeys.
  - unfold put_append. by rewrite (proj2 (set_fields _ _ _)).
Qed.

Lemma Put_ok o m k v :
  overlay_ok o m -> key_ok k -> len v <= 255 ->
  exists o', Put o k v = Ok o' /\ overlay_ok o' (<[k := v]> m).
Proof.
  intros Ho Hk Hv. pose proof Ho as [(segs & Hsl & Hseg & Hix) Hidx Hlong Hkeys Hb].
  unfold Put. pose proof Hk as [[Hk1 Hk2] _].
  assert (Hg : (len k =? 0) || (maxKey <? len k) || (maxValue <? len v) = false)
    by (unfold maxKey, maxValue; ztests; done).
  rewrite Hg. clear Hg. pose proof (Hix k) as Hf. destruct (find o k) as [off|] eqn:Efind.
  2: { eexists. split; [done|]. apply put_append_ok; try done. rewrite accounted_insert by done. lia. }
  destruct Hf as (i & s & Hi & -> & Hs & Hm).
  pose proof (slab_at segs i s Hi) as Hat. rewrite <- Hsl in Hat. unfold offset_of.
  set (A := concat (map enc_seg (take i segs))) in *. set (B := concat (map enc_seg (drop (S i) segs))) in *.
  pose proof (seg_read A s B) as (_ & R1 & R2 & _). rewrite <- Hat in R1, R2. rewrite R1, R2. cbn [rbind].
  assert (Hacc : obytes o + (len v - len (sv s)) = accounted (<[k := v]> m))
    by (rewrite (accounted_update _ _ _ _ Hm); lia).
  destruct (Z.leb_spec (len v) (len (sv s) + len (spad s))) as [Hfit|Hbig].
  2: { eexists. split; [done|]. by apply put_append_ok. }
  pose proof (rewrite_slab A s v B Hfit Hv) as RW. rewrite <- Hat, Hs in RW.
  rewrite <- rbind_assoc, RW. cbn [rbind].
  eexists. split; [done|]. constructor; cbn [idx long slab obytes].
  - exists (<[i := rewritten s v]> segs). pose proof (lookup_lt_Some _ _ _ Hi). split_and!.
    + rewrite (slab_at _ i (rewritten s v)) by (by apply list_lookup_insert_eq).
      by rewrite take_insert_ge, drop_insert_lt by lia.
    + apply Forall_insert; [done|]. rewrite Forall_lookup in Hseg. destruct (Hseg i s Hi).
      split; [done|]. by rewrite rewritten_cap.
    + eapply (indexed_rewrite o); rewrite ?Efind; done || eauto.
  - intros fk off H. destruct (Hidx fk off H) as (k' & Hfx & Hm').
    exists k'. split; [done|]. rewrite lookup_insert_is_Some'. auto.
  - done.
  - intros k' v'. destruct (decide (k' = k)) as [->|Hne].
    + rewrite lookup_insert_eq. by intros [= <-].
    + rewrite lookup_insert_ne by done. apply Hkeys.
  - done.
Qed.

Lemma Get_ok o m k :
  overlay_ok o m ->
  Get o k = Ok (m !! k, match m !! k with Some v => len v =? 0 | None => false end).
Proof.
  intros [(segs & Hsl & _ & Hix) _ _ _ _]. unfold Get. specialize (Hix k).
  destruct (find o k) as [off|]; [|by rewrite Hix].
  destruct Hix as (i & s & Hi & -> & _ & ->). pose proof (slab_at segs i s Hi) as Hat.
  rewrite <- Hsl in Hat.
  pose proof (seg_read (concat (map enc_seg (take i segs))) s (concat (map enc_seg (drop (S i) segs))))
    as (_ & _ & _ & _ & Hv). rewrite <- Hat in Hv. unfold offset_of. by rewrite Hv.
Qed.

Lemma NewOverlay_ok : overlay_ok NewOverlay ∅.
Proof.
  constructor; try (intros; by simplify_map_eq).
  - exists []. split_and!; [done|constructor|]. intros k. unfold find. cbn [idx long].
    by destruct (fixed k); rewrite lookup_empty.
Qed.

(** ** The iterator *)

Definition unfix (fk : bytes) : bytes := take (Z.to_nat (default 0 (head fk))) (tail fk).

Lemma unfix_fixed k fk :
  fixed k = Some fk -> unfix fk = k /\ (let* n := index fk 0 in slice fk 1 (1 + n)) = Ok k.
Proof.
  unfold fixed, fixedKey. case_test; [done|]. pose proof (len_nonneg k).
  intros [= <-]. rewrite Z.mod_small by lia.
  rewrite fit_ge by (simpl; unfold len in *; lia). cbn [app]. split.
  - unfold unfix. cbn [head tail from_option id]. by rewrite len_to_nat, take_app_length.
  - rewrite (index_app [] (len k) _ 0 eq_refl : index (len k :: _) 0 = _). cbn [rbind].
    apply (slice_app [len k] k); lens; lia.
Qed.

Lemma keep_idx_spec lo hi l :
  Forall (fun x => exists k, fixed k = Some x.1) l ->
  keep_idx lo hi l
  = Ok (map snd (List.filter (fun x => in_range lo hi x.1) (map (fun x => (unfix x.1, x.2)) l))).
Proof.
  induction 1 as [|[fk off] l [k Hk] _ IH]; [done|]. cbn [keep_idx map fst snd] in *.
  destruct (unfix_fixed k fk Hk) as [Hu Hs]. rewrite Hu.
  rewrite <- rbind_assoc, Hs. cbn [rbind]. rewrite IH. cbn [rbind List.filter fst].
  by destruct (in_range lo hi k).
Qed.

Lemma keys_at_spec sl l :
  Forall (fun x => keyAt sl x.2 = Ok x.1) l -> keys_at sl (map snd l) = Ok l.
Proof.
  induction 1 as [|[k off] l Hk _ IH]; [done|]. cbn [keys_at map snd fst] in *.
  rewrite Hk. cbn [rbind]. by rewrite IH.
Qed.

(** The indexed keys with their offsets, in no particular order. *)
Definition pairs (o : Overlay) : list (bytes * Z) :=
  map (fun x => (unfix x.1, x.2)) (map_to_list (idx o)) ++ map_to_list (long o).

Lemma pairs_find o m k off : overlay_ok o m -> (k, off) ∈ pairs o <-> find o k = Some off.
Proof.
  intros Ho. unfold pairs, find. rewrite elem_of_app, elem_of_map_to_list. split.
  - intros [Hin|Hin].
    + apply list_elem_of_fmap in Hin as ([fk off'] & [= -> ->] & Hin). cbn [fst snd] in *.
      apply elem_of_map_to_list in Hin. destruct (ok_idx _ _ Ho _ _ Hin) as (k & Hk & _).
      destruct (unfix_fixed k fk Hk) as [-> _]. by rewrite Hk.
    + by rewrite (ok_long _ _ Ho _ _ Hin).
  - destruct (fixed k) as [fk|] eqn:E; intros H; [left|by right].
    apply list_elem_of_fmap. exists (fk, off). cbn [fst snd]. destruct (unfix_fixed k fk E) as [-> _].
    split; [done|]. by apply elem_of_map_to_list.
Qed.

Lemma pairs_NoDup o m : overlay_ok o m -> NoDup (map fst (pairs o)).
Proof.
  intros Ho. unfold pairs. rewrite map_app. apply NoDup_app. split_and!.
  - rewrite map_map. simpl.
    assert (Hall : forall x, x ∈ map_to_list (idx o) -> exists k, fixed k = Some x.1).
    { intros [fk off] Hx. apply elem_of_map_to_list in Hx.
      destruct (ok_idx _ _ Ho _ _ Hx) as (k & Hk & _). by exists k. }
    pose proof (NoDup_fst_map_to_list (idx o)) as Hnd. revert Hall Hnd.
    generalize (map_to_list (idx o)) as l. induction l as [|[fk off] l IH]; intros Hall Hnd; [constructor|].
    rewrite fmap_cons in Hnd. apply NoDup_cons in Hnd as [Hni Hnd]. cbn [map].
    apply NoDup_cons. split; [|apply IH; [set_solver|done]].
    intros Hin. apply list_elem_of_fmap in Hin as ([fk' off'] & E & Hin). cbn [fst] in *.
    destruct (Hall (fk, off)) as [k Hk]; [set_solver|]. destruct (Hall (fk', off')) as [k' Hk']; [set_solver|].
    cbn [fst] in *. destruct (unfix_fixed _ _ Hk) as [Hu _], (unfix_fixed _ _ Hk') as [Hu' _].
    apply Hni. apply list_elem_of_fmap. exists (fk', off'). split; [|done]. cbn [fst]. congruence.
  - intros k Hin Hin'. apply list_elem_of_fmap in Hin as ([k1 off1] & -> & Hin).
    apply list_elem_of_fmap in Hin as ([fk off] & [= -> ->] & Hin). cbn [fst] in *.
    apply elem_of_map_to_list in Hin. destruct (ok_idx _ _ Ho _ _ Hin) as (k & Hk & _).
    destruct (unfix_fixed k fk Hk) as [Hu _]. rewrite Hu in Hin'.
    apply list_elem_of_fmap in Hin' as ([k2 off2] & -> & Hin2). apply elem_of_map_to_list in Hin2.
    cbn [fst] in Hk. rewrite (ok_long _ _ Ho _ _ Hin2) in Hk. done.
  - apply NoDup_fst_map_to_list.
Qed.

Lemma keyAt_find o m k off :
  overlay_ok o m -> find o k = Some off ->
  keyAt (slab o) off = Ok k /\ exists v, m !! k = Some v /\ valueAt (slab o) off = Ok v.
Proof.
  intros [(segs & Hsl & _ & Hix) _ _ _ _] Hf. specialize (Hix k). rewrite Hf in Hix.
  destruct Hix as (i & s & Hi & -> & <- & Hm). pose proof (slab_at segs i s Hi) as Hat.
  rewrite <- Hsl in Hat.
  pose proof (seg_read (concat (map enc_seg (take i segs))) s (concat (map enc_seg (drop (S i) segs))))
    as (_ & _ & _ & Hk & Hv). rewrite <- Hat in Hk, Hv. unfold offset_of. split; [done|]. by exists (sv s).
Qed.

(** An iterator over offsets yields the entries there. *)
Lemma enumerates_slab sl (l : list (bytes * Z)) (vs : list row) i it :
  Forall2 (fun x r => keyAt sl x.2 = Ok r.1 /\ valueAt sl x.2 = Ok r.2) l vs ->
  (i <= length l)%nat -> it = MkSlabIter sl (map snd l) (Z.of_nat i - 1) ->
  enumerates it (drop i vs).
Proof.
  intros Hall. remember (length l - i)%nat as n eqn:Hn. revert i it Hn.
  pose proof (Forall2_length _ _ _ Hall) as Hlen.
  induction n as [|n IH]; intros i it Hn Hi ->.
  - rewrite drop_ge by lia. apply en_nil. simpl. unfold len. rewrite length_map.
    by rewrite (proj2 (Z.ltb_ge _ _)) by lia.
  - destruct (lookup_lt_is_Some_2 l i) as [x Hx]; [lia|].
    destruct (Forall2_lookup_l _ _ _ _ _ Hall Hx) as (r & Hr & Hk & Hv).
    erewrite drop_S by done. set (it' := MkSlabIter sl (map snd l) (Z.of_nat i)).
    replace r with (it_key it', it_val it').
    + apply en_cons.
      * simpl. unfold len. rewrite length_map, (proj2 (Z.ltb_lt _ _)) by lia.
        do 2 f_equal. unfold slab_next. simpl. subst it'. f_equal. lia.
      * apply IH; [lia|lia|]. subst it'. f_equal. lia.
    + destruct r as [k v]. cbn [it_key it_val slabIter_iterator]. unfold current. cbn [offs si sslab it'].
      rewrite Nat2Z.id, list_lookup_fmap, Hx. cbn [fmap option_fmap option_map].
      rewrite Hk, Hv. done.
Qed.

(** A sort by key of distinct keys is strictly ascending. *)
Lemma sort_strict (l : list (bytes * Z)) :
  NoDup (map fst l) -> StronglySorted blt (map fst (merge_sort key_le l)).
Proof.
  intros Hnd.
  assert (Hs : StronglySorted key_le (merge_sort key_le l)).
  { apply Sorted_StronglySorted, Sorted_merge_sort; unfold key_le.
    - intros a b c. apply ble_trans.
    - intros a b. destruct (ble_total a.1 b.1); auto. }
  assert (Hnd' : NoDup (map fst (merge_sort key_le l))).
  { change (NoDup ((merge_sort key_le l).*1)). by rewrite (merge_sort_Permutation key_le l). }
  revert Hs Hnd'. generalize (merge_sort key_le l) as k. induction k as [|x k IH]; intros Hs Hn; [constructor|].
  apply StronglySorted_inv in Hs as [Hs Hf]. cbn [map] in *. apply NoDup_cons in Hn as [Hni Hn].
  constructor; [by apply IH|]. apply Forall_forall. intros y Hy.
  apply list_elem_of_fmap in Hy as (z & -> & Hz). rewrite Forall_forall in Hf.
  specialize (Hf z Hz). apply ble_lteq in Hf as [?|E]; [done|].
  exfalso. apply Hni. rewrite E. by apply list_elem_of_fmap_2.
Qed.

(** The rows of [m] in a range, ascending. *)
Definition rows_of (m : gmap bytes bytes) (lo hi : option bytes) (l : list row) : Prop :=
  sorted_rows l /\ forall k, aget l k = if in_range lo hi k then m !! k else None.

Lemma Iter_ok o m lo hi :
  overlay_ok o m ->
  exists it l, Iter o lo hi = Ok it /\ enumerates it l /\ rows_of m lo hi l /\ len l <= Len o.
Proof.
  intros Ho. unfold Iter.
  set (P := List.filter (fun x => in_range lo hi x.1) (pairs o)).
  assert (HP : forall k off, (k, off) ∈ P <-> in_range lo hi k = true /\ find o k = Some off).
  { intros k off. subst P. rewrite list_elem_of_In, filter_In, <- list_elem_of_In, (pairs_find o m) by done.
    cbn [fst]. tauto. }
  rewrite keep_idx_spec.
  2: { apply Forall_forall. intros [fk off] Hx. apply elem_of_map_to_list in Hx.
       destruct (ok_idx _ _ Ho _ _ Hx) as (k & Hk & _). by exists k. }
  cbn [rbind]. unfold keep_long. rewrite <- map_app, <- List.filter_app. fold (pairs o). fold P.
  rewrite keys_at_spec.
  2: { apply Forall_forall. intros [k off] Hx. apply HP in Hx as [_ Hx]. cbn [fst snd].
       by destruct (keyAt_find o m k off Ho Hx). }
  cbn [rbind]. set (S := merge_sort key_le P).
  assert (HS : forall k off, (k, off) ∈ S <-> in_range lo hi k = true /\ find o k = Some off).
  { intros k off. rewrite <- HP. subst S. by rewrite (merge_sort_Permutation key_le P). }
  set (val := fun x : bytes * Z => (x.1, default [] (m !! x.1))).
  eexists _, (map val S). split; [done|].
  assert (Hsorted : sorted_rows (map val S)).
  { unfold sorted_rows, keys. rewrite map_map. simpl. apply sort_strict. subst P.
    apply (sublist_NoDup _ (map fst (pairs o))); [by eapply pairs_NoDup|].
    clear HP S HS val. generalize (pairs o) as q. induction q as [|x q IH]; simpl; [done|].
    destruct (in_range lo hi x.1); simpl; by constructor. }
  split_and!; [| |].
  - apply (enumerates_slab (slab o) S (map val S) 0); [|lia|done].
    apply Forall2_fmap_r, Forall_Forall2_diag, Forall_forall. intros [k off] Hx. apply HS in Hx as [_ Hx].
    destruct (keyAt_find o m k off Ho Hx) as (Hk & v & Hm & Hv). subst val. simpl. by rewrite Hm.
  - split; [done|]. intros k. destruct (in_range lo hi k) eqn:Ein.
    + destruct (m !! k) as [v|] eqn:Em.
      * apply sorted_aget; [done|]. destruct (find o k) as [off|] eqn:Ef.
        -- apply list_elem_of_fmap. exists (k, off). split; [subst val; simpl; by rewrite Em|]. by apply HS.
        -- destruct Ho as [(segs & _ & _ & Hix) _ _ _ _]. specialize (Hix k). rewrite Ef in Hix. congruence.
      * apply aget_None. intros Hin. apply list_elem_of_fmap in Hin as ([k' v] & -> & Hin).
        apply list_elem_of_fmap in Hin as ([k2 off] & [= -> ->] & Hin). apply HS in Hin as [_ Hf].
        destruct (keyAt_find o m k2 off Ho Hf) as (_ & v & Hm & _). cbn [fst] in Em. congruence.
    + apply aget_None. intros Hin. apply list_elem_of_fmap in Hin as ([k' v] & -> & Hin).
      apply list_elem_of_fmap in Hin as ([k2 off] & [= -> ->] & Hin). apply HS in Hin as [Hin _].
      cbn [fst] in Ein. congruence.
  - unfold len, Len. rewrite length_map. subst S. rewrite (Permutation_length (merge_sort_Permutation key_le P)).
    subst P. enough (length (List.filter (fun x => in_range lo hi x.1) (pairs o)) <= length (pairs o))%nat.
    { unfold pairs in *. rewrite length_app, length_map in H. rewrite !length_map_to_list in H. lia. }
    apply filter_length_le.
Qed.

(** Replaying writes into a fresh overlay. *)
Fixpoint put_all (o : Overlay) (l : list row) : res Overlay :=
  match l with [] => Ok o | (k, v) :: l => let* o := Put o k v in put_all o l end.

Definition replay (m : gmap bytes bytes) (l : list row) : gmap bytes bytes :=
  fold_left (fun m r => <[r.1 := r.2]> m) l m.

Lemma put_all_ok o m l :
  overlay_ok o m -> Forall (fun r => key_ok r.1 /\ len r.2 <= 255) l ->
  exists o', put_all o l = Ok o' /\ overlay_ok o' (replay m l).
Proof.
  intros Ho Hl. revert o m Ho. induction Hl as [|[k v] l [Hk Hv] _ IH]; intros o m Ho; [by exists o|].
  cbn [put_all]. destruct (Put_ok o m k v Ho Hk Hv) as (o1 & -> & Ho1). cbn [rbind].
  by apply (IH o1).
Qed.

(** the slab overlay is a map. After any sequence of writes of admissible
    keys and values, in-place rewrites, regrowth and dead entries included,
    [Get] returns the last value written for every key (an empty one flagged as
    a tombstone), [Bytes] is the accounted size of the live rows, and [Iter]
    walks the live rows of any range in ascending key order. *)
Theorem overlay_refines_map l :
  Forall (fun r => key_ok r.1 /\ len r.2 <= 255) l ->
  let m := replay ∅ l in
  exists o, put_all NewOverlay l = Ok o /\
    (forall k, Get o k = Ok (m !! k, match m !! k with Some v => len v =? 0 | None => false end)) /\
    Bytes o = accounted m /\
    forall lo hi, exists it rows, Iter o lo hi = Ok it /\ enumerates it rows /\ rows_of m lo hi rows.
Proof.
  intros Hl m. destruct (put_all_ok NewOverlay ∅ l NewOverlay_ok Hl) as (o & HP & Ho).
  exists o. split; [done|]. split; [intros k; by apply Get_ok|]. split; [apply (ok_bytes _ _ Ho)|].
  intros lo hi. destruct (Iter_ok o m lo hi Ho) as (it & rows & H1 & H2 & H3 & _). by exists it, rows.
Qed.

Definition sample_puts : list row :=
  [([1], [1; 2]); ([2; 2], replicate 40 3); ([1], replicate 17 4); ([2; 2], []); (replicate 80 9, [5])].

Lemma overlay_refines_map_witness :
  exists o, put_all NewOverlay sample_puts = Ok o /\
    (forall k, Get o k = Ok (replay ∅ sample_puts !! k,
       match replay ∅ sample_puts !! k with Some v => len v =? 0 | None => false end)) /\
    Bytes o = accounted (replay ∅ sample_puts) /\
    forall lo hi, exists it rows, Iter o lo hi = Ok it /\ enumerates it rows /\
      rows_of (replay ∅ sample_puts) lo hi rows.
Proof.
  apply (overlay_refines_map sample_puts). unfold key_ok, byte_ok.
  repeat constructor; vm_compute; congruence.
Defined.

Definition sample_overlay : Overlay :=
  match put_all NewOverlay sample_puts with Ok o => o | _ => NewOverlay end.

Lemma sample_overlay_ok : overlay_ok sample_overlay (replay ∅ sample_puts).
Proof.
  destruct (put_all_ok NewOverlay ∅ sample_puts NewOverlay_ok) as (o & E & Ho).
  { unfold key_ok, byte_ok. repeat constructor; vm_compute; congruence. }
  unfold sample_overlay. by rewrite E.
Qed.

Example overlay_in_place :
  match put_all NewOverlay sample_puts with
  | Ok o => (len (slab o), Get o [1], Get o [2; 2], Bytes o)
  | _ => (0, Panic, Panic, 0)
  end = (208, Ok (Some (replicate 17 4), false), Ok (Some [], true), 293).
Proof. vm_compute. reflexivity. Qed.

End Overlay.
