(* ===== verification/LatestView.v ===== *)
(** * latest/view.go: the layered view and the checkpoint merge

    A view stacks overlays over runs, newest first. [Get] descends the levels,
    [Iter] is a k-way merge over the levels' iterators, and [Merge] writes the
    merged rows as a new run. The merge is stated over the [Iterator]
    interface, so it holds for whatever a level's iterator is. *)

From S2P Require Import Prelude Bytes Rows LatestRun LatestOverlay.

Module View.

(** ** The k-way merge *)

Section Merging.
Context {I : Type} `{Iterator I}.

(** [mfuel] bounds the rows the levels hold together; it is not in the code. *)
Record mergeIter := MkMerge {
  levels : list (I * bool);  (* its, live; newest first *)
  mkey : bytes; mval : bytes; have : bool; mfuel : nat }.

(** Advance every level still sitting on the emitted key. *)
Fixpoint advance_levels (key : bytes) (ls : list (I * bool)) : res (list (I * bool)) :=
  match ls with
  | [] => Ok []
  | (it, live) :: ls =>
      let* l :=
        if live && beqb (it_key it) key then
          let* o := it_next it in
          Ok (match o with Some it' => (it', true) | None => (it, false) end)
        else Ok (it, live) in
      let* ls := advance_levels key ls in
      Ok (l :: ls)
  end.

(** The level with the least key, the newest of several. *)
Fixpoint best_of (best : option I) (ls : list (I * bool)) : option I :=
  match ls with
  | [] => best
  | (it, live) :: ls =>
      let better := live && match best with
                            | None => true
                            | Some b => bltb (it_key it) (it_key b)
                            end in
      best_of (if better then Some it else best) ls
  end.

Fixpoint merge_loop (fuel : nat) (m : mergeIter) : res (option mergeIter) :=
  let* ls := if have m then advance_levels (mkey m) (levels m) else Ok (levels m) in
  match best_of None ls with
  | None => Ok None
  | Some it =>
      let m := MkMerge ls (it_key it) (it_val it) true (mfuel m) in
      if 0 <? len (mval m) then Ok (Some m)
      else match fuel with O => Panic | S fuel => merge_loop fuel m end
  end.

#[global] Instance mergeIter_iterator : Iterator mergeIter := {
  it_next m := merge_loop (mfuel m) m; it_key := mkey; it_val := mval }.

(** The levels as [View.Iter] starts them: each moved to its first row. *)
Fixpoint start_levels (its : list I) : res (list (I * bool)) :=
  match its with
  | [] => Ok []
  | it :: its =>
      let* o := it_next it in
      let* ls := start_levels its in
      Ok (match o with Some it' => (it', true) | None => (it, false) end :: ls)
  end.

End Merging.
Arguments mergeIter I : clear implicits.

(** ** The view *)

Record View := MkView { overlays : list Overlay.Overlay; runs : list LatestRun.Run }.

Definition NewView (o : option Overlay.Overlay) (rs : list LatestRun.Run) : View :=
  match o with None => MkView [] rs | Some o => MkView [o] rs end.
Definition NewMultiView (os : list Overlay.Overlay) (rs : list LatestRun.Run) : View := MkView os rs.

Fixpoint get_runs (rs : list LatestRun.Run) (key : bytes) : res (option bytes) :=
  match rs with
  | [] => Ok None
  | r :: rs =>
      let* o := LatestRun.Get r key in
      match o with
      | Some v => Ok (if len v =? 0 then None else Some v)
      | None => get_runs rs key
      end
  end.

Fixpoint get_overlays (os : list Overlay.Overlay) (rs : list LatestRun.Run) (key : bytes) : res (option bytes) :=
  match os with
  | [] => get_runs rs key
  | o :: os =>
      let* (v, dead) := Overlay.Get o key in
      match v with
      | Some v => Ok (if dead : bool then None else Some v)
      | None => get_overlays os rs key
      end
  end.

Definition Get (v : View) (key : bytes) : res (option bytes) := get_overlays (overlays v) (runs v) key.

Abbreviation level := (Overlay.slabIter + LatestRun.runIter)%type.

Fixpoint iters {A B} (f : A -> res B) (l : list A) : res (list B) :=
  match l with
  | [] => Ok []
  | a :: l => let* b := f a in let* bs := iters f l in Ok (b :: bs)
  end.

(** A bound on the rows of a view: its index entries and its runs' bytes. *)
Definition view_fuel (v : View) : nat :=
  list_sum (map (fun o => Z.to_nat (Overlay.Len o)) (overlays v))
  + list_sum (map (fun r => length (LatestRun.mm r)) (runs v)).

Definition Iter (v : View) (lo hi : option bytes) : res (mergeIter level) :=
  let* a := iters (fun o => rmap inl (Overlay.Iter o lo hi)) (overlays v) in
  let* b := iters (fun r => rmap inr (LatestRun.Iter r lo hi)) (runs v) in
  let* ls := start_levels (a ++ b : list level) in
  Ok (MkMerge ls [] [] false (view_fuel v)).

(** ** Merge *)

Fixpoint add_rows {I} `{Iterator I} (fuel : nat) (w : LatestRun.Writer) (it : I) : res LatestRun.Writer :=
  let* o := it_next it in
  match o with
  | None => Ok w
  | Some it =>
      let* w := LatestRun.Add w (it_key it) (it_val it) in
      match fuel with O => Panic | S fuel => add_rows fuel w it end
  end.

Definition Merge (v : View) (user : bytes) : res LatestRun.Run :=
  let w := LatestRun.SetUserData user LatestRun.NewWriter in
  let* it := Iter v None None in
  let* w := add_rows (S (view_fuel v)) w it in
  LatestRun.Open (LatestRun.Close w).

(** ** What a stack of sorted levels shows *)

(** The newest level that has the key decides. *)
Fixpoint layered (ls : list (list row)) (k : bytes) : option bytes :=
  match ls with
  | [] => None
  | l :: ls => match aget l k with Some v => Some v | None => layered ls k end
  end.

(** An empty value is a deletion. *)
Definition live_value (o : option bytes) : option bytes :=
  match o with Some (c :: v) => Some (c :: v) | _ => None end.

Definition visible (ls : list (list row)) (k : bytes) : option bytes := live_value (layered ls k).

(** [l] is the merge of the levels: ascending, with their visible values. *)
Definition merged (ls : list (list row)) (l : list row) : Prop :=
  sorted_rows l /\ forall k, aget l k = visible ls k.

(** The rows a level has left once the key is passed. *)
Definition adv (key : bytes) (l : list row) : list row :=
  match l with r :: l' => if beqb r.1 key then l' else l | [] => [] end.

Lemma adv_length key l : (length (adv key l) <= length l)%nat.
Proof. destruct l as [|r l]; simpl; [done|]. case_cmp; simpl; lia. Qed.

Lemma adv_sorted key l : sorted_rows l -> sorted_rows (adv key l).
Proof. destruct l as [|r l]; simpl; [done|]. case_cmp; [|done]. rewrite sorted_cons. tauto. Qed.

(** A level at or past [key] that advances past it only loses [key]. *)
Lemma adv_aget key l k :
  sorted_rows l -> Forall (fun r => ble key r.1) l ->
  aget (adv key l) k = if beqb k key then None else aget l k.
Proof.
  intros Hs Hge. destruct l as [|[k0 v0] l]; simpl; [by case_cmp|].
  apply sorted_cons in Hs as [Hs Hab]. apply Forall_cons in Hge as [Hk0 Hge]. cbn [fst] in *.
  destruct (beqb_spec k0 key) as [->|Hne]; simpl.
  - destruct (beqb_spec k key) as [->|]; [by apply aget_above|done].
  - destruct (beqb_spec k key) as [->|]; [|done]. rewrite beqb_false by done. apply aget_above.
    apply ble_lteq in Hk0 as [Hk0|]; [|congruence].
    eapply Forall_impl; [exact Hab|]. simpl. eauto using blt_trans.
Qed.

Lemma adv_above key l :
  sorted_rows l -> Forall (fun r => ble key r.1) l -> Forall (fun r => blt key r.1) (adv key l).
Proof.
  intros Hs Hge. destruct l as [|[k0 v0] l]; simpl; [done|].
  apply sorted_cons in Hs as [Hs Hab]. apply Forall_cons in Hge as [Hk0 Hge]. cbn [fst] in *.
  destruct (beqb_spec k0 key) as [->|Hne]; [done|].
  apply ble_lteq in Hk0 as [Hk0|]; [|congruence]. constructor; [done|].
  eapply Forall_impl; [exact Hab|]. simpl. eauto using blt_trans.
Qed.

Lemma layered_adv key ls k :
  Forall sorted_rows ls -> Forall (Forall (fun r => ble key r.1)) ls ->
  layered (map (adv key) ls) k = if beqb k key then None else layered ls k.
Proof.
  intros Hs. induction Hs as [|l ls Hl _ IH]; intros Hge; simpl; [by case_cmp|].
  apply Forall_cons in Hge as [Hg Hge]. rewrite adv_aget by done. rewrite IH by done.
  by case_cmp.
Qed.

Lemma layered_above ls k : Forall (Forall (fun r => blt k r.1)) ls -> layered ls k = None.
Proof. induction 1 as [|l ls Hl _ IH]; simpl; [done|]. by rewrite aget_above. Qed.

(** One round of the merge: the least key [k], with the value [v] of the newest
    level that has it, leads the merged rows unless it is a deletion. *)
Lemma merged_step ls k v l :
  Forall sorted_rows ls -> Forall (Forall (fun r => ble k r.1)) ls -> layered ls k = Some v ->
  merged (map (adv k) ls) l ->
  merged ls (match v with [] => l | _ => (k, v) :: l end).
Proof.
  intros Hs Hge Hv [Hl Hget].
  assert (Hrest : forall k', aget l k' = if beqb k' k then None else visible ls k').
  { intros k'. rewrite Hget. unfold visible. rewrite layered_adv by done. by case_cmp. }
  destruct v as [|c v].
  - split; [done|]. intros k'. rewrite Hrest. case_cmp; [|done]. subst. unfold visible. by rewrite Hv.
  - split.
    + apply sorted_cons. split; [done|]. apply Forall_forall. intros [k' v'] Hin. cbn [fst].
      pose proof (sorted_aget _ _ _ Hl Hin) as Hk'. rewrite Hrest in Hk'.
      destruct (beqb_spec k' k) as [->|Hne]; [done|]. unfold visible in Hk'.
      destruct (layered ls k') as [w|] eqn:Ew; [|done].
      destruct (decide (blt k k')) as [|Hnlt]; [done|].
      apply ble_not_gt, ble_lteq in Hnlt as [Hlt|]; [|done].
      rewrite layered_above in Ew; [done|]. eapply Forall_impl; [exact Hge|]. intros x Hx.
      eapply Forall_impl; [exact Hx|]. simpl. eauto using blt_ble_trans.
    + intros k'. simpl. case_cmp; [|rewrite Hrest, beqb_false by done; done].
      subst. unfold visible. by rewrite Hv.
Qed.

(** ** The merge against the iterator interface *)

Section MergeProof.
Context {I : Type} `{Iterator I}.

(** A level stands on the first of its rows left, or has none. *)
Definition level_at (x : I * bool) (R : list row) : Prop :=
  if x.2 then exists l, R = (it_key x.1, it_val x.1) :: l /\ enumerates x.1 l else R = [].

Definition rows_left (Rs : list (list row)) : nat := list_sum (map length Rs).

Lemma advance_levels_spec key ls Rs :
  Forall2 level_at ls Rs ->
  exists ls', advance_levels key ls = Ok ls' /\ Forall2 level_at ls' (map (adv key) Rs).
Proof.
  induction 1 as [|[it live] R ls Rs Hx _ IH]; [by exists []|].
  cbn [advance_levels map]. destruct IH as (ls' & -> & Hls').
  unfold level_at in Hx. cbn [fst snd] in Hx. destruct live; cbn [andb].
  - destruct Hx as (l & -> & He). cbn [adv fst].
    destruct (beqb_spec (it_key it) key) as [Hk|Hk].
    + inv He as [? E|? it' l' E He']; rewrite E; cbn [rbind].
      * eexists. split; [done|]. constructor; [|done]. done.
      * eexists. split; [done|]. constructor; [|done]. unfold level_at. cbn [fst snd]. eauto.
    + cbn [rbind]. eexists. split; [done|]. constructor; [|done]. unfold level_at. cbn [fst snd]. eauto.
  - subst R. cbn [rbind]. eexists. split; [done|]. by constructor.
Qed.

Lemma start_levels_spec its Rs :
  Forall2 enumerates its Rs ->
  exists ls, start_levels its = Ok ls /\ Forall2 level_at ls Rs.
Proof.
  induction 1 as [|it R its Rs He _ (ls & E & Hls)]; [by exists []|]. cbn [start_levels].
  inv He as [? E'|? it' l' E' He']; rewrite E', E; cbn [rbind]; eexists; (split; [done|]);
    constructor; try done. unfold level_at. cbn [fst snd]. eauto.
Qed.

Lemma best_of_spec ls Rs best :
  Forall2 level_at ls Rs -> Forall sorted_rows Rs ->
  match best_of best ls with
  | None => best = None /\ Forall (fun R => R = []) Rs
  | Some it =>
      Forall (Forall (fun r => ble (it_key it) r.1)) Rs /\
      (best = Some it \/
       (layered Rs (it_key it) = Some (it_val it) /\
        forall b, best = Some b -> blt (it_key it) (it_key b)))
  end.
Proof.
  intros Hall. revert best. induction Hall as [|[it0 live] R ls Rs Hx _ IH]; intros best Hs.
  { cbn [best_of]. destruct best; auto. }
  apply Forall_cons in Hs as [HR Hs]. cbn [best_of]. unfold level_at in Hx. cbn [fst snd] in Hx.
  destruct live; cbn [andb].
  2: { subst R. specialize (IH best Hs). destruct (best_of best ls) as [it|].
       - destruct IH as [Hge [?|[Hl Hb]]]; split; auto.
       - destruct IH. auto. }
  destruct Hx as (l & -> & _).
  assert (Hhead : forall key, ble key (it_key it0) ->
    Forall (fun r : row => ble key r.1) ((it_key it0, it_val it0) :: l)).
  { intros key Hle. apply sorted_cons in HR as [_ Hab]. constructor; [done|].
    eapply Forall_impl; [exact Hab|]. simpl. eauto using ble_trans, blt_ble. }
  assert (Hskip : forall key, blt key (it_key it0) ->
    layered (((it_key it0, it_val it0) :: l) :: Rs) key = layered Rs key).
  { intros key Hlt. cbn [layered]. rewrite aget_above; [done|].
    apply sorted_cons in HR as [_ Hab]. constructor; [done|].
    eapply Forall_impl; [exact Hab|]. simpl. eauto using blt_trans. }
  destruct (match best with Some b => bltb (it_key it0) (it_key b) | None => true end) eqn:Eb.
  - specialize (IH (Some it0) Hs). destruct (best_of (Some it0) ls) as [it|]; [|by destruct IH].
    assert (Hb0 : forall b, best = Some b -> blt (it_key it0) (it_key b)).
    { intros b ->. by destruct (bltb_spec (it_key it0) (it_key b)). }
    destruct IH as [Hge [[= <-]|[Hl Hb]]].
    + split; [constructor; [apply Hhead, ble_refl|done]|]. right.
      split; [simpl; by rewrite beqb_refl|done].
    + specialize (Hb it0 eq_refl). split; [constructor; [by apply Hhead, blt_ble|done]|]. right.
      rewrite Hskip by done. split; [done|]. intros b E. eauto using blt_trans.
  - destruct best as [b|]; [|done].
    assert (Hle : ble (it_key b) (it_key it0)).
    { destruct (bltb_spec (it_key it0) (it_key b)); [done|]. by apply ble_not_gt. }
    specialize (IH (Some b) Hs). destruct (best_of (Some b) ls) as [it|]; [|by destruct IH].
    destruct IH as [Hge [[= <-]|[Hl Hb]]].
    + split; [|by left]. constructor; [by apply Hhead|done].
    + specialize (Hb b eq_refl). split.
      * constructor; [|done]. apply Hhead. eauto using ble_trans, blt_ble.
      * right. rewrite Hskip by eauto using blt_ble_trans. split; [done|]. by intros ? [= <-].
Qed.

Lemma adv_decreases k v ls :
  Forall sorted_rows ls -> Forall (Forall (fun r => ble k r.1)) ls -> layered ls k = Some v ->
  (rows_left (map (adv k) ls) < rows_left ls)%nat.
Proof.
  unfold rows_left. induction ls as [|l ls IH]; intros Hs Hge Hl; [done|].
  apply Forall_cons in Hs as [Hs1 Hs], Hge as [Hg1 Hge]. cbn [map list_sum foldr layered] in *.
  assert (Hle : (list_sum (map length (map (adv k) ls)) <= list_sum (map length ls))%nat).
  { clear. induction ls as [|l ls IH]; simpl; [done|]. pose proof (adv_length k l). lia. }
  pose proof (adv_length k l).
  destruct (aget l k) as [w|] eqn:Ew; [|specialize (IH Hs Hge Hl); unfold list_sum in *; lia].
  enough (length (adv k l) < length l)%nat by (unfold list_sum in *; lia).
  destruct l as [|[k0 v0] l]; [done|]. simpl in *. destruct (beqb_spec k0 k) as [|Hne]; [lia|].
  rewrite beqb_false in Ew by congruence.
  apply sorted_cons in Hs1 as [_ Hab]. apply Forall_cons in Hg1 as [Hk0 _]. cbn [fst] in *.
  apply ble_lteq in Hk0 as [Hk0|]; [|congruence].
  rewrite aget_above in Ew; [done|]. eapply Forall_impl; [exact Hab|]. simpl. eauto using blt_trans.
Qed.

(** The rows the merge still has to consider. *)
Definition pending (m : mergeIter I) (Rs : list (list row)) : list (list row) :=
  if have m then map (adv (mkey m)) Rs else Rs.

Lemma merge_loop_spec fuel m Rs :
  Forall2 level_at (levels m) Rs -> Forall sorted_rows Rs -> (rows_left (pending m Rs) <= fuel)%nat ->
  exists o, merge_loop fuel m = Ok o /\
    match o with
    | None => merged (pending m Rs) []
    | Some m' => exists Rs', Forall2 level_at (levels m') Rs' /\ Forall sorted_rows Rs' /\
        mfuel m' = mfuel m /\ (rows_left (pending m' Rs') < rows_left (pending m Rs))%nat /\
        forall l, merged (pending m' Rs') l -> merged (pending m Rs) ((mkey m', mval m') :: l)
    end.
Proof.
  revert m Rs. induction fuel as [|fuel IH]; intros m Rs Hls Hs Hf.
  all: assert (Hadv : exists ls, (if have m then advance_levels (mkey m) (levels m) else Ok (levels m)) = Ok ls /\
         Forall2 level_at ls (pending m Rs))
    by (unfold pending; destruct (have m); [by apply advance_levels_spec|by exists (levels m)]).
  all: destruct Hadv as (ls & Els & Hls').
  all: assert (Hs' : Forall sorted_rows (pending m Rs))
    by (unfold pending; destruct (have m); [rewrite Forall_map; eapply Forall_impl; [exact Hs|]; intros; by apply adv_sorted|done]).
  all: cbn [merge_loop]; rewrite Els; cbn [rbind].
  all: pose proof (best_of_spec ls _ None Hls' Hs') as Hbest.
  all: destruct (best_of None ls) as [it|]; [|exists None; split; [done|]].
  all: cycle 1.
  1,3: destruct Hbest as [_ Hnil]; split; [constructor|]; intros k; unfold visible;
       rewrite layered_above; [done|]; eapply Forall_impl; [exact Hnil|]; intros x ->; constructor.
  all: destruct Hbest as [Hge [?|[Hl _]]]; [done|].
  all: pose proof (adv_decreases _ _ _ Hs' Hge Hl) as Hdec.
  2: { exfalso. lia. }
  set (m1 := MkMerge ls (it_key it) (it_val it) true (mfuel m)).
  assert (Hp1 : pending m1 (pending m Rs) = map (adv (it_key it)) (pending m Rs)) by done.
  destruct (it_val it) as [|c v] eqn:Ev.
  - cbn [mval m1]. change (0 <? len (@nil Z)) with false. cbn iota.
    destruct (IH m1 (pending m Rs)) as (o & Ho & Hspec); [done|done|rewrite Hp1; lia|].
    exists o. split; [exact Ho|]. rewrite Hp1 in Hspec. destruct o as [m'|].
    + destruct Hspec as (Rs' & H1 & H2 & H3 & H4 & H5). exists Rs'. split_and!; try done; [lia|].
      intros l Hm. apply (merged_step _ _ [] _ Hs' Hge Hl). by apply H5.
    + by apply (merged_step _ _ [] _ Hs' Hge Hl).
  - cbn [mval m1]. rewrite (proj2 (Z.ltb_lt _ _)) by (lensimp). exists (Some m1). split; [done|].
    exists (pending m Rs). rewrite Hp1. split_and!; try done. intros l Hm. cbn [mkey mval m1].
    apply (merged_step _ _ (c :: v) _ Hs' Hge Hl Hm).
Qed.

Lemma merge_enumerates m Rs :
  Forall2 level_at (levels m) Rs -> Forall sorted_rows Rs -> (rows_left (pending m Rs) <= mfuel m)%nat ->
  exists l, enumerates m l /\ merged (pending m Rs) l /\ (length l <= rows_left (pending m Rs))%nat.
Proof.
  remember (rows_left (pending m Rs)) as n eqn:Hn. revert m Rs Hn.
  induction n as [n IH] using lt_wf_ind; intros m Rs -> Hls Hs Hf.
  destruct (merge_loop_spec (mfuel m) m Rs Hls Hs Hf) as (o & Ho & Hspec).
  destruct o as [m'|]; [|exists []; split_and!; [by apply en_nil|done|simpl; lia]].
  destruct Hspec as (Rs' & H1 & H2 & H3 & H4 & H5).
  destruct (IH _ H4 m' Rs' eq_refl H1 H2) as (l & He & Hm & Hlen); [rewrite H3; lia|].
  exists ((it_key m', it_val m') :: l). split_and!; [by apply en_cons|by apply H5|simpl; lia].
Qed.

End MergeProof.

(** ** The view over overlays and runs *)

(** The overlays hold the maps [ms], the runs the blocks [bss]. *)
Definition view_ok (v : View) (ms : list (gmap bytes bytes)) (bss : list (list (list row))) : Prop :=
  Forall2 Overlay.overlay_ok (overlays v) ms /\ Forall2 LatestRun.is_run (runs v) bss.

(** The value of a key in the newest level that has it. *)
Definition stacked (ms : list (gmap bytes bytes)) (bss : list (list (list row))) (k : bytes) : option bytes :=
  foldr (fun (m : gmap bytes bytes) o => match m !! k with Some v => Some v | None => o end)
    (layered (map (@concat row) bss) k) ms.

Lemma live_value_len v : (if len v =? 0 then None else Some v) = live_value (Some v).
Proof. destruct v as [|c v]; [done|]. destruct (Z.eqb_spec (len (c :: v)) 0); [lensimp|done]. Qed.

Lemma view_Get_ok v ms bss key :
  view_ok v ms bss -> Forall byte_ok key -> Get v key = Ok (live_value (stacked ms bss key)).
Proof.
  intros [Ho Hr] Hk. unfold Get.
  assert (Hruns : get_runs (runs v) key = Ok (live_value (layered (map (@concat row) bss) key))).
  { induction Hr as [|r bs rs bss Hrun _ IH]; [done|]. cbn [get_runs map layered].
    rewrite (LatestRun.Get_is_run r bs Hrun key Hk). cbn [rbind].
    destruct (aget (concat bs) key) as [x|]; [by rewrite live_value_len|done]. }
  induction Ho as [|o m os ms Hom _ IH]; [done|]. cbn [get_overlays stacked foldr].
  rewrite (Overlay.Get_ok o m key Hom). cbn [rbind].
  destruct (m !! key) as [x|]; [by rewrite live_value_len|done].
Qed.

Lemma iters_spec {A B} (f : A -> res B) (P : A -> B -> Prop) l :
  Forall (fun a => exists b, f a = Ok b /\ P a b) l -> exists bs, iters f l = Ok bs /\ Forall2 P l bs.
Proof.
  induction 1 as [|a l (b & E & HP) _ (bs & Ebs & Hbs)]; [by exists []|].
  exists (b :: bs). cbn [iters]. rewrite E, Ebs. split; [done|]. by constructor.
Qed.

(** What a level's iterator over the whole level yields, and how much. *)
Definition level_rows (look : bytes -> option bytes) (n : nat) (it : level) (l : list row) : Prop :=
  enumerates it l /\ sorted_rows l /\ Forall LatestRun.row_ok l /\ (forall k, aget l k = look k) /\
  (length l <= n)%nat.

(** Of a range, what the look-up shows. *)
Definition ranged (lo hi : option bytes) (look : bytes -> option bytes) (k : bytes) : option bytes :=
  if in_range lo hi k then look k else None.

Lemma rows_of_ok m lo hi l :
  (forall k v, m !! k = Some v -> Overlay.key_ok k /\ len v <= 255) ->
  Overlay.rows_of m lo hi l -> Forall LatestRun.row_ok l.
Proof.
  intros Hm [Hs Hl]. apply Forall_forall. intros [k v] Hin.
  pose proof (sorted_aget _ _ _ Hs Hin) as E. rewrite Hl in E. destruct (in_range lo hi k); [|done].
  destruct (Hm k v E) as [[? ?] ?]. done.
Qed.

Lemma overlay_level o m lo hi :
  Overlay.overlay_ok o m ->
  exists it, rmap inl (Overlay.Iter o lo hi) = Ok (it : level) /\
    exists l, level_rows (ranged lo hi (fun k => m !! k)) (Z.to_nat (Overlay.Len o)) it l.
Proof.
  intros Ho. destruct (Overlay.Iter_ok o m lo hi Ho) as (it & l & -> & He & Hr & Hlen).
  exists (inl it). split; [done|]. exists l. split_and!; [by apply enumerates_inl|by destruct Hr| | |].
  - eapply rows_of_ok; [apply (Overlay.ok_keys _ _ Ho)|done].
  - by destruct Hr as [_ Hr].
  - unfold len in Hlen. lia.
Qed.

Lemma run_level r bs lo hi :
  LatestRun.is_run r bs -> (forall l, lo = Some l -> Forall byte_ok l) ->
  exists it, rmap inr (LatestRun.Iter r lo hi) = Ok (it : level) /\
    exists l, level_rows (ranged lo hi (aget (concat bs))) (length (LatestRun.mm r)) it l.
Proof.
  intros Hr Hlo. destruct (LatestRun.Iter_is_run r bs Hr lo hi Hlo) as (it & -> & He).
  exists (inr it). split; [done|]. exists (range lo hi (concat bs)).
  split_and!; [by apply enumerates_inr| | | |].
  - apply sorted_filter, Hr.
  - apply Forall_forall. intros x Hx. apply list_elem_of_In, filter_In in Hx as [Hx _]. apply list_elem_of_In in Hx.
    revert x Hx. apply Forall_forall. apply Hr.
  - intros k. apply aget_range.
  - pose proof (LatestRun.length_rows_mm r bs Hr). pose proof (List.filter_length_le (fun x => in_range lo hi x.1) (concat bs)). unfold range. lia.
Qed.

(** All levels at once: their iterators, their rows, and their stack. *)
Lemma levels_spec v ms bss lo hi :
  view_ok v ms bss -> (forall l, lo = Some l -> Forall byte_ok l) ->
  exists a b Rs, iters (fun o => rmap inl (Overlay.Iter o lo hi)) (overlays v) = Ok a /\
    iters (fun r => rmap inr (LatestRun.Iter r lo hi)) (runs v) = Ok b /\
    Forall2 enumerates (a ++ b : list level) Rs /\ Forall sorted_rows Rs /\
    Forall (Forall LatestRun.row_ok) Rs /\
    (forall k, layered Rs k = ranged lo hi (stacked ms bss) k) /\ (rows_left Rs <= view_fuel v)%nat.
Proof.
  intros [Ho Hr] Hlo. unfold view_fuel. induction Ho as [|o m os ms Hom _ IH].
  - induction Hr as [|r bs rs bss Hrun _ (a & b & Rs & Ea & Eb & H1 & H2 & H3 & H4 & H5)].
    { exists [], [], []. split_and!; try done; try constructor. intros k. unfold ranged. by destruct (in_range lo hi k). }
    destruct (run_level r bs lo hi Hrun Hlo) as (it & Eit & l & L1 & L2 & L3 & L4 & L5).
    injection Ea as <-. exists [], (it :: b), (l :: Rs). cbn [iters app]. rewrite Eit, Eb. cbn [rbind].
    split_and!; try done; try (by constructor).
    + intros k. specialize (H4 k). unfold stacked, ranged in *. cbn [map layered foldr] in *. rewrite L4, H4.
      destruct (in_range lo hi k); [|done]. by destruct (aget (concat bs) k).
    + unfold rows_left in *. cbn [map list_sum foldr] in *. unfold list_sum in *. lia.
  - destruct IH as (a & b & Rs & Ea & Eb & H1 & H2 & H3 & H4 & H5).
    destruct (overlay_level o m lo hi Hom) as (it & Eit & l & L1 & L2 & L3 & L4 & L5).
    exists (it :: a), b, (l :: Rs). cbn [iters app]. rewrite Eit, Ea, Eb. cbn [rbind].
    split_and!; try done; try (by constructor).
    + intros k. cbn [layered stacked foldr]. unfold ranged in *. rewrite L4, H4. cbn [stacked foldr]. by destruct (in_range lo hi k).
    + unfold rows_left in *. cbn [map list_sum foldr] in *. unfold list_sum in *. lia.
Qed.

Lemma view_Iter_range v ms bss lo hi :
  view_ok v ms bss -> (forall l, lo = Some l -> Forall byte_ok l) ->
  exists it l Rs, Iter v lo hi = Ok it /\ enumerates it l /\ merged Rs l /\
    Forall (Forall LatestRun.row_ok) Rs /\ (forall k, layered Rs k = ranged lo hi (stacked ms bss) k) /\
    (length l <= view_fuel v)%nat.
Proof.
  intros Hv Hlo. destruct (levels_spec v ms bss lo hi Hv Hlo) as (a & b & Rs & Ea & Eb & H1 & H2 & H3 & H4 & H5).
  destruct (start_levels_spec _ _ H1) as (ls & Els & Hls).
  set (m := MkMerge ls [] [] false (view_fuel v) : mergeIter level).
  destruct (merge_enumerates m Rs Hls H2) as (l & He & Hm & Hlen); [done|].
  unfold pending in Hm, Hlen. cbn [have m] in Hm, Hlen.
  exists m, l, Rs. unfold Iter. rewrite Ea, Eb. cbn [rbind]. rewrite Els.
  split_and!; try done. lia.
Qed.

Lemma view_Iter_ok v ms bss :
  view_ok v ms bss ->
  exists it l Rs, Iter v None None = Ok it /\ enumerates it l /\ merged Rs l /\
    Forall (Forall LatestRun.row_ok) Rs /\ (forall k, layered Rs k = stacked ms bss k) /\
    (length l <= view_fuel v)%nat.
Proof. intros Hv. by apply (view_Iter_range v ms bss None None). Qed.

Lemma merged_rows_ok Rs l :
  Forall (Forall LatestRun.row_ok) Rs -> merged Rs l -> Forall LatestRun.row_ok l.
Proof.
  intros HR [Hs Hg]. apply Forall_forall. intros [k v] Hin.
  pose proof (sorted_aget _ _ _ Hs Hin) as E. rewrite Hg in E. unfold visible in E.
  assert (El : layered Rs k = Some v) by (destruct (layered Rs k) as [[|c w]|]; simplify_eq/=; done).
  clear -HR El. induction HR as [|R Rs HR _ IH]; [done|]. cbn [layered] in El.
  destruct (aget R k) as [w|] eqn:Ew; [|by apply IH]. injection El as ->.
  apply aget_elem in Ew. rewrite Forall_forall in HR. by apply HR.
Qed.

Lemma add_rows_spec {I} `{Iterator I} fuel w (it : I) l :
  enumerates it l -> (length l <= fuel)%nat -> add_rows fuel w it = LatestRun.add_all w l.
Proof.
  intros He. revert fuel w. induction He as [it E|it it' l E _ IH]; intros fuel w Hf.
  - destruct fuel; cbn [add_rows]; by rewrite E.
  - destruct fuel as [|fuel]; [simpl in Hf; lia|]. cbn [add_rows LatestRun.add_all]. rewrite E. cbn [rbind].
    destruct (LatestRun.Add w (it_key it') (it_val it')) as [w'| |]; [|done|done]. cbn [rbind].
    apply IH. simpl in Hf. lia.
Qed.

(** [View.Get] descends the levels newest first: the newest overlay or run
    that has the key decides, an empty value at any level ending the descent as
    not found, and the descent never fails. *)
Theorem view_get_descends v ms bss key :
  view_ok v ms bss -> Forall byte_ok key ->
  Get v key = Ok (live_value (stacked ms bss key)).
Proof. apply view_Get_ok. Qed.

Lemma Merge_ok v ms bss user :
  view_ok v ms bss -> len user = 32 -> Z.of_nat (view_fuel v) < 2 ^ 50 ->
  exists r, Merge v user = Ok r /\ LatestRun.ruser r = user /\
    (forall key, Forall byte_ok key -> LatestRun.Get r key = Get v key) /\
    exists bs, LatestRun.is_run r bs /\ Forall (fun x => x.2 <> []) (concat bs).
Proof.
  intros Hv Hu Hn. destruct (view_Iter_ok v ms bss Hv) as (it & l & Rs & EI & He & Hm & HR & Hst & Hlen).
  pose proof (merged_rows_ok Rs l HR Hm) as Hok. pose proof Hm as [Hs Hg].
  destruct (LatestRun.write_run_spec user l Hok Hs Hu) as (f & r & bs & HW & HO & Hrun & Hc & _ & Hru).
  { unfold len. lia. }
  unfold Merge. rewrite EI. cbn [rbind]. rewrite (add_rows_spec _ _ _ l) by (done || lia).
  unfold LatestRun.write_run in HW. destruct (LatestRun.add_all _ l) as [w| |]; [|done|done].
  cbn [rbind] in *. injection HW as ->. exists r. split_and!; try done.
  - intros key Hk. rewrite (LatestRun.Get_is_run r bs Hrun key Hk), (view_Get_ok v ms bss key Hv Hk), Hc, Hg.
    unfold visible. by rewrite Hst.
  - exists bs. split; [done|]. rewrite Hc. apply Forall_forall. intros [k x] Hin.
    pose proof (sorted_aget _ _ _ Hs Hin) as E. rewrite Hg in E. unfold visible in E.
    by destruct (layered Rs k) as [[|c x']|]; simplify_eq/=.
Qed.

(** C37: the checkpoint is faithful. [Merge] of overlays over runs writes a run
    that opens, carries the user data, and answers every key exactly as the
    layered view did before: newest level wins, deletions are dropped, and the
    merge always finishes. *)
Theorem merge_refines_view v ms bss user :
  view_ok v ms bss -> len user = 32 -> Z.of_nat (view_fuel v) < 2 ^ 50 ->
  exists r, Merge v user = Ok r /\ LatestRun.ruser r = user /\
    (forall key, Forall byte_ok key -> LatestRun.Get r key = Get v key) /\
    exists bs, LatestRun.is_run r bs /\ Forall (fun x => x.2 <> []) (concat bs).
Proof. apply Merge_ok. Qed.

(** ** Witnesses *)

Definition sample_view : View := MkView [Overlay.sample_overlay] [LatestRun.sample_run].

Lemma sample_view_ok : exists bss, view_ok sample_view [Overlay.replay ∅ Overlay.sample_puts] bss.
Proof.
  destruct LatestRun.sample_is_run as (bs & Hr & _). exists [bs].
  split; (constructor; [|constructor]); [apply Overlay.sample_overlay_ok|done].
Qed.

Lemma view_get_descends_witness :
  exists bss, Get sample_view [1]
    = Ok (live_value (stacked [Overlay.replay ∅ Overlay.sample_puts] bss [1])).
Proof.
  destruct sample_view_ok as [bss Hv]. exists bss.
  apply (view_get_descends sample_view [Overlay.replay ∅ Overlay.sample_puts] bss [1] Hv).
  repeat constructor; vm_compute; congruence.
Defined.

Lemma merge_refines_view_witness :
  exists r, Merge sample_view (replicate 32 1) = Ok r /\ LatestRun.ruser r = replicate 32 1 /\
    (forall key, Forall byte_ok key -> LatestRun.Get r key = Get sample_view key) /\
    exists bs, LatestRun.is_run r bs /\ Forall (fun x => x.2 <> []) (concat bs).
Proof.
  destruct sample_view_ok as [bss Hv].
  apply (merge_refines_view sample_view [Overlay.replay ∅ Overlay.sample_puts] bss (replicate 32 1) Hv).
  - reflexivity.
  - vm_compute. reflexivity.
Defined.

End View.
