(* ===== verification/Queue.v ===== *)
(** * fetch/window.go: the RAM queue between the fetcher and the executor

    [Queue] is the state of the Go struct; every operation below runs under its
    mutex, so an execution is a sequence of operations. [GetByHeight] is one turn
    of its wait loop: [Wait] is the call parked on the condition variable, to be
    tried again after the next broadcast. Heights and byte counts are 64-bit
    integers with their wrap-around. The abstract queue [SQueue] is the list of the
    blocks accepted since the anchor and the executor's cursor. *)

From S2P Require Import Prelude.

Module Queue.

Definition ID : Type := bytes.

Definition WindowBlocks : Z := 100000.
Definition RefillBelow : Z := 50000.
Definition queueMaxBytes : Z := Z.shiftl 1 30.
Definition KeepBehind : Z := 8192.

Record parsedContainer := Parsed {
  containerID : ID; blockNumber : Z; blockHash : ID; parentID : ID; parentHash : ID; blockTime : Z }.

Record Queue := MkQueue {
  blk : gmap Z bytes; head : Z; headHash : ID; low : Z; consumed : Z; qbytes : Z; peak : Z; closed : bool }.

Definition newQueue (from : Z) (anchorHash : ID) : Queue :=
  MkQueue ∅ (u64 (from - 1)) anchorHash from (u64 (from - 1)) 0 0 false.

(** The goroutine that waits for the context. *)
Definition close (q : Queue) : Queue :=
  MkQueue (blk q) (head q) (headHash q) (low q) (consumed q) (qbytes q) (peak q) true.

Definition Append (p : parsedContainer) (raw : bytes) (q : Queue) : Queue * bool :=
  if negb (blockNumber p =? u64 (head q + 1)) || negb (bool_decide (parentHash p = headHash q)) then (q, false)
  else
    let b := u64 (qbytes q + len raw) in
    (MkQueue (<[blockNumber p := raw]> (blk q)) (blockNumber p) (blockHash p) (low q) (consumed q) b
       (if peak q <? b then b else peak q) (closed q), true).

(** One turn of the release loop: drop the lowest height held. *)
Definition release_low (q : Queue) : Queue :=
  match blk q !! low q with
  | Some raw => MkQueue (delete (low q) (blk q)) (head q) (headHash q) (u64 (low q + 1)) (consumed q)
                  (u64 (qbytes q - len raw)) (peak q) (closed q)
  | None => MkQueue (blk q) (head q) (headHash q) (u64 (low q + 1)) (consumed q) (qbytes q) (peak q) (closed q)
  end.

Fixpoint release_loop (fuel : nat) (upTo : Z) (q : Queue) : Queue :=
  match fuel with
  | O => q
  | S fuel => if u64 (low q + KeepBehind) <=? upTo then release_loop fuel upTo (release_low q) else q
  end.

Definition release_fuel (upTo : Z) (q : Queue) : nat := Z.to_nat (upTo + 1 - low q).

Definition release (upTo : Z) (q : Queue) : Queue :=
  if upTo <? KeepBehind then q else release_loop (release_fuel upTo q) upTo q.

Inductive answer := Got (raw : bytes) | Released | Canceled | Wait.

#[export] Instance answer_eq_dec : EqDecision answer.
Proof. solve_decision. Defined.

Definition set_consumed (n : Z) (q : Queue) : Queue :=
  MkQueue (blk q) (head q) (headHash q) (low q) n (qbytes q) (peak q) (closed q).

Definition GetByHeight (n : Z) (q : Queue) : Queue * answer :=
  match blk q !! n with
  | Some raw => (if consumed q <? n then release n (set_consumed n q) else q, Got raw)
  | None => (q, if n <? low q then Released else if closed q then Canceled else Wait)
  end.

Definition Head (q : Queue) : Z := head q.
Definition Consumed (q : Queue) : Z := consumed q.
Definition Bytes (q : Queue) : Z * Z := (qbytes q, peak q).

(** ** Sequences of operations *)

Inductive op := OAppend (p : parsedContainer) (raw : bytes) | OGet (n : Z) | OClose.
Inductive resp := RAppend (ok : bool) | RGet (a : answer) | RClose.

Definition apply (o : op) (q : Queue) : Queue * resp :=
  match o with
  | OAppend p raw => let (q, ok) := Append p raw q in (q, RAppend ok)
  | OGet n => let (q, a) := GetByHeight n q in (q, RGet a)
  | OClose => (close q, RClose)
  end.

Fixpoint run (ops : list op) (q : Queue) : Queue * list resp :=
  match ops with
  | [] => (q, [])
  | o :: ops => let (q, r) := apply o q in let (q, rs) := run ops q in (q, r :: rs)
  end.

(** ** The abstract queue *)

(** The blocks accepted since the anchor, oldest first, and the highest height
    the executor was handed. *)
Record SQueue := MkSQueue { hist : list (parsedContainer * bytes); cursor : Z; sclosed : bool }.

Definition tip_hash (anchor : ID) (l : list (parsedContainer * bytes)) : ID :=
  match last l with Some (p, _) => blockHash p | None => anchor end.

Definition sapply (from : Z) (anchor : ID) (o : op) (s : SQueue) : SQueue * resp :=
  match o with
  | OAppend p raw =>
      if bool_decide (blockNumber p = from + len (hist s) /\ parentHash p = tip_hash anchor (hist s))
      then (MkSQueue (hist s ++ [(p, raw)]) (cursor s) (sclosed s), RAppend true) else (s, RAppend false)
  | OGet n =>
      if (n <? from) || (n <=? cursor s - KeepBehind) then (s, RGet Released)
      else match hist s !! Z.to_nat (n - from) with
           | Some (_, raw) => (MkSQueue (hist s) (Z.max (cursor s) n) (sclosed s), RGet (Got raw))
           | None => (s, RGet (if sclosed s then Canceled else Wait))
           end
  | OClose => (MkSQueue (hist s) (cursor s) true, RClose)
  end.

Fixpoint srun (from : Z) (anchor : ID) (ops : list op) (s : SQueue) : SQueue * list resp :=
  match ops with
  | [] => (s, [])
  | o :: ops => let (s, r) := sapply from anchor o s in let (s, rs) := srun from anchor ops s in (s, r :: rs)
  end.

(** The accepted blocks are a hash chain of consecutive heights from [n] on top of
    the block whose hash is [h]. *)
Fixpoint linked (n : Z) (h : ID) (l : list (parsedContainer * bytes)) : Prop :=
  match l with
  | [] => True
  | (p, _) :: l => blockNumber p = n /\ parentHash p = h /\ linked (n + 1) (blockHash p) l
  end.

(** The bytes of the blocks still held: those from index [i] on. *)
Definition held (l : list (parsedContainer * bytes)) (i : nat) : Z :=
  foldr (fun pr acc => len pr.2 + acc) 0 (drop i l).

Section Inv.
Context (from : Z) (anchor : ID).

(** The heights this close to the end of the 64-bit range are never reached. *)
Definition margin : Z := 2 ^ 64 - 2 ^ 18.

Record inv (s : SQueue) (q : Queue) : Prop := {
  inv_from : 1 <= from;
  inv_linked : linked from anchor (hist s);
  inv_head : head q = from - 1 + len (hist s);
  inv_hash : headHash q = tip_hash anchor (hist s);
  inv_cursor : consumed q = cursor s;
  inv_consumed : from - 1 <= consumed q <= head q;
  inv_low : low q = Z.max from (consumed q + 1 - KeepBehind);
  inv_blk n : blk q !! n = if decide (low q <= n) then snd <$> hist s !! Z.to_nat (n - from) else None;
  inv_bytes : qbytes q = u64 (held (hist s) (Z.to_nat (low q - from)));
  inv_closed : closed q = sclosed s;
  inv_margin : head q < margin }.

Lemma linked_app l p raw n h :
  linked n h (l ++ [(p, raw)]) <-> linked n h l /\ blockNumber p = n + len l /\ parentHash p = tip_hash h l.
Proof.
  revert n h. induction l as [|[p' r'] l IH]; intros n h; cbn [linked app].
  - rewrite len_nil, Z.add_0_r. unfold tip_hash. cbn. tauto.
  - rewrite IH, len_cons, Z.add_assoc. unfold tip_hash. destruct l as [|x l]; [cbn; tauto|].
    change (last ((p', r') :: x :: l)) with (last (x :: l)). destruct (last (x :: l)) as [[]|] eqn:E; [tauto|]. by apply last_None in E.
Qed.

Lemma held_app l p raw i : (i <= length l)%nat -> held (l ++ [(p, raw)]) i = held l i + len raw.
Proof.
  intros Hi. unfold held. rewrite drop_app_le by done. rewrite foldr_app. cbn [foldr snd].
  induction (drop i l) as [|x k IH]; cbn [foldr]; lia.
Qed.

Lemma held_drop l i pr : l !! i = Some pr -> held l i = len pr.2 + held l (S i).
Proof. intros Hi. unfold held. by rewrite (drop_S l pr i Hi). Qed.

Lemma u64_add_l a b : u64 (u64 a + b) = u64 (a + b).
Proof. unfold u64. by rewrite Zplus_mod_idemp_l. Qed.

Lemma u64_sub_l a b : u64 (u64 a - b) = u64 (a - b).
Proof. unfold u64. by rewrite Zminus_mod_idemp_l. Qed.

Lemma inv_new : 1 <= from -> from - 1 < margin -> inv (MkSQueue [] (from - 1) false) (newQueue from anchor).
Proof.
  intros Hf Hm. assert (E : u64 (from - 1) = from - 1) by (apply u64_small; unfold u64_ok, margin in *; lia).
  split; cbn [newQueue hist cursor sclosed blk head headHash low consumed qbytes peak closed linked]; rewrite ?E, ?len_nil; try done; try lia.
  - unfold KeepBehind. lia.
  - intros n. rewrite lookup_empty. by case_decide.
  - rewrite Z.sub_diag. done.
Qed.

Lemma queue_append_ok s q p raw :
  inv s q -> head q + 1 < margin ->
  let (q', ok) := Append p raw q in let (s', r) := sapply from anchor (OAppend p raw) s in r = RAppend ok /\ inv s' q'.
Proof.
  intros HI Hm. pose proof HI as [Hf Hl Hh Hhash Hc Hcr Hlow Hb Hby Hcl Hmg]. unfold Append, sapply.
  assert (E : u64 (head q + 1) = from + len (hist s)) by (rewrite u64_small; [lia|unfold u64_ok, margin in *; lia]).
  rewrite E, Hhash. destruct (Z.eqb_spec (blockNumber p) (from + len (hist s))) as [En|En]; cbn [negb orb];
    [|by rewrite bool_decide_eq_false_2 by tauto].
  destruct (decide (parentHash p = tip_hash anchor (hist s))) as [Eh|Eh].
  2:{ rewrite bool_decide_eq_false_2 by done. by rewrite bool_decide_eq_false_2 by tauto. }
  rewrite bool_decide_eq_true_2 by done. cbn [negb]. rewrite bool_decide_eq_true_2 by done. split; [done|].
  assert (Hlen : (Z.to_nat (low q - from) <= length (hist s))%nat) by (unfold len, KeepBehind in *; lia).
  split; cbn [hist cursor sclosed blk head headHash low consumed qbytes peak closed]; lens; try done; try lia.
  - by apply linked_app.
  - unfold tip_hash. by rewrite last_snoc.
  - intros n. destruct (decide (n = blockNumber p)) as [->|Hne].
    + rewrite lookup_insert_eq, decide_True by (unfold len, KeepBehind in *; lia). rewrite En.
      rewrite list_lookup_middle by (unfold len; lia). done.
    + rewrite lookup_insert_ne, Hb by done. case_decide as Hd; [|done]. f_equal.
      destruct (decide (n < blockNumber p)) as [Hlt|Hge]; [by rewrite lookup_app_l by (unfold len in *; lia)|].
      rewrite !lookup_ge_None_2; [done|rewrite length_app; cbn [length]|]; unfold len in *; lia.
  - by rewrite held_app, Hby, u64_add_l by done.
Qed.

(** What holds while the release loop runs: everything but the place of [low]. *)
Definition below (s : SQueue) (q : Queue) : Prop :=
  from <= low q <= head q + 1 /\ head q = from - 1 + len (hist s) /\ head q < margin /\ 1 <= from /\
  (forall n, blk q !! n = if decide (low q <= n) then snd <$> hist s !! Z.to_nat (n - from) else None) /\
  qbytes q = u64 (held (hist s) (Z.to_nat (low q - from))).

(** The fields the release loop leaves alone. *)
Definition same (q q' : Queue) : Prop :=
  (head q', headHash q', consumed q', closed q') = (head q, headHash q, consumed q, closed q).

Lemma release_low_ok s q :
  below s q -> low q <= head q ->
  below s (release_low q) /\ low (release_low q) = low q + 1 /\ same q (release_low q).
Proof.
  intros (Hlow & Hh & Hm & Hf & Hb & Hby) Hle. set (i := Z.to_nat (low q - from)).
  assert (Hi : (i < length (hist s))%nat) by (unfold i, len in *; lia).
  destruct (lookup_lt_is_Some_2 _ _ Hi) as [pr Epr].
  assert (Eb : blk q !! low q = Some pr.2) by (rewrite Hb, decide_True by lia; fold i; by rewrite Epr).
  assert (El : u64 (low q + 1) = low q + 1) by (apply u64_small; unfold u64_ok, margin in *; lia).
  unfold release_low. rewrite Eb. unfold below, same. cbn [blk head headHash low consumed qbytes peak closed]. rewrite El.
  split_and!; try done; try lia.
  - intros n. destruct (decide (n = low q)) as [->|Hne].
    + rewrite lookup_delete_eq. by case_decide; [lia|].
    + rewrite lookup_delete_ne, Hb by done. repeat case_decide; done || lia.
  - replace (Z.to_nat (low q + 1 - from)) with (S i) by (unfold i; lia).
    rewrite Hby, u64_sub_l. fold i. rewrite (held_drop _ _ _ Epr). f_equal. lia.
Qed.

Lemma release_loop_ok s upTo q fuel :
  below s q -> upTo <= head q -> (Z.to_nat (upTo + 1 - low q) <= fuel)%nat ->
  below s (release_loop fuel upTo q) /\ same q (release_loop fuel upTo q) /\
  low (release_loop fuel upTo q) = Z.max (low q) (upTo + 1 - KeepBehind).
Proof.
  revert q. induction fuel as [|fuel IH]; intros q HB Hup Hf; cbn [release_loop].
  - pose proof HB as (? & ?). split_and!; try done. unfold KeepBehind. lia.
  - pose proof HB as (Hlow & Hh & Hm & Hfrom & _).
    assert (E : u64 (low q + KeepBehind) = low q + KeepBehind) by (apply u64_small; unfold u64_ok, margin, KeepBehind in *; lia).
    rewrite E. destruct (Z.leb_spec (low q + KeepBehind) upTo) as [Hle|Hgt]; [|split_and!; try done; lia].
    destruct (release_low_ok s q HB) as (HB' & El & Hs); [unfold KeepBehind in *; lia|].
    destruct (IH (release_low q) HB') as (HB2 & Hs2 & El2); [injection Hs; lia|lia|].
    split_and!; [done|unfold same in *; congruence|]. rewrite El2, El. lia.
Qed.

Lemma get_ok s q n :
  inv s q ->
  let (q', a) := GetByHeight n q in let (s', r) := sapply from anchor (OGet n) s in r = RGet a /\ inv s' q'.
Proof.
  intros HI. pose proof HI as [Hf Hl Hh Hhash Hc Hcr Hlow Hb Hby Hcl Hmg]. unfold GetByHeight, sapply. rewrite Hb.
  destruct (decide (low q <= n)) as [Hn|Hn].
  2:{ rewrite (proj2 (Z.ltb_lt n (low q))) by lia. rewrite (proj2 (orb_true_iff _ _)); [done|].
      rewrite Z.ltb_lt, Z.leb_le. lia. }
  rewrite (proj2 (orb_false_iff _ _)) by (rewrite Z.ltb_ge, Z.leb_gt; lia).
  destruct (hist s !! Z.to_nat (n - from)) as [[p raw]|] eqn:Ep; cbn [fmap option_fmap option_map snd].
  2:{ rewrite (proj2 (Z.ltb_ge n (low q))) by lia. by rewrite Hcl. }
  split; [done|]. destruct (Z.ltb_spec (consumed q) n) as [Hgt|Hle].
  2:{ rewrite Z.max_l by lia. by split. }
  assert (Hnh : n <= head q) by (apply lookup_lt_Some in Ep; unfold len in *; lia).
  assert (HB : below s (set_consumed n q)) by (unfold below; cbn [set_consumed blk head low qbytes]; split_and!; try done; unfold KeepBehind in *; lia).
  unfold release. destruct (Z.ltb_spec n KeepBehind) as [Hk|Hk].
  - split; cbn [set_consumed hist cursor sclosed blk head headHash low consumed qbytes peak closed]; try done; unfold KeepBehind in *; lia.
  - destruct (release_loop_ok s n (set_consumed n q) (release_fuel n (set_consumed n q)) HB Hnh) as (HB' & Hs & El); [unfold release_fuel; lia|].
    set (q2 := release_loop _ _ _) in *. destruct HB' as (Hlow' & Hh' & Hm' & _ & Hb' & Hby').
    unfold same in Hs. cbn [set_consumed head headHash consumed closed low] in Hs, El. injection Hs as E1 E2 E3 E4.
    split; cbn [hist cursor sclosed]; rewrite ?E1, ?E2, ?E3, ?E4; try done; try lia.
Qed.

(** What the other parties see of the two operations. *)
Lemma append_seen s q p raw :
  inv s q -> head q + 1 < margin ->
  exists s', inv s' (Append p raw q).1 /\ consumed (Append p raw q).1 = consumed q /\
    if (Append p raw q).2 then blockNumber p = head q + 1 /\ head (Append p raw q).1 = head q + 1
    else (Append p raw q).1 = q.
Proof.
  intros HI Hm. pose proof (queue_append_ok s q p raw HI Hm) as H.
  assert (E : u64 (head q + 1) = head q + 1) by (apply u64_small; destruct HI; unfold u64_ok, margin in *; pose proof (len_nonneg (hist s)); lia).
  unfold Append in *. rewrite E in *. destruct (Z.eqb_spec (blockNumber p) (head q + 1)) as [En|]; cbn [negb orb] in *; [|by exists s].
  destruct (negb _); [by exists s|]. destruct (sapply _ _ _ _) as [s' r]. destruct H as [_ H]. exists s'. by split_and!.
Qed.

Lemma get_seen s q n :
  inv s q -> exists s', inv s' (GetByHeight n q).1 /\ head (GetByHeight n q).1 = head q /\ consumed q <= consumed (GetByHeight n q).1.
Proof.
  intros HI. pose proof (get_ok s q n HI) as H. destruct (GetByHeight n q) as [q' a]. destruct (sapply from anchor (OGet n) s) as [s' r] eqn:Es.
  destruct H as [_ H]. exists s'. cbn [fst]. split_and!; [done| |].
  - rewrite (inv_head _ _ H), (inv_head _ _ HI). cbn [sapply] in Es. repeat case_match; simplify_eq; cbn [hist]; lia.
  - rewrite (inv_cursor _ _ H), (inv_cursor _ _ HI). cbn [sapply] in Es. repeat case_match; simplify_eq; cbn [cursor]; lia.
Qed.

Lemma close_ok s q : inv s q -> inv (MkSQueue (hist s) (cursor s) true) (close q).
Proof. intros []. by split. Qed.

Lemma queue_apply_ok o s q :
  inv s q -> head q + 1 < margin ->
  (apply o q).2 = (sapply from anchor o s).2 /\ inv (sapply from anchor o s).1 (apply o q).1 /\ head (apply o q).1 <= head q + 1.
Proof.
  intros HI Hm. destruct o as [p raw|n|].
  - pose proof (queue_append_ok s q p raw HI Hm) as H. unfold apply. pose proof (Z.eqb_spec (blockNumber p) (u64 (head q + 1))) as En.
    unfold Append in *. assert (E : u64 (head q + 1) = head q + 1).
    { apply u64_small. destruct HI. unfold u64_ok, margin in *. pose proof (len_nonneg (hist s)). lia. }
    destruct (negb _ || _) eqn:Eg.
    + destruct (sapply _ _ _ _) as [s' r]. destruct H as [-> HI']. split_and!; try done. cbn. lia.
    + destruct (sapply _ _ _ _) as [s' r]. destruct H as [-> HI']. split_and!; try done. cbn [fst head].
      apply orb_false_iff in Eg as [Eg _]. apply negb_false_iff, Z.eqb_eq in Eg. lia.
  - pose proof (get_ok s q n HI) as H. unfold apply. destruct (GetByHeight n q) as [q' a] eqn:Eg. destruct (sapply _ _ _ _) as [s' r] eqn:Es.
    destruct H as [-> HI']. split_and!; try done. cbn [fst]. rewrite (inv_head _ _ HI'), (inv_head _ _ HI).
    cbn [sapply] in Es. repeat case_match; simplify_eq; cbn [hist]; lia.
  - split_and!; [done|by apply close_ok|cbn; lia].
Qed.

Lemma run_ok ops s q :
  inv s q -> head q + len ops + 1 < margin ->
  (run ops q).2 = (srun from anchor ops s).2 /\ inv (srun from anchor ops s).1 (run ops q).1.
Proof.
  revert s q. induction ops as [|o ops IH]; intros s q HI Hm; [done|]. cbn [run srun]. lens. pose proof (len_nonneg ops).
  destruct (queue_apply_ok o s q HI) as (Er & HI' & Hh); [lia|].
  destruct (apply o q) as [q1 r1], (sapply from anchor o s) as [s1 r2]. cbn [fst snd] in *. subst r2.
  destruct (IH s1 q1 HI') as [Er HI2]; [lia|]. destruct (run ops q1), (srun from anchor ops s1). cbn [fst snd] in *. by subst.
Qed.

(** C13: the queue refines its abstract specification. Over every sequence of
    appends, reads and a close, each answer is the one the list of accepted blocks
    gives (a read hands out the block at its height, waits above the head, errs
    below the [KeepBehind] heights kept behind the executor), a block is accepted
    exactly when it is the next height and names the hash of the head, the accepted
    blocks are one hash chain of consecutive heights on the anchor, the map holds
    exactly the heights [max from (consumed+1-KeepBehind) .. head], and the byte
    counter is the size of what it holds. *)
Theorem queue_refines ops :
  1 <= from -> from + len ops < margin ->
  let (q, rs) := run ops (newQueue from anchor) in
  let (s, srs) := srun from anchor ops (MkSQueue [] (from - 1) false) in
  rs = srs /\ linked from anchor (hist s) /\ headHash q = tip_hash anchor (hist s) /\
  from - 1 <= consumed q <= head q /\
  (forall n, is_Some (blk q !! n) <-> Z.max from (consumed q + 1 - KeepBehind) <= n <= head q) /\
  qbytes q = u64 (held (hist s) (Z.to_nat (low q - from))).
Proof.
  intros Hf Hm. pose proof (len_nonneg ops). assert (E : u64 (from - 1) = from - 1) by (apply u64_small; unfold u64_ok, margin in *; lia).
  destruct (run_ok ops _ _ (inv_new Hf ltac:(lia))) as [Er HI]; [cbn [newQueue head]; lia|].
  destruct (run ops _) as [q rs], (srun _ _ ops _) as [s srs]. cbn [fst snd] in *. destruct HI. split_and!; try done; try lia.
  intros n. rewrite inv_blk0, <- inv_low0. case_decide as Hd; [|by split; [intros []|lia]].
  rewrite fmap_is_Some, lookup_lt_is_Some. unfold len, KeepBehind in *. lia.
Qed.

End Inv.

(** Three blocks on an anchor: the second one offered with a wrong parent first. *)
Definition sample_block (n : Z) : parsedContainer := Parsed [n] n [n; 0] [n - 1] [n - 1; 0] 0.
Definition sample_ops : list op :=
  [OGet 8; OAppend (sample_block 8) [1; 2]; OGet 8; OAppend (Parsed [9] 9 [9; 0] [8] [8; 8] 0) [3]; OAppend (sample_block 9) [4; 5; 6]; OGet 9; OGet 10; OGet 3; OClose; OGet 10].

Lemma queue_refines_witness :
  let (q, rs) := run sample_ops (newQueue 8 [7; 0]) in
  rs = [RGet Wait; RAppend true; RGet (Got [1; 2]); RAppend false; RAppend true; RGet (Got [4; 5; 6]); RGet Wait; RGet Released; RClose; RGet Canceled] /\ qbytes q = 5.
Proof.
  pose proof (queue_refines 8 [7; 0] sample_ops ltac:(lia) ltac:(vm_compute; reflexivity)) as H.
  destruct (run sample_ops (newQueue 8 [7; 0])) as [q rs] eqn:E. destruct (srun 8 [7; 0] sample_ops _) as [s srs] eqn:Es.
  destruct H as (_ & _ & _ & _ & _ & Hb). vm_compute in E. injection E as <- <-. vm_compute in Es. injection Es as <- _. split; [done|]. by rewrite Hb.
Defined.

End Queue.
