(* ===== verification/Spans.v ===== *)
(** * fetch/window.go and fetch/parse.go: turning a height range into containers

    A span [lo..hi] is resolved by asking peers for the container ID at [hi]
    ([pollIDAt]), fetching that container ([seedSpan]) and walking the ancestors
    batches down to [lo] ([fetchSpan]). Peers are outside the program: the votes of
    the [i]-th poll and the answer to the [i]-th ancestors request are arguments, an
    absent answer is a context that ended. The two decoders [parseContainer] calls
    (ProposerVM's and the RLP block decoder) are library code and parameters. *)

From S2P Require Import Prelude Queue.
Import Queue.Queue.

Module Spans.

Definition spanBlocks : Z := 4096.
Definition fetchSpans : Z := 16.
Definition pollFanout : Z := 4.

(** The zero id, [ids.Empty]. *)
Definition EmptyID : ID := replicate 32 0.

Record span := Span { lo : Z; hi : Z }.
Record rawBlock := RawBlock { bp : parsedContainer; braw : bytes }.
Record spanResult := SpanResult { rspan : span; blocks : list rawBlock }.

#[export] Instance span_eq_dec : EqDecision span.
Proof. solve_decision. Defined.

(** ** parse.go *)

Record proposerBlock := ProposerBlock { pbID : ID; pbParentID : ID; pbBlock : bytes }.
Record ethBlock := EthBlock { NumberU64 : Z; EHash : ID; EParentHash : ID; ETime : Z }.

Section Parse.
Context (ParseWithoutVerification : bytes -> option proposerBlock) (DecodeBytes : bytes -> option ethBlock)
        (Split : bytes -> option bytes).

Definition parseContainer (raw : bytes) : res parsedContainer :=
  if len raw =? 0 then Err "empty container"
  else match ParseWithoutVerification raw with
  | Some pb =>
      match DecodeBytes (pbBlock pb) with
      | Some inner => Ok (Parsed (pbID pb) (NumberU64 inner) (EHash inner) (pbParentID pb) (EParentHash inner) (ETime inner))
      | None => Err "decode inner eth block"
      end
  | None =>
      match Split raw with
      | None => Err "rlp split"
      | Some rest =>
          let* blockBytes := slice raw 0 (len raw - len rest) in
          match DecodeBytes blockBytes with
          | Some inner => Ok (Parsed (EHash inner) (NumberU64 inner) (EHash inner) (EParentHash inner) (EParentHash inner) (ETime inner))
          | None => Err "decode pre-fork eth block"
          end
      end
  end.

End Parse.

(** ** The votes of a height poll *)

Record chitsAnswer := ChitsAnswer { atHeight : ID; acceptedHeight : Z }.

Definition tipTarget (tip ceiling : Z) : Z :=
  if (0 <? ceiling) && ((tip =? 0) || (ceiling <? tip)) then ceiling else tip.

Definition noteTip (h tip : Z) : Z := if h <=? tip then tip else h.

Definition votes_of (m : gmap ID Z) (id : ID) : Z := default 0 (m !! id).

(** One answer: the tip it reports, its vote, and its id in arrival order. *)
Definition collect_one (st : gmap ID Z * list ID * Z) (a : chitsAnswer) : gmap ID Z * list ID * Z :=
  let '(votes, order, tip) := st in
  let tip := noteTip (acceptedHeight a) tip in
  if bool_decide (atHeight a = EmptyID) then (votes, order, tip)
  else
    let order := if votes_of votes (atHeight a) =? 0 then order ++ [atHeight a] else order in
    (<[atHeight a := votes_of votes (atHeight a) + 1]> votes, order, tip).

Definition swap (j : nat) (l : list ID) : list ID :=
  match l !! j, l !! pred j with Some x, Some y => <[pred j := x]> (<[j := y]> l) | _, _ => l end.

(** The inner loop: move the element at [j] left past every one with fewer votes. *)
Fixpoint sift (votes : gmap ID Z) (j : nat) (l : list ID) : list ID :=
  match j with
  | O => l
  | S i =>
      match l !! j, l !! i with
      | Some x, Some y => if votes_of votes y <? votes_of votes x then sift votes i (swap j l) else l
      | _, _ => l
      end
  end.

Fixpoint sort_votes (votes : gmap ID Z) (i n : nat) (l : list ID) : list ID :=
  match n with
  | O => l
  | S n => sort_votes votes (S i) n (sift votes i l)
  end.

Definition by_votes (votes : gmap ID Z) (order : list ID) : list ID := sort_votes votes 1 (length order - 1) order.

(** [pollIDAt], given the answers that arrived before its timeout, in order. *)
Definition pollIDAt (answers : list chitsAnswer) (tip : Z) : list ID * Z :=
  let '(votes, order, tip) := foldl collect_one (∅, [], tip) answers in
  (by_votes votes order, tip).

(** [acceptedFrontier]: the id most peers name. *)
Definition frontier_one (st : gmap ID Z * ID) (id : ID) : gmap ID Z * ID :=
  let '(votes, best) := st in
  if bool_decide (id = EmptyID) then (votes, best)
  else
    let votes := <[id := votes_of votes id + 1]> votes in
    (votes, if votes_of votes best <? votes_of votes id then id else best).

Definition acceptedFrontier (answers : list ID) : res ID :=
  if len answers =? 0 then Err "no connected peers"
  else
    let best := (foldl frontier_one (∅, EmptyID) answers).2 in
    if bool_decide (best = EmptyID) then Err "no frontier answers" else Ok best.

(** ** Fetching a span *)

(** What a worker's call comes to: a result, the context's end, a panic, or still
    asking when the answers given run out. *)
Inductive outcome (A : Type) := Done (a : A) | Ended | Crashed | Asking.
#[global] Arguments Done {_} _.
#[global] Arguments Ended {_}.
#[global] Arguments Crashed {_}.
#[global] Arguments Asking {_}.

Section Fetch.
Context (parse : bytes -> res parsedContainer).
(** The answer to the [i]-th ancestors request, which named the id. *)
Context (ask : nat -> ID -> option (list bytes)).

(** The candidates of one poll round, most voted first. *)
Fixpoint try_candidates (h : Z) (ids : list ID) (i : nat) : outcome (list bytes * ID) * nat :=
  match ids with
  | [] => (Asking, i)
  | id :: ids =>
      match ask i id with
      | None => (Ended, S i)
      | Some [] => (Crashed, S i)
      | Some (raw :: rest) =>
          match parse raw with
          | Ok p => if blockNumber p =? h then (Done (raw :: rest, id), S i) else try_candidates h ids (S i)
          | Err _ => try_candidates h ids (S i)
          | Panic => (Crashed, S i)
          end
      end
  end.

(** The rounds of [seedSpan], given the candidates each poll returns. *)
Fixpoint seedSpan (polls : list (list ID)) (h : Z) (i : nat) : outcome (list bytes * ID) * nat :=
  match polls with
  | [] => (Asking, i)
  | ids :: polls =>
      match try_candidates h ids i with
      | (Asking, i) => seedSpan polls h i
      | r => r
      end
  end.

(** One batch: the containers taken, the id the walk continues at, and whether the
    span's floor was reached. *)
Fixpoint take_batch (floor : Z) (cur : ID) (raws : list bytes) : res (list rawBlock * ID * bool) :=
  match raws with
  | [] => Ok ([], cur, false)
  | raw :: raws =>
      match parse raw with
      | Err _ => Ok ([], cur, false)
      | Panic => Panic
      | Ok p =>
          if negb (bool_decide (containerID p = cur)) then Ok ([], cur, false)
          else if blockNumber p <=? floor then Ok ([RawBlock p raw], parentID p, true)
          else let* r := take_batch floor (parentID p) raws in
               Ok (RawBlock p raw :: r.1.1, r.1.2, r.2)
      end
  end.

(** Ascending and trimmed to the span's floor. *)
Definition trim (floor : Z) (bs : list rawBlock) : list rawBlock :=
  List.filter (fun b => floor <=? blockNumber (bp b)) (rev bs).

Fixpoint walk (fuel : nat) (s : span) (i : nat) (resp : list bytes) (cur : ID) (acc : list rawBlock) : outcome spanResult :=
  match take_batch (lo s) cur resp with
  | Ok (bs, cur, done) =>
      if done then Done (SpanResult s (trim (lo s) (acc ++ bs)))
      else match fuel with
           | O => Asking
           | S fuel => match ask i cur with
                       | None => Ended
                       | Some resp => walk fuel s (S i) resp cur (acc ++ bs)
                       end
           end
  | _ => Crashed
  end.

(** [make([]rawBlock, 0, n)]: 168 bytes an element, and an allocation over the
    address space is a panic. *)
Definition rawBlock_size : Z := 168.
Definition maxAlloc : Z := 2 ^ 48.
Definition make_ok (n : Z) : bool := n * rawBlock_size <=? maxAlloc.

Definition fetchSpan (fuel : nat) (polls : list (list ID)) (s : span) : outcome spanResult :=
  match seedSpan polls (hi s) 0 with
  | (Done (resp, cur), i) =>
      if make_ok (u64 (hi s - lo s + 1)) then walk fuel s i resp cur [] else Crashed
  | (Ended, _) => Ended
  | (Crashed, _) => Crashed
  | (Asking, _) => Asking
  end.

(** [discoverTip], given the frontier id and the answer to it. *)
Definition discoverTip (id : ID) (i : nat) (tip : Z) : Z :=
  match ask i id with
  | Some (raw :: _) => match parse raw with Ok p => noteTip (blockNumber p) tip | _ => tip end
  | _ => tip
  end.

Record Anchor := MkAnchor { aID : ID; aHeight : Z }.

Definition ResolveAnchor (id : ID) (i : nat) : res Anchor :=
  match ask i id with
  | None => Err "resolve container: context"
  | Some [] => Panic
  | Some (raw :: _) =>
      let* p := parse raw in
      if bool_decide (containerID p = id) then Ok (MkAnchor id (blockNumber p)) else Err "peer served another container"
  end.

(** *** The walk down a parent chain *)

(** [bs] is a parent chain down from the container [cur] at height [n], which
    continues at the container [cur'] of height [n']. *)
Fixpoint down (cur : ID) (n : Z) (bs : list rawBlock) (cur' : ID) (n' : Z) : Prop :=
  match bs with
  | [] => cur = cur' /\ n = n'
  | b :: bs => parse (braw b) = Ok (bp b) /\ containerID (bp b) = cur /\ blockNumber (bp b) = n /\
               down (parentID (bp b)) (n - 1) bs cur' n'
  end.

Lemma down_app bs bs' cur n cur' n' cur2 n2 :
  down cur n bs cur' n' -> down cur' n' bs' cur2 n2 -> down cur n (bs ++ bs') cur2 n2.
Proof.
  revert cur n. induction bs as [|b bs IH]; intros cur n H H'; cbn [down app] in *; [by destruct H as [-> ->]|].
  destruct H as (? & ? & ? & H). split_and!; try done. by apply IH.
Qed.

Lemma down_numbers bs cur n cur' n' :
  down cur n bs cur' n' -> n' = n - len bs /\ map (fun b => blockNumber (bp b)) (rev bs) = seqZ (n' + 1) (len bs).
Proof.
  revert cur n. induction bs as [|b bs IH]; intros cur n H; cbn [down] in H.
  - destruct H as [_ ->]. rewrite len_nil. split; [lia|done].
  - destruct H as (_ & _ & Hn & H). destruct (IH _ _ H) as [E Em]. rewrite len_cons. split; [lia|].
    cbn [rev]. rewrite map_app, Em. cbn [map]. rewrite Hn, (Z.add_comm 1 (len bs)), seqZ_app by (pose proof (len_nonneg bs); lia).
    f_equal. rewrite seqZ_cons, seqZ_nil by lia. f_equal. lia.
Qed.

(** The parent links of an ascending list of containers. *)
Fixpoint parent_links (l : list rawBlock) : Prop :=
  match l with
  | b :: ((c :: _) as l') => parentID (bp c) = containerID (bp b) /\ parent_links l'
  | _ => True
  end.

Lemma parent_links_snoc l b c : parent_links ((l ++ [b]) ++ [c]) <-> parent_links (l ++ [b]) /\ parentID (bp c) = containerID (bp b).
Proof.
  induction l as [|x l IH]; cbn [app parent_links]; [tauto|]. destruct l as [|y l]; cbn [app parent_links] in *; tauto.
Qed.

Lemma down_links bs cur n cur' n' : down cur n bs cur' n' -> parent_links (rev bs) /\ Forall (fun b => parse (braw b) = Ok (bp b)) (rev bs).
Proof.
  revert cur n. induction bs as [|b bs IH]; intros cur n H; [done|]. cbn [down rev] in *. destruct H as (Hp & Hc & _ & H).
  destruct (IH _ _ H) as [Hl Hf]. split; [|apply Forall_app; split; [done|by constructor]].
  destruct bs as [|c bs]; [done|]. cbn [rev] in *. rewrite parent_links_snoc. split; [done|]. cbn [down] in H. by destruct H as (_ & -> & _).
Qed.

(** Every container that carries the id [cur] is at height [n]. *)
Definition numbered (cur : ID) (n : Z) : Prop := forall raw p, parse raw = Ok p -> containerID p = cur -> blockNumber p = n.

Section Honest.
(** A container's parent is one height below it, whoever served either. *)
Hypothesis parent_below : forall raw raw' p p', parse raw = Ok p -> parse raw' = Ok p' -> parentID p = containerID p' -> blockNumber p = blockNumber p' + 1.
(** An id names one container. *)
Hypothesis id_names_one : forall raw raw' p p', parse raw = Ok p -> parse raw' = Ok p' -> containerID p = containerID p' -> blockNumber p = blockNumber p'.
(** An answer begins with the container asked for. *)
Hypothesis ask_serves : forall i id resp, ask i id = Some resp -> exists raw rest p, resp = raw :: rest /\ parse raw = Ok p /\ containerID p = id.
(** The parent of a container above genesis is served. *)
Hypothesis ask_answers : forall i raw p, parse raw = Ok p -> 0 < blockNumber p -> ask i (parentID p) <> None.
Hypothesis parse_total : forall raw, parse raw <> Panic.

Lemma take_batch_down floor cur n raws :
  numbered cur n -> floor <= n ->
  exists bs cur' d, take_batch floor cur raws = Ok (bs, cur', d) /\ down cur n bs cur' (n - len bs) /\
    numbered cur' (n - len bs) /\ n - len bs = (if d : bool then floor - 1 else n - len bs) /\ (d = false -> floor <= n - len bs) /\
    (match raws with raw :: _ => forall p, parse raw = Ok p -> containerID p = cur -> bs <> [] | [] => True end) /\
    (bs <> [] -> exists raw p, parse raw = Ok p /\ parentID p = cur' /\ blockNumber p = n - len bs + 1).
Proof.
  revert cur n. induction raws as [|raw raws IH]; intros cur n Hn Hf; cbn [take_batch].
  { exists [], cur, false. rewrite len_nil, Z.sub_0_r. by split_and!. }
  destruct (parse raw) as [p|e|] eqn:Ep; [|exists [], cur, false; rewrite len_nil, Z.sub_0_r; by split_and!|by destruct (parse_total raw)].
  destruct (decide (containerID p = cur)) as [Ec|Ec].
  2:{ rewrite bool_decide_eq_false_2 by done. exists [], cur, false. rewrite len_nil, Z.sub_0_r. split_and!; try done. intros p' [= <-]. done. }
  rewrite bool_decide_eq_true_2 by done. cbn [negb]. pose proof (Hn _ _ Ep Ec) as En.
  assert (Hpar : numbered (parentID p) (n - 1)).
  { intros raw' p' Ep' Ec'. pose proof (parent_below _ _ _ _ Ep Ep' (eq_sym Ec')). lia. }
  destruct (Z.leb_spec (blockNumber p) floor) as [Hle|Hgt].
  - exists [RawBlock p raw], (parentID p), true. rewrite len_cons, len_nil. split_and!; try done; try lia.
    + intros. exists raw, p. split_and!; try done. lia.
  - destruct (IH (parentID p) (n - 1) Hpar ltac:(lia)) as (bs & cur' & d & Et & Hd & Hnum & He & Hfl & _ & Hlast).
    rewrite Et. cbn [rbind fst snd]. exists (RawBlock p raw :: bs), cur', d. rewrite len_cons.
    replace (n - (1 + len bs)) with (n - 1 - len bs) by lia. split_and!; try done.
    intros _. destruct bs as [|b bs].
    + cbn [down] in Hd. destruct Hd as [<- _]. exists raw, p. rewrite len_nil. split_and!; try done. lia.
    + apply Hlast. done.
Qed.

Lemma walk_down s fuel i resp cur n acc top ctop :
  0 < lo s -> numbered cur n -> lo s <= n -> down ctop top acc cur n ->
  (exists raw rest p, resp = raw :: rest /\ parse raw = Ok p /\ containerID p = cur) ->
  (Z.to_nat (n - lo s) <= fuel)%nat ->
  exists bs cur', walk fuel s i resp cur acc = Done (SpanResult s (trim (lo s) bs)) /\ down ctop top bs cur' (lo s - 1).
Proof.
  revert i resp cur n acc. induction fuel as [|fuel IH]; intros i resp cur n acc Hlo Hn Hle Hacc (raw & rest & p & -> & Ep & Ec) Hf;
    (destruct (take_batch_down (lo s) cur n (raw :: rest) Hn Hle) as (bs & cur' & d & Et & Hd & Hnum & He & Hfl & Hne & Hlast);
     specialize (Hne p Ep Ec); pose proof (down_app _ _ _ _ _ _ _ _ Hacc Hd) as Hall;
     assert (0 < len bs) by (destruct bs; [done|]; rewrite len_cons; pose proof (len_nonneg bs); lia);
     cbn [walk]; rewrite Et; destruct d; [exists (acc ++ bs), cur'; split; [done|]; rewrite He in Hall; done|]; specialize (Hfl eq_refl)).
  - lia.
  - destruct (Hlast Hne) as (raw' & p' & Ep' & <- & En').
    destruct (ask i (parentID p')) as [resp|] eqn:Ea; [|exfalso; by apply (ask_answers i raw' p' Ep'); [lia|]].
    apply (IH _ _ _ (n - len bs)); try done; [by apply (ask_serves i)|lia].
Qed.

Lemma try_candidates_ok h ids i resp id j :
  try_candidates h ids i = (Done (resp, id), j) -> exists raw rest p, resp = raw :: rest /\ parse raw = Ok p /\ containerID p = id /\ blockNumber p = h.
Proof.
  revert i. induction ids as [|x ids IH]; intros i; cbn [try_candidates]; [done|].
  destruct (ask i x) as [[|raw rest]|] eqn:Ea; try done. destruct (ask_serves _ _ _ Ea) as (raw' & rest' & p & [= <- <-] & Ep & Ec).
  rewrite Ep. destruct (Z.eqb_spec (blockNumber p) h) as [En|En]; [|apply IH]. intros [= <- <- <-]. by exists raw, rest, p.
Qed.

Lemma seedSpan_ok polls h i resp id j :
  seedSpan polls h i = (Done (resp, id), j) -> exists raw rest p, resp = raw :: rest /\ parse raw = Ok p /\ containerID p = id /\ blockNumber p = h.
Proof.
  revert i. induction polls as [|ids polls IH]; intros i; cbn [seedSpan]; [done|].
  destruct (try_candidates h ids i) as [[[r' id']| | |] i'] eqn:Et; try done; [|apply IH]. intros [= <- <- <-]. by apply try_candidates_ok in Et.
Qed.

Lemma trim_down bs cur n cur' floor : down cur n bs cur' (floor - 1) -> trim floor bs = rev bs.
Proof.
  intros H. destruct (down_numbers _ _ _ _ _ H) as [_ Hm]. unfold trim. apply List.forallb_filter_id, forallb_forall. intros b Hb. apply Z.leb_le.
  assert (Hin : In (blockNumber (bp b)) (seqZ (floor - 1 + 1) (len bs))) by (rewrite <- Hm; by apply (in_map (fun b => blockNumber (bp b)))).
  apply list_elem_of_In, elem_of_seqZ in Hin. lia.
Qed.


End Honest.

End Fetch.

(** Peers that hold every height and answer with two containers at a time. *)
Definition sample_parse (raw : bytes) : res parsedContainer :=
  match raw with [n] => if 0 <=? n then Ok (sample_block n) else Err "genesis has no parent" | _ => Err "decode" end.
Definition sample_ask (_ : nat) (id : ID) : option (list bytes) :=
  match id with [n] => if 0 <=? n then Some [[n]; [n - 1]] else None | _ => None end.

Lemma sample_parse_ok raw p : sample_parse raw = Ok p -> exists n, 0 <= n /\ raw = [n] /\ p = sample_block n.
Proof. destruct raw as [|n [|]]; cbn; try done. destruct (Z.leb_spec 0 n); [|done]. intros [= <-]. by exists n. Qed.


(** ** The order of the candidates *)

(** How many answers name [id], and the place of the first that does. *)
Definition count (answers : list chitsAnswer) (id : ID) : Z := len (List.filter (fun a => bool_decide (atHeight a = id)) answers).

Fixpoint arrival (answers : list chitsAnswer) (id : ID) : nat :=
  match answers with
  | [] => 0
  | a :: answers => if bool_decide (atHeight a = id) then 0 else S (arrival answers id)
  end.

(** More votes first, ties in arrival order. *)
Definition before (votes : ID -> Z) (pos : ID -> nat) (x y : ID) : Prop :=
  votes y < votes x \/ (votes x = votes y /\ (pos x < pos y)%nat).

#[export] Instance before_trans votes pos : Transitive (before votes pos).
Proof. intros x y z [H|[H ?]] [H'|[H' ?]]; unfold before; lia. Qed.

Lemma swap_mid a y x b : swap (S (length a)) (a ++ y :: x :: b) = a ++ x :: y :: b.
Proof.
  unfold swap. cbn [pred]. rewrite (list_lookup_middle a _ y (length a) eq_refl).
  change (a ++ y :: x :: b) with (a ++ [y] ++ x :: b). rewrite app_assoc.
  rewrite (list_lookup_middle (a ++ [y]) b x) by (rewrite length_app; cbn; lia).
  rewrite insert_app_r_alt by (rewrite length_app; cbn; lia). rewrite length_app. cbn [length].
  replace (S (length a) - (length a + 1))%nat with 0%nat by lia. cbn [insert list_insert]. rewrite <- app_assoc. cbn [app].
  rewrite insert_app_r_alt by lia. by rewrite Nat.sub_diag.
Qed.

(** [sift] moves the element left past the elements with fewer votes. *)
Lemma sift_spec votes pre x post :
  exists a b, pre = a ++ b /\ sift votes (length pre) (pre ++ x :: post) = a ++ x :: b ++ post /\
    Forall (fun y => votes_of votes y < votes_of votes x) b /\ (forall y, last a = Some y -> votes_of votes x <= votes_of votes y).
Proof.
  revert post. induction pre as [|y pre IH] using rev_ind; intros post; [by exists [], []|].
  rewrite length_app. cbn [length]. rewrite Nat.add_1_r. cbn [sift].
  assert (Ex : ((pre ++ [y]) ++ x :: post) !! S (length pre) = Some x) by (apply list_lookup_middle; rewrite length_app; cbn; lia).
  assert (Ey : ((pre ++ [y]) ++ x :: post) !! length pre = Some y) by (rewrite <- app_assoc; by apply list_lookup_middle).
  rewrite Ex, Ey. destruct (Z.ltb_spec (votes_of votes y) (votes_of votes x)) as [Hlt|Hge].
  - rewrite <- app_assoc. cbn [app]. rewrite swap_mid. destruct (IH (y :: post)) as (a & b & -> & -> & Hb & Ha).
    exists a, (b ++ [y]). rewrite <- !app_assoc. split_and!; try done. apply Forall_app. split; [done|by constructor].
  - exists (pre ++ [y]), []. rewrite app_nil_r. split_and!; try done. intros z. rewrite last_snoc. intros [= <-]. done.
Qed.

Lemma sorted_votes_last votes pos a x :
  StronglySorted (before votes pos) a -> (forall y, last a = Some y -> votes x <= votes y) -> forall y, y ∈ a -> votes x <= votes y.
Proof.
  intros Hs Hl y Hy. destruct (last a) as [z|] eqn:El; [|apply last_None in El as ->; by apply not_elem_of_nil in Hy].
  apply last_Some in El as [a' ->]. specialize (Hl z eq_refl). apply elem_of_app in Hy as [Hy|Hy%list_elem_of_singleton]; [|by subst].
  pose proof (StronglySorted_app_1_elem_of _ _ _ y z Hs Hy ltac:(set_solver)) as [H|[H _]]; lia.
Qed.

Lemma sort_votes_ok votes pos rest pre :
  StronglySorted (before (votes_of votes) pos) pre -> StronglySorted (fun x y => (pos x < pos y)%nat) rest ->
  (forall x y, x ∈ pre -> y ∈ rest -> (pos x < pos y)%nat) ->
  StronglySorted (before (votes_of votes) pos) (sort_votes votes (length pre) (length rest) (pre ++ rest)) /\
  sort_votes votes (length pre) (length rest) (pre ++ rest) ≡ₚ pre ++ rest.
Proof.
  revert pre. induction rest as [|x rest IH]; intros pre Hs Hr Hpr; cbn [sort_votes length]; [by rewrite app_nil_r|].
  destruct (sift_spec votes pre x rest) as (a & b & -> & -> & Hb & Ha).
  apply StronglySorted_cons in Hr as [Hx Hr]. apply StronglySorted_app in Hs as (Hab & Hsa & Hsb).
  pose proof (sorted_votes_last _ _ _ _ Hsa Ha) as Ha'. rewrite Forall_forall in Hb, Hx.
  replace (a ++ x :: b ++ rest) with ((a ++ x :: b) ++ rest) by (rewrite <- app_assoc; done).
  replace (S (length (a ++ b))) with (length (a ++ x :: b)) by (rewrite !length_app; cbn; lia).
  assert (Hp : a ++ x :: b ≡ₚ (a ++ b) ++ [x]) by (rewrite <- app_assoc, (Permutation_app_comm b [x]); done).
  destruct (IH (a ++ x :: b)) as [Hs' Hp'].
  - apply StronglySorted_app_2; [|done|apply StronglySorted_cons; split; [|done]].
    + intros y z Hy Hz. apply elem_of_cons in Hz as [->|Hz]; [|by apply Hab].
      destruct (decide (votes_of votes x = votes_of votes y)); [right; split; [done|apply Hpr; set_solver]|left; specialize (Ha' y Hy); lia].
    + apply Forall_forall. intros y Hy. left. by apply Hb.
  - done.
  - intros y z Hy Hz. rewrite Hp in Hy. apply elem_of_app in Hy as [Hy|Hy%list_elem_of_singleton]; [apply Hpr; set_solver|subst; by apply Hx].
  - split; [done|]. rewrite Hp', Hp, <- app_assoc. done.
Qed.

Lemma by_votes_ok votes pos order :
  StronglySorted (fun x y => (pos x < pos y)%nat) order ->
  StronglySorted (before (votes_of votes) pos) (by_votes votes order) /\ by_votes votes order ≡ₚ order.
Proof.
  intros Hs. unfold by_votes. destruct order as [|x order]; [by split; [constructor|]|]. apply StronglySorted_cons in Hs as [Hx Hs]. rewrite Forall_forall in Hx.
  cbn [length]. rewrite Nat.sub_succ, Nat.sub_0_r. apply (sort_votes_ok votes pos order [x]); [by repeat constructor|done|].
  intros y z ->%list_elem_of_singleton. apply Hx.
Qed.

Lemma arrival_lt l id : id ∈ map atHeight l -> (arrival l id < length l)%nat.
Proof.
  induction l as [|a l IH]; cbn [map arrival length]; [by intros ?%not_elem_of_nil|]. intros [H|H]%elem_of_cons; case_bool_decide; try lia; [by subst|].
  specialize (IH H). lia.
Qed.

Lemma arrival_app l a id : arrival (l ++ [a]) id = if decide (id ∈ map atHeight l) then arrival l id else if decide (atHeight a = id) then length l else S (length l).
Proof.
  induction l as [|x l IH]; cbn [map arrival length app].
  - rewrite decide_False by set_solver. case_bool_decide; by case_decide.
  - case_bool_decide as E; [by rewrite decide_True by set_solver|]. rewrite IH.
    destruct (decide (id ∈ map atHeight l)); [by rewrite decide_True by set_solver|]. rewrite (decide_False (P := id ∈ atHeight x :: map atHeight l)) by set_solver. by case_decide.
Qed.

(** What the collecting loop has after the answers [l]. *)
Definition collected (l : list chitsAnswer) (tip : Z) (st : gmap ID Z * list ID * Z) : Prop :=
  let '(votes, order, tip') := st in
  (forall id, id <> EmptyID -> votes_of votes id = count l id) /\
  (forall id, id ∈ order <-> id ∈ map atHeight l /\ id <> EmptyID) /\
  StronglySorted (fun x y => (arrival l x < arrival l y)%nat) order /\
  tip' = foldl (fun t a => Z.max t (acceptedHeight a)) tip l.

Lemma count_app l a id : count (l ++ [a]) id = count l id + if decide (atHeight a = id) then 1 else 0.
Proof. unfold count. rewrite List.filter_app, len_app. cbn [List.filter]. case_bool_decide; case_decide; try done; by rewrite ?len_cons, len_nil. Qed.

Lemma count_pos l id : 0 < count l id <-> id ∈ map atHeight l.
Proof.
  induction l as [|a l IH] using rev_ind; [cbn; split; [done|by intros ?%not_elem_of_nil]|]. rewrite count_app, map_app, elem_of_app, <- IH. cbn [map].
  rewrite list_elem_of_singleton. pose proof (len_nonneg (List.filter (fun a => bool_decide (atHeight a = id)) l)). fold (count l id) in H.
  case_decide; split; intros; intuition (try congruence; try lia).
Qed.

Lemma collect_ok l tip : collected l tip (foldl collect_one (∅, [], tip) l).
Proof.
  induction l as [|a l IH] using rev_ind; [unfold collected; cbn; split_and!; try done; [by intros; rewrite elem_of_nil; naive_solver|constructor]|].
  rewrite foldl_app. destruct (foldl collect_one _ l) as [[votes order] tip']. destruct IH as (Hv & Ho & Hs & Ht). unfold collected. cbn [foldl collect_one].
  assert (Ht' : noteTip (acceptedHeight a) tip' = foldl (fun t a => Z.max t (acceptedHeight a)) tip (l ++ [a])).
  { rewrite foldl_app. cbn [foldl]. rewrite <- Ht. unfold noteTip. destruct (Z.leb_spec (acceptedHeight a) tip'); lia. }
  assert (Hsame : StronglySorted (fun x y => (arrival (l ++ [a]) x < arrival (l ++ [a]) y)%nat) order).
  { revert Hs. assert (Hin : Forall (fun x => x ∈ map atHeight l) order) by (apply Forall_forall; intros x Hx; by apply Ho). revert Hin. clear.
    induction order as [|x order IH]; [constructor|]. rewrite Forall_cons. intros [Hx Hin] Hs. apply StronglySorted_cons in Hs as [Hf Hs].
    apply StronglySorted_cons. split; [|by apply IH]. rewrite Forall_forall in Hin, Hf |- *. intros y Hy. rewrite !arrival_app, !decide_True by auto. by apply Hf. }
  case_bool_decide as Ee.
  - split_and!; try done.
    + intros id Hid. rewrite count_app, Hv, decide_False by congruence. lia.
    + intros id. rewrite Ho, map_app, elem_of_app. cbn [map]. rewrite list_elem_of_singleton. naive_solver.
  - rewrite Hv by done. split_and!; try done.
    + intros id Hid. rewrite count_app. unfold votes_of. destruct (decide (atHeight a = id)) as [->|Hne]; [by rewrite lookup_insert_eq|].
      rewrite lookup_insert_ne by done. fold (votes_of votes id). rewrite Hv by done. lia.
    + intros id. rewrite map_app, elem_of_app. cbn [map]. rewrite list_elem_of_singleton. destruct (Z.eqb_spec (count l (atHeight a)) 0) as [Ec|Ec].
      * rewrite elem_of_app, list_elem_of_singleton, Ho. naive_solver.
      * rewrite Ho. assert (atHeight a ∈ map atHeight l) by (apply count_pos; unfold count in *; pose proof (len_nonneg (List.filter (fun a' => bool_decide (atHeight a' = atHeight a)) l)); lia).
        naive_solver.
    + destruct (Z.eqb_spec (count l (atHeight a)) 0) as [Ec|Ec]; [|done]. apply StronglySorted_app_2; [|done|by repeat constructor].
      intros x y Hx ->%list_elem_of_singleton. apply Ho in Hx as [Hx _].
      assert (Hn : atHeight a ∉ map atHeight l) by (intros H; apply count_pos in H; lia).
      rewrite !arrival_app, decide_True, decide_False, decide_True by done. by apply arrival_lt.
Qed.

(** the candidates of a height poll. They are exactly the ids some answer
    named, each once, ordered by how many answers named them and, where that is
    equal, by which was named first; and the tip becomes the highest accepted height
    any answer reported. *)
Theorem poll_candidates_ordered answers tip :
  let (ids, tip') := pollIDAt answers tip in
  NoDup ids /\ (forall id, id ∈ ids <-> id ∈ map atHeight answers /\ id <> EmptyID) /\
  StronglySorted (before (count answers) (arrival answers)) ids /\
  tip' = foldl (fun t a => Z.max t (acceptedHeight a)) tip answers.
Proof.
  unfold pollIDAt. pose proof (collect_ok answers tip) as H. destruct (foldl collect_one _ answers) as [[votes order] tip']. destruct H as (Hv & Ho & Hs & Ht).
  destruct (by_votes_ok votes (arrival answers) order Hs) as [Hsort Hp].
  assert (Hin : forall id, id ∈ by_votes votes order <-> id ∈ map atHeight answers /\ id <> EmptyID) by (intros id; by rewrite Hp).
  split_and!; try done.
  - rewrite Hp. clear - Hs. induction order as [|x order IH]; [constructor|]. apply StronglySorted_cons in Hs as [Hf Hs]. constructor; [|by apply IH].
    intros Hx. rewrite Forall_forall in Hf. specialize (Hf x Hx). lia.
  - assert (Hne : Forall (fun x => x <> EmptyID) (by_votes votes order)) by (apply Forall_forall; intros x Hx; by apply Hin in Hx as [_ ?]).
    revert Hsort Hne. generalize (by_votes votes order) as l. clear - Hv. intros l. induction l as [|x l IH]; [constructor|].
    intros Hs Hne. apply StronglySorted_cons in Hs as [Hf Hs]. rewrite Forall_cons in Hne. destruct Hne as [Hx Hne]. apply StronglySorted_cons.
    split; [|by apply IH]. rewrite Forall_forall in Hf, Hne |- *. intros y Hy. unfold before. rewrite <- !Hv by auto. by apply Hf.
Qed.

End Spans.
