(* ===== verification/Forward.v ===== *)
(** * fetch/window.go, forward: the ascending fetch

    The loop goroutine, the workers, the executor and the consensus follower share
    the queue and the known tip. The state below is all of it; a step is one access
    of one party to shared state, so the loop is cut at every call that takes the
    queue's mutex and the other parties can move in between ([pc] is where the loop
    stands). [busy] are the spans the workers hold and [results] the buffered channel
    of their answers. A worker's answer is an argument of its step: [Spans] says what
    [fetchSpan] can return. *)

From S2P Require Import Prelude Queue Spans.
Import Queue.Queue Spans.Spans.

Module Forward.

(** Where the loop stands: before the lookup of the next span; in [joinSpan] before
    the [Head] read of the next block; between that read and the [Append]; before
    the three reads of the window rule; at the select. *)
Inductive pc :=
| PJoin
| PBlocks (r : spanResult) (bs : list rawBlock)
| PAppend (r : spanResult) (b : rawBlock) (bs : list rawBlock)
| PHead
| PConsumed (hd : Z)
| PTarget (consumed : Z)
| PBytes (target : Z)
| PSelect.

Record forward := MkForward {
  fq : Queue; tip : Z; ceiling : Z; badLinks : Z;
  next : Z; redo : list span; pending : gmap Z spanResult; inflight : Z; filling : bool; job : span; out : bool;
  busy : list span; results : list spanResult; at_ : pc }.

Definition StartForward (from : Z) (anchorHash : ID) (tip ceiling : Z) : forward :=
  let q := newQueue (if from =? 0 then 1 else from) anchorHash in
  MkForward q tip ceiling 0 (u64 (Head q + 1)) [] ∅ 0 true (Span 0 0) false [] [] PJoin.

(** ** The pieces of the loop body *)

(** [spanned], over the entries of the map in the order the iteration visits. *)
Fixpoint spanned (want : Z) (order : list Z) (m : gmap Z spanResult) (hit : option spanResult) : gmap Z spanResult * option spanResult :=
  match order with
  | [] => (m, hit)
  | k :: order =>
      match m !! k with
      | None => spanned want order m hit
      | Some r =>
          if hi (rspan r) <? want then spanned want order (delete k m) hit
          else if k <=? want then spanned want order m (Some r)
          else spanned want order m hit
      end
  end.

Definition with_pc (p : pc) (f : forward) : forward :=
  MkForward (fq f) (tip f) (ceiling f) (badLinks f) (next f) (redo f) (pending f) (inflight f) (filling f) (job f) (out f) (busy f) (results f) p.
Definition with_queue (q : Queue) (f : forward) : forward :=
  MkForward q (tip f) (ceiling f) (badLinks f) (next f) (redo f) (pending f) (inflight f) (filling f) (job f) (out f) (busy f) (results f) (at_ f).
Definition with_pending (m : gmap Z spanResult) (f : forward) : forward :=
  MkForward (fq f) (tip f) (ceiling f) (badLinks f) (next f) (redo f) m (inflight f) (filling f) (job f) (out f) (busy f) (results f) (at_ f).

(** The lookup of the span that covers the next height. *)
Definition look (order : list Z) (f : forward) : forward :=
  let (m, hit) := spanned (u64 (Head (fq f) + 1)) order (pending f) None in
  match hit with
  | Some r => with_pc (PBlocks r (blocks r)) (with_pending (delete (lo (rspan r)) m) f)
  | None => with_pc PHead (with_pending m f)
  end.

(** [joinSpan]'s loop head: a block the follower delivered is skipped. *)
Definition join_block (r : spanResult) (bs : list rawBlock) (f : forward) : forward :=
  match bs with
  | [] => with_pc PJoin f
  | b :: bs => with_pc (if blockNumber (bp b) <=? Head (fq f) then PBlocks r bs else PAppend r b bs) f
  end.

(** The append, and on a broken link the cut: the span goes back from that block up. *)
Definition join_append (r : spanResult) (b : rawBlock) (bs : list rawBlock) (f : forward) : forward :=
  let (q, ok) := Append (bp b) (braw b) (fq f) in
  if ok then with_pc (PBlocks r bs) (with_queue q f)
  else MkForward q (tip f) (ceiling f) (u64 (badLinks f + 1)) (next f) (redo f ++ [Span (blockNumber (bp b)) (hi (rspan r))])
         (pending f) (inflight f) (filling f) (job f) (out f) (busy f) (results f) PJoin.

(** The window rule, once both ends are read. *)
Definition window (hd consumed : Z) (f : forward) : forward :=
  let nx := if next f <=? hd then u64 (hd + 1) else next f in
  let fl := if u64 (hd - consumed) <? RefillBelow then true else filling f in
  let fl := if u64 (consumed + WindowBlocks) <? nx then false else fl in
  MkForward (fq f) (tip f) (ceiling f) (badLinks f) nx (redo f) (pending f) (inflight f) fl (job f) (out f) (busy f) (results f) (PTarget consumed).

Definition target_of (consumed : Z) (f : forward) : Z :=
  let t := tipTarget (tip f) (ceiling f) in
  let c := u64 (consumed + WindowBlocks) in
  if c <? t then c else t.

(** The choice of the next job: a span sent back first, then fresh heights. *)
Definition choose (target : Z) (f : forward) : forward :=
  if negb (out f) && filling f && (fst (Bytes (fq f)) <? queueMaxBytes) && (inflight f <? fetchSpans) then
    match redo f with
    | s :: rest => MkForward (fq f) (tip f) (ceiling f) (badLinks f) (next f) rest (pending f) (inflight f) (filling f) s true (busy f) (results f) PSelect
    | [] =>
        if next f <=? target then
          let s := Span (next f) (Z.min (u64 (next f + spanBlocks - 1)) target) in
          MkForward (fq f) (tip f) (ceiling f) (badLinks f) (u64 (hi s + 1)) [] (pending f) (inflight f) (filling f) s true (busy f) (results f) PSelect
        else with_pc PSelect f
    end
  else with_pc PSelect f.

(** The loop's next access. At the select it has none of its own. *)
Definition loop_step (order : list Z) (f : forward) : forward :=
  match at_ f with
  | PJoin => look order f
  | PBlocks r bs => join_block r bs f
  | PAppend r b bs => join_append r b bs f
  | PHead => with_pc (PConsumed (Head (fq f))) f
  | PConsumed hd => window hd (Consumed (fq f)) f
  | PTarget c => with_pc (PBytes (target_of c f)) f
  | PBytes t => choose t f
  | PSelect => f
  end.

(** ** Steps *)

Inductive event :=
| ELoop (order : list Z)             (* the loop, visiting the map in this order *)
| EHand                              (* out <- job: an idle worker takes it *)
| EReceive                           (* r := <-results *)
| ETick                              (* <-tick.C *)
| EWork (i : nat) (bs : list rawBlock) (* worker i's fetchSpan returns *)
| EGet (n : Z)                       (* the executor's GetByHeight *)
| EOffer (p : parsedContainer) (raw : bytes) (* the follower's offer *)
| ETip (h : Z).                      (* noteTip, from any poll or the follower *)

Definition step (e : event) (f : forward) : option forward :=
  match e with
  | ELoop order =>
      match at_ f with
      | PSelect => None
      | PJoin => if bool_decide (order ≡ₚ (map_to_list (pending f)).*1) then Some (loop_step order f) else None
      | _ => Some (loop_step order f)
      end
  | EHand =>
      match at_ f with
      | PSelect => if out f && (len (busy f) <? fetchSpans) then
          Some (MkForward (fq f) (tip f) (ceiling f) (badLinks f) (next f) (redo f) (pending f) (inflight f + 1) (filling f) (job f) false (busy f ++ [job f]) (results f) PJoin)
        else None
      | _ => None
      end
  | EReceive =>
      match at_ f, results f with
      | PSelect, r :: rest =>
          Some (MkForward (fq f) (tip f) (ceiling f) (badLinks f) (next f) (redo f) (<[lo (rspan r) := r]> (pending f)) (inflight f - 1) (filling f) (job f) (out f) (busy f) rest PJoin)
      | _, _ => None
      end
  | ETick => match at_ f with PSelect => Some (with_pc PJoin f) | _ => None end
  | EWork i bs =>
      match busy f !! i with
      | Some s =>
          if len (results f) <? fetchSpans then
            Some (MkForward (fq f) (tip f) (ceiling f) (badLinks f) (next f) (redo f) (pending f) (inflight f) (filling f) (job f) (out f)
              (delete i (busy f)) (results f ++ [SpanResult s bs]) (at_ f))
          else None
      | None => None
      end
  | EGet n => Some (with_queue (GetByHeight n (fq f)).1 f)
  | EOffer p raw => Some (with_queue (Append p raw (fq f)).1 f)
  | ETip h => Some (MkForward (fq f) (noteTip h (tip f)) (ceiling f) (badLinks f) (next f) (redo f) (pending f) (inflight f) (filling f) (job f) (out f) (busy f) (results f) (at_ f))
  end.

Fixpoint steps (es : list event) (f : forward) : option forward :=
  match es with
  | [] => Some f
  | e :: es => match step e f with Some f => steps es f | None => None end
  end.

(** ** What is outstanding *)

Definition covers (h : Z) (s : span) : bool := (lo s <=? h) && (h <=? hi s).

(** How many spans of a list cover a height. *)
Definition cov (h : Z) (l : list span) : nat := length (List.filter (covers h) l).

Definition in_map (m : gmap Z spanResult) : list span := rspan <$> (map_to_list m).*2.

Definition joining (p : pc) : list span :=
  match p with PBlocks r _ | PAppend r _ _ => [rspan r] | _ => [] end.

(** Every span that was scheduled and not joined: sent back, about to be handed
    out, at a worker, answered, waiting for its turn, being joined. *)
Definition outstanding (f : forward) : list span :=
  redo f ++ (if out f then [job f] else []) ++ busy f ++ (rspan <$> results f) ++ in_map (pending f) ++ joining (at_ f).

Lemma cov_app h l k : cov h (l ++ k) = (cov h l + cov h k)%nat.
Proof. unfold cov. by rewrite List.filter_app, length_app. Qed.

Lemma cov_cons h s l : cov h (s :: l) = ((if covers h s then 1 else 0) + cov h l)%nat.
Proof. unfold cov. cbn [List.filter]. by destruct (covers h s). Qed.

Lemma cov_nil h : cov h [] = 0%nat.
Proof. done. Qed.

Lemma cov_perm h l k : l ≡ₚ k -> cov h l = cov h k.
Proof. induction 1; rewrite ?cov_cons; lia. Qed.

#[export] Instance cov_proper h : Proper (Permutation ==> eq) (cov h).
Proof. intros l k. apply cov_perm. Qed.

Lemma covers_true h s : covers h s = true <-> lo s <= h <= hi s.
Proof. unfold covers. rewrite andb_true_iff, !Z.leb_le. done. Qed.

Lemma covers_false h s : covers h s = false <-> h < lo s \/ hi s < h.
Proof. unfold covers. rewrite andb_false_iff, !Z.leb_gt. done. Qed.

#[export] Hint Rewrite cov_app cov_cons cov_nil : cov.

Lemma cov_insert h m r : m !! lo (rspan r) = None -> cov h (in_map (<[lo (rspan r) := r]> m)) = cov h (rspan r :: in_map m).
Proof. intros Hm. apply cov_perm. unfold in_map. by rewrite map_to_list_insert. Qed.

Lemma in_map_delete m k r : m !! k = Some r -> in_map m ≡ₚ rspan r :: in_map (delete k m).
Proof. intros Hm. unfold in_map. by rewrite <- (map_to_list_delete m k r Hm). Qed.

Lemma cov_delete h m k r : m !! k = Some r -> cov h (in_map m) = ((if covers h (rspan r) then 1 else 0) + cov h (in_map (delete k m)))%nat.
Proof. intros Hm. rewrite <- cov_cons. by apply cov_perm, in_map_delete. Qed.

Lemma elem_in_map m s : s ∈ in_map m <-> exists k r, m !! k = Some r /\ s = rspan r.
Proof.
  unfold in_map. rewrite list_elem_of_fmap. split.
  - intros (r & -> & ([k r'] & -> & H)%list_elem_of_fmap). apply elem_of_map_to_list in H. eauto.
  - intros (k & r & H & ->). exists r. split; [done|]. apply list_elem_of_fmap. exists (k, r). split; [done|]. by apply elem_of_map_to_list.
Qed.

(** [spanned] forgets only spans below the height, and finds a span that covers it. *)
Lemma spanned_ok want order m hit :
  let (m', hit') := spanned want order m hit in
  (forall k r, m' !! k = Some r -> m !! k = Some r) /\
  (forall h, want <= h -> cov h (in_map m') = cov h (in_map m)) /\ (forall h, (cov h (in_map m') <= cov h (in_map m))%nat) /\
  (forall k r, m !! k = Some r -> want <= hi (rspan r) -> m' !! k = Some r) /\
  (hit' = hit \/ exists k r, hit' = Some r /\ m' !! k = Some r /\ k <= want <= hi (rspan r)) /\
  (hit' = None -> hit = None /\ forall k r, k ∈ order -> m !! k = Some r -> want <= hi (rspan r) -> want < k).
Proof.
  revert m hit. induction order as [|k order IH]; intros m hit; cbn [spanned].
  { split_and!; try done; [by left|]. intros ->. split; [done|]. by intros ? ? ?%not_elem_of_nil. }
  destruct (m !! k) as [r|] eqn:Em.
  2:{ specialize (IH m hit). destruct (spanned want order m hit) as [m' hit']. destruct IH as (H1 & H2 & H3 & H4 & H5 & H6). split_and!; try done.
      intros Hn. destruct (H6 Hn) as [? H]. split; [done|]. intros k' r' [->|Hk]%elem_of_cons Hr; [congruence|by apply (H k' r')]. }
  destruct (Z.ltb_spec (hi (rspan r)) want) as [Hlt|Hge].
  - specialize (IH (delete k m) hit). destruct (spanned want order (delete k m) hit) as [m' hit']. destruct IH as (H1 & H2 & H3 & H4 & H5 & H6).
    pose proof (fun h => cov_delete h m k r Em) as Hc. split_and!; try done.
    + intros k' r' H. by apply H1, lookup_delete_Some in H as [_ ?].
    + intros h Hh. rewrite H2, Hc by done. rewrite (proj2 (covers_false h (rspan r))) by lia. done.
    + intros h. specialize (H3 h). rewrite Hc. lia.
    + intros k' r' H Hw. apply H4; [|done]. apply lookup_delete_Some. split; [|done]. intros <-. rewrite Em in H. injection H as <-. lia.
    + intros Hn. destruct (H6 Hn) as [? H]. split; [done|]. intros k' r' Hk Hr Hw. destruct (decide (k' = k)) as [->|Hne].
      * rewrite Em in Hr. injection Hr as <-. lia.
      * apply (H k' r'); [set_solver|by rewrite lookup_delete_ne|done].
  - destruct (Z.leb_spec k want) as [Hle|Hgt].
    + specialize (IH m (Some r)). destruct (spanned want order m (Some r)) as [m' hit']. destruct IH as (H1 & H2 & H3 & H4 & H5 & H6). split_and!; try done.
      * right. destruct H5 as [->|H5]; [|done]. exists k, r. split_and!; try done; try lia. by apply H4.
      * intros Hn. by destruct (H6 Hn).
    + specialize (IH m hit). destruct (spanned want order m hit) as [m' hit']. destruct IH as (H1 & H2 & H3 & H4 & H5 & H6). split_and!; try done.
      intros Hn. destruct (H6 Hn) as [? H]. split; [done|]. intros k' r' [->|Hk]%elem_of_cons Hr Hw; [done|by apply (H k' r')].
Qed.

(** ** The invariant *)

Section Inv.
Context (from : Z) (anchor : ID).

(** Of the heights above the head [hd], those below [nx] are covered by exactly one
    outstanding span and the others by none; no span reaches further than the
    window ahead of the executor's cursor [cs]. *)
Record cover_ok (hd cs nx : Z) (l : list span) : Prop := {
  co_wf s : s ∈ l -> from <= lo s <= hi s;
  co_once h : (cov h l <= 1)%nat;
  co_above h : nx <= h -> cov h l = 0%nat;
  co_cover h : hd < h < nx -> cov h l = 1%nat;
  co_next : from <= nx <= Z.max (hd + 1) (cs + WindowBlocks + 1);
  co_hi s : s ∈ l -> hi s <= cs + WindowBlocks }.

Lemma cover_perm hd cs nx l l' : l ≡ₚ l' -> cover_ok hd cs nx l -> cover_ok hd cs nx l'.
Proof. intros Hp []. split; intros *; rewrite <- ?Hp; auto. Qed.

Lemma cover_grow hd cs nx l hd' cs' : hd <= hd' -> cs <= cs' -> cover_ok hd cs nx l -> cover_ok hd' cs' nx l.
Proof. intros Hh Hc []. split; try done; try lia. - intros h ?. apply co_cover0. lia. - intros s Hs. specialize (co_hi0 s Hs). lia. Qed.

(** Forgetting spans that lie below the head. *)
Lemma cover_less hd cs nx l l' :
  (forall s, s ∈ l' -> s ∈ l) -> (forall h, hd < h -> cov h l' = cov h l) -> (forall h, (cov h l' <= cov h l)%nat) ->
  cover_ok hd cs nx l -> cover_ok hd cs nx l'.
Proof.
  intros Hin Heq Hle []. split; try done; auto.
  - intros h. specialize (Hle h). specialize (co_once0 h). lia.
  - intros h Hh. specialize (Hle h). rewrite co_above0 in Hle by done. lia.
  - intros h Hh. rewrite Heq by lia. auto.
Qed.

Lemma cover_drop hd cs nx s l : hi s <= hd -> cover_ok hd cs nx (s :: l) -> cover_ok hd cs nx l.
Proof.
  intros Hs. apply cover_less.
  - set_solver.
  - intros h Hh. rewrite cov_cons, (proj2 (covers_false h s)) by lia. done.
  - intros h. rewrite cov_cons. lia.
Qed.

(** Sending a span back from a height up to which everything is in the queue. *)
Lemma cover_cut hd cs nx s l k : lo s <= k <= hi s -> k <= hd + 1 -> cover_ok hd cs nx (s :: l) -> cover_ok hd cs nx (Span k (hi s) :: l).
Proof.
  intros Hk Hhd HC. pose proof HC as []. split; try done.
  - intros t [->|Ht]%elem_of_cons; [|apply co_wf0; set_solver]. specialize (co_wf0 s ltac:(set_solver)). cbn. lia.
  - intros h. specialize (co_once0 h). rewrite cov_cons in *. destruct (covers h (Span k (hi s))) eqn:E; [|lia].
    apply covers_true in E. cbn in E. rewrite (proj2 (covers_true h s)) in co_once0 by lia. done.
  - intros h Hh. specialize (co_above0 h Hh). rewrite cov_cons in *. destruct (covers h (Span k (hi s))) eqn:E; [|lia].
    apply covers_true in E. cbn in E. rewrite (proj2 (covers_true h s)) in co_above0 by lia. done.
  - intros h Hh. rewrite <- (co_cover0 h Hh), !cov_cons. f_equal. unfold covers. cbn [lo hi].
    destruct (Z.leb_spec k h), (Z.leb_spec (lo s) h); done || lia.
  - intros t [->|Ht]%elem_of_cons; [|apply co_hi0; set_solver]. cbn. apply co_hi0. set_solver.
Qed.

(** Scheduling fresh heights. *)
Lemma cover_add hd cs nx l top :
  nx <= top -> top <= cs + WindowBlocks -> cover_ok hd cs nx l -> cover_ok hd cs (top + 1) (Span nx top :: l).
Proof.
  intros Ht Htop HC. pose proof HC as []. split; try lia.
  - intros t [->|?]%elem_of_cons; [cbn; lia|auto].
  - intros h. rewrite cov_cons. destruct (covers h (Span nx top)) eqn:E; [|specialize (co_once0 h); lia].
    apply covers_true in E. cbn in E. rewrite co_above0 by lia. lia.
  - intros h Hh. rewrite cov_cons, co_above0, (proj2 (covers_false h _)) by (cbn; lia). done.
  - intros h Hh. rewrite cov_cons. destruct (covers h (Span nx top)) eqn:E.
    + apply covers_true in E. cbn in E. rewrite co_above0 by lia. done.
    + apply covers_false in E. cbn in E. rewrite co_cover0 by lia. done.
  - intros t [->|?]%elem_of_cons; [cbn; lia|auto].
Qed.

Lemma cover_skip hd cs nx l nx' : nx <= nx' <= hd + 1 -> cover_ok hd cs nx l -> cover_ok hd cs nx' l.
Proof. intros Hn []. split; try done; try lia; intros; auto with lia. Qed.

Definition numbers (bs : list rawBlock) : list Z := map (fun b => blockNumber (bp b)) bs.

(** A worker's answer has exactly its span's heights: what [fetch_span_exact] shows
    of [fetchSpan] with honest peers. *)
Definition exact (s : span) (bs : list rawBlock) : Prop := numbers bs = seqZ (lo s) (hi s - lo s + 1).

Definition pc_ok (q : Queue) (p : pc) : Prop :=
  match p with
  | PBlocks r bs => exists k, lo (rspan r) <= k <= head q + 1 /\ numbers bs = seqZ k (hi (rspan r) + 1 - k)
  | PAppend r b bs => exists k, lo (rspan r) <= k <= hi (rspan r) /\ k <= head q + 1 /\ numbers (b :: bs) = seqZ k (hi (rspan r) + 1 - k)
  | PConsumed hd => from - 1 <= hd <= head q
  | PTarget c => from - 1 <= c <= consumed q
  | PBytes t => t <= consumed q + WindowBlocks
  | _ => True
  end.

Record finv (f : forward) : Prop := {
  fi_queue : exists s, inv from anchor s (fq f);
  fi_cover : cover_ok (head (fq f)) (consumed (fq f)) (next f) (outstanding f);
  fi_keys k r : pending f !! k = Some r -> k = lo (rspan r);
  fi_results : Forall (fun r => exact (rspan r) (blocks r)) (results f);
  fi_pending : map_Forall (fun _ r => exact (rspan r) (blocks r)) (pending f);
  fi_inflight : inflight f = len (busy f) + len (results f);
  fi_limit : inflight f + (if out f then 1 else 0) <= fetchSpans;
  fi_pc : pc_ok (fq f) (at_ f) }.

Lemma pc_grow q q' p : head q <= head q' -> consumed q <= consumed q' -> pc_ok q p -> pc_ok q' p.
Proof.
  intros Hh Hc. destruct p; cbn [pc_ok]; try done; try lia; intros (k & H).
  - exists k. intuition lia.
  - exists k. intuition lia.
Qed.

(** A step of another party that only moves the queue forward. *)
Lemma finv_queue f q s :
  inv from anchor s q -> head (fq f) <= head q -> consumed (fq f) <= consumed q -> finv f -> finv (with_queue q f).
Proof.
  intros HI Hh Hc []. split; cbn [with_queue fq pending results inflight busy out at_ next redo job]; try done.
  - by exists s.
  - by apply (cover_grow (head (fq f)) (consumed (fq f))).
  - by apply (pc_grow (fq f)).
Qed.

Lemma finv_start tip ceiling : 1 <= from -> from < margin -> finv (StartForward from anchor tip ceiling).
Proof.
  intros Hf Hm. unfold StartForward. rewrite (proj2 (Z.eqb_neq from 0)) by lia. cbn [newQueue Head head].
  assert (E : u64 (from - 1) = from - 1) by (apply u64_small; unfold u64_ok, margin in *; lia).
  pose proof (inv_new from anchor Hf ltac:(lia)) as HI. unfold newQueue in HI |- *. rewrite E in *. rewrite Z.sub_add, (u64_small from) by (unfold u64_ok, margin in *; lia).
  split; cbn [fq pending results inflight busy out at_ next redo job head consumed]; try done.
  - by eexists.
  - unfold outstanding. cbn. split; try done; try lia; try (by intros ? ?%not_elem_of_nil). intros h. rewrite cov_nil. lia.
Qed.

(** The lists of [outstanding] around the ones a step touches. *)
Definition rest_of (f : forward) : list span := redo f ++ (if out f then [job f] else []) ++ busy f ++ (rspan <$> results f).

Lemma outstanding_eq f : outstanding f = rest_of f ++ in_map (pending f) ++ joining (at_ f).
Proof. unfold outstanding, rest_of. by rewrite <- !app_assoc. Qed.

Lemma queue_nowrap s q : inv from anchor s q -> u64 (head q + 1) = head q + 1 /\ u64 (consumed q + WindowBlocks) = consumed q + WindowBlocks.
Proof. intros []. pose proof (len_nonneg (hist s)). split; apply u64_small; unfold u64_ok, margin, WindowBlocks in *; lia. Qed.

Lemma look_ok f order : finv f -> at_ f = PJoin -> finv (look order f).
Proof.
  intros HF Ep. pose proof HF as [[s HI] HC HK HR HP Hi Hl _]. destruct (queue_nowrap s _ HI) as [Eh _]. unfold look, Head. rewrite Eh.
  pose proof (spanned_ok (head (fq f) + 1) order (pending f) None) as Hsp. destruct (spanned _ order (pending f) None) as [m hit].
  destruct Hsp as (Hsub & Heq & Hle & _ & Hhit & _). rewrite outstanding_eq, Ep in HC. cbn [joining] in HC. rewrite app_nil_r in HC.
  assert (HC' : cover_ok (head (fq f)) (consumed (fq f)) (next f) (rest_of f ++ in_map m)).
  { revert HC. apply cover_less.
    - intros t. rewrite !elem_of_app, !elem_in_map. intros [?|(k & r & H & ->)]; [by left|right]. eauto.
    - intros h Hh. rewrite !cov_app, Heq by lia. done.
    - intros h. rewrite !cov_app. specialize (Hle h). lia. }
  assert (HP' : map_Forall (fun _ r => exact (rspan r) (blocks r)) m) by (intros k r H; apply (HP k r); by apply Hsub).
  destruct hit as [r|].
  - destruct Hhit as [?|(k & r' & [= <-] & Hk & Hw)]; [done|]. pose proof (HK _ _ (Hsub _ _ Hk)) as ->.
    split; cbn [with_pc with_pending fq pending results inflight busy out at_ next redo job]; try done.
    + by exists s.
    + rewrite outstanding_eq. cbn [pending at_ joining]. revert HC'. apply cover_perm.
      by rewrite (in_map_delete _ _ _ Hk), Permutation_cons_append.
    + intros k' r' [_ H]%lookup_delete_Some. by apply HK, Hsub.
    + by apply map_Forall_delete.
    + cbn [pc_ok]. exists (lo (rspan r)). specialize (HP' _ _ Hk). unfold exact in HP'. rewrite HP'.
      assert (Hc := co_wf _ _ _ _ HC' (rspan r)). rewrite elem_of_app, elem_in_map in Hc. specialize (Hc (or_intror (ex_intro _ _ (ex_intro _ _ (conj Hk eq_refl))))).
      split; [lia|f_equal; lia].
  - split; cbn [with_pc with_pending fq pending results inflight busy out at_ next redo job]; try done.
    + by exists s.
    + rewrite outstanding_eq. cbn [pending at_ joining]. rewrite app_nil_r. done.
    + intros k r H. by apply HK, Hsub.
Qed.

Lemma join_block_ok f r bs : finv f -> at_ f = PBlocks r bs -> finv (join_block r bs f).
Proof.
  intros HF Ep. pose proof HF as [HQ HC HK HR HP Hi Hl Hpc]. rewrite Ep in Hpc. destruct Hpc as (k & Hk & Hn).
  rewrite outstanding_eq, Ep in HC. cbn [joining] in HC. assert (Hwf := co_wf _ _ _ _ HC (rspan r) ltac:(set_solver)).
  destruct bs as [|b bs]; cbn [join_block]; (split; cbn [with_pc fq pending results inflight busy out at_ next redo job]; try done).
  - rewrite outstanding_eq. cbn [pending at_ joining with_pc]. rewrite app_nil_r. apply (cover_drop _ _ _ (rspan r)).
    + destruct (decide (hi (rspan r) + 1 - k <= 0)); [lia|]. rewrite seqZ_cons in Hn by lia. done.
    + revert HC. apply cover_perm. by rewrite app_assoc, <- Permutation_cons_append.
  - rewrite outstanding_eq. cbn [pending at_ with_pc]. by destruct (_ <=? _).
  - cbn [numbers map] in Hn. destruct (decide (hi (rspan r) + 1 - k <= 0)); [by rewrite seqZ_nil in Hn by lia|]. pose proof Hn as Hn'.
    rewrite seqZ_cons in Hn by lia. injection Hn as Hb Hn. unfold Head. destruct (Z.leb_spec (blockNumber (bp b)) (head (fq f))) as [Hle|Hgt]; cbn [pc_ok].
    + exists (k + 1). split; [lia|]. unfold numbers. rewrite Hn. f_equal; lia.
    + exists k. split_and!; try lia. unfold numbers. cbn [map]. rewrite Hb, Hn, (seqZ_cons k) by lia. done.
Qed.

Lemma join_append_ok f r b bs : finv f -> head (fq f) + 1 < margin -> at_ f = PAppend r b bs -> finv (join_append r b bs f).
Proof.
  intros HF Hm Ep. pose proof HF as [[s HI] HC HK HR HP Hi Hl Hpc]. rewrite Ep in Hpc. destruct Hpc as (k & Hk & Hkh & Hn).
  rewrite outstanding_eq, Ep in HC. cbn [joining] in HC. cbn [numbers map] in Hn. rewrite seqZ_cons in Hn by lia. injection Hn as Hb Hn.
  unfold join_append. destruct (append_seen from anchor s (fq f) (bp b) (braw b) HI Hm) as (s' & HI' & Hc & Hok). destruct (Append _ _ _) as [q ok]. cbn [fst snd] in *.
  destruct ok; [destruct Hok as [Hnum Hh]|subst q];
    (split; cbn [with_pc with_queue fq pending results inflight busy out at_ next redo job]; try done; try by eexists).
  - rewrite outstanding_eq. cbn [with_pc with_queue fq pending results inflight busy out at_ next redo job joining].
    revert HC. apply cover_grow; lia.
  - cbn [pc_ok]. exists (k + 1). split; [lia|]. unfold numbers. rewrite Hn. f_equal; lia.
  - rewrite outstanding_eq. cbn [pending at_ joining]. rewrite app_nil_r. unfold rest_of. cbn [redo out job busy results]. rewrite Hb.
    apply (cover_perm _ _ _ (Span k (hi (rspan r)) :: rest_of f ++ in_map (pending f))).
    + rewrite <- !app_assoc. cbn [app]. unfold rest_of. rewrite <- !app_assoc. by rewrite Permutation_middle.
    + apply cover_cut; [lia|lia|]. revert HC. apply cover_perm. by rewrite app_assoc, <- Permutation_cons_append.
Qed.

Lemma window_ok f hd : finv f -> at_ f = PConsumed hd -> finv (window hd (consumed (fq f)) f).
Proof.
  intros HF Ep. pose proof HF as [[s HI] HC HK HR HP Hi Hl Hpc]. rewrite Ep in Hpc. cbn [pc_ok] in Hpc. pose proof HI as [].
  assert (E : u64 (hd + 1) = hd + 1) by (apply u64_small; unfold u64_ok, margin in *; lia).
  unfold window. split; cbn [fq pending results inflight busy out at_ next redo job]; try done.
  - by exists s.
  - rewrite outstanding_eq, Ep in HC. rewrite outstanding_eq. cbn [pending at_ joining] in *. rewrite E. unfold rest_of in *. cbn [redo out job busy results].
    destruct (Z.leb_spec (next f) hd); [|done]. revert HC. apply cover_skip. lia.
  - cbn [pc_ok]. lia.
Qed.

Lemma choose_ok f t : finv f -> at_ f = PBytes t -> finv (choose t f).
Proof.
  intros HF Ep. pose proof HF as [[s HI] HC HK HR HP Hi Hl Hpc]. rewrite Ep in Hpc. cbn [pc_ok] in Hpc. pose proof HI as [].
  rewrite outstanding_eq, Ep in HC. cbn [joining] in HC. rewrite app_nil_r in HC.
  assert (Hidle : finv (with_pc PSelect f)).
  { split; cbn [with_pc fq pending results inflight busy out at_ next redo job]; try done; [by exists s|]. rewrite outstanding_eq. cbn [pending at_ joining with_pc]. by rewrite app_nil_r. }
  unfold choose. destruct (out f) eqn:Eo; cbn [negb andb]; [done|]. destruct (filling f && _ && _) eqn:Eg; [|done].
  apply andb_true_iff in Eg as [_ Eg]. apply Z.ltb_lt in Eg. destruct (redo f) as [|j rest] eqn:Er.
  - destruct (Z.leb_spec (next f) t) as [Hn|]; [|done]. pose proof (co_next _ _ _ _ HC) as Hnx.
    assert (E1 : u64 (next f + spanBlocks - 1) = next f + spanBlocks - 1) by (apply u64_small; unfold u64_ok, margin, spanBlocks, WindowBlocks in *; lia).
    rewrite E1. set (top := Z.min (next f + spanBlocks - 1) t). cbn [hi].
    assert (E2 : u64 (top + 1) = top + 1) by (apply u64_small; unfold u64_ok, margin, spanBlocks, WindowBlocks in *; lia). rewrite E2.
    split; cbn [fq pending results inflight busy out at_ next redo job]; try done; [by exists s| |lia].
    rewrite outstanding_eq. cbn [pending at_ joining]. rewrite app_nil_r. unfold rest_of in *. cbn [redo out job busy results] in *. rewrite Er, Eo in HC. cbn [app] in *.
    apply cover_add; [unfold spanBlocks in *; lia|lia|done].
  - split; cbn [fq pending results inflight busy out at_ next redo job]; try done; [by exists s| |lia].
    rewrite outstanding_eq. cbn [pending at_ joining]. rewrite app_nil_r. unfold rest_of in *. cbn [redo out job busy results] in *. rewrite Er, Eo in HC. cbn [app] in *.
    revert HC. apply cover_perm. rewrite <- !app_assoc. cbn [app]. rewrite <- !app_assoc. apply Permutation_middle.
Qed.

Lemma loop_ok f order : finv f -> head (fq f) + 1 < margin -> finv (loop_step order f).
Proof.
  intros HF Hm. unfold loop_step. destruct (at_ f) as [|r bs|r b bs| |hd|c|t|] eqn:Ep.
  - by apply look_ok.
  - by apply join_block_ok.
  - by apply join_append_ok.
  - pose proof HF as [[s HI] HC HK HR HP Hi Hl _]. split; cbn [with_pc fq pending results inflight busy out at_ next redo job]; try done; [by exists s|..].
    + rewrite outstanding_eq in *. by rewrite Ep in HC.
    + destruct HI. cbn [pc_ok]. unfold Head. lia.
  - by apply window_ok.
  - pose proof HF as [[s HI] HC HK HR HP Hi Hl Hpc]. rewrite Ep in Hpc. cbn [pc_ok] in Hpc. split; cbn [with_pc fq pending results inflight busy out at_ next redo job]; try done; [by exists s|..].
    + rewrite outstanding_eq in *. by rewrite Ep in HC.
    + cbn [pc_ok]. unfold target_of. rewrite u64_small by (destruct HI; unfold u64_ok, margin, WindowBlocks in *; lia).
      destruct (Z.ltb_spec (c + WindowBlocks) (tipTarget (tip f) (ceiling f))); lia.
  - by apply choose_ok.
  - done.
Qed.

(** The workers' answers along an execution are exact. *)
Definition exact_event (e : event) (f : forward) : Prop :=
  match e with EWork i bs => forall s, busy f !! i = Some s -> exact s bs | _ => True end.

Fixpoint exact_run (es : list event) (f : forward) : Prop :=
  match es with
  | [] => True
  | e :: es => exact_event e f /\ match step e f with Some f => exact_run es f | None => True end
  end.

Lemma hand_ok f : finv f -> out f = true -> at_ f = PSelect ->
  finv (MkForward (fq f) (tip f) (ceiling f) (badLinks f) (next f) (redo f) (pending f) (inflight f + 1) (filling f) (job f) false (busy f ++ [job f]) (results f) PJoin).
Proof.
  intros [HQ HC HK HR HP Hi Hl _] Eo Ep. rewrite Eo in Hl. split; cbn [fq pending results inflight busy out at_ next redo job]; try done; [|lens; lia|lia].
  revert HC. apply cover_perm. unfold outstanding. cbn [fq pending results inflight busy out at_ next redo job joining]. rewrite Eo, Ep. cbn [app joining].
  rewrite <- !app_assoc. f_equiv. cbn [app]. apply Permutation_middle.
Qed.

Lemma receive_ok f r rest : finv f -> at_ f = PSelect -> results f = r :: rest ->
  finv (MkForward (fq f) (tip f) (ceiling f) (badLinks f) (next f) (redo f) (<[lo (rspan r) := r]> (pending f)) (inflight f - 1) (filling f) (job f) (out f) (busy f) rest PJoin).
Proof.
  intros [HQ HC HK HR HP Hi Hl _] Ep Er. rewrite Er in HR, Hi. apply Forall_cons in HR as [Hr HR].
  rewrite outstanding_eq, Ep in HC. cbn [joining] in HC. rewrite app_nil_r in HC. unfold rest_of in HC. rewrite Er in HC. cbn [fmap list_fmap] in HC.
  assert (Hnone : pending f !! lo (rspan r) = None).
  { destruct (pending f !! lo (rspan r)) as [r'|] eqn:E; [|done]. exfalso. pose proof (HK _ _ E) as Hlo.
    assert (H1 := co_wf _ _ _ _ HC (rspan r) ltac:(set_solver)). assert (H2 := co_wf _ _ _ _ HC (rspan r')).
    rewrite elem_of_app, elem_in_map in H2. specialize (H2 (or_intror (ex_intro _ _ (ex_intro _ _ (conj E eq_refl))))).
    pose proof (co_once _ _ _ _ HC (lo (rspan r))) as H. rewrite !cov_app, cov_cons, (cov_delete _ _ _ _ E) in H.
    rewrite (proj2 (covers_true _ (rspan r))), (proj2 (covers_true _ (rspan r'))) in H by lia. lia. }
  split; cbn [fq pending results inflight busy out at_ next redo job]; try done.
  - revert HC. apply cover_perm. unfold outstanding. cbn [fq pending results inflight busy out at_ next redo job joining]. rewrite app_nil_r.
    unfold in_map. rewrite map_to_list_insert by done. cbn [fmap list_fmap]. rewrite <- !app_assoc. do 3 f_equiv. cbn [app]. apply Permutation_middle.
  - intros k r' [[<- <-]|[_ H]]%lookup_insert_Some; [done|by apply HK].
  - by apply map_Forall_insert_2.
  - lens. lia.
  - destruct (out f); lia.
Qed.

Lemma work_ok f i s bs : finv f -> busy f !! i = Some s -> exact s bs ->
  finv (MkForward (fq f) (tip f) (ceiling f) (badLinks f) (next f) (redo f) (pending f) (inflight f) (filling f) (job f) (out f) (delete i (busy f)) (results f ++ [SpanResult s bs]) (at_ f)).
Proof.
  intros [HQ HC HK HR HP Hi Hl Hpc] Eb He. split; cbn [fq pending results inflight busy out at_ next redo job]; try done.
  - revert HC. apply cover_perm. unfold outstanding. cbn [fq pending results inflight busy out at_ next redo job].
    do 2 f_equiv. rewrite fmap_app. cbn [fmap list_fmap rspan]. etransitivity; [apply Permutation_app_tail, (delete_Permutation (busy f) i s Eb)|].
    rewrite <- !app_assoc. cbn [app]. rewrite Permutation_middle. f_equiv. apply Permutation_middle.
  - apply Forall_app. split; [done|by constructor].
  - rewrite Hi. lens. unfold len. pose proof (length_delete (busy f) i ltac:(by eexists)). apply lookup_lt_Some in Eb. lia.
Qed.

Lemma step_ok e f f' : finv f -> head (fq f) + 1 < margin -> exact_event e f -> step e f = Some f' -> finv f' /\ head (fq f') <= head (fq f) + 1.
Proof.
  intros HF Hm He Hs. pose proof (fi_queue f HF) as [s HI]. destruct e as [order| | | |i bs|n|p raw|h]; cbn [step] in Hs.
  - assert (f' = loop_step order f) as -> by (repeat case_match; simplify_eq; done). split; [by apply loop_ok|].
    unfold loop_step, look, join_block, join_append, window, choose.
    destruct (at_ f) as [|r bs|r b bs| |hd|c|t|]; try (cbn; lia).
    + destruct (spanned _ _ _ _) as [m [r|]]; cbn; lia.
    + destruct bs; [cbn; lia|]. by destruct (_ <=? _); cbn; lia.
    + destruct (append_seen from anchor s (fq f) (bp b) (braw b) HI Hm) as (s' & _ & _ & Hok). destruct (Append _ _ _) as [q [|]]; cbn in *; [lia|]. subst. lia.
    + destruct (negb _ && _ && _ && _); [destruct (redo f); [destruct (_ <=? _)|]|]; cbn; lia.
  - destruct (at_ f) eqn:Ep; try done. destruct (out f) eqn:Eo; [|done]. destruct (_ <? _); [|done]. injection Hs as <-. split; [by apply hand_ok|cbn; lia].
  - destruct (at_ f) eqn:Ep; try done. destruct (results f) as [|r rest] eqn:Er; [done|]. injection Hs as <-. split; [by apply receive_ok|cbn; lia].
  - destruct (at_ f) eqn:Ep; try done. injection Hs as <-. split; [|cbn; lia]. destruct HF. split; cbn [with_pc fq pending results inflight busy out at_ next redo job]; try done.
    rewrite outstanding_eq in *. by rewrite Ep in fi_cover0.
  - destruct (busy f !! i) as [sp|] eqn:Eb; [|done]. destruct (_ <? _); [|done]. injection Hs as <-. split; [|cbn; lia]. apply (work_ok f i sp bs); auto.
  - injection Hs as <-. destruct (get_seen from anchor s (fq f) n HI) as (s' & HI' & Hh & Hc). split; [|cbn; lia]. apply (finv_queue f _ s'); try done. lia.
  - injection Hs as <-. destruct (append_seen from anchor s (fq f) p raw HI Hm) as (s' & HI' & Hc & Hok).
    assert (head (fq f) <= head (Append p raw (fq f)).1 <= head (fq f) + 1) by (destruct (Append p raw (fq f)).2; [lia|rewrite Hok; lia]).
    split; [|cbn; lia]. apply (finv_queue f _ s'); try done; lia.
  - injection Hs as <-. split; [|cbn; lia]. destruct HF. by split.
Qed.

Lemma steps_ok es f f' : finv f -> head (fq f) + len es + 1 < margin -> exact_run es f -> steps es f = Some f' -> finv f'.
Proof.
  revert f. induction es as [|e es IH]; intros f HF Hm He Hs; cbn [steps exact_run] in *; [by injection Hs as <-|].
  lens. pose proof (len_nonneg es). destruct He as [He Hes]. destruct (step e f) as [f1|] eqn:E; [|done].
  destruct (step_ok e f f1 HF ltac:(lia) He E) as [HF1 Hh]. apply (IH f1); try done. lia.
Qed.

Lemma reached_ok tip ceiling es f :
  1 <= from -> from + len es + 1 < margin -> exact_run es (StartForward from anchor tip ceiling) ->
  steps es (StartForward from anchor tip ceiling) = Some f -> finv f.
Proof.
  intros Hf Hm He Hs. pose proof (len_nonneg es). apply (steps_ok es (StartForward from anchor tip ceiling)); try done; [apply finv_start; lia|].
  unfold StartForward. rewrite (proj2 (Z.eqb_neq from 0)) by lia. cbn [fq newQueue head]. rewrite u64_small by (unfold u64_ok, margin in *; lia). lia.
Qed.

(** C14: the ascending fetch loses no height. While workers answer with exactly
    their spans, under every interleaving of the loop, the workers, the executor and
    the follower: each height between the queue's head and the next one to schedule
    is covered by exactly one span that is sent back, handed out, at a worker,
    answered, waiting or being joined; none is covered beyond; no span reaches more
    than [WindowBlocks] past the executor's cursor; at most [fetchSpans] spans are in
    flight, so neither the hand-out nor a worker's answer ever blocks; and the queue
    is a hash chain on the anchor throughout. *)
Theorem forward_loses_nothing tip ceiling es f :
  1 <= from -> from + len es + 1 < margin -> exact_run es (StartForward from anchor tip ceiling) ->
  steps es (StartForward from anchor tip ceiling) = Some f ->
  (forall h, head (fq f) < h < next f -> cov h (outstanding f) = 1%nat) /\
  (forall h, next f <= h -> cov h (outstanding f) = 0%nat) /\
  (forall s, s ∈ outstanding f -> lo s <= hi s <= consumed (fq f) + WindowBlocks) /\
  len (busy f) + len (results f) + (if out f then 1 else 0) <= fetchSpans /\
  (exists l, linked from anchor l /\ head (fq f) = from - 1 + len l /\ headHash (fq f) = tip_hash anchor l).
Proof.
  intros Hf Hm He Hs. destruct (reached_ok _ _ _ _ Hf Hm He Hs) as [[s HI] HC _ _ _ Hi Hl _]. pose proof HC as []. destruct HI. split_and!; try done; try lia.
  - intros t Ht. specialize (co_wf0 t Ht). specialize (co_hi0 t Ht). lia.
  - by exists (hist s).
Qed.

Lemma covered_in_map h m : cov h (in_map m) <> 0%nat -> exists k r, m !! k = Some r /\ lo (rspan r) <= h <= hi (rspan r).
Proof.
  intros Hc. assert (exists s, s ∈ in_map m /\ covers h s = true) as (s & Hs & Hcov).
  { unfold cov in Hc. destruct (List.filter (covers h) (in_map m)) as [|s l] eqn:E; [done|]. exists s.
    assert (In s (List.filter (covers h) (in_map m))) as H by (rewrite E; by left). apply filter_In in H as [? ?]. split; [by apply list_elem_of_In|done]. }
  apply elem_in_map in Hs as (k & r & Hk & ->). exists k, r. split; [done|]. by apply covers_true.
Qed.

(** A round of the loop from its top to the select, with no one interfering. *)
Definition round (f : forward) : list event := [ELoop (map_to_list (pending f)).*1; ELoop []; ELoop []; ELoop []; ELoop []].

(** The state a round ends in, once no waiting span covers the next height. *)
Definition after_round (m : gmap Z spanResult) (f : forward) : forward :=
  let w := window (head (fq f)) (consumed (fq f)) (with_pc (PConsumed (head (fq f))) (with_pc PHead (with_pending m f))) in
  choose (target_of (consumed (fq f)) w) (with_pc (PBytes (target_of (consumed (fq f)) w)) w).

Lemma round_steps f m : at_ f = PJoin -> spanned (u64 (head (fq f) + 1)) (map_to_list (pending f)).*1 (pending f) None = (m, None) ->
  steps (round f) f = Some (after_round m f).
Proof.
  intros Ep Es. unfold round. cbn [steps].
  assert (E1 : step (ELoop (map_to_list (pending f)).*1) f = Some (with_pc PHead (with_pending m f))).
  { cbn [step]. rewrite Ep, bool_decide_eq_true_2 by done. unfold loop_step. rewrite Ep. unfold look, Head. by rewrite Es. }
  rewrite E1. set (f1 := with_pc PHead (with_pending m f)).
  change (step (ELoop []) f1) with (Some (with_pc (PConsumed (head (fq f))) f1)). cbv beta iota. set (f2 := with_pc (PConsumed _) f1).
  change (step (ELoop []) f2) with (Some (window (head (fq f)) (consumed (fq f)) f2)). cbv beta iota. unfold after_round. fold f1 f2. cbv zeta.
  set (f3 := window _ _ f2). change (step (ELoop []) f3) with (Some (with_pc (PBytes (target_of (consumed (fq f)) f3)) f3)). cbv beta iota.
  reflexivity.
Qed.


End Inv.

(** ** Concrete executions *)

(** The loop to its select, or one event. *)
Inductive cmd := CLoop | CDo (e : event).

Fixpoint to_select (fuel : nat) (f : forward) : list event * forward :=
  match fuel, at_ f with
  | O, _ | _, PSelect => ([], f)
  | S fuel, _ =>
      let e := ELoop (map_to_list (pending f)).*1 in
      match step e f with
      | Some f => let (es, f) := to_select fuel f in (e :: es, f)
      | None => ([], f)
      end
  end.

Fixpoint script (cs : list cmd) (f : forward) : option (list event * forward) :=
  match cs with
  | [] => Some ([], f)
  | CLoop :: cs => let (es, f) := to_select 10000 f in
                   match script cs f with Some (es', f) => Some (es ++ es', f) | None => None end
  | CDo e :: cs => match step e f with
                   | Some f => match script cs f with Some (es, f) => Some (e :: es, f) | None => None end
                   | None => None
                   end
  end.

Lemma steps_app es es' f : steps (es ++ es') f = match steps es f with Some f => steps es' f | None => None end.
Proof. revert f. induction es as [|e es IH]; intros f; cbn [steps app]; [done|]. destruct (step e f); [apply IH|done]. Qed.

Lemma to_select_steps fuel f : steps (to_select fuel f).1 f = Some (to_select fuel f).2.
Proof.
  revert f. induction fuel as [|fuel IH]; intros f; cbn [to_select]; [done|]. destruct (at_ f) eqn:Ep; try done;
  (destruct (step (ELoop (map_to_list (pending f)).*1) f) as [f1|] eqn:E; [|done]; specialize (IH f1); destruct (to_select fuel f1) as [es f2]; cbn [fst snd steps] in *; by rewrite E).
Qed.

Lemma script_steps cs f es f' : script cs f = Some (es, f') -> steps es f = Some f'.
Proof.
  revert f es. induction cs as [|[|e] cs IH]; intros f es; cbn [script]; [by intros [= <- <-]|..].
  - pose proof (to_select_steps 10000 f) as Ht. destruct (to_select 10000 f) as [es1 f1]. cbn [fst snd] in Ht.
    destruct (script cs f1) as [[es2 f2]|] eqn:E; [|done]. intros [= <- <-]. rewrite steps_app, Ht. by apply IH.
  - destruct (step e f) as [f1|] eqn:Es; [|done]. destruct (script cs f1) as [[es2 f2]|] eqn:E; [|done]. intros [= <- <-]. cbn [steps]. rewrite Es. by apply IH.
Qed.

(** The heights [n..m], as a linear test. *)
Fixpoint upb (n m : Z) (bs : list rawBlock) : bool :=
  match bs with
  | [] => m <? n
  | b :: bs => (n <=? m) && (blockNumber (bp b) =? n) && upb (n + 1) m bs
  end.

Lemma upb_ok n m bs : upb n m bs = true -> numbers bs = seqZ n (m - n + 1).
Proof.
  revert n. induction bs as [|b bs IH]; intros n; cbn [upb numbers map].
  - intros H%Z.ltb_lt. by rewrite seqZ_nil by lia.
  - rewrite !andb_true_iff, Z.leb_le, Z.eqb_eq. intros [[Hn ->] H]. rewrite seqZ_cons by lia. f_equal. etransitivity; [exact (IH (n + 1) H)|]. f_equal; lia.
Qed.

Definition exact_eventb (e : event) (f : forward) : bool :=
  match e with
  | EWork i bs => match busy f !! i with Some s => upb (lo s) (hi s) bs | None => true end
  | _ => true
  end.

Fixpoint exact_runb (es : list event) (f : forward) : bool :=
  match es with
  | [] => true
  | e :: es => exact_eventb e f && match step e f with Some f => exact_runb es f | None => true end
  end.

Lemma exact_runb_ok es f : exact_runb es f = true -> exact_run es f.
Proof.
  revert f. induction es as [|e es IH]; intros f; cbn [exact_runb exact_run]; [done|]. intros [He Hes]%andb_true_iff. split.
  - destruct e; try done. cbn [exact_event exact_eventb] in *. intros s Hs. rewrite Hs in He. by apply (upb_ok (lo s) (hi s)).
  - destruct (step e f); [by apply IH|done].
Qed.

(** Block [n] of one honest chain. *)
Fixpoint bits (p : positive) : list Z := match p with xH => [1] | xO p => 0 :: bits p | xI p => 1 :: bits p end.
Definition id_of (n : Z) : ID := match n with Zpos p => bits p | _ => [] end.
Definition honest_block (n : Z) : rawBlock := RawBlock (Parsed (id_of n) n (255 :: id_of n) (id_of (n - 1)) (255 :: id_of (n - 1)) 0) (id_of n).
Fixpoint blocks_up (n : Z) (k : nat) : list rawBlock :=
  match k with O => [] | S k => honest_block n :: blocks_up (n + 1) k end.
Definition honest_blocks (s : span) : list rawBlock := blocks_up (lo s) (Z.to_nat (hi s - lo s + 1)).
Definition genesis_hash : ID := 255 :: id_of 0.

(** *** A broken link at a full window *)

Definition nth_span (k : Z) : span := Span (1 + spanBlocks * k) (Z.min (spanBlocks * (k + 1)) WindowBlocks).

(** The first span, whose first block names another parent. *)
Definition lying_blocks : list rawBlock :=
  match honest_blocks (nth_span 0) with
  | b :: bs => RawBlock (Parsed (containerID (bp b)) 1 (blockHash (bp b)) (parentID (bp b)) [0] 0) (braw b) :: bs
  | [] => []
  end.

(** Sixteen spans go out; the workers of all but the first answer, and the window
    fills; then the first answer comes, and does not link. *)
Definition wedge_script : list cmd :=
  concat (replicate 16 [CLoop; CDo EHand]) ++
  concat ((fun k => [CLoop; CDo (EWork 1 (honest_blocks (nth_span k))); CDo EReceive; CLoop; CDo EHand]) <$> seqZ 1 9) ++
  concat ((fun k => [CLoop; CDo (EWork 1 (honest_blocks (nth_span k))); CDo EReceive]) <$> seqZ 10 15) ++
  [CLoop; CDo (EWork 0 lying_blocks); CDo EReceive; CLoop].

Definition wedge_start : forward := StartForward 1 genesis_hash 200000 0.

Definition wedgedb (f : forward) : bool :=
  (consumed (fq f) =? 0) && (head (fq f) =? 0) && (next f =? 100001) && bool_decide (redo f = [Span 1 4096]) && negb (out f) &&
  (len (busy f) =? 0) && (len (results f) =? 0) && (tip f =? 200000) && (ceiling f =? 0) && bool_decide (size (pending f) = 24%nat) &&
  forallb (fun kr => 1 <? kr.1) (map_to_list (pending f)) && match at_ f with PSelect => true | _ => false end.

(** A script runs, with exact answers, into a state that passes the test. *)
Definition reaches (cs : list cmd) (f0 : forward) (test : forward -> bool) : bool :=
  match script cs f0 with Some (es, f) => exact_runb es f0 && test f && (len es <? 1000) | None => false end.

Lemma reaches_ok cs f0 test :
  reaches cs f0 test = true -> exists es f, exact_run es f0 /\ steps es f0 = Some f /\ test f = true /\ len es < 1000.
Proof.
  unfold reaches. destruct (script cs f0) as [[es f]|] eqn:Es; [|done]. rewrite !andb_true_iff, Z.ltb_lt. intros [[He Ht] Hl].
  exists es, f. split_and!; try done; [by apply exact_runb_ok|by apply script_steps in Es].
Qed.

Lemma wedge_reached : reaches wedge_script wedge_start wedgedb = true.
Proof. by vm_compute. Qed.

(** The cursor is at the head, the window is full and the next height was sent back. *)
Record wedged (q : Queue) (rd : list span) (f : forward) : Prop := {
  we_queue : fq f = q;
  we_inv : exists s, inv 1 genesis_hash s q;
  we_cursor : consumed q = head q;
  we_next : next f = head q + WindowBlocks + 1;
  we_redo : redo f = rd;
  we_out : out f = false;
  we_busy : busy f = [];
  we_results : results f = [];
  we_pending k r : pending f !! k = Some r -> head q + 1 < k;
  we_pc : match at_ f with
          | PBlocks _ _ | PAppend _ _ _ => False
          | PConsumed hd => hd = head q
          | PTarget _ | PBytes _ => filling f = false
          | _ => True
          end }.

Lemma wedged_step q rd e f f' :
  (match e with EOffer p _ => blockNumber p <> head q + 1 | _ => True end) -> wedged q rd f -> step e f = Some f' -> wedged q rd f'.
Proof.
  intros He [Eq [s HI] Ecur Enx Erd Eo Eb Er Hp Hpc] Hs. destruct (queue_nowrap 1 genesis_hash s _ HI) as [E1 E2]. pose proof (inv_consumed _ _ _ _ HI) as Hcons.
  destruct e as [order| | | |i bs|n|p raw|h]; cbn [step] in Hs.
  - assert (f' = loop_step order f) as -> by (repeat case_match; simplify_eq; done). unfold loop_step.
    destruct (at_ f) as [|r bs|r b bs| |hd|c|t|] eqn:Ep; try done.
    + unfold look, Head. rewrite Eq, E1. pose proof (spanned_ok (head q + 1) order (pending f) None) as H. destruct (spanned _ order _ None) as [m hit].
      destruct H as (Hsub & _ & _ & _ & [->|(k & r & -> & Hk & Hw)] & _); [|apply Hsub, Hp in Hk; lia].
      split; try done; [by exists s|]. intros k r H. by apply (Hp k r), Hsub.
    + split; try done; [by exists s|]. cbn. by rewrite Eq.
    + subst hd. unfold window, Consumed. rewrite Eq, Enx. split; try done; cbn [fq next redo out busy results pending at_ filling]; [by exists s|..].
      * destruct (Z.leb_spec (head q + WindowBlocks + 1) (head q)); unfold WindowBlocks in *; lia.
      * rewrite E2, Ecur. destruct (Z.leb_spec (head q + WindowBlocks + 1) (head q)); [unfold WindowBlocks in *; lia|].
        by rewrite (proj2 (Z.ltb_lt _ _)) by lia.
    + split; try done. by exists s.
    + unfold choose. rewrite Hpc, andb_false_r. cbn [andb]. split; try done. by exists s.
  - destruct (at_ f); try done. by rewrite Eo in Hs.
  - destruct (at_ f); try done. by rewrite Er in Hs.
  - destruct (at_ f); try done. injection Hs as <-. split; try done. by exists s.
  - by rewrite Eb in Hs.
  - injection Hs as <-. assert (Hq : (GetByHeight n (fq f)).1 = q).
    { unfold GetByHeight. rewrite Eq. destruct (blk q !! n) as [raw|] eqn:Ek; [|done]. cbn [fst]. rewrite (proj2 (Z.ltb_ge _ _)); [done|].
      rewrite (inv_blk _ _ _ _ HI) in Ek. case_decide; [|done]. destruct (hist s !! _) as [pr|] eqn:El; [|done]. apply lookup_lt_Some in El.
      pose proof (inv_head _ _ _ _ HI) as Hh. unfold len in Hh. lia. }
    split; cbn [with_queue fq next redo out busy results pending at_ filling]; try done. by exists s.
  - injection Hs as <-. assert (Hq : (Append p raw (fq f)).1 = q).
    { unfold Append. rewrite Eq, E1. by rewrite (proj2 (Z.eqb_neq _ _) He). }
    split; cbn [with_queue fq next redo out busy results pending at_ filling]; try done. by exists s.
  - injection Hs as <-. split; try done. by exists s.
Qed.

Lemma wedged_steps q rd es f f' :
  Forall (fun e => match e with EOffer p _ => blockNumber p <> head q + 1 | _ => True end) es -> wedged q rd f -> steps es f = Some f' -> wedged q rd f'.
Proof.
  revert f. induction es as [|e es IH]; intros f He HW Hs; cbn [steps] in Hs; [by injection Hs as <-|]. apply Forall_cons in He as [He Hes].
  destruct (step e f) as [f1|] eqn:E; [|done]. apply (IH f1); try done. by apply (wedged_step q rd e f).
Qed.

(** C38: a broken link at a full window stops the fetch for good. There is an
    execution in which every worker answers with exactly its span, the executor has
    taken everything below the head, and the first span does not link when it
    arrives after the rest of the window: from then on, whatever the workers, the
    executor, the ticks and the reported tips do, the span sent back is never handed
    out again and the head never moves (until some other party delivers the very
    next block). The spans that wait number 24, more than the workers. *)
Theorem forward_wedges :
  exists es f, exact_run es wedge_start /\ steps es wedge_start = Some f /\ head (fq f) < tipTarget (tip f) (ceiling f) /\
    redo f = [nth_span 0] /\ Z.of_nat (size (pending f)) = 24 /\
    forall es' f', Forall (fun e => match e with EOffer p _ => blockNumber p <> head (fq f) + 1 | _ => True end) es' -> steps es' f = Some f' ->
      head (fq f') = head (fq f) /\ busy f' = [] /\ redo f' = [nth_span 0].
Proof.
  destruct (reaches_ok _ _ _ wedge_reached) as (es & f & He & Es & Hw & Hlen).
  pose proof (reached_ok 1 genesis_hash 200000 0 es f ltac:(lia) ltac:(unfold margin; lia) He Es) as HF.
  unfold wedgedb in Hw. rewrite !andb_true_iff, !Z.eqb_eq, !bool_decide_eq_true, negb_true_iff in Hw.
  destruct Hw as [[[[[[[[[[[Hc Hh] Hn] Hrd] Ho] Hb] Hr] Ht] Hce] Hsz] Hp] Hpc].
  exists es, f. split_and!; try done.
  - rewrite Hh, Ht, Hce. done.
  - by rewrite Hsz.
  - intros es' f' Hes Hs'. assert (HW : wedged (fq f) [nth_span 0] f).
    { split; try done; [by destruct HF|lia|unfold WindowBlocks; lia| | | |].
      - destruct (busy f); [done|]. rewrite len_cons in Hb. pose proof (len_nonneg l). lia.
      - destruct (results f); [done|]. rewrite len_cons in Hr. pose proof (len_nonneg l). lia.
      - intros k r Hk. rewrite forallb_forall in Hp. specialize (Hp (k, r)). cbn in Hp. rewrite Hh. apply Z.ltb_lt, Hp.
        apply list_elem_of_In. by apply elem_of_map_to_list.
      - by destruct (at_ f). }
    destruct (wedged_steps _ _ _ _ _ Hes HW Hs') as []. by rewrite we_queue0.
Qed.

(** *** Heights a peer's numbers hide *)

(** The next height is neither scheduled again nor in anyone's hands. *)
Record stuck (h : Z) (f : forward) : Prop := {
  st_queue : exists s, inv 1 genesis_hash s (fq f);
  st_head : head (fq f) + 1 = h;
  st_next : h < next f;
  st_none s : s ∈ outstanding f -> covers h s = false;
  st_keys k r : pending f !! k = Some r -> k = lo (rspan r);
  st_pc : match at_ f with
          | PBlocks _ _ | PAppend _ _ _ => False
          | PConsumed hd => hd <= head (fq f)
          | PTarget c => 0 <= c <= consumed (fq f)
          | PBytes t => t <= consumed (fq f) + WindowBlocks
          | _ => True
          end }.

Lemma stuck_loop h f order : stuck h f -> stuck h (loop_step order f).
Proof.
  intros [[s HI] Hh Hn Hnone HK Hpc]. destruct (queue_nowrap 1 genesis_hash s _ HI) as [E1 E2]. pose proof HI as [].
  unfold loop_step. destruct (at_ f) as [|r bs|r b bs| |hd|c|t|] eqn:Ep; try done.
  - unfold look, Head. rewrite E1. pose proof (spanned_ok (head (fq f) + 1) order (pending f) None) as H. destruct (spanned _ order _ None) as [m hit].
    destruct H as (Hsub & _ & _ & _ & [->|(k & r & -> & Hk & Hw)] & _).
    + split; try done; cbn [with_pc with_pending with_queue fq next pending at_]; [by exists s| |intros k r Hk; by apply HK, Hsub]. intros sp Hsp. apply Hnone. rewrite !outstanding_eq, ?Ep in *. cbn [joining pending at_ with_pc with_pending] in *.
      rewrite !elem_of_app, !elem_in_map in *. destruct Hsp as [?|[(k & r & Hk & ->)|?]]; [by left|right; left; eauto|by right; right].
    + exfalso. apply Hsub in Hk. assert (covers h (rspan r) = false) as Hc.
      { apply Hnone. rewrite outstanding_eq, !elem_of_app, elem_in_map. right. left. eauto. }
      apply HK in Hk as ->. apply covers_false in Hc. lia.
  - split; try done; cbn [with_pc with_pending with_queue fq next pending at_]; [by exists s| |unfold Head; lia]. intros sp Hsp. apply Hnone. rewrite outstanding_eq, ?Ep in *. done.
  - unfold window, Consumed. split; try done; cbn [fq next pending at_]; [by exists s| | |lia].
    + destruct (Z.leb_spec (next f) hd); lia.
    + intros sp Hsp. apply Hnone. rewrite outstanding_eq, ?Ep in *. done.
  - split; try done; cbn [with_pc fq next pending at_]; [by exists s|..].
    + intros sp Hsp. apply Hnone. rewrite outstanding_eq, ?Ep in *. done.
    + unfold target_of. rewrite u64_small by (unfold u64_ok, margin, WindowBlocks in *; lia). destruct (Z.ltb_spec (c + WindowBlocks) (tipTarget (tip f) (ceiling f))); lia.
  - assert (Hsame : stuck h (with_pc PSelect f)).
    { split; try done; [by exists s|]. intros sp Hsp. apply Hnone. rewrite outstanding_eq, ?Ep in *. done. }
    unfold choose. destruct (out f) eqn:Eo; [done|]. cbn [negb andb]. destruct (_ && _); [|done]. unfold outstanding in Hnone. rewrite Eo, Ep in Hnone. cbn [joining] in Hnone.
    destruct (redo f) as [|j rest] eqn:Er.
    + destruct (Z.leb_spec (next f) t) as [Hle|]; [|done]. pose proof (len_nonneg (hist s)).
      assert (E3 : u64 (next f + spanBlocks - 1) = next f + spanBlocks - 1) by (apply u64_small; unfold u64_ok, margin, spanBlocks, WindowBlocks in *; lia).
      rewrite E3. cbn [hi]. rewrite (u64_small (_ + 1)) by (unfold u64_ok, margin, spanBlocks, WindowBlocks in *; lia).
      split; cbn [fq next pending at_]; try done; [by exists s|unfold spanBlocks; lia|]. unfold outstanding. cbn [redo out job busy results pending at_ joining app].
      intros sp [->|Hsp]%elem_of_cons; [apply covers_false; cbn; lia|by apply Hnone].
    + split; cbn [fq next pending at_]; try done; [by exists s|]. unfold outstanding. cbn [redo out job busy results pending at_ joining]. intros sp Hsp. apply Hnone. cbn [app]. set_solver.
  - split; try done; [by exists s|]. by rewrite Ep.
Qed.

Lemma stuck_step h e f f' :
  (match e with EOffer p _ => blockNumber p <> h | _ => True end) -> stuck h f -> step e f = Some f' -> stuck h f'.
Proof.
  intros He HS Hs. pose proof HS as [[s HI] Hh Hn Hnone HK Hpc]. destruct (queue_nowrap 1 genesis_hash s _ HI) as [E1 _].
  destruct e as [order| | | |i bs|n|p raw|t]; cbn [step] in Hs.
  - assert (f' = loop_step order f) as -> by (repeat case_match; simplify_eq; done). by apply stuck_loop.
  - destruct (at_ f) eqn:Ep; try done. destruct (out f) eqn:Eo; [|done]. destruct (_ <? _); [|done]. injection Hs as <-. split; cbn [with_pc with_pending with_queue fq next pending at_]; try done; [by exists s|].
    unfold outstanding in *. rewrite Eo, Ep in Hnone. cbn [redo out job busy results pending at_ joining]. intros sp Hsp. apply Hnone. set_solver.
  - destruct (at_ f) eqn:Ep; try done. destruct (results f) as [|r rest] eqn:Er; [done|]. injection Hs as <-. split; cbn [with_pc with_pending with_queue fq next pending at_]; try done; [by exists s|..].
    + rewrite outstanding_eq, Ep in Hnone. unfold rest_of in Hnone. rewrite Er in Hnone. intros sp Hsp. apply Hnone. rewrite outstanding_eq in Hsp.
      unfold rest_of in Hsp. cbn [redo out job busy results pending at_ joining fmap list_fmap] in *. rewrite !elem_of_app, elem_of_cons, elem_in_map in *.
      destruct Hsp as [?|[(k & r' & [[<- <-]|[_ Hk]]%lookup_insert_Some & ->)|?]]; [naive_solver|naive_solver|right; left; eauto|naive_solver].
    + intros k r' [[<- <-]|[_ Hk]]%lookup_insert_Some; [done|by apply HK].
  - destruct (at_ f) eqn:Ep; try done. injection Hs as <-. split; cbn [with_pc with_pending with_queue fq next pending at_]; try done; [by exists s|]. intros sp Hsp. apply Hnone. rewrite outstanding_eq, ?Ep in *. done.
  - destruct (busy f !! i) as [sp|] eqn:Eb; [|done]. destruct (_ <? _); [|done]. injection Hs as <-. split; cbn [with_pc with_pending with_queue fq next pending at_]; try done; [by exists s|].
    unfold outstanding in *. cbn [redo out job busy results pending at_]. intros sp' Hsp. apply Hnone. rewrite fmap_app in Hsp. cbn [fmap list_fmap rspan] in Hsp.
    assert (Hd : busy f ≡ₚ sp :: delete i (busy f)) by (by apply delete_Permutation). rewrite Hd. set_solver.
  - injection Hs as <-. destruct (get_seen 1 genesis_hash s (fq f) n HI) as (s' & HI' & Eh & Hc). split; cbn [with_queue fq next pending at_]; try done; [by exists s'|lia|].
    destruct (at_ f); try done; lia.
  - injection Hs as <-. assert (Hq : (Append p raw (fq f)).1 = fq f) by (unfold Append; rewrite E1, (proj2 (Z.eqb_neq _ _)) by lia; done).
    rewrite Hq. split; cbn [with_queue fq next pending at_]; try done. by exists s.
  - injection Hs as <-. split; cbn [with_pc with_pending with_queue fq next pending at_]; try done. by exists s.
Qed.

Lemma stuck_steps h es f f' :
  Forall (fun e => match e with EOffer p _ => blockNumber p <> h | _ => True end) es -> stuck h f -> steps es f = Some f' -> stuck h f'.
Proof.
  revert f. induction es as [|e es IH]; intros f He HS Hs; cbn [steps] in Hs; [by injection Hs as <-|]. apply Forall_cons in He as [He Hes].
  destruct (step e f) as [f1|] eqn:E; [|done]. apply (IH f1); try done. by apply (stuck_step h e f).
Qed.

(** Containers of peers that lie about heights: one at 10 whose parent is the
    genuine block 1; one at 10 whose parent says 110 and whose grandparent is the
    genuine block 1; and the genesis container, answered for with another one. *)
Definition fake (id : Z) (n : Z) (parent : ID) : parsedContainer := Parsed [id] n [id; id] parent [id; 9] 0.
Definition liar_parse (raw : bytes) : res parsedContainer :=
  if bool_decide (raw = [1]) then Ok (bp (honest_block 1))
  else if bool_decide (raw = [10]) then Ok (fake 10 10 [1])
  else if bool_decide (raw = [11]) then Ok (fake 11 10 [110])
  else if bool_decide (raw = [110]) then Ok (fake 110 110 [1])
  else if bool_decide (raw = [7]) then Ok (fake 7 0 [])
  else Err "decode".
Definition gap_ask (_ : nat) (_ : ID) : option (list bytes) := Some [[10]; [1]].
Definition above_ask (_ : nat) (_ : ID) : option (list bytes) := Some [[11]; [110]; [1]].
Definition other_ask (i : nat) (_ : ID) : option (list bytes) := match i with O => Some [[10]] | _ => Some [[7]] end.

Definition gap_blocks : list rawBlock := [RawBlock (bp (honest_block 1)) [1]; RawBlock (fake 10 10 [1]) [10]].
Definition above_blocks : list rawBlock := [RawBlock (bp (honest_block 1)) [1]; RawBlock (fake 110 110 [1]) [110]; RawBlock (fake 11 10 [110]) [11]].

Definition lie_start : forward := StartForward 1 genesis_hash 10 0.
Definition lie_script (bs : list rawBlock) : list cmd := [CLoop; CDo EHand; CLoop; CDo (EWork 0 bs); CDo EReceive; CLoop].

(** The state a script ends in, with no condition on the answers. *)
Definition ends (cs : list cmd) (f0 : forward) (test : forward -> bool) : bool :=
  match script cs f0 with Some (_, f) => test f | None => false end.

Lemma ends_ok cs f0 test : ends cs f0 test = true -> exists es f, steps es f0 = Some f /\ test f = true.
Proof. unfold ends. destruct (script cs f0) as [[es f]|] eqn:E; [|done]. intros H. apply script_steps in E. by exists es, f. Qed.

(** The queue with its accepted blocks, in the form the invariant asks for. *)
Definition queue_after (bs : list rawBlock) : Queue := foldl (fun q b => (Append (bp b) (braw b) q).1) (newQueue 1 genesis_hash) bs.

Lemma queue_after_inv bs : len bs < 1000 -> exists s, inv 1 genesis_hash s (queue_after bs) /\ head (queue_after bs) <= len bs.
Proof.
  induction bs as [|b bs IH] using rev_ind; intros Hl.
  - eexists. split; [apply inv_new; unfold margin; lia|done].
  - lens. unfold queue_after in *. rewrite foldl_app. destruct IH as (s & HI & Hh); [lia|]. cbn [foldl].
    destruct (append_seen 1 genesis_hash s _ (bp b) (braw b) HI) as (s' & HI' & _ & Hok); [unfold margin; lia|]. exists s'. split; [done|].
    destruct (Append _ _ _) as [q [|]]; cbn [fst snd] in *; [lia|]. subst. lia.
Qed.

Definition stuckb (acc : list rawBlock) (h : Z) (f : forward) : bool :=
  bool_decide (blk (fq f) = blk (queue_after acc)) && (head (fq f) =? head (queue_after acc)) && bool_decide (headHash (fq f) = headHash (queue_after acc)) &&
  (low (fq f) =? low (queue_after acc)) && (consumed (fq f) =? consumed (queue_after acc)) && (qbytes (fq f) =? qbytes (queue_after acc)) &&
  (peak (fq f) =? peak (queue_after acc)) && Bool.eqb (closed (fq f)) (closed (queue_after acc)) &&
  (head (fq f) + 1 =? h) && (next f =? 11) && forallb (fun s => negb (covers h s)) (outstanding f) &&
  forallb (fun kr => kr.1 =? lo (rspan kr.2)) (map_to_list (pending f)) && match at_ f with PSelect => true | _ => false end.

Lemma stuckb_ok acc h f : len acc < 1000 -> h < 11 -> stuckb acc h f = true -> stuck h f /\ next f = 11.
Proof.
  intros Hl Hh. unfold stuckb. rewrite !andb_true_iff, !Z.eqb_eq, !bool_decide_eq_true, eqb_true_iff, !forallb_forall.
  intros [[[[[[[[[[[[E1 E2] E3] E4] E5] E6] E7] E8] Eh] En] Hnone] HK] Hpc]. destruct (queue_after_inv acc Hl) as (s & HI & _). split; [|done]. split; try lia.
  - exists s. assert (fq f = queue_after acc) as ->; [|done]. destruct (fq f), (queue_after acc). cbn in *. by subst.
  - intros sp Hsp. apply negb_true_iff, Hnone. by apply list_elem_of_In.
  - intros k r Hk. specialize (HK (k, r)). rewrite Z.eqb_eq in HK. cbn in HK. apply HK, list_elem_of_In. by apply elem_of_map_to_list.
  - by destruct (at_ f).
Qed.

(** a peer that lies about heights hides heights for good. [fetchSpan] accepts
    an answer whose numbers skip from 10 to 1, and one for another container than the
    id it asked for, which leaves it an empty span. Either answer ends with the
    heights below 10 neither in the queue nor in any outstanding span, the span sent
    back beginning at the offending block; and from then on, whatever the parties do,
    the head does not move until someone else delivers the very next block. *)
Theorem forward_lies_stall :
  fetchSpan liar_parse gap_ask 1 [[[10]]] (Span 1 10) = Done (SpanResult (Span 1 10) gap_blocks) /\
  fetchSpan liar_parse other_ask 1 [[[7]]] (Span 1 10) = Done (SpanResult (Span 1 10) []) /\
  forall bs, bs ∈ [gap_blocks; []] -> exists es f, steps es lie_start = Some f /\ next f = 11 /\
    (forall s, s ∈ outstanding f -> covers (head (fq f) + 1) s = false) /\
    forall es' f', Forall (fun e => match e with EOffer p _ => blockNumber p <> head (fq f) + 1 | _ => True end) es' ->
      steps es' f = Some f' -> head (fq f') = head (fq f).
Proof.
  split; [by vm_compute|split; [by vm_compute|]]. intros bs Hbs.
  assert (exists es f h, steps es lie_start = Some f /\ stuck h f /\ next f = 11) as (es & f & h & Es & HS & En).
  { apply elem_of_cons in Hbs as [->| ->%list_elem_of_singleton].
    - destruct (ends_ok (lie_script gap_blocks) lie_start (stuckb [RawBlock (bp (honest_block 1)) [1]] 2)) as (es & f & Es & Ht); [by vm_compute|].
      apply stuckb_ok in Ht; [|done|lia]. by exists es, f, 2.
    - destruct (ends_ok (lie_script []) lie_start (stuckb [] 1)) as (es & f & Es & Ht); [by vm_compute|].
      apply stuckb_ok in Ht; [|done|lia]. by exists es, f, 1. }
  pose proof (st_head _ _ HS) as Hh. exists es, f. split_and!; try done.
  - rewrite Hh. apply HS.
  - rewrite Hh. intros es' f' Hes Hs. pose proof (st_head _ _ (stuck_steps h es' f f' Hes HS Hs)). lia.
Qed.


(** *** Witnesses *)

(** One span of ten blocks comes back; the executor takes two. *)
Definition sample_script : list cmd :=
  [CLoop; CDo EHand; CLoop; CDo (EWork 0 (honest_blocks (Span 1 10))); CDo EReceive; CLoop; CDo (EGet 1); CDo (EGet 2); CDo ETick].
Definition sample_test (f : forward) : bool := (head (fq f) =? 10) && (consumed (fq f) =? 2) && (next f =? 11).
Lemma sample_reached : reaches sample_script (StartForward 1 genesis_hash 10 0) sample_test = true.
Proof. by vm_compute. Qed.

Lemma forward_loses_nothing_witness :
  exists es f, steps es (StartForward 1 genesis_hash 10 0) = Some f /\ head (fq f) = 10 /\ (forall h, 11 <= h -> cov h (outstanding f) = 0%nat).
Proof.
  destruct (reaches_ok _ _ _ sample_reached) as (es & f & He & Es & Ht & Hl). unfold sample_test in Ht. rewrite !andb_true_iff, !Z.eqb_eq in Ht. destruct Ht as [[Hh Hc] Hn].
  destruct (forward_loses_nothing 1 genesis_hash 10 0 es f ltac:(lia) ltac:(unfold margin; lia) He Es) as (_ & Ha & _). exists es, f. split_and!; try done. by rewrite Hn in Ha.
Defined.


End Forward.
