(* ===== verification/PeerPool.v ===== *)
(** * fetch/fetcher.go, peerPool, and fetch/follow.go, weightsAgree

    The peers a fetch may ask, which of them answer old history ("archival"), how
    many requests each has outstanding and how fast it answered, and the comparison
    of two validator sets. A Go map is visited in an unspecified order, so an
    operation that ranges over one takes that order as an argument. The float64
    arithmetic is the Standard Library's executable IEEE 754 binary64. *)

From Stdlib Require Import SpecFloat.
From S2P Require Import Prelude.

Module PeerPool.

Definition NodeID : Type := bytes.
Definition EmptyNodeID : NodeID := replicate 20 0.

(** ** float64 *)

Definition float : Type := spec_float.
Definition fadd (x y : float) : float := SFadd 53 1024 x y.
Definition fmul (x y : float) : float := SFmul 53 1024 x y.
Definition fdiv (x y : float) : float := SFdiv 53 1024 x y.
Definition float64 (z : Z) : float := binary_normalize 53 1024 z 0 false.
(** The literals 0.8, 0.2, 1e-3, 1e9 and 0.95, rounded to nearest. *)
Definition f0_8 : float := S754_finite false 7205759403792794 (-53).
Definition f0_2 : float := S754_finite false 7205759403792794 (-55).
Definition f1e_3 : float := S754_finite false 4611686018427388 (-62).
Definition f1e9 : float := S754_finite false 8388608000000000 (-23).
Definition f0_95 : float := S754_finite false 8556839292003942 (-53).
Definition fzero : float := S754_zero false.

(** [time.Duration.Seconds]. *)
Definition Seconds (ns : Z) : float := fadd (float64 (Z.quot ns (10 ^ 9))) (fdiv (float64 (Z.rem ns (10 ^ 9))) f1e9).

(** ** The pool *)

Record peerState := PeerState { archival : bool; busy : Z; rate : float }.
Record peerPool := MkPool { peers : gmap NodeID peerState; narchival : Z }.

Definition newPeerPool : peerPool := MkPool ∅ 0.

Definition connected (id : NodeID) (p : peerPool) : peerPool :=
  match peers p !! id with
  | None => MkPool (<[id := PeerState false 0 fzero]> (peers p)) (narchival p)
  | Some _ => p
  end.

Definition disconnected (id : NodeID) (p : peerPool) : peerPool :=
  match peers p !! id with
  | Some s => MkPool (delete id (peers p)) (if archival s then narchival p - 1 else narchival p)
  | None => p
  end.

(** The loop of [acquire]: the best candidate so far and whether any is archival. *)
Fixpoint acquire_loop (maxBusy : Z) (m : gmap NodeID peerState) (order : list NodeID) (best : option (NodeID * peerState)) (have : bool)
    : option (NodeID * peerState) * bool :=
  match order with
  | [] => (best, have)
  | id :: order =>
      match m !! id with
      | None => acquire_loop maxBusy m order best have
      | Some s =>
          if negb (archival s) then acquire_loop maxBusy m order best have
          else if maxBusy <=? busy s then acquire_loop maxBusy m order best true
          else match best with
               | None => acquire_loop maxBusy m order (Some (id, s)) true
               | Some (_, b) =>
                   if (busy s <? busy b) || ((busy s =? busy b) && SFltb (rate b) (rate s))
                   then acquire_loop maxBusy m order (Some (id, s)) true
                   else acquire_loop maxBusy m order best true
               end
      end
  end.

Definition acquire (maxBusy : Z) (order : list NodeID) (p : peerPool) : peerPool * (NodeID * bool * bool) :=
  match acquire_loop maxBusy (peers p) order None false with
  | (None, have) => (p, (EmptyNodeID, false, have))
  | (Some (id, s), _) => (MkPool (<[id := PeerState (archival s) (busy s + 1) (rate s)]> (peers p)) (narchival p), (id, true, true))
  end.

Definition release (id : NodeID) (p : peerPool) : peerPool :=
  match peers p !! id with
  | Some s => if 0 <? busy s then MkPool (<[id := PeerState (archival s) (busy s - 1) (rate s)]> (peers p)) (narchival p) else p
  | None => p
  end.

Definition setArchival (id : NodeID) (a : bool) (p : peerPool) : peerPool :=
  match peers p !! id with
  | Some s => if Bool.eqb (archival s) a then p
              else MkPool (<[id := PeerState a (busy s) (rate s)]> (peers p)) (if a then narchival p + 1 else narchival p - 1)
  | None => p
  end.

Definition observe (id : NodeID) (blocks elapsed : Z) (p : peerPool) : peerPool :=
  let sec := Seconds elapsed in
  let sec := if SFltb sec f1e_3 then f1e_3 else sec in
  let r := fdiv (float64 blocks) sec in
  match peers p !! id with
  | Some s =>
      let r' := if SFeqb (rate s) fzero then r else fadd (fmul f0_8 (rate s)) (fmul f0_2 r) in
      MkPool (<[id := PeerState (archival s) (busy s) r']> (peers p)) (narchival p)
  | None => p
  end.

Definition isConnected (id : NodeID) (p : peerPool) : bool := bool_decide (is_Some (peers p !! id)).
Definition archivalCount (p : peerPool) : Z := narchival p.

(** One pass of [peersForFrontier], over the peers with the given standing. *)
Fixpoint frontier_pass (n : Z) (a : bool) (m : gmap NodeID peerState) (order acc : list NodeID) : list NodeID :=
  match order with
  | [] => acc
  | id :: order =>
      match m !! id with
      | Some s => frontier_pass n a m order (if Bool.eqb (archival s) a && (len acc <? n) then acc ++ [id] else acc)
      | None => frontier_pass n a m order acc
      end
  end.

Definition peersForFrontier (n : Z) (order1 order2 : list NodeID) (p : peerPool) : list NodeID :=
  frontier_pass n false (peers p) order2 (frontier_pass n true (peers p) order1 []).

Fixpoint nonArchival_loop (n : Z) (m : gmap NodeID peerState) (order acc : list NodeID) : list NodeID :=
  match order with
  | [] => acc
  | id :: order =>
      match m !! id with
      | Some s => if archival s then nonArchival_loop n m order acc
                  else let acc := acc ++ [id] in if len acc =? n then acc else nonArchival_loop n m order acc
      | None => nonArchival_loop n m order acc
      end
  end.

Definition nonArchival (n : Z) (order : list NodeID) (p : peerPool) : list NodeID := nonArchival_loop n (peers p) order [].

Definition maxPerPeer (PerPeer : Z) : Z := if 0 <? PerPeer then PerPeer else 1.

(** ** Every operation, as a step *)

Inductive pool_op :=
| PConnected (id : NodeID) | PDisconnected (id : NodeID) | PAcquire (order : list NodeID) | PRelease (id : NodeID)
| PSetArchival (id : NodeID) (a : bool) | PObserve (id : NodeID) (blocks elapsed : Z).

Definition pool_step (maxBusy : Z) (p : peerPool) (o : pool_op) : peerPool :=
  match o with
  | PConnected id => connected id p
  | PDisconnected id => disconnected id p
  | PAcquire order => (acquire maxBusy order p).1
  | PRelease id => release id p
  | PSetArchival id a => setArchival id a p
  | PObserve id b e => observe id b e p
  end.

(** ** The invariant: the counter counts, and no peer is over its limit *)

Definition count_archival (m : gmap NodeID peerState) : Z := Z.of_nat (size (filter (fun kv => archival kv.2 = true) m)).

Definition pool_ok (maxBusy : Z) (p : peerPool) : Prop :=
  narchival p = count_archival (peers p) /\ map_Forall (fun _ s => 0 <= busy s <= maxBusy) (peers p).

Lemma count_insert m id s :
  count_archival (<[id := s]> m) = count_archival (delete id m) + (if archival s then 1 else 0).
Proof.
  unfold count_archival. rewrite <- insert_delete_eq. destruct (archival s) eqn:E.
  - rewrite map_filter_insert_True by done. rewrite map_size_insert_None; [lia|]. apply map_lookup_filter_None. left. by rewrite lookup_delete_eq.
  - rewrite map_filter_insert_False by (cbn; congruence). rewrite delete_delete_eq. lia.
Qed.

Lemma count_delete m id s : m !! id = Some s -> count_archival m = count_archival (delete id m) + (if archival s then 1 else 0).
Proof. intros H. rewrite <- count_insert, insert_id by done. done. Qed.

(** Replacing a peer's state. *)
Lemma pool_insert maxBusy p id s s' c :
  pool_ok maxBusy p -> peers p !! id = Some s -> 0 <= busy s' <= maxBusy ->
  c = narchival p + (if archival s' then 1 else 0) - (if archival s then 1 else 0) ->
  pool_ok maxBusy (MkPool (<[id := s']> (peers p)) c).
Proof.
  intros [Hc Hb] Hs Hb' ->. split; cbn [peers narchival]; [|by apply map_Forall_insert_2].
  rewrite count_insert. rewrite (count_delete _ _ _ Hs) in Hc. lia.
Qed.

(** ** Which peer [acquire] takes *)

Lemma SFltb_irrefl x : SFltb x x = false.
Proof.
  unfold SFltb. destruct x as [[]|[]| |[] m e]; cbn; try done; rewrite Z.compare_refl; change (PosDef.Pos.compare_cont Eq m m) with (m ?= m)%positive;
    by rewrite Pos.compare_refl.
Qed.

Lemma SFltb_trans x y z : SFltb x y = true -> SFltb y z = true -> SFltb x z = true.
Proof.
  unfold SFltb, SFcompare.
  destruct x as [[]|[]| |[] m1 e1], y as [[]|[]| |[] m2 e2], z as [[]|[]| |[] m3 e3]; try done;
    repeat match goal with |- context [PosDef.Pos.compare_cont Eq ?a ?b] => change (PosDef.Pos.compare_cont Eq a b) with (a ?= b)%positive end;
    destruct (Z.compare_spec e1 e2), (Z.compare_spec e2 e3), (Z.compare_spec e1 e3); try done; try lia;
    destruct (Pos.compare_spec m1 m2), (Pos.compare_spec m2 m3), (Pos.compare_spec m1 m3); cbn; done || lia.
Qed.

(** [s] is preferred to [b]: fewer outstanding requests, or as many and faster. *)
Definition beats (s b : peerState) : bool := (busy s <? busy b) || ((busy s =? busy b) && SFltb (rate b) (rate s)).

Lemma beats_irrefl s : beats s s = false.
Proof. unfold beats. by rewrite Z.ltb_irrefl, Z.eqb_refl, SFltb_irrefl. Qed.

Lemma beats_trans x y z : beats x y = true -> beats y z = true -> beats x z = true.
Proof.
  unfold beats. rewrite !orb_true_iff, !andb_true_iff, !Z.ltb_lt, !Z.eqb_eq. intros [H|[H H']] [G|[G G']]; try (left; lia).
  right. split; [lia|]. by apply (SFltb_trans _ (rate y)).
Qed.

(** The peers with a free slot. *)
Definition free (maxBusy : Z) (s : peerState) : Prop := archival s = true /\ busy s < maxBusy.

(** What the loop has found, over the peers of [order]. *)
Definition found (maxBusy : Z) (m : gmap NodeID peerState) (order : list NodeID) (best : option (NodeID * peerState)) (have : bool)
    (best' : option (NodeID * peerState)) (have' : bool) : Prop :=
  (have' = true <-> have = true \/ exists id s, id ∈ order /\ m !! id = Some s /\ archival s = true) /\
  match best' with
  | None => best = None /\ forall id s, id ∈ order -> m !! id = Some s -> ~ free maxBusy s
  | Some (id, s) => (best = Some (id, s) \/ (m !! id = Some s /\ free maxBusy s)) /\
      (forall id' s', id' ∈ order -> m !! id' = Some s' -> free maxBusy s' -> beats s' s = false) /\
      (forall id0 b, best = Some (id0, b) -> (id0, b) = (id, s) \/ beats s b = true)
  end.

Lemma free_cons (maxBusy : Z) (m : gmap NodeID peerState) (id : NodeID) (order : list NodeID) (P : peerState -> Prop) :
  (forall s, m !! id = Some s -> free maxBusy s -> P s) -> (forall id' s', id' ∈ order -> m !! id' = Some s' -> free maxBusy s' -> P s') ->
  forall id' s', id' ∈ id :: order -> m !! id' = Some s' -> free maxBusy s' -> P s'.
Proof. intros H1 H2 id' s' [->|Hin]%elem_of_cons; [apply H1|by apply H2]. Qed.

(** A peer that has no free slot changes at most whether any is archival. *)
Lemma found_skip maxBusy m id order best have have0 best' have' :
  (forall s, m !! id = Some s -> ~ free maxBusy s) ->
  (have0 = true <-> have = true \/ exists s, m !! id = Some s /\ archival s = true) ->
  found maxBusy m order best have0 best' have' -> found maxBusy m (id :: order) best have best' have'.
Proof.
  intros Hn Hh [H1 H2]. split.
  - rewrite H1, Hh. split.
    + intros [[?|(s & ? & ?)]|(id' & s & ? & ? & ?)]; [by left|right; exists id, s; split_and!; [left|..]; done|right; exists id', s; split_and!; [by right|..]; done].
    + intros [?|(id' & s & [->|?]%elem_of_cons & ? & ?)]; [by left; left|left; right; by exists s|right; by exists id', s].
  - destruct best' as [[id' s']|].
    + destruct H2 as (? & H2 & ?). split_and!; try done. apply free_cons; [|done]. intros s Hs Hf. by destruct (Hn s Hs).
    + destruct H2 as (? & H2). split; [done|]. intros id' s' Hin Hs Hf. revert id' s' Hin Hs Hf. apply free_cons; [|intros id' s' ? ? ?; by apply (H2 id' s')]. intros s Hs. by apply Hn.
Qed.

(** A peer with a free slot takes the place of a best it beats. *)
Lemma found_take maxBusy m id s order best have best' have' :
  m !! id = Some s -> free maxBusy s -> (forall id0 b, best = Some (id0, b) -> beats s b = true) ->
  found maxBusy m order (Some (id, s)) true best' have' -> found maxBusy m (id :: order) best have best' have'.
Proof.
  intros Hs Hf Hb [H1 H2]. destruct best' as [[id' s']|]; [|by destruct H2]. destruct H2 as (H2 & H3 & H4).
  assert (Hfirst : (id, s) = (id', s') \/ beats s' s = true) by (by apply H4). split.
  - split; [|intros _; apply H1; by left]. intros _. right. exists id, s. split_and!; [left|done|by destruct Hf].
  - split_and!.
    + right. destruct H2 as [[= <- <-]|?]; done.
    + apply free_cons; [|done]. intros s0 Hs0 _. rewrite Hs in Hs0. injection Hs0 as <-. destruct Hfirst as [[= _ <-]|Hfirst]; [apply beats_irrefl|].
      destruct (beats s s') eqn:E; [|done]. pose proof (beats_trans _ _ _ E Hfirst). by rewrite beats_irrefl in *.
    + intros id0 b Hbest. right. specialize (Hb id0 b Hbest). destruct Hfirst as [[= _ <-]|Hfirst]; [done|]. by apply (beats_trans _ s).
Qed.

(** ... and leaves a best it does not beat. *)
Lemma found_keep maxBusy m id s order id0 b have best' have' :
  m !! id = Some s -> free maxBusy s -> beats s b = false ->
  found maxBusy m order (Some (id0, b)) true best' have' -> found maxBusy m (id :: order) (Some (id0, b)) have best' have'.
Proof.
  intros Hs Hf Hb [H1 H2]. destruct best' as [[id' s']|]; [|by destruct H2]. destruct H2 as (H2 & H3 & H4). split.
  - split; [|intros _; apply H1; by left]. intros _. right. exists id, s. split_and!; [left|done|by destruct Hf].
  - split_and!; try done. apply free_cons; [|done]. intros s0 Hs0 _. rewrite Hs in Hs0. injection Hs0 as <-.
    destruct (H4 id0 b eq_refl) as [[= _ <-]|H]; [done|]. destruct (beats s s') eqn:E; [|done]. by rewrite (beats_trans _ _ _ E H) in Hb.
Qed.

Lemma acquire_loop_spec maxBusy m order best have :
  found maxBusy m order best have (acquire_loop maxBusy m order best have).1 (acquire_loop maxBusy m order best have).2.
Proof.
  revert best have. induction order as [|id order IH]; intros best have; cbn [acquire_loop].
  { split; [split; [by left|intros [?|(? & ? & ?%not_elem_of_nil & _)]; done]|]. destruct best as [[id s]|]; cbn [fst].
    - split_and!; [by left|by intros ? ? ?%not_elem_of_nil|]. intros ? ? [= <- <-]. by left.
    - split; [done|]. by intros ? ? ?%not_elem_of_nil. }
  destruct (m !! id) as [s|] eqn:Em; [|apply (found_skip _ _ _ _ _ _ have); [congruence|split; [by left|intros [?|(? & ? & ?)]; congruence]|apply IH]].
  destruct (archival s) eqn:Ea; cbn [negb]; [|apply (found_skip _ _ _ _ _ _ have); [intros ? ? []; congruence|split; [by left|intros [?|(? & ? & ?)]; congruence]|apply IH]].
  destruct (Z.leb_spec maxBusy (busy s)) as [Hfull|Hfree].
  { apply (found_skip _ _ _ _ _ _ true); [|split; [intros _; right; by exists s|done]|apply IH]. intros s0 Hs0 [_ Hf]. rewrite Em in Hs0. injection Hs0 as <-. lia. }
  assert (Hf : free maxBusy s) by done. destruct best as [[id0 b]|]; [|by apply (found_take _ _ _ s)].
  fold (beats s b). destruct (beats s b) eqn:Eb; [|by apply (found_keep _ _ _ s)]. apply (found_take _ _ _ s); [done|done|by intros ? ? [= _ <-]|apply IH].
Qed.

Lemma acquire_pool_ok maxBusy order p : pool_ok maxBusy p -> pool_ok maxBusy (acquire maxBusy order p).1.
Proof.
  intros HP. unfold acquire. pose proof (acquire_loop_spec maxBusy (peers p) order None false) as [_ H].
  destruct (acquire_loop _ _ _ _ _) as [[[id s]|] have]; cbn [fst snd] in *; [|done]. destruct H as ([?|[Hm [Ha Hb]]] & _ & _); [done|].
  apply (pool_insert _ _ _ s); try done; cbn [busy archival]; [|lia]. destruct HP as [_ HP]. specialize (HP _ _ Hm). cbn in HP. lia.
Qed.

Lemma pool_step_ok maxBusy p o : 0 <= maxBusy -> pool_ok maxBusy p -> pool_ok maxBusy (pool_step maxBusy p o).
Proof.
  intros Hmb HP. pose proof HP as [Hc Hb]. destruct o as [id|id|order|id|id a|id n e]; cbn [pool_step].
  - unfold connected. destruct (peers p !! id) eqn:E; [done|]. split; cbn [peers narchival].
    + rewrite count_insert. cbn [archival]. rewrite delete_id, Z.add_0_r by done. done.
    + apply map_Forall_insert_2; [cbn; lia|done].
  - unfold disconnected. destruct (peers p !! id) as [s|] eqn:E; [|done]. split; cbn [peers narchival].
    + rewrite Hc, (count_delete _ _ _ E). destruct (archival s); lia.
    + by apply map_Forall_delete.
  - by apply acquire_pool_ok.
  - unfold release. destruct (peers p !! id) as [s|] eqn:E; [|done]. destruct (Z.ltb_spec 0 (busy s)); [|done].
    apply (pool_insert _ _ _ s); try done; cbn [busy archival]; [|lia]. specialize (Hb _ _ E). cbn in Hb. lia.
  - unfold setArchival. destruct (peers p !! id) as [s|] eqn:E; [|done]. destruct (archival s) eqn:Ea, a; cbn [Bool.eqb]; try done;
      (apply (pool_insert _ _ _ s); try done; cbn [busy archival]; [by specialize (Hb _ _ E)|rewrite Ea; lia]).
  - unfold observe. destruct (peers p !! id) as [s|] eqn:E; [|done]. apply (pool_insert _ _ _ s); try done; cbn [busy archival]; [by specialize (Hb _ _ E)|lia].
Qed.

Lemma pool_steps_ok maxBusy ops : 0 <= maxBusy -> pool_ok maxBusy (foldl (pool_step maxBusy) newPeerPool ops).
Proof.
  intros Hmb. assert (H0 : pool_ok maxBusy newPeerPool) by (split; [done|apply map_Forall_empty]). revert H0. generalize newPeerPool as p.
  induction ops as [|o ops IH]; intros p HP; cbn [foldl]; [done|]. by apply IH, pool_step_ok.
Qed.

(** the peer pool hands out slots fairly. After any sequence of its operations
    from an empty pool, the archival counter counts the archival peers and no peer has
    more than the allowed requests outstanding; whatever order the map is visited in,
    [acquire] takes a connected archival peer with a free slot that no other free
    archival peer beats (fewer outstanding requests, or as many and a greater measured
    rate), and it takes none exactly when no archival peer has a free slot, saying then
    whether there is any archival peer at all. *)
Theorem pool_acquire_best maxBusy ops order :
  0 <= maxBusy -> let p := foldl (pool_step maxBusy) newPeerPool ops in
  order ≡ₚ (map_to_list (peers p)).*1 ->
  archivalCount p = count_archival (peers p) /\ map_Forall (fun _ s => 0 <= busy s <= maxBusy) (peers p) /\
  let '(p', (id, ok, have)) := acquire maxBusy order p in
  (have = true <-> exists id s, peers p !! id = Some s /\ archival s = true) /\
  if ok : bool then exists s, peers p !! id = Some s /\ free maxBusy s /\ peers p' !! id = Some (PeerState true (busy s + 1) (rate s)) /\
      forall id' s', peers p !! id' = Some s' -> free maxBusy s' -> beats s' s = false
  else p' = p /\ forall id s, peers p !! id = Some s -> ~ free maxBusy s.
Proof.
  intros Hmb p Ho. destruct (pool_steps_ok maxBusy ops Hmb) as [Hc Hb]. fold p in Hc, Hb. split_and!; [done|done|].
  assert (Hin : forall id s, peers p !! id = Some s -> id ∈ order).
  { intros id s Hs. rewrite Ho. apply list_elem_of_fmap. exists (id, s). split; [done|]. by apply elem_of_map_to_list. }
  unfold acquire. pose proof (acquire_loop_spec maxBusy (peers p) order None false) as [H1 H2].
  assert (Hhave : (acquire_loop maxBusy (peers p) order None false).2 = true <-> exists id s, peers p !! id = Some s /\ archival s = true).
  { rewrite H1. split; [intros [?|(id & s & _ & ? & ?)]; [done|by exists id, s]|]. intros (id & s & Hs & Ha). right. exists id, s. split_and!; try done. by apply (Hin id s). }
  destruct (acquire_loop _ _ _ _ _) as [[[id s]|] have]; cbn [fst snd] in *.
  - destruct H2 as ([?|[Hm Hf]] & H2 & _); [done|]. split; [split; [intros _; exists id, s; split; [done|by destruct Hf]|done]|]. exists s. split_and!; try done.
    + cbn [peers]. rewrite lookup_insert_eq. by destruct Hf as [-> _].
    + intros id' s' Hs'. apply (H2 id'); [by apply (Hin id' s')|done].
  - destruct H2 as [_ H2]. split; [done|]. split; [done|]. intros id s Hs. apply (H2 id); [by apply (Hin id s)|done].
Qed.

(** Two archival peers, one of them busy. *)
Definition sample_pool_ops : list pool_op :=
  [PConnected [1]; PConnected [2]; PConnected [3]; PSetArchival [1] true; PSetArchival [2] true; PObserve [1] 800 1000000000; PObserve [2] 700 1000000000; PAcquire [[1]; [2]; [3]]].

Lemma pool_acquire_best_witness :
  let p := foldl (pool_step 1) newPeerPool sample_pool_ops in
  archivalCount p = 2 /\ (acquire 1 (map_to_list (peers p)).*1 p).2 = ([2], true, true) /\ archivalCount p = count_archival (peers p).
Proof.
  split; [by vm_compute|split; [by vm_compute|]]. apply (pool_acquire_best 1 sample_pool_ops (map_to_list (peers (foldl (pool_step 1) newPeerPool sample_pool_ops))).*1); [lia|done].
Defined.

End PeerPool.

(** ** fetch/follow.go: comparing validator sets *)

Module Validators.
Import PeerPool.

Notation weights := (gmap NodeID Z).

(** A map entry read with Go's zero default. *)
Definition weight_of (m : weights) (id : NodeID) : Z := default 0 (m !! id).

(** The totals, summed over the entries in some order, at 64 bits. *)
Definition total (m : weights) : Z := foldr (fun kv acc => u64 (acc + kv.2)) 0 (map_to_list m).
Definition agreed (a b : weights) : Z :=
  foldr (fun kv acc => if weight_of b kv.1 =? kv.2 then u64 (acc + kv.2) else acc) 0 (map_to_list a).

Definition weightsAgree (a b : weights) (exact : bool) : res unit :=
  let maxTotal := Z.max (total a) (total b) in
  if maxTotal =? 0 then Err "empty validator sets"
  else if exact then
    if negb (Nat.eqb (size a) (size b)) || negb (agreed a b =? maxTotal) then Err "sets differ" else Ok tt
  else if SFltb (float64 (agreed a b)) (fmul f0_95 (float64 maxTotal)) then Err "too little stake agrees" else Ok tt.

(** The rounds of [crossCheckedWeights]: each source's answer, in order; the first
    set read, and how many sources answered. *)
Fixpoint cross_loop (exact : bool) (answers : list (option weights)) (first : option weights) (ok : Z) : res (option weights * Z) :=
  match answers with
  | [] => Ok (first, ok)
  | None :: answers => cross_loop exact answers first ok
  | Some w :: answers =>
      match first with
      | None => cross_loop exact answers (Some w) (ok + 1)
      | Some f => let* _ := weightsAgree f w exact in cross_loop exact answers first (ok + 1)
      end
  end.

Definition crossCheckedWeights (exact : bool) (answers : list (option weights)) : res weights :=
  let* r := cross_loop exact answers None 0 in
  match r.1 with None => Err "all validator sources failed" | Some w => Ok w end.

(** *** Exact agreement is equality of the weighted sets *)

Definition wsum (m : weights) : Z := foldr (fun kv acc => kv.2 + acc) 0 (map_to_list m).

(** The validators that carry weight: what the manager is built from. *)
Definition carrying (m : weights) : weights := filter (fun kv => 0 < kv.2) m.

Lemma sum_perm (l k : list (NodeID * Z)) : l ≡ₚ k -> foldr (fun kv acc => kv.2 + acc) 0 l = foldr (fun kv acc => kv.2 + acc) 0 k.
Proof. induction 1; cbn [foldr]; lia. Qed.

Lemma wsum_insert m id w : m !! id = None -> wsum (<[id := w]> m) = w + wsum m.
Proof. intros H. unfold wsum. by rewrite (sum_perm _ _ (map_to_list_insert m id w H)). Qed.

Lemma wsum_delete m id w : m !! id = Some w -> wsum m = w + wsum (delete id m).
Proof. intros H. rewrite <- (insert_id m id w H) at 1. rewrite <- insert_delete_eq. apply wsum_insert, lookup_delete_eq. Qed.

Definition nonneg (m : weights) : Prop := map_Forall (fun _ w => 0 <= w) m.

Lemma wsum_nonneg m : nonneg m -> 0 <= wsum m.
Proof.
  induction m as [|id w m Hn IH] using map_ind; intros HN; [done|]. rewrite wsum_insert by done. apply map_Forall_insert in HN as [? ?]; [|done]. specialize (IH H0). lia.
Qed.

Lemma total_exact m : nonneg m -> wsum m < 2 ^ 64 -> total m = wsum m.
Proof.
  unfold nonneg, total, wsum. intros HN. assert (HF : Forall (fun kv : NodeID * Z => 0 <= kv.2) (map_to_list m)).
  { apply Forall_forall. intros [k v] Hkv. apply elem_of_map_to_list in Hkv. by apply (HN k v). }
  revert HF. generalize (map_to_list m) as l. clear. intros l. induction l as [|[k v] l IH]; cbn [foldr snd]; [done|].
  intros [Hv HF]%Forall_cons Hs. cbn in Hv. assert (0 <= foldr (fun kv acc => kv.2 + acc) 0 l).
  { clear - HF. induction l as [|[k v] l IH]; cbn [foldr snd]; [lia|]. apply Forall_cons in HF as [Hv HF]. cbn in Hv. specialize (IH HF). lia. }
  rewrite IH by (done || lia). rewrite u64_small by (unfold u64_ok; lia). lia.
Qed.

(** The agreed weight falls short of the total exactly when some weight differs. *)
Lemma agreed_exact a b : nonneg a -> wsum a < 2 ^ 64 ->
  0 <= agreed a b <= wsum a /\ (agreed a b = wsum a <-> forall id w, a !! id = Some w -> 0 < w -> b !! id = Some w).
Proof.
  unfold nonneg, agreed, wsum. intros HN. assert (HF : Forall (fun kv : NodeID * Z => 0 <= kv.2) (map_to_list a)).
  { apply Forall_forall. intros [k v] Hkv. apply elem_of_map_to_list in Hkv. by apply (HN k v). }
  intros Hs. assert (G : 0 <= foldr (fun kv acc => if weight_of b kv.1 =? kv.2 then u64 (acc + kv.2) else acc) 0 (map_to_list a) <= foldr (fun kv acc => kv.2 + acc) 0 (map_to_list a) /\
    (foldr (fun kv acc => if weight_of b kv.1 =? kv.2 then u64 (acc + kv.2) else acc) 0 (map_to_list a) = foldr (fun kv acc => kv.2 + acc) 0 (map_to_list a) <->
     forall id w, (id, w) ∈ map_to_list a -> 0 < w -> b !! id = Some w)).
  2:{ destruct G as [G1 G2]. split; [done|]. rewrite G2. by setoid_rewrite elem_of_map_to_list. }
  revert HF Hs. generalize (map_to_list a) as l. clear. intros l. induction l as [|[k v] l IH]; cbn [foldr fst snd].
  { intros _ _. split; [lia|]. split; [|done]. by intros _ ? ? ?%not_elem_of_nil. }
  intros [Hv HF]%Forall_cons Hs. cbn in Hv. assert (0 <= foldr (fun kv acc => kv.2 + acc) 0 l).
  { clear - HF. induction l as [|[k v] l IH]; cbn [foldr snd]; [lia|]. apply Forall_cons in HF as [Hv HF]. cbn in Hv. specialize (IH HF). lia. }
  destruct (IH HF ltac:(lia)) as [Hr Hiff]. assert (Hk : weight_of b k = v <-> (v = 0 /\ b !! k = None) \/ b !! k = Some v) by (unfold weight_of; destruct (b !! k); cbn; intuition congruence).
  setoid_rewrite elem_of_cons. destruct (Z.eqb_spec (weight_of b k) v) as [E|E].
  - rewrite u64_small by (unfold u64_ok; lia). split; [lia|]. rewrite Z.add_comm, Z.add_cancel_l, Hiff. split; [|intros H' id w Hin; apply H'; by right].
    intros H' id w [[= -> ->]|Hin] Hw; [|by apply H']. apply Hk in E as [[? _]|?]; [lia|done].
  - split; [lia|]. destruct (decide (v = 0)) as [->|Hne].
    + rewrite Z.add_0_l, Hiff. split; [|intros H' id w Hin; apply H'; by right]. intros H' id w [[= -> ->]|Hin] Hw; [lia|by apply H'].
    + split; [lia|]. intros H'. exfalso. apply E, Hk. right. apply H'; [by left|lia].
Qed.

Lemma carrying_lookup m id w : carrying m !! id = Some w <-> m !! id = Some w /\ 0 < w.
Proof. unfold carrying. by rewrite map_lookup_filter_Some. Qed.

(** A set whose weights are all in another has no more weight, and as much only if
    the two carry the same. *)
Lemma wsum_subset a b : nonneg a -> nonneg b -> carrying a ⊆ carrying b -> wsum a <= wsum b /\ (wsum a = wsum b -> carrying a = carrying b).
Proof.
  revert b. induction a as [|id w a Hn IH] using map_ind; intros b Ha Hb Hsub.
  - split; [by apply wsum_nonneg|]. intros E. change (wsum ∅) with 0 in E. apply map_eq. intros i. unfold carrying at 1. rewrite map_filter_empty, lookup_empty.
    destruct (carrying b !! i) as [w|] eqn:Ew; [|done]. apply carrying_lookup in Ew as [Ew Hw]. rewrite (wsum_delete _ _ _ Ew) in E.
    pose proof (wsum_nonneg (delete i b) (map_Forall_delete _ _ _ Hb)). lia.
  - apply map_Forall_insert in Ha as [Hw Ha]; [|done]. rewrite wsum_insert by done. destruct (decide (w = 0)) as [->|Hne].
    + assert (Ec : carrying (<[id := 0]> a) = carrying a).
      { apply map_eq. intros i. apply option_eq. intros x. rewrite !carrying_lookup, lookup_insert_Some. split; [intros [[[_ <-]|[_ ?]] ?]; [lia|done]|].
        intros [Hx ?]. split; [right; split; [congruence|done]|done]. }
      rewrite Ec in *. by apply IH.
    + assert (Hin : forall i x, a !! i = Some x -> 0 < x -> b !! i = Some x /\ i <> id).
      { intros i x Hx Hp. split; [|congruence]. apply carrying_lookup. apply (lookup_weaken (carrying (<[id := w]> a))); [|done].
        apply carrying_lookup. split; [|done]. rewrite lookup_insert_ne by congruence. done. }
      assert (Eb : b !! id = Some w).
      { apply (carrying_lookup b). apply (lookup_weaken (carrying (<[id := w]> a))); [|done]. apply carrying_lookup. split; [apply lookup_insert_eq|lia]. }
      destruct (IH (delete id b) Ha (map_Forall_delete _ _ _ Hb)) as [Hle Heq].
      { apply map_subseteq_spec. intros i x [Hx Hp]%carrying_lookup. destruct (Hin i x Hx Hp). apply carrying_lookup. split; [by rewrite lookup_delete_ne|done]. }
      rewrite (wsum_delete _ _ _ Eb). split; [lia|]. intros E. specialize (Heq ltac:(lia)). apply map_eq. intros i. apply option_eq. intros x.
      rewrite !carrying_lookup, lookup_insert_Some. destruct (decide (i = id)) as [->|Hi]; [naive_solver|].
      assert (Hix : carrying a !! i = Some x <-> carrying (delete id b) !! i = Some x) by (by rewrite Heq). rewrite !carrying_lookup, lookup_delete_ne in Hix by done. naive_solver.
Qed.

(** on an L1, two sources agree exactly when they name the same weighted
    validators. For sets whose weights add up within 64 bits, [weightsAgree] in exact
    mode succeeds if and only if the sets have as many entries, some weight, and the
    same validators with the same positive weights. *)
Theorem weights_agree_exactly a b :
  nonneg a -> nonneg b -> wsum a < 2 ^ 64 -> wsum b < 2 ^ 64 ->
  weightsAgree a b true = Ok tt <-> carrying a = carrying b /\ size a = size b /\ 0 < wsum a.
Proof.
  intros Ha Hb Ta Tb. unfold weightsAgree. rewrite !total_exact by done. pose proof (wsum_nonneg a Ha). pose proof (wsum_nonneg b Hb).
  destruct (agreed_exact a b Ha Ta) as [Hr Hiff].
  assert (Hsub : (forall id w, a !! id = Some w -> 0 < w -> b !! id = Some w) <-> carrying a ⊆ carrying b).
  { rewrite map_subseteq_spec. setoid_rewrite carrying_lookup. naive_solver. }
  rewrite Hsub in Hiff. destruct (Z.eqb_spec (Z.max (wsum a) (wsum b)) 0) as [E0|E0].
  { split; [done|]. lia. }
  destruct (Nat.eqb_spec (size a) (size b)) as [Es|Es]; cbn [negb orb]; [|by split; [|intros (_ & ? & _)]].
  destruct (Z.eqb_spec (agreed a b) (Z.max (wsum a) (wsum b))) as [Eg|Eg]; cbn [negb].
  - assert (Hs : carrying a ⊆ carrying b) by (apply Hiff; lia). destruct (wsum_subset a b Ha Hb Hs) as [Hle Heq]. split; [|done]. intros _. split_and!; [apply Heq; lia|done|lia].
  - split; [done|]. intros (Ec & _ & _). exfalso. apply Eg. assert (agreed a b = wsum a) as -> by (apply Hiff; by rewrite Ec).
    assert (Hba : carrying b ⊆ carrying a) by (by rewrite Ec). destruct (wsum_subset b a Hb Ha Hba). lia.
Qed.

Lemma weights_agree_exactly_witness :
  weightsAgree {[ [1] := 5; [2] := 0 ]} {[ [1] := 5; [3] := 0 ]} true = Ok tt /\ carrying {[ [1] := 5; [2] := 0 ]} = carrying {[ [1] := 5; [3] := 0 ]}.
Proof.
  split; [by vm_compute|]. apply (weights_agree_exactly {[ [1] := 5; [2] := 0 ]} {[ [1] := 5; [3] := 0 ]}); try (by vm_compute);
    apply map_Forall_to_list; repeat constructor; cbn; lia.
Defined.

End Validators.
