(* ===== verification/Nibbles.v ===== *)
(** * commit/commit.go and commit/dirty.go: trie paths

    Trie paths are lists of nibbles. [hexToCompact] and [compactToHex] are the
    hex-prefix encoding of a node's key, [packNibbles] and [keyToNibbles] go between
    nibbles and the bytes of a flat key, and [packPath] is the integer the overlay
    indexes a short path by. *)

From S2P Require Import Prelude Bytes.

Module Nibbles.

(** A shifted byte keeps its low eight bits. *)
Definition byte_shl (b n : Z) : Z := Z.shiftl b n mod 256.

(** ** The codecs *)

Definition keyToNibbles (key : bytes) : bytes := flat_map (fun b => [Z.shiftr b 4; Z.land b 15]) key.

Definition compactToHex (compact : bytes) : res bytes :=
  let nib := keyToNibbles compact in
  let* n0 := index nib 0 in
  if Z.land n0 1 =? 1 then slice_from nib 1 else slice_from nib 2.

(** The pairs of the tail loop; an odd tail would index past the end. *)
Fixpoint compact_pairs (nibbles : bytes) : res bytes :=
  match nibbles with
  | [] => Ok []
  | [_] => Panic
  | a :: b :: rest => let* out := compact_pairs rest in Ok (Z.lor (byte_shl a 4) b :: out)
  end.

Definition hexToCompact (nibbles : bytes) (leaf : bool) : res bytes :=
  let flag := if leaf then 32 else 0 in
  if len nibbles mod 2 =? 1 then
    match nibbles with
    | n0 :: rest => let* out := compact_pairs rest in Ok (Z.lor (Z.lor flag 16) n0 :: out)
    | [] => Panic
    end
  else let* out := compact_pairs nibbles in Ok (flag :: out).

(** [out[i/2] |= n << (4*(1-i%2))], two nibbles at a time. *)
Fixpoint packNibbles (nib : bytes) : bytes :=
  match nib with
  | [] => []
  | [a] => [byte_shl a 4]
  | a :: b :: rest => Z.lor (byte_shl a 4) b :: packNibbles rest
  end.

Fixpoint pack_loop (path : bytes) (k : Z) : option Z :=
  match path with
  | [] => Some k
  | n :: path => if 15 <? n then None else pack_loop path (Z.lor (u64 (Z.shiftl k 4)) n)
  end.

Definition packPath (path : bytes) : option Z :=
  if 15 <? len path then None else pack_loop path (len path).

(** ** Round trips *)

Definition nib_ok (n : Z) : Prop := 0 <= n < 16.

Lemma join_nibbles a b : nib_ok a -> nib_ok b -> Z.lor (byte_shl a 4) b = 16 * a + b.
Proof.
  unfold nib_ok, byte_shl. intros Ha Hb. rewrite Z.shiftl_mul_pow2 by lia. rewrite Z.mod_small by lia.
  rewrite <- (Z.shiftl_mul_pow2 a 4) by lia. rewrite Z.lor_comm, (lor_disjoint_add b a 4); lia.
Qed.

Lemma split_byte a b : nib_ok a -> nib_ok b -> Z.shiftr (16 * a + b) 4 = a /\ Z.land (16 * a + b) 15 = b.
Proof.
  unfold nib_ok. intros Ha Hb. rewrite Z.shiftr_div_pow2 by lia. change 15 with (Z.ones 4). rewrite Z.land_ones by lia.
  change (2 ^ 4) with 16. split; symmetry; [apply (Z.div_unique_pos _ _ a b); lia|apply (Z.mod_unique_pos _ _ a b); lia].
Qed.

Lemma byte_nibbles c : byte_ok c -> nib_ok (Z.shiftr c 4) /\ nib_ok (Z.land c 15) /\ c = 16 * Z.shiftr c 4 + Z.land c 15.
Proof.
  unfold nib_ok, byte_ok. intros Hc. rewrite Z.shiftr_div_pow2 by lia. change 15 with (Z.ones 4). rewrite Z.land_ones by lia.
  pose proof (Z.div_mod c 16 ltac:(lia)). pose proof (Z.mod_pos_bound c 16 ltac:(lia)). change (2 ^ 4) with 16. split_and!; try lia; Z.div_mod_to_equations; lia.
Qed.

(** Induction two nibbles at a time, with the even and the odd end. *)
Lemma pairs_ind (P : bytes -> Prop) : P [] -> (forall a, P [a]) -> (forall a b l, P l -> P (a :: b :: l)) -> forall l, P l.
Proof.
  intros H0 H1 H2 l. enough (P l /\ forall a, P (a :: l)) by tauto. induction l as [|b l [IH1 IH2]]; [done|]. split; [done|]. intros a. by apply H2.
Qed.

Lemma len_even_odd a b (l : bytes) : len (a :: b :: l) mod 2 = len l mod 2.
Proof. rewrite !len_cons. replace (1 + (1 + len l)) with (len l + 1 * 2) by lia. apply Z_mod_plus_full. Qed.

Lemma compact_pairs_ok nib : Forall nib_ok nib -> len nib mod 2 = 0 -> exists out, compact_pairs nib = Ok out /\ keyToNibbles out = nib.
Proof.
  induction nib as [|a|a b l IH] using pairs_ind; intros Hn He; [by exists []|done|]. rewrite len_even_odd in He.
  apply Forall_cons in Hn as [Ha Hn]. apply Forall_cons in Hn as [Hb Hn]. destruct (IH Hn He) as (out & Eo & Ek). cbn [compact_pairs]. rewrite Eo. cbn [rbind].
  eexists. split; [done|]. rewrite join_nibbles by done. cbn [keyToNibbles flat_map app]. destruct (split_byte a b Ha Hb) as [-> ->]. fold (keyToNibbles out). by rewrite Ek.
Qed.

Lemma nib_forall (P : Z -> bool) : forallb P (map Z.of_nat (seq 0 16)) = true -> forall n, nib_ok n -> P n = true.
Proof.
  intros H n Hn. rewrite forallb_forall in H. apply H. apply in_map_iff. exists (Z.to_nat n). unfold nib_ok in Hn. split; [lia|]. apply in_seq. lia.
Qed.

Lemma first_byte leaf n : nib_ok n ->
  let c := Z.lor (Z.lor (if leaf : bool then 32 else 0) 16) n in Z.land (Z.shiftr c 4) 1 = 1 /\ Z.land c 15 = n.
Proof.
  intros Hn. pose proof (nib_forall (fun n => let c := Z.lor (Z.lor (if leaf then 32 else 0) 16) n in (Z.land (Z.shiftr c 4) 1 =? 1) && (Z.land c 15 =? n))
    ltac:(destruct leaf; vm_compute; reflexivity) n Hn) as E. cbv beta zeta in E. apply andb_true_iff in E as [E1 E2]. apply Z.eqb_eq in E1, E2. by split.
Qed.

(** the hex-prefix encoding of a trie key decodes to the key, for a leaf and for
    an extension, whatever the parity of its length; neither direction panics on
    nibbles. *)
Theorem compact_roundtrip nib leaf :
  Forall nib_ok nib -> exists c, hexToCompact nib leaf = Ok c /\ compactToHex c = Ok nib.
Proof.
  intros Hn. unfold hexToCompact. pose proof (Z.mod_pos_bound (len nib) 2 ltac:(lia)) as Hp. destruct (Z.eqb_spec (len nib mod 2) 1) as [E|E].
  - destruct nib as [|n nib]; [done|]. apply Forall_cons in Hn as [Hn0 Hn]. rewrite len_cons in E.
    destruct (compact_pairs_ok nib Hn) as (out & -> & Ek); [Z.div_mod_to_equations; lia|]. cbn [rbind]. eexists. split; [done|].
    destruct (first_byte leaf n Hn0) as [E1 E2]. unfold compactToHex. cbn [keyToNibbles flat_map app].
    match goal with |- context [index (?x :: _) 0] => change (index (x :: _) 0) with (Ok x) end. cbn [rbind]. rewrite E1, E2. fold (keyToNibbles out). rewrite Ek.
    apply (slice_tail [_]). done.
  - destruct (compact_pairs_ok nib Hn) as (out & -> & Ek); [lia|]. cbn [rbind]. eexists. split; [done|].
    unfold compactToHex. cbn [keyToNibbles flat_map app]. fold (keyToNibbles out). rewrite Ek. destruct leaf; apply (slice_tail [_; _]); done.
Qed.

Lemma compact_roundtrip_witness : exists c, hexToCompact [15; 1; 12; 11; 8] true = Ok c /\ compactToHex c = Ok [15; 1; 12; 11; 8].
Proof. apply compact_roundtrip. repeat constructor; unfold nib_ok; lia. Defined.

Lemma pack_key key : Forall byte_ok key -> packNibbles (keyToNibbles key) = key.
Proof.
  induction key as [|c key IH]; intros Hk; [done|]. apply Forall_cons in Hk as [Hc Hk]. cbn [keyToNibbles flat_map app packNibbles].
  destruct (byte_nibbles c Hc) as (H1 & H2 & H3). rewrite join_nibbles by done. fold (keyToNibbles key). by rewrite IH, <- H3.
Qed.

(** ** packPath *)

Lemma pack_loop_spec path k :
  Forall (fun n => 0 <= n) path -> 0 <= k -> (k + 1) * 16 ^ len path <= 2 ^ 64 ->
  match pack_loop path k with
  | Some v => Forall nib_ok path /\ v = k * 16 ^ len path + fold_left (fun acc n => acc * 16 + n) path 0 /\ k * 16 ^ len path <= v < (k + 1) * 16 ^ len path
  | None => ~ Forall nib_ok path
  end.
Proof.
  revert k. induction path as [|n path IH]; intros k Hp Hk Hb.
  { cbn [pack_loop fold_left]. rewrite len_nil in *. split_and!; [constructor|lia..]. }
  apply Forall_cons in Hp as [Hn Hp]. rewrite len_cons, Z.pow_add_r, Z.pow_1_r in Hb by (pose proof (len_nonneg path); lia). cbn [pack_loop].
  pose proof (len_nonneg path) as Hl. assert (0 < 16 ^ len path) by (apply Z.pow_pos_nonneg; lia).
  destruct (Z.ltb_spec 15 n) as [Hgt|Hle]; [intros [H' _]%Forall_cons; unfold nib_ok in H'; lia|].
  assert (E : Z.lor (u64 (Z.shiftl k 4)) n = k * 16 + n).
  { rewrite u64_small; [rewrite Z.lor_comm, (lor_disjoint_add n k 4); lia|]. unfold u64_ok. rewrite Z.shiftl_mul_pow2 by lia. nia. }
  rewrite E. specialize (IH (k * 16 + n) Hp ltac:(lia) ltac:(nia)). destruct (pack_loop path (k * 16 + n)) as [v|].
  - destruct IH as (Hf & Hv & Hr). rewrite len_cons, Z.pow_add_r, Z.pow_1_r by lia. split_and!; [constructor; [unfold nib_ok; lia|done]| |nia|nia].
    assert (Hacc : forall l a, fold_left (fun acc n => acc * 16 + n) l a = a * 16 ^ len l + fold_left (fun acc n => acc * 16 + n) l 0).
    { clear. induction l as [|x l IH]; intros a; cbn [fold_left]; [rewrite len_nil; lia|]. rewrite IH, (IH (0 * 16 + x)), len_cons, Z.pow_add_r, Z.pow_1_r by (pose proof (len_nonneg l); lia). lia. }
    cbn [fold_left]. rewrite Hacc, Hv. lia.
  - intros [_ H']%Forall_cons. done.
Qed.

Lemma nibble_value_inj l l' : length l = length l' -> Forall nib_ok l -> Forall nib_ok l' ->
  fold_left (fun acc n => acc * 16 + n) l 0 = fold_left (fun acc n => acc * 16 + n) l' 0 -> l = l'.
Proof.
  revert l'. induction l as [|x l IH] using rev_ind; intros l' El Hl Hl'; [by destruct l'|].
  destruct l' as [|y l' _] using rev_ind; [rewrite length_app in El; cbn in El; lia|]. rewrite !length_app in El. cbn in El.
  rewrite !fold_left_app. cbn [fold_left]. apply Forall_app in Hl as [Hl Hx], Hl' as [Hl' Hy]. rewrite Forall_singleton in Hx, Hy. unfold nib_ok in Hx, Hy.
  intros E. f_equal; [apply IH; try done; lia|]. f_equal. lia.
Qed.

(** The ranges of different lengths are disjoint, and within one length the nibbles
    are the digits. *)
Lemma packPath_inj p p' k :
  Forall (fun n => 0 <= n) p -> Forall (fun n => 0 <= n) p' -> packPath p = Some k -> packPath p' = Some k -> p = p'.
Proof.
  unfold packPath. destruct (Z.ltb_spec 15 (len p)) as [|Hl]; [done|]. destruct (Z.ltb_spec 15 (len p')) as [|Hl']; [done|]. intros Hp Hp'.
  pose proof (len_nonneg p). pose proof (len_nonneg p').
  assert (Hb : forall n, 0 <= n <= 15 -> (n + 1) * 16 ^ n <= 2 ^ 64).
  { intros n Hn. transitivity (16 * 16 ^ 15); [|done]. apply Z.mul_le_mono_nonneg; try lia. apply Z.pow_le_mono_r; lia. }
  pose proof (pack_loop_spec p (len p) Hp ltac:(lia) (Hb (len p) ltac:(lia))) as S1. pose proof (pack_loop_spec p' (len p') Hp' ltac:(lia) (Hb (len p') ltac:(lia))) as S2.
  intros E1 E2. rewrite E1 in S1. rewrite E2 in S2. destruct S1 as (F1 & V1 & R1), S2 as (F2 & V2 & R2).
  assert (Hlt : forall n m, 0 <= n -> n < m -> (n + 1) * 16 ^ n <= m * 16 ^ m).
  { intros n m Hn Hm. assert (0 < 16 ^ n) by (apply Z.pow_pos_nonneg; lia). assert (16 ^ n <= 16 ^ m) by (apply Z.pow_le_mono_r; lia). nia. }
  assert (El : len p = len p').
  { destruct (Z.lt_trichotomy (len p) (len p')) as [Hx|[Hx|Hx]]; [|done|]; [pose proof (Hlt (len p) (len p') ltac:(lia) Hx)|pose proof (Hlt (len p') (len p) ltac:(lia) Hx)]; lia. }
  apply nibble_value_inj; try done; [unfold len in El; lia|]. rewrite El in V1. lia.
Qed.

(** ** Seeking the row under a path *)

Lemma prefix_ge key path : Forall byte_ok key -> Forall nib_ok path -> has_prefix (keyToNibbles key) path = true -> ble (packNibbles path) key.
Proof.
  revert key. induction path as [|a|a b path IH] using pairs_ind; intros key Hk Hp Hpre.
  - destruct key; unfold ble; done.
  - destruct key as [|c key]; [done|]. apply Forall_cons in Hk as [Hc _]. cbn [keyToNibbles flat_map app has_prefix] in Hpre. rewrite andb_true_r in Hpre. apply Z.eqb_eq in Hpre as ->.
    destruct (byte_nibbles c Hc) as (H1 & H2 & H3). cbn [packNibbles]. unfold byte_shl. rewrite Z.shiftl_mul_pow2 by lia. unfold nib_ok in *. rewrite Z.mod_small by lia.
    unfold ble. cbn [bcmp]. destruct (Z.compare_spec (Z.shiftr c 4 * 2 ^ 4) c); [by destruct key|done|lia].
  - destruct key as [|c key]; [done|]. apply Forall_cons in Hk as [Hc Hk], Hp as [Ha Hp]. apply Forall_cons in Hp as [Hb Hp]. cbn [keyToNibbles flat_map app has_prefix] in Hpre.
    apply andb_true_iff in Hpre as [->%Z.eqb_eq Hpre]. apply andb_true_iff in Hpre as [->%Z.eqb_eq Hpre]. destruct (byte_nibbles c Hc) as (H1 & H2 & H3).
    cbn [packNibbles]. rewrite join_nibbles, <- H3 by done. unfold ble. cbn [bcmp]. rewrite Z.compare_refl. by apply IH.
Qed.

Lemma between_prefix key key' path :
  Forall byte_ok key -> Forall byte_ok key' -> Forall nib_ok path -> ble (packNibbles path) key -> ble key key' ->
  has_prefix (keyToNibbles key') path = true -> has_prefix (keyToNibbles key) path = true.
Proof.
  revert key key'. induction path as [|a|a b path IH] using pairs_ind; intros key key' Hk Hk' Hp Hlo Hhi Hpre; [done|..].
  - destruct key' as [|c' key']; [done|]. cbn [packNibbles] in Hlo. destruct key as [|c key]; [done|]. apply Forall_cons in Hk as [Hc _], Hk' as [Hc' _].
    cbn [keyToNibbles flat_map app has_prefix] in Hpre |- *. rewrite andb_true_r in *. apply Z.eqb_eq in Hpre as ->. apply Z.eqb_eq.
    destruct (byte_nibbles c Hc) as (H1 & H2 & H3), (byte_nibbles c' Hc') as (H1' & H2' & H3'). unfold byte_shl in Hlo. rewrite Z.shiftl_mul_pow2 in Hlo by lia. unfold nib_ok in *.
    rewrite Z.mod_small in Hlo by lia. unfold ble in Hlo, Hhi. cbn [bcmp] in Hlo, Hhi. destruct (Z.compare_spec (Z.shiftr c' 4 * 2 ^ 4) c), (Z.compare_spec c c'); try done; lia.
  - destruct key' as [|c' key']; [done|]. cbn [packNibbles] in Hlo. destruct key as [|c key]; [done|].
    apply Forall_cons in Hk as [Hc Hk], Hk' as [Hc' Hk'], Hp as [Ha Hp]. apply Forall_cons in Hp as [Hb Hp].
    cbn [keyToNibbles flat_map app has_prefix] in Hpre |- *. apply andb_true_iff in Hpre as [->%Z.eqb_eq Hpre]. apply andb_true_iff in Hpre as [->%Z.eqb_eq Hpre].
    destruct (byte_nibbles c' Hc') as (H1' & H2' & H3'). rewrite join_nibbles, <- H3' in Hlo by done. unfold ble in Hlo, Hhi. cbn [bcmp] in Hlo, Hhi.
    destruct (Z.compare_spec c' c) as [->|Hlt|Hgt]; [|by rewrite (proj2 (Z.compare_gt_iff c c')) in Hhi by lia|done].
    rewrite Z.compare_refl in Hhi. rewrite !Z.eqb_refl. cbn [andb]. by apply (IH key key').
Qed.

(** The first key at or above a prefix, as the rolled state's seek returns it. *)
Definition seek_first (keys : list bytes) (prefix : bytes) : option bytes := List.find (fun k => bleb prefix k) keys.

Lemma find_app_none {A} (f : A -> bool) l x : List.find f l = Some x -> exists a b, l = a ++ x :: b /\ Forall (fun y => f y = false) a /\ f x = true.
Proof.
  induction l as [|y l IH]; cbn [List.find]; [done|]. destruct (f y) eqn:E.
  - intros [= <-]. exists [], l. by split_and!.
  - intros H. destruct (IH H) as (a & b & -> & Ha & Hx). exists (y :: a), b. split_and!; try done. by constructor.
Qed.

(** the seek of the rolled state finds a row under a trie path whenever there is
    one: in a sorted list of keys, if some key's nibbles begin with the path, the
    first key at or above the packed path is one of those, an odd path's padding
    included. *)
Theorem seek_under_path keys path key :
  StronglySorted blt keys -> Forall (Forall byte_ok) keys -> Forall nib_ok path -> key ∈ keys -> has_prefix (keyToNibbles key) path = true ->
  exists k, seek_first keys (packNibbles path) = Some k /\ has_prefix (keyToNibbles k) path = true.
Proof.
  intros Hs Hb Hp Hin Hpre. rewrite Forall_forall in Hb. assert (Hge := prefix_ge key path (Hb _ Hin) Hp Hpre). unfold seek_first.
  destruct (List.find (fun k => bleb (packNibbles path) k) keys) as [k|] eqn:Ef.
  - exists k. split; [done|]. destruct (find_app_none _ _ _ Ef) as (a & b & -> & Ha & Hk). destruct (bleb_spec (packNibbles path) k) as [Hk'|]; [|done].
    apply (between_prefix k key); try done; [apply Hb; set_solver|by apply Hb|]. apply elem_of_app in Hin as [Hin|[->|Hin]%elem_of_cons].
    + rewrite Forall_forall in Ha. specialize (Ha _ Hin). cbn in Ha. by destruct (bleb_spec (packNibbles path) key).
    + apply ble_refl.
    + apply ble_lteq. left. apply StronglySorted_app in Hs as (_ & _ & Hs). apply StronglySorted_cons in Hs as [Hs _]. rewrite Forall_forall in Hs. by apply Hs.
  - exfalso. apply list_elem_of_In in Hin. pose proof (List.find_none _ _ Ef _ Hin) as Hn. cbn in Hn. by destruct (bleb_spec (packNibbles path) key).
Qed.

Lemma seek_under_path_witness :
  exists k, seek_first [[18; 200]; [52; 1]; [53; 7]; [64; 0]] (packNibbles [3; 5; 0]) = Some k /\ has_prefix (keyToNibbles k) [3; 5; 0] = true.
Proof.
  apply (seek_under_path _ _ [53; 7]); try done; repeat constructor; unfold nib_ok, byte_ok; lia.
Defined.

End Nibbles.
