(* ===== verification/Dirty.v ===== *)
(** * commit/dirty.go: the overlay of changed trie nodes

    Retained nodes live in one byte slab, each as [cap u16][len u16][blob] at an
    offset the index gives: short paths in [idx] under a packed integer, the others in
    [long] under a string. [put] rewrites in place when the blob fits and appends
    otherwise; [compact] copies the live slots to a fresh slab. The account trie, the
    storage tries and their hashing are library code; [Root] is not modelled, its
    writes to this state are the [put]s of [merge] and the [compact]. *)

From S2P Require Import Prelude Bytes Nibbles.
Import Nibbles.

Module Dirty.

Definition Hash : Type := bytes.

Record pending := Pending { row : option bytes; del : bool; wiped : bool; pslots : option (gmap Hash bytes) }.

Record Dirty := MkDirty {
  idx : gmap (Hash * Z) Z; long : gmap bytes Z; slab : bytes; dead : Z; acct : gmap Hash pending; droot : Hash }.

Definition Reset (froot : Hash) : Dirty := MkDirty ∅ ∅ [] 0 ∅ froot.

Definition Bytes (d : Dirty) : Z := len (slab d).

Definition offset (owner : Hash) (path : bytes) (d : Dirty) : option Z :=
  match packPath path with
  | Some k => idx d !! (owner, k)
  | None => long d !! (owner ++ path)
  end.

Definition setOffset (owner : Hash) (path : bytes) (off : Z) (d : Dirty) : Dirty :=
  match packPath path with
  | Some k => MkDirty (<[(owner, k) := off]> (idx d)) (long d) (slab d) (dead d) (acct d) (droot d)
  | None => MkDirty (idx d) (<[owner ++ path := off]> (long d)) (slab d) (dead d) (acct d) (droot d)
  end.

(** [binary.LittleEndian.Uint16(b[off:])]. *)
Definition u16_at (b : bytes) (off : Z) : res Z := let* t := slice_from b off in le_get 2 t.

Definition lookup (owner : Hash) (path : bytes) (d : Dirty) : res (option bytes) :=
  match offset owner path d with
  | None => Ok None
  | Some off =>
      let* n := u16_at (slab d) (off + 2) in
      let* b := slice (slab d) (off + 4) (off + 4 + n) in
      Ok (Some b)
  end.

(** [copy(b[off:], data)]: as much of the data as there is room for. *)
Definition copy_at (b : bytes) (off : Z) (data : bytes) : res bytes :=
  let* head := slice b 0 off in
  let* tail := slice_from b off in
  let data := take (length tail) data in
  Ok (head ++ data ++ drop (length data) tail).

(** [binary.LittleEndian.PutUint16(b[off:], v)]. *)
Definition put_u16 (b : bytes) (off v : Z) : res bytes :=
  let* tail := slice_from b off in
  if len tail <? 2 then Panic else copy_at b off (litE 2 v).

Definition with_slab (b : bytes) (dd : Z) (d : Dirty) : Dirty := MkDirty (idx d) (long d) b dd (acct d) (droot d).

(** The new slot: the length rounded up to 64. *)
Definition append_slot (owner : Hash) (path blob : bytes) (dd : Z) (d : Dirty) : Dirty :=
  let c := Z.land (len blob + 63) (Z.lnot 63) in
  let off := len (slab d) in
  let b := slab d ++ [c mod 256; Z.shiftr c 8 mod 256; len blob mod 256; Z.shiftr (len blob) 8 mod 256]
             ++ blob ++ replicate (Z.to_nat (c - len blob)) 0 in
  setOffset owner path off (with_slab b dd d).

Definition put (owner : Hash) (path blob : bytes) (d : Dirty) : res Dirty :=
  match offset owner path d with
  | Some off =>
      let* c := u16_at (slab d) off in
      if len blob <=? c then
        let* b := put_u16 (slab d) (off + 2) (len blob mod 2 ^ 16) in
        let* b := copy_at b (off + 4) blob in
        Ok (with_slab b (dead d) d)
      else Ok (append_slot owner path blob (dead d + (c + 4)) d)
  | None => Ok (append_slot owner path blob (dead d) d)
  end.

(** The closure of [compact]: the slot at [off] is copied to the end. *)
Definition move (old : bytes) (off : Z) (new : bytes) : res (bytes * Z) :=
  let* c := u16_at old off in
  let* s := slice old off (off + 4 + c) in
  Ok (new ++ s, len new).

(** The two loops, over the keys in the order the maps are visited. *)
Fixpoint move_all {K} `{Countable K} (old : bytes) (order : list K) (m : gmap K Z) (new : bytes) : res (gmap K Z * bytes) :=
  match order with
  | [] => Ok (m, new)
  | k :: order =>
      match m !! k with
      | None => move_all old order m new
      | Some off => let* r := move old off new in move_all old order (<[k := r.2]> m) r.1
      end
  end.

Definition compact (order : list (Hash * Z)) (lorder : list bytes) (d : Dirty) : res Dirty :=
  if (dead d <? Z.shiftl 32 20) || (dead d <? len (slab d) / 2) then Ok d
  else
    let* r := move_all (slab d) order (idx d) [] in
    let* r2 := move_all (slab d) lorder (long d) r.2 in
    Ok (MkDirty r.1 r2.1 r2.2 0 (acct d) (droot d)).

(** [merge]: the nodes of a commit's set, in the order the map is visited. *)
Fixpoint merge (owner : Hash) (nodes : list (bytes * bytes)) (d : Dirty) : res Dirty :=
  match nodes with
  | [] => Ok d
  | (path, blob) :: nodes => let* d := put owner path blob d in merge owner nodes d
  end.

(** ** The queued writes *)

Definition no_pending : pending := Pending None false false None.

Definition touch (h : Hash) (d : Dirty) : pending := default no_pending (acct d !! h).

Definition set_acct (h : Hash) (p : pending) (d : Dirty) : Dirty :=
  MkDirty (idx d) (long d) (slab d) (dead d) (<[h := p]> (acct d)) (droot d).

Definition Apply (key value : bytes) (d : Dirty) : res Dirty :=
  if (len key =? 33) && (default 1 (key !! 32%nat) =? 0) then
    let h := take 32 key in
    let p := touch h d in
    if len value =? 0 then Ok (set_acct h (Pending None true true None) d)
    else Ok (set_acct h (Pending (Some value) false (wiped p) (pslots p)) d)
  else if (len key =? 65) && (default 0 (key !! 32%nat) =? 1) then
    let h := take 32 key in
    let p := touch h d in
    let slots := default ∅ (pslots p) in
    Ok (set_acct h (Pending (row p) (del p) (wiped p) (Some (<[drop 33 key := value]> slots))) d)
  else Err "malformed key".

(** ** The index of either map *)

Definition ikey : Type := (Hash * Z) + bytes.

#[export] Instance ikey_eq_dec : EqDecision ikey.
Proof. unfold ikey. apply _. Defined.
#[export] Instance ikey_countable : Countable ikey.
Proof. unfold ikey. apply _. Defined.

Definition ikey_of (owner : Hash) (path : bytes) : ikey :=
  match packPath path with Some k => inl (owner, k) | None => inr (owner ++ path) end.

Definition find (ik : ikey) (d : Dirty) : option Z := match ik with inl k => idx d !! k | inr k => long d !! k end.

Lemma offset_find owner path d : offset owner path d = find (ikey_of owner path) d.
Proof. unfold offset, ikey_of. by destruct (packPath path). Qed.

Lemma find_setOffset owner path off d ik :
  find ik (setOffset owner path off d) = if decide (ik = ikey_of owner path) then Some off else find ik d.
Proof.
  unfold setOffset, ikey_of, find. destruct (packPath path) as [k|]; destruct ik as [ik|ik]; cbn [idx long].
  - case_decide as E; [injection E as ->; apply lookup_insert_eq|rewrite lookup_insert_ne; [done|congruence]].
  - by rewrite decide_False.
  - by rewrite decide_False.
  - case_decide as E; [injection E as ->; apply lookup_insert_eq|rewrite lookup_insert_ne; [done|congruence]].
Qed.

(** A trie position: the owner is a hash, the path bytes. *)
Definition valid (owner : Hash) (path : bytes) : Prop := length owner = 32%nat /\ Forall (fun n => 0 <= n) path.

Lemma ikey_inj o p o' p' : valid o p -> valid o' p' -> ikey_of o p = ikey_of o' p' -> o = o' /\ p = p'.
Proof.
  intros [Ho Hp] [Ho' Hp']. unfold ikey_of. destruct (packPath p) as [k|] eqn:E, (packPath p') as [k'|] eqn:E'; try done.
  - intros [= -> ->]. split; [done|]. by apply (packPath_inj p p' k').
  - intros [= H]. apply app_inj_1 in H as [-> ->]; [done|lia].
Qed.

(** ** The slab as a list of slots *)

(** A slot: the node that owns it, if one still does, and its bytes, of which the
    first [slen] are the blob. *)
Record slot := Slot { skey : option ikey; sdata : bytes; slen : Z }.

Definition slot_ok (s : slot) : Prop := 0 <= slen s <= len (sdata s) /\ len (sdata s) < 2 ^ 16.
Definition enc (s : slot) : bytes := litE 2 (len (sdata s)) ++ litE 2 (slen s) ++ sdata s.
Definition flat (l : list slot) : bytes := concat (enc <$> l).
Definition blob_of (s : slot) : bytes := take (Z.to_nat (slen s)) (sdata s).

Lemma len_slot_enc s : len (enc s) = 4 + len (sdata s).
Proof. unfold enc. rewrite !len_app, !len_le. lia. Qed.

Lemma flat_slots_app l k : flat (l ++ k) = flat l ++ flat k.
Proof. unfold flat. by rewrite fmap_app, concat_app. Qed.

Lemma flat_cons s l : flat (s :: l) = enc s ++ flat l.
Proof. done. Qed.

Lemma flat_mid a s b : flat (a ++ s :: b) = flat a ++ enc s ++ flat b.
Proof. by rewrite flat_slots_app, flat_cons. Qed.

Definition dead_size (l : list slot) : Z := foldr (fun s acc => (match skey s with None => len (enc s) | Some _ => 0 end) + acc) 0 l.

Lemma dead_size_app l k : dead_size (l ++ k) = dead_size l + dead_size k.
Proof. unfold dead_size. induction l as [|s l IH]; cbn [app foldr]; lia. Qed.

(** Where the [i]-th slot begins. *)
Definition start (l : list slot) (i : nat) : Z := len (flat (take i l)).

(** The slots of [d]'s slab: the index points at every owned slot, at its offset,
    each owner has one, and [dead] is the size of the others. *)
Record slots_ok (l : list slot) (d : Dirty) : Prop := {
  so_slab : slab d = flat l;
  so_wf : Forall slot_ok l;
  so_index ik off : find ik d = Some off <-> exists i s, l !! i = Some s /\ skey s = Some ik /\ off = start l i;
  so_once i j s s' ik : l !! i = Some s -> l !! j = Some s' -> skey s = Some ik -> skey s' = Some ik -> i = j;
  so_dead : dead d = dead_size l }.

Lemma slots_reset r : slots_ok [] (Reset r).
Proof. split; try done. intros ik off. split; [destruct ik; cbn; by rewrite lookup_empty|]. by intros (i & s & H & _). Qed.

Lemma flat_at l i s : l !! i = Some s -> flat l = flat (take i l) ++ enc s ++ flat (drop (S i) l).
Proof. intros H. rewrite <- flat_mid. f_equal. symmetry. by apply take_drop_middle. Qed.

(** The offsets depend on the sizes only. *)
Lemma flat_len_sizes l l' : (len ∘ enc) <$> l = (len ∘ enc) <$> l' -> len (flat l) = len (flat l').
Proof.
  revert l'. induction l as [|s l IH]; intros [|s' l']; cbn [fmap list_fmap]; try done. intros H. pose proof (f_equal (hd 0) H) as H1. pose proof (f_equal (@List.tl Z) H) as H2. cbn [hd List.tl] in H1, H2. unfold compose in H1. rewrite !flat_cons, !len_app, H1. specialize (IH _ H2). lia.
Qed.

Lemma start_insert l i s s' j : l !! i = Some s -> len (enc s') = len (enc s) -> start (<[i := s']> l) j = start l j.
Proof.
  intros Hi He. unfold start. apply flat_len_sizes. rewrite !fmap_take. f_equal. rewrite list_fmap_insert. apply list_insert_id. rewrite list_lookup_fmap, Hi. unfold compose. cbn [fmap option_fmap option_map]. by rewrite He.
Qed.

Lemma start_app_l l k i : (i <= length l)%nat -> start (l ++ k) i = start l i.
Proof. intros H. unfold start. by rewrite take_app_le. Qed.

Lemma dead_size_insert l i s s' : l !! i = Some s -> dead_size (<[i := s']> l) = dead_size l
  - (match skey s with None => len (enc s) | Some _ => 0 end) + (match skey s' with None => len (enc s') | Some _ => 0 end).
Proof.
  intros Hi. rewrite <- (take_drop_middle l i s Hi) at 2. rewrite insert_take_drop by (by apply lookup_lt_Some in Hi).
  rewrite !dead_size_app. cbn [dead_size foldr]. unfold dead_size. lia.
Qed.

(** ** Reading a slot *)

Lemma u16_at_app a x r v : 0 <= v < 2 ^ 16 -> x = len a -> u16_at (a ++ litE 2 v ++ r) x = Ok v.
Proof. intros Hv ->. unfold u16_at. rewrite slice_tail by done. cbn [rbind]. by apply le_get_app. Qed.

Lemma read_cap a s r : slot_ok s -> u16_at (a ++ enc s ++ r) (len a) = Ok (len (sdata s)).
Proof. intros [Hl Hc]. unfold enc. rewrite <- !app_assoc. apply u16_at_app; [pose proof (len_nonneg (sdata s)); lia|done]. Qed.

Lemma read_len a s r : slot_ok s -> u16_at (a ++ enc s ++ r) (len a + 2) = Ok (slen s).
Proof.
  intros [Hl Hc]. unfold enc. rewrite <- !app_assoc. rewrite (app_assoc a). apply u16_at_app; [lia|]. rewrite len_app, len_le. lia.
Qed.

Lemma read_blob a s r : slot_ok s -> slice (a ++ enc s ++ r) (len a + 4) (len a + 4 + slen s) = Ok (blob_of s).
Proof.
  intros [Hl Hc]. unfold enc, blob_of. rewrite <- (take_drop (Z.to_nat (slen s)) (sdata s)) at 2. rewrite <- !app_assoc.
  rewrite (app_assoc (litE 2 _)), (app_assoc a). apply slice_app; [rewrite !len_app, !len_le; lia|]. unfold len in *. rewrite length_take. lia.
Qed.

(** What the overlay holds for each node. *)
Definition holds (l : list slot) (m : gmap ikey bytes) : Prop :=
  forall ik blob, m !! ik = Some blob <-> exists s, s ∈ l /\ skey s = Some ik /\ blob_of s = blob.

Lemma lookup_ok l d m owner path :
  slots_ok l d -> holds l m -> lookup owner path d = Ok (m !! ikey_of owner path).
Proof.
  intros HS HM. unfold lookup. rewrite offset_find. destruct (find (ikey_of owner path) d) as [off|] eqn:Ef.
  - apply (so_index _ _ HS) in Ef as (i & s & Hi & Hk & ->). pose proof (Forall_lookup_1 _ _ _ _ (so_wf _ _ HS) Hi) as Hs.
    rewrite (so_slab _ _ HS), (flat_at _ _ _ Hi). unfold start. rewrite read_len by done. cbn [rbind]. rewrite read_blob by done. cbn [rbind]. do 2 f_equal.
    symmetry. apply HM. exists s. split_and!; [by apply list_elem_of_lookup_2 in Hi|done..].
  - f_equal. symmetry. destruct (m !! ikey_of owner path) as [blob|] eqn:Em; [|done]. apply HM in Em as (s & (i & Hi)%list_elem_of_lookup & Hk & _). exfalso.
    assert (find (ikey_of owner path) d = Some (start l i)) by (apply (so_index _ _ HS); by exists i, s). congruence.
Qed.

(** ** Writing a slot *)

Lemma copy_at_app a t data : (length data <= length t)%nat -> copy_at (a ++ t) (len a) data = Ok (a ++ data ++ drop (length data) t).
Proof.
  intros Hl. unfold copy_at. assert (E : slice (a ++ t) 0 (len a) = Ok a) by (by apply (slice_app [] a t)). rewrite E. cbn [rbind].
  rewrite slice_tail by done. cbn [rbind]. by rewrite take_ge by done.
Qed.

Lemma put_u16_enc a s r n : put_u16 (a ++ enc s ++ r) (len a + 2) n = Ok (a ++ litE 2 (len (sdata s)) ++ litE 2 n ++ sdata s ++ r).
Proof.
  unfold put_u16, enc. rewrite <- !app_assoc, (app_assoc a). set (x := a ++ litE 2 _). replace (len a + 2) with (len x) by (unfold x; rewrite len_app, len_le; lia).
  rewrite slice_tail by done. cbn [rbind]. rewrite (proj2 (Z.ltb_ge _ 2)) by (rewrite len_app, len_le; pose proof (len_nonneg (sdata s ++ r)); lia).
  rewrite copy_at_app by (rewrite length_app, !length_le; lia). rewrite (length_le 2 n), <- (length_le 2 (slen s)), drop_app_length. unfold x. by rewrite <- app_assoc.
Qed.

(** The slot with its blob overwritten. *)
Definition overwrite (s : slot) (blob : bytes) : slot := Slot (skey s) (blob ++ drop (length blob) (sdata s)) (len blob).

Lemma overwrite_ok s blob : slot_ok s -> len blob <= len (sdata s) -> slot_ok (overwrite s blob) /\ len (sdata (overwrite s blob)) = len (sdata s) /\ blob_of (overwrite s blob) = blob.
Proof.
  intros [Hs Hc] Hb. assert (E : len (blob ++ drop (length blob) (sdata s)) = len (sdata s)) by (unfold len in *; rewrite length_app, length_drop; lia).
  unfold slot_ok, overwrite, blob_of. cbn [sdata slen]. rewrite E. pose proof (len_nonneg blob). split_and!; try done; try lia.
  rewrite len_to_nat, take_app_length. done.
Qed.

Lemma write_in_place a s r blob : slot_ok s -> len blob <= len (sdata s) ->
  (let* b := put_u16 (a ++ enc s ++ r) (len a + 2) (len blob mod 2 ^ 16) in copy_at b (len a + 4) blob) = Ok (a ++ enc (overwrite s blob) ++ r).
Proof.
  intros Hs Hb. pose proof Hs as [_ Hc]. rewrite put_u16_enc. cbn [rbind]. pose proof (len_nonneg blob). rewrite Z.mod_small by lia.
  rewrite (app_assoc (litE 2 _)), (app_assoc a). set (x := a ++ _ ++ litE 2 (len blob)). replace (len a + 4) with (len x) by (unfold x; rewrite !len_app, !len_le; lia).
  rewrite copy_at_app by (rewrite length_app; unfold len in *; lia). rewrite drop_app_le by (unfold len in *; lia). unfold enc, x.
  destruct (overwrite_ok s blob Hs Hb) as (_ & -> & _). cbn [overwrite sdata slen]. by rewrite <- !app_assoc.
Qed.

Lemma round64 n : Z.land (n + 63) (Z.lnot 63) = 64 * ((n + 63) / 64).
Proof.
  rewrite <- Z.ldiff_land. change (Z.ldiff (n + 63) 63) with (Z.ldiff (n + 63) (Z.ones 6)). rewrite Z.ldiff_ones_r by lia.
  rewrite Z.shiftr_div_pow2, Z.shiftl_mul_pow2 by lia. change (2 ^ 6) with 64. lia.
Qed.

(** The slot [put] appends. *)
Definition fresh (ik : ikey) (blob : bytes) : slot :=
  let c := Z.land (len blob + 63) (Z.lnot 63) in Slot (Some ik) (blob ++ replicate (Z.to_nat (c - len blob)) 0) (len blob).

(** The largest blob whose rounded length fits its two bytes. *)
Definition maxBlob : Z := 65472.

Lemma fresh_ok ik blob : len blob <= maxBlob ->
  let c := Z.land (len blob + 63) (Z.lnot 63) in
  slot_ok (fresh ik blob) /\ blob_of (fresh ik blob) = blob /\
  enc (fresh ik blob) = [c mod 256; Z.shiftr c 8 mod 256; len blob mod 256; Z.shiftr (len blob) 8 mod 256] ++ blob ++ replicate (Z.to_nat (c - len blob)) 0.
Proof.
  intros Hb c. pose proof (len_nonneg blob) as H0. unfold maxBlob in Hb.
  assert (Hc : len blob <= c < 2 ^ 16) by (unfold c; rewrite round64; Z.div_mod_to_equations; lia).
  assert (El : len (blob ++ replicate (Z.to_nat (c - len blob)) 0) = c) by (rewrite len_app, len_replicate; lia).
  unfold fresh, slot_ok, blob_of, enc. fold c. cbn [sdata slen]. rewrite El. split_and!; try lia.
  - by rewrite len_to_nat, take_app_length.
  - cbn [litE]. rewrite !Z.shiftr_div_pow2 by lia. done.
Qed.

(** The slots once the node's old one, at [oi], has no owner. *)
Definition unown (s : slot) : slot := Slot None (sdata s) (slen s).
Definition freed (l : list slot) (oi : option nat) : list slot := match oi with Some i => alter unown i l | None => l end.

Lemma freed_lookup l oi j : freed l oi !! j = if decide (oi = Some j) then unown <$> l !! j else l !! j.
Proof.
  destruct oi as [i|]; cbn [freed]; [|by rewrite decide_False]. destruct (decide (i = j)) as [->|Hne].
  - rewrite decide_True by done. apply list_lookup_alter_eq.
  - rewrite decide_False by congruence. by apply list_lookup_alter_ne.
Qed.

Lemma freed_enc l oi : enc <$> freed l oi = enc <$> l.
Proof. apply list_eq. intros j. rewrite !list_lookup_fmap, freed_lookup. case_decide; [|done]. by destruct (l !! j). Qed.

Lemma freed_flat l oi : flat (freed l oi) = flat l.
Proof. unfold flat. by rewrite freed_enc. Qed.

Lemma freed_start l oi j : start (freed l oi) j = start l j.
Proof. unfold start, flat. by rewrite !fmap_take, freed_enc. Qed.

Lemma freed_wf l oi : Forall slot_ok l -> Forall slot_ok (freed l oi).
Proof.
  intros Hw. apply Forall_lookup. intros j s. rewrite freed_lookup. case_decide; [|by apply Forall_lookup_1].
  destruct (l !! j) as [s0|] eqn:E; [|done]. intros [= <-]. by apply (Forall_lookup_1 _ _ _ _ Hw) in E.
Qed.

Section Free.
Context (l : list slot) (ik : ikey) (oi : option nat).
Hypothesis once : forall i j s s' k, l !! i = Some s -> l !! j = Some s' -> skey s = Some k -> skey s' = Some k -> i = j.
Hypothesis at_oi : match oi with Some i => exists s, l !! i = Some s /\ skey s = Some ik | None => forall s, s ∈ l -> skey s <> Some ik end.

(** Nothing is left under the node, and every other owner keeps its slot. *)
Lemma freed_owned j s k : freed l oi !! j = Some s /\ skey s = Some k <-> l !! j = Some s /\ skey s = Some k /\ k <> ik.
Proof.
  rewrite freed_lookup. case_decide as Hd.
  - destruct oi as [i|]; [|done]. injection Hd as ->. destruct at_oi as (si & Hi & Hki). rewrite Hi. cbn [fmap option_fmap option_map].
    split; [intros [[= <-] Hk]; done|]. intros ([= <-] & Hk & Hne). congruence.
  - split; [|tauto]. intros [Hj Hk]. split_and!; try done. intros ->. destruct oi as [i|].
    + destruct at_oi as (si & Hi & Hki). by rewrite (once i j si s ik) in Hd.
    + apply (at_oi s); [by apply list_elem_of_lookup_2 in Hj|done].
Qed.

Lemma freed_dead : dead_size (freed l oi) = dead_size l + match oi with Some i => default 0 ((fun s => len (enc s)) <$> l !! i) | None => 0 end.
Proof.
  destruct oi as [i|]; cbn [freed]; [|lia]. destruct at_oi as (s & Hi & Hk). assert (alter unown i l = <[i := unown s]> l) as ->.
  { apply list_eq. intros j. destruct (decide (i = j)) as [->|Hne].
    - rewrite list_lookup_alter_eq, list_lookup_insert_eq by (by apply lookup_lt_Some in Hi). by rewrite Hi.
    - by rewrite list_lookup_alter_ne, list_lookup_insert_ne. }
  rewrite (dead_size_insert _ _ _ _ Hi), Hk, Hi. change (enc (unown s)) with (enc s). change (skey (unown s)) with (@None ikey). unfold default, id. cbn [fmap option_fmap option_map from_option]. lia.
Qed.

Lemma freed_holds m fs :
  skey fs = Some ik -> holds l m -> holds (freed l oi ++ [fs]) (<[ik := blob_of fs]> m).
Proof.
  intros Hf HM k blob. destruct (decide (k = ik)) as [->|Hne].
  - rewrite lookup_insert_eq. split; [intros [= <-]; exists fs; split_and!; [set_solver|done..]|]. intros (s & [Hs|Hs%list_elem_of_singleton]%elem_of_app & Hk & <-); [|by subst].
    apply list_elem_of_lookup in Hs as [j Hj]. by destruct (proj1 (freed_owned j s ik) (conj Hj Hk)) as (_ & _ & ?).
  - rewrite lookup_insert_ne, (HM k blob) by done. split; intros (s & Hs & Hk & Hb).
    + apply list_elem_of_lookup in Hs as [j Hj]. exists s. split_and!; try done. apply elem_of_app. left. apply list_elem_of_lookup. exists j. by apply (freed_owned j s k).
    + apply elem_of_app in Hs as [Hs|Hs%list_elem_of_singleton]; [|subst; congruence]. apply list_elem_of_lookup in Hs as [j Hj].
      destruct (proj1 (freed_owned j s k) (conj Hj Hk)) as (Hj' & _ & _). exists s. split_and!; try done. by apply list_elem_of_lookup_2 in Hj'.
Qed.

(** The index entry for the appended slot, and every other one. *)
Lemma freed_index fs k off :
  skey fs = Some ik ->
  (exists j s, (freed l oi ++ [fs]) !! j = Some s /\ skey s = Some k /\ off = start (freed l oi ++ [fs]) j) <->
  if decide (k = ik) then off = len (flat l) else exists j s, l !! j = Some s /\ skey s = Some k /\ off = start l j.
Proof.
  intros Hf. assert (Elen : length (freed l oi) = length l) by (destruct oi; cbn [freed]; by rewrite ?length_alter).
  assert (Hst : forall j, (j <= length l)%nat -> start (freed l oi ++ [fs]) j = start l j) by (intros j Hj; rewrite start_app_l by lia; apply freed_start).
  setoid_rewrite lookup_snoc_Some. case_decide as Hd; [subst k|].
  - split.
    + intros (j & s & [[_ Hj]|[-> <-]] & Hk & ->); [by destruct (proj1 (freed_owned j s ik) (conj Hj Hk)) as (_ & _ & ?)|]. rewrite Hst by lia. unfold start. by rewrite take_ge by lia.
    + intros ->. exists (length (freed l oi)), fs. split_and!; [by right|done|]. rewrite Hst by lia. unfold start. by rewrite take_ge by lia.
  - split.
    + intros (j & s & [[Hlt Hj]|[-> <-]] & Hk & ->); [|congruence]. destruct (proj1 (freed_owned j s k) (conj Hj Hk)) as (Hj' & _ & _). exists j, s. split_and!; try done. apply Hst. lia.
    + intros (j & s & Hj & Hk & ->). apply lookup_lt_Some in Hj as Hjl. exists j, s. split_and!; [left; split; [lia|by apply (freed_owned j s k)]|done|]. symmetry. apply Hst. lia.
Qed.

Lemma freed_once fs i j s s' k :
  skey fs = Some ik -> (freed l oi ++ [fs]) !! i = Some s -> (freed l oi ++ [fs]) !! j = Some s' -> skey s = Some k -> skey s' = Some k -> i = j.
Proof.
  intros Hf. rewrite !lookup_snoc_Some. intros [[Hi Es]|[-> <-]] [[Hj Es']|[-> <-]] Hk Hk'; [| | |done].
  - destruct (proj1 (freed_owned _ _ _) (conj Es Hk)) as (H1 & _ & _), (proj1 (freed_owned _ _ _) (conj Es' Hk')) as (H2 & _ & _). by apply (once i j s s' k).
  - destruct (proj1 (freed_owned _ _ _) (conj Es Hk)) as (_ & _ & ?). congruence.
  - destruct (proj1 (freed_owned _ _ _) (conj Es' Hk')) as (_ & _ & ?). congruence.
Qed.

End Free.

Lemma slot_append_ok l d m owner path blob oi :
  slots_ok l d -> holds l m -> len blob <= maxBlob ->
  match oi with Some i => exists s, l !! i = Some s /\ skey s = Some (ikey_of owner path) | None => find (ikey_of owner path) d = None end ->
  let dd := dead d + match oi with Some i => default 0 ((fun s => len (enc s)) <$> l !! i) | None => 0 end in
  exists l', slots_ok l' (append_slot owner path blob dd d) /\ holds l' (<[ikey_of owner path := blob]> m).
Proof.
  intros HS HM Hb Hoi dd. set (ik := ikey_of owner path) in *. destruct (fresh_ok ik blob Hb) as (Hf & Hfb & Hfe). pose proof HS as [Hslab Hwf Hix Honce Hdead].
  assert (Hat : match oi with Some i => exists s, l !! i = Some s /\ skey s = Some ik | None => forall s, s ∈ l -> skey s <> Some ik end).
  { destruct oi as [i|]; [done|]. intros s [j Hj]%list_elem_of_lookup Hk. rewrite (proj2 (Hix ik (start l j))) in Hoi; [done|by exists j, s]. }
  exists (freed l oi ++ [fresh ik blob]). split; [split|].
  - unfold append_slot, setOffset. destruct (packPath path); cbn [slab with_slab]; rewrite flat_slots_app, freed_flat, flat_cons, Hslab, Hfe; change (flat []) with (@nil Z); by rewrite app_nil_r.
  - apply Forall_app. split; [by apply freed_wf|by constructor].
  - intros k off. rewrite (freed_index l ik oi Honce Hat (fresh ik blob) k off eq_refl). unfold append_slot. rewrite find_setOffset. fold ik.
    case_decide; [rewrite Hslab; naive_solver|]. apply Hix.
  - intros i j s s' k. by apply (freed_once l ik oi Honce Hat).
  - rewrite dead_size_app, (freed_dead l ik oi Hat), <- Hdead. unfold append_slot, setOffset. destruct (packPath path); cbn [dead with_slab dead_size foldr fresh skey]; unfold dd; lia.
  - rewrite <- Hfb at 2. by apply freed_holds.
Qed.

Lemma in_place_ok l d m i s blob :
  slots_ok l d -> holds l m -> l !! i = Some s -> len blob <= len (sdata s) -> forall ik, skey s = Some ik ->
  slots_ok (<[i := overwrite s blob]> l) (with_slab (flat (<[i := overwrite s blob]> l)) (dead d) d) /\ holds (<[i := overwrite s blob]> l) (<[ik := blob]> m).
Proof.
  intros HS HM Hi Hb ik Hk. pose proof HS as [Hslab Hwf Hix Honce Hdead]. pose proof (Forall_lookup_1 _ _ _ _ Hwf Hi) as Hs.
  destruct (overwrite_ok s blob Hs Hb) as (Ho & Hl & Hbo). assert (Hsz : len (enc (overwrite s blob)) = len (enc s)) by (rewrite !len_slot_enc; lia).
  assert (Hkeys : forall j t, <[i := overwrite s blob]> l !! j = Some t -> exists t0, l !! j = Some t0 /\ skey t = skey t0 /\ (j <> i -> t = t0)).
  { intros j t. rewrite list_lookup_insert_Some. intros [(-> & <- & _)|(? & ?)]; [by exists s|by exists t]. }
  assert (Hback : forall j t0, l !! j = Some t0 -> exists t, <[i := overwrite s blob]> l !! j = Some t /\ skey t = skey t0 /\ (j <> i -> t = t0)).
  { intros j t0 Hj. destruct (decide (j = i)) as [->|Hne]; [|exists t0; by rewrite list_lookup_insert_ne].
    exists (overwrite s blob). rewrite list_lookup_insert_eq by (by apply lookup_lt_Some in Hi). rewrite Hi in Hj. by injection Hj as <-. }
  split; [split|].
  - done.
  - by apply Forall_insert.
  - intros k off. change (find k (with_slab _ _ d)) with (find k d). rewrite Hix. assert (Hst : forall j, start (<[i := overwrite s blob]> l) j = start l j) by (intros j; by apply (start_insert l i s)). split.
    + intros (j & t & Hj & Hkt & ->). destruct (Hback j t Hj) as (t' & ? & E & _). exists j, t'. rewrite Hst. split_and!; [done|congruence|done].
    + intros (j & t & Hj & Hkt & ->). destruct (Hkeys j t Hj) as (t' & ? & E & _). exists j, t'. rewrite Hst. split_and!; [done|congruence|done].
  - intros j j' t t' k Hj Hj' Hkt Hkt'. destruct (Hkeys _ _ Hj) as (u & ? & E & _), (Hkeys _ _ Hj') as (u' & ? & E' & _). apply (Honce j j' u u' k); congruence.
  - cbn [dead with_slab]. rewrite (dead_size_insert _ _ _ _ Hi). cbn [overwrite skey]. rewrite Hk. lia.
  - intros k b. destruct (decide (k = ik)) as [->|Hne].
    + rewrite lookup_insert_eq. split.
      * intros [= <-]. exists (overwrite s blob). split_and!; try done. apply list_elem_of_lookup. exists i. rewrite list_lookup_insert_eq; [done|by apply lookup_lt_Some in Hi].
      * intros (t & [j Hj]%list_elem_of_lookup & Hkt & <-). destruct (Hkeys _ _ Hj) as (t0 & Hj0 & E & _). assert (j = i) as -> by (apply (Honce j i t0 s ik); congruence).
        rewrite list_lookup_insert_eq in Hj by (by apply lookup_lt_Some in Hi). injection Hj as <-. by rewrite Hbo.
    + rewrite lookup_insert_ne, (HM k b) by done. split; intros (t & [j Hj]%list_elem_of_lookup & Hkt & Hbt).
      * exists t. split_and!; try done. apply list_elem_of_lookup. exists j. rewrite list_lookup_insert_ne; [done|]. intros <-. congruence.
      * destruct (Hkeys _ _ Hj) as (t0 & Hj0 & E & Hsame). destruct (decide (j = i)) as [->|Hji]; [congruence|]. rewrite (Hsame Hji) in *. exists t0. split_and!; try done. by apply list_elem_of_lookup_2 in Hj0.
Qed.

Lemma put_ok l d m owner path blob :
  slots_ok l d -> holds l m -> len blob <= maxBlob ->
  exists d' l', put owner path blob d = Ok d' /\ slots_ok l' d' /\ holds l' (<[ikey_of owner path := blob]> m).
Proof.
  intros HS HM Hb. unfold put. rewrite offset_find. destruct (find (ikey_of owner path) d) as [off|] eqn:Ef.
  - apply (so_index _ _ HS) in Ef as (i & s & Hi & Hk & ->). pose proof (Forall_lookup_1 _ _ _ _ (so_wf _ _ HS) Hi) as Hs.
    rewrite (so_slab _ _ HS), (flat_at _ _ _ Hi). unfold start. rewrite read_cap by done. cbn [rbind]. destruct (Z.leb_spec (len blob) (len (sdata s))) as [Hle|Hgt].
    + pose proof (write_in_place (flat (take i l)) s (flat (drop (S i) l)) blob Hs Hle) as Hw. apply rbind_Ok in Hw as (b & E1 & E2). rewrite E1. cbn [rbind]. rewrite E2. cbn [rbind].
      destruct (in_place_ok l d m i s blob HS HM Hi Hle _ Hk) as [HS' HM']. eexists _, _. split; [|split; [apply HS'|apply HM']]. do 2 f_equal.
      rewrite insert_take_drop by (by apply lookup_lt_Some in Hi). by rewrite flat_mid.
    + destruct (slot_append_ok l d m owner path blob (Some i) HS HM Hb) as (l' & HS' & HM'); [by exists s|]. eexists _, l'. split; [|done]. do 2 f_equal.
      rewrite Hi. unfold default, id. cbn [fmap option_fmap option_map from_option]. rewrite len_slot_enc. lia.
  - destruct (slot_append_ok l d m owner path blob None HS HM Hb Ef) as (l' & HS' & HM'). eexists _, l'. split; [|done]. do 2 f_equal. lia.
Qed.

(** ** Compaction *)

Lemma move_slot l i s new : Forall slot_ok l -> l !! i = Some s -> move (flat l) (start l i) new = Ok (new ++ enc s, len new).
Proof.
  intros Hw Hi. pose proof (Forall_lookup_1 _ _ _ _ Hw Hi) as Hs. unfold move, start. rewrite (flat_at _ _ _ Hi), read_cap by done. cbn [rbind].
  rewrite (slice_app (flat (take i l)) (enc s)) by (rewrite ?len_slot_enc; lia). done.
Qed.

Lemma start_end l k : start (l ++ k) (length l) = len (flat l).
Proof. unfold start. by rewrite take_app_length. Qed.

(** One loop: the slots it moves, in the order it visits their owners, and where the
    map points afterwards. *)
Lemma move_all_ok {K} `{Countable K} (ij : K -> ikey) `{!Inj (=) (=) ij} l order (m : gmap K Z) lnew :
  Forall slot_ok l -> NoDup order ->
  (forall k, k ∈ order -> exists i s, l !! i = Some s /\ skey s = Some (ij k) /\ m !! k = Some (start l i)) ->
  exists m' lm, move_all (flat l) order m (flat lnew) = Ok (m', flat (lnew ++ lm)) /\ skey <$> lm = Some ∘ ij <$> order /\ Forall (fun s => s ∈ l) lm /\
    (forall k off, m' !! k = Some off <->
      (exists j s, lm !! j = Some s /\ skey s = Some (ij k) /\ off = start (lnew ++ lm) (length lnew + j)) \/ (k ∉ order /\ m !! k = Some off)).
Proof.
  intros Hw. revert m lnew. induction order as [|k order IH]; intros m lnew Hnd Hin.
  { exists m, []. rewrite app_nil_r. split_and!; try done. intros k off. split; [intros ?; right; split; [apply not_elem_of_nil|done]|]. by intros [(? & ? & ? & _)|[_ ?]]. }
  apply NoDup_cons in Hnd as [Hk Hnd]. destruct (Hin k ltac:(left)) as (i & s & Hi & Hks & Hm). cbn [move_all]. rewrite Hm, (move_slot l i s) by done. cbn [rbind fst snd].
  destruct (IH (<[k := len (flat lnew)]> m) (lnew ++ [s]) Hnd) as (m' & lm & E & Hkeys & Hsub & Hix).
  { intros k' Hk'. destruct (Hin k' ltac:(by right)) as (i' & s' & ? & ? & ?). exists i', s'. split_and!; try done. rewrite lookup_insert_ne; [done|]. by intros ->. }
  rewrite flat_slots_app in E. change (flat [s]) with (enc s ++ []) in E. rewrite app_nil_r in E. rewrite <- app_assoc in E.
  exists m', (s :: lm). split_and!; [done|cbn [fmap list_fmap]; by rewrite Hks, Hkeys|constructor; [by apply list_elem_of_lookup_2 in Hi|done]|].
  intros k' off. rewrite Hix. rewrite <- app_assoc, length_app. cbn [app length]. split.
  - intros [(j & t & Hj & Hkt & ->)|[Hnin Hl]].
    + left. exists (S j), t. split_and!; try done. f_equal. lia.
    + destruct (decide (k' = k)) as [->|Hne].
      * rewrite lookup_insert_eq in Hl. injection Hl as <-. left. exists 0%nat, s. rewrite Nat.add_0_r, start_end. done.
      * rewrite lookup_insert_ne in Hl by done. right. split; [by apply not_elem_of_cons|done].
  - intros [([|j] & t & Hj & Hkt & ->)|[Hnin Hl]].
    + cbn in Hj. injection Hj as <-. rewrite Hks in Hkt. injection Hkt as <-%(inj ij). right. split; [done|]. by rewrite lookup_insert_eq, Nat.add_0_r, start_end.
    + left. exists j, t. split_and!; try done. f_equal. lia.
    + apply not_elem_of_cons in Hnin as [Hne Hnin]. right. split; [done|]. by rewrite lookup_insert_ne.
Qed.

#[export] Instance inl_inj_ikey : Inj (=) (=) (inl : (Hash * Z) -> ikey).
Proof. by intros ? ? [= ->]. Qed.
#[export] Instance inr_inj_ikey : Inj (=) (=) (inr : bytes -> ikey).
Proof. by intros ? ? [= ->]. Qed.

(** A list of owned slots, one per owner, taken from [l]. *)
Lemma moved_slots l d m L (keys : list ikey) :
  slots_ok l d -> holds l m -> skey <$> L = Some <$> keys -> NoDup keys -> Forall (fun s => s ∈ l) L ->
  (forall ik, ik ∈ keys <-> is_Some (find ik d)) ->
  Forall slot_ok L /\ (forall i j s s' ik, L !! i = Some s -> L !! j = Some s' -> skey s = Some ik -> skey s' = Some ik -> i = j) /\ dead_size L = 0 /\ holds L m.
Proof.
  intros HS HM Hkeys Hnd Hsub Hall. pose proof HS as [_ Hwf Hix Honce _]. rewrite Forall_forall in Hsub, Hwf.
  assert (Hat : forall i s ik, L !! i = Some s -> skey s = Some ik -> keys !! i = Some ik).
  { intros i s ik Hi Hk. assert (E : (skey <$> L) !! i = Some (Some ik)) by (by rewrite list_lookup_fmap, Hi; cbn; rewrite Hk).
    rewrite Hkeys, list_lookup_fmap in E. destruct (keys !! i); [|done]. by injection E as ->. }
  split_and!.
  - apply Forall_forall. intros s Hs. apply Hwf, Hsub, Hs.
  - intros i j s s' ik Hi Hj Hk Hk'. apply (NoDup_lookup keys i j ik); [done|by apply (Hat i s)|by apply (Hat j s')].
  - clear - Hkeys. revert keys Hkeys. induction L as [|s L IH]; intros [|k keys] E; try done. cbn [fmap list_fmap] in E. injection E as E1 E2. cbn [dead_size foldr]. rewrite E1. specialize (IH keys E2). unfold dead_size in IH. lia.
  - intros ik blob. rewrite (HM ik blob). split.
    + intros (s & Hs & Hk & Hb). apply list_elem_of_lookup in Hs as [i Hi].
      assert (Hin : ik ∈ keys) by (apply Hall; exists (start l i); apply Hix; by exists i, s).
      apply list_elem_of_lookup in Hin as [j Hj]. assert (E : (skey <$> L) !! j = Some (Some ik)) by (by rewrite Hkeys, list_lookup_fmap, Hj).
      rewrite list_lookup_fmap in E. destruct (L !! j) as [t|] eqn:Ht; [|done]. injection E as Et. pose proof (Hsub t ltac:(by apply list_elem_of_lookup_2 in Ht)) as Htl.
      apply list_elem_of_lookup in Htl as [i' Hi']. assert (i = i') as <- by (by apply (Honce i i' s t ik)). rewrite Hi in Hi'. injection Hi' as <-.
      exists s. split_and!; try done. by apply list_elem_of_lookup_2 in Ht.
    + intros (s & Hs & Hk & Hb). exists s. split_and!; auto.
Qed.

Lemma order_spec {K} `{Countable K} (m : gmap K Z) order : order ≡ₚ (map_to_list m).*1 -> NoDup order /\ forall k, k ∈ order <-> is_Some (m !! k).
Proof.
  intros Ho. split; [rewrite Ho; apply NoDup_fst_map_to_list|]. intros k. rewrite Ho, list_elem_of_fmap. split.
  - intros ([k' v] & -> & Hv%elem_of_map_to_list). by exists v.
  - intros [v Hv]. exists (k, v). split; [done|]. by apply elem_of_map_to_list.
Qed.

Lemma compact_ok l d m order lorder :
  slots_ok l d -> holds l m -> order ≡ₚ (map_to_list (idx d)).*1 -> lorder ≡ₚ (map_to_list (long d)).*1 ->
  exists d' l', compact order lorder d = Ok d' /\ slots_ok l' d' /\ holds l' m.
Proof.
  intros HS HM Ho Hlo. unfold compact. destruct (_ || _); [by exists d, l|]. pose proof HS as [Hslab Hwf Hix Honce _].
  destruct (order_spec _ _ Ho) as [Hnd Hin], (order_spec _ _ Hlo) as [Hlnd Hlin]. rewrite Hslab.
  assert (Hfind : forall ik, is_Some (find ik d) -> exists i s, l !! i = Some s /\ skey s = Some ik /\ find ik d = Some (start l i)).
  { intros ik [off Hoff]. pose proof Hoff as Hf. apply Hix in Hoff as (i & s & ? & ? & ->). by exists i, s. }
  destruct (move_all_ok inl l order (idx d) [] Hwf Hnd) as (m1 & l1 & E1 & K1 & S1 & X1); [intros k Hk; apply (Hfind (inl k)); by apply Hin|].
  destruct (move_all_ok inr l lorder (long d) l1 Hwf Hlnd) as (m2 & l2 & E2 & K2 & S2 & X2); [intros k Hk; apply (Hfind (inr k)); by apply Hlin|].
  change (flat []) with (@nil Z) in E1. rewrite E1. cbn [rbind fst snd app]. rewrite E2. cbn [rbind fst snd].
  destruct (moved_slots l d m (l1 ++ l2) ((inl <$> order) ++ (inr <$> lorder)) HS HM) as (W & O & D & HM').
  { rewrite !fmap_app, K1, K2. by rewrite <- !list_fmap_compose. }
  { apply NoDup_app. split_and!; [apply NoDup_fmap_2; [apply _|done]|intros k (x & -> & _)%list_elem_of_fmap (y & ? & _)%list_elem_of_fmap; done|apply NoDup_fmap_2; [apply _|done]]. }
  { by apply Forall_app. }
  { intros [k|k]; rewrite elem_of_app, !list_elem_of_fmap; cbn [find]; [rewrite <- Hin|rewrite <- Hlin]; naive_solver. }
  exists (MkDirty m1 m2 (flat (l1 ++ l2)) 0 (acct d) (droot d)), (l1 ++ l2). split; [done|]. split; [|done]. split; try done.
  assert (H1 : forall j s k, l1 !! j = Some s -> skey s = Some (inr k) -> False).
  { intros j s k Hj Hk. assert (E : (skey <$> l1) !! j = Some (Some (inr k))) by (by rewrite list_lookup_fmap, Hj; cbn; rewrite Hk). rewrite K1, list_lookup_fmap in E. by destruct (order !! j). }
  assert (H2 : forall j s k, l2 !! j = Some s -> skey s = Some (inl k) -> False).
  { intros j s k Hj Hk. assert (E : (skey <$> l2) !! j = Some (Some (inl k))) by (by rewrite list_lookup_fmap, Hj; cbn; rewrite Hk). rewrite K2, list_lookup_fmap in E. by destruct (lorder !! j). }
  intros [k|k] off; cbn [find idx long].
  - rewrite X1. cbn [app length Nat.add]. split.
    + intros [(j & s & Hj & Hk & ->)|[Hn Hm]]; [|exfalso; apply Hn, Hin; by exists off]. apply lookup_lt_Some in Hj as Hlt. exists j, s. rewrite lookup_app_l, start_app_l by lia. done.
    + intros (j & s & Hj & Hk & ->). left. apply lookup_app_Some in Hj as [Hj|[_ Hj]]; [|by destruct (H2 _ _ _ Hj Hk)]. apply lookup_lt_Some in Hj as Hlt. exists j, s. by rewrite start_app_l by lia.
  - rewrite X2. split.
    + intros [(j & s & Hj & Hk & ->)|[Hn Hm]]; [|exfalso; apply Hn, Hlin; by exists off]. exists (length l1 + j)%nat, s. rewrite lookup_app_r by lia. split_and!; try done. by replace (length l1 + j - length l1)%nat with j by lia.
    + intros (j & s & Hj & Hk & ->). left. apply lookup_app_Some in Hj as [Hj|[Hge Hj]]; [by destruct (H1 _ _ _ Hj Hk)|]. exists (j - length l1)%nat, s. split_and!; try done. f_equal. lia.
Qed.

(** ** The overlay is a map *)

Inductive dop := DPut (owner : Hash) (path blob : bytes) | DCompact (order : list (Hash * Z)) (lorder : list bytes).

Definition dapply (o : dop) (d : Dirty) : res Dirty :=
  match o with DPut owner path blob => put owner path blob d | DCompact order lorder => compact order lorder d end.

Fixpoint drun (ops : list dop) (d : Dirty) : res Dirty :=
  match ops with [] => Ok d | o :: ops => let* d := dapply o d in drun ops d end.

(** The operations are put to trie positions, with blobs a slot can hold, and each
    compaction visits the two maps in some order. *)
Fixpoint dops_ok (ops : list dop) (d : Dirty) : Prop :=
  match ops with
  | [] => True
  | o :: ops =>
      match o with
      | DPut owner path blob => valid owner path /\ len blob <= maxBlob
      | DCompact order lorder => order ≡ₚ (map_to_list (idx d)).*1 /\ lorder ≡ₚ (map_to_list (long d)).*1
      end /\ forall d', dapply o d = Ok d' -> dops_ok ops d'
  end.

(** What was last put at each position. *)
Definition dspec (ops : list dop) (m : gmap (Hash * bytes) bytes) : gmap (Hash * bytes) bytes :=
  foldl (fun m o => match o with DPut owner path blob => <[(owner, path) := blob]> m | DCompact _ _ => m end) m ops.

Lemma dead_bounds l : 0 <= dead_size l <= len (flat l).
Proof.
  induction l as [|s l IH]; [done|]. rewrite flat_cons, len_app. cbn [dead_size foldr]. unfold dead_size in IH. rewrite len_slot_enc. pose proof (len_nonneg (sdata s)). destruct (skey s); lia.
Qed.

Lemma drun_ok ops l d mi m :
  slots_ok l d -> holds l mi -> (forall o p, valid o p -> mi !! ikey_of o p = m !! (o, p)) -> dops_ok ops d ->
  exists d' l' mi', drun ops d = Ok d' /\ slots_ok l' d' /\ holds l' mi' /\ (forall o p, valid o p -> mi' !! ikey_of o p = dspec ops m !! (o, p)).
Proof.
  revert l d mi m. induction ops as [|o ops IH]; intros l d mi m HS HM Hm Hok; [by exists d, l, mi|]. cbn [drun dops_ok dspec foldl] in *. destruct Hok as [Ho Hok].
  destruct o as [owner path blob|order lorder]; cbn [dapply] in *.
  - destruct Ho as [Hv Hb]. destruct (put_ok l d mi owner path blob HS HM Hb) as (d1 & l1 & E & HS1 & HM1). rewrite E. cbn [rbind].
    apply (IH l1 d1 _ _ HS1 HM1); [|by apply Hok]. intros o p Hop. destruct (decide ((o, p) = (owner, path))) as [[= -> ->]|Hne]; [by rewrite !lookup_insert_eq|].
    rewrite !lookup_insert_ne; [by apply Hm|congruence|]. intros Hik. apply Hne. by destruct (ikey_inj _ _ _ _ Hv Hop Hik) as [-> ->].
  - destruct Ho as [Ho1 Ho2]. destruct (compact_ok l d mi order lorder HS HM Ho1 Ho2) as (d1 & l1 & E & HS1 & HM1). rewrite E. cbn [rbind].
    apply (IH l1 d1 mi m HS1 HM1 Hm). by apply Hok.
Qed.

(** C19: the slab of retained nodes is a map from trie positions to blobs. After any
    sequence of puts and compactions of a fresh overlay, in place rewrites, slots
    that outgrow their room and the copying of the live slots included, nothing has
    failed, the lookup of every position returns the blob last put there and of the
    others nothing, and the accounted dead space is part of the slab. *)
Theorem dirty_refines_map r ops :
  dops_ok ops (Reset r) ->
  exists d, drun ops (Reset r) = Ok d /\ 0 <= dead d <= Bytes d /\
    forall owner path, valid owner path -> lookup owner path d = Ok (dspec ops ∅ !! (owner, path)).
Proof.
  intros Hok. destruct (drun_ok ops [] (Reset r) ∅ ∅) as (d & l & mi & E & HS & HM & Hm); try done; [apply slots_reset| |].
  { intros ik blob. rewrite lookup_empty. split; [done|]. by intros (s & ?%not_elem_of_nil & _). }
  pose proof (dead_bounds l) as Hb. rewrite <- (so_slab _ _ HS), <- (so_dead _ _ HS) in Hb. exists d. split_and!; [done|by destruct Hb..|].
  intros owner path Hv. rewrite (lookup_ok l d mi owner path HS HM). by rewrite Hm.
Qed.

Definition owner0 : Hash := replicate 32 7.

(** A node that shrinks, one that outgrows its slot, and one on a long path. *)
Definition sample_puts : list dop :=
  [DPut owner0 [1; 2] [9; 9; 9]; DPut owner0 [] (replicate 70 1); DPut owner0 [1; 2] [4]; DPut owner0 [] (replicate 200 2);
   DPut owner0 (replicate 20 3) [5; 6]].

Lemma sample_puts_ok : dops_ok sample_puts (Reset owner0).
Proof.
  repeat (split; [split; [split; [done|repeat constructor; lia]|vm_compute; discriminate]|]; intros ? E; clear E). done.
Qed.

Lemma dirty_refines_map_witness :
  exists d, drun sample_puts (Reset owner0) = Ok d /\ lookup owner0 [1; 2] d = Ok (Some [4]) /\ lookup owner0 [] d = Ok (Some (replicate 200 2)) /\
    lookup owner0 (replicate 20 3) d = Ok (Some [5; 6]) /\ lookup owner0 [5] d = Ok None.
Proof.
  destruct (dirty_refines_map owner0 sample_puts sample_puts_ok) as (d & E & _ & H). exists d. split; [done|].
  split_and!; rewrite H by (split; [done|repeat constructor; lia]); reflexivity.
Defined.

(** ** The queued writes of a round *)

Inductive write := WAcct (h : Hash) (value : bytes) | WSlot (h k : Hash) (value : bytes).

Definition key_of (w : write) : bytes := match w with WAcct h _ => h ++ [0] | WSlot h k _ => h ++ 1 :: k end.
Definition value_of (w : write) : bytes := match w with WAcct _ v | WSlot _ _ v => v end.
Definition write_ok (w : write) : Prop := match w with WAcct h _ => length h = 32%nat | WSlot h k _ => length h = 32%nat /\ length k = 32%nat end.

Fixpoint apply_all (ws : list write) (d : Dirty) : res Dirty :=
  match ws with [] => Ok d | w :: ws => let* d := Apply (key_of w) (value_of w) d in apply_all ws d end.

Definition account_of (w : write) : Hash := match w with WAcct h _ | WSlot h _ _ => h end.
Definition deletes (w : write) : bool := match w with WAcct _ v => len v =? 0 | WSlot _ _ _ => false end.

(** The writes of an account, and those after its last delete. *)
Definition writes_of (h : Hash) (ws : list write) : list write := List.filter (fun w => bool_decide (account_of w = h)) ws.
Definition since_delete (ws : list write) : list write := foldl (fun acc w => if deletes w then [] else acc ++ [w]) [] ws.
Definition rows (ws : list write) : list bytes := omap (fun w => match w with WAcct _ v => Some v | WSlot _ _ _ => None end) ws.
Definition slot_writes (ws : list write) : list (Hash * bytes) := omap (fun w => match w with WSlot _ k v => Some (k, v) | WAcct _ _ => None end) ws.

(** What is queued for an account whose writes, in order, are [ws]. *)
Definition queued (ws : list write) : pending :=
  let deleted := existsb deletes ws in
  let post := since_delete ws in
  Pending (last (rows post)) (deleted && bool_decide (rows post = [])) deleted
    (if bool_decide (slot_writes post = []) then None else Some (foldl (fun m kv => <[kv.1 := kv.2]> m) ∅ (slot_writes post))).

Lemma Apply_write w d : write_ok w ->
  Apply (key_of w) (value_of w) d = Ok (set_acct (account_of w)
    (let p := touch (account_of w) d in
     match w with
     | WAcct _ v => if len v =? 0 then Pending None true true None else Pending (Some v) false (wiped p) (pslots p)
     | WSlot _ k v => Pending (row p) (del p) (wiped p) (Some (<[k := v]> (default ∅ (pslots p))))
     end) d).
Proof.
  destruct w as [h v|h k v]; cbn [write_ok key_of value_of account_of]; unfold Apply.
  - intros Hh. rewrite len_app, (list_lookup_middle h [] 0 32) by done. unfold len at 1. rewrite Hh. cbn [Z.eqb andb]. rewrite take_app_length' by done. by destruct (len v =? 0).
  - intros [Hh Hk]. rewrite len_app, len_cons, (list_lookup_middle h k 1 32) by done. unfold len at 1 2 4 5. rewrite Hh, Hk. cbn [Z.eqb andb].
    rewrite take_app_length' by done. change (1 :: k) with ([1] ++ k). rewrite app_assoc, drop_app_length' by (rewrite length_app, Hh; done). done.
Qed.

Lemma since_app ws w : since_delete (ws ++ [w]) = if deletes w then [] else since_delete ws ++ [w].
Proof. unfold since_delete. by rewrite foldl_app. Qed.

Lemma queued_snoc ws w : queued (ws ++ [w]) =
  let p := queued ws in
  match w with
  | WAcct _ v => if len v =? 0 then Pending None true true None else Pending (Some v) false (wiped p) (pslots p)
  | WSlot _ k v => Pending (row p) (del p) (wiped p) (Some (<[k := v]> (default ∅ (pslots p))))
  end.
Proof.
  unfold queued. cbv zeta. rewrite existsb_app, since_app. destruct w as [h v|h k v]; cbn [deletes existsb wiped row del pslots].
  - destruct (len v =? 0) eqn:E; [by rewrite orb_true_r|]. rewrite !orb_false_r. unfold rows, slot_writes. rewrite !omap_app. cbn [omap list_omap]. rewrite app_nil_r, last_snoc.
    f_equal. rewrite bool_decide_eq_false_2 by (by destruct (omap _ _)). by rewrite andb_false_r.
  - rewrite !orb_false_r. unfold rows, slot_writes. rewrite !omap_app. cbn [omap list_omap]. rewrite app_nil_r. f_equal. set (l := omap _ (since_delete ws)).
    rewrite (bool_decide_eq_false_2 (l ++ _ = [])) by (by destruct l). rewrite foldl_app. cbn [foldl fst snd]. f_equal. destruct l; [done|]. by rewrite bool_decide_eq_false_2.
Qed.

(** the writes of a round collapse to what each account's last delete left: the
    row last written since, the slots last written since, whether its storage starts
    empty (some delete), and whether it is gone (a delete and no row since). Writes to
    other accounts do not interfere, and no well-formed key is refused. *)
Theorem apply_queues r ws :
  Forall write_ok ws -> exists d, apply_all ws (Reset r) = Ok d /\
    forall h, acct d !! h = if bool_decide (writes_of h ws = []) then None else Some (queued (writes_of h ws)).
Proof.
  assert (Happ : forall l w d, apply_all (l ++ [w]) d = let* d := apply_all l d in Apply (key_of w) (value_of w) d).
  { intros l w. induction l as [|x l IH]; intros d; cbn [apply_all app]; [cbn [rbind]; by destruct (Apply _ _ _)|]. destruct (Apply (key_of x) (value_of x) d); cbn [rbind]; [apply IH|done|done]. }
  induction ws as [|w ws IH] using rev_ind; intros Hw.
  { exists (Reset r). split; [done|]. intros h. apply lookup_empty. }
  apply Forall_app in Hw as [Hw Hw1]. rewrite Forall_singleton in Hw1. destruct (IH Hw) as (d & E & Hd). rewrite Happ, E. cbn [rbind]. rewrite Apply_write by done. eexists. split; [done|].
  intros h. cbn [set_acct acct]. unfold writes_of. rewrite List.filter_app. cbn [List.filter]. destruct (decide (account_of w = h)) as [<-|Hne].
  - rewrite (bool_decide_eq_true_2 (account_of w = account_of w)) by done. rewrite lookup_insert_eq. rewrite (bool_decide_eq_false_2 (_ ++ _ = [])) by (by destruct (List.filter _ _)). f_equal.
    rewrite queued_snoc. unfold touch. rewrite (Hd (account_of w)). fold (writes_of (account_of w) ws).
    assert (Eq : default no_pending (if bool_decide (writes_of (account_of w) ws = []) then None else Some (queued (writes_of (account_of w) ws))) = queued (writes_of (account_of w) ws)).
    { case_bool_decide as Hb; [|done]. by rewrite Hb. }
    by rewrite Eq.
  - rewrite (bool_decide_eq_false_2 (account_of w = h)) by done. rewrite app_nil_r, lookup_insert_ne by done. apply Hd.
Qed.

Lemma apply_queues_witness :
  exists d, apply_all [WSlot owner0 owner0 [1]; WAcct owner0 []; WSlot owner0 owner0 [2]; WAcct owner0 [192]] (Reset owner0) = Ok d /\
    acct d !! owner0 = Some (Pending (Some [192]) false true (Some {[ owner0 := [2] ]})).
Proof.
  destruct (apply_queues owner0 [WSlot owner0 owner0 [1]; WAcct owner0 []; WSlot owner0 owner0 [2]; WAcct owner0 [192]]) as (d & E & H); [repeat constructor|].
  exists d. split; [done|]. rewrite H. by vm_compute.
Defined.

End Dirty.
