(* ===== verification/NodeFile.v ===== *)
(** * commit/commit.go and commit/file.go: the node file

    [emit] is the StackTrie writer callback: it appends each internal node with the
    file offsets of its children, which were written before it and wait in [pending]
    under their paths. [Node] walks those offsets down a path, [index] finds an
    account's storage trie, [finish] and [parseFooter] are the trailer. The trie
    library and the RLP decoders are parameters; the file's bytes and offsets are
    modelled as they are, [writer.off] being the length written so far. *)

From S2P Require Import Prelude Bytes Nibbles LatestRun.
Import Nibbles LatestRun.LatestRun.

Module NodeFile.

Definition magic : bytes := str "EPCHCMT1".
Definition version : Z := 1.
Definition tagBranch : Z := 1.
Definition tagExt : Z := 2.
Definition indexEntry : Z := 72.
Definition footerSize : Z := 8 + 4 + 8 + 32 + 8 + 8 + 8 + 8 + 32 + 4.

Record writer := MkWriter { wout : bytes; pending : gmap bytes Z; rootOff : Z; nodes : Z }.

Section Rlp.
(** rlp.SplitList, rlp.CountValues and rlp.SplitString, the parts the code uses. *)
Context (SplitList : bytes -> option bytes) (CountValues : bytes -> Z) (SplitString : bytes -> bytes).

(** The offsets of the 16 children, taken out of [pending]. *)
Fixpoint take_children (path : bytes) (ix : list Z) (m : gmap bytes Z) : list Z * gmap bytes Z :=
  match ix with
  | [] => ([], m)
  | i :: ix =>
      let child := path ++ [i] in
      let r := take_children path ix (delete child m) in
      (default 0 (m !! child) :: r.1, r.2)
  end.

Definition put_node (path blob : bytes) (tag : Z) (children : list Z) (m : gmap bytes Z) (w : writer) : writer :=
  let off := len (wout w) in
  let out := wout w ++ [tag] ++ append_uvarint (len blob) ++ blob ++ flat_map append_uvarint children in
  match path with
  | [] => MkWriter out m off (u64 (nodes w + 1))
  | _ => MkWriter out (<[path := off]> m) (rootOff w) (u64 (nodes w + 1))
  end.

Definition emit (path blob : bytes) (w : writer) : res writer :=
  match SplitList blob with
  | None => Panic
  | Some content =>
      let n := CountValues content in
      if n =? 17 then
        let (children, m) := take_children path (seqZ 0 16) (pending w) in
        Ok (put_node path blob tagBranch children m w)
      else if n =? 2 then
        let key := SplitString content in
        let* k0 := index key 0 in
        if negb (Z.land k0 32 =? 0) then Ok w
        else
          let* nib := compactToHex key in
          let child := path ++ nib in
          Ok (put_node path blob tagExt [default 0 (pending w !! child)] (delete child (pending w)) w)
      else Panic
  end.

(** ** file.go, Node *)

(** Skip [n] varints. *)
Fixpoint skip_varints (n : nat) (rest : bytes) : res bytes :=
  match n with
  | O => Ok rest
  | S n => let* rest := slice_from rest (uvarint rest).2 in skip_varints n rest
  end.

(** The walk from [off]; the fuel is the number of nodes it may visit. *)
Fixpoint walk_node (fuel : nat) (m : bytes) (off : Z) (path : bytes) : res (option bytes) :=
  if off =? 0 then Ok None
  else match fuel with
  | O => Err "still walking"
  | S fuel =>
      let* tag := Prelude.index m off in
      let* r := slice_from m (off + 1) in
      let (n, k) := uvarint r in
      let* blob := slice m (off + 1 + k) (off + 1 + k + i64 n) in
      let* rest := slice_from m (off + 1 + k + i64 n) in
      match path with
      | [] => Ok (Some blob)
      | p0 :: path' =>
          if tag =? tagBranch then
            let* rest := skip_varints (Z.to_nat p0) rest in
            walk_node fuel m (i64 (uvarint rest).1) path'
          else if tag =? tagExt then
            let* nib := compactToHex (SplitString (default [] (SplitList blob))) in
            if negb (has_prefix path nib) then Ok None
            else walk_node fuel m (i64 (uvarint rest).1) (drop (length nib) path)
          else Ok None
      end
  end.

End Rlp.

(** ** The index and the footer *)

Record footer := Footer { froot_off : Z; fidx_off : Z; froot : bytes; fnodes : Z; fkeys : Z; fidxN : Z; fuser : bytes }.

Definition footer_bytes (f : footer) : bytes :=
  let b := magic ++ litE 4 version ++ litE 8 (froot_off f) ++ froot f ++ litE 8 (fnodes f) ++ litE 8 (fkeys f)
             ++ litE 8 (fidx_off f) ++ litE 8 (fidxN f) ++ fuser f in
  b ++ litE 4 (crc32_ChecksumIEEE b).

(** [finish]: the index file's bytes go after the last node, then the footer. *)
Definition finish (w : writer) (idx root user : bytes) (keys idxN : Z) : bytes :=
  wout w ++ idx ++ footer_bytes (Footer (rootOff w) (len (wout w)) root (nodes w) keys idxN user).

Definition parseFooter (b : bytes) : res footer :=
  if negb (len b =? footerSize) || negb (beqb (take 8 b) magic) then Err "corrupt"
  else
    let* v := (let* t := slice_from b 8 in le_get 4 t) in
    if negb (v =? version) then Err "corrupt"
    else
      let* sum := (let* t := slice_from b (footerSize - 4) in le_get 4 t) in
      let* body := slice b 0 (footerSize - 4) in
      if negb (crc32_ChecksumIEEE body =? sum) then Err "corrupt"
      else
        let* ro := (let* t := slice_from b 12 in le_get 8 t) in
        let* root := slice b 20 52 in
        let* nd := (let* t := slice_from b 52 in le_get 8 t) in
        let* ks := (let* t := slice_from b 60 in le_get 8 t) in
        let* io := (let* t := slice_from b 68 in le_get 8 t) in
        let* ic := (let* t := slice_from b 76 in le_get 8 t) in
        let* user := slice b 84 116 in
        Ok (Footer (i64 ro) (i64 io) root nd ks ic user).

Record File := MkFile { fm : bytes; ft : footer }.

Definition Open (m : bytes) : res File :=
  let size := len m in
  if size <? len magic + footerSize then Err "corrupt"
  else
    let* tail := slice_from m (size - footerSize) in
    let* f := parseFooter tail in
    if negb (beqb (take 8 m) magic) || (size <=? froot_off f) || (fidx_off f <? len magic) ||
       negb (i64 (fidx_off f + i64 (i64 (fidxN f) * indexEntry)) =? size - footerSize) then Err "corrupt"
    else Ok (MkFile m f).

(** [index]: the binary search of the sorted entries. *)
Definition entry (idx : bytes) (i : nat) : bytes := take 72 (drop (72 * i) idx).

Definition find_index (idx : bytes) (n : nat) (acct : bytes) : option bytes :=
  let i := sort_Search n (fun i => negb (bltb (take 32 (entry idx i)) acct)) in
  if Nat.eqb i n then None
  else if beqb (take 32 (entry idx i)) acct then Some (entry idx i) else None.

Definition index (f : File) (acct : bytes) : res (option bytes) :=
  let* idx := slice (fm f) (fidx_off (ft f)) (i64 (fidx_off (ft f) + i64 (i64 (fidxN (ft f)) * indexEntry))) in
  Ok (find_index idx (Z.to_nat (fidxN (ft f))) acct).

Definition StorageRoot (f : File) (emptyRoot acct : bytes) : res (bytes * bool) :=
  let* e := index f acct in
  Ok (match e with None => (emptyRoot, false) | Some e => (take 32 (drop 32 e), true) end).

Definition Node (SplitList : bytes -> option bytes) (SplitString : bytes -> bytes) (fuel : nat) (f : File) (owner path : bytes) : res (option bytes) :=
  if bool_decide (owner = replicate 32 0) then walk_node SplitList SplitString fuel (fm f) (froot_off (ft f)) path
  else
    let* e := index f owner in
    match e with
    | None => Ok None
    | Some e => let* off := le_get 8 (drop 64 e) in walk_node SplitList SplitString fuel (fm f) (i64 off) path
    end.

(** ** The trie a file holds *)

(** A trie as the writer is told of it: a branch, an extension, a hashed leaf, or
    nothing (no child, or one embedded in its parent's blob). *)
Inductive tn := TNone | TLeaf (blob : bytes) | TExt (blob nib : bytes) (c : tn) | TBranch (blob : bytes) (ch : nat -> tn).

Definition internal (t : tn) : bool := match t with TExt _ _ _ | TBranch _ _ => true | _ => false end.

(** The callbacks of a trie at [path]: children first, left to right. *)
Fixpoint emits (path : bytes) (t : tn) : list (bytes * bytes) :=
  match t with
  | TNone => []
  | TLeaf blob => [(path, blob)]
  | TExt blob nib c => emits (path ++ nib) c ++ [(path, blob)]
  | TBranch blob ch => flat_map (fun i => emits (path ++ [Z.of_nat i]) (ch i)) (seq 0 16) ++ [(path, blob)]
  end.

(** The internal node at a path. *)
Fixpoint tree_at (t : tn) (path : bytes) : option bytes :=
  match t with
  | TNone | TLeaf _ => None
  | TExt blob nib c =>
      match path with [] => Some blob | _ => if has_prefix path nib then tree_at c (drop (length nib) path) else None end
  | TBranch blob ch => match path with [] => Some blob | i :: path => tree_at (ch (Z.to_nat i)) path end
  end.

Section Stored.
Context (SplitList : bytes -> option bytes) (CountValues : bytes -> Z) (SplitString : bytes -> bytes).

(** The blobs decode to what the nodes are. *)
Fixpoint shape (t : tn) : Prop :=
  match t with
  | TNone => True
  | TLeaf blob => exists content k0 key, SplitList blob = Some content /\ CountValues content = 2 /\ SplitString content = k0 :: key /\ Z.land k0 32 <> 0
  | TExt blob nib c => exists content k0 key, SplitList blob = Some content /\ CountValues content = 2 /\ SplitString content = k0 :: key /\ Z.land k0 32 = 0 /\
      compactToHex (k0 :: key) = Ok nib /\ nib <> [] /\ shape c
  | TBranch blob ch => exists content, SplitList blob = Some content /\ CountValues content = 17 /\ forall i, (i < 16)%nat -> shape (ch i)
  end.

(** Offsets and lengths of a file: what a Go int holds. *)
Definition off_ok (x : Z) : Prop := 0 <= x < 2 ^ 63.

Lemma off_u64 x : off_ok x -> u64_ok x.
Proof. unfold off_ok, u64_ok. lia. Qed.

Lemma off_i64 x : off_ok x -> i64 x = x.
Proof. unfold off_ok. intros. apply i64_small. lia. Qed.

(** The node's bytes are at [off] of the file and its children where they say. *)
Fixpoint stored (m : bytes) (off : Z) (t : tn) : Prop :=
  match t with
  | TNone | TLeaf _ => off = 0
  | TExt blob nib c => exists a o r, 0 < off /\ off = len a /\ m = a ++ [tagExt] ++ append_uvarint (len blob) ++ blob ++ append_uvarint o ++ r /\
      off_ok (len blob) /\ off_ok o /\ stored m o c
  | TBranch blob ch => exists a os r, 0 < off /\ off = len a /\ m = a ++ [tagBranch] ++ append_uvarint (len blob) ++ blob ++ flat_map append_uvarint os ++ r /\
      off_ok (len blob) /\ length os = 16%nat /\ Forall off_ok os /\ forall i o, os !! i = Some o -> stored m o (ch i)
  end.

Lemma stored_app t m off x : stored m off t -> stored (m ++ x) off t.
Proof.
  revert off. induction t as [| |blob nib c IH|blob ch IH]; intros off; cbn [stored]; try done.
  - intros (a & o & r & ? & ? & -> & ? & ? & Hs). exists a, o, (r ++ x). split_and!; try done; [by rewrite <- !app_assoc|by apply IH].
  - intros (a & os & r & ? & ? & -> & ? & ? & ? & Hs). exists a, os, (r ++ x). split_and!; try done; [by rewrite <- !app_assoc|]. intros i o Hi. by apply IH, Hs.
Qed.

Lemma stored_zero t m off : stored m off t -> (off = 0 <-> internal t = false).
Proof. destruct t; cbn [stored internal]; [done|done| |]; intros (? & ? & ? & ? & _); split; intros; lia || done. Qed.

Lemma skip_children os r i o : Forall off_ok os -> os !! i = Some o ->
  exists r', skip_varints i (flat_map append_uvarint os ++ r) = Ok (append_uvarint o ++ r').
Proof.
  revert i. induction os as [|x os IH]; intros [|i] Hf Hi; try done; apply Forall_cons in Hf as [Hx Hf]; cbn [flat_map].
  - injection Hi as ->. cbn [skip_varints]. rewrite <- app_assoc. by eexists.
  - cbn [skip_varints]. rewrite <- app_assoc, uvarint_append by (by apply off_u64). cbn [snd]. rewrite slice_tail by done. cbn [rbind]. by apply IH.
Qed.

(** The header of a node: its tag, its blob and what follows. *)
Lemma read_node m a tag blob r :
  m = a ++ [tag] ++ append_uvarint (len blob) ++ blob ++ r -> off_ok (len blob) ->
  Prelude.index m (len a) = Ok tag /\
  (let* r := slice_from m (len a + 1) in Ok (uvarint r)) = Ok (len blob, len (append_uvarint (len blob))) /\
  slice m (len a + 1 + len (append_uvarint (len blob))) (len a + 1 + len (append_uvarint (len blob)) + len blob) = Ok blob /\
  slice_from m (len a + 1 + len (append_uvarint (len blob)) + len blob) = Ok r.
Proof.
  intros -> Hb. split_and!.
  - by apply index_app.
  - rewrite (app_assoc a), slice_tail by (by rewrite len_app). cbn [rbind]. rewrite uvarint_append by (by apply off_u64). done.
  - rewrite (app_assoc a), (app_assoc (a ++ [tag])). apply slice_app; rewrite ?len_app, ?len_cons, ?len_nil; lia.
  - rewrite (app_assoc a), (app_assoc (a ++ [tag])), (app_assoc ((a ++ [tag]) ++ _)). apply slice_tail. rewrite !len_app, len_cons, len_nil. lia.
Qed.

(** Walking the offsets of a stored trie is walking the trie. *)
Lemma walk_stored t m off path fuel :
  shape t -> stored m off t -> Forall nib_ok path -> (length path < fuel)%nat ->
  walk_node SplitList SplitString fuel m off path = Ok (tree_at t path).
Proof.
  revert off path fuel. induction t as [| |blob nib c IH|blob ch IH]; intros off path fuel Hsh Hst Hp Hf; cbn [stored] in Hst.
  - subst off. by destruct fuel.
  - subst off. by destruct fuel.
  - destruct Hsh as (content & k0 & key & EL & EC & ES & Ek & Ehex & Hnib & Hc). destruct Hst as (a & o & r & Hpos & -> & Em & Hb & Ho & Hso).
    destruct (read_node m a tagExt blob (append_uvarint o ++ r) Em Hb) as (R1 & R2 & R3 & R4). destruct fuel as [|fuel]; [lia|]. cbn [walk_node]. rewrite (proj2 (Z.eqb_neq (len a) 0)) by lia.
    rewrite R1. cbn [rbind]. destruct (slice_from m (len a + 1)) as [r0| |]; try done. cbn [rbind] in R2 |- *. injection R2 as R2. rewrite R2, (off_i64 _ Hb), R3. cbn [rbind]. rewrite R4. cbn [rbind tree_at].
    destruct path as [|p0 path']; [done|]. rewrite EL. cbn [default from_option id]. unfold default, id. rewrite ES, Ehex. cbn [Z.eqb tagExt tagBranch rbind].
    change (tagExt =? tagBranch) with false. change (tagExt =? tagExt) with true. cbv iota. destruct (has_prefix (p0 :: path') nib) eqn:Epre; cbn [negb]; [|done].
    rewrite uvarint_append by (by apply off_u64). cbn [fst]. rewrite (off_i64 _ Ho). apply IH; try done; [by apply Forall_drop|]. rewrite length_drop. destruct nib; [done|]. cbn [length] in *. lia.
  - destruct Hsh as (content & EL & EC & Hch). destruct Hst as (a & os & r & Hpos & -> & Em & Hb & Hlen & Hos & Hso).
    destruct (read_node m a tagBranch blob (flat_map append_uvarint os ++ r) Em Hb) as (R1 & R2 & R3 & R4). destruct fuel as [|fuel]; [lia|]. cbn [walk_node]. rewrite (proj2 (Z.eqb_neq (len a) 0)) by lia.
    rewrite R1. cbn [rbind]. destruct (slice_from m (len a + 1)) as [r0| |]; try done. cbn [rbind] in R2 |- *. injection R2 as R2. rewrite R2, (off_i64 _ Hb), R3. cbn [rbind]. rewrite R4. cbn [rbind tree_at].
    destruct path as [|p0 path']; [done|]. change (tagBranch =? tagBranch) with true. cbv iota. apply Forall_cons in Hp as [Hp0 Hp]. unfold nib_ok in Hp0.
    destruct (lookup_lt_is_Some_2 os (Z.to_nat p0)) as [o Hi]; [lia|]. destruct (skip_children os r _ _ Hos Hi) as (r' & ->). cbn [rbind].
    pose proof (Forall_lookup_1 _ _ _ _ Hos Hi) as Ho. rewrite uvarint_append by (by apply off_u64). cbn [fst]. rewrite (off_i64 _ Ho). apply IH; try done; [apply Hch; lia|by apply Hso|cbn [length] in Hf; lia].
Qed.

End Stored.

(** ** Writing a trie *)

Section Written.
Context (SplitList : bytes -> option bytes) (CountValues : bytes -> Z) (SplitString : bytes -> bytes).

(** The writer's life: callbacks of this trie, and bytes other tries append. *)
Inductive wevent := EMine (path blob : bytes) | EOther (b : bytes).

Definition wstep (e : wevent) (w : writer) : res writer :=
  match e with
  | EMine path blob => emit SplitList CountValues SplitString path blob w
  | EOther b => Ok (MkWriter (wout w ++ b) (pending w) (rootOff w) (nodes w))
  end.

Fixpoint wrun (es : list wevent) (w : writer) : res writer :=
  match es with [] => Ok w | e :: es => let* w := wstep e w in wrun es w end.

Definition mine (es : list wevent) : list (bytes * bytes) :=
  omap (fun e => match e with EMine path blob => Some (path, blob) | EOther _ => None end) es.

Lemma wrun_app es es' w : wrun (es ++ es') w = let* w := wrun es w in wrun es' w.
Proof. revert w. induction es as [|e es IH]; intros w; cbn [wrun app]; [done|]. destruct (wstep e w); cbn [rbind]; [apply IH|done|done]. Qed.

Lemma mine_split es l k : mine es = l ++ k -> exists e1 e2, es = e1 ++ e2 /\ mine e1 = l /\ mine e2 = k.
Proof.
  revert l. induction es as [|e es IH]; intros l E.
  - cbn in E. symmetry in E. apply app_eq_nil in E as [-> ->]. by exists [], [].
  - destruct l as [|x l]; [by exists [], (e :: es)|]. destruct e as [path blob|b]; cbn [mine omap list_omap] in E.
    + injection E as <- E. destruct (IH l E) as (e1 & e2 & -> & <- & <-). by exists (EMine path blob :: e1), e2.
    + destruct (IH (x :: l) E) as (e1 & e2 & -> & H1 & H2). by exists (EOther b :: e1), e2.
Qed.

(** Events that are not ours only append. *)
Lemma others_only es w : mine es = [] -> exists x, wrun es w = Ok (MkWriter (wout w ++ x) (pending w) (rootOff w) (nodes w)).
Proof.
  revert w. induction es as [|[path blob|b] es IH]; intros w E; cbn [wrun wstep rbind]; [exists []; rewrite app_nil_r; by destruct w|done|].
  destruct (IH (MkWriter (wout w ++ b) (pending w) (rootOff w) (nodes w)) E) as [x ->]. exists (b ++ x). cbn [wout pending rootOff nodes]. by rewrite app_assoc.
Qed.

(** One callback, with whatever others append around it. *)
Lemma one_event es path blob w : mine es = [(path, blob)] ->
  exists x y, wrun es w = let* w' := emit SplitList CountValues SplitString path blob (MkWriter (wout w ++ x) (pending w) (rootOff w) (nodes w)) in
                          Ok (MkWriter (wout w' ++ y) (pending w') (rootOff w') (nodes w')).
Proof.
  revert w. induction es as [|[path' blob'|b] es IH]; intros w E; [done|..]; cbn [mine omap list_omap] in E.
  - injection E as -> -> E. cbn [wrun wstep]. exists []. rewrite app_nil_r. replace (MkWriter (wout w) (pending w) (rootOff w) (nodes w)) with w by (by destruct w).
    destruct (emit _ _ _ path blob w) as [w'| |]; cbn [rbind]; [|by exists []..]. destruct (others_only es w' E) as [y ->]. by exists y.
  - destruct (IH (MkWriter (wout w ++ b) (pending w) (rootOff w) (nodes w)) E) as (x & y & Hx). cbn [wrun wstep rbind]. cbn [wout pending rootOff nodes] in Hx.
    exists (b ++ x), y. rewrite Hx. by rewrite app_assoc.
Qed.

(** No offset waits under [path] or below it. *)
Definition clear_below (path : bytes) (m : gmap bytes Z) : Prop := forall k, is_Some (m !! k) -> has_prefix k path = false.

(** What the events of the trie at [path] do: they append, the offset of an internal
    node waits under its path (the root's is kept), and the trie is stored. *)
Definition wrote (path : bytes) (t : tn) (w w' : writer) : Prop :=
  (exists x, wout w' = wout w ++ x) /\
  exists off, (len (wout w') < 2 ^ 63 -> stored (wout w') off t) /\ (internal t = false -> off = 0) /\
    if internal t then
      match path with
      | [] => pending w' = pending w /\ rootOff w' = off
      | _ => pending w' = <[path := off]> (pending w) /\ rootOff w' = rootOff w
      end
    else pending w' = pending w /\ rootOff w' = rootOff w.

Definition writes (t : tn) : Prop := forall path es w,
  mine es = emits path t -> shape SplitList CountValues SplitString t -> clear_below path (pending w) -> wout w <> [] ->
  exists w', wrun es w = Ok w' /\ wrote path t w w'.

(** The children's offsets, as they wait after the children were written. *)
Definition waiting (path : bytes) (ch : nat -> tn) (is_ : list nat) (os : list Z) (m m' : gmap bytes Z) : Prop :=
  length os = length is_ /\
  (forall j i o, is_ !! j = Some i -> os !! j = Some o -> default 0 (m' !! (path ++ [Z.of_nat i])) = o) /\
  (forall k, (forall i, i ∈ is_ -> k <> path ++ [Z.of_nat i]) -> m' !! k = m !! k).

Lemma prefix_child k path i : has_prefix k path = false -> k <> path ++ [i].
Proof. intros H ->. by rewrite has_prefix_app in H. Qed.

Lemma clear_child path i m : clear_below path m -> clear_below (path ++ [i]) m.
Proof.
  intros Hc k Hk. destruct (has_prefix k (path ++ [i])) eqn:E; [|done]. apply has_prefix_spec in E as [s ->]. specialize (Hc _ Hk). rewrite <- app_assoc, has_prefix_app in Hc. done.
Qed.

Lemma writes_children path ch is_ es w :
  (forall i, i ∈ is_ -> writes (ch i)) -> NoDup is_ -> (forall i, i ∈ is_ -> shape SplitList CountValues SplitString (ch i)) ->
  mine es = flat_map (fun i => emits (path ++ [Z.of_nat i]) (ch i)) is_ ->
  (forall i, i ∈ is_ -> clear_below (path ++ [Z.of_nat i]) (pending w)) -> wout w <> [] ->
  exists w' os, wrun es w = Ok w' /\ (exists x, wout w' = wout w ++ x) /\ rootOff w' = rootOff w /\ waiting path ch is_ os (pending w) (pending w') /\
    (len (wout w') < 2 ^ 63 -> forall j i o, is_ !! j = Some i -> os !! j = Some o -> stored (wout w') o (ch i)).
Proof.
  revert es w. induction is_ as [|i is_ IH]; intros es w Hw Hnd Hsh Hes Hcl Hne; cbn [flat_map] in Hes.
  { destruct (others_only es w Hes) as [x E]. exists (MkWriter (wout w ++ x) (pending w) (rootOff w) (nodes w)), []. split_and!; try done. by exists x. }
  apply NoDup_cons in Hnd as [Hni Hnd]. apply mine_split in Hes as (e1 & e2 & -> & E1 & E2). destruct (Hw i ltac:(left) (path ++ [Z.of_nat i]) e1 w E1) as (w1 & R1 & [x1 X1] & off & S1 & Z1 & P1);
    [apply Hsh; left|apply Hcl; left|done|].
  assert (P1' : (forall k, k <> path ++ [Z.of_nat i] -> pending w1 !! k = pending w !! k) /\ default 0 (pending w1 !! (path ++ [Z.of_nat i])) = off /\ rootOff w1 = rootOff w).
  { assert (Hnone : pending w !! (path ++ [Z.of_nat i]) = None).
    { destruct (pending w !! _) eqn:E; [|done]. pose proof (Hcl i ltac:(left) _ (ex_intro _ _ E)) as H. pose proof (has_prefix_app (path ++ [Z.of_nat i]) []) as H'. rewrite app_nil_r in H'. congruence. }
    destruct (internal (ch i)).
    - destruct (path ++ [Z.of_nat i]) as [|p0 pp] eqn:Ep; [by apply app_eq_nil in Ep as [_ ?]|]. destruct P1 as [-> ->]. split_and!; [intros k Hk; by rewrite lookup_insert_ne|by rewrite lookup_insert_eq|done].
    - destruct P1 as [-> ->]. rewrite Hnone, Z1 by done. done. }
  destruct P1' as (K1 & D1 & R1'). destruct (IH e2 w1) as (w2 & os & R2 & [x2 X2] & Ro2 & (L2 & W2 & K2) & S2); try done.
  - intros j Hj. apply Hw. by right.
  - intros j Hj. apply Hsh. by right.
  - intros j Hj k Hk. destruct (decide (k = path ++ [Z.of_nat i])) as [->|Hnk].
    + destruct (has_prefix (path ++ [Z.of_nat i]) (path ++ [Z.of_nat j])) eqn:E; [|done]. apply has_prefix_spec in E as [y E]. rewrite <- app_assoc in E. apply app_inv_head in E. injection E as E _.
      apply Nat2Z.inj in E as ->. done.
    + rewrite K1 in Hk by done. apply (Hcl j); [by right|done].
  - rewrite X1. by destruct (wout w).
  - exists w2, (off :: os). rewrite wrun_app, R1. cbn [rbind]. rewrite R2. split_and!; [done|exists (x1 ++ x2); by rewrite X2, X1, app_assoc|congruence|split_and!|].
    + cbn. lia.
    + intros [|j] i' o Hi Ho; cbn in Hi, Ho.
      * injection Hi as <-. injection Ho as <-. rewrite K2; [done|]. intros j Hj Ej. apply app_inv_head in Ej. injection Ej as Ej%Nat2Z.inj. by subst.
      * by apply (W2 j).
    + intros k Hk. rewrite K2, K1; [done| |]; [apply Hk; left|intros j Hj; apply Hk; by right].
    + intros Hl [|j] i' o Hi Ho; cbn in Hi, Ho; [|by apply (S2 Hl j)]. injection Hi as <-. injection Ho as <-. rewrite X2. apply stored_app, S1.
      rewrite X2, len_app in Hl. pose proof (len_nonneg x2). lia.
Qed.

Lemma take_children_ok path ix m :
  NoDup ix -> (take_children path ix m).1 = (fun i => default 0 (m !! (path ++ [i]))) <$> ix /\
  forall k, (take_children path ix m).2 !! k = if decide (k ∈ (fun i => path ++ [i]) <$> ix) then None else m !! k.
Proof.
  revert m. induction ix as [|i ix IH]; intros m Hnd; cbn [take_children fst snd].
  { split; [done|]. intros k. rewrite decide_False; [done|]. apply not_elem_of_nil. }
  apply NoDup_cons in Hnd as [Hni Hnd]. destruct (IH (delete (path ++ [i]) m) Hnd) as [E1 E2]. split.
  - cbn [fmap list_fmap]. f_equal. rewrite E1. apply list_fmap_ext. intros j x Hx. apply list_elem_of_lookup_2 in Hx. rewrite lookup_delete_ne; [done|].
    intros E. apply app_inv_head in E. injection E as <-. done.
  - intros k. rewrite E2. cbn [fmap list_fmap]. destruct (decide (k = path ++ [i])) as [->|Hne].
    + rewrite (decide_True (P := path ++ [i] ∈ _ :: _)) by left. rewrite lookup_delete_eq. by case_decide.
    + rewrite lookup_delete_ne by done. destruct (decide (k ∈ (fun j => path ++ [j]) <$> ix)) as [Hd|Hd].
      * rewrite decide_True; [done|]. by right.
      * rewrite decide_False; [done|]. by intros [?|?]%elem_of_cons.
Qed.

Lemma put_node_eq path blob tag children m w :
  wout (put_node path blob tag children m w) = wout w ++ [tag] ++ append_uvarint (len blob) ++ blob ++ flat_map append_uvarint children /\
  match path with
  | [] => pending (put_node path blob tag children m w) = m /\ rootOff (put_node path blob tag children m w) = len (wout w)
  | _ => pending (put_node path blob tag children m w) = <[path := len (wout w)]> m /\ rootOff (put_node path blob tag children m w) = rootOff w
  end.
Proof. unfold put_node. by destruct path. Qed.

(** A node appended to a file in which its children are stored. *)
Lemma put_node_wrote path blob tag children t w w1 y x :
  internal t = true -> wout w <> [] -> wout w1 = wout w ++ x -> rootOff w1 = rootOff w ->
  (let off := len (wout w1) in let m := wout w1 ++ [tag] ++ append_uvarint (len blob) ++ blob ++ flat_map append_uvarint children ++ y in
   len m < 2 ^ 63 -> 0 < off -> stored m off t) ->
  let w2 := put_node path blob tag children (pending w) w1 in
  wrote path t w (MkWriter (wout w2 ++ y) (pending w2) (rootOff w2) (nodes w2)).
Proof.
  intros Hi Hne E1 Er Hst w2. destruct (put_node_eq path blob tag children (pending w) w1) as [Eo Ep]. fold w2 in Eo, Ep. unfold wrote. cbn [wout pending rootOff].
  assert (Eout : wout w2 ++ y = wout w1 ++ [tag] ++ append_uvarint (len blob) ++ blob ++ flat_map append_uvarint children ++ y) by (rewrite Eo, <- !app_assoc; done).
  split; [eexists; rewrite Eout, E1, <- app_assoc; done|]. exists (len (wout w1)). rewrite Hi, Eout. split_and!; [|done|].
  - intros Hl. apply Hst; [done|]. rewrite E1, len_app. destruct (wout w); [done|]. rewrite len_cons. pose proof (len_nonneg l). pose proof (len_nonneg x). lia.
  - destruct path; [done|]. destruct Ep as [-> ->]. done.
Qed.

(** The blob and the offsets of an appended node fit a Go int. *)
Lemma parts_off m a tag blob r : m = a ++ [tag] ++ append_uvarint (len blob) ++ blob ++ r -> len m < 2 ^ 63 -> off_ok (len blob).
Proof.
  intros -> Hl. rewrite !len_app in Hl. pose proof (len_nonneg a). pose proof (len_nonneg [tag]). pose proof (len_nonneg (append_uvarint (len blob))). pose proof (len_nonneg r). pose proof (len_nonneg blob).
  unfold off_ok. lia.
Qed.

Lemma stored_off t m off : len m < 2 ^ 63 -> stored m off t -> off_ok off.
Proof.
  intros Hl. destruct t; cbn [stored]; [by intros ->|by intros ->|..]; intros (a & o & r & Hp & -> & Hm & _); (split; [lia|]);
    (assert (len a <= len m) by (rewrite Hm, len_app; match goal with |- _ <= _ + len ?z => pose proof (len_nonneg z) end; lia); lia).
Qed.

Lemma emit_leaf path blob w : shape SplitList CountValues SplitString (TLeaf blob) -> emit SplitList CountValues SplitString path blob w = Ok w.
Proof.
  intros (content & k0 & key & EL & EC & ES & Ek). unfold emit. rewrite EL, EC, ES. cbn [Z.eqb]. change (Prelude.index (k0 :: key) 0) with (Ok k0). cbn [rbind].
  by rewrite (proj2 (Z.eqb_neq _ _) Ek).
Qed.

Lemma emit_ext path blob nib c w : shape SplitList CountValues SplitString (TExt blob nib c) ->
  emit SplitList CountValues SplitString path blob w = Ok (put_node path blob tagExt [default 0 (pending w !! (path ++ nib))] (delete (path ++ nib) (pending w)) w).
Proof.
  intros (content & k0 & key & EL & EC & ES & Ek & Eh & _). unfold emit. rewrite EL, EC, ES. cbn [Z.eqb]. change (Prelude.index (k0 :: key) 0) with (Ok k0). cbn [rbind].
  rewrite Ek, Eh. done.
Qed.

Lemma emit_branch path blob ch w : shape SplitList CountValues SplitString (TBranch blob ch) ->
  emit SplitList CountValues SplitString path blob w = Ok (put_node path blob tagBranch (take_children path (seqZ 0 16) (pending w)).1 (take_children path (seqZ 0 16) (pending w)).2 w).
Proof. intros (content & EL & EC & _). unfold emit. rewrite EL, EC. cbn [Z.eqb]. by destruct (take_children path (seqZ 0 16) (pending w)). Qed.

Lemma clear_nothing path m : clear_below path m -> m !! path = None.
Proof. intros Hc. destruct (m !! path) eqn:E; [|done]. specialize (Hc _ (ex_intro _ _ E)). pose proof (has_prefix_app path []) as H. rewrite app_nil_r in H. congruence. Qed.

Lemma clear_deeper path nib m : clear_below path m -> clear_below (path ++ nib) m.
Proof.
  intros Hc k Hk. destruct (has_prefix k (path ++ nib)) eqn:E; [|done]. apply has_prefix_spec in E as [s ->]. specialize (Hc _ Hk). rewrite <- app_assoc, has_prefix_app in Hc. done.
Qed.

(** The offset an extension finds for its child, and the map without it. *)
Lemma ext_child path nib c w w1 off :
  nib <> [] -> clear_below path (pending w) -> (internal c = false -> off = 0) ->
  (if internal c then match path ++ nib with [] => pending w1 = pending w /\ rootOff w1 = off | _ => pending w1 = <[path ++ nib := off]> (pending w) /\ rootOff w1 = rootOff w end
   else pending w1 = pending w /\ rootOff w1 = rootOff w) ->
  default 0 (pending w1 !! (path ++ nib)) = off /\ delete (path ++ nib) (pending w1) = pending w /\ rootOff w1 = rootOff w.
Proof.
  intros Hn Hc Hz H. pose proof (clear_nothing _ _ (clear_deeper path nib _ Hc)) as Hnone. destruct (internal c).
  - destruct (path ++ nib) as [|p0 pp] eqn:E; [by apply app_eq_nil in E as [_ ?]|]. destruct H as [-> ->]. rewrite lookup_insert_eq. split_and!; try done. by apply delete_insert_id.
  - destruct H as [-> ->]. rewrite Hnone, Hz by done. split_and!; try done. by apply delete_id.
Qed.

Lemma branch_children path ch os m m' :
  clear_below path m -> waiting path ch (seq 0 16) os m m' -> (take_children path (seqZ 0 16) m').1 = os /\ (take_children path (seqZ 0 16) m').2 = m.
Proof.
  intros Hc (Hl & Hw & Hk). assert (Eseq : seqZ 0 16 = Z.of_nat <$> seq 0 16) by done. assert (Hnd : NoDup (seqZ 0 16)) by apply NoDup_seqZ.
  destruct (take_children_ok path (seqZ 0 16) m' Hnd) as [-> E2]. split.
  - apply list_eq. intros j. rewrite Eseq, !list_lookup_fmap. destruct (seq 0 16 !! j) as [i|] eqn:Ei; cbn [fmap option_fmap option_map].
    + apply lookup_lt_Some in Ei as Hlt. rewrite <- Hl in Hlt. destruct (lookup_lt_is_Some_2 _ _ Hlt) as [o Eo]. rewrite Eo. f_equal. by apply (Hw j).
    + symmetry. apply lookup_ge_None. apply lookup_ge_None in Ei. lia.
  - apply map_eq. intros k. rewrite E2. case_decide as Hd.
    + apply list_elem_of_fmap in Hd as (i & -> & _). symmetry. apply clear_nothing. by apply clear_child.
    + apply Hk. intros i Hi ->. apply Hd, list_elem_of_fmap. exists (Z.of_nat i). split; [done|]. rewrite Eseq. apply list_elem_of_fmap. by exists i.
Qed.

Lemma writes_all t : writes t.
Proof.
  induction t as [|blob|blob nib c IH|blob ch IH]; intros path es w Hes Hsh Hcl Hne; cbn [emits] in Hes.
  - destruct (others_only es w Hes) as [x E]. eexists. split; [done|]. split; [by exists x|]. by exists 0.
  - destruct (one_event es path blob w Hes) as (x & y & ->). rewrite (emit_leaf _ _ _ Hsh). cbn [rbind]. eexists. split; [done|]. cbn [wout pending rootOff].
    split; [exists (x ++ y); cbn; by rewrite app_assoc|]. by exists 0.
  - apply mine_split in Hes as (e1 & e2 & -> & E1 & E2). pose proof Hsh as (_ & _ & _ & _ & _ & _ & _ & _ & Hnib & Hc).
    destruct (IH (path ++ nib) e1 w E1 Hc (clear_deeper _ _ _ Hcl) Hne) as (w1 & R1 & [x1 X1] & off & S1 & Z1 & P1). rewrite wrun_app, R1. cbn [rbind].
    destruct (one_event e2 path blob w1 E2) as (x & y & ->). rewrite (emit_ext _ _ nib c _ Hsh). cbn [rbind pending].
    destruct (ext_child path nib c w w1 off Hnib Hcl Z1 P1) as (-> & -> & Er). eexists. split; [done|].
    apply (put_node_wrote path blob tagExt [off] (TExt blob nib c) w (MkWriter (wout w1 ++ x) (pending w1) (rootOff w1) (nodes w1)) y (x1 ++ x)); try done; [by cbn; rewrite X1, app_assoc|].
    cbn [wout]. set (a := wout w1 ++ x). cbv zeta. intros Hl Hpos. cbn [stored flat_map] in *. rewrite app_nil_r in *.
    set (m := a ++ [tagExt] ++ append_uvarint (len blob) ++ blob ++ append_uvarint off ++ y) in *.
    assert (Hm : exists z, m = wout w1 ++ z) by (unfold m, a; rewrite <- app_assoc; by eexists). destruct Hm as [z Hm].
    assert (Hst : stored m off c) by (rewrite Hm; apply stored_app, S1; rewrite Hm, len_app in Hl; pose proof (len_nonneg z); lia).
    exists a, off, y. split_and!; try done; [by apply (parts_off m a tagExt blob (append_uvarint off ++ y))|by apply (stored_off c m off Hl)].
  - apply mine_split in Hes as (e1 & e2 & -> & E1 & E2). pose proof Hsh as (_ & _ & _ & Hc).
    destruct (writes_children path ch (seq 0 16) e1 w) as (w1 & os & R1 & [x1 X1] & Er & Hwait & S1); try done; [by apply NoDup_seq|intros i [_ ?]%elem_of_seq; apply Hc; lia|intros; by apply clear_child|].
    rewrite wrun_app, R1. cbn [rbind]. destruct (one_event e2 path blob w1 E2) as (x & y & ->). rewrite (emit_branch _ _ ch _ Hsh). cbn [rbind pending].
    pose proof Hwait as (Hlen & _). rewrite length_seq in Hlen. destruct (branch_children path ch os _ _ Hcl Hwait) as [-> ->]. eexists. split; [done|].
    apply (put_node_wrote path blob tagBranch os (TBranch blob ch) w (MkWriter (wout w1 ++ x) (pending w1) (rootOff w1) (nodes w1)) y (x1 ++ x)); try done; [by cbn; rewrite X1, app_assoc|].
    cbn [wout]. set (a := wout w1 ++ x). cbv zeta. intros Hl Hpos.
    set (m := a ++ [tagBranch] ++ append_uvarint (len blob) ++ blob ++ flat_map append_uvarint os ++ y) in *.
    assert (Hm : exists z, m = wout w1 ++ z) by (unfold m, a; rewrite <- app_assoc; by eexists). destruct Hm as [z Hm].
    assert (Hst : forall i o, os !! i = Some o -> stored m o (ch i)).
    { intros i o Ho. rewrite Hm. apply stored_app. apply lookup_lt_Some in Ho as Hlt. apply (S1 ltac:(rewrite Hm, len_app in Hl; pose proof (len_nonneg z); lia) i i o); [|done].
      rewrite lookup_seq_lt by lia. done. }
    cbn [stored]. exists a, os, y. split_and!; try done; [by apply (parts_off m a tagBranch blob (flat_map append_uvarint os ++ y))|].
    apply Forall_lookup. intros i o Ho. by apply (stored_off (ch i) m o Hl), Hst.
Qed.

(** the node file gives back the trie it was written from. When the callbacks of
    a trie arrive children first, with other tries' nodes written in between, none
    panics, no offset is left waiting, and the walk from the recorded root returns, for
    every path of nibbles, the blob of the internal node at that path and nothing where
    there is none, whatever follows in the file. *)
Theorem node_file_roundtrip t es :
  mine es = emits [] t -> shape SplitList CountValues SplitString t ->
  exists w, wrun es (MkWriter magic ∅ 0 0) = Ok w /\ pending w = ∅ /\
    (len (wout w) < 2 ^ 63 -> forall suffix path fuel, Forall nib_ok path -> (length path < fuel)%nat ->
       walk_node SplitList SplitString fuel (wout w ++ suffix) (rootOff w) path = Ok (tree_at t path)).
Proof.
  intros Hes Hsh. destruct (writes_all t [] es (MkWriter magic ∅ 0 0) Hes Hsh) as (w & E & _ & off & Hst & Hz & Hp); [intros k [? Hk]; cbn [pending] in Hk; by rewrite lookup_empty in Hk|done|].
  assert (H : pending w = ∅ /\ rootOff w = off) by (destruct (internal t); [done|rewrite Hz by done; done]). destruct H as [Hpe Hro].
  exists w. split_and!; [done|done|]. intros Hl suffix path fuel Hn Hf. apply (walk_stored SplitList CountValues SplitString); try done. rewrite Hro. by apply stored_app, Hst.
Qed.

End Written.

(** ** Opening a file *)

Lemma read_le n b pre x post off :
  b = pre ++ litE n x ++ post -> off = len pre -> 0 <= x < 256 ^ Z.of_nat n -> (let* t := slice_from b off in le_get n t) = Ok x.
Proof. intros -> -> Hx. rewrite slice_tail by done. cbn [rbind]. by apply le_get_app. Qed.

Definition footer_ok (f : footer) : Prop :=
  0 <= froot_off f < 2 ^ 63 /\ 0 <= fidx_off f < 2 ^ 63 /\ len (froot f) = 32 /\ u64_ok (fnodes f) /\ u64_ok (fkeys f) /\ u64_ok (fidxN f) /\ len (fuser f) = 32.

Lemma len_footer f : footer_ok f -> len (footer_bytes f) = footerSize.
Proof. intros (_ & _ & Hr & _ & _ & _ & Hu). unfold footer_bytes. rewrite !len_app, !len_le, Hr, Hu. done. Qed.

Lemma parse_footer_bytes f : footer_ok f -> parseFooter (footer_bytes f) = Ok f.
Proof.
  intros HF. pose proof HF as (Hro & Hio & Hr & Hn & Hk & Hi & Hu). pose proof (len_footer f HF) as Hl. unfold parseFooter. rewrite Hl, Z.eqb_refl. cbn [negb orb].
  unfold footer_bytes in *. set (body := magic ++ _) in *. set (b := body ++ _) in *.
  assert (Hm : take 8 b = magic) by (unfold b, body; rewrite <- app_assoc; by apply take_app_length'). rewrite Hm. destruct (beqb_spec magic magic) as [_|]; [|done]. cbn [negb].
  assert (Lm : len magic = 8) by done. assert (H63 : 2 ^ 63 < 256 ^ Z.of_nat 8) by done. assert (H64 : 2 ^ 64 = 256 ^ Z.of_nat 8) by done. unfold u64_ok in *.
  assert (Hbody : len body = footerSize - 4) by (unfold b in Hl; rewrite len_app, len_le in Hl; lia).
  assert (E : b = magic ++ litE 4 version ++ litE 8 (froot_off f) ++ froot f ++ litE 8 (fnodes f) ++ litE 8 (fkeys f) ++ litE 8 (fidx_off f) ++ litE 8 (fidxN f) ++ fuser f ++ litE 4 (crc32_ChecksumIEEE body)).
  { unfold b. unfold body at 1. by rewrite <- !app_assoc. }
  rewrite (read_le 4 b magic version _ 8 E) by done. cbn [rbind]. rewrite Z.eqb_refl. cbn [negb].
  rewrite (read_le 4 b body (crc32_ChecksumIEEE body) [] (footerSize - 4)); [|by rewrite app_nil_r|done|apply crc32_range]. cbn [rbind].
  assert (Hs : slice b 0 (footerSize - 4) = Ok body) by (unfold b; apply (slice_app [] body); [done|lia]). rewrite Hs. cbn [rbind]. rewrite Z.eqb_refl. cbn [negb].
  rewrite (read_le 8 b (magic ++ litE 4 version) (froot_off f) (froot f ++ litE 8 (fnodes f) ++ litE 8 (fkeys f) ++ litE 8 (fidx_off f) ++ litE 8 (fidxN f) ++ fuser f ++ litE 4 (crc32_ChecksumIEEE body)) 12); [|by rewrite E, <- !app_assoc|done|lia]. cbn [rbind].
  assert (Hroot : slice b 20 52 = Ok (froot f)).
  { rewrite E, (app_assoc magic), (app_assoc (magic ++ _)). apply slice_app; [rewrite !len_app, !len_le; done|lia]. }
  rewrite Hroot. cbn [rbind].
  rewrite (read_le 8 b (magic ++ litE 4 version ++ litE 8 (froot_off f) ++ froot f) (fnodes f) (litE 8 (fkeys f) ++ litE 8 (fidx_off f) ++ litE 8 (fidxN f) ++ fuser f ++ litE 4 (crc32_ChecksumIEEE body)) 52); [|by rewrite E, <- !app_assoc|rewrite !len_app, !len_le, Hr; done|lia]. cbn [rbind].
  rewrite (read_le 8 b (magic ++ litE 4 version ++ litE 8 (froot_off f) ++ froot f ++ litE 8 (fnodes f)) (fkeys f) (litE 8 (fidx_off f) ++ litE 8 (fidxN f) ++ fuser f ++ litE 4 (crc32_ChecksumIEEE body)) 60); [|by rewrite E, <- !app_assoc|rewrite !len_app, !len_le, Hr; done|lia]. cbn [rbind].
  rewrite (read_le 8 b (magic ++ litE 4 version ++ litE 8 (froot_off f) ++ froot f ++ litE 8 (fnodes f) ++ litE 8 (fkeys f)) (fidx_off f) (litE 8 (fidxN f) ++ fuser f ++ litE 4 (crc32_ChecksumIEEE body)) 68); [|by rewrite E, <- !app_assoc|rewrite !len_app, !len_le, Hr; done|lia]. cbn [rbind].
  rewrite (read_le 8 b (magic ++ litE 4 version ++ litE 8 (froot_off f) ++ froot f ++ litE 8 (fnodes f) ++ litE 8 (fkeys f) ++ litE 8 (fidx_off f)) (fidxN f) (fuser f ++ litE 4 (crc32_ChecksumIEEE body)) 76); [|by rewrite E, <- !app_assoc|rewrite !len_app, !len_le, Hr; done|lia]. cbn [rbind].
  assert (Huser : slice b 84 116 = Ok (fuser f)).
  { replace b with ((magic ++ litE 4 version ++ litE 8 (froot_off f) ++ froot f ++ litE 8 (fnodes f) ++ litE 8 (fkeys f) ++ litE 8 (fidx_off f) ++ litE 8 (fidxN f)) ++ fuser f ++ litE 4 (crc32_ChecksumIEEE body)) by (by rewrite E, <- !app_assoc).
    apply slice_app; [rewrite !len_app, !len_le, Hr; done|lia]. }
  rewrite Huser. cbn [rbind]. rewrite !i64_small by lia. by destruct f.
Qed.

(** An index entry: the account, its storage root and where that node is. *)
Record ient := IEnt { iacct : bytes; iroot : bytes; ioff : Z; itrie : tn }.
Definition ient_bytes (e : ient) : bytes := iacct e ++ iroot e ++ litE 8 (ioff e).
Definition ient_ok (e : ient) : Prop := length (iacct e) = 32%nat /\ length (iroot e) = 32%nat /\ 0 <= ioff e < 2 ^ 63.
Definition index_bytes (l : list ient) : bytes := flat_map ient_bytes l.

Lemma length_ient e : ient_ok e -> length (ient_bytes e) = 72%nat.
Proof. intros (Ha & Hr & _). unfold ient_bytes. rewrite !length_app, length_le, Ha, Hr. done. Qed.

Lemma entry_at l i e : Forall ient_ok l -> l !! i = Some e -> entry (index_bytes l) i = ient_bytes e.
Proof.
  unfold entry. revert i. induction l as [|x l IH]; intros [|i] Hf Hi; try done; apply Forall_cons in Hf as [Hx Hf]; cbn [index_bytes flat_map]; fold (index_bytes l).
  - injection Hi as ->. rewrite Nat.mul_0_r, drop_0. apply take_app_length'. by rewrite length_ient.
  - rewrite drop_app_ge by (rewrite length_ient by done; lia). rewrite length_ient by done. replace (72 * S i - 72)%nat with (72 * i)%nat by lia. by apply IH.
Qed.

Lemma len_index l : Forall ient_ok l -> len (index_bytes l) = 72 * len l.
Proof.
  induction l as [|x l IH]; intros Hf; [done|]. apply Forall_cons in Hf as [Hx Hf]. cbn [index_bytes flat_map]. fold (index_bytes l). rewrite len_app, len_cons, IH by done.
  unfold len at 1. rewrite length_ient by done. lia.
Qed.

(** The binary search finds the account's entry, if it has one. *)
Lemma find_index_ok l acct : Forall ient_ok l -> StronglySorted (fun x y => blt (iacct x) (iacct y)) l ->
  find_index (index_bytes l) (length l) acct = ient_bytes <$> List.find (fun e => beqb (iacct e) acct) l.
Proof.
  intros Hf Hs. unfold find_index. set (f := fun i => negb (bltb (take 32 (entry (index_bytes l) i)) acct)).
  assert (Hacct : forall i e, l !! i = Some e -> take 32 (entry (index_bytes l) i) = iacct e).
  { intros i e Hi. rewrite (entry_at l i e) by done. pose proof (Forall_lookup_1 _ _ _ _ Hf Hi) as (Ha & _). unfold ient_bytes. by apply take_app_length'. }
  assert (Hord : forall i j x y, (i < j)%nat -> l !! i = Some x -> l !! j = Some y -> blt (iacct x) (iacct y)).
  { intros i j x y Hij Hi Hj. rewrite <- (take_drop_middle l i x Hi) in Hs. apply StronglySorted_app in Hs as (_ & _ & Hs). apply StronglySorted_cons in Hs as [Hs _].
    rewrite Forall_forall in Hs. apply Hs. apply list_elem_of_lookup. exists (j - S i)%nat. rewrite lookup_drop. replace (S i + (j - S i))%nat with j by lia. done. }
  assert (Hmono : search_mono (length l) f).
  { intros i j Hij Hi. destruct (decide (i = j)) as [->|Hne]; [done|]. destruct (lookup_lt_is_Some_2 l i) as [x Hx]; [lia|]. destruct (lookup_lt_is_Some_2 l j) as [y Hy]; [lia|].
    unfold f in *. rewrite (Hacct j y Hy). rewrite (Hacct i x Hx) in Hi. apply negb_true_iff in Hi. apply negb_true_iff. destruct (bltb_spec (iacct x) acct) as [|Hn]; [done|].
    destruct (bltb_spec (iacct y) acct) as [Hlt|]; [|done]. exfalso. apply Hn. apply (blt_trans _ (iacct y)); [|done]. apply (Hord i j); [lia|done..]. }
  destruct (sort_Search_spec (length l) f Hmono) as (Hle & Hlo & Hhi). set (i := sort_Search (length l) f) in *.
  destruct (List.find (fun e => beqb (iacct e) acct) l) as [e|] eqn:Ef; cbn [fmap option_fmap option_map].
  - apply List.find_some in Ef as [Hin He]. destruct (beqb_spec (iacct e) acct) as [Ea|]; [|done]. apply list_elem_of_In, list_elem_of_lookup in Hin as [j Hj]. apply lookup_lt_Some in Hj as Hlt.
    assert (i = j) as ->.
    { destruct (Nat.lt_trichotomy i j) as [Hij|[?|Hij]]; [|done|].
      - specialize (Hhi i ltac:(lia)). destruct (lookup_lt_is_Some_2 l i) as [x Hx]; [lia|]. unfold f in Hhi. rewrite (Hacct i x Hx) in Hhi. apply negb_true_iff in Hhi.
        pose proof (Hord i j x e Hij Hx Hj) as Hlt'. rewrite Ea in Hlt'. by destruct (bltb_spec (iacct x) acct).
      - specialize (Hlo j Hij). unfold f in Hlo. rewrite (Hacct j e Hj), Ea in Hlo. apply negb_false_iff in Hlo. destruct (bltb_spec acct acct) as [H|]; [|done]. by apply blt_irrefl in H. }
    rewrite (proj2 (Nat.eqb_neq j (length l))) by lia. rewrite (Hacct j e Hj), Ea. destruct (beqb_spec acct acct); [|done]. by rewrite (entry_at l j e).
  - destruct (Nat.eqb_spec i (length l)) as [|Hne]; [done|]. destruct (lookup_lt_is_Some_2 l i) as [x Hx]; [lia|]. rewrite (Hacct i x Hx).
    destruct (beqb_spec (iacct x) acct) as [Ea|]; [|done]. exfalso. apply list_elem_of_lookup_2, list_elem_of_In in Hx. pose proof (List.find_none _ _ Ef _ Hx) as Hn. cbn in Hn.
    rewrite Ea in Hn. by destruct (beqb_spec acct acct).
Qed.

(** A branch over a leaf and an extension to a branch, in a toy RLP whose blobs say
    their arity and, for two items, their compact key. *)
Definition toy_list (b : bytes) : option bytes := match b with 9 :: c => Some c | _ => None end.
Definition toy_count (c : bytes) : Z := match c with n :: _ => n | [] => 0 end.
Definition toy_string (c : bytes) : bytes := drop 1 c.
Definition toy_leaf : tn := TLeaf [9; 2; 32].
Definition toy_branch : tn := TBranch [9; 17; 1] (fun _ => TNone).
Definition toy_ext : tn := TExt [9; 2; 23] [7] toy_branch.
Definition toy_trie : tn := TBranch [9; 17; 0] (fun i => if Nat.eqb i 3 then toy_leaf else if Nat.eqb i 5 then toy_ext else TNone).
Definition toy_events : list wevent :=
  EOther [1; 2; 3] :: flat_map (fun pb => [EMine pb.1 pb.2; EOther [0]]) (emits [] toy_trie).

Lemma toy_shape : shape toy_list toy_count toy_string toy_trie.
Proof.
  exists [17; 0]. split_and!; try done. intros i Hi. destruct (Nat.eqb i 3); [|destruct (Nat.eqb i 5); [|done]].
  - exists [2; 32], 32, []. by split_and!.
  - exists [2; 23], 23, []. split_and!; try done. exists [17; 1]. by split_and!.
Qed.

Lemma node_file_roundtrip_witness :
  exists w, wrun toy_list toy_count toy_string toy_events (MkWriter magic ∅ 0 0) = Ok w /\ len (wout w) < 2 ^ 63 /\
    walk_node toy_list toy_string 5 (wout w) (rootOff w) [5; 7] = Ok (Some [9; 17; 1]) /\ walk_node toy_list toy_string 5 (wout w) (rootOff w) [3] = Ok None.
Proof.
  destruct (node_file_roundtrip toy_list toy_count toy_string toy_trie toy_events eq_refl toy_shape) as (w & E & _ & H). exists w.
  assert (Hl : len (wout w) < 2 ^ 63) by (vm_compute in E; injection E as <-; by vm_compute). split_and!; try done.
  - rewrite <- (app_nil_r (wout w)). rewrite (H Hl [] [5; 7] 5%nat); [done|repeat constructor; unfold nib_ok; lia|cbn; lia].
  - rewrite <- (app_nil_r (wout w)). rewrite (H Hl [] [3] 5%nat); [done|repeat constructor; unfold nib_ok; lia|cbn; lia].
Defined.

End NodeFile.
