(* ===== verification/Roll.v ===== *)
(** * commit/commit.go: Roll

    [Roll] reads the sorted flat rows once, feeds each account's slots to a stack trie
    and each account to another, and writes the internal nodes both hand to [emit] into
    one node file with an index of the storage roots. The two tries share the file, the
    counters and [rootOff]; each has its own map of waiting offsets. The stack trie
    (trie.StackTrie of libevm) is a class of operations, its laws what the package
    documents: it takes ascending keys and gives every hashed node to the writer,
    children before parents, the root last and only when [Hash] is called. *)

From S2P Require Import Prelude Bytes Nibbles LatestRun NodeFile.
Import Nibbles LatestRun.LatestRun NodeFile.NodeFile.

Module Roll.

Record accountRow := AccountRow { Nonce : Z; Balance : Z; CodeHash : bytes }.
Record accountLeaf := AccountLeaf { lNonce : Z; lBalance : Z; lRoot : bytes; lCodeHash : bytes }.

(** rlp, as the package calls it. *)
Class Rlp := {
  SplitList : bytes -> option bytes;
  CountValues : bytes -> Z;
  SplitString : bytes -> bytes;
  encode_leaf : accountLeaf -> res bytes;
  encode_string : bytes -> res bytes;
  decode_row : bytes -> res accountRow }.

(** trie.StackTrie: [st_Update] and [st_Hash] also return what the writer callback is
    called with meanwhile, path and blob. *)
Class StackTrie := {
  stackTrie : Type;
  NewStackTrie : stackTrie;
  st_Update : stackTrie -> bytes -> bytes -> res (stackTrie * list (bytes * bytes));
  st_Hash : stackTrie -> bytes * list (bytes * bytes) }.

(** The writer of a roll; [idx] is the side file of index entries. *)
Record roller := MkRoller {
  rout : bytes; accPending : gmap bytes Z; stPending : gmap bytes Z; rrootOff : Z; rnodes : Z; rkeys : Z; ridx : bytes; ridxN : Z }.

Definition acc_writer (w : roller) : writer := MkWriter (rout w) (accPending w) (rrootOff w) (rnodes w).
Definition st_writer (w : roller) : writer := MkWriter (rout w) (stPending w) (rrootOff w) (rnodes w).
Definition put_acc (v : writer) (w : roller) : roller := MkRoller (wout v) (pending v) (stPending w) (rootOff v) (nodes v) (rkeys w) (ridx w) (ridxN w).
Definition put_st (v : writer) (w : roller) : roller := MkRoller (wout v) (accPending w) (pending v) (rootOff v) (nodes v) (rkeys w) (ridx w) (ridxN w).
Definition set_rootOff (off : Z) (w : roller) : roller := MkRoller (rout w) (accPending w) (stPending w) off (rnodes w) (rkeys w) (ridx w) (ridxN w).
Definition add_key (w : roller) : roller := MkRoller (rout w) (accPending w) (stPending w) (rrootOff w) (rnodes w) (u64 (rkeys w + 1)) (ridx w) (ridxN w).
Definition clear_st (w : roller) : roller := MkRoller (rout w) (accPending w) ∅ (rrootOff w) (rnodes w) (rkeys w) (ridx w) (ridxN w).
Definition add_index (h root : bytes) (w : roller) : roller :=
  MkRoller (rout w) (accPending w) (stPending w) (rrootOff w) (rnodes w) (rkeys w) (ridx w ++ h ++ root ++ litE 8 (rrootOff w)) (u64 (ridxN w + 1)).

Section Ops.
Context `{Rlp} `{StackTrie}.
(** types.EmptyRootHash *)
Context (EmptyRootHash : bytes).

(** The callbacks of one call into a stack trie. *)
Fixpoint emit_all (l : list (bytes * bytes)) (v : writer) : res writer :=
  match l with
  | [] => Ok v
  | e :: l => let* v := emit SplitList CountValues SplitString e.1 e.2 v in emit_all l v
  end.
Definition emit_acc (l : list (bytes * bytes)) (w : roller) : res roller := let* v := emit_all l (acc_writer w) in Ok (put_acc v w).
Definition emit_st (l : list (bytes * bytes)) (w : roller) : res roller := let* v := emit_all l (st_writer w) in Ok (put_st v w).

(** The variables of [roll]; [cur] is None while [have] is false. *)
Record rstate := MkR { rw : roller; acc : stackTrie; cur : option (bytes * accountRow); st : option stackTrie }.

(** [flush], the storage half: hash the account's storage trie, index its root. *)
Definition flush_storage (h : bytes) (s : option stackTrie) (w : roller) : res (bytes * roller) :=
  match s with
  | None => Ok (EmptyRootHash, w)
  | Some t =>
      let r := st_Hash t in
      let* w := emit_st r.2 (set_rootOff 0 w) in
      Ok (r.1, clear_st (if rrootOff w =? 0 then w else add_index h r.1 w))
  end.

Definition flush (s : rstate) : res rstate :=
  match cur s with
  | None => Ok s
  | Some (h, row) =>
      let* r := flush_storage h (st s) (rw s) in
      let* val := encode_leaf (AccountLeaf (Nonce row) (Balance row) r.1 (CodeHash row)) in
      let* u := st_Update (acc s) h val in
      let* w := emit_acc u.2 (add_key r.2) in
      Ok (MkR w u.1 (cur s) None)
  end.

(** The body of the loop over the iterator. *)
Definition row_step (k v : bytes) (s : rstate) : res rstate :=
  if (len k =? 33) && bool_decide (k !! 32%nat = Some 0) then
    let* s := flush s in
    let* row := decode_row v in
    Ok (MkR (rw s) (acc s) (Some (take 32 k, row)) (st s))
  else if (len k =? 65) && bool_decide (k !! 32%nat = Some 1) then
    match cur s with
    | Some (h, row) =>
        if negb (beqb (take 32 k) h) then Err "slot row has no account row"
        else
          let* val := encode_string v in
          let* u := st_Update (default NewStackTrie (st s)) (drop 33 k) val in
          let* w := emit_st u.2 (add_key (rw s)) in
          Ok (MkR w (acc s) (cur s) (Some u.1))
    | None => Err "slot row has no account row"
    end
  else Err "malformed key".

Fixpoint rows_loop (rows : list (bytes * bytes)) (s : rstate) : res rstate :=
  match rows with [] => Ok s | r :: rows => let* s := row_step r.1 r.2 s in rows_loop rows s end.

(** [roll]: [err] is what the iterator's Err returns in the end. *)
Definition roll (rows : list (bytes * bytes)) (err : option string) (w : roller) : res (bytes * roller) :=
  let* s := rows_loop rows (MkR w NewStackTrie None None) in
  match err with
  | Some e => Err e
  | None =>
      let* s := flush s in
      let r := st_Hash (acc s) in
      let* w := emit_acc r.2 (set_rootOff 0 (rw s)) in
      Ok (r.1, w)
  end.

Record Stats := MkStats { sKeys : Z; sNodes : Z; sBytes : Z }.

(** [Roll]: the root, the statistics and the file's bytes. *)
Definition Roll (rows : list (bytes * bytes)) (err : option string) (userData : bytes) : res (bytes * Stats * bytes) :=
  let* r := roll rows err (MkRoller magic ∅ ∅ 0 0 0 [] 0) in
  let w := r.2 in
  let m := finish (acc_writer w) (ridx w) r.1 userData (rkeys w) (ridxN w) in
  Ok (r.1, MkStats (rkeys w) (rnodes w) (len m), m).

End Ops.

(** ** Runs of the writer *)

Section Sim.
Context `{Rlp}.

(** Two writers at the same place of the same trie; [rootOff] and the count of nodes
    are shared with other tries and may differ. *)
Definition same_place (v v' : writer) : Prop := wout v = wout v' /\ pending v = pending v'.

Lemma put_node_same path blob tag ch m v v' : wout v = wout v' -> same_place (put_node path blob tag ch m v) (put_node path blob tag ch m v').
Proof. intros E. unfold put_node. by destruct path; rewrite E. Qed.

Lemma put_node_root path blob tag ch m v : path <> [] -> rootOff (put_node path blob tag ch m v) = rootOff v.
Proof. unfold put_node. by destruct path. Qed.

Lemma put_node_root_same path blob tag ch m v v' :
  wout v = wout v' -> rootOff v = rootOff v' -> rootOff (put_node path blob tag ch m v) = rootOff (put_node path blob tag ch m v').
Proof. intros E1 E2. unfold put_node. by destruct path; cbn; rewrite ?E1. Qed.

Lemma put_node_count path blob tag ch m v : u64_ok (nodes (put_node path blob tag ch m v)).
Proof. unfold put_node. destruct path; apply u64_range. Qed.

(** What a callback does that succeeds: nothing, or one node. *)
Lemma emit_cases path blob v u : emit SplitList CountValues SplitString path blob v = Ok u ->
  u = v /\ (forall v', same_place v v' -> emit SplitList CountValues SplitString path blob v' = Ok v') \/
  exists tag ch m, u = put_node path blob tag ch m v /\ (forall v', same_place v v' -> emit SplitList CountValues SplitString path blob v' = Ok (put_node path blob tag ch m v')).
Proof.
  unfold emit. destruct (SplitList blob) as [content|]; [|done]. destruct (CountValues content =? 17).
  { destruct (take_children path (seqZ 0 16) (pending v)) as [ch m] eqn:E. intros [= <-]. right. exists tagBranch, ch, m. split; [done|]. intros v' [_ Ep]. by rewrite <- Ep, E. }
  destruct (CountValues content =? 2); [|done]. destruct (Prelude.index (SplitString content) 0) as [k0| |]; cbn [rbind]; try done. destruct (negb (Z.land k0 32 =? 0)).
  { intros [= <-]. left. split; [done|]. intros v' _. done. }
  destruct (compactToHex (SplitString content)) as [nib| |]; cbn [rbind]; try done. intros [= <-]. right. eexists _, _, _. split; [done|]. intros v' [_ Ep]. by rewrite <- Ep.
Qed.

Lemma emit_all_app l k v : emit_all (l ++ k) v = let* v := emit_all l v in emit_all k v.
Proof. revert v. induction l as [|e l IH]; intros v; cbn [emit_all app]; [done|]. destruct (emit _ _ _ e.1 e.2 v); cbn [rbind]; [apply IH|done|done]. Qed.

(** Callbacks follow the place: another writer there does the same, its own root
    offset untouched unless the root is among them. *)
Lemma emit_all_sim l v v' u : emit_all l v = Ok u -> same_place v v' -> u64_ok (nodes v') ->
  exists u', emit_all l v' = Ok u' /\ same_place u u' /\ u64_ok (nodes u') /\
    (Forall (fun e => e.1 <> []) l -> rootOff u' = rootOff v') /\ (rootOff v = rootOff v' -> rootOff u = rootOff u').
Proof.
  revert v v'. induction l as [|e l IH]; intros v v' E Hs Hn; cbn [emit_all] in *.
  { injection E as <-. by exists v'. }
  destruct (emit _ _ _ e.1 e.2 v) as [v1| |] eqn:E1; try done. cbn [rbind] in E. destruct (emit_cases _ _ _ _ E1) as [[-> H1]|(tag & ch & m & -> & H1)]; rewrite (H1 v' Hs); cbn [rbind].
  - destruct (IH v v' E Hs Hn) as (u' & Eu & Hsu & Hnu & Hr1 & Hr2). exists u'. split_and!; try done. intros Hf. apply Hr1. by inversion Hf.
  - destruct (IH _ (put_node e.1 e.2 tag ch m v') E) as (u' & Eu & Hsu & Hnu & Hr1 & Hr2); [apply put_node_same, Hs|apply put_node_count|]. exists u'. split_and!; try done.
    + intros Hf. apply Forall_cons in Hf as [He Hf]. rewrite Hr1 by done. by apply put_node_root.
    + intros Hr. apply Hr2. apply put_node_root_same; [apply Hs|done].
Qed.

Lemma emit_all_grows l v u : emit_all l v = Ok u -> exists x, wout u = wout v ++ x.
Proof.
  revert v. induction l as [|e l IH]; intros v E; cbn [emit_all] in E; [injection E as <-; exists []; by rewrite app_nil_r|].
  destruct (emit _ _ _ e.1 e.2 v) as [v1| |] eqn:E1; try done. cbn [rbind] in E. destruct (IH v1 E) as [x ->]. destruct (emit_cases _ _ _ _ E1) as [[-> _]|(tag & ch & m & -> & _)]; [by exists x|].
  destruct (put_node_eq e.1 e.2 tag ch m v) as [-> _]. eexists. by rewrite <- !app_assoc.
Qed.

Lemma emit_all_wrun l v : emit_all l v = wrun SplitList CountValues SplitString ((fun e => EMine e.1 e.2) <$> l) v.
Proof. revert v. induction l as [|e l IH]; intros v; cbn [emit_all wrun wstep fmap list_fmap]; [done|]. destruct (emit _ _ _ e.1 e.2 v); cbn [rbind]; [apply IH|done|done]. Qed.

Lemma mine_all l : mine ((fun e : bytes * bytes => EMine e.1 e.2) <$> l) = l.
Proof. induction l as [|[a b] l IH]; [done|]. cbn. f_equal. apply IH. Qed.

(** A whole trie, its root emitted after the counter was reset: the trie is in the
    file, nothing waits, and the counter is the root's offset, 0 for a trie whose root
    is no internal node. *)
Lemma trie_written t ems ems' v :
  ems ++ ems' = emits [] t -> Forall (fun e => e.1 <> []) ems -> shape SplitList CountValues SplitString t ->
  pending v = ∅ -> wout v <> [] -> u64_ok (nodes v) ->
  exists v1 x u, emit_all ems v = Ok v1 /\ emit_all ems' (MkWriter (wout v1) (pending v1) 0 (nodes v1)) = Ok u /\ wout u = wout v ++ x /\ pending u = ∅ /\ u64_ok (nodes u) /\
    (len (wout u) < 2 ^ 63 -> stored (wout u) (rootOff u) t).
Proof.
  intros He Hf Hsh Hp Hne Hn. set (v0 := MkWriter (wout v) ∅ 0 0).
  destruct (writes_all SplitList CountValues SplitString t [] ((fun e => EMine e.1 e.2) <$> ems ++ ems') v0) as (w & Ew & [x Hx] & off & Hst & Hz & Hroot); try done.
  { by rewrite mine_all. } { intros k [? Hk]. cbn [pending v0] in Hk. by rewrite lookup_empty in Hk. }
  rewrite <- emit_all_wrun, emit_all_app in Ew. destruct (emit_all ems v0) as [u0| |] eqn:Eu0; try done. cbn [rbind] in Ew.
  destruct (emit_all_sim ems v0 v0 u0 Eu0) as (? & Eu0' & _ & _ & Hr0 & _); [done|done|]. rewrite Eu0 in Eu0'. injection Eu0' as <-. specialize (Hr0 Hf). cbn [rootOff v0] in Hr0.
  destruct (emit_all_sim ems v0 v u0 Eu0) as (v1 & E1 & Hs0 & Hn1 & _); [by split|done|].
  destruct (emit_all_sim ems' u0 (MkWriter (wout v1) (pending v1) 0 (nodes v1)) w Ew) as (u & Eu & [Ho Hpe] & Hnu & _ & Hru); [split; cbn; by destruct Hs0|done|].
  assert (Hw : pending w = ∅ /\ rootOff w = off) by (destruct (internal t); [done|rewrite Hz by done; done]). destruct Hw as [Hw1 Hw2]. specialize (Hru Hr0).
  exists v1, x, u. rewrite Eu. split_and!; [done|done|by rewrite <- Ho, Hx|congruence|done|].
  intros Hl. rewrite <- Ho in Hl |- *. rewrite <- Hru, Hw2. by apply Hst.
Qed.

End Sim.

(** The root offset moves only with the root. *)
Lemma wrun_root `{Rlp} es v u : wrun SplitList CountValues SplitString es v = Ok u -> Forall (fun e => e.1 <> []) (mine es) -> rootOff u = rootOff v.
Proof.
  revert v. induction es as [|[path blob|b] es IH]; intros v E Hf; cbn [wrun wstep] in E; [by injection E as <-|..].
  - cbn [mine omap list_omap] in Hf. apply Forall_cons in Hf as [Hp Hf]. destruct (emit _ _ _ path blob v) as [v1| |] eqn:E1; try done. cbn [rbind] in E. rewrite (IH v1 E Hf).
    destruct (emit_cases _ _ _ _ E1) as [[-> _]|(tag & ch & m & -> & _)]; [done|by apply put_node_root].
  - apply (IH _ E Hf).
Qed.

(** ** What is known of the libraries *)

Definition ascending (kvs : list (bytes * bytes)) : Prop := StronglySorted (fun a b => blt a.1 b.1) kvs.
Definition hashed (kv : bytes * bytes) : Prop := length kv.1 = 32%nat /\ kv.2 <> [].

Fixpoint feed `{StackTrie} (kvs : list (bytes * bytes)) (t : stackTrie) : res (stackTrie * list (bytes * bytes)) :=
  match kvs with
  | [] => Ok (t, [])
  | kv :: kvs => let* u := st_Update t kv.1 kv.2 in let* r := feed kvs u.1 in Ok (r.1, u.2 ++ r.2)
  end.

Class RollLaws `{Rlp} `{StackTrie} := {
  trie_of : list (bytes * bytes) -> tn;
  root_of : list (bytes * bytes) -> bytes;
  trie_emits kvs : ascending kvs -> Forall hashed kvs ->
    exists t ems ems', feed kvs NewStackTrie = Ok (t, ems) /\ st_Hash t = (root_of kvs, ems') /\
      ems ++ ems' = emits [] (trie_of kvs) /\ Forall (fun e => e.1 <> []) ems;
  trie_shape kvs : ascending kvs -> Forall hashed kvs -> shape SplitList CountValues SplitString (trie_of kvs);
  root_length kvs : length (root_of kvs) = 32%nat;
  leaf_encodes l : exists b, encode_leaf l = Ok b /\ b <> [];
  string_encodes x : exists b, encode_string x = Ok b /\ b <> [] }.

Lemma feed_rows_app `{StackTrie} a b t : feed (a ++ b) t = let* r := feed a t in let* r' := feed b r.1 in Ok (r'.1, r.2 ++ r'.2).
Proof.
  revert t. induction a as [|kv a IH]; intros t; cbn [feed app].
  { cbn [rbind fst snd]. destruct (feed b t) as [[? ?]| |]; done. }
  destruct (st_Update t kv.1 kv.2) as [u| |]; cbn [rbind]; try done. rewrite IH. destruct (feed a u.1) as [r| |]; cbn [rbind fst snd]; try done.
  destruct (feed b r.1) as [r'| |]; cbn [rbind fst snd]; try done. by rewrite app_assoc.
Qed.

(** ** The accounts of a roll *)

Record account := Account { ahash : bytes; avalue : bytes; arow : accountRow; aslots : list (bytes * bytes) }.

Definition slot_rows (h : bytes) (kvs : list (bytes * bytes)) : list (bytes * bytes) := (fun kv => (h ++ 1 :: kv.1, kv.2)) <$> kvs.
Definition rows_of (a : account) : list (bytes * bytes) := (ahash a ++ [0], avalue a) :: slot_rows (ahash a) (aslots a).

Lemma slot_key h k : length h = 32%nat -> length k = 32%nat ->
  (len (h ++ 1 :: k) =? 33) = false /\ (len (h ++ 1 :: k) =? 65) = true /\ (h ++ 1 :: k) !! 32%nat = Some 1 /\ take 32 (h ++ 1 :: k) = h /\ drop 33 (h ++ 1 :: k) = k.
Proof.
  intros Hh Hk. assert (Hl : len (h ++ 1 :: k) = 65) by (unfold len; rewrite length_app; cbn [length]; lia). rewrite Hl. split_and!; try done.
  - rewrite lookup_app_r by lia. by rewrite Hh.
  - by rewrite take_app_length'.
  - rewrite drop_app_ge by lia. rewrite Hh. done.
Qed.

Lemma account_key h : length h = 32%nat -> (len (h ++ [0]) =? 33) = true /\ (h ++ [0]) !! 32%nat = Some 0 /\ take 32 (h ++ [0]) = h.
Proof.
  intros Hh. split_and!; [unfold len; rewrite length_app, Hh; done|rewrite lookup_app_r by lia; by rewrite Hh|by rewrite take_app_length'].
Qed.

Section Rolled.
Context `{RollLaws} (EmptyRootHash : bytes).
Context (empty_root_length : length EmptyRootHash = 32%nat).

Definition account_ok (a : account) : Prop :=
  length (ahash a) = 32%nat /\ ahash a <> replicate 32 0 /\ decode_row (avalue a) = Ok (arow a) /\ ascending (aslots a) /\ Forall (fun kv => length kv.1 = 32%nat) (aslots a).

Definition value_of (r : res bytes) : bytes := match r with Ok b => b | _ => [] end.
Definition slots_of (a : account) : list (bytes * bytes) := (fun kv => (kv.1, value_of (encode_string kv.2))) <$> aslots a.

(** The storage trie, its root, and the leaf of the account trie. *)
Definition strie (a : account) : tn := match aslots a with [] => TNone | _ => trie_of (slots_of a) end.
Definition sroot (a : account) : bytes := match aslots a with [] => EmptyRootHash | _ => root_of (slots_of a) end.
Definition leaf_of (a : account) : bytes * bytes :=
  (ahash a, value_of (encode_leaf (AccountLeaf (Nonce (arow a)) (Balance (arow a)) (sroot a) (CodeHash (arow a))))).

Lemma slots_fit a : account_ok a -> ascending (slots_of a) /\ Forall hashed (slots_of a).
Proof.
  intros (_ & _ & _ & Ha & Hl). unfold ascending, slots_of in *. induction (aslots a) as [|kv l IH]; [split; constructor|]. apply StronglySorted_cons in Ha as [Hkv Ha].
  apply Forall_cons in Hl as [Hk Hl]. destruct (IH Ha Hl) as [IH1 IH2]. cbn [fmap list_fmap]. split; constructor; try done.
  - apply Forall_fmap. eapply Forall_impl; [exact Hkv|]. intros x Hx. exact Hx.
  - destruct (string_encodes kv.2) as (b & E & Hb). split; [done|]. cbn [snd]. by rewrite E.
Qed.

Lemma sroot_length a : length (sroot a) = 32%nat.
Proof. unfold sroot. destruct (aslots a); [done|apply root_length]. Qed.

Definition with_keys (ks : Z) (w : roller) : roller := MkRoller (rout w) (accPending w) (stPending w) (rrootOff w) (rnodes w) ks (ridx w) (ridxN w).

Lemma st_writer_put v w : st_writer (put_st v w) = v.
Proof. by destruct v. Qed.

Lemma acc_writer_put v w : acc_writer (put_acc v w) = v.
Proof. by destruct v. Qed.

(** The slot rows of the current account go to its storage trie. *)
Lemma slots_loop h row kvs s t ems v :
  cur s = Some (h, row) -> length h = 32%nat -> Forall (fun kv => length kv.1 = 32%nat) kvs -> u64_ok (rkeys (rw s)) ->
  feed ((fun kv => (kv.1, value_of (encode_string kv.2))) <$> kvs) (default NewStackTrie (st s)) = Ok (t, ems) -> emit_all ems (st_writer (rw s)) = Ok v ->
  exists ks, u64_ok ks /\ rows_loop EmptyRootHash (slot_rows h kvs) s = Ok (MkR (put_st v (with_keys ks (rw s))) (acc s) (cur s) (match kvs with [] => st s | _ => Some t end)).
Proof.
  intros Hc Hh. revert s ems Hc. induction kvs as [|kv kvs IH]; intros s ems Hc Hl Hk Hfe Hem; cbn [feed fmap list_fmap] in Hfe.
  { injection Hfe as <- <-. cbn [emit_all] in Hem. injection Hem as <-. exists (rkeys (rw s)). split; [done|]. destruct s as [[] ? ? ?]. done. }
  apply Forall_cons in Hl as [Hkv Hl]. cbn [fst snd] in Hfe. destruct (string_encodes kv.2) as (val & Ev & _). rewrite Ev in Hfe. cbn [value_of] in Hfe.
  destruct (st_Update (default NewStackTrie (st s)) kv.1 val) as [u| |] eqn:Eu; try done. cbn [rbind] in Hfe.
  destruct (feed _ u.1) as [r| |] eqn:Er; try done. cbn [rbind] in Hfe. injection Hfe as Et <-. rewrite emit_all_app in Hem. destruct (emit_all u.2 (st_writer (rw s))) as [v1| |] eqn:E1; try done. cbn [rbind] in Hem.
  destruct (slot_key h kv.1 Hh Hkv) as (K1 & K2 & K3 & K4 & K5).
  destruct (IH (MkR (put_st v1 (add_key (rw s))) (acc s) (cur s) (Some u.1)) r.2) as (ks & Hks & E); try done.
  { apply u64_range. } { cbn [st default]. unfold default, id. rewrite Er. by rewrite <- Et; destruct r. } { cbn [rw]. by rewrite st_writer_put. }
  exists ks. split; [done|]. cbn [slot_rows fmap list_fmap rows_loop fst snd]. unfold row_step. rewrite K1, K2, K3, K4, K5, Hc. cbn [andb]. rewrite bool_decide_eq_true_2 by done.
  destruct (beqb_spec h h); [|done]. cbn [negb]. rewrite Ev. cbn [rbind]. rewrite Eu. cbn [rbind]. unfold emit_st. change (st_writer (add_key (rw s))) with (st_writer (rw s)). rewrite E1. cbn [rbind].
  rewrite Hc in E. fold (slot_rows h kvs). rewrite E. cbn [rw acc st]. rewrite <- Et. destruct kvs; [cbn in Er; injection Er as <-; done|done].
Qed.

(** One account's storage: its nodes are appended, its trie is in the file, and the
    index has an entry when the root is an internal node. *)
Definition entry_of (ao : account * Z) : list ient := if ao.2 =? 0 then [] else [IEnt (ahash ao.1) (sroot ao.1) ao.2 (strie ao.1)].
Definition in_file (m : bytes) (ao : account * Z) : Prop := len m < 2 ^ 63 -> stored m ao.2 (strie ao.1).
Definition counts_ok (w : roller) : Prop := u64_ok (rnodes w) /\ u64_ok (rkeys w).

Definition storage_added (a : account) (w w' : roller) : Prop :=
  accPending w' = accPending w /\ stPending w' = ∅ /\ counts_ok w' /\ (exists x, rout w' = rout w ++ x) /\
  exists off, ridx w' = ridx w ++ index_bytes (entry_of (a, off)) /\ ridxN w' = (if off =? 0 then ridxN w else u64 (ridxN w + 1)) /\ in_file (rout w') (a, off).

Lemma storage_done a w A :
  account_ok a -> stPending w = ∅ -> rout w <> [] -> counts_ok w ->
  exists s w', rows_loop EmptyRootHash (slot_rows (ahash a) (aslots a)) (MkR w A (Some (ahash a, arow a)) None) = Ok s /\
    acc s = A /\ cur s = Some (ahash a, arow a) /\ flush_storage EmptyRootHash (ahash a) (st s) (rw s) = Ok (sroot a, w') /\ storage_added a w w'.
Proof.
  intros Ha Hst Hne [Hn Hk]. destruct (slots_fit a Ha) as [Hasc Hhash]. pose proof (trie_shape _ Hasc Hhash) as Hsh. destruct (trie_emits _ Hasc Hhash) as (t & ems & ems' & Hfe & Hha & Hem & Hnr).
  destruct (trie_written (trie_of (slots_of a)) ems ems' (st_writer w) Hem Hnr Hsh Hst Hne Hn) as (v1 & x & u & E1 & E2 & Hx & Hpu & Hnu & Hstored).
  destruct Ha as (Hlen & _ & _ & _ & Hkl). destruct (slots_loop (ahash a) (arow a) (aslots a) (MkR w A (Some (ahash a, arow a)) None) t ems v1) as (ks & Hks & E); try done.
  match type of E with _ = Ok ?s => exists s end. rewrite E. cbn [st rw acc cur]. unfold strie, sroot, storage_added, in_file, strie in *. destruct (aslots a) as [|kv kvs] eqn:Es.
  - unfold slots_of in Hfe. rewrite Es in Hfe. injection Hfe as <- <-. cbn [emit_all] in E1. injection E1 as <-.
    eexists. split_and!; try done; [exists []; cbn; by rewrite app_nil_r|]. exists 0. cbn [Z.eqb fst snd]. rewrite Es. split_and!; [by rewrite app_nil_r|done|done].
  - cbn [flush_storage]. rewrite Hha. cbn [fst snd]. unfold emit_st. change (st_writer (set_rootOff 0 (put_st v1 (with_keys ks w)))) with (MkWriter (wout v1) (pending v1) 0 (nodes v1)).
    rewrite E2. cbn [rbind]. eexists. split; [done|]. split; [done|]. split; [done|]. split; [done|]. change (rrootOff (put_st u _)) with (rootOff u).
    cbn [wout st_writer rout] in Hx. split_and!; [destruct (rootOff u =? 0); done..|exists x; destruct (rootOff u =? 0); done|].
    exists (rootOff u). unfold entry_of. cbn [fst snd]. rewrite Es. unfold sroot. rewrite Es. destruct (rootOff u =? 0); split_and!; try done; cbn; by rewrite app_nil_r.
Qed.

(** ** The loop *)

Notation runs es := (wrun SplitList CountValues SplitString es (MkWriter magic ∅ 0 0)).
Definition leaves (accts : list account) : list (bytes * bytes) := leaf_of <$> accts.
Definition accounts_ok (accts : list account) : Prop := Forall account_ok accts /\ StronglySorted (fun a b => blt (ahash a) (ahash b)) accts.

(** The state between accounts: the account trie has been fed [done], whose nodes are
    in the file among the storage nodes, and the index lists the storage tries. *)
Record rinv (done : list account) (s : rstate) : Prop := {
  ri_acc : exists es v, feed (leaves done) NewStackTrie = Ok (acc s, mine es) /\ runs es = Ok v /\ same_place v (acc_writer (rw s));
  ri_st : stPending (rw s) = ∅ /\ st s = None;
  ri_counts : counts_ok (rw s);
  ri_out : exists x, rout (rw s) = magic ++ x;
  ri_idx : exists ps, ps.*1 = done /\ ridx (rw s) = index_bytes (flat_map entry_of ps) /\ ridxN (rw s) = u64 (len (flat_map entry_of ps)) /\ Forall (in_file (rout (rw s))) ps }.

Lemma leaves_fit accts : accounts_ok accts -> ascending (leaves accts) /\ Forall hashed (leaves accts).
Proof.
  intros [Hf Hs]. unfold ascending, leaves. induction accts as [|a l IH]; [split; constructor|]. apply StronglySorted_cons in Hs as [Ha Hs]. apply Forall_cons in Hf as [Hok Hf].
  destruct (IH Hf Hs) as [IH1 IH2]. cbn [fmap list_fmap]. split; constructor; try done.
  - apply Forall_fmap. eapply Forall_impl; [exact Ha|]. intros x Hx. exact Hx.
  - unfold leaf_of. destruct (leaf_encodes (AccountLeaf (Nonce (arow a)) (Balance (arow a)) (sroot a) (CodeHash (arow a)))) as (b & E & Hb). rewrite E. split; [apply Hok|done].
Qed.

Lemma runs_prefix es k t : mine es ++ k = emits [] t -> shape SplitList CountValues SplitString t -> exists v, runs es = Ok v.
Proof.
  intros He Hsh. destruct (writes_all SplitList CountValues SplitString t [] (es ++ ((fun e => EMine e.1 e.2) <$> k)) (MkWriter magic ∅ 0 0)) as (w & Ew & _); try done.
  - unfold mine in *. rewrite omap_app. fold (mine ((fun e : bytes * bytes => EMine e.1 e.2) <$> k)). by rewrite mine_all.
  - intros j [? Hj]. cbn [pending] in Hj. by rewrite lookup_empty in Hj.
  - rewrite wrun_app in Ew. destruct (runs es) as [v| |]; try done. by exists v.
Qed.

Lemma in_file_app m x ao : in_file m ao -> in_file (m ++ x) ao.
Proof. intros Hi Hl. apply stored_app, Hi. rewrite len_app in Hl. pose proof (len_nonneg x). lia. Qed.

(** The account trie's callbacks, after bytes of other tries. *)
Lemma acc_emits es v x l k t w :
  runs es = Ok v -> pending v = accPending w -> rout w = wout v ++ x -> u64_ok (rnodes w) ->
  (mine es ++ l) ++ k = emits [] t -> shape SplitList CountValues SplitString t ->
  exists u' v' x', emit_all l (acc_writer w) = Ok u' /\ runs (es ++ EOther x :: ((fun e => EMine e.1 e.2) <$> l)) = Ok v' /\ same_place v' u' /\ u64_ok (nodes u') /\ 
    wout u' = rout w ++ x' /\ (Forall (fun e => e.1 <> []) (mine es) -> rrootOff w = 0 -> rootOff u' = rootOff v').
Proof.
  intros Ev Hp Ho Hn He Hsh. set (es' := es ++ EOther x :: _). assert (Hm : mine es' = mine es ++ l).
  { unfold es', mine. rewrite omap_app. cbn [omap list_omap]. fold (mine ((fun e : bytes * bytes => EMine e.1 e.2) <$> l)). by rewrite mine_all. }
  rewrite <- Hm in He. destruct (runs_prefix es' k t He Hsh) as [v' Ev']. pose proof Ev' as E. unfold es' in E. rewrite wrun_app, Ev in E. cbn [rbind wrun wstep] in E. rewrite <- emit_all_wrun in E.
  destruct (emit_all_sim l _ (acc_writer w) v' E) as (u' & Eu & Hs & Hnu & _ & Hr); [split; [by cbn; rewrite Ho|done]|done|].
  destruct (emit_all_grows _ _ _ Eu) as [x' Hx].
  exists u', v', x'. split_and!; try done; [apply Hs..|]. intros Hf Hz. symmetry. apply Hr. cbn [rootOff acc_writer]. rewrite Hz. by apply (wrun_root es _ _ Ev).
Qed.

(** What is left of the account trie's callbacks when a prefix has been fed. *)
Lemma leaves_prefix done rest : accounts_ok (done ++ rest) ->
  exists t ems k, feed (leaves done) NewStackTrie = Ok (t, ems) /\ ems ++ k = emits [] (trie_of (leaves (done ++ rest))) /\
    shape SplitList CountValues SplitString (trie_of (leaves (done ++ rest))).
Proof.
  intros Hok. destruct (leaves_fit _ Hok) as [Ha Hh]. destruct (trie_emits _ Ha Hh) as (t & ems & ems' & Hfe & _ & Hem & _). pose proof (trie_shape _ Ha Hh) as Hsh.
  unfold leaves in *. rewrite fmap_app, feed_rows_app in Hfe. destruct (feed (leaf_of <$> done) NewStackTrie) as [[t1 e1]| |]; try done. cbn [rbind fst snd] in Hfe.
  destruct (feed _ t1) as [[t2 e2]| |]; try done. cbn [rbind fst snd] in Hfe. injection Hfe as <- <-. exists t1, e1, (e2 ++ ems'). by rewrite app_assoc, Hem.
Qed.

(** The rows of one account, and the flush that the next account row makes. *)
Lemma account_step done a rest s s' :
  accounts_ok (done ++ a :: rest) -> flush EmptyRootHash s = Ok s' -> rinv done s' ->
  exists s1 s1', rows_loop EmptyRootHash (rows_of a) s = Ok s1 /\ flush EmptyRootHash s1 = Ok s1' /\ rinv (done ++ [a]) s1'.
Proof.
  intros Hall Hfl [(es & v & Hfe & Hv & Hsame) [Hst Hno] Hcnt [xo Hout] (ps & Hps & Hix & Hin & Hfi)].
  assert (Ha : account_ok a) by (destruct Hall as [Hf _]; apply Forall_app in Hf as [_ Hf]; by inversion Hf). pose proof Ha as (Hlen & _ & Hdec & _).
  destruct (storage_done a (rw s') (acc s') Ha Hst) as (s1 & w1 & Hloop & Hacc & Hcur & Hfs & Hadd); [rewrite Hout; done|done|].
  destruct Hadd as (Hap & Hsp & [Hn1 Hk1] & [x Hx] & off & Hi1 & Hi2 & Hi3).
  replace (done ++ a :: rest) with ((done ++ [a]) ++ rest) in Hall by (by rewrite <- app_assoc). destruct (leaves_prefix _ _ Hall) as (t & ems & k & Hfe' & Hem & Hsh).
  unfold leaves in Hfe'. rewrite fmap_app, feed_rows_app in Hfe'. fold (leaves done) in Hfe'. rewrite Hfe in Hfe'. cbn [rbind fst snd fmap list_fmap feed] in Hfe'.
  destruct (st_Update (acc s') (leaf_of a).1 (leaf_of a).2) as [u| |] eqn:Eu; try done. cbn [rbind fst snd] in Hfe'. injection Hfe' as <- <-. rewrite app_nil_r in Hem.
  destruct Hsame as [So Sp]. destruct (acc_emits es v x u.2 k (trie_of (leaves ((done ++ [a]) ++ rest))) (add_key w1) Hv) as (u' & v' & x' & E1 & E2 & E3 & E4 & E5 & _); try done.
  { cbn. by rewrite Sp, Hap. } { cbn. by rewrite Hx, So. }
  exists s1, (MkR (put_acc u' (add_key w1)) u.1 (Some (ahash a, arow a)) None). split_and!.
  - cbn [rows_of rows_loop fst snd]. destruct (account_key (ahash a) Hlen) as (K1 & K2 & K3). unfold row_step at 1. rewrite K1, K2, K3. rewrite bool_decide_eq_true_2 by done. cbn [andb]. rewrite Hfl. cbn [rbind].
    rewrite Hdec. cbn [rbind]. by rewrite Hno, Hloop.
  - unfold flush. rewrite Hcur, Hfs. cbn [rbind fst snd]. destruct (leaf_encodes (AccountLeaf (Nonce (arow a)) (Balance (arow a)) (sroot a) (CodeHash (arow a)))) as (b & Eb & _). rewrite Eb. cbn [rbind].
    unfold leaf_of in Eu. rewrite Eb in Eu. cbn [value_of fst snd] in Eu. rewrite Hacc, Eu. cbn [rbind]. unfold emit_acc. rewrite E1. done.
  - split; cbn [rw acc st].
    + eexists _, v'. split_and!; [|exact E2|by rewrite acc_writer_put]. unfold leaves. rewrite fmap_app, feed_rows_app. fold (leaves done). rewrite Hfe. cbn [rbind fst snd fmap list_fmap feed]. rewrite Eu. cbn [rbind fst snd].
      rewrite app_nil_r. unfold mine at 2. rewrite omap_app. cbn [omap list_omap]. fold (mine ((fun e : bytes * bytes => EMine e.1 e.2) <$> u.2)). rewrite mine_all. done.
    + done.
    + split; [exact E4|apply u64_range].
    + cbn [rout put_acc]. exists (xo ++ x ++ x'). rewrite E5. cbn [rout add_key]. rewrite Hx, Hout. by rewrite !app_assoc.
    + exists (ps ++ [(a, off)]). cbn [ridx ridxN put_acc add_key rout]. rewrite fmap_app, Hps, flat_map_app. cbn [flat_map]. rewrite app_nil_r. split_and!; [done| | |].
      * rewrite Hi1, Hix. unfold index_bytes. by rewrite flat_map_app.
      * rewrite Hi2, Hin, len_app. unfold entry_of. cbn [fst snd]. destruct (off =? 0); [change (len []) with 0; by rewrite Z.add_0_r|]. change (len [_]) with 1. unfold u64. by rewrite Zplus_mod_idemp_l.
      * rewrite E5. cbn [rout add_key]. apply Forall_app. split; [|constructor; [by apply in_file_app|constructor]]. eapply Forall_impl; [exact Hfi|]. intros ao Hao. rewrite Hx. by apply in_file_app, in_file_app.
Qed.

Lemma rows_loop_app a b s : rows_loop EmptyRootHash (a ++ b) s = let* s := rows_loop EmptyRootHash a s in rows_loop EmptyRootHash b s.
Proof. revert s. induction a as [|r a IH]; intros s; cbn [rows_loop app]; [done|]. destruct (row_step _ r.1 r.2 s); cbn [rbind]; [apply IH|done|done]. Qed.

Lemma accounts_loop done rest s s' :
  accounts_ok (done ++ rest) -> flush EmptyRootHash s = Ok s' -> rinv done s' ->
  exists s1 s1', rows_loop EmptyRootHash (flat_map rows_of rest) s = Ok s1 /\ flush EmptyRootHash s1 = Ok s1' /\ rinv (done ++ rest) s1'.
Proof.
  revert done s s'. induction rest as [|a rest IH]; intros done s s' Hok Hfl Hinv; cbn [flat_map]; [rewrite app_nil_r; by exists s, s'|].
  destruct (account_step done a rest s s' Hok Hfl Hinv) as (s1 & s1' & E1 & E2 & Hinv'). replace (done ++ a :: rest) with ((done ++ [a]) ++ rest) in * by (by rewrite <- app_assoc).
  destruct (IH (done ++ [a]) s1 s1' Hok E2 Hinv') as (s2 & s2' & E3 & E4 & Hinv''). exists s2, s2'. split_and!; try done. rewrite rows_loop_app, E1. done.
Qed.

(** What [roll] leaves: the account trie from [rootOff], the storage tries from the
    offsets in the index. *)
Record rolled (accts : list account) (w : roller) (ps : list (account * Z)) : Prop := {
  rl_ps : ps.*1 = accts;
  rl_magic : exists x, rout w = magic ++ x;
  rl_counts : counts_ok w;
  rl_idx : ridx w = index_bytes (flat_map entry_of ps);
  rl_idxN : ridxN w = u64 (len (flat_map entry_of ps));
  rl_in : Forall (in_file (rout w)) ps;
  rl_root : len (rout w) < 2 ^ 63 -> stored (rout w) (rrootOff w) (trie_of (leaves accts)) }.

Lemma roll_rolled accts : accounts_ok accts ->
  exists w ps, roll EmptyRootHash (flat_map rows_of accts) None (MkRoller magic ∅ ∅ 0 0 0 [] 0) = Ok (root_of (leaves accts), w) /\ rolled accts w ps.
Proof.
  intros Hok. set (s0 := MkR (MkRoller magic ∅ ∅ 0 0 0 [] 0) NewStackTrie None None).
  assert (Hinit : rinv [] s0).
  { split; [|done|done|by exists []|by exists []]. by exists [], (MkWriter magic ∅ 0 0). }
  destruct (accounts_loop [] accts s0 s0 Hok eq_refl Hinit) as (s1 & s2 & E1 & E2 & [(es & v & Hfe & Hv & So & Sp) _ [Hn Hk] [xo Hout] (ps & Hps & Hix & Hin & Hfi)]). cbn [app] in *.
  destruct (leaves_fit _ Hok) as [Ha Hh]. pose proof (trie_shape _ Ha Hh) as Hsh. destruct (trie_emits _ Ha Hh) as (t & ems & ems' & Hfe' & Hha & Hem & Hnr). rewrite Hfe in Hfe'. injection Hfe' as <- <-.
  destruct (acc_emits es v [] ems' [] _ (set_rootOff 0 (rw s2)) Hv ltac:(done) ltac:(by cbn; rewrite app_nil_r, So) Hn ltac:(rewrite app_nil_r; exact Hem) Hsh) as (u & v' & x' & F1 & F2 & [F3 F3'] & F4 & F5 & F6).
  specialize (F6 Hnr eq_refl). exists (put_acc u (set_rootOff 0 (rw s2))), ps. split.
  { unfold roll. fold s0. rewrite E1. cbn [rbind]. rewrite E2. cbn [rbind]. rewrite Hha. cbn [fst snd]. unfold emit_acc. rewrite F1. done. }
  split; try done.
  - exists (xo ++ x'). cbn [rout put_acc]. rewrite F5. cbn [rout set_rootOff]. by rewrite Hout, <- app_assoc.
  - cbn [rout put_acc]. rewrite F5. eapply Forall_impl; [exact Hfi|]. intros ao Hao. by apply in_file_app.
  - cbn [rout rrootOff put_acc]. rewrite F6, <- F3. intros Hl.
    destruct (writes_all SplitList CountValues SplitString (trie_of (leaves accts)) [] (es ++ EOther [] :: ((fun e => EMine e.1 e.2) <$> ems')) (MkWriter magic ∅ 0 0)) as (w & Ew & _ & off & Hst & Hz & Hroot); try done.
    + unfold mine. rewrite omap_app. cbn [omap list_omap]. fold (mine ((fun e : bytes * bytes => EMine e.1 e.2) <$> ems')). rewrite mine_all. done.
    + intros j [? Hj]. cbn [pending] in Hj. by rewrite lookup_empty in Hj.
    + rewrite F2 in Ew. injection Ew as <-. assert (rootOff v' = off) as -> by (destruct (internal (trie_of (leaves accts))); [apply Hroot|rewrite Hz by done; apply Hroot]). by apply Hst.
Qed.

(** ** Opening the file of a roll *)

Lemma strie_shape a : account_ok a -> shape SplitList CountValues SplitString (strie a).
Proof. intros Ha. unfold strie. destruct (aslots a); [done|]. destruct (slots_fit a Ha). by apply trie_shape. Qed.

Lemma find_none ps h : h ∉ ahash <$> ps.*1 -> List.find (fun e => beqb (iacct e) h) (flat_map entry_of ps) = None.
Proof.
  induction ps as [|[a off] ps IH]; intros Hn; [done|]. cbn [flat_map fmap list_fmap fst] in *. apply not_elem_of_cons in Hn as [Hne Hn]. unfold entry_of at 1. cbn [fst snd].
  destruct (off =? 0); [by apply IH|]. cbn [app List.find iacct]. destruct (beqb_spec (ahash a) h) as [E|]; [by subst h|by apply IH].
Qed.

Lemma find_entry ps a off : NoDup (ahash <$> ps.*1) -> (a, off) ∈ ps ->
  List.find (fun e => beqb (iacct e) (ahash a)) (flat_map entry_of ps) = if off =? 0 then None else Some (IEnt (ahash a) (sroot a) off (strie a)).
Proof.
  induction ps as [|[b o] ps IH]; intros Hnd Hin; [by apply not_elem_of_nil in Hin|]. cbn [flat_map fmap list_fmap fst] in *. apply NoDup_cons in Hnd as [Hb Hnd]. apply elem_of_cons in Hin as [[= -> ->]|Hin].
  - unfold entry_of at 1. cbn [fst snd]. destruct (o =? 0); [by apply find_none|]. cbn [app List.find iacct]. by destruct (beqb_spec (ahash b) (ahash b)).
  - unfold entry_of at 1. cbn [fst snd]. destruct (o =? 0); [by apply IH|]. cbn [app List.find iacct]. destruct (beqb_spec (ahash b) (ahash a)) as [E|]; [|by apply IH].
    exfalso. apply Hb. rewrite E. apply list_elem_of_fmap. exists a. split; [done|]. apply list_elem_of_fmap. by exists (a, off).
Qed.

Lemma hashes_nodup accts : accounts_ok accts -> NoDup (ahash <$> accts).
Proof.
  intros [_ Hs]. induction accts as [|a l IH]; [constructor|]. apply StronglySorted_cons in Hs as [Ha Hs]. cbn [fmap list_fmap]. constructor; [|by apply IH].
  intros Hin. apply list_elem_of_fmap in Hin as (b & E & Hb). rewrite Forall_forall in Ha. specialize (Ha b Hb). cbn in Ha. rewrite E in Ha. by apply blt_irrefl in Ha.
Qed.

Lemma rolled_entries_ok accts w ps : accounts_ok accts -> rolled accts w ps -> len (rout w) < 2 ^ 63 ->
  Forall ient_ok (flat_map entry_of ps) /\ StronglySorted (fun x y => blt (iacct x) (iacct y)) (flat_map entry_of ps).
Proof.
  intros [Hf Hs] HR Hl. pose proof (rl_ps _ _ _ HR) as <-. pose proof (rl_in _ _ _ HR) as Hin. clear HR. induction ps as [|[a off] ps IH]; [split; constructor|]. cbn [flat_map fmap list_fmap fst] in *.
  apply Forall_cons in Hf as [Ha Hf], Hin as [Hi Hin]. apply StronglySorted_cons in Hs as [Hlt Hs]. destruct (IH Hs Hf Hin) as [I1 I2]. unfold entry_of at 1 3. cbn [fst snd].
  destruct (off =? 0); [done|]. cbn [app]. split; constructor; try done.
  - split_and!; [apply Ha|apply sroot_length|..]; apply (stored_off (strie a) (rout w) off Hl (Hi Hl)).
  - cbn [iacct]. clear -Hlt. induction ps as [|[b o] ps IH]; [constructor|]. cbn [flat_map fmap list_fmap fst] in *. apply Forall_cons in Hlt as [Hb Hlt]. unfold entry_of at 1. cbn [fst snd].
    destruct (o =? 0); [by apply IH|]. constructor; [done|by apply IH].
Qed.

Lemma stored_inside t m off : stored m off t -> off = 0 \/ off < len m.
Proof.
  destruct t; cbn [stored]; [by left|by left|..]; intros (a & o & r & Hp & -> & -> & _); right; rewrite len_app, len_app; change (len [_]) with 1;
    match goal with |- _ < _ + (1 + len ?z) => pose proof (len_nonneg z) end; lia.
Qed.

(** The file of a roll and what [Open] reads back. *)
Definition file_of (w : roller) (root user : bytes) : bytes := finish (acc_writer w) (ridx w) root user (rkeys w) (ridxN w).
Definition footer_of (w : roller) (root user : bytes) : footer := Footer (rrootOff w) (len (rout w)) root (rnodes w) (rkeys w) (ridxN w) user.

Lemma open_rolled accts w ps root user :
  accounts_ok accts -> rolled accts w ps -> length root = 32%nat -> len user = 32 -> len (file_of w root user) < 2 ^ 63 ->
  Open (file_of w root user) = Ok (MkFile (file_of w root user) (footer_of w root user)) /\
  len (rout w) < 2 ^ 63 /\ (exists x, file_of w root user = rout w ++ x) /\
  forall h, index (MkFile (file_of w root user) (footer_of w root user)) h = Ok (ient_bytes <$> List.find (fun e => beqb (iacct e) h) (flat_map entry_of ps)).
Proof.
  intros Hok HR Hroot Huser Hlen. set (m := file_of w root user) in *. set (ft := footer_of w root user) in *. set (ents := flat_map entry_of ps).
  assert (Em : m = rout w ++ ridx w ++ footer_bytes ft) by done. pose proof (len_nonneg (ridx w)) as Hi0. pose proof (len_nonneg (footer_bytes ft)) as Hf0. pose proof (len_nonneg (rout w)) as Ho0.
  assert (Hl : len (rout w) < 2 ^ 63) by (rewrite Em, !len_app in Hlen; lia). destruct (rolled_entries_ok accts w ps Hok HR Hl) as [Hie His]. fold ents in Hie, His.
  destruct HR as [Hps [xm Hmag] [Hn Hk] Hix HN Hin Hst]. fold ents in Hix, HN. pose proof (stored_off _ _ _ Hl (Hst Hl)) as Hro. unfold off_ok in Hro.
  assert (Hli : len (ridx w) = 72 * len ents) by (rewrite Hix; by apply len_index). pose proof (len_nonneg ents) as He0. assert (HN' : ridxN w = len ents) by (rewrite HN; apply Z.mod_small; rewrite Em, !len_app in Hlen; lia).
  assert (Hft : footer_ok ft) by (unfold footer_ok, ft; cbn; split_and!; try done; try lia; [unfold len; by rewrite Hroot|apply u64_range || (rewrite HN; apply u64_range)]).
  pose proof (len_footer ft Hft) as Hlf. assert (Hsz : len m = len (rout w) + 72 * len ents + footerSize) by (rewrite Em, !len_app, Hli, Hlf; lia). unfold footerSize in *.
  assert (Hend : i64 (len (rout w) + i64 (i64 (ridxN w) * indexEntry)) = len (rout w) + 72 * len ents).
  { unfold indexEntry. rewrite HN'. rewrite (i64_small (len ents)) by lia. rewrite (i64_small (len ents * 72)) by lia. rewrite i64_small by lia. lia. }
  split_and!; [|done|by eexists|].
  - assert (Hm8 : take 8 m = magic) by (rewrite Em, Hmag, <- app_assoc; by apply take_app_length'). assert (Hro' : rrootOff w < len m).
    { pose proof (stored_inside _ _ _ (Hst Hl)). lia. }
    unfold Open. rewrite Hsz at 1. assert (Hmr : len (rout w) = 8 + len xm) by (rewrite Hmag, len_app; done). pose proof (len_nonneg xm).
    rewrite (proj2 (Z.ltb_ge _ _)) by (change (len magic) with 8; unfold footerSize; lia). assert (Htail : slice_from m (len m - footerSize) = Ok (footer_bytes ft)).
    { rewrite Em at 1. rewrite app_assoc. apply slice_tail. rewrite len_app, Hsz. unfold footerSize. lia. }
    rewrite Htail. cbn [rbind]. rewrite (parse_footer_bytes ft Hft). cbn [rbind]. rewrite Hm8. destruct (beqb_spec magic magic); [|done]. cbn [negb orb ft footer_of froot_off fidx_off fidxN].
    rewrite (proj2 (Z.leb_gt _ _)) by lia. rewrite (proj2 (Z.ltb_ge _ _)) by (change (len magic) with 8; lia). rewrite Hend. cbn [orb].
    rewrite (proj2 (Z.eqb_eq _ _)) by (rewrite Hsz; unfold footerSize; lia). done.
  - intros h. unfold index. cbn [fm NodeFile.ft ft footer_of fidx_off fidxN]. rewrite Hend. rewrite Em, (slice_app (rout w) (ridx w)) by lia. cbn [rbind].
    rewrite HN', Hix. unfold len. rewrite Nat2Z.id. by rewrite find_index_ok.
Qed.

Lemma root_entry e : ient_ok e -> take 32 (drop 32 (ient_bytes e)) = iroot e /\ le_get 8 (drop 64 (ient_bytes e)) = Ok (ioff e).
Proof.
  intros (Ha & Hr & Ho). unfold ient_bytes. split.
  - rewrite drop_app_length' by done. by rewrite take_app_length'.
  - rewrite app_assoc, drop_app_length' by (rewrite length_app; lia). rewrite <- (app_nil_r (litE 8 _)). apply le_get_app. change (256 ^ Z.of_nat 8) with (2 ^ 64). lia.
Qed.

Lemma rolled_serves accts user :
  accounts_ok accts -> len user = 32 ->
  exists stats m, Roll EmptyRootHash (flat_map rows_of accts) None user = Ok (root_of (leaves accts), stats, m) /\ sBytes stats = len m /\
    (len m < 2 ^ 63 -> exists f, Open m = Ok f /\ froot (ft f) = root_of (leaves accts) /\ fuser (ft f) = user /\
       forall path fuel, Forall nib_ok path -> (length path < fuel)%nat ->
         Node SplitList SplitString fuel f (replicate 32 0) path = Ok (tree_at (trie_of (leaves accts)) path) /\
         (forall a, a ∈ accts -> Node SplitList SplitString fuel f (ahash a) path = Ok (tree_at (strie a) path) /\
            StorageRoot f EmptyRootHash (ahash a) = Ok (if internal (strie a) then (sroot a, true) else (EmptyRootHash, false))) /\
         (forall h, h <> replicate 32 0 -> h ∉ ahash <$> accts ->
            Node SplitList SplitString fuel f h path = Ok None /\ StorageRoot f EmptyRootHash h = Ok (EmptyRootHash, false))).
Proof.
  intros Hok Hu. destruct (roll_rolled accts Hok) as (w & ps & E & HR). exists (MkStats (rkeys w) (rnodes w) (len (file_of w (root_of (leaves accts)) user))), (file_of w (root_of (leaves accts)) user).
  split; [unfold Roll; rewrite E; done|]. split; [done|]. intros Hl. destruct (open_rolled accts w ps _ user Hok HR (root_length _) Hu Hl) as (Ho & Hlo & [x Hx] & Hidx).
  eexists. split; [exact Ho|]. cbn [ft footer_of froot fuser]. split; [done|]. split; [done|]. intros path fuel Hp Hfu. destruct (leaves_fit accts Hok) as [Hasc Hha].
  assert (Hwalk : forall t off, shape SplitList CountValues SplitString t -> stored (rout w) off t ->
            walk_node SplitList SplitString fuel (file_of w (root_of (leaves accts)) user) off path = Ok (tree_at t path)).
  { intros t off Hsh Hst. apply (walk_stored SplitList CountValues SplitString); try done. rewrite Hx. by apply stored_app. }
  split; [|split].
  - unfold Node. rewrite bool_decide_eq_true_2 by done. apply Hwalk; [by apply trie_shape|by apply (rl_root _ _ _ HR)].
  - intros a Ha. pose proof Hok as [Hf _]. rewrite Forall_forall in Hf. pose proof (Hf a Ha) as Hao. pose proof (strie_shape a Hao) as Hsh. destruct Hao as (_ & Hz & _).
    pose proof (rl_ps _ _ _ HR) as Hps. rewrite <- Hps in Ha. apply list_elem_of_fmap in Ha as ([a' off] & -> & Hin). cbn [fst] in *. pose proof (rl_in _ _ _ HR) as Hall. rewrite Forall_forall in Hall.
    pose proof (Hall _ Hin Hlo) as Hst. cbn [fst snd] in Hst. assert (Hfind := find_entry ps a' off ltac:(rewrite Hps; by apply hashes_nodup) Hin).
    unfold Node, StorageRoot. rewrite bool_decide_eq_false_2 by done. rewrite Hidx, Hfind. pose proof (stored_zero _ _ _ Hst) as Hzero. destruct (Z.eqb_spec off 0) as [->|Hne]; cbn [fmap option_fmap option_map rbind].
    + pose proof (proj1 Hzero eq_refl) as Ei. rewrite Ei. split; [|done]. by destruct (strie a').
    + destruct (internal (strie a')) eqn:Ei; [|by destruct Hne; apply Hzero]. destruct (rolled_entries_ok accts w ps Hok HR Hlo) as [Hie _]. rewrite Forall_forall in Hie.
      assert (Hio : ient_ok (IEnt (ahash a') (sroot a') off (strie a'))) by (apply Hie, list_elem_of_In, List.in_flat_map; exists (a', off); split; [by apply list_elem_of_In|unfold entry_of; cbn; rewrite (proj2 (Z.eqb_neq _ _) Hne); by left]).
      destruct (root_entry _ Hio) as [-> ->]. cbn [rbind ioff iroot]. split; [|done]. rewrite i64_small by (destruct Hio as (_ & _ & ? & ?); cbn in *; lia). by apply Hwalk.
  - intros h Hz Hn. unfold Node, StorageRoot. rewrite bool_decide_eq_false_2 by done. rewrite Hidx, find_none by (by rewrite (rl_ps _ _ _ HR)). done.
Qed.

(** C17: [Roll] of the sorted flat rows of any accounts succeeds and returns the root
    of the account trie; the file it wrote opens with that root and the user data, and
    serves every trie: under the zero hash each internal node of the account trie is
    found at its path, under an account's hash each internal node of its storage trie,
    and nothing is found at any other path or for any other hash. [StorageRoot] knows
    the root exactly when it is an internal node. *)
Theorem roll_serves accts user :
  accounts_ok accts -> len user = 32 ->
  exists stats m, Roll EmptyRootHash (flat_map rows_of accts) None user = Ok (root_of (leaves accts), stats, m) /\ sBytes stats = len m /\
    (len m < 2 ^ 63 -> exists f, Open m = Ok f /\ froot (ft f) = root_of (leaves accts) /\ fuser (ft f) = user /\
       forall path fuel, Forall nib_ok path -> (length path < fuel)%nat ->
         Node SplitList SplitString fuel f (replicate 32 0) path = Ok (tree_at (trie_of (leaves accts)) path) /\
         (forall a, a ∈ accts -> Node SplitList SplitString fuel f (ahash a) path = Ok (tree_at (strie a) path) /\
            StorageRoot f EmptyRootHash (ahash a) = Ok (if internal (strie a) then (sroot a, true) else (EmptyRootHash, false))) /\
         (forall h, h <> replicate 32 0 -> h ∉ ahash <$> accts ->
            Node SplitList SplitString fuel f h path = Ok None /\ StorageRoot f EmptyRootHash h = Ok (EmptyRootHash, false))).
Proof. exact (rolled_serves accts user). Qed.

End Rolled.

(** ** A stack trie that keeps the laws *)

(** It remembers the rows; the trie of no row is empty, of one a leaf, of more a branch
    whose blob says how many. A string is encoded with its length in front. *)
Definition toy_blob (kvs : list (bytes * bytes)) : bytes := [9; 17; len kvs].
Definition toy_of (kvs : list (bytes * bytes)) : tn :=
  match kvs with [] => TNone | [_] => toy_leaf | _ => TBranch (toy_blob kvs) (fun _ => TNone) end.
Definition toy_root (kvs : list (bytes * bytes)) : bytes := replicate 32 (len kvs).

Definition toy_trie_update (t : list (bytes * bytes)) (k v : bytes) : res (list (bytes * bytes) * list (bytes * bytes)) :=
  match last t with
  | Some kv => if bltb kv.1 k then Ok (t ++ [(k, v)], []) else Err "non-ascending key order"
  | None => Ok (t ++ [(k, v)], [])
  end.

#[local] Instance toy_rlp : Rlp := {|
  SplitList := toy_list; CountValues := toy_count; SplitString := toy_string;
  encode_leaf l := Ok (lNonce l :: lRoot l); encode_string x := Ok (len x :: x); decode_row v := Ok (AccountRow (len v) 0 v) |}.

#[local] Instance toy_stack : StackTrie := {|
  stackTrie := list (bytes * bytes); NewStackTrie := []; st_Update := toy_trie_update;
  st_Hash t := (toy_root t, emits [] (toy_of t)) |}.

Lemma toy_feed a b : ascending (a ++ b) -> feed b (a : stackTrie) = Ok (a ++ b, []).
Proof.
  revert a. induction b as [|kv b IH]; intros a Ha; cbn [feed]; [by rewrite app_nil_r|].
  assert (E : st_Update (a : stackTrie) kv.1 kv.2 = Ok (a ++ [kv], [])).
  { cbn [st_Update toy_stack]. unfold toy_trie_update. destruct (last a) as [x|] eqn:El; [|by destruct kv]. apply last_Some in El as [a' ->].
    apply StronglySorted_app in Ha as (Hx & _ & _). specialize (Hx x kv). destruct (bltb_spec x.1 kv.1) as [_|Hn]; [by destruct kv|]. exfalso. apply Hn, Hx; set_solver. }
  rewrite E. cbn [rbind fst snd]. rewrite (IH (a ++ [kv])) by (by rewrite <- app_assoc). cbn [rbind fst snd]. by rewrite <- app_assoc.
Qed.

#[local] Instance toy_laws : RollLaws.
Proof.
  refine {| trie_of := toy_of; root_of := toy_root |}.
  - intros kvs Ha _. exists kvs, [], (emits [] (toy_of kvs)). split_and!; [by apply (toy_feed [])|done|done|constructor].
  - intros kvs _ _. destruct kvs as [|kv [|kv' kvs]]; [done|by exists [2; 32], 32, []|]. exists [17; len (kv :: kv' :: kvs)]. by split_and!.
  - intros kvs. apply length_replicate.
  - intros l. by exists (lNonce l :: lRoot l).
  - intros x. by exists (len x :: x).
Defined.

Definition toy_hash (n : Z) : bytes := n :: replicate 31 0.
Definition toy_accounts : list account :=
  [Account (toy_hash 1) [5] (AccountRow 1 0 [5]) [];
   Account (toy_hash 2) [6] (AccountRow 1 0 [6]) [(toy_hash 3, [1]); (toy_hash 4, [2; 2])];
   Account (toy_hash 7) [] (AccountRow 0 0 []) [(toy_hash 9, [])]].

Lemma toy_accounts_ok : accounts_ok toy_accounts.
Proof. split; repeat constructor; done. Qed.

Lemma roll_serves_witness :
  exists stats m f, Roll (replicate 32 8) (flat_map rows_of toy_accounts) None (replicate 32 4) = Ok (toy_root (leaves (replicate 32 8) toy_accounts), stats, m) /\ Open m = Ok f /\
    Node toy_list toy_string 3 f (toy_hash 2) [] = Ok (Some [9; 17; 2]) /\ StorageRoot f (replicate 32 8) (toy_hash 2) = Ok (replicate 32 2, true) /\
    StorageRoot f (replicate 32 8) (toy_hash 7) = Ok (replicate 32 8, false) /\ Node toy_list toy_string 3 f (toy_hash 5) [] = Ok None.
Proof.
  destruct (roll_serves (replicate 32 8) eq_refl toy_accounts (replicate 32 4) toy_accounts_ok eq_refl) as (stats & m & E & Hs & Hf).
  assert (Hl : len m < 2 ^ 63) by (vm_compute in E; injection E as _ <-; by vm_compute). destruct (Hf Hl) as (f & Ho & _ & _ & Hn). exists stats, m, f.
  destruct (Hn [] 3%nat ltac:(constructor) ltac:(cbn; lia)) as (_ & Ha & Hx). split; [exact E|]. split; [exact Ho|].
  destruct (Ha (Account (toy_hash 2) [6] (AccountRow 1 0 [6]) [(toy_hash 3, [1]); (toy_hash 4, [2; 2])])) as [A1 A2]; [by right; left|].
  destruct (Ha (Account (toy_hash 7) [] (AccountRow 0 0 []) [(toy_hash 9, [])])) as [_ B2]; [by right; right; left|].
  destruct (Hx (toy_hash 5) ltac:(done) ltac:(by apply (bool_decide_eq_true_1 (toy_hash 5 ∉ ahash <$> toy_accounts)))) as [C1 _]. split; [exact A1|]. split; [exact A2|]. split; [exact B2|exact C1].
Defined.

End Roll.
