(* ===== verification/Leaf.v ===== *)
(** * commit/dirty.go: reading trie nodes under the overlay

    [Node] answers the trie library: a retained node first, then the node file, then a
    leaf rebuilt from the rolled flat rows, which [leaf] finds with one seek. The file is
    the one [Roll] wrote from those rows; the seek is the first row at or above a
    prefix, as its type documents. *)

From S2P Require Import Prelude Bytes Nibbles NodeFile Roll Dirty.
Import Nibbles NodeFile.NodeFile Roll.Roll.

Module Leaf.

Definition zeroHash : bytes := replicate 32 0.

(** The seek over the rolled rows; nil when there is none. *)
Definition seek (rows : list (bytes * bytes)) (prefix : bytes) : bytes * bytes := default ([], []) (List.find (fun r => bleb prefix r.1) rows).

Section Ops.
Context `{Rlp} `{StackTrie} (EmptyRootHash : bytes).
(** rlp.EncodeToBytes of a pair of byte strings. *)
Context (encode_node : bytes -> bytes -> res bytes).

(** The root of a trie of one slot. The errors of Update and EncodeToBytes are ignored. *)
Definition slot_root (k v : bytes) : bytes :=
  match st_Update NewStackTrie (drop 33 k) (value_of (encode_string v)) with Ok u => (st_Hash u.1).1 | _ => (st_Hash NewStackTrie).1 end.

Definition account_root (rows : list (bytes * bytes)) (f : File) (hashed : bytes) : res bytes :=
  let* r := StorageRoot f EmptyRootHash hashed in
  if r.2 : bool then Ok r.1
  else
    let kv := seek rows (hashed ++ [1]) in
    Ok (if (len kv.1 =? 65) && bool_decide (kv.1 !! 32%nat = Some 1) && beqb (take 32 kv.1) hashed then slot_root kv.1 kv.2 else r.1).

Definition leaf (rows : list (bytes * bytes)) (f : File) (owner path : bytes) : res bytes :=
  let packed := packNibbles path in
  let zero := bool_decide (owner = zeroHash) in
  let kv := seek rows (if zero then packed else owner ++ [1] ++ packed) in
  let* hv :=
    (if zero && (len kv.1 =? 33) && bool_decide (kv.1 !! 32%nat = Some 0) then
       let hashed := take 32 kv.1 in
       let* row := decode_row kv.2 in
       let* root := account_root rows f hashed in
       Ok (hashed, value_of (encode_leaf (AccountLeaf (Nonce row) (Balance row) root (CodeHash row))))
     else if negb zero && (len kv.1 =? 65) && bool_decide (kv.1 !! 32%nat = Some 1) && beqb (take 32 kv.1) owner then
       Ok (drop 33 kv.1, value_of (encode_string kv.2))
     else Err "no flat row under the requested trie path") in
  let nib := keyToNibbles hv.1 in
  if (len nib <? len path) || negb (beqb (take (length path) nib) path) then Err "no flat row under the requested trie path"
  else let* hp := hexToCompact (drop (length path) nib) true in encode_node hp hv.2.

Definition Node (fuel : nat) (rows : list (bytes * bytes)) (f : File) (d : Dirty.Dirty) (owner path : bytes) : res bytes :=
  let* b := Dirty.lookup owner path d in
  match b with
  | Some blob => Ok blob
  | None =>
      let* b := NodeFile.Node SplitList SplitString fuel f owner path in
      match b with Some blob => Ok blob | None => leaf rows f owner path end
  end.

End Ops.

(** ** Seeking *)

Lemma keyToNibbles_app a b : keyToNibbles (a ++ b) = keyToNibbles a ++ keyToNibbles b.
Proof. unfold keyToNibbles. apply flat_map_app. Qed.

Lemma length_nibbles k : length (keyToNibbles k) = (2 * length k)%nat.
Proof. induction k as [|c k IH]; [done|]. cbn [keyToNibbles flat_map app length] in *. unfold keyToNibbles in IH. rewrite IH. lia. Qed.

Lemma pack_app a p : Forall byte_ok a -> packNibbles (keyToNibbles a ++ p) = a ++ packNibbles p.
Proof.
  induction a as [|c a IH]; intros Ha; [done|]. apply Forall_cons in Ha as [Hc Ha]. cbn [keyToNibbles flat_map app packNibbles]. destruct (byte_nibbles c Hc) as (H1 & H2 & H3).
  rewrite join_nibbles, <- H3 by done. f_equal. by apply IH.
Qed.

Lemma prefix_take k p : has_prefix k p = true <-> take (length p) k = p.
Proof. rewrite has_prefix_spec. split; [intros [s ->]; by rewrite take_app_length|]. intros E. exists (drop (length p) k). by rewrite <- E at 1; rewrite take_drop. Qed.

Lemma prefix_short a b p : has_prefix (a ++ b) p = true -> (length p <= length a)%nat -> has_prefix a p = true.
Proof. rewrite !prefix_take. intros E Hl. by rewrite take_app_le in E by done. Qed.

(** The first row under a path is found by seeking the packed path. *)
Lemma seek_first_under A k v B path :
  Forall byte_ok k -> Forall (fun r => Forall byte_ok r.1) A -> Forall nib_ok path -> has_prefix (keyToNibbles k) path = true ->
  Forall (fun r => blt r.1 k /\ has_prefix (keyToNibbles r.1) path = false) A ->
  seek (A ++ (k, v) :: B) (packNibbles path) = (k, v).
Proof.
  intros Hk HA Hp Hpre Hlt. unfold seek. induction A as [|r A IH]; cbn [app List.find fst].
  - destruct (bleb_spec (packNibbles path) k) as [_|Hn]; [done|]. exfalso. by apply Hn, prefix_ge.
  - apply Forall_cons in HA as [Hr HA], Hlt as [[Hlt Hno] Hlt']. destruct (bleb_spec (packNibbles path) r.1) as [Hle|]; [|by apply IH]. exfalso.
    assert (Hx := between_prefix r.1 k path Hr Hk Hp Hle (proj2 (ble_lteq _ _) (or_introl Hlt)) Hpre). congruence.
Qed.

(** ** The rows of a roll *)

Section Rebuilt.
Context `{RollLaws} (EmptyRootHash : bytes) (empty_root_length : length EmptyRootHash = 32%nat).
Context (encode_node : bytes -> bytes -> res bytes).
(** Two slots share a root that is no leaf. *)
Context (two_internal : forall kvs, ascending kvs -> Forall hashed kvs -> (2 <= length kvs)%nat -> internal (trie_of kvs) = true).

Definition bytes_ok (a : account) : Prop := Forall byte_ok (ahash a) /\ Forall (fun kv => Forall byte_ok kv.1) (aslots a).

(** A row of an account: its hash, a mark and, for a slot, the slot's hash. *)
Lemma row_of a r : r ∈ rows_of a -> exists t, r.1 = ahash a ++ t /\ (t = [0] /\ r.2 = avalue a \/ exists kv, kv ∈ aslots a /\ t = 1 :: kv.1 /\ r.2 = kv.2).
Proof.
  unfold rows_of, slot_rows. intros [->|Hr]%elem_of_cons; [exists [0]; split; [done|by left]|]. apply list_elem_of_fmap in Hr as (kv & -> & Hkv). exists (1 :: kv.1). split; [done|]. right. by exists kv.
Qed.

Lemma row_bytes a r : bytes_ok a -> r ∈ rows_of a -> Forall byte_ok r.1.
Proof.
  intros [Ha Hs] Hr. destruct (row_of a r Hr) as (t & -> & [[-> _]|(kv & Hkv & -> & _)]); apply Forall_app; (split; [done|]); [by repeat constructor|]. constructor; [done|]. rewrite Forall_forall in Hs. by apply Hs.
Qed.

(** Rows of smaller accounts come before, and none of theirs is under a path that
    reaches into another account's hash alone. *)
Lemma before_rows A a t path :
  Forall account_ok A -> Forall bytes_ok A -> Forall (fun b => blt (ahash b) (ahash a)) A -> length (ahash a) = 32%nat -> (forall b, b ∈ A -> has_prefix (keyToNibbles (ahash b)) (take 64 path) = false) ->
  Forall (fun r => Forall byte_ok r.1) (flat_map rows_of A) /\ Forall (fun r => blt r.1 (ahash a ++ t) /\ has_prefix (keyToNibbles r.1) path = false) (flat_map rows_of A).
Proof.
  intros Hok Hby Hlt Hla Hno. rewrite Forall_forall in Hok, Hby, Hlt. split; apply Forall_forall; intros r Hr; apply list_elem_of_In, List.in_flat_map in Hr as (b & Hb & Hr); apply list_elem_of_In in Hb, Hr.
  - by apply (row_bytes b); [apply Hby|].
  - destruct (row_of b r Hr) as (t' & -> & _). specialize (Hlt b Hb). cbn in Hlt. destruct (Hok b Hb) as (Hlb & _). split.
    + unfold blt. rewrite bcmp_app_len; [done|congruence|]. intros E. rewrite E in Hlt. by apply blt_irrefl in Hlt.
    + destruct (has_prefix _ path) eqn:E; [|done]. specialize (Hno b Hb). rewrite keyToNibbles_app in E. apply prefix_take in E. assert (Hx : has_prefix (keyToNibbles (ahash b)) (take 64 path) = true).
      { apply prefix_take. rewrite <- E at 2. rewrite take_take, length_take. rewrite <- (take_app_le (keyToNibbles (ahash b)) (keyToNibbles t')) by (rewrite length_nibbles; lia). f_equal. }
      congruence.
Qed.

(** Where an account sits among the rows. *)
Lemma split_rows accts a : accounts_ok accts -> a ∈ accts ->
  exists A B, accts = A ++ a :: B /\ Forall account_ok A /\ Forall (fun b => blt (ahash b) (ahash a)) A /\ flat_map rows_of accts = flat_map rows_of A ++ rows_of a ++ flat_map rows_of B /\
    (forall b, b ∈ A -> ahash b <> ahash a).
Proof.
  intros [Hf Hs] Ha. apply list_elem_of_split in Ha as (A & B & ->). apply Forall_app in Hf as [Hf _]. apply StronglySorted_app in Hs as (Hs & _ & _). exists A, B. assert (Hlt : Forall (fun b => blt (ahash b) (ahash a)) A) by (apply Forall_forall; intros b Hb; apply Hs; set_solver).
  split_and!; try done; [rewrite flat_map_app; done|]. intros b Hb E. rewrite Forall_forall in Hlt. specialize (Hlt b Hb). cbn in Hlt. rewrite E in Hlt. by apply blt_irrefl in Hlt.
Qed.

Lemma full_prefix a b : length a = length b -> has_prefix (keyToNibbles a) (keyToNibbles b) = true -> Forall byte_ok a -> Forall byte_ok b -> a = b.
Proof.
  intros Hl E Ha Hb. apply prefix_take in E. rewrite take_ge in E by (rewrite !length_nibbles; lia). rewrite <- (pack_key a Ha), <- (pack_key b Hb). congruence.
Qed.

Lemma seek_account accts a path :
  accounts_ok accts -> Forall bytes_ok accts -> a ∈ accts -> Forall nib_ok path -> has_prefix (keyToNibbles (ahash a)) path = true ->
  (forall b, b ∈ accts -> has_prefix (keyToNibbles (ahash b)) path = true -> ahash b = ahash a) ->
  seek (flat_map rows_of accts) (packNibbles path) = (ahash a ++ [0], avalue a).
Proof.
  intros Hok Hby Ha Hp Hpre Huniq. assert (Hla : length (ahash a) = 32%nat) by (destruct Hok as [Hf _]; rewrite Forall_forall in Hf; apply (Hf a Ha)). destruct (split_rows accts a Hok Ha) as (A & B & EA & HfA & HltA & -> & Hne).
  assert (Hlp : (length path <= 64)%nat) by (apply prefix_take in Hpre; rewrite <- Hpre, length_take, length_nibbles; lia). rewrite EA in Hby. apply Forall_app in Hby as [HbA Hby]. apply Forall_cons in Hby as [[Hba _] _].
  destruct (before_rows A a [0] path HfA HbA HltA Hla) as [P1 P2].
  { intros b Hb. rewrite take_ge by lia. destruct (has_prefix (keyToNibbles (ahash b)) path) eqn:E; [|done]. exfalso. apply (Hne b Hb), Huniq; [rewrite EA; set_solver|done]. }
  cbn [rows_of]. apply seek_first_under; try done; [apply Forall_app; split; [done|by repeat constructor]|]. rewrite keyToNibbles_app. apply has_prefix_spec in Hpre as [x ->]. rewrite <- app_assoc. apply has_prefix_app.
Qed.

Lemma seek_slot accts a k v path :
  accounts_ok accts -> Forall bytes_ok accts -> a ∈ accts -> (k, v) ∈ aslots a -> Forall nib_ok path -> has_prefix (keyToNibbles k) path = true ->
  (forall kv, kv ∈ aslots a -> has_prefix (keyToNibbles kv.1) path = true -> kv.1 = k) ->
  seek (flat_map rows_of accts) (ahash a ++ [1] ++ packNibbles path) = (ahash a ++ 1 :: k, v).
Proof.
  intros Hok Hby Ha Hkv Hp Hpre Huniq. assert (Haok : account_ok a) by (destruct Hok as [Hf _]; rewrite Forall_forall in Hf; apply (Hf a Ha)). pose proof Haok as (Hla & _ & _ & Hasc & _).
  destruct (split_rows accts a Hok Ha) as (A & B & EA & HfA & HltA & -> & Hne). rewrite EA in Hby. apply Forall_app in Hby as [HbA Hby]. apply Forall_cons in Hby as [[Hba Hbs] _].
  assert (Hb1 : Forall byte_ok (ahash a ++ [1])) by (apply Forall_app; split; [done|by repeat constructor]). rewrite (app_assoc (ahash a) [1]), <- (pack_app (ahash a ++ [1]) path) by done. set (path' := keyToNibbles (ahash a ++ [1]) ++ path).
  apply list_elem_of_split in Hkv as (S1 & S2 & ES). unfold ascending in Hasc. rewrite ES in Hasc. apply StronglySorted_app in Hasc as (Hlt1 & _ & _).
  destruct (before_rows A a (1 :: k) path' HfA HbA HltA Hla) as [P1 P2].
  { intros b Hb. unfold path'. rewrite keyToNibbles_app, <- app_assoc, take_app_length' by (rewrite length_nibbles, Hla; lia). apply not_true_iff_false. intros E.
    rewrite Forall_forall in HfA, HbA. apply (Hne b Hb). apply full_prefix; try done; [destruct (HfA b Hb); congruence|by apply HbA]. }
  assert (Hbk : Forall byte_ok k) by (rewrite Forall_forall in Hbs; apply (Hbs (k, v)); rewrite ES; set_solver).
  assert (Erow : rows_of a = ((ahash a ++ [0], avalue a) :: slot_rows (ahash a) S1) ++ (ahash a ++ 1 :: k, v) :: slot_rows (ahash a) S2) by (unfold rows_of, slot_rows; rewrite ES, fmap_app; done).
  rewrite Erow, <- app_assoc, app_assoc. cbn [app]. apply seek_first_under.
  - replace (ahash a ++ 1 :: k) with ((ahash a ++ [1]) ++ k) by (by rewrite <- app_assoc). by apply Forall_app.
  - apply Forall_app. split; [done|]. apply Forall_forall. intros r Hr. apply (row_bytes a); [by split|]. rewrite Erow. set_solver.
  - unfold path'. apply Forall_app. split; [|done]. clear -Hb1. induction (ahash a ++ [1]) as [|c l IH]; [constructor|]. apply Forall_cons in Hb1 as [Hc Hl]. destruct (byte_nibbles c Hc) as (? & ? & _). cbn. constructor; [done|]. constructor; [done|]. by apply IH.
  - unfold path'. replace (ahash a ++ 1 :: k) with ((ahash a ++ [1]) ++ k) by (by rewrite <- app_assoc). rewrite (keyToNibbles_app _ k). apply has_prefix_spec in Hpre as [x ->]. rewrite app_assoc. apply has_prefix_app.
  - apply Forall_app. split; [done|]. apply Forall_cons. split; cbn [fst].
    + split; [unfold blt; rewrite bcmp_app; done|]. apply not_true_iff_false. intros E. apply has_prefix_spec in E as [x E]. unfold path' in E. rewrite !keyToNibbles_app, <- !app_assoc in E. apply app_inv_head in E. done.
    + apply Forall_forall. intros r Hr. unfold slot_rows in Hr. apply list_elem_of_fmap in Hr as (kv & -> & Hin). cbn [fst]. pose proof (Hlt1 kv (k, v) Hin ltac:(set_solver)) as Hlt. cbn in Hlt. split.
      * unfold blt. rewrite bcmp_app. cbn [bcmp]. rewrite Z.compare_refl. exact Hlt.
      * apply not_true_iff_false. intros E. apply has_prefix_spec in E as [x E]. unfold path' in E. replace (ahash a ++ 1 :: kv.1) with ((ahash a ++ [1]) ++ kv.1) in E by (by rewrite <- app_assoc).
        rewrite (keyToNibbles_app _ kv.1), <- app_assoc in E. apply app_inv_head in E. assert (Ek : kv.1 = k) by (apply Huniq; [rewrite ES; set_solver|rewrite E; apply has_prefix_app]). rewrite Ek in Hlt. by apply blt_irrefl in Hlt.
Qed.

(** The seek returns a row, or nothing. *)
Lemma seek_in rows prefix : (seek rows prefix) ∈ rows \/ seek rows prefix = ([], []).
Proof. unfold seek. destruct (List.find _ rows) as [r|] eqn:E; [left|by right]. apply List.find_some in E as [Hin _]. by apply list_elem_of_In. Qed.

Lemma same_account accts a b : accounts_ok accts -> a ∈ accts -> b ∈ accts -> ahash b = ahash a -> b = a.
Proof.
  intros Hok Ha Hb E. apply list_elem_of_lookup in Ha as [i Hi], Hb as [j Hj]. pose proof (hashes_nodup accts Hok) as Hnd.
  assert (i = j) as -> by (apply (proj1 (NoDup_alt _) Hnd i j (ahash a)); rewrite list_lookup_fmap; [by rewrite Hi|by rewrite Hj; cbn; rewrite E]). congruence.
Qed.

Lemma account_root_ok accts a f :
  accounts_ok accts -> Forall bytes_ok accts -> a ∈ accts ->
  StorageRoot f EmptyRootHash (ahash a) = Ok (if internal (strie a) then (sroot EmptyRootHash a, true) else (EmptyRootHash, false)) ->
  account_root EmptyRootHash (flat_map rows_of accts) f (ahash a) = Ok (sroot EmptyRootHash a).
Proof.
  intros Hok Hby Ha HS. assert (Haok : account_ok a) by (destruct Hok as [Hf _]; rewrite Forall_forall in Hf; apply (Hf a Ha)). pose proof Haok as (Hla & _ & _ & _ & Hkl). unfold account_root. rewrite HS.
  destruct (internal (strie a)) eqn:Ei; [done|]. cbn [rbind fst snd]. destruct (slots_fit a Haok) as [Hasc Hhash]. destruct (aslots a) as [|kv [|kv' l]] eqn:Es.
  - unfold sroot. rewrite Es. assert (Hno : (len (seek (flat_map rows_of accts) (ahash a ++ [1])).1 =? 65) && bool_decide ((seek (flat_map rows_of accts) (ahash a ++ [1])).1 !! 32%nat = Some 1) && beqb (take 32 (seek (flat_map rows_of accts) (ahash a ++ [1])).1) (ahash a) = false); [|by rewrite Hno].
    destruct (seek_in (flat_map rows_of accts) (ahash a ++ [1])) as [Hin| ->]; [|done]. apply list_elem_of_In, List.in_flat_map in Hin as (b & Hb & Hr). apply list_elem_of_In in Hb, Hr. destruct (row_of b _ Hr) as (t & -> & Ht).
    assert (Hlb : length (ahash b) = 32%nat) by (destruct Hok as [Hf _]; rewrite Forall_forall in Hf; apply (Hf b Hb)). rewrite take_app_length' by done. destruct (beqb_spec (ahash b) (ahash a)) as [Eb|]; [|by rewrite andb_false_r].
    rewrite (same_account accts a b Hok Ha Hb Eb) in Ht. destruct Ht as [[-> _]|(kv & Hkv & _)]; [|rewrite Es in Hkv; by apply not_elem_of_nil in Hkv]. unfold len. by rewrite length_app, Hlb.
  - destruct kv as [k v]. apply Forall_cons in Hkl as [Hk _]. cbn in Hk. pose proof (seek_slot accts a k v [] Hok Hby Ha ltac:(rewrite Es; left) ltac:(constructor) eq_refl) as Hseek. rewrite Es in Hseek. cbn [packNibbles app] in Hseek.
    rewrite Hseek by (intros kv [->|Hkv]%elem_of_cons _; [done|by apply not_elem_of_nil in Hkv]). cbn [fst snd]. destruct (slot_key (ahash a) k Hla Hk) as (_ & K2 & K3 & K4 & K5). rewrite K2, K3, K4. rewrite bool_decide_eq_true_2 by done.
    destruct (beqb_spec (ahash a) (ahash a)); [|done]. cbn [andb]. f_equal. unfold slot_root. rewrite K5. unfold sroot. rewrite Es. destruct (trie_emits _ Hasc Hhash) as (t & ems & ems' & Hfe & Hha & _).
    unfold slots_of in *. rewrite Es in *. cbn [fmap list_fmap feed fst snd] in Hfe. destruct (st_Update NewStackTrie k (value_of (encode_string v))) as [u| |]; try done. cbn [rbind fst snd] in Hfe. injection Hfe as <- _. by rewrite Hha.
  - unfold strie in Ei. rewrite Es in Ei. rewrite two_internal in Ei; try done. unfold slots_of. by rewrite Es, length_fmap; cbn; lia.
Qed.

Notation reads fuel accts f d owner path := (Node EmptyRootHash encode_node fuel (flat_map rows_of accts) f d owner path).

(** C27: the overlay needs no leaf in the file. Over the file [Roll] wrote, at a path where the
    overlay retains nothing and the trie has no internal node, the node the trie
    library is given is the leaf of the only row under that path: for the account trie the
    account's value with its storage root, which the file, the one slot or the empty
    root supplies, for a storage trie the slot's value, each with the rest of its key. *)
Theorem dirty_rebuilds_leaf accts user root stats m f d path fuel :
  accounts_ok accts -> Forall bytes_ok accts -> len user = 32 ->
  Roll EmptyRootHash (flat_map rows_of accts) None user = Ok (root, stats, m) -> len m < 2 ^ 63 -> Open m = Ok f ->
  Forall nib_ok path -> (length path < fuel)%nat ->
  (forall a, a ∈ accts -> has_prefix (keyToNibbles (ahash a)) path = true -> (forall b, b ∈ accts -> has_prefix (keyToNibbles (ahash b)) path = true -> ahash b = ahash a) ->
     Dirty.lookup zeroHash path d = Ok None -> tree_at (trie_of (leaves EmptyRootHash accts)) path = None ->
     reads fuel accts f d zeroHash path = let* hp := hexToCompact (drop (length path) (keyToNibbles (ahash a))) true in encode_node hp (leaf_of EmptyRootHash a).2) /\
  (forall a k v, a ∈ accts -> (k, v) ∈ aslots a -> has_prefix (keyToNibbles k) path = true -> (forall kv, kv ∈ aslots a -> has_prefix (keyToNibbles kv.1) path = true -> kv.1 = k) ->
     Dirty.lookup (ahash a) path d = Ok None -> tree_at (strie a) path = None ->
     reads fuel accts f d (ahash a) path = let* hp := hexToCompact (drop (length path) (keyToNibbles k)) true in encode_node hp (value_of (encode_string v))).
Proof.
  intros Hok Hby Hu HR Hm Ho Hp Hfu. destruct (rolled_serves EmptyRootHash empty_root_length accts user Hok Hu) as (stats' & m' & E & _ & Hs). rewrite E in HR. injection HR as <- <- <-.
  destruct (Hs Hm) as (f' & Eo & _ & _ & Hn). rewrite Ho in Eo. injection Eo as <-. destruct (Hn path fuel Hp Hfu) as (N0 & Na & _). assert (Hall := proj1 Hok). rewrite Forall_forall in Hall.
  assert (Hnib : forall x, has_prefix (keyToNibbles x) path = true -> (len (keyToNibbles x) <? len path) || negb (beqb (take (length path) (keyToNibbles x)) path) = false).
  { intros x Hx. apply prefix_take in Hx as Ht. rewrite Ht. destruct (beqb_spec path path); [|done]. rewrite orb_false_r. apply Z.ltb_ge. unfold len. rewrite <- Ht at 1. rewrite length_take. lia. }
  split.
  - intros a Ha Hpre Huniq Hd Ht. unfold Node. rewrite Hd. cbn [rbind]. unfold zeroHash in *. rewrite N0, Ht. cbn [rbind]. unfold leaf. rewrite bool_decide_eq_true_2 by done. rewrite (seek_account accts a path) by done. cbn [fst snd].
    destruct (Hall a Ha) as (Hla & _ & Hdec & _). destruct (account_key (ahash a) Hla) as (K1 & K2 & K3). rewrite K1, K2, K3. rewrite bool_decide_eq_true_2 by done. cbn [andb]. rewrite Hdec. cbn [rbind].
    rewrite (account_root_ok accts a f Hok Hby Ha (proj2 (Na a Ha))). cbn [rbind fst snd]. by rewrite (Hnib _ Hpre).
  - intros a k v Ha Hkv Hpre Huniq Hd Ht. unfold Node. rewrite Hd. cbn [rbind]. rewrite (proj1 (Na a Ha)), Ht. cbn [rbind]. destruct (Hall a Ha) as (Hla & Hz & _ & _ & Hkl). unfold leaf. rewrite (bool_decide_eq_false_2 (ahash a = zeroHash)) by done.
    rewrite (seek_slot accts a k v path) by done. cbn [fst snd negb andb]. rewrite Forall_forall in Hkl. destruct (slot_key (ahash a) k Hla (Hkl _ Hkv)) as (_ & K2 & K3 & K4 & K5). rewrite K2, K3, K4, K5. rewrite bool_decide_eq_true_2 by done.
    destruct (beqb_spec (ahash a) (ahash a)); [|done]. cbn [andb rbind fst snd]. by rewrite (Hnib _ Hpre).
Qed.

End Rebuilt.

(** The sample roll: the account with one slot, whose root comes from that slot. *)
#[local] Existing Instance toy_rlp.
#[local] Existing Instance toy_stack.
#[local] Existing Instance toy_laws.
Definition toy_node (hp v : bytes) : res bytes := Ok (hp ++ v).
Definition toy_last : account := Account (toy_hash 7) [] (AccountRow 0 0 []) [(toy_hash 9, [])].

Lemma toy_two_internal (kvs : list (bytes * bytes)) : ascending kvs -> Forall hashed kvs -> (2 <= length kvs)%nat -> internal (trie_of kvs) = true.
Proof. intros _ _. destruct kvs as [|? [|? ?]]; cbn [length]; [lia|lia|done]. Qed.

Lemma toy_bytes_ok : Forall bytes_ok toy_accounts.
Proof. repeat constructor; unfold byte_ok; lia. Qed.

Lemma dirty_rebuilds_leaf_witness :
  exists root stats m f, Roll (replicate 32 8) (flat_map rows_of toy_accounts) None (replicate 32 4) = Ok (root, stats, m) /\ Open m = Ok f /\
    Node (replicate 32 8) toy_node 3 (flat_map rows_of toy_accounts) f (Dirty.Reset root) zeroHash [0; 7] =
      Ok (32 :: replicate 31 0 ++ (leaf_of (replicate 32 8) toy_last).2) /\ sroot (replicate 32 8) toy_last = replicate 32 1.
Proof.
  destruct (rolled_serves (replicate 32 8) eq_refl toy_accounts (replicate 32 4) toy_accounts_ok eq_refl) as (stats & m & E & _ & Hf).
  assert (Hm : len m < 2 ^ 63) by (pose proof E as E'; vm_compute in E'; injection E' as _ <-; by vm_compute). destruct (Hf Hm) as (f & Eo & _). set (root := root_of (leaves (replicate 32 8) toy_accounts)) in E.
  exists root, stats, m, f. split; [done|]. split; [done|].
  destruct (dirty_rebuilds_leaf (replicate 32 8) eq_refl toy_node toy_two_internal toy_accounts (replicate 32 4) root stats m f (Dirty.Reset root) [0; 7] 3 toy_accounts_ok toy_bytes_ok eq_refl E Hm Eo) as [HA _];
    [repeat constructor; unfold nib_ok; lia|cbn; lia|]. split; [|by vm_compute].
  assert (H1 : toy_last ∈ toy_accounts) by (unfold toy_accounts, toy_last; right; right; left).
  assert (H2 : forall b, b ∈ toy_accounts -> has_prefix (keyToNibbles (ahash b)) [0; 7] = true -> ahash b = ahash toy_last).
  { unfold toy_accounts. intros b Hb. apply elem_of_cons in Hb as [->|Hb]; [by vm_compute|]. apply elem_of_cons in Hb as [->|Hb]; [by vm_compute|]. apply list_elem_of_singleton in Hb as ->. done. }
  rewrite (HA toy_last H1 ltac:(by vm_compute) H2 ltac:(by vm_compute) ltac:(by vm_compute)). by vm_compute.
Defined.

End Leaf.
