(* ===== verification/Engine.v ===== *)
(** * fetch/consensus/engine.go: the consensus follower

    The engine polls sampled validators, turns their chits into votes and feeds
    avalanchego's snowman.Topological, which calls back with the blocks it decides.
    Topological and poll.Set are outside this repository: they are the classes below,
    a step of which returns the decisions it makes, in order. Every exported method
    holds the engine's mutex and is one step; what it sends and the calls of OnAnchor and
    OnAccept are the trace [out]. The clock is read once per step, the random and
    network answers a step gets are its [env], and so are the orders in which Go ranges
    over the maps. The times kept only for log lines are left out. *)

From S2P Require Import Prelude Bytes.

Module Engine.

Abbreviation ID := bytes.
Abbreviation NodeID := bytes.
Definition EmptyID : ID := replicate 32 0.

(** Durations in nanoseconds. *)
Definition Second : Z := 10 ^ 9.
Definition RequestTimeout : Z := 10 * Second.
Definition minPollTimeout : Z := 10 * Second.
Definition concurrentRepolls : Z := 16.
Definition maxOutstandingGets : Z := 64.
Definition getRetry : Z := 2500 * 10 ^ 6.
Definition maxGetTries : Z := 10.

Record Container := MkContainer { cID : ID; cParentID : ID; cHeight : Z; cEthHash : ID; cEthParentHash : ID; cTime : Z; cBytes : bytes }.

Inductive decision := DAccept (c : Container) | DReject (c : Container).

(** snowman.Topological. [topo_Add] and [RecordPoll] also return the decisions they
    call back with and whether they ended in an error; the last argument of
    [RecordPoll] is what Accept answers. *)
Class Topological := {
  topo : Type;
  bag : Type;
  Initialize : ID -> Z -> Z -> option topo;
  Processing : topo -> ID -> bool;
  NumProcessing : topo -> Z;
  Preference : topo -> ID;
  topo_Add : topo -> Container -> topo * list decision * bool;
  RecordPoll : topo -> bag -> (Container -> bool) -> topo * list decision * bool;
  (* bag.Mode's count *)
  bag_Mode : bag -> Z }.

(** poll.Set with the early-termination factory, which walks the blocks of consensus. *)
Class PollSet `{Topological} := {
  pset : Type;
  NewSet : topo -> option pset;
  set_Len : pset -> Z;
  set_Add : pset -> Z -> list NodeID -> option pset;
  set_Vote : topo -> pset -> Z -> NodeID -> ID -> pset * list bag;
  set_Drop : topo -> pset -> Z -> NodeID -> pset * list bag }.

Record Parameters := MkParameters { K : Z; AlphaPreference : Z; ConcurrentRepolls : Z; pRest : list Z }.
#[global] Instance Parameters_eq_dec : EqDecision Parameters.
Proof. solve_decision. Defined.

(** [OnAnchor] and [OnAccept] say whether the caller's function returns nil. *)
Record Config := MkConfig {
  Parse : bytes -> option Container; OnAnchor : option (Container -> bool); OnAccept : Container -> bool;
  Params : Parameters; PollInterval : Z; IdlePollInterval : Z; PollTimeout : Z }.

Inductive phase := phasePollAnchor | phaseAnchorGet | phaseLive.
Record rec := Rec { rc : Container; issued : bool }.
Record pollState := PollState { remaining : gset NodeID; pdeadline : Z }.
Record getReq := GetReq { gdeadline : Z; tries : Z }.
Record parkedVote := ParkedVote { vreq : Z; vnode : NodeID; options : list ID; vdeadline : Z }.

(** The fields of the bootstrap poll. *)
Record boot := Boot { bsReqID : Z; bsVotes : gmap ID Z; bsSample : gmap NodeID Z; bsVoters : gset NodeID; bsHeight : gmap ID Z; lastBSAt : Z }.
(** The accepted frontier. *)
Record frontier := Frontier { lID : ID; lHeight : Z; lEthHash : ID }.

(** What a step sends, and the callbacks it makes. *)
Inductive output :=
| OGet (peer : NodeID) (id : ID)
| OPull (targets : gset NodeID) (reqID : Z) (id : ID) (h : Z)
| OAnchor (c : Container)
| OAccept (c : Container).

Section Ops.
Context `{PollSet}.

Record Engine := MkEngine {
  ph : phase; fatal : bool; bs : boot; anchorID : ID; agDue : Z;
  cons : option topo; polls : option pset; pollVdrs : gmap Z pollState; recs : gmap ID rec; pendingByPa : gmap ID (list ID);
  gets : gmap ID getReq; parked : gmap ID (list parkedVote); frontiers : gmap NodeID ID;
  lastPollAt : Z; pollsOK : Z; pollsFailed : Z; peerAccMax : Z; la : frontier; out : list output }.

(** What the network and the runtime answer during a step. *)
Record env := MkEnv {
  now : Z; reqID : Z; sample : option (list NodeID); connected : NodeID -> bool; peer : ID -> option NodeID;
  poll_order : list Z; parked_order : list ID; gets_order : list ID; voter_order : gset NodeID -> list NodeID }.

Definition with_phase p e := MkEngine p (fatal e) (bs e) (anchorID e) (agDue e) (cons e) (polls e) (pollVdrs e) (recs e) (pendingByPa e) (gets e) (parked e) (frontiers e) (lastPollAt e) (pollsOK e) (pollsFailed e) (peerAccMax e) (la e) (out e).
Definition fail e := MkEngine (ph e) true (bs e) (anchorID e) (agDue e) (cons e) (polls e) (pollVdrs e) (recs e) (pendingByPa e) (gets e) (parked e) (frontiers e) (lastPollAt e) (pollsOK e) (pollsFailed e) (peerAccMax e) (la e) (out e).
Definition with_bs b e := MkEngine (ph e) (fatal e) b (anchorID e) (agDue e) (cons e) (polls e) (pollVdrs e) (recs e) (pendingByPa e) (gets e) (parked e) (frontiers e) (lastPollAt e) (pollsOK e) (pollsFailed e) (peerAccMax e) (la e) (out e).
Definition with_anchor i d e := MkEngine (ph e) (fatal e) (bs e) i d (cons e) (polls e) (pollVdrs e) (recs e) (pendingByPa e) (gets e) (parked e) (frontiers e) (lastPollAt e) (pollsOK e) (pollsFailed e) (peerAccMax e) (la e) (out e).
Definition with_cons c e := MkEngine (ph e) (fatal e) (bs e) (anchorID e) (agDue e) (Some c) (polls e) (pollVdrs e) (recs e) (pendingByPa e) (gets e) (parked e) (frontiers e) (lastPollAt e) (pollsOK e) (pollsFailed e) (peerAccMax e) (la e) (out e).
Definition with_polls p e := MkEngine (ph e) (fatal e) (bs e) (anchorID e) (agDue e) (cons e) (Some p) (pollVdrs e) (recs e) (pendingByPa e) (gets e) (parked e) (frontiers e) (lastPollAt e) (pollsOK e) (pollsFailed e) (peerAccMax e) (la e) (out e).
Definition with_pollVdrs m e := MkEngine (ph e) (fatal e) (bs e) (anchorID e) (agDue e) (cons e) (polls e) m (recs e) (pendingByPa e) (gets e) (parked e) (frontiers e) (lastPollAt e) (pollsOK e) (pollsFailed e) (peerAccMax e) (la e) (out e).
Definition with_recs m e := MkEngine (ph e) (fatal e) (bs e) (anchorID e) (agDue e) (cons e) (polls e) (pollVdrs e) m (pendingByPa e) (gets e) (parked e) (frontiers e) (lastPollAt e) (pollsOK e) (pollsFailed e) (peerAccMax e) (la e) (out e).
Definition with_pending m e := MkEngine (ph e) (fatal e) (bs e) (anchorID e) (agDue e) (cons e) (polls e) (pollVdrs e) (recs e) m (gets e) (parked e) (frontiers e) (lastPollAt e) (pollsOK e) (pollsFailed e) (peerAccMax e) (la e) (out e).
Definition with_gets m e := MkEngine (ph e) (fatal e) (bs e) (anchorID e) (agDue e) (cons e) (polls e) (pollVdrs e) (recs e) (pendingByPa e) m (parked e) (frontiers e) (lastPollAt e) (pollsOK e) (pollsFailed e) (peerAccMax e) (la e) (out e).
Definition with_parked m e := MkEngine (ph e) (fatal e) (bs e) (anchorID e) (agDue e) (cons e) (polls e) (pollVdrs e) (recs e) (pendingByPa e) (gets e) m (frontiers e) (lastPollAt e) (pollsOK e) (pollsFailed e) (peerAccMax e) (la e) (out e).
Definition with_frontiers m e := MkEngine (ph e) (fatal e) (bs e) (anchorID e) (agDue e) (cons e) (polls e) (pollVdrs e) (recs e) (pendingByPa e) (gets e) (parked e) m (lastPollAt e) (pollsOK e) (pollsFailed e) (peerAccMax e) (la e) (out e).
Definition with_lastPoll t e := MkEngine (ph e) (fatal e) (bs e) (anchorID e) (agDue e) (cons e) (polls e) (pollVdrs e) (recs e) (pendingByPa e) (gets e) (parked e) (frontiers e) t (pollsOK e) (pollsFailed e) (peerAccMax e) (la e) (out e).
Definition with_health ok bad e := MkEngine (ph e) (fatal e) (bs e) (anchorID e) (agDue e) (cons e) (polls e) (pollVdrs e) (recs e) (pendingByPa e) (gets e) (parked e) (frontiers e) (lastPollAt e) ok bad (peerAccMax e) (la e) (out e).
Definition with_peerMax h e := MkEngine (ph e) (fatal e) (bs e) (anchorID e) (agDue e) (cons e) (polls e) (pollVdrs e) (recs e) (pendingByPa e) (gets e) (parked e) (frontiers e) (lastPollAt e) (pollsOK e) (pollsFailed e) h (la e) (out e).
Definition with_last l e := MkEngine (ph e) (fatal e) (bs e) (anchorID e) (agDue e) (cons e) (polls e) (pollVdrs e) (recs e) (pendingByPa e) (gets e) (parked e) (frontiers e) (lastPollAt e) (pollsOK e) (pollsFailed e) (peerAccMax e) l (out e).
Definition say o e := MkEngine (ph e) (fatal e) (bs e) (anchorID e) (agDue e) (cons e) (polls e) (pollVdrs e) (recs e) (pendingByPa e) (gets e) (parked e) (frontiers e) (lastPollAt e) (pollsOK e) (pollsFailed e) (peerAccMax e) (la e) (out e ++ [o]).

(** ** Decision callbacks *)

Definition onAccept (c : Container) (e : Engine) : Engine :=
  let e := with_last (Frontier (cID c) (cHeight c) (cEthHash c)) e in
  let e := with_recs (delete (cID c) (recs e)) e in
  let e := with_recs (filter (fun kv => negb (negb (issued kv.2) && (cHeight (rc kv.2) <=? cHeight c)) = true) (recs e)) e in
  say (OAccept c) e.

Definition onReject (c : Container) (e : Engine) : Engine :=
  with_pending (delete (cID c) (pendingByPa e)) (with_recs (delete (cID c) (recs e)) e).

Definition decide_one (e : Engine) (d : decision) : Engine := match d with DAccept c => onAccept c e | DReject c => onReject c e end.
Definition decide_all (ds : list decision) (e : Engine) : Engine := foldl decide_one e ds.

Context (cfg : Config).

(** ** Containers *)

Definition ask (v : env) (id : ID) (e : Engine) : Engine :=
  if maxOutstandingGets <=? Z.of_nat (size (gets e)) then e
  else match peer v id with
  | None => e
  | Some p =>
      let t := match gets e !! id with Some g => tries g | None => 0 end in
      say (OGet p id) (with_gets (<[id := GetReq (now v + getRetry) (t + 1)]> (gets e)) e)
  end.

Definition fetchIfUnknown (v : env) (id : ID) (e : Engine) : Engine :=
  if bool_decide (id = EmptyID) || bool_decide (id = lID (la e)) then e
  else match recs e !! id with
  | Some _ => e
  | None =>
      match gets e !! id with
      | Some g => if now v <? gdeadline g then e else ask v id e
      | None => ask v id e
      end
  end.

(** The hash and height of the parent once it is issued; else whether it is unknown. *)
Definition parent_of (parentID : ID) (e : Engine) : (ID * Z) + bool :=
  if bool_decide (parentID = lID (la e)) then inl (lEthHash (la e), lHeight (la e))
  else match recs e !! parentID with
  | Some pr => if issued pr then inl (cEthHash (rc pr), cHeight (rc pr)) else inr false
  | None => inr true
  end.

Fixpoint drain (issue_one : ID -> Engine -> res Engine) (children : list ID) (e : Engine) : res Engine :=
  match children with [] => Ok e | c :: children => let* e := issue_one c e in drain issue_one children e end.

(** The fuel bounds the depth: every level issues one more container. *)
Fixpoint tryIssue (fuel : nat) (v : env) (id : ID) (e : Engine) : res Engine :=
  match fuel with
  | O => Err "still issuing"
  | S fuel =>
  match recs e !! id with
  | None => Ok e
  | Some r =>
      if issued r then Ok e
      else match parent_of (cParentID (rc r)) e with
      | inr unknown =>
          let e := if unknown then fetchIfUnknown v (cParentID (rc r)) e else e in
          Ok (with_pending (<[cParentID (rc r) := default [] (pendingByPa e !! cParentID (rc r)) ++ [cID (rc r)]]> (pendingByPa e)) e)
      | inl (parentEthHash, parentHeight) =>
          if negb (bool_decide (cEthParentHash (rc r) = parentEthHash)) || negb (cHeight (rc r) =? u64 (parentHeight + 1)) then
            Ok (with_recs (delete (cID (rc r)) (recs e)) e)
          else match cons e with
          | None => Panic
          | Some t =>
              let '(t', ds, bad) := topo_Add t (rc r) in
              let e := decide_all ds (with_cons t' e) in
              if bad : bool then Ok (fail e)
              else
                let e := with_recs (alter (fun r => Rec (rc r) true) id (recs e)) e in
                let children := default [] (pendingByPa e !! cID (rc r)) in
                let e := with_pending (delete (cID (rc r)) (pendingByPa e)) e in
                drain (tryIssue fuel v) children e
          end
      end
  end
  end.

(** ** Votes *)

Fixpoint bubble (fuel : nat) (id : ID) (e : Engine) : res (ID * ID * bool) :=
  match fuel with
  | O => Err "still bubbling"
  | S fuel =>
  match cons e with
  | None => Panic
  | Some t =>
      if bool_decide (id = lID (la e)) || Processing t id then Ok (id, EmptyID, true)
      else match recs e !! id with
      | None => Ok (EmptyID, id, false)
      | Some r => if cHeight (rc r) <=? lHeight (la e) then Ok (EmptyID, EmptyID, false) else bubble fuel (cParentID (rc r)) e
      end
  end
  end.
Definition bubble_fuel (e : Engine) : nat := S (size (recs e)).

Fixpoint recordPolls (results : list bag) (e : Engine) : res Engine :=
  match results with
  | [] => Ok e
  | votes :: results =>
      let e := if AlphaPreference (Params cfg) <=? bag_Mode votes then with_health (u64 (pollsOK e + 1)) (pollsFailed e) e
               else with_health (pollsOK e) (u64 (pollsFailed e + 1)) e in
      match cons e with
      | None => Panic
      | Some t =>
          let '(t', ds, bad) := RecordPoll t votes (OnAccept cfg) in
          let e := decide_all ds (with_cons t' e) in
          if bad : bool then Ok (fail e) else recordPolls results e
      end
  end.

Definition cast (w : parkedVote) (vote : option ID) (e : Engine) : res Engine :=
  match cons e, polls e with
  | Some t, Some p =>
      let (p', results) := match vote with Some x => set_Vote t p (vreq w) (vnode w) x | None => set_Drop t p (vreq w) (vnode w) end in
      recordPolls results (with_polls p' e)
  | _, _ => Panic
  end.

(** The loop over the options: [first] is [i == 0]. *)
Fixpoint try_options (v : env) (w : parkedVote) (allowPark first : bool) (l : list ID) (e : Engine) : res (option Engine) :=
  match l with
  | [] => Ok None
  | opt :: l =>
      let* (vote, blocker, ok) := bubble (bubble_fuel e) opt e in
      if ok : bool then let* e := cast w (Some vote) e in Ok (Some e)
      else if allowPark && first && negb (bool_decide (blocker = EmptyID)) then
        let e := fetchIfUnknown v blocker e in
        Ok (Some (with_parked (<[blocker := default [] (parked e !! blocker) ++ [w]]> (parked e)) e))
      else try_options v w allowPark false l e
  end.

Definition applyVote (v : env) (w : parkedVote) (allowPark : bool) (e : Engine) : res Engine :=
  let* r := try_options v w allowPark true (options w) e in
  match r with
  | Some e => Ok e
  | None =>
      match frontiers e !! vnode w with
      | None => cast w None e
      | Some fid =>
          let* (vote, _, ok) := bubble (bubble_fuel e) fid e in
          cast w (if ok : bool then Some vote else None) e
      end
  end.

Fixpoint apply_votes (v : env) (ws : list parkedVote) (e : Engine) : res Engine :=
  match ws with [] => Ok e | w :: ws => let* e := applyVote v w false e in apply_votes v ws e end.

Definition addContainer (v : env) (c : Container) (e : Engine) : res Engine :=
  match recs e !! cID c with
  | Some _ => Ok e
  | None =>
      if bool_decide (cID c = lID (la e)) || (cHeight c <=? lHeight (la e)) then Ok e
      else
        let e := with_recs (<[cID c := Rec c false]> (recs e)) e in
        let* e := tryIssue (S (size (recs e))) v (cID c) e in
        match parked e !! cID c with
        | None => Ok e
        | Some votes => apply_votes v votes (with_parked (delete (cID c) (parked e)) e)
        end
  end.

(** ** Polls *)

Definition sendPoll (v : env) (e : Engine) : res (Engine * bool) :=
  match sample v with
  | None | Some [] => Ok (e, false)
  | Some vdrs =>
      match cons e, polls e with
      | Some t, Some p =>
          match set_Add p (reqID v) vdrs with
          | None => Ok (e, false)
          | Some p' =>
              let e := with_lastPoll (now v) (with_polls p' e) in
              let nodes := list_to_set vdrs : gset NodeID in
              let targets := filter (fun n => connected v n = true) nodes in
              let e := if bool_decide (targets = ∅) then e
                       else say (OPull targets (reqID v) (Preference t) (u64 (lHeight (la e) + 1)))
                              (with_pollVdrs (<[reqID v := PollState targets (now v + PollTimeout cfg)]> (pollVdrs e)) e) in
              let* e := apply_votes v ((fun n => ParkedVote (reqID v) n [] 0) <$> voter_order v (nodes ∖ targets)) e in
              Ok (e, true)
          end
      | _, _ => Panic
      end
  end.

Fixpoint expirePolls (v : env) (order : list Z) (e : Engine) : res Engine :=
  match order with
  | [] => Ok e
  | r :: order =>
      match pollVdrs e !! r with
      | None => expirePolls v order e
      | Some ps =>
          if now v <? pdeadline ps then expirePolls v order e
          else
            let* e := apply_votes v ((fun n => ParkedVote r n [] 0) <$> voter_order v (remaining ps)) (with_pollVdrs (delete r (pollVdrs e)) e) in
            expirePolls v order e
      end
  end.

(** One key of [expireParked]: the votes kept, and the expired ones applied. *)
Fixpoint expire_votes (v : env) (ws : list parkedVote) (e : Engine) : res (list parkedVote * Engine) :=
  match ws with
  | [] => Ok ([], e)
  | w :: ws =>
      if vdeadline w <? now v then
        let* e := applyVote v (ParkedVote (vreq w) (vnode w) [] (vdeadline w)) false e in
        expire_votes v ws e
      else
        let* r := expire_votes v ws e in Ok (w :: r.1, r.2)
  end.

Fixpoint expireParked (v : env) (order : list ID) (e : Engine) : res Engine :=
  match order with
  | [] => Ok e
  | id :: order =>
      match parked e !! id with
      | None => expireParked v order e
      | Some votes =>
          let* r := expire_votes v votes e in
          let e := r.2 in
          expireParked v order (with_parked (match r.1 with [] => delete id (parked e) | kept => <[id := kept]> (parked e) end) e)
      end
  end.

Fixpoint retryGets (v : env) (order : list ID) (e : Engine) : Engine :=
  match order with
  | [] => e
  | id :: order =>
      match gets e !! id with
      | None => retryGets v order e
      | Some g =>
          if now v <? gdeadline g then retryGets v order e
          else if maxGetTries <=? tries g then retryGets v order (with_gets (delete id (gets e)) e)
          else retryGets v order (fetchIfUnknown v id e)
      end
  end.

(** ** Finding the anchor *)

Definition sendAnchorGet (v : env) (e : Engine) : Engine :=
  match peer v (anchorID e) with
  | None => e
  | Some p => say (OGet p (anchorID e)) (with_anchor (anchorID e) (now v + RequestTimeout) e)
  end.

Definition count_draws (vdrs : list NodeID) : gmap NodeID Z := foldl (fun m n => <[n := default 0 (m !! n) + 1]> m) ∅ vdrs.

Definition sendBootstrapPoll (v : env) (e : Engine) : Engine :=
  match sample v with
  | None | Some [] => e
  | Some vdrs =>
      let targets := filter (fun n => connected v n = true) (list_to_set vdrs : gset NodeID) in
      let b := Boot (reqID v) ∅ (count_draws vdrs) ∅ ∅ (lastBSAt (bs e)) in
      if bool_decide (targets = ∅) then with_bs b e
      else say (OPull targets (reqID v) EmptyID 0) (with_bs (Boot (reqID v) ∅ (count_draws vdrs) ∅ ∅ (now v)) e)
  end.

Definition bootstrapChit (v : env) (node : NodeID) (req : Z) (accepted : ID) (acceptedHeight : Z) (e : Engine) : Engine :=
  let b := bs e in
  let draws := default 0 (bsSample b !! node) in
  if negb (req =? bsReqID b) || (draws =? 0) || bool_decide (node ∈ bsVoters b) then e
  else
    let votes := default 0 (bsVotes b !! accepted) + draws in
    let e := with_bs (Boot (bsReqID b) (<[accepted := votes]> (bsVotes b)) (bsSample b) ({[node]} ∪ bsVoters b) (<[accepted := acceptedHeight]> (bsHeight b)) (lastBSAt b)) e in
    if votes <? AlphaPreference (Params cfg) then e
    else sendAnchorGet v (with_phase phaseAnchorGet (with_anchor accepted (agDue e) e)).

Definition goLive (v : env) (anchor : Container) (e : Engine) : res Engine :=
  let e := with_last (Frontier (cID anchor) (cHeight anchor) (cEthHash anchor)) e in
  match Initialize (cID anchor) (cHeight anchor) (cTime anchor) with
  | None => Ok (fail e)
  | Some t =>
      match NewSet t with
      | None => Ok (fail e)
      | Some p =>
          let e := with_phase phaseLive (with_polls p (with_cons t e)) in
          match OnAnchor cfg with
          | None => rmap fst (sendPoll v e)
          | Some f =>
              let e := say (OAnchor anchor) e in
              if f anchor then rmap fst (sendPoll v e) else Ok (fail e)
          end
      end
  end.

(** ** The exported methods *)

Definition OnContainer (v : env) (raw : bytes) (e : Engine) : res Engine :=
  match Parse cfg raw with
  | None => Ok e
  | Some c =>
      let e := with_gets (delete (cID c) (gets e)) e in
      match ph e with
      | phasePollAnchor => Ok e
      | phaseAnchorGet => if bool_decide (cID c = anchorID e) then goLive v c e else Ok e
      | phaseLive => addContainer v c e
      end
  end.

Definition OnChits (v : env) (node : NodeID) (req : Z) (preferred preferredAtHeight accepted : ID) (acceptedHeight : Z) (e : Engine) : res Engine :=
  let e := if peerAccMax e <? acceptedHeight then with_peerMax acceptedHeight e else e in
  match ph e with
  | phasePollAnchor => Ok (bootstrapChit v node req accepted acceptedHeight e)
  | phaseAnchorGet => Ok e
  | phaseLive =>
      let e := with_frontiers (<[node := accepted]> (frontiers e)) e in
      match pollVdrs e !! req with
      | None => Ok e
      | Some ps =>
          if negb (bool_decide (node ∈ remaining ps)) then Ok e
          else
            let left := remaining ps ∖ {[node]} in
            let e := with_pollVdrs (if bool_decide (left = ∅) then delete req (pollVdrs e) else <[req := PollState left (pdeadline ps)]> (pollVdrs e)) e in
            let e := fetchIfUnknown v preferred e in
            let e := if bool_decide (preferredAtHeight = preferred) then e else fetchIfUnknown v preferredAtHeight e in
            applyVote v (ParkedVote req node [preferred; preferredAtHeight] (now v + RequestTimeout)) true e
      end
  end.

(** The loop that keeps polls in flight. A poll sent sets [lastPollAt], so with a
    positive interval the test fails on the second turn. *)
Fixpoint poll_loop (fuel : nat) (v : env) (e : Engine) : res Engine :=
  match polls e with
  | None => Panic
  | Some p =>
      if (set_Len p <? ConcurrentRepolls (Params cfg)) && (PollInterval cfg <=? now v - lastPollAt e) then
        match fuel with
        | O => Err "still polling"
        | S fuel => let* r := sendPoll v e in if r.2 then poll_loop fuel v r.1 else Ok r.1
        end
      else Ok e
  end.

Definition Tick (v : env) (e : Engine) : res Engine :=
  match ph e with
  | phasePollAnchor => Ok (if 2 * Second <=? now v - lastBSAt (bs e) then sendBootstrapPoll v e else e)
  | phaseAnchorGet => Ok (if agDue e <? now v then sendAnchorGet v e else e)
  | phaseLive =>
      let* e := expirePolls v (poll_order v) e in
      let* e := expireParked v (parked_order v) e in
      let e := retryGets v (gets_order v) e in
      match cons e with
      | None => Panic
      | Some t =>
          if 0 <? NumProcessing t then poll_loop 1 v e
          else if IdlePollInterval cfg <=? now v - lastPollAt e then rmap fst (sendPoll v e) else Ok e
      end
  end.

Record Stats := MkStats { Live : bool; AcceptedHeight : Z; PeerAcceptedMax : Z; sProcessing : Z; sPollsOK : Z; sPollsFailed : Z; ParkedVotes : Z; OutstandingGets : Z }.

Definition stats (e : Engine) : Stats :=
  MkStats (match ph e with phaseLive => true | _ => false end) (lHeight (la e)) (peerAccMax e)
    (match cons e with Some t => NumProcessing t | None => 0 end) (pollsOK e) (pollsFailed e)
    (map_fold (fun _ votes n => n + len votes) 0 (parked e)) (Z.of_nat (size (gets e))).

Definition LastAccepted (e : Engine) : Z * ID := (lHeight (la e), lEthHash (la e)).

End Ops.

(** [New]: the configuration it completes and the engine it starts. *)
Definition New `{PollSet} (Verify : Parameters -> bool) (zero DefaultParameters : Parameters) (cfg : Config) : option (Config * Engine) :=
  let params := if bool_decide (Params cfg = zero) then MkParameters (K DefaultParameters) (AlphaPreference DefaultParameters) concurrentRepolls (pRest DefaultParameters) else Params cfg in
  if negb (Verify params) then None
  else Some (MkConfig (Parse cfg) (OnAnchor cfg) (OnAccept cfg) params
               (if PollInterval cfg <=? 0 then 100 * 10 ^ 6 else PollInterval cfg)
               (if IdlePollInterval cfg <=? 0 then Second else IdlePollInterval cfg)
               (if PollTimeout cfg <? minPollTimeout then Z.max RequestTimeout minPollTimeout else PollTimeout cfg),
             MkEngine phasePollAnchor false (Boot 0 ∅ ∅ ∅ ∅ 0) EmptyID 0 None None ∅ ∅ ∅ ∅ ∅ ∅ 0 0 0 0 (Frontier EmptyID 0 EmptyID) []).

(** ** What is known of snowman.Topological *)

(** The tree it keeps: the last accepted block and the ones being decided. *)
Record view := View { vLast : ID; vProc : gmap ID Container }.

Inductive vstep : view -> decision -> view -> Prop :=
| v_accept V c : vProc V !! cID c = Some c -> cParentID c = vLast V -> vstep V (DAccept c) (View (cID c) (delete (cID c) (vProc V)))
| v_reject V c : vProc V !! cID c = Some c -> vstep V (DReject c) (View (vLast V) (delete (cID c) (vProc V))).

Inductive vsteps : view -> list decision -> view -> Prop :=
| v_nil V : vsteps V [] V
| v_cons V d V' ds V'' : vstep V d V' -> vsteps V' ds V'' -> vsteps V (d :: ds) V''.

(** Every block being decided stands on the last accepted one or on another. *)
Definition closed (V : view) : Prop := forall id c, vProc V !! id = Some c -> cParentID c = vLast V \/ is_Some (vProc V !! cParentID c).

(** The documented behaviour: a block whose parent is in the tree joins it; a poll
    accepts only children of the last accepted block and rejects only blocks of the
    tree, conflicting subtrees whole. *)
Class TopoLaws `{Topological} := {
  tview : topo -> view;
  init_view id h t s : Initialize id h t = Some s -> tview s = View id ∅;
  processing_view s id : Processing s id = bool_decide (is_Some (vProc (tview s) !! id));
  add_view s c : vProc (tview s) !! cID c = None -> cID c <> vLast (tview s) ->
    cParentID c = vLast (tview s) \/ is_Some (vProc (tview s) !! cParentID c) ->
    exists s', topo_Add s c = (s', [], false) /\ tview s' = View (vLast (tview s)) (<[cID c := c]> (vProc (tview s)));
  poll_view s b ok s' ds : closed (tview s) -> RecordPoll s b ok = (s', ds, false) -> vsteps (tview s) ds (tview s') /\ closed (tview s') }.

(** ** The invariant *)

Definition accepts (l : list output) : list Container := omap (fun o => match o with OAccept c => Some c | _ => None end) l.

(** [c] extends a block of this hash and height. *)
Definition extends (eth : ID) (h : Z) (c : Container) : Prop := cEthParentHash c = eth /\ cHeight c = u64 (h + 1).

(** A chain of containers on an accepted block, and the block it ends in. *)
Fixpoint chain (l : frontier) (cs : list Container) : Prop :=
  match cs with
  | [] => True
  | c :: cs => cParentID c = lID l /\ extends (lEthHash l) (lHeight l) c /\ chain (Frontier (cID c) (cHeight c) (cEthHash c)) cs
  end.
Definition front (c : Container) : frontier := Frontier (cID c) (cHeight c) (cEthHash c).
Definition tip (l : frontier) (cs : list Container) : frontier := match last cs with Some c => front c | None => l end.

Lemma chain_snoc l cs c : chain l cs -> cParentID c = lID (tip l cs) -> extends (lEthHash (tip l cs)) (lHeight (tip l cs)) c -> chain l (cs ++ [c]).
Proof.
  revert l. induction cs as [|x cs IH]; intros l Hc Hp He; [done|]. destruct Hc as (H1 & H2 & Hc). cbn [app chain]. split; [done|]. split; [done|].
  assert (E : tip l (x :: cs) = tip (front x) cs) by (unfold tip; rewrite last_cons; by destruct (last cs)). rewrite E in Hp, He. by apply IH.
Qed.

Section Inv.
Context `{PollSet} `{!TopoLaws} (cfg : Config).

Record tree_ok (V : view) (e : Engine) : Prop := {
  tr_last : vLast V = lID (la e);
  tr_recs id c : vProc V !! id = Some c <-> recs e !! id = Some (Rec c true);
  tr_ids id r : recs e !! id = Some r -> cID (rc r) = id;
  tr_none : recs e !! lID (la e) = None;
  tr_root id c : vProc V !! id = Some c -> cParentID c = vLast V -> extends (lEthHash (la e)) (lHeight (la e)) c;
  tr_link id c p : vProc V !! id = Some c -> vProc V !! cParentID c = Some p -> extends (cEthHash p) (cHeight p) c;
  tr_chain : exists anchor, cID anchor = anchorID e /\ chain (front anchor) (accepts (out e)) /\ la e = tip (front anchor) (accepts (out e)) }.

Lemma accepts_app a b : accepts (a ++ b) = accepts a ++ accepts b.
Proof. unfold accepts. by rewrite omap_app. Qed.

Lemma tree_accept V c e : tree_ok V e -> vProc V !! cID c = Some c -> cParentID c = vLast V ->
  tree_ok (View (cID c) (delete (cID c) (vProc V))) (onAccept c e).
Proof.
  intros [Tlast Trec Tids Tnone Troot Tlink (anchor & Ha & Hc & Hl)] Hv Hp. split; cbn [onAccept say with_recs with_last la lID lHeight lEthHash recs vLast vProc anchorID out].
  - done.
  - intros id c'. rewrite map_lookup_filter_Some. destruct (decide (id = cID c)) as [->|Hne].
    + rewrite !lookup_delete_eq. naive_solver.
    + rewrite !lookup_delete_ne by done. rewrite Trec. cbn. naive_solver.
  - intros id r Hr. apply map_lookup_filter_Some in Hr as [Hr _]. apply lookup_delete_Some in Hr as [_ Hr]. by apply Tids.
  - apply map_lookup_filter_None. left. apply lookup_delete_eq.
  - intros id c' Hc' Hpar. apply lookup_delete_Some in Hc' as [_ Hc']. rewrite <- Hpar in Hv. exact (Tlink _ _ _ Hc' Hv).
  - intros id c' p Hc' Hpar. apply lookup_delete_Some in Hc' as [_ Hc'], Hpar as [_ Hpar]. exact (Tlink _ _ _ Hc' Hpar).
  - exists anchor. split; [done|]. rewrite accepts_app. cbn [accepts omap list_omap]. split.
    + apply chain_snoc; [done|by rewrite <- Hl, <- Tlast|]. rewrite <- Hl. exact (Troot _ _ Hv Hp).
    + unfold tip. by rewrite last_snoc.
Qed.

Lemma tree_reject V c e : tree_ok V e -> vProc V !! cID c = Some c -> tree_ok (View (vLast V) (delete (cID c) (vProc V))) (onReject c e).
Proof.
  intros [Tlast Trec Tids Tnone Troot Tlink Tchain] Hv. split; cbn [onReject with_recs with_pending la recs vLast vProc anchorID out]; try done.
  - intros id c'. rewrite !lookup_delete_Some, Trec. done.
  - intros id r Hr. apply lookup_delete_Some in Hr as [_ Hr]. by apply Tids.
  - apply lookup_delete_None. by right.
  - intros id c' Hc' Hpar. apply lookup_delete_Some in Hc' as [_ Hc']. exact (Troot _ _ Hc' Hpar).
  - intros id c' p Hc' Hpar. apply lookup_delete_Some in Hc' as [_ Hc'], Hpar as [_ Hpar]. exact (Tlink _ _ _ Hc' Hpar).
Qed.

Lemma tree_decides ds V V' e : vsteps V ds V' -> tree_ok V e -> tree_ok V' (decide_all ds e).
Proof.
  intros Hs. revert e. induction Hs as [V|V d V1 ds V' Hd Hs IH]; intros e HT; [done|]. cbn [decide_all foldl]. apply IH. destruct Hd; cbn [decide_one]; [by apply tree_accept|by apply tree_reject].
Qed.

(** Containers are named by their hash, which their children's bytes hold: a rank of the
    names with parents below children stands for that. *)
Context (rank : ID -> nat).
Definition ranked (m : gmap ID rec) : Prop := map_Forall (fun id r => (rank (cParentID (rc r)) < rank id)%nat) m.

Record live_ok (τ : Z) (e : Engine) : Prop := {
  lv_time : lastPollAt e = τ;
  lv_ph : ph e = phaseLive;
  lv_cons : exists t, cons e = Some t /\ (fatal e = true \/ (closed (tview t) /\ tree_ok (tview t) e));
  lv_polls : is_Some (polls e);
  lv_rank : ranked (recs e) }.

(** Steps that leave the tree and the acceptances alone. *)
Record quiet (e e' : Engine) : Prop := {
  q_ph : ph e' = ph e; q_fatal : fatal e' = fatal e; q_cons : cons e' = cons e; q_polls : is_Some (polls e) -> is_Some (polls e');
  q_recs : recs e' = recs e; q_la : la e' = la e; q_anchor : anchorID e' = anchorID e; q_out : accepts (out e') = accepts (out e); q_time : lastPollAt e' = lastPollAt e }.

Section At.
Context {τ : Z}.

Lemma tree_quiet V e e' : quiet e e' -> tree_ok V e -> tree_ok V e'.
Proof. intros [? ? ? ? Hr Hl Ha Ho _] [? ? ? ? ? ? ?]. split; rewrite ?Hr, ?Hl, ?Ha, ?Ho; done. Qed.

Lemma live_quiet e e' : quiet e e' -> live_ok τ e -> live_ok τ e'.
Proof.
  intros Hq [Ht Hp (t & Hc & Hg) Hs Hr]. pose proof Hq as [Q1 Q2 Q3 Q4 Q5 _ _ _ Q9]. split; [congruence|congruence| |by apply Q4|by rewrite Q5].
  exists t. rewrite Q3, Q2. split; [done|]. destruct Hg as [?|[? ?]]; [by left|right; split; [done|by apply (tree_quiet _ e)]].
Qed.

Lemma engine_quiet_refl e : quiet e e.
Proof. done. Qed.

Lemma engine_quiet_trans e1 e2 e3 : quiet e1 e2 -> quiet e2 e3 -> quiet e1 e3.
Proof. intros [] []. split; try congruence. eauto. Qed.

Lemma quiet_get p id e : quiet e (say (OGet p id) e).
Proof. split; try done. cbn. rewrite accepts_app. cbn. by rewrite app_nil_r. Qed.

Lemma quiet_ask v id e : quiet e (ask v id e).
Proof.
  unfold ask. destruct (_ <=? _); [done|]. destruct (peer v id); [|done]. eapply engine_quiet_trans; [|apply quiet_get]. done.
Qed.

Lemma quiet_fetch v id e : quiet e (fetchIfUnknown v id e).
Proof.
  unfold fetchIfUnknown. destruct (_ || _); [done|]. destruct (recs e !! id); [done|]. destruct (gets e !! id) as [g|]; [destruct (_ <? _); [done|]|]; apply quiet_ask.
Qed.

(** Decisions only take containers out. *)
Lemma decides_frame ds e :
  ph (decide_all ds e) = ph e /\ fatal (decide_all ds e) = fatal e /\ cons (decide_all ds e) = cons e /\ polls (decide_all ds e) = polls e /\ recs (decide_all ds e) ⊆ recs e /\
  lastPollAt (decide_all ds e) = lastPollAt e.
Proof.
  revert e. induction ds as [|d ds IH]; intros e; [done|]. cbn [decide_all foldl]. fold (decide_all ds (decide_one e d)). destruct (IH (decide_one e d)) as (-> & -> & -> & -> & Hs & ->).
  destruct d as [c|c]; cbn; split_and!; try done; (etrans; [exact Hs|]); cbn; [etrans; [apply map_filter_subseteq|]|]; apply delete_subseteq.
Qed.

Lemma ranked_sub m m' : m' ⊆ m -> ranked m -> ranked m'.
Proof. intros Hs Hr id r Hi. apply (Hr id r). by eapply lookup_weaken. Qed.

(** The unissued containers. *)
Definition uids (m : gmap ID rec) : gset ID := dom (filter (fun kv => issued kv.2 = false) m).

Lemma elem_uids m id : id ∈ uids m <-> exists c, m !! id = Some (Rec c false).
Proof.
  unfold uids. rewrite elem_of_dom. split.
  - intros [[c b] Hr]. apply map_lookup_filter_Some in Hr as [Hr Hb]. cbn in Hb. subst b. by exists c.
  - intros [c Hc]. exists (Rec c false). by apply map_lookup_filter_Some.
Qed.

Lemma uids_sub m m' : m' ⊆ m -> uids m' ⊆ uids m.
Proof. intros Hs id. rewrite !elem_uids. intros [c Hc]. exists c. by eapply lookup_weaken. Qed.

Definition issue (id : ID) (m : gmap ID rec) : gmap ID rec := alter (fun r => Rec (rc r) true) id m.

Lemma issue_lookup id m i : issue id m !! i = if decide (i = id) then (fun r => Rec (rc r) true) <$> m !! i else m !! i.
Proof. unfold issue. destruct (decide (i = id)) as [->|]; [by rewrite lookup_alter_eq|by rewrite lookup_alter_ne]. Qed.

Lemma uids_issue id m : uids (issue id m) ⊆ uids m ∖ {[id]}.
Proof.
  intros i. rewrite elem_of_difference, !elem_uids, elem_of_singleton, issue_lookup. intros [c Hc]. destruct (decide (i = id)) as [->|]; [by destruct (m !! id)|]. split; [by exists c|done].
Qed.

Lemma ranked_issue id m : ranked m -> ranked (issue id m).
Proof.
  intros Hr i r Hi. rewrite issue_lookup in Hi. destruct (decide (i = id)); [|by apply Hr]. destruct (m !! i) as [r0|] eqn:E; [|done]. injection Hi as <-. exact (Hr i r0 E).
Qed.

(** A container whose parent is issued joins the tree. *)
Lemma tree_add V e id c eth h t :
  tree_ok V e -> closed V -> ranked (recs e) -> recs e !! id = Some (Rec c false) -> parent_of (cParentID c) e = inl (eth, h) -> extends eth h c ->
  tree_ok (View (vLast V) (<[cID c := c]> (vProc V))) (with_recs (issue id (recs e)) (with_cons t e)) /\ closed (View (vLast V) (<[cID c := c]> (vProc V))) /\
  vProc V !! cID c = None /\ cID c <> vLast V /\ (cParentID c = vLast V \/ is_Some (vProc V !! cParentID c)).
Proof.
  intros [Tlast Trec Tids Tnone Troot Tlink Tchain] Hcl Hrk Hid Hpa Hex. pose proof (Tids _ _ Hid) as Ec. cbn in Ec. subst id.
  assert (Hno : vProc V !! cID c = None). { destruct (vProc V !! cID c) as [x|] eqn:E; [|done]. apply Trec in E. congruence. }
  assert (Hnl : cID c <> vLast V) by (intros E; rewrite Tlast in E; congruence). pose proof (Hrk _ _ Hid) as Hlt. cbn in Hlt. assert (Hself : cParentID c <> cID c) by (intros E; rewrite E in Hlt; lia).
  assert (Hpar : cParentID c = vLast V /\ eth = lEthHash (la e) /\ h = lHeight (la e) \/ exists p, cParentID c <> vLast V /\ vProc V !! cParentID c = Some p /\ eth = cEthHash p /\ h = cHeight p).
  { unfold parent_of in Hpa. rewrite Tlast. destruct (bool_decide_reflect (cParentID c = lID (la e))); [left; by injection Hpa as <- <-|]. destruct (recs e !! cParentID c) as [[p []]|] eqn:E; try done.
    right. exists p. injection Hpa as <- <-. split_and!; try done. by apply Trec. }
  assert (Hin : cParentID c = vLast V \/ is_Some (vProc V !! cParentID c)) by (destruct Hpar as [[? _]|(p & _ & -> & _)]; [by left|right; by eexists]).
  split_and!; try done.
  - split; cbn [with_recs with_cons la recs vLast vProc anchorID out]; try done.
    + intros id c'. rewrite issue_lookup. destruct (decide (id = cID c)) as [->|Hne]; [rewrite lookup_insert_eq, Hid; cbn; naive_solver|rewrite lookup_insert_ne by done; apply Trec].
    + intros id r Hr. rewrite issue_lookup in Hr. destruct (decide (id = cID c)) as [->|]; [rewrite Hid in Hr; by injection Hr as <-|by apply Tids].
    + rewrite issue_lookup, Tnone. by destruct (decide _).
    + intros id c' Hc' Hp'. destruct (decide (id = cID c)) as [->|Hne]; [|rewrite lookup_insert_ne in Hc' by done; by apply (Troot id)]. rewrite lookup_insert_eq in Hc'. injection Hc' as <-.
      destruct Hpar as [(_ & <- & <-)|(p & ? & _)]; [exact Hex|done].
    + intros id c' p Hc' Hp'. destruct (decide (id = cID c)) as [->|Hne].
      * rewrite lookup_insert_eq in Hc'. injection Hc' as <-. rewrite lookup_insert_ne in Hp' by done. destruct Hpar as [(E & _)|(p' & _ & Hp2 & -> & ->)]; [|rewrite Hp' in Hp2; injection Hp2 as <-; exact Hex].
        apply Trec in Hp'. rewrite E, Tlast in Hp'. congruence.
      * rewrite lookup_insert_ne in Hc' by done. destruct (decide (cParentID c' = cID c)) as [E|En]; [|rewrite lookup_insert_ne in Hp' by done; by apply (Tlink id)].
        exfalso. destruct (Hcl id c' Hc') as [El|[x Ex]]; [congruence|]. rewrite E in Ex. congruence.
  - intros id c' Hc'. cbn [vProc vLast] in *. destruct (decide (id = cID c)) as [->|Hne].
    + rewrite lookup_insert_eq in Hc'. injection Hc' as <-. destruct Hin as [?|[p Hp]]; [by left|right]. rewrite lookup_insert_ne by done. by exists p.
    + rewrite lookup_insert_ne in Hc' by done. destruct (Hcl id c' Hc') as [?|[p Hp]]; [by left|right]. destruct (decide (cParentID c' = cID c)) as [->|]; [by rewrite lookup_insert_eq|]. rewrite lookup_insert_ne by done. by exists p.
Qed.

Lemma live_drop e id c : live_ok τ e -> recs e !! id = Some (Rec c false) -> live_ok τ (with_recs (delete (cID c) (recs e)) e).
Proof.
  intros [Ht Hph (t & Hc & Hg) Hpo Hrk] Hid. split; [done|done| |done|by apply (ranked_sub (recs e)); [apply delete_subseteq|]]. exists t. split; [done|]. destruct Hg as [?|[Hcl HT]]; [by left|right; split; [done|]].
  destruct HT as [Tlast Trec Tids Tnone Troot Tlink Tchain]. pose proof (Tids _ _ Hid) as Ec. cbn in Ec. subst id. split; cbn [with_recs recs la anchorID out]; try done.
  - intros i c'. rewrite lookup_delete_Some, Trec. naive_solver.
  - intros i r Hr. apply lookup_delete_Some in Hr as [_ Hr]. by apply Tids.
  - apply lookup_delete_None. by right.
Qed.

Lemma drain_ok f l e n :
  (forall id e, live_ok τ e -> (size (uids (recs e)) <= n)%nat -> exists e', f id e = Ok e' /\ live_ok τ e' /\ uids (recs e') ⊆ uids (recs e)) ->
  live_ok τ e -> (size (uids (recs e)) <= n)%nat -> exists e', drain f l e = Ok e' /\ live_ok τ e' /\ uids (recs e') ⊆ uids (recs e).
Proof.
  intros Hf. revert e. induction l as [|c l IH]; intros e HL Hn; cbn [drain]; [by exists e|]. destruct (Hf c e HL Hn) as (e1 & -> & HL1 & Hs1). cbn [rbind].
  apply subseteq_size in Hs1 as Hz. destruct (IH e1 HL1 ltac:(lia)) as (e2 & -> & HL2 & Hs2). exists e2. split_and!; [done|done|]. by etrans.
Qed.

(** Issuing ends, keeps the invariant and issues or drops, never un-issues. *)
Lemma tryIssue_ok fuel v id e : live_ok τ e -> (size (uids (recs e)) < fuel)%nat ->
  exists e', tryIssue fuel v id e = Ok e' /\ live_ok τ e' /\ uids (recs e') ⊆ uids (recs e).
Proof.
  revert id e. induction fuel as [|fuel IH]; intros id e HL Hf; [lia|]. cbn [tryIssue]. destruct (recs e !! id) as [[c b]|] eqn:Er; [|by exists e]. cbn [issued rc]. destruct b; [by exists e|].
  destruct (parent_of (cParentID c) e) as [[eth h]|unknown] eqn:Epa.
  2: { set (e1 := if unknown then fetchIfUnknown v (cParentID c) e else e). assert (Hq : quiet e e1) by (unfold e1; destruct unknown; [apply quiet_fetch|done]).
       eexists. split; [done|]. split; [|cbn [with_pending recs]; by rewrite (q_recs _ _ Hq)]. apply (live_quiet e); [|done]. eapply engine_quiet_trans; [exact Hq|done]. }
  destruct (negb _ || negb _) eqn:Ebad.
  { eexists. split; [done|]. split; [by apply (live_drop e id)|]. apply uids_sub, delete_subseteq. }
  apply orb_false_iff in Ebad as [Eeth Eh]. apply negb_false_iff, bool_decide_eq_true_1 in Eeth. apply negb_false_iff, Z.eqb_eq in Eh.
  destruct HL as [Ht Hph (t & Hc & Hg) Hpo Hrk]. rewrite Hc. destruct (topo_Add t c) as [[t' ds] bad] eqn:Ea. destruct (decides_frame ds (with_cons t' e)) as (F1 & F2 & F3 & F4 & F5 & F6).
  assert (Hstep : bad = false -> live_ok τ (with_recs (issue id (recs (decide_all ds (with_cons t' e)))) (decide_all ds (with_cons t' e)))).
  { intros ->. destruct Hg as [Hbad|[Hcl HT]].
    - split; cbn [with_recs ph cons polls recs fatal lastPollAt]; [by rewrite F6|by rewrite F1|exists t'; rewrite F3, F2; split; [done|by left]|by rewrite F4|]. by apply ranked_issue, (ranked_sub (recs e)).
    - destruct (tree_add (tview t) e id c eth h t' HT Hcl Hrk Er Epa (conj Eeth Eh)) as (HT' & Hcl' & Hn1 & Hn2 & Hn3). destruct (add_view t c Hn1 Hn2 Hn3) as (t2 & E2 & Ev). rewrite E2 in Ea. injection Ea as <- <-.
      cbn [decide_all foldl]. split; cbn [with_recs with_cons ph cons polls recs fatal lastPollAt]; [done|done| |done|by apply ranked_issue]. exists t2. split; [done|]. right. rewrite Ev. split; [exact Hcl'|exact HT']. }
  destruct bad.
  - eexists. split; [done|]. split; [|cbn [fail recs]; by apply uids_sub]. split; cbn [fail ph cons polls recs fatal lastPollAt]; [by rewrite F6|by rewrite F1|exists t'; split; [by rewrite F3|by left]|by rewrite F4|by apply (ranked_sub (recs e))].
  - specialize (Hstep eq_refl). set (e1 := decide_all ds (with_cons t' e)) in *. change (alter _ id (recs e1)) with (issue id (recs e1)).
    assert (Hu : uids (issue id (recs e1)) ⊆ uids (recs e) ∖ {[id]}) by (etrans; [apply uids_issue|]; pose proof (uids_sub _ _ F5); set_solver).
    assert (Hin : id ∈ uids (recs e)) by (apply elem_uids; by exists c). assert (Hsz : (size (uids (issue id (recs e1))) <= pred fuel)%nat).
    { apply subseteq_size in Hu. rewrite size_difference, size_singleton in Hu by set_solver. lia. }
    destruct (drain_ok (tryIssue fuel v) (default [] (pendingByPa (with_recs (issue id (recs e1)) e1) !! cID c)) (with_pending (delete (cID c) (pendingByPa (with_recs (issue id (recs e1)) e1))) (with_recs (issue id (recs e1)) e1)) (pred fuel)) as (e' & E & HL' & Hs').
    + intros i x Hx Hi. apply IH; [done|]. assert (size (uids (recs e)) <> 0%nat) by (intros Hz; apply size_empty_inv in Hz; set_solver). lia.
    + apply (live_quiet (with_recs (issue id (recs e1)) e1)); [by split|done].
    + done.
    + exists e'. split; [exact E|]. split; [done|]. etrans; [exact Hs'|]. cbn [with_pending with_recs recs]. set_solver.
Qed.

(** ** Votes *)

Definition below (m : gmap ID rec) (id : ID) : gset ID := filter (fun i => (rank i <= rank id)%nat) (dom m).

Lemma bubble_ok fuel id e : live_ok τ e -> (size (below (recs e) id) < fuel)%nat -> exists r, bubble fuel id e = Ok r.
Proof.
  intros HL. destruct HL as [_ _ (t & Hc & _) _ Hrk]. revert id. induction fuel as [|fuel IH]; intros id Hf; [lia|]. cbn [bubble]. rewrite Hc. destruct (_ || _); [by eexists|].
  destruct (recs e !! id) as [r|] eqn:Er; [|by eexists]. destruct (_ <=? _); [by eexists|]. apply IH. pose proof (Hrk _ _ Er) as Hlt. cbn in Hlt.
  assert (Hsub : below (recs e) (cParentID (rc r)) ⊂ below (recs e) id).
  { split; [intros i; unfold below; rewrite !elem_of_filter; intros [? ?]; split; [lia|done]|]. intros Hx. assert (Hin : id ∈ below (recs e) id) by (unfold below; rewrite elem_of_filter, elem_of_dom; split; [lia|by exists r]).
    apply Hx in Hin. unfold below in Hin. rewrite elem_of_filter in Hin. lia. }
  apply subset_size in Hsub. lia.
Qed.

Lemma bubble_total id e : live_ok τ e -> exists r, bubble (bubble_fuel e) id e = Ok r.
Proof.
  intros HL. apply bubble_ok; [done|]. unfold bubble_fuel, below. rewrite <- size_dom. pose proof (subseteq_size (filter (fun i => (rank i <= rank id)%nat) (dom (recs e))) (dom (recs e)) ltac:(set_solver)). lia.
Qed.

Lemma recordPolls_ok results e : live_ok τ e -> exists e', recordPolls cfg results e = Ok e' /\ live_ok τ e'.
Proof.
  revert e. induction results as [|votes results IH]; intros e HL; cbn [recordPolls]; [by exists e|]. set (e1 := if _ <=? _ then _ else _). assert (Hq : quiet e e1) by (unfold e1; by destruct (_ <=? _)).
  apply (live_quiet _ _ Hq) in HL. clearbody e1. clear Hq e. destruct HL as [Ht Hph (t & Hc & Hg) Hpo Hrk]. rewrite Hc. destruct (RecordPoll t votes (OnAccept cfg)) as [[t' ds] bad] eqn:Er.
  destruct (decides_frame ds (with_cons t' e1)) as (F1 & F2 & F3 & F4 & F5 & F6). assert (Hfr : ranked (recs (decide_all ds (with_cons t' e1)))) by (by apply (ranked_sub (recs e1))). destruct bad.
  - eexists. split; [done|]. split; cbn [fail ph cons polls recs fatal lastPollAt]; [by rewrite F6|by rewrite F1|exists t'; split; [by rewrite F3|by left]|by rewrite F4|done].
  - apply IH. split; [by rewrite F6|by rewrite F1| |by rewrite F4|done]. exists t'. rewrite F3, F2. split; [done|]. destruct Hg as [?|[Hcl HT]]; [by left|right].
    destruct (poll_view t votes _ t' ds Hcl Er) as [Hvs Hcl']. split; [done|]. apply (tree_decides ds (tview t)); [done|]. destruct HT. by split.
Qed.

Lemma cast_ok w vote e : live_ok τ e -> exists e', cast cfg w vote e = Ok e' /\ live_ok τ e'.
Proof.
  intros HL. unfold cast. pose proof HL as [_ _ (t & Hc & _) [p Hp] _]. rewrite Hc, Hp. destruct (match vote with Some x => _ | None => _ end) as [p' results]. apply recordPolls_ok. apply (live_quiet e); [|done]. by split.
Qed.

Lemma try_options_ok v w park first l e : live_ok τ e ->
  exists r, try_options cfg v w park first l e = Ok r /\ match r with Some e' => live_ok τ e' | None => True end.
Proof.
  intros HL. revert first. induction l as [|opt l IH]; intros first; cbn [try_options]; [by exists None|]. destruct (bubble_total opt e HL) as [[[vote blocker] ok] ->]. cbn [rbind]. destruct ok.
  - destruct (cast_ok w (Some vote) e HL) as (e' & -> & HL'). by exists (Some e').
  - destruct (park && first && _); [|apply IH]. eexists. split; [done|]. cbn beta iota. apply (live_quiet e); [|done]. eapply engine_quiet_trans; [apply quiet_fetch|done].
Qed.

Lemma applyVote_ok v w park e : live_ok τ e -> exists e', applyVote cfg v w park e = Ok e' /\ live_ok τ e'.
Proof.
  intros HL. unfold applyVote. destruct (try_options_ok v w park true (options w) e HL) as ([e'|] & -> & Hr); cbn [rbind]; [by exists e'|].
  destruct (frontiers e !! vnode w) as [fid|]; [|by apply cast_ok]. destruct (bubble_total fid e HL) as [[[vote blocker] ok] ->]. cbn [rbind]. by apply cast_ok.
Qed.

Lemma apply_votes_ok v ws e : live_ok τ e -> exists e', apply_votes cfg v ws e = Ok e' /\ live_ok τ e'.
Proof. revert e. induction ws as [|w ws IH]; intros e HL; cbn [apply_votes]; [by exists e|]. destruct (applyVote_ok v w false e HL) as (e1 & -> & HL1). cbn [rbind]. by apply IH. Qed.

Lemma addContainer_ok v c e : live_ok τ e -> (rank (cParentID c) < rank (cID c))%nat -> exists e', addContainer cfg v c e = Ok e' /\ live_ok τ e'.
Proof.
  intros HL Hrank. unfold addContainer. destruct (recs e !! cID c) as [r|] eqn:Er; [by exists e|]. destruct (bool_decide_reflect (cID c = lID (la e))) as [|Hne]; [by exists e|]. cbn [orb]. destruct (cHeight c <=? lHeight (la e)); [by exists e|].
  set (e0 := with_recs (<[cID c := Rec c false]> (recs e)) e). assert (HL0 : live_ok τ e0).
  { destruct HL as [Ht Hph (t & Hc & Hg) Hpo Hrk]. split; [done|done| |done|by apply map_Forall_insert_2]. exists t. split; [done|]. destruct Hg as [?|[Hcl [Tlast Trec Tids Tnone Troot Tlink Tchain]]]; [by left|right; split; [done|]].
    split; cbn [e0 with_recs recs la anchorID out]; try done.
    - intros id c'. destruct (decide (id = cID c)) as [->|Hn]; [rewrite lookup_insert_eq, Trec, Er; naive_solver|by rewrite lookup_insert_ne].
    - intros id r Hr. destruct (decide (id = cID c)) as [->|Hn]; [rewrite lookup_insert_eq in Hr; by injection Hr as <-|rewrite lookup_insert_ne in Hr by done; by apply Tids].
    - by rewrite lookup_insert_ne. }
  destruct (tryIssue_ok (S (size (recs e0))) v (cID c) e0 HL0) as (e1 & -> & HL1 & _).
  { unfold uids. rewrite size_dom. pose proof (map_subseteq_size (filter (fun kv => issued kv.2 = false) (recs e0)) (recs e0) (map_filter_subseteq _ _)). lia. }
  cbn [rbind]. destruct (parked e1 !! cID c); [|by exists e1]. apply apply_votes_ok. apply (live_quiet e1); [|done]. by split.
Qed.

(** ** Polls and timeouts *)

Lemma quiet_pull targets r id h e : quiet e (say (OPull targets r id h) e).
Proof. split; try done. cbn. rewrite accepts_app. cbn. by rewrite app_nil_r. Qed.

Lemma expirePolls_ok v order e : live_ok τ e -> exists e', expirePolls cfg v order e = Ok e' /\ live_ok τ e'.
Proof.
  revert e. induction order as [|r order IH]; intros e HL; cbn [expirePolls]; [by exists e|]. destruct (pollVdrs e !! r) as [ps|]; [|by apply IH]. destruct (_ <? _); [by apply IH|].
  match goal with |- context [apply_votes cfg v ?ws ?e1] => destruct (apply_votes_ok v ws e1) as (e' & -> & HL') end; [apply (live_quiet e); [by split|done]|]. cbn [rbind]. by apply IH.
Qed.

Lemma expire_votes_ok v ws e : live_ok τ e -> exists kept e', expire_votes cfg v ws e = Ok (kept, e') /\ live_ok τ e'.
Proof.
  revert e. induction ws as [|w ws IH]; intros e HL; cbn [expire_votes]; [by exists [], e|]. destruct (_ <? _).
  - destruct (applyVote_ok v (ParkedVote (vreq w) (vnode w) [] (vdeadline w)) false e HL) as (e1 & -> & HL1). cbn [rbind]. by apply IH.
  - destruct (IH e HL) as (kept & e' & -> & HL'). cbn [rbind fst snd]. by exists (w :: kept), e'.
Qed.

Lemma expireParked_ok v order e : live_ok τ e -> exists e', expireParked cfg v order e = Ok e' /\ live_ok τ e'.
Proof.
  revert e. induction order as [|id order IH]; intros e HL; cbn [expireParked]; [by exists e|]. destruct (parked e !! id) as [votes|]; [|by apply IH].
  destruct (expire_votes_ok v votes e HL) as (kept & e1 & -> & HL1). cbn [rbind fst snd]. apply IH. apply (live_quiet e1); [|done]. by split.
Qed.

Lemma quiet_retry v order e : quiet e (retryGets v order e).
Proof.
  revert e. induction order as [|id order IH]; intros e; cbn [retryGets]; [done|]. destruct (gets e !! id) as [g|]; [|by apply IH]. destruct (_ <? _); [by apply IH|].
  destruct (_ <=? _); (eapply engine_quiet_trans; [|apply IH]); [by split|apply quiet_fetch].
Qed.

End At.

(** A poll that was sent reads the clock. *)
Lemma sendPoll_ok τ v e : live_ok τ e -> exists e' b, sendPoll cfg v e = Ok (e', b) /\ live_ok (if b then now v else τ) e'.
Proof.
  intros HL. unfold sendPoll. destruct (sample v) as [[|n vdrs]|]; [by exists e, false| |by exists e, false]. pose proof HL as [_ _ (t & Hc & _) [p Hp] _]. rewrite Hc, Hp.
  destruct (set_Add p (reqID v) (n :: vdrs)) as [p'|]; [|by exists e, false]. cbv zeta.
  match goal with |- context [apply_votes cfg v ?ws ?e1] => destruct (apply_votes_ok (τ := now v) v ws e1) as (e' & -> & HL') end; [|cbn [rbind]; by exists e', true].
  assert (HL0 : live_ok (now v) (with_lastPoll (now v) (with_polls p' e))).
  { destruct HL as [_ Hph (t' & Hc' & Hg) _ Hrk]. split; try done. exists t'. split; [done|]. destruct Hg as [?|[? HT]]; [by left|right; split; [done|]]. destruct HT. by split. }
  eapply live_quiet; [|exact HL0]. destruct (bool_decide _); [by split|]. eapply engine_quiet_trans; [|apply quiet_pull]. by split.
Qed.


Lemma poll_loop_ok τ v e : 0 < PollInterval cfg -> live_ok τ e -> exists e' τ', poll_loop cfg 1 v e = Ok e' /\ live_ok τ' e'.
Proof.
  intros Hpos HL. cbn [poll_loop]. pose proof HL as [_ _ _ [p ->] _]. destruct (_ && _); [|by exists e, τ]. destruct (sendPoll_ok τ v e HL) as (e1 & b & -> & HL1). cbn [rbind fst snd].
  destruct b; [|by exists e1, τ]. pose proof HL1 as [Ht _ _ [p1 ->] _]. rewrite Ht, Z.sub_diag. destruct (Z.leb_spec (PollInterval cfg) 0); [lia|]. rewrite andb_false_r. by exists e1, (now v).
Qed.

(** The whole engine: nothing is issued or accepted before it is live. *)
Definition ok (e : Engine) : Prop :=
  match ph e with phaseLive => exists τ, live_ok τ e | _ => recs e = ∅ /\ accepts (out e) = [] end.

Lemma goLive_ok v c e : ph e <> phaseLive -> ok e -> cID c = anchorID e -> exists e', goLive cfg v c e = Ok e' /\ ok e'.
Proof.
  intros Hph Hok Hc. assert (Hb : recs e = ∅ /\ accepts (out e) = []) by (unfold ok in Hok; by destruct (ph e)). destruct Hb as [Hr Ho]. unfold goLive.
  destruct (Initialize (cID c) (cHeight c) (cTime c)) as [t|] eqn:Ei; [|eexists; split; [done|]; unfold ok; cbn; by destruct (ph e)].
  destruct (NewSet t) as [p|]; [|eexists; split; [done|]; unfold ok; cbn; by destruct (ph e)].
  set (e1 := with_phase phaseLive (with_polls p (with_cons t (with_last (Frontier (cID c) (cHeight c) (cEthHash c)) e)))).
  assert (HL : forall e2, quiet e1 e2 -> live_ok (lastPollAt e) e2).
  { intros e2 Hq. apply (live_quiet e1); [done|]. split; [done|done| |done|cbn; rewrite Hr; apply map_Forall_empty]. exists t. split; [done|]. right. rewrite (init_view _ _ _ _ Ei). split; [done|].
    split; cbn [e1 with_phase with_polls with_cons with_last la recs anchorID out vLast vProc lID]; rewrite ?Hr, ?Ho; try (intros *; rewrite ?lookup_empty; done).
    by exists c. }
  assert (Hdone : forall e2, quiet e1 e2 -> exists e', rmap fst (sendPoll cfg v e2) = Ok e' /\ ok e').
  { intros e2 Hq. destruct (sendPoll_ok _ v e2 (HL e2 Hq)) as (e' & b & -> & HL'). exists e'. split; [done|]. unfold ok. rewrite (lv_ph _ _ HL'). by eexists. }
  destruct (OnAnchor cfg) as [f|]; [|by apply Hdone]. assert (Hq : quiet e1 (say (OAnchor c) e1)) by (split; try done; cbn; rewrite accepts_app; cbn; by rewrite app_nil_r).
  destruct (f c); [by apply Hdone|]. eexists. split; [done|]. unfold ok. cbn [fail ph say e1 with_phase]. destruct (HL _ Hq) as [? ? (t' & ? & ?) ? ?]. eexists. split; try done. exists t'. split; [done|by left].
Qed.

End Inv.

(** ** Runs *)

Inductive event := EvContainer (raw : bytes) | EvChits (node : NodeID) (req : Z) (preferred preferredAtHeight accepted : ID) (acceptedHeight : Z) | EvTick.

Definition step `{PollSet} (cfg : Config) (v : env) (ev : event) (e : Engine) : res Engine :=
  match ev with
  | EvContainer raw => OnContainer cfg v raw e
  | EvChits node req p pa a h => OnChits cfg v node req p pa a h e
  | EvTick => Tick cfg v e
  end.

Fixpoint run `{PollSet} (cfg : Config) (evs : list (env * event)) (e : Engine) : res Engine :=
  match evs with [] => Ok e | (v, ev) :: evs => let* e := step cfg v ev e in run cfg evs e end.

Section Runs.
Context `{PollSet} `{!TopoLaws} (rank : ID -> nat).

Lemma engine_step_ok cfg v ev e :
  0 < PollInterval cfg -> (forall raw c, Parse cfg raw = Some c -> (rank (cParentID c) < rank (cID c))%nat) -> ok rank e ->
  exists e', step cfg v ev e = Ok e' /\ ok rank e'.
Proof.
  intros Hpos Hrank Hok. destruct ev as [raw|node req p pa a h|]; cbn [step].
  - unfold OnContainer. destruct (Parse cfg raw) as [c|] eqn:Ep; [|by exists e]. cbn [with_gets ph]. destruct (ph e) eqn:Eph.
    + eexists. split; [done|]. unfold ok in *. cbn. by rewrite Eph in *.
    + cbn [anchorID with_gets]. destruct (bool_decide_reflect (cID c = anchorID e)) as [Ec|].
      * apply goLive_ok; cbn; try done; [by rewrite Eph|]. unfold ok in *. cbn. by rewrite Eph in *.
      * eexists. split; [done|]. unfold ok in *. cbn. by rewrite Eph in *.
    + unfold ok in Hok. rewrite Eph in Hok. destruct Hok as [τ HL]. destruct (addContainer_ok (τ := τ) cfg rank v c (with_gets (delete (cID c) (gets e)) e)) as (e' & -> & HL'); [apply (live_quiet _ e); [by split|done]|by apply (Hrank raw)|].
      exists e'. split; [done|]. unfold ok. rewrite (lv_ph _ _ _ HL'). by exists τ.
  - unfold OnChits. set (e1 := if _ <? _ then _ else _). assert (Hq : quiet e e1) by (unfold e1; by destruct (_ <? _)). assert (Hbs : ph e <> phaseLive -> ok rank e1).
    { intros _. unfold ok in *. rewrite (q_ph _ _ Hq). destruct (ph e); [by rewrite (q_recs _ _ Hq), (q_out _ _ Hq)..|]. destruct Hok as [τ HL]. exists τ. by apply (live_quiet _ e). }
    clearbody e1. rewrite (q_ph _ _ Hq). destruct (ph e) eqn:Eph.
    + eexists. split; [done|]. specialize (Hbs ltac:(done)). unfold bootstrapChit. destruct (_ || _); [done|]. destruct (_ <? _); [unfold ok in *; cbn [ph with_bs]; by rewrite (q_ph _ _ Hq), Eph in *|]. unfold sendAnchorGet. cbn [with_phase with_anchor with_bs anchorID].
      unfold ok in Hbs. rewrite (q_ph _ _ Hq), Eph in Hbs. destruct (peer v a); unfold ok; cbn; [rewrite accepts_app; cbn; by rewrite app_nil_r|done].
    + exists e1. split; [done|]. by apply Hbs.
    + unfold ok in Hok. rewrite Eph in Hok. destruct Hok as [τ HL]. apply (live_quiet _ _ _ Hq) in HL. assert (Hdone : forall e2, live_ok rank τ e2 -> ok rank e2) by (intros e2 HL2; unfold ok; rewrite (lv_ph _ _ _ HL2); by exists τ).
      set (e2 := with_frontiers _ e1). assert (HL2 : live_ok rank τ e2) by (apply (live_quiet _ e1); [by split|done]). destruct (pollVdrs e2 !! req) as [ps|]; [|exists e2; split; [done|by apply Hdone]].
      destruct (negb _); [exists e2; split; [done|by apply Hdone]|]. cbv zeta. match goal with |- context [applyVote cfg v ?w true ?x] => destruct (applyVote_ok (τ := τ) cfg rank v w true x) as (e' & -> & HL') end; [|exists e'; split; [done|by apply Hdone]].
      apply (live_quiet _ e2); [|done]. destruct (bool_decide (pa = p)); repeat (eapply engine_quiet_trans; [|apply quiet_fetch]); by split.
  - unfold Tick. destruct (ph e) eqn:Eph.
    + eexists. split; [done|]. destruct (_ <=? _); [|done]. unfold sendBootstrapPoll. destruct (sample v) as [[|n vdrs]|]; [done| |done]. unfold ok in *. rewrite Eph in Hok.
      destruct (bool_decide _); cbn; rewrite Eph; [done|]. rewrite accepts_app. cbn. by rewrite app_nil_r.
    + eexists. split; [done|]. destruct (_ <? _); [|done]. unfold sendAnchorGet. destruct (peer v (anchorID e)); [|done]. unfold ok in *. cbn. rewrite Eph in *. rewrite accepts_app. cbn. by rewrite app_nil_r.
    + unfold ok in Hok. rewrite Eph in Hok. destruct Hok as [τ HL]. assert (Hdone : forall τ e2, live_ok rank τ e2 -> ok rank e2) by (intros τ' e2 HL2; unfold ok; rewrite (lv_ph _ _ _ HL2); by exists τ').
      destruct (expirePolls_ok cfg rank v (poll_order v) e HL) as (e1 & -> & HL1). cbn [rbind]. destruct (expireParked_ok cfg rank v (parked_order v) e1 HL1) as (e2 & -> & HL2). cbn [rbind].
      pose proof (live_quiet _ _ _ (quiet_retry v (gets_order v) e2) HL2) as HL3. set (e3 := retryGets v (gets_order v) e2) in *. pose proof HL3 as [_ _ (t & -> & _) _ _]. destruct (0 <? NumProcessing t).
      * destruct (poll_loop_ok cfg rank τ v e3 Hpos HL3) as (e' & τ' & -> & HL'). exists e'. split; [done|by eapply Hdone].
      * destruct (_ <=? _); [|exists e3; split; [done|by eapply Hdone]]. destruct (sendPoll_ok cfg rank τ v e3 HL3) as (e' & b & -> & HL'). exists e'. split; [done|by eapply Hdone].
Qed.

Lemma run_all cfg evs e :
  0 < PollInterval cfg -> (forall raw c, Parse cfg raw = Some c -> (rank (cParentID c) < rank (cID c))%nat) -> ok rank e ->
  exists e', run cfg evs e = Ok e' /\ ok rank e'.
Proof.
  intros Hpos Hrank. revert e. induction evs as [|[v ev] evs IH]; intros e Hok; cbn [run]; [by exists e|]. destruct (engine_step_ok cfg v ev e Hpos Hrank Hok) as (e1 & -> & Hok1). cbn [rbind]. by apply IH.
Qed.

Lemma new_ok Verify zero dflt cfg0 cfg e0 : New Verify zero dflt cfg0 = Some (cfg, e0) -> 0 < PollInterval cfg /\ Parse cfg = Parse cfg0 /\ ok rank e0 /\ gets e0 = ∅.
Proof. unfold New. destruct (negb _); [done|]. intros [= <- <-]. split_and!; try done. cbn [PollInterval]. destruct (Z.leb_spec (PollInterval cfg0) 0); lia. Qed.

(** C16: what the follower hands to the fetch queue is a chain. From [New], whatever
    containers, chits and ticks arrive, in any order and with any network answers, no
    handler panics or runs on forever, nothing is accepted before the anchor is live,
    and as long as no fatal error was reported the containers given to OnAccept
    form one chain on the anchor: each names the one before as its parent, carries its
    eth hash as parent hash and is one height above it; LastAccepted is its end. *)
Theorem engine_accepts_chain Verify zero dflt cfg0 cfg e0 evs :
  New Verify zero dflt cfg0 = Some (cfg, e0) -> (forall raw c, Parse cfg0 raw = Some c -> (rank (cParentID c) < rank (cID c))%nat) ->
  exists e, run cfg evs e0 = Ok e /\ (ph e <> phaseLive -> accepts (out e) = []) /\
    (ph e = phaseLive -> fatal e = false -> exists anchor, cID anchor = anchorID e /\ chain (front anchor) (accepts (out e)) /\
       LastAccepted e = (lHeight (tip (front anchor) (accepts (out e))), lEthHash (tip (front anchor) (accepts (out e))))).
Proof.
  intros HN Hrank. destruct (new_ok _ _ _ _ _ _ HN) as (Hpos & Hpa & Hok0 & _). rewrite <- Hpa in Hrank. destruct (run_all cfg evs e0 Hpos Hrank Hok0) as (e & -> & Hok).
  exists e. split_and!; [done| |].
  - intros Hp. unfold ok in Hok. destruct (ph e); [apply Hok..|done].
  - intros Hp Hf. unfold ok in Hok. rewrite Hp in Hok. destruct Hok as [τ [_ _ (t & _ & [Hbad|[_ HT]]) _ _]]; [congruence|]. destruct (tr_chain _ _ HT) as (anchor & Ha & Hc & Hl). exists anchor. unfold LastAccepted. by rewrite Hl.
Qed.

End Runs.

(** ** Outstanding Gets *)

Definition asked (l : list output) : list output := List.filter (fun o => match o with OGet _ _ => true | _ => false end) l.

Section Gets.
Context `{PollSet} (cfg : Config).

(** At most 64 are outstanding; at 64 a step that takes none out sends none. *)
Record capped (e e' : Engine) : Prop := {
  cap_bound : Z.of_nat (size (gets e)) <= maxOutstandingGets -> Z.of_nat (size (gets e')) <= maxOutstandingGets;
  cap_ph : ph e' = ph e;
  cap_full : maxOutstandingGets <= Z.of_nat (size (gets e)) -> gets e' = gets e /\ asked (out e') = asked (out e) }.

#[local] Instance capped_preorder : PreOrder capped.
Proof.
  split; [by intros e; split|]. intros e1 e2 e3 [B1 P1 F1] [B2 P2 F2]. split; [auto|congruence|]. intros Hf. destruct (F1 Hf) as [E1 O1]. rewrite <- E1 in Hf. destruct (F2 Hf) as [E2 O2]. split; congruence.
Qed.

(** Steps that do not touch the Gets. *)
Lemma capped_same e e' : ph e' = ph e -> gets e' = gets e -> asked (out e') = asked (out e) -> capped e e'.
Proof. intros Ep Eg Eo. split; [by rewrite Eg|done|]. by intros _. Qed.

Lemma capped_fetch v id e : capped e (fetchIfUnknown v id e).
Proof.
  assert (Hask : capped e (ask v id e)).
  { unfold ask. destruct (Z.leb_spec maxOutstandingGets (Z.of_nat (size (gets e)))) as [|Hlt]; [done|]. destruct (peer v id); [|done]. split; cbn [say with_gets gets]; [|done|lia].
    intros _. pose proof (map_size_insert id (GetReq (now v + getRetry) (match gets e !! id with Some g => tries g | None => 0 end + 1)) (gets e)) as Hs. rewrite Hs. destruct (gets e !! id); [unfold Datatypes.id; lia|]. change (S (size (gets e))) with (1 + size (gets e))%nat. lia. }
  unfold fetchIfUnknown. destruct (_ || _); [done|]. destruct (recs e !! id); [done|]. destruct (gets e !! id); [destruct (_ <? _)|]; done.
Qed.

Lemma asked_app a b : asked (a ++ b) = asked a ++ asked b.
Proof. apply List.filter_app. Qed.

Lemma capped_decides ds e : capped e (decide_all ds e).
Proof.
  revert e. induction ds as [|d ds IH]; intros e; [done|]. cbn [decide_all foldl]. etrans; [|apply IH]. apply capped_same; destruct d; try done. cbn. rewrite asked_app. cbn. by rewrite app_nil_r.
Qed.

Lemma capped_drain f l e e' : (forall id e e', f id e = Ok e' -> capped e e') -> drain f l e = Ok e' -> capped e e'.
Proof.
  intros Hf. revert e. induction l as [|c l IH]; intros e E; cbn [drain] in E; [by injection E as <-|]. destruct (f c e) as [e1| |] eqn:E1; try done. cbn [rbind] in E. etrans; [by apply (Hf c)|by apply IH].
Qed.

Lemma capped_issue fuel v id e e' : tryIssue fuel v id e = Ok e' -> capped e e'.
Proof.
  revert id e e'. induction fuel as [|fuel IH]; intros id e e' E; cbn [tryIssue] in E; [done|]. destruct (recs e !! id) as [[c b]|]; [|by injection E as <-]. cbn [issued rc] in E. destruct b; [by injection E as <-|].
  destruct (parent_of (cParentID c) e) as [[eth h]|unknown].
  2: { injection E as <-. transitivity (if unknown then fetchIfUnknown v (cParentID c) e else e); [destruct unknown; [apply capped_fetch|done]|by apply capped_same]. }
  destruct (_ || _); [injection E as <-; by apply capped_same|]. destruct (cons e) as [t|]; [|done]. destruct (topo_Add t c) as [[t' ds] bad].
  assert (Hd : capped e (decide_all ds (with_cons t' e))) by (etrans; [|apply capped_decides]; by apply capped_same). destruct bad; [injection E as <-; etrans; [exact Hd|by apply capped_same]|].
  etrans; [exact Hd|]. etrans; [|apply (capped_drain _ _ _ _ (IH) E)]. by apply capped_same.
Qed.

Lemma capped_record results e e' : recordPolls cfg results e = Ok e' -> capped e e'.
Proof.
  revert e. induction results as [|votes results IH]; intros e E; cbn [recordPolls] in E; [by injection E as <-|]. set (e1 := if _ <=? _ then _ else _) in E. assert (H1 : capped e e1) by (unfold e1; destruct (_ <=? _); by apply capped_same).
  destruct (cons e1) as [t|]; [|done]. destruct (RecordPoll t votes _) as [[t' ds] bad]. etrans; [exact H1|]. assert (Hd : capped e1 (decide_all ds (with_cons t' e1))) by (etrans; [|apply capped_decides]; by apply capped_same).
  destruct bad; [injection E as <-; etrans; [exact Hd|by apply capped_same]|]. etrans; [exact Hd|by apply IH].
Qed.

Lemma capped_cast w vote e e' : cast cfg w vote e = Ok e' -> capped e e'.
Proof.
  unfold cast. destruct (cons e), (polls e); try done. destruct (match vote with Some x => _ | None => _ end) as [p' results]. intros E. etrans; [|apply (capped_record _ _ _ E)]. by apply capped_same.
Qed.

Lemma capped_options v w park first l e r : try_options cfg v w park first l e = Ok (Some r) -> capped e r.
Proof.
  revert first. induction l as [|opt l IH]; intros first E; cbn [try_options] in E; [done|]. destruct (bubble _ opt e) as [[[vote blocker] ok]| |]; try done. cbn [rbind] in E. destruct ok.
  - destruct (cast cfg w (Some vote) e) as [e1| |] eqn:Ec; try done. injection E as <-. by apply (capped_cast _ _ _ _ Ec).
  - destruct (park && first && _); [|by apply (IH false)]. injection E as <-. etrans; [apply capped_fetch|by apply capped_same].
Qed.

Lemma capped_vote v w park e e' : applyVote cfg v w park e = Ok e' -> capped e e'.
Proof.
  unfold applyVote. destruct (try_options cfg v w park true (options w) e) as [[r|]| |] eqn:Eo; try done; cbn [rbind].
  - intros [= <-]. by apply (capped_options _ _ _ _ _ _ _ Eo).
  - destruct (frontiers e !! vnode w) as [fid|]; [|apply capped_cast]. destruct (bubble _ fid e) as [[[vote blocker] ok]| |]; try done. cbn [rbind]. apply capped_cast.
Qed.

Lemma capped_votes v ws e e' : apply_votes cfg v ws e = Ok e' -> capped e e'.
Proof.
  revert e. induction ws as [|w ws IH]; intros e E; cbn [apply_votes] in E; [by injection E as <-|]. destruct (applyVote cfg v w false e) as [e1| |] eqn:E1; try done. cbn [rbind] in E. etrans; [apply (capped_vote _ _ _ _ _ E1)|by apply IH].
Qed.

Lemma capped_add v c e e' : addContainer cfg v c e = Ok e' -> capped e e'.
Proof.
  unfold addContainer. destruct (recs e !! cID c); [by intros [= <-]|]. destruct (_ || _); [by intros [= <-]|]. destruct (tryIssue _ v (cID c) _) as [e1| |] eqn:E1; try done. cbn [rbind].
  apply capped_issue in E1. assert (H1 : capped e e1) by (etrans; [|exact E1]; by apply capped_same). destruct (parked e1 !! cID c); [|by intros [= <-]]. intros E2. etrans; [exact H1|]. etrans; [|apply (capped_votes _ _ _ _ E2)]. by apply capped_same.
Qed.

Lemma capped_pull targets r id h e : capped e (say (OPull targets r id h) e).
Proof. apply capped_same; try done. cbn. rewrite asked_app. cbn. by rewrite app_nil_r. Qed.

Lemma capped_poll v e r : sendPoll cfg v e = Ok r -> capped e r.1.
Proof.
  unfold sendPoll. destruct (sample v) as [[|n vdrs]|]; [by intros [= <-]| |by intros [= <-]]. destruct (cons e) as [t|], (polls e) as [p|]; try done. destruct (set_Add p _ _) as [p'|]; [|by intros [= <-]]. cbv zeta.
  match goal with |- context [apply_votes cfg v ?ws ?e1] => destruct (apply_votes cfg v ws e1) as [e2| |] eqn:E; try done; apply capped_votes in E end. cbn [rbind]. intros [= <-]. cbn [fst]. etrans; [|exact E].
  destruct (bool_decide _); [by apply capped_same|]. etrans; [|apply capped_pull]. by apply capped_same.
Qed.

Lemma capped_expirePolls v order e e' : expirePolls cfg v order e = Ok e' -> capped e e'.
Proof.
  revert e. induction order as [|r order IH]; intros e E; cbn [expirePolls] in E; [by injection E as <-|]. destruct (pollVdrs e !! r) as [ps|]; [|by apply IH]. destruct (_ <? _); [by apply IH|].
  destruct (apply_votes cfg v _ _) as [e1| |] eqn:E1; try done. apply capped_votes in E1. cbn [rbind] in E. etrans; [|by apply IH]. etrans; [|exact E1]. by apply capped_same.
Qed.

Lemma capped_expire_votes v ws e r : expire_votes cfg v ws e = Ok r -> capped e r.2.
Proof.
  revert e r. induction ws as [|w ws IH]; intros e r E; cbn [expire_votes] in E; [by injection E as <-|]. destruct (_ <? _).
  - destruct (applyVote cfg v _ false e) as [e1| |] eqn:E1; try done. cbn [rbind] in E. etrans; [apply (capped_vote _ _ _ _ _ E1)|by apply IH].
  - destruct (expire_votes cfg v ws e) as [r'| |] eqn:E1; try done. cbn [rbind] in E. injection E as <-. exact (IH e r' E1).
Qed.

Lemma capped_expireParked v order e e' : expireParked cfg v order e = Ok e' -> capped e e'.
Proof.
  revert e. induction order as [|id order IH]; intros e E; cbn [expireParked] in E; [by injection E as <-|]. destruct (parked e !! id) as [votes|]; [|by apply IH]. destruct (expire_votes cfg v votes e) as [r| |] eqn:E1; try done. cbn [rbind] in E.
  etrans; [apply (capped_expire_votes _ _ _ _ E1)|]. etrans; [|by apply IH]. by apply capped_same.
Qed.

Lemma capped_loop fuel v e e' : poll_loop cfg fuel v e = Ok e' -> capped e e'.
Proof.
  revert e. induction fuel as [|fuel IH]; intros e E; cbn [poll_loop] in E; destruct (polls e); try done; destruct (_ && _); try done; try (by injection E as <-).
  destruct (sendPoll cfg v e) as [[e1 b]| |] eqn:E1; try done. apply capped_poll in E1. cbn [rbind fst snd] in *. etrans; [exact E1|]. destruct b; [by apply IH|by injection E as <-].
Qed.

(** [retryGets] takes out what was tried often enough; at the cap it does nothing else. *)
Lemma bounded_retry v order e : Z.of_nat (size (gets e)) <= maxOutstandingGets -> Z.of_nat (size (gets (retryGets v order e))) <= maxOutstandingGets.
Proof.
  revert e. induction order as [|id order IH]; intros e Hb; cbn [retryGets]; [done|]. destruct (gets e !! id) as [g|] eqn:Eg; [|by apply IH]. destruct (_ <? _); [by apply IH|].
  destruct (_ <=? _); apply IH; [|by apply (cap_bound _ _ (capped_fetch v id e))]. cbn [with_gets gets]. rewrite map_size_delete, Eg. lia.
Qed.

Lemma retry_ph v order e : ph (retryGets v order e) = ph e.
Proof. apply (q_ph _ _ (quiet_retry v order e)). Qed.

(** All the Gets there may be, none tried ten times. *)
Definition full (e : Engine) : Prop := maxOutstandingGets <= Z.of_nat (size (gets e)) /\ map_Forall (fun _ g => tries g < maxGetTries) (gets e).

Lemma full_retry v order e : full e -> gets (retryGets v order e) = gets e /\ asked (out (retryGets v order e)) = asked (out e).
Proof.
  revert e. induction order as [|id order IH]; intros e HF; cbn [retryGets]; [done|]. destruct (gets e !! id) as [g|] eqn:Eg; [|by apply IH]. destruct (_ <? _); [by apply IH|]. pose proof HF as [Hn Ht].
  destruct (Z.leb_spec maxGetTries (tries g)) as [Hle|_]; [pose proof (Ht id g Eg) as Hlt; cbn in Hlt; lia|]. destruct (cap_full _ _ (capped_fetch v id e) Hn) as [E1 O1]. rewrite <- E1, <- O1. apply IH. unfold full. by rewrite E1.
Qed.

(** The container of an event, if it brings one. *)
Definition brings (ev : event) : option ID := match ev with EvContainer raw => cID <$> Parse cfg raw | _ => None end.

Lemma chits_capped v node req p pa a h e e' : ph e = phaseLive -> OnChits cfg v node req p pa a h e = Ok e' -> capped e e'.
Proof.
  intros Hp. unfold OnChits. set (e1 := if _ <? _ then _ else _). assert (H1 : capped e e1) by (unfold e1; destruct (_ <? _); by apply capped_same). clearbody e1. rewrite (cap_ph _ _ H1), Hp.
  set (e2 := with_frontiers _ e1). assert (H2 : capped e e2) by (etrans; [exact H1|by apply capped_same]). clearbody e2. destruct (pollVdrs e2 !! req) as [ps|]; [|by intros [= <-]]. destruct (negb _); [by intros [= <-]|].
  cbv zeta. intros E. etrans; [exact H2|]. etrans; [|apply (capped_vote _ _ _ _ _ E)]. destruct (bool_decide (pa = p)); [|etrans; [|apply capped_fetch]]; (etrans; [|apply capped_fetch]); by apply capped_same.
Qed.

Lemma live_capped v ev e e' : ph e = phaseLive -> full e -> from_option (fun id => gets e !! id = None) True (brings ev) -> step cfg v ev e = Ok e' ->
  ph e' = phaseLive /\ gets e' = gets e /\ asked (out e') = asked (out e).
Proof.
  intros Hp HF Hb E. pose proof HF as [Hn _]. assert (Hcap : forall e1, capped e1 e' -> ph e1 = ph e -> gets e1 = gets e -> asked (out e1) = asked (out e) -> ph e' = phaseLive /\ gets e' = gets e /\ asked (out e') = asked (out e)).
  { intros e1 HC Hp1 Hg1 Ho1. destruct (cap_full _ _ HC) as [Eg Eo]; [by rewrite Hg1|]. pose proof (cap_ph _ _ HC). split_and!; congruence. }
  destruct ev as [raw|node req p pa a h|]; cbn [step brings] in *.
  - unfold OnContainer in E. destruct (Parse cfg raw) as [c|]; [|injection E as <-; done]. cbn [fmap option_fmap option_map from_option] in Hb. cbn [with_gets ph] in E. rewrite Hp in E. apply capped_add in E.
    apply (Hcap _ E); try done. cbn. by apply delete_id.
  - apply (Hcap e); try done. by apply (chits_capped v node req p pa a h).
  - unfold Tick in E. rewrite Hp in E. destruct (expirePolls cfg v (poll_order v) e) as [e1| |] eqn:E1; try done. cbn [rbind] in E. destruct (expireParked cfg v (parked_order v) e1) as [e2| |] eqn:E2; try done. cbn [rbind] in E.
    assert (H2 : capped e e2) by (etrans; [apply (capped_expirePolls _ _ _ _ E1)|apply (capped_expireParked _ _ _ _ E2)]). destruct (cap_full _ _ H2 Hn) as [G2 O2]. assert (HF2 : full e2) by (unfold full; by rewrite G2).
    destruct (full_retry v (gets_order v) e2 HF2) as [G3 O3]. set (e3 := retryGets v (gets_order v) e2) in *. assert (P3 : ph e3 = ph e) by (unfold e3; by rewrite retry_ph, (cap_ph _ _ H2)).
    assert (HC : capped e3 e'). { destruct (cons e3) as [t|]; [|done]. destruct (0 <? _); [by apply (capped_loop 1 v)|]. destruct (_ <=? _); [|by injection E as <-]. destruct (sendPoll cfg v e3) as [r| |] eqn:E4; try done. injection E as <-. by apply (capped_poll v). }
    apply (Hcap e3); try done; congruence.
Qed.

Definition bounded (e : Engine) : Prop := Z.of_nat (size (gets e)) <= maxOutstandingGets.

Lemma bounded_capped e e' : bounded e -> capped e e' -> bounded e'.
Proof. intros Hb [Hc _ _]. by apply Hc. Qed.

Lemma step_bounded v ev e e' : bounded e -> step cfg v ev e = Ok e' -> bounded e'.
Proof.
  intros Hb E. destruct ev as [raw|node req p pa a h|]; cbn [step] in E.
  - unfold OnContainer in E. destruct (Parse cfg raw) as [c|]; [|by injection E as <-]. set (e1 := with_gets _ e) in E. assert (H1 : bounded e1).
    { unfold bounded, e1 in *. cbn [with_gets gets]. rewrite map_size_delete. destruct (gets e !! cID c); [lia|]. unfold Datatypes.id. lia. }
    clearbody e1. destruct (ph e1); [by injection E as <-| |apply capped_add in E; by apply (bounded_capped e1)]. destruct (bool_decide _); [|by injection E as <-]. unfold goLive in E.
    destruct (Initialize _ _ _) as [t|]; [|by injection E as <-]. destruct (NewSet t) as [p|]; [|by injection E as <-].
    assert (Hp : forall e2, bounded e2 -> rmap fst (sendPoll cfg v e2) = Ok e' -> bounded e').
    { intros e2 H2 E2. destruct (sendPoll cfg v e2) as [r| |] eqn:E3; try done. injection E2 as <-. apply (bounded_capped e2); [done|by apply (capped_poll v)]. }
    destruct (OnAnchor cfg) as [f|]; [|refine (Hp _ _ E); exact H1]. destruct (f c); [refine (Hp _ _ E); exact H1|by injection E as <-].
  - destruct (ph e) eqn:Hp; [|unfold OnChits in E|apply (chits_capped v node req p pa a h _ _ Hp) in E; by apply (bounded_capped e)].
    + unfold OnChits in E. set (e1 := if _ <? _ then _ else _) in E. assert (H1 : bounded e1 /\ ph e1 = ph e) by (unfold e1; by destruct (_ <? _)). clearbody e1. destruct H1 as [H1 P1]. rewrite P1, Hp in E. injection E as <-.
      unfold bootstrapChit. destruct (_ || _); [done|]. destruct (_ <? _); [done|]. unfold sendAnchorGet. by destruct (peer v _).
    + destruct (peerAccMax e <? h); cbn [ph with_peerMax] in E; rewrite Hp in E; by injection E as <-.
  - unfold Tick in E. destruct (ph e).
    + injection E as <-. destruct (_ <=? _); [|done]. unfold sendBootstrapPoll. destruct (sample v) as [[|]|]; [done| |done]. by destruct (bool_decide _).
    + injection E as <-. destruct (_ <? _); [|done]. unfold sendAnchorGet. by destruct (peer v _).
    + destruct (expirePolls cfg v (poll_order v) e) as [e1| |] eqn:E1; try done. cbn [rbind] in E. destruct (expireParked cfg v (parked_order v) e1) as [e2| |] eqn:E2; try done. cbn [rbind] in E.
      assert (H2 : bounded e2) by (apply (bounded_capped e1); [apply (bounded_capped e); [done|by apply (capped_expirePolls _ _ _ _ E1)]|by apply (capped_expireParked _ _ _ _ E2)]).
      apply (bounded_retry v (gets_order v)) in H2. set (e3 := retryGets v (gets_order v) e2) in *. apply (bounded_capped e3); [done|]. destruct (cons e3) as [t|]; [|done]. destruct (0 <? _); [by apply (capped_loop 1 v)|].
      destruct (_ <=? _); [|by injection E as <-]. destruct (sendPoll cfg v e3) as [r| |] eqn:E4; try done. injection E as <-. by apply (capped_poll v).
Qed.

Lemma run_bounded evs e e' : bounded e -> run cfg evs e = Ok e' -> bounded e'.
Proof.
  revert e. induction evs as [|[v ev] evs IH]; intros e Hb E; cbn [run] in E; [by injection E as <-|]. destruct (step cfg v ev e) as [e1| |] eqn:E1; try done. cbn [rbind] in E. apply (IH e1); [|done]. by apply (step_bounded v ev e).
Qed.

Lemma run_full evs e e' : ph e = phaseLive -> full e -> Forall (fun x => from_option (fun id => gets e !! id = None) True (brings x.2)) evs -> run cfg evs e = Ok e' ->
  gets e' = gets e /\ asked (out e') = asked (out e).
Proof.
  revert e. induction evs as [|[v ev] evs IH]; intros e Hp HF Hb E; cbn [run] in E; [by injection E as <-|]. apply Forall_cons in Hb as [Hb1 Hb]. destruct (step cfg v ev e) as [e1| |] eqn:E1; try done. cbn [rbind] in E.
  destruct (live_capped v ev e e1 Hp HF Hb1 E1) as (P1 & G1 & O1). rewrite <- G1, <- O1. apply IH; try done; [unfold full; by rewrite G1|by rewrite G1].
Qed.

End Gets.

Section Stall.
Context `{PollSet} `{!TopoLaws} (rank : ID -> nat).

(** C28: the number of container fetches in flight stays within its cap, and at the
    cap fetching stops for good. In every run from [New] at most 64 Gets are outstanding; but
    once 64 are, none of them tried ten times, then whatever else happens, time passing and ticks
    included, none is retried or given up and no other container is ever asked for,
    until one of those very containers arrives unasked. *)
Theorem engine_gets_stall Verify zero dflt cfg0 cfg e0 evs1 evs2 e :
  New Verify zero dflt cfg0 = Some (cfg, e0) -> (forall raw c, Parse cfg0 raw = Some c -> (rank (cParentID c) < rank (cID c))%nat) ->
  run cfg evs1 e0 = Ok e ->
  Z.of_nat (size (gets e)) <= maxOutstandingGets /\
  (ph e = phaseLive -> full e -> Forall (fun x => from_option (fun id => gets e !! id = None) True (brings cfg x.2)) evs2 ->
   exists e', run cfg evs2 e = Ok e' /\ gets e' = gets e /\ asked (out e') = asked (out e)).
Proof.
  intros HN Hrank Hr. destruct (new_ok rank _ _ _ _ _ _ HN) as (Hpos & Hpa & H0' & Hg). rewrite <- Hpa in Hrank. split; [apply (run_bounded cfg evs1 e0 e); [unfold bounded; by rewrite Hg|done]|].
  intros Hp HF Hb. destruct (run_all rank cfg evs1 e0 Hpos Hrank H0') as (e1 & E1 & Hok). rewrite E1 in Hr. injection Hr as ->. destruct (run_all rank cfg evs2 e Hpos Hrank Hok) as (e' & E' & _).
  exists e'. split; [done|]. by apply (run_full cfg evs2 e e').
Qed.

End Stall.

(** ** The anchor *)

(** A chit of the bootstrap poll: node, request, accepted container and height. *)
Record chit := Chit { chNode : NodeID; chReq : Z; chAccepted : ID; chHeight : Z; chPreferred : ID; chAtHeight : ID }.
Definition chit_event (c : chit) : event := EvChits (chNode c) (chReq c) (chPreferred c) (chAtHeight c) (chAccepted c) (chHeight c).

(** How often a node was drawn. *)
Definition draws (vdrs : list NodeID) (n : NodeID) : Z := len (List.filter (fun m => bool_decide (m = n)) vdrs).

(** The draws behind an anchor: each drawn node counts once, by its first answer to
    this poll, with as many votes as it was drawn. *)
Fixpoint tally (vdrs : list NodeID) (req : Z) (seen : gset NodeID) (id : ID) (l : list chit) : Z :=
  match l with
  | [] => 0
  | c :: l =>
      if negb (chReq c =? req) || (draws vdrs (chNode c) =? 0) || bool_decide (chNode c ∈ seen) then tally vdrs req seen id l
      else (if bool_decide (chAccepted c = id) then draws vdrs (chNode c) else 0) + tally vdrs req ({[chNode c]} ∪ seen) id l
  end.

Lemma draws_nonneg vdrs n : 0 <= draws vdrs n.
Proof. apply len_nonneg. Qed.

Lemma tally_nonneg vdrs req seen id l : 0 <= tally vdrs req seen id l.
Proof.
  revert seen. induction l as [|c l IH]; intros seen; cbn [tally]; [done|]. destruct (_ || _); [apply IH|]. pose proof (draws_nonneg vdrs (chNode c)). specialize (IH ({[chNode c]} ∪ seen)). destruct (bool_decide _); lia.
Qed.

Lemma count_draws_ok vdrs n : default 0 (count_draws vdrs !! n) = draws vdrs n.
Proof.
  unfold count_draws, draws. assert (Hg : forall m : gmap NodeID Z, default 0 (foldl (fun (m : gmap NodeID Z) n => <[n := default 0 (m !! n) + 1]> m) m vdrs !! n) = default 0 (m !! n) + len (List.filter (fun x => bool_decide (x = n)) vdrs)).
  { induction vdrs as [|x vdrs IH]; intros m; cbn [foldl List.filter]; [change (len []) with 0; lia|]. rewrite IH. destruct (bool_decide_reflect (x = n)) as [->|Hne].
    - rewrite lookup_insert_eq, len_cons. cbn. lia.
    - by rewrite lookup_insert_ne. }
  rewrite Hg, lookup_empty. done.
Qed.

Section Anchor.
Context `{PollSet} (cfg : Config).

(** Answers after the anchor was found change nothing of it. *)
Lemma anchor_found (l : list (env * chit)) e : ph e = phaseAnchorGet ->
  exists e', run cfg ((fun x => (x.1, chit_event x.2)) <$> l) e = Ok e' /\ ph e' = phaseAnchorGet /\ anchorID e' = anchorID e.
Proof.
  revert e. induction l as [|[v c] l IH]; intros e Hp; cbn [run fmap list_fmap fst snd chit_event]; [by exists e|]. unfold step, chit_event, OnChits. set (e1 := if peerAccMax e <? chHeight c then with_peerMax (chHeight c) e else e).
  assert (H1 : ph e1 = ph e /\ anchorID e1 = anchorID e) by (unfold e1; by destruct (_ <? _)). destruct H1 as [P1 A1]. rewrite P1, Hp. cbn [rbind]. rewrite <- A1. apply IH. congruence.
Qed.

Lemma anchor_tally vdrs req seen votes (l : list (env * chit)) e :
  ph e = phasePollAnchor -> bsReqID (bs e) = req -> (forall n, default 0 (bsSample (bs e) !! n) = draws vdrs n) -> bsVoters (bs e) = seen ->
  (forall id, default 0 (bsVotes (bs e) !! id) = votes id) -> (forall id, votes id < AlphaPreference (Params cfg)) ->
  exists e', run cfg ((fun x => (x.1, chit_event x.2)) <$> l) e = Ok e' /\
    (ph e' = phaseAnchorGet /\ AlphaPreference (Params cfg) <= votes (anchorID e') + tally vdrs req seen (anchorID e') l.*2 \/
     ph e' = phasePollAnchor /\ forall id, votes id + tally vdrs req seen id l.*2 < AlphaPreference (Params cfg)).
Proof.
  revert e seen votes. induction l as [|[v c] l IH]; intros e seen votes Hp Hr Hs Hv Hvo Ha; cbn [run fmap list_fmap fst snd chit_event tally].
  { exists e. split; [done|]. right. split; [done|]. intros id. specialize (Ha id). lia. }
  unfold step, chit_event, OnChits. set (e1 := if peerAccMax e <? chHeight c then with_peerMax (chHeight c) e else e). assert (H1 : ph e1 = ph e /\ bs e1 = bs e) by (unfold e1; by destruct (_ <? _)). destruct H1 as [P1 B1]. rewrite P1, Hp. cbn [rbind]. clearbody e1. rewrite <- P1, <- B1 in *. clear P1 B1 e.
  unfold bootstrapChit. rewrite Hr, Hs, Hv. destruct (_ || _); [by apply IH|]. rewrite Hvo. set (e2 := with_bs _ e1). set (votes' := fun id => votes id + if bool_decide (chAccepted c = id) then draws vdrs (chNode c) else 0).
  destruct (Z.ltb_spec (votes (chAccepted c) + draws vdrs (chNode c)) (AlphaPreference (Params cfg))) as [Hlt|Hge].
  - destruct (IH e2 ({[chNode c]} ∪ seen) votes') as (e' & E & Hres); try done.
    + intros id. cbn [e2 with_bs bs bsVotes]. unfold votes'. destruct (bool_decide_reflect (chAccepted c = id)) as [<-|Hne]; [rewrite lookup_insert_eq; done|rewrite lookup_insert_ne by done; by rewrite Hvo, Z.add_0_r].
    + intros id. unfold votes'. destruct (bool_decide_reflect (chAccepted c = id)) as [<-|Hne]; [done|]. specialize (Ha id). lia.
    + exists e'. split; [done|]. unfold votes' in Hres. destruct Hres as [[P R]|[P R]]; [left; split; [done|]; lia|right; split; [done|]; intros id; specialize (R id); lia].
  - set (e3 := sendAnchorGet v _). assert (H3 : ph e3 = phaseAnchorGet /\ anchorID e3 = chAccepted c) by (unfold e3, sendAnchorGet; cbn [with_phase with_anchor anchorID]; by destruct (peer v (chAccepted c))). destruct H3 as [P3 A3].
    destruct (anchor_found l e3 P3) as (e' & E & P' & A'). exists e'. split; [done|]. left. split; [done|]. rewrite A', A3. rewrite bool_decide_eq_true_2 by done. pose proof (tally_nonneg vdrs req ({[chNode c]} ∪ seen) (chAccepted c) l.*2). lia.
Qed.

(** C29: the anchor is what alpha of the sampled stake answered, no more and no less.
    After a bootstrap poll of the draws [vdrs], and any chits in any order, repeated, late, from
    nodes not drawn or for other requests: if for some container the first answers of
    the nodes that name it carry alpha draws, the engine has taken an anchor whose
    answers carry alpha draws and fetches it; otherwise it is still polling. *)
Theorem anchor_needs_alpha v e n vdrs (l : list (env * chit)) :
  ph e = phasePollAnchor -> sample v = Some (n :: vdrs) -> 0 < AlphaPreference (Params cfg) ->
  let t id := tally (n :: vdrs) (reqID v) ∅ id l.*2 in
  exists e', run cfg ((fun x => (x.1, chit_event x.2)) <$> l) (sendBootstrapPoll v e) = Ok e' /\
    (ph e' = phaseAnchorGet /\ AlphaPreference (Params cfg) <= t (anchorID e') \/
     ph e' = phasePollAnchor /\ forall id, t id < AlphaPreference (Params cfg)).
Proof.
  intros Hp Hs Ha. cbv zeta. set (e1 := sendBootstrapPoll v e).
  assert (H1 : ph e1 = ph e /\ bsReqID (bs e1) = reqID v /\ bsSample (bs e1) = count_draws (n :: vdrs) /\ bsVoters (bs e1) = ∅ /\ bsVotes (bs e1) = ∅) by (unfold e1, sendBootstrapPoll; rewrite Hs; by destruct (bool_decide _)).
  destruct H1 as (P1 & R1 & S1 & V1 & B1). apply (anchor_tally (n :: vdrs) (reqID v) ∅ (fun _ => 0) l e1); try done.
  - congruence.
  - intros m. rewrite S1. apply count_draws_ok.
  - intros id. by rewrite B1, lookup_empty.
Qed.

End Anchor.

(** ** A consensus that keeps the laws *)

(** It accepts a block a vote names when that block is the only one being decided and
    stands on the last accepted one; every vote is a poll of its own. *)
Definition toy_decide (V : view) (b : ID) : option Container :=
  match map_to_list (vProc V) with
  | [(id, c)] => if bool_decide (id = b) && bool_decide (cID c = b) && bool_decide (cParentID c = vLast V) then Some c else None
  | _ => None
  end.

#[local] Instance toy_topo : Topological := {|
  topo := view; bag := ID; Initialize id _ _ := Some (View id ∅);
  Processing V id := bool_decide (is_Some (vProc V !! id)); NumProcessing V := Z.of_nat (size (vProc V)); Preference V := vLast V;
  topo_Add V c := (View (vLast V) (<[cID c := c]> (vProc V)), [], false);
  RecordPoll V b _ := match toy_decide V b with Some c => (View (cID c) ∅, [DAccept c], false) | None => (V, [], false) end;
  bag_Mode _ := 1 |}.

#[local] Instance toy_polls : PollSet := {|
  pset := unit; NewSet _ := Some tt; set_Len _ := 0; set_Add p _ _ := Some p; set_Vote _ p _ _ x := (p, [x]); set_Drop _ p _ _ := (p, []) |}.

#[local] Instance toy_topo_laws : TopoLaws.
Proof.
  refine {| tview := fun V : topo => (V : view) |}.
  - intros id h t s [= <-]. done.
  - done.
  - intros V c _ _ _. by eexists.
  - intros V b ok V' ds Hcl. cbn. unfold toy_decide. destruct (map_to_list (vProc V)) as [|[id c] [|]] eqn:El; [intros [= <- <-]; split; [constructor|done]| |intros [= <- <-]; split; [constructor|done]].
    destruct (bool_decide_reflect (id = b)) as [->|]; [|intros [= <- <-]; split; [constructor|done]]. destruct (bool_decide_reflect (cID c = b)) as [<-|]; [|intros [= <- <-]; split; [constructor|done]].
    destruct (bool_decide_reflect (cParentID c = vLast V)) as [Hp|]; [|intros [= <- <-]; split; [constructor|done]]. cbn [andb]. intros [= <- <-].
    assert (Hm : vProc V = {[cID c := c]}). { apply map_to_list_inj. by rewrite El, map_to_list_singleton. } split; [|done].
    econstructor; [|constructor]. replace (View (cID c) ∅) with (View (cID c) (delete (cID c) (vProc V))) by (rewrite Hm; f_equal; by rewrite delete_singleton_eq). apply v_accept; [by rewrite Hm, lookup_singleton_eq|done].
Defined.

(** Containers of three numbers, name, parent and height; the hash is the name. *)
Definition toy_rank (id : ID) : nat := match id with [n] => S (Z.to_nat n) | _ => O end.
Definition toy_parse (raw : bytes) : option Container :=
  match raw with
  | [id; p; h] => if (0 <=? p) && (p <? id) then Some (MkContainer [id] [p] h [id] [p] 0 raw) else None
  | _ => None
  end.

Lemma toy_parse_rank raw c : toy_parse raw = Some c -> (toy_rank (cParentID c) < toy_rank (cID c))%nat.
Proof.
  unfold toy_parse. destruct raw as [|id [|p [|h [|]]]]; try done. destruct (Z.leb_spec 0 p); [|done]. destruct (Z.ltb_spec p id); [|done]. intros [= <-]. cbn. lia.
Qed.

Definition toy_cfg : Config := MkConfig toy_parse None (fun _ => true) (MkParameters 1 1 4 []) 0 10 0.
Definition toy_env (t req : Z) : env := MkEnv t req (Some [[1]]) (fun _ => true) (fun _ => Some [1]) [] [] [] elements.

(** Up to the anchor 1 live at height 7, then 2 on it accepted by a vote. *)
Definition toy_start : list (env * event) :=
  [(toy_env (3 * Second) 1, EvTick); (toy_env (3 * Second) 0, EvChits [1] 1 [1] [1] [1] 7); (toy_env (3 * Second) 2, EvContainer [1; 0; 7]);
   (toy_env (3 * Second) 0, EvContainer [2; 1; 8]); (toy_env (3 * Second) 0, EvChits [1] 2 [2] [2] [1] 7)].

#[local] Instance Container_eq_dec : EqDecision Container.
Proof. solve_decision. Defined.
#[local] Instance phase_eq_dec : EqDecision phase.
Proof. solve_decision. Defined.

(** A test of the state a script ends in. *)
Definition ends_in (evs : list (env * event)) (test : Engine -> bool) : bool :=
  match New (fun _ => true) (MkParameters 0 0 0 []) (MkParameters 0 0 0 []) toy_cfg with
  | Some (cfg, e0) => match run cfg evs e0 with Ok e => test e | _ => false end
  | None => false
  end.

Lemma ends_in_true evs test : ends_in evs test = true ->
  exists cfg e0 e, New (fun _ => true) (MkParameters 0 0 0 []) (MkParameters 0 0 0 []) toy_cfg = Some (cfg, e0) /\ run cfg evs e0 = Ok e /\ test e = true.
Proof. unfold ends_in. destruct (New _ _ _ _) as [[cfg e0]|]; [|done]. destruct (run cfg evs e0) as [e| |] eqn:E; try done. intros Ht. by exists cfg, e0, e. Qed.

Definition toy_child : Container := MkContainer [2] [1] 8 [2] [1] 0 [2; 1; 8].
Definition toy_accepted (e : Engine) : bool := bool_decide (ph e = phaseLive) && negb (fatal e) && bool_decide (accepts (out e) = [toy_child]).

Lemma engine_accepts_chain_witness :
  exists cfg e0 e anchor, New (fun _ => true) (MkParameters 0 0 0 []) (MkParameters 0 0 0 []) toy_cfg = Some (cfg, e0) /\ run cfg toy_start e0 = Ok e /\
    accepts (out e) = [toy_child] /\ cID anchor = anchorID e /\ chain (front anchor) (accepts (out e)).
Proof.
  destruct (ends_in_true toy_start toy_accepted ltac:(by vm_compute)) as (cfg & e0 & e & EN & Er & Ht). unfold toy_accepted in Ht.
  apply andb_true_iff in Ht as [Ht Ha]. apply andb_true_iff in Ht as [Hp Hf]. apply bool_decide_eq_true_1 in Hp, Ha. apply negb_true_iff in Hf.
  destruct (engine_accepts_chain toy_rank _ _ _ _ cfg e0 toy_start EN toy_parse_rank) as (e1 & E1 & _ & Hl). rewrite Er in E1. injection E1 as <-.
  destruct (Hl Hp Hf) as (anchor & Hid & Hc & _). by exists cfg, e0, e, anchor.
Defined.

(** Then 32 polls whose chits name two unknown containers each. *)
Definition toy_flood : list (env * event) :=
  flat_map (fun k => [(toy_env (3 * Second + 20 * k) (10 + k), EvTick); (toy_env (3 * Second + 20 * k) 0, EvChits [1] (10 + k) [1000 + 2 * k] [1001 + 2 * k] [1] 7)]) (seqZ 1 32).

(** An hour later a tick in which every key comes up. *)
Definition toy_late : list (env * event) :=
  [(MkEnv (3600 * Second) 99 (Some [[1]]) (fun _ => true) (fun _ => Some [1]) (seqZ 1 100) ((fun n => [n]) <$> seqZ 1000 100) ((fun n => [n]) <$> seqZ 1000 100) elements, EvTick)].

Definition toy_full (e : Engine) : bool :=
  bool_decide (ph e = phaseLive) && Nat.eqb (size (gets e)) 64 && forallb (fun kv => tries kv.2 <? maxGetTries) (map_to_list (gets e)).

Lemma engine_gets_stall_witness :
  exists cfg e0 e e', New (fun _ => true) (MkParameters 0 0 0 []) (MkParameters 0 0 0 []) toy_cfg = Some (cfg, e0) /\ run cfg (toy_start ++ toy_flood) e0 = Ok e /\ full e /\ size (gets e) = 64%nat /\
    run cfg toy_late e = Ok e' /\ gets e' = gets e /\ asked (out e') = asked (out e).
Proof.
  destruct (ends_in_true (toy_start ++ toy_flood) toy_full ltac:(by vm_compute)) as (cfg & e0 & e & EN & Er & Ht). unfold toy_full in Ht.
  apply andb_true_iff in Ht as [Ht Ha]. apply andb_true_iff in Ht as [Hp Hn]. apply bool_decide_eq_true_1 in Hp. apply Nat.eqb_eq in Hn.
  assert (HF : full e). { split; [by rewrite Hn|]. intros id g Hg. apply elem_of_map_to_list, list_elem_of_In in Hg. apply (proj1 (forallb_forall _ _) Ha), Z.ltb_lt in Hg. exact Hg. }
  destruct (engine_gets_stall toy_rank _ _ _ _ cfg e0 _ toy_late e EN toy_parse_rank Er) as [_ Hs]. destruct (Hs Hp HF ltac:(repeat constructor)) as (e' & E' & Hg & Ho). by exists cfg, e0, e, e'.
Defined.

(** Three draws, two of them the same node; alpha is two. *)
Lemma anchor_needs_alpha_witness :
  let cfg := MkConfig toy_parse None (fun _ => true) (MkParameters 3 2 4 []) 0 10 0 in
  let v := MkEnv (3 * Second) 5 (Some [[1]; [2]; [1]]) (fun _ => true) (fun _ => Some [1]) [] [] [] elements in
  exists e e', ph e = phasePollAnchor /\ tally [[1]; [2]; [1]] 5 ∅ [7] [Chit [2] 5 [8] 1 [8] [8]; Chit [1] 5 [7] 1 [7] [7]] = 2 /\
    run cfg ((fun x => (x.1, chit_event x.2)) <$> [(v, Chit [2] 5 [8] 1 [8] [8]); (v, Chit [1] 5 [7] 1 [7] [7])]) (sendBootstrapPoll v e) = Ok e' /\ ph e' = phaseAnchorGet.
Proof.
  intros cfg v. set (e := MkEngine phasePollAnchor false (Boot 0 ∅ ∅ ∅ ∅ 0) EmptyID 0 None None ∅ ∅ ∅ ∅ ∅ ∅ 0 0 0 0 (Frontier EmptyID 0 EmptyID) []).
  destruct (anchor_needs_alpha cfg v e [1] [[2]; [1]] [(v, Chit [2] 5 [8] 1 [8] [8]); (v, Chit [1] 5 [7] 1 [7] [7])] eq_refl eq_refl eq_refl) as (e' & E & Hres). exists e, e'.
  split; [done|]. split; [by vm_compute|]. split; [exact E|]. destruct Hres as [[Hp _]|[_ Hno]]; [exact Hp|]. specialize (Hno [7]). by vm_compute in Hno.
Defined.

End Engine.
