(* ===== verification/Frames.v ===== *)
(** * store/frames.go: call frames

    A transaction's call tree is stored as the tracer's JSON and decoded to a list of
    frames in the order they were entered, each with its depth. The JSON decoder and the
    opcode table (vm.StringToOp) are parameters. *)

From S2P Require Import Prelude Bytes.

Module Frames.

Record Frame := MkFrame {
  Kind : Z; Depth : Z; From : bytes; To : bytes; Value : option Z; Gas : Z; GasUsed : Z; Failed : bool; Error : string; Input : bytes; Output : bytes }.

Inductive callFrameJSON := CallFrame {
  jType : string; jFrom : bytes; jTo : option bytes; jValue : option Z; jGas : Z; jGasUsed : Z; jInput : bytes; jOutput : bytes; jError : string; jRevertReason : string;
  jCalls : list callFrameJSON }.

(** common.Address{} *)
Definition zeroAddress : bytes := replicate 20 0.

Section Decode.
Context (StringToOp : string -> Z) (Unmarshal : bytes -> option callFrameJSON).

Definition frame_of (c : callFrameJSON) (depth : Z) : Frame :=
  MkFrame (StringToOp (jType c)) depth (jFrom c) (default zeroAddress (jTo c)) (jValue c) (jGas c) (jGasUsed c) (negb (String.eqb (jError c) "")) (jError c) (jInput c) (jOutput c).

(** [walk]: [depth] is a byte. *)
Fixpoint walk (f : callFrameJSON) (depth : Z) : list Frame :=
  (fix calls (l : list callFrameJSON) : list Frame :=
     match l with [] => [] | c :: l => frame_of c depth :: walk c ((depth + 1) mod 256) ++ calls l end) (jCalls f).

Definition DecodeFrames (rec : bytes) : res (list Frame) :=
  if len rec =? 0 then Ok []
  else match Unmarshal rec with None => Err "frames" | Some top => Ok (walk top 0) end.

(** ** The tree behind the frames *)

Inductive tree := Node (f : Frame) (kids : list tree).

Fixpoint tree_of (depth : Z) (c : callFrameJSON) : tree := Node (frame_of c depth) (tree_of (depth + 1) <$> jCalls c).

Fixpoint height (c : callFrameJSON) : nat := S (foldr (fun c n => Nat.max (height c) n) 0%nat (jCalls c)).

(** The calls at [depth] at the front of a list of frames: a frame belongs to the last
    one before it whose depth is one less. *)
Fixpoint rebuild (fuel : nat) (depth : Z) (l : list Frame) : list tree * list Frame :=
  match fuel, l with
  | S fuel, f :: rest =>
      if Depth f =? depth then
        let (kids, rest) := rebuild fuel (depth + 1) rest in
        let (sibs, rest) := rebuild fuel depth rest in
        (Node f kids :: sibs, rest)
      else ([], l)
  | _, _ => ([], l)
  end.

Fixpoint walk_calls (l : list callFrameJSON) (depth : Z) : list Frame :=
  match l with [] => [] | c :: l => frame_of c depth :: walk c ((depth + 1) mod 256) ++ walk_calls l depth end.

Lemma walk_eq f depth : walk f depth = walk_calls (jCalls f) depth.
Proof. destruct f as [? ? ? ? ? ? ? ? ? ? l]. cbn [walk jCalls]. induction l as [|c l IH]; [done|]. cbn [walk_calls]. by rewrite <- IH. Qed.

(** Frames of other depths end a list of calls. *)
Definition ends_at (depth : Z) (l : list Frame) : Prop := match l with [] => True | f :: _ => Depth f < depth end.

Definition size_calls (l : list callFrameJSON) (depth : Z) : nat := length (walk_calls l depth).

Lemma rebuild_calls n : forall l depth rest fuel,
  (foldr (fun c n => Nat.max (height c) n) 0%nat l <= n)%nat -> depth + Z.of_nat n <= 256 -> 0 <= depth -> ends_at depth rest ->
  (length (walk_calls l depth) < fuel)%nat ->
  rebuild fuel depth (walk_calls l depth ++ rest) = (tree_of depth <$> l, rest).
Proof.
  induction n as [|n IHn]; intros l depth rest fuel Hh Hd H0 He Hf.
  { destruct l as [|c l]; [|destruct c; cbn in Hh; lia]. destruct fuel as [|fuel]; [lia|]. cbn [walk_calls app]. destruct rest as [|f rest]; [done|]. cbn [rebuild]. cbn in He. by rewrite (proj2 (Z.eqb_neq _ _)) by lia. }
  revert fuel Hf. induction l as [|c l IHl]; intros fuel Hf.
  { destruct fuel as [|fuel]; [cbn in Hf; lia|]. cbn [walk_calls app]. destruct rest as [|f rest]; [done|]. cbn [rebuild]. cbn in He. by rewrite (proj2 (Z.eqb_neq _ _)) by lia. }
  cbn [foldr] in Hh. destruct fuel as [|fuel]; [lia|]. cbn [walk_calls app rebuild]. cbn [Depth frame_of]. rewrite Z.eqb_refl.
  cbn [walk_calls length] in Hf. rewrite length_app in Hf.
  assert (Hc : (S (foldr (fun c n => Nat.max (height c) n) 0%nat (jCalls c)) <= S n)%nat) by (destruct c; cbn [height jCalls] in Hh |- *; lia).
  assert (Hlen : (length (walk c ((depth + 1) mod 256)) < fuel)%nat) by lia.
  assert (Hk : rebuild fuel (depth + 1) ((walk c ((depth + 1) mod 256) ++ walk_calls l depth) ++ rest) = (tree_of (depth + 1) <$> jCalls c, walk_calls l depth ++ rest)).
  { rewrite walk_eq in Hlen |- *. rewrite <- app_assoc. destruct (jCalls c) as [|k ks] eqn:Ek.
    - destruct fuel as [|fuel]; [lia|]. cbn [walk_calls app fmap list_fmap]. destruct l as [|c' l]; cbn [walk_calls app].
      + destruct rest as [|f rest]; [done|]. cbn [rebuild]. cbn in He. by rewrite (proj2 (Z.eqb_neq _ _)) by lia.
      + cbn [rebuild Depth frame_of]. by rewrite (proj2 (Z.eqb_neq _ _)) by lia.
    - assert (Hn : (1 <= n)%nat) by (cbn [foldr] in Hc; destruct k; cbn [height] in Hc; lia). rewrite Z.mod_small in Hlen |- * by lia. apply IHn; try lia.
      destruct l as [|c' l]; cbn [walk_calls app ends_at]; [|cbn; lia]. destruct rest; [done|]. cbn in He |- *. lia. }
  rewrite Hk. rewrite IHl by lia. destruct c; done.
Qed.

(** the list of frames says the whole call tree. Decoding a stored record whose
    calls nest at most 256 deep gives the frames from which the tree is rebuilt, every
    call with its fields under the call that made it, and nothing left over; an empty
    record is no frames and a record that is not JSON an error. *)
Theorem frames_rebuild rec :
  (rec = [] -> DecodeFrames rec = Ok []) /\ (rec <> [] -> Unmarshal rec = None -> exists m, DecodeFrames rec = Err m) /\
  forall top, rec <> [] -> Unmarshal rec = Some top -> (height top <= 257)%nat ->
    exists l, DecodeFrames rec = Ok l /\ rebuild (S (length l)) 0 l = (tree_of 0 <$> jCalls top, []).
Proof.
  assert (Hne : rec <> [] -> (len rec =? 0) = false) by (destruct rec; [done|]; intros _; rewrite len_cons; pose proof (len_nonneg rec); apply Z.eqb_neq; lia).
  unfold DecodeFrames. split_and!; [by intros ->|intros Hr ->; rewrite (Hne Hr); by eexists|]. intros top Hr Hu Hh. rewrite (Hne Hr), Hu. eexists. split; [done|].
  rewrite walk_eq. rewrite <- (app_nil_r (walk_calls (jCalls top) 0)) at 2. apply (rebuild_calls 256); try done; [|lia]. destruct top; cbn [height jCalls] in *. lia.
Qed.

(** A call that makes [n] calls inside one another, and one that also makes [l]. *)
Definition plain (l : list callFrameJSON) : callFrameJSON := CallFrame "CALL" zeroAddress (Some zeroAddress) (Some 0) 0 0 [] [] "" "" l.
Fixpoint nest (n : nat) : list callFrameJSON := match n with O => [] | S n => [plain (nest n)] end.

(** beyond 256 the depth wraps and calls move. The record of a transaction with
    257 calls inside one another, which the EVM's limit of 1024 allows, decodes to the
    same frames as the record of one with 256 of them and a second call from the top:
    readers take the innermost call for a call of the transaction itself. *)
Theorem frames_depth_wraps :
  exists t1 t2, jCalls t1 = nest 257 /\ jCalls t2 = nest 256 ++ nest 1 /\ height t1 = 258%nat /\
    forall rec1 rec2, rec1 <> [] -> rec2 <> [] -> Unmarshal rec1 = Some t1 -> Unmarshal rec2 = Some t2 -> DecodeFrames rec1 = DecodeFrames rec2 /\
      exists f, last (walk t1 0) = Some f /\ Depth f = 0.
Proof.
  exists (plain (nest 257)), (plain (nest 256 ++ nest 1)). split; [done|]. split; [done|]. split; [by vm_compute|]. intros rec1 rec2 H1 H2 E1 E2. unfold DecodeFrames. rewrite E1, E2.
  destruct rec1 as [|x1 rec1]; [done|]. destruct rec2 as [|x2 rec2]; [done|]. rewrite !len_cons. pose proof (len_nonneg rec1). pose proof (len_nonneg rec2). rewrite !(proj2 (Z.eqb_neq _ _)) by lia.
  split; [by vm_compute|]. eexists. split; by vm_compute.
Qed.

End Decode.

(** A record of one byte; the tree has a call with two calls of its own. *)
Definition sample_tree : callFrameJSON := plain [plain [plain []; plain []]; plain []].
Definition sample_unmarshal (rec : bytes) : option callFrameJSON := match rec with [1] => Some sample_tree | _ => None end.

Lemma frames_rebuild_witness : exists l, DecodeFrames (fun _ => 241) sample_unmarshal [1] = Ok l /\ length l = 4%nat /\
  rebuild 5 0 l = (tree_of (fun _ => 241) 0 <$> jCalls sample_tree, []).
Proof.
  destruct (frames_rebuild (fun _ => 241) sample_unmarshal [1]) as (_ & _ & H). destruct (H sample_tree ltac:(done) eq_refl ltac:(cbn; lia)) as (l & E & R). exists l.
  assert (El : length l = 4%nat) by (injection E as <-; done). rewrite El in R. split; [exact E|]. split; [exact El|exact R].
Defined.

End Frames.
