(* ===== verification/Misc.v ===== *)
(** * store/ethdb.go: the misc store

    [MiscStore] keeps a few keys in a map backed by an append-only log. The file
    is its bytes up to the write offset, [None] a nil file; writes to an open file
    succeed. [OpenMisc] replays what a crash left of the log. *)

From S2P Require Import Prelude Bytes Receipts.

Module Misc.

(** ** Reading a record *)

(** binary.ReadUvarint: the value and the rest of the reader; [None] is io.EOF or
    io.ErrUnexpectedEOF. [n] is the number of bytes that may still be read. *)
Fixpoint ReadUvarint_loop (n : nat) (r : bytes) (x s : Z) : res (option (Z * bytes)) :=
  match n with
  | O => Err "binary: varint overflows a 64-bit integer"
  | S n' =>
      match r with
      | [] => Ok None
      | b :: r =>
          if b <? 128 then
            if (n =? 1)%nat && (1 <? b) then Err "binary: varint overflows a 64-bit integer"
            else Ok (Some (Z.lor x (u64 (Z.shiftl b s)), r))
          else ReadUvarint_loop n' r (Z.lor x (u64 (Z.shiftl (Z.land b 127) s))) (s + 7)
      end
  end.
Definition ReadUvarint (r : bytes) : res (option (Z * bytes)) := ReadUvarint_loop 10 r 0 0.

(** io.ReadFull into a fresh slice of [n] bytes, which panics past the address
    space. *)
Definition read_make (r : bytes) (n : Z) : res (option (bytes * bytes)) :=
  if negb (Receipts.make_ok 1 n) then Panic
  else if len r <? n then Ok None
  else Ok (Some (take (Z.to_nat n) r, drop (Z.to_nat n) r)).

(** A read that stops at the end of the file, and goes on otherwise. *)
Definition obind {A B} (c : res (option A)) (k : A -> res (option B)) : res (option B) :=
  let* o := c in match o with None => Ok None | Some a => k a end.
Notation "'let?' x := c 'in' k" := (obind c (fun x => k))
  (at level 10, x pattern, c at level 100, k at level 200) : go_scope.

Definition uvarintLen (v : Z) : Z := len (append_uvarint v).

(** The record's end, its op, key and value, and the rest of the reader. *)
Definition readMiscRecord (r : bytes) (pos : Z) : res (option (Z * Z * bytes * bytes * bytes)) :=
  match r with
  | [] => Ok None
  | op :: r =>
      let? (klen, r) := ReadUvarint r in
      let? (k, r) := read_make r klen in
      let end_ := u64 (pos + 1 + uvarintLen klen + klen) in
      if op =? 1 then Ok (Some (end_, op, k, [], r))
      else
        let? (vlen, r) := ReadUvarint r in
        let? (v, r) := read_make r vlen in
        Ok (Some (u64 (end_ + uvarintLen vlen + vlen), op, k, v, r))
  end.

(** ** The store *)

Record MiscStore := MkMisc { sf : option bytes; sm : gmap bytes bytes; sdirty : bool }.

Fixpoint replay (fuel : nat) (r : bytes) (m : gmap bytes bytes) (pos : Z) : res (gmap bytes bytes * Z) :=
  match fuel with
  | O => Ok (m, pos)
  | S fuel =>
      let* o := readMiscRecord r pos in
      match o with
      | None => Ok (m, pos)
      | Some (e, op, k, v, r) => replay fuel r (if op =? 0 then <[k := v]> m else delete k m) e
      end
  end.

(** ftruncate(2): a longer length extends with zeros; a negative one is EINVAL. *)
Definition Truncate (f : bytes) (n : Z) : res bytes :=
  if n <? 0 then Err "invalid argument"
  else Ok (take (Z.to_nat n) f ++ replicate (Z.to_nat n - length f) 0).

Definition OpenMisc (file : bytes) : res MiscStore :=
  let* (m, pos) := replay (S (length file)) file ∅ 0 in
  let* f := Truncate file (i64 pos) in
  Ok (MkMisc (Some f) m false).

Definition put_record (key value : bytes) : bytes :=
  0 :: append_uvarint (len key) ++ key ++ append_uvarint (len value) ++ value.
Definition del_record (key : bytes) : bytes := 1 :: append_uvarint (len key) ++ key.

Definition Get (s : MiscStore) (key : bytes) : option bytes := sm s !! key.

Definition Put (s : MiscStore) (key value : bytes) : res MiscStore :=
  match sf s with
  | None => Err "misc.log: read-only store"
  | Some f =>
      if (match sm s !! key with Some cur => beqb cur value | None => false end) then Ok s
      else Ok (MkMisc (Some (f ++ put_record key value)) (<[key := value]> (sm s)) true)
  end.

Definition Delete (s : MiscStore) (key : bytes) : res MiscStore :=
  match sm s !! key with
  | None => Ok s
  | Some _ =>
      match sf s with
      | None => Err "misc.log write: invalid argument"
      | Some f => Ok (MkMisc (Some (f ++ del_record key)) (delete key (sm s)) true)
      end
  end.

Definition Sync (s : MiscStore) : MiscStore :=
  match sf s with
  | None => s
  | Some _ => if negb (sdirty s) then s else MkMisc (sf s) (sm s) false
  end.

(** ** The stamps kept in it *)

Definition vmKindKey : bytes := str "epochdb.vmkind".
Definition frontierFloorKey : bytes := str "epochdb.frontierfloor".

Definition BindVMKind (s : MiscStore) (kind : bytes) : res MiscStore :=
  match Get s vmKindKey with
  | Some cur => if negb (beqb cur kind) then Err "store: data dir was built by another VM" else Ok s
  | None => Put s vmKindKey kind
  end.

Definition FrontierFloor (s : MiscStore) : option Z :=
  match Get s frontierFloorKey with
  | Some v => if negb (len v =? 8) then None else Some (be_val v)
  | None => None
  end.
Definition SetFrontierFloor (s : MiscStore) (h : Z) : res MiscStore := Put s frontierFloorKey (bigE 8 h).

(** ** Operations in sequence *)

Inductive op := OpPut (k v : bytes) | OpDel (k : bytes).

Definition apply (s : MiscStore) (o : op) : res MiscStore :=
  match o with OpPut k v => Put s k v | OpDel k => Delete s k end.
Fixpoint run (s : MiscStore) (os : list op) : res MiscStore :=
  match os with [] => Ok s | o :: os => let* s := apply s o in run s os end.

Definition fresh : MiscStore := MkMisc (Some []) ∅ false.

(** Keys and values a slice can hold. *)
Definition op_ok (o : op) : Prop :=
  match o with OpPut k v => len k <= 2 ^ 48 /\ len v <= 2 ^ 48 | OpDel k => len k <= 2 ^ 48 end.

(** ** Reads of a whole record and of a part of one *)

(** Where the slice decoder succeeds the reader does, with what the slice has left. *)
Lemma ReadUvarint_slice r : forall k x s v n, (k <= 10)%nat ->
  uvarint_loop r (10 - Z.of_nat k) x s = (v, n) -> 0 < n ->
  ReadUvarint_loop k r x s = Ok (Some (v, drop (Z.to_nat (n - (10 - Z.of_nat k))) r)) /\ 10 - Z.of_nat k < n.
Proof.
  induction r as [|b r IH]; intros k x s v n Hk E Hn; cbn [uvarint_loop] in E; [by simplify_eq|].
  destruct k as [|k]; cbn [ReadUvarint_loop]; [change (10 - Z.of_nat 0) with 10 in E; cbn in E; simplify_eq; lia|].
  rewrite (proj2 (Z.eqb_neq _ 10)) in E by lia. destruct (b <? 128).
  - replace (10 - Z.of_nat (S k) =? 9) with ((S k =? 1)%nat) in E
      by (destruct (Nat.eqb_spec (S k) 1), (Z.eqb_spec (10 - Z.of_nat (S k)) 9); first [done|exfalso; lia]).
    destruct (_ && _); simplify_eq; [lia|]. split; [|lia].
    by replace (Z.to_nat _) with 1%nat by lia.
  - replace (10 - Z.of_nat (S k) + 1) with (10 - Z.of_nat k) in E by lia.
    apply IH in E as [E Hlt]; [|lia|lia]. rewrite E. split; [|lia].
    by replace (Z.to_nat (n - (10 - Z.of_nat (S k)))) with (S (Z.to_nat (n - (10 - Z.of_nat k)))) by lia.
Qed.

Lemma ReadUvarint_append v r : u64_ok v -> ReadUvarint (append_uvarint v ++ r) = Ok (Some (v, r)).
Proof.
  intros Hv. pose proof (append_uvarint_pos v).
  destruct (ReadUvarint_slice (append_uvarint v ++ r) 10 0 0 v (len (append_uvarint v))) as [E _]; [lia|by apply uvarint_append|lia|].
  unfold ReadUvarint. rewrite E, Z.sub_0_r, len_to_nat. by rewrite drop_app_length.
Qed.

(** What the reader consumed cannot be cut short without reaching the end of the file. *)
Lemma ReadUvarint_cut a : forall k r x s v, ReadUvarint_loop k (a ++ r) x s = Ok (Some (v, r)) ->
  forall p, p `prefix_of` a -> p <> a -> ReadUvarint_loop k p x s = Ok None.
Proof.
  induction a as [|b a IH]; intros k r x s v E p [q Hp] Hne.
  { symmetry in Hp. by apply app_eq_nil in Hp as [-> _]. }
  destruct k as [|k]; [done|]. cbn [app ReadUvarint_loop] in E. destruct p as [|c p]; [done|].
  cbn [app] in Hp. injection Hp as <- ->. cbn [ReadUvarint_loop].
  destruct (b <? 128).
  - destruct (_ && _); [done|]. injection E as _ E.
    apply (f_equal length) in E. rewrite !length_app in E. destruct p, q; [by rewrite app_nil_r in Hne|cbn in E; lia..].
  - eapply IH; [exact E|by eexists|congruence].
Qed.

Lemma read_make_app k r : len k <= 2 ^ 48 -> read_make (k ++ r) (len k) = Ok (Some (k, r)).
Proof.
  intros Hk. unfold read_make, Receipts.make_ok. rewrite (proj2 (Z.leb_le _ _)) by lia. cbn [negb].
  rewrite (proj2 (Z.ltb_ge _ _)) by lensimp. by rewrite len_to_nat, take_app_length, drop_app_length.
Qed.

Lemma read_make_cut k p : len k <= 2 ^ 48 -> p `prefix_of` k -> p <> k -> read_make p (len k) = Ok None.
Proof.
  intros Hk [q ->] Hne. unfold read_make, Receipts.make_ok. rewrite (proj2 (Z.leb_le _ _)) by lia. cbn [negb].
  rewrite (proj2 (Z.ltb_lt _ _)); [done|]. rewrite len_app. destruct q; [by rewrite app_nil_r in Hne|]. rewrite len_cons. lensimp.
Qed.

(** A prefix of [a ++ b] is a proper prefix of [a], or [a] and a prefix of [b]. *)
Lemma prefix_app_cases (a b p : bytes) :
  p `prefix_of` a ++ b -> p `prefix_of` a /\ p <> a \/ exists q, p = a ++ q /\ q `prefix_of` b.
Proof.
  intros [r E]. symmetry in E. apply app_eq_app in E as (l & [[-> ->]|[-> ->]]).
  - right. exists l. split; [done|]. by eexists.
  - destruct l as [|c l]; [right; exists []; rewrite !app_nil_r; split; [done|apply prefix_nil]|].
    left. split; [by eexists|]. intros E. apply (f_equal length) in E. rewrite length_app in E. cbn in E. lia.
Qed.

Definition enc (o : op) : bytes := match o with OpPut k v => put_record k v | OpDel k => del_record k end.
Definition effect (o : op) (m : gmap bytes bytes) : gmap bytes bytes :=
  match o with OpPut k v => <[k := v]> m | OpDel k => delete k m end.
Definition op_num (o : op) : Z := match o with OpPut _ _ => 0 | OpDel _ => 1 end.
Definition op_key (o : op) : bytes := match o with OpPut k _ => k | OpDel k => k end.
Definition op_val (o : op) : bytes := match o with OpPut _ v => v | OpDel _ => [] end.

Lemma read_whole o r pos : op_ok o -> 0 <= pos -> pos + len (enc o) < 2 ^ 64 ->
  readMiscRecord (enc o ++ r) pos = Ok (Some (pos + len (enc o), op_num o, op_key o, op_val o, r)).
Proof.
  intros Ho Hpos Hlen. destruct o as [k v|k]; cbn [enc op_ok op_num op_key op_val] in *; unfold put_record, del_record in *.
  - destruct Ho as [Hk Hv]. lens. pose proof (len_nonneg k). pose proof (len_nonneg v).
    pose proof (append_uvarint_pos (len k)). pose proof (append_uvarint_pos (len v)).
    cbn [app readMiscRecord]. rewrite <- !app_assoc.
    rewrite ReadUvarint_append by (split; lia). cbn [obind rbind]. rewrite read_make_app by done. cbn [obind rbind].
    rewrite ReadUvarint_append by (split; lia). cbn [obind rbind]. rewrite read_make_app by done. cbn [obind rbind].
    unfold uvarintLen. rewrite (u64_small (pos + 1 + _ + _)) by (split; lia). rewrite u64_small by (split; lia). do 6 f_equal. lia.
  - lens. pose proof (len_nonneg k). pose proof (append_uvarint_pos (len k)).
    cbn [app readMiscRecord]. rewrite <- !app_assoc.
    rewrite ReadUvarint_append by (split; lia). cbn [obind rbind]. rewrite read_make_app by done. cbn [obind rbind].
    unfold uvarintLen. rewrite u64_small by (split; lia). do 6 f_equal. lia.
Qed.

(** A length-prefixed field cut short ends the file. *)
Lemma field_cut {B} k t (p : bytes) (K : Z -> bytes * bytes -> res (option B)) : len k <= 2 ^ 48 ->
  p `prefix_of` append_uvarint (len k) ++ k ++ t -> p <> append_uvarint (len k) ++ k ++ t ->
  (forall q, q `prefix_of` t -> q <> t -> K (len k) (k, q) = Ok None) ->
  (let? (n, r) := ReadUvarint p in let? x := read_make r n in K n x) = Ok None.
Proof.
  intros Hk Hp Hne HK. pose proof (len_nonneg k). assert (Hu : u64_ok (len k)) by (split; lia).
  apply prefix_app_cases in Hp as [[Hp Hpn]|(q & -> & Hq)].
  { unfold ReadUvarint. rewrite (ReadUvarint_cut _ _ [] _ _ _ (ReadUvarint_append _ [] Hu) p Hp Hpn). done. }
  rewrite ReadUvarint_append by done. cbn [obind rbind].
  apply prefix_app_cases in Hq as [[Hq Hqn]|(q' & -> & Hq)].
  { by rewrite read_make_cut. }
  rewrite read_make_app by done. cbn [obind rbind]. apply HK; [done|]. intros ->. done.
Qed.

Lemma read_cut o p pos : op_ok o -> p `prefix_of` enc o -> p <> enc o -> readMiscRecord p pos = Ok None.
Proof.
  intros Ho Hp Hne. destruct p as [|c p]; [done|].
  destruct o as [k v|k]; cbn [enc] in *; unfold put_record, del_record in *;
    apply prefix_cons_inv_1 in Hp as Hc; apply prefix_cons_inv_2 in Hp; subst c; cbn [readMiscRecord].
  - destruct Ho as [Hk Hv].
    refine (field_cut k (append_uvarint (len v) ++ v) p _ Hk Hp _ _); [congruence|].
    intros q Hq Hqn. cbn [Z.eqb]. replace (append_uvarint (len v) ++ v) with (append_uvarint (len v) ++ v ++ []) in Hq, Hqn by (by rewrite app_nil_r).
    refine (field_cut v [] q _ Hv Hq Hqn _). intros q' Hq'. by apply prefix_nil_inv in Hq' as ->.
  - replace (append_uvarint (len k) ++ k) with (append_uvarint (len k) ++ k ++ []) in Hp, Hne by (by rewrite app_nil_r).
    refine (field_cut k [] p _ Ho Hp _ _); [congruence|]. intros q Hq. by apply prefix_nil_inv in Hq as ->.
Qed.

(** ** Recovery *)

(** An operation changes nothing, or appends its record. *)
Lemma apply_log s f o s' : sf s = Some f -> apply s o = Ok s' ->
  s' = s \/ sf s' = Some (f ++ enc o) /\ sm s' = effect o (sm s).
Proof.
  intros Hf H1. destruct o as [k v|k]; cbn [apply enc effect] in *; unfold Put, Delete in H1; rewrite Hf in H1.
  - destruct (sm s !! k) as [cur|]; [destruct (beqb cur v)|]; simplify_eq; cbn; auto.
  - destruct (sm s !! k); simplify_eq; cbn; auto.
Qed.

Lemma run_grows os : forall s f s', sf s = Some f -> run s os = Ok s' -> exists t, sf s' = Some (f ++ t).
Proof.
  induction os as [|o os IH]; intros s f s' Hf Hrun; cbn [run] in Hrun.
  - injection Hrun as <-. exists []. by rewrite app_nil_r.
  - apply rbind_Ok in Hrun as (s1 & H1 & Hrun). destruct (apply_log _ _ _ _ Hf H1) as [->|[Hf1 _]]; [eauto|].
    destruct (IH _ _ _ Hf1 Hrun) as [t Ht]. exists (enc o ++ t). by rewrite app_assoc.
Qed.

Lemma same_file (f fj : bytes) : Some f = Some (f ++ fj) -> fj = [].
Proof. intros [= E]. rewrite <- (app_nil_r f) in E at 1. by apply app_inv_head in E. Qed.

Lemma replay_one o r m fuel pos : op_ok o -> 0 <= pos -> pos + len (enc o) < 2 ^ 64 ->
  replay (S fuel) (enc o ++ r) m pos = replay fuel r (effect o m) (pos + len (enc o)).
Proof. intros. cbn [replay]. rewrite read_whole by done. cbn [rbind]. by destruct o. Qed.

(** Replaying what a crash left of the log that [os] wrote: the state after some of
    the operations, every whole record counted. *)
Definition recovers (s : MiscStore) (f0 : bytes) (os : list op) (p : bytes) (fuel : nat) (pos : Z) : Prop :=
  exists i si fi, (i <= length os)%nat /\ run s (take i os) = Ok si /\ sf si = Some (f0 ++ fi) /\
    replay fuel p (sm s) pos = Ok (sm si, pos + len fi) /\ fi `prefix_of` p /\
    (forall j sj fj, run s (take j os) = Ok sj -> sf sj = Some (f0 ++ fj) -> fj `prefix_of` p -> fj `prefix_of` fi).

Lemma recovers_none s f0 os p fuel pos : sf s = Some f0 -> replay fuel p (sm s) pos = Ok (sm s, pos) ->
  (forall j sj fj, run s (take j os) = Ok sj -> sf sj = Some (f0 ++ fj) -> fj `prefix_of` p -> fj = []) ->
  recovers s f0 os p fuel pos.
Proof.
  intros Hf Hr Hmax. exists 0%nat, s, []. cbn [take run]. rewrite app_nil_r, len_nil, Z.add_0_r.
  split_and!; try done; [lia|apply prefix_nil|]. intros j sj fj H1 H2 H3. by rewrite (Hmax j sj fj).
Qed.

Lemma replay_prefix os : forall s f0 s' tl p fuel pos,
  Forall op_ok os -> sf s = Some f0 -> run s os = Ok s' -> sf s' = Some (f0 ++ tl) -> p `prefix_of` tl ->
  0 <= pos -> pos + len tl < 2 ^ 64 -> (length p < fuel)%nat -> recovers s f0 os p fuel pos.
Proof.
  induction os as [|o os IH]; intros s f0 s' tl p fuel pos Hok Hf Hrun Hf' Hp Hpos Hlen Hfuel; cbn [run] in Hrun.
  { injection Hrun as <-. rewrite Hf in Hf'. apply same_file in Hf' as ->. apply prefix_nil_inv in Hp as ->.
    apply recovers_none; [done|by destruct fuel|]. intros j sj fj Hj _ Hfj. by apply prefix_nil_inv in Hfj. }
  apply Forall_cons in Hok as [Ho Hok]. apply rbind_Ok in Hrun as (s1 & H1 & Hrun).
  destruct (apply_log _ _ _ _ Hf H1) as [->|[Hf1 Hm1]].
  { destruct (IH s f0 s' tl p fuel pos) as (i & si & fi & Hi & G1 & G2 & G3 & G4 & G5); try done.
    exists (S i), si, fi. cbn [take run length]. rewrite H1. cbn [rbind]. split_and!; try done; [lia|].
    intros [|j] sj fj; cbn [take run].
    - intros [= <-] Hsj _. rewrite Hf in Hsj. apply same_file in Hsj as ->. apply prefix_nil.
    - rewrite H1. apply G5. }
  destruct (run_grows _ _ _ _ Hf1 Hrun) as [tl' Htl]. rewrite Hf', <- app_assoc in Htl. injection Htl as Htl.
  apply app_inv_head in Htl as ->. pose proof (len_nonneg tl'). lens. rewrite app_assoc in Hf'.
  destruct fuel as [|fuel]; [lia|].
  assert (Hlater : forall j sj fj, run s1 (take j os) = Ok sj -> sf sj = Some (f0 ++ fj) -> exists g, fj = enc o ++ g /\ sf sj = Some ((f0 ++ enc o) ++ g)).
  { intros j sj fj Hj Hsj. destruct (run_grows _ _ _ _ Hf1 Hj) as [g Hg]. exists g. split; [|done].
    rewrite Hsj, <- app_assoc in Hg. injection Hg as Hg. by apply app_inv_head in Hg. }
  apply prefix_app_cases in Hp as [[Hp Hpn]|(q & -> & Hq)].
  - apply recovers_none; [done|cbn [replay]; by rewrite (read_cut o)|]. intros [|j] sj fj; cbn [take run].
    + intros [= <-] Hsj _. rewrite Hf in Hsj. by apply same_file in Hsj.
    + rewrite H1. cbn [rbind]. intros Hj Hsj Hfj. destruct (Hlater _ _ _ Hj Hsj) as (g & -> & _). exfalso. apply Hpn.
      apply prefix_length_eq; [done|]. apply prefix_length in Hfj. rewrite length_app in Hfj. lia.
  - rewrite length_app in Hfuel. assert (0 < length (enc o))%nat by (destruct o; cbn; lia).
    destruct (IH s1 (f0 ++ enc o) s' tl' q fuel (pos + len (enc o))) as (i & si & fi & Hi & G1 & G2 & G3 & G4 & G5); try done; [lensimp..|lia|].
    exists (S i), si, (enc o ++ fi). cbn [take run length]. rewrite H1, app_assoc, len_app, Z.add_assoc. cbn [rbind].
    split_and!; try done; [lia| |by apply prefix_app|].
    + rewrite replay_one by (done || lia). by rewrite <- Hm1.
    + intros [|j] sj fj; cbn [take run].
      * intros [= <-] Hsj _. rewrite Hf in Hsj. apply same_file in Hsj as ->. apply prefix_nil.
      * rewrite H1. cbn [rbind]. intros Hj Hsj Hfj. destruct (Hlater _ _ _ Hj Hsj) as (g & -> & Hg).
        apply prefix_app, (G5 j sj); [done|done|]. by apply prefix_app_inv in Hfj.
Qed.

(** C23: a crash loses only the end of the misc log. Whatever prefix of the file
    survives, [OpenMisc] comes back without an error, with the map and the file of
    the store after some prefix of the puts and deletes, and that prefix counts
    every operation whose record was whole on disk. *)
Theorem misc_recovers os s f p :
  Forall op_ok os -> run fresh os = Ok s -> sf s = Some f -> len f < 2 ^ 63 -> p `prefix_of` f ->
  exists i si fi, (i <= length os)%nat /\ run fresh (take i os) = Ok si /\ sf si = Some fi /\
    OpenMisc p = Ok (MkMisc (Some fi) (sm si) false) /\ fi `prefix_of` p /\
    (forall j sj fj, run fresh (take j os) = Ok sj -> sf sj = Some fj -> fj `prefix_of` p -> fj `prefix_of` fi).
Proof.
  intros Hok Hrun Hf Hlen Hp.
  destruct (replay_prefix os fresh [] s f p (S (length p)) 0) as (i & si & fi & Hi & G1 & G2 & G3 & G4 & G5); try done; [lia..|].
  exists i, si, fi. split_and!; try done. unfold OpenMisc. cbn [sm fresh] in G3. rewrite G3. cbn [rbind].
  assert (len fi <= len p < 2 ^ 63) as Hfi.
  { apply prefix_length in G4, Hp. unfold len in *. lia. }
  pose proof (len_nonneg fi). rewrite i64_small by lia. unfold Truncate. rewrite (proj2 (Z.ltb_ge _ _)) by lia. cbn [rbind].
  destruct G4 as [t ->]. rewrite Z.add_0_l, len_to_nat, take_app_length, length_app.
  replace (length fi - (length fi + length t))%nat with 0%nat by lia. by rewrite app_nil_r.
Qed.

Lemma misc_recovers_witness : exists i si fi,
  run fresh (take i [OpPut [1] [2;3]; OpPut [1] [2;3]; OpDel [1]]) = Ok si /\ sf si = Some fi /\
  OpenMisc [0; 1; 1; 2; 2; 3; 1] = Ok (MkMisc (Some fi) (sm si) false).
Proof.
  destruct (misc_recovers [OpPut [1] [2;3]; OpPut [1] [2;3]; OpDel [1]]
    (MkMisc (Some [0; 1; 1; 2; 2; 3; 1; 1; 1]) ∅ true) [0; 1; 1; 2; 2; 3; 1; 1; 1] [0; 1; 1; 2; 2; 3; 1])
    as (i & si & fi & _ & H1 & H2 & H3 & _ & _).
  - repeat constructor; vm_compute; congruence.
  - vm_compute. reflexivity.
  - reflexivity.
  - vm_compute. reflexivity.
  - by exists [1; 1].
  - by exists i, si, fi.
Defined.

End Misc.
