(* ===== verification/Dist.v ===== *)
(** * dist/dist.go, dist/upstream.go: the artifact store

    A store is a data directory with three places: the spool (uploaded by [Sync]),
    the local directory (never uploaded) and the pointers. A directory is a map
    from file names to bytes; file operations succeed. casfs, another repository,
    is the class [Casfs]: the hasher that names a content and the tail it appends,
    the length a tail records, and a store over a bucket; [CasfsLaws] is what its
    documentation promises of them. Caches, mappings and reference counts of
    handles have no part in the bytes read and are left out. *)

From S2P Require Import Prelude Bytes Rows Ef Format Sha256 Container Memtable MemRecover MemRead Sst RunFile Postings Seal DB.

Module Dist.

(** ** Text: the parts of package strings the pointer codec uses *)

(** The UTF-8 encodings of the runes unicode.IsSpace holds of. *)
Definition spaces : list bytes :=
  [[9]; [10]; [11]; [12]; [13]; [32]; [194; 133]; [194; 160]; [225; 154; 128];
   [226; 128; 128]; [226; 128; 129]; [226; 128; 130]; [226; 128; 131]; [226; 128; 132]; [226; 128; 133];
   [226; 128; 134]; [226; 128; 135]; [226; 128; 136]; [226; 128; 137]; [226; 128; 138];
   [226; 128; 168]; [226; 128; 169]; [226; 128; 175]; [226; 129; 159]; [227; 128; 128]].

(** The length of the space rune at the head of [b], of those in [sp]. *)
Definition space_at (sp : list bytes) (b : bytes) : option nat :=
  match List.find (has_prefix b) sp with Some s => Some (length s) | None => None end.

Fixpoint strip (fuel : nat) (sp : list bytes) (b : bytes) : bytes :=
  match fuel with
  | O => b
  | S fuel => match space_at sp b with Some k => strip fuel sp (drop k b) | None => b end
  end.
Definition trim_left (b : bytes) : bytes := strip (length b) spaces b.
Definition trim_right (b : bytes) : bytes := reverse (strip (length b) (map (@reverse Z) spaces) (reverse b)).
Definition TrimSpace (b : bytes) : bytes := trim_right (trim_left b).

(** strings.Split(s, sep) for a one-byte separator. *)
Fixpoint Split (sep : Z) (b : bytes) : list bytes :=
  match b with
  | [] => [[]]
  | c :: b => if c =? sep then [] :: Split sep b
              else match Split sep b with l :: ls => (c :: l) :: ls | [] => [[c]] end
  end.

(** strings.Fields *)
Fixpoint fields (fuel : nat) (b cur : bytes) : list bytes :=
  match fuel with
  | O => []
  | S fuel =>
      match b with
      | [] => if bool_decide (cur = []) then [] else [cur]
      | c :: b' =>
          match space_at spaces b with
          | Some k => (if bool_decide (cur = []) then [] else [cur]) ++ fields fuel (drop k b) []
          | None => fields fuel b' (cur ++ [c])
          end
      end
  end.
Definition Fields (b : bytes) : list bytes := fields (S (length b)) b [].

Definition HasSuffix (b s : bytes) : bool := has_prefix (reverse b) (reverse s).

(** ** Names and pointers *)

Definition hex_lower (c : Z) : bool := ((48 <=? c) && (c <=? 57)) || ((97 <=? c) && (c <=? 102)).
Definition ValidHash (s : bytes) : bool := (len s =? 2 * 32) && forallb hex_lower s.

Definition LatestPointer (chainRoot : bytes) : bytes := str "latest-" ++ DB.hexName chainRoot.

(** [Latest]: the name of the newest manifest. *)
Definition encode (manifest : bytes) : bytes :=
  if bool_decide (manifest = []) then [] else str "manifest " ++ manifest ++ [10].

Fixpoint decode_lines (ls : list bytes) (l : bytes) : res bytes :=
  match ls with
  | [] => Ok l
  | line :: ls =>
      match Fields line with
      | [] => decode_lines ls l
      | [f0; f1] =>
          if negb (ValidHash f1) then Err "dist: bad latest pointer line"
          else if beqb f0 (str "manifest") then decode_lines ls f1
          else Err "dist: unknown latest pointer field"
      | _ => Err "dist: bad latest pointer line"
      end
  end.
Definition decodeLatest (s : bytes) : res bytes :=
  if bool_decide (TrimSpace s = []) then Err "dist: latest pointer is empty"
  else decode_lines (Split 10 (TrimSpace s)) [].

(** ** casfs *)

Abbreviation dir := (gmap bytes bytes).

Class Casfs := {
  cas_Finish : bytes -> res (bytes * bytes);       (* a Hasher over the content: its name and its tail *)
  cas_ReadTail : bytes -> res Z;                   (* the content length of a sealed file *)
  cas_remote : Type;                               (* a casfs.Store: the bucket and what the process knows of it *)
  cas_ptrs : Type;                                 (* the pointer directory of the spool *)
  cas_file : Type;
  cas_Open : cas_remote -> dir -> bytes -> res cas_file;
  cas_Size : cas_file -> Z;
  cas_ReadAt : cas_file -> Z -> Z -> res bytes;    (* [n] bytes at [off] *)
  cas_Sync : cas_remote -> dir -> cas_ptrs -> cas_remote * list bytes * option string;
  cas_Release : cas_remote -> dir -> bytes -> dir * option string;
  cas_SetPointer : cas_remote -> cas_ptrs -> bytes -> bytes -> res (cas_remote * cas_ptrs);
  cas_WriteSpoolPointer : cas_ptrs -> bytes -> bytes -> res cas_ptrs;
  cas_GetPointer : cas_remote -> bytes -> res (option bytes);   (* [None]: fs.ErrNotExist *)
  cas_PrefixHasObjects : cas_remote -> res bool }.

(** A name is a hash; a tail gives back its content's length; a file that opens was
    verified against its name, and so is every range read from it; releasing only
    unlinks. *)
Class CasfsLaws `{Casfs} := {
  finish_name b n t : cas_Finish b = Ok (n, t) -> ValidHash n = true;
  readTail_sealed b n t : cas_Finish b = Ok (n, t) -> cas_ReadTail (b ++ t) = Ok (len b);
  open_verified r sp n f : cas_Open r sp n = Ok f ->
    exists b t, cas_Finish b = Ok (n, t) /\ cas_Size f = len b /\
    forall off k p, 0 <= off -> 0 <= k -> off + k <= len b -> cas_ReadAt f off k = Ok p -> p = take (Z.to_nat k) (drop (Z.to_nat off) b);
  release_unlinks r sp n : (cas_Release r sp n).1 ⊆ sp }.

(** ** The store *)

Section Store.
Context `{Casfs}.

Record Store := MkStore { spool : dir; local : dir; ptrs : dir; sptrs : cas_ptrs; cas : option cas_remote }.

Definition Remote (s : Store) : bool := match cas s with Some _ => true | None => false end.

(** os.ReadDir lists names in ascending order. *)
Definition names (d : dir) : list bytes := merge_sort ble (map_to_list d).*1.

(** [LocalPath], [None] being the empty path. *)
Definition LocalPath (s : Store) (hash : bytes) : option bytes :=
  if negb (ValidHash hash) then None else List.find (fun e => HasSuffix e hash) (names (local s)).

Definition rename (d : dir) (from to : bytes) : res dir :=
  match d !! from with None => Err "no such file or directory" | Some f => Ok (<[to := f]> (delete from d)) end.

(** [writeDurable]: the temporary file, then the rename over [path]. *)
Definition writeDurable (d : dir) (path : bytes) (b : bytes) : res dir :=
  let tmp := path ++ str ".tmp" in rename (<[tmp := b]> d) tmp path.

Definition seal (d : dir) (path h : bytes) : res (dir * bytes) :=
  let* (name, tail) := cas_Finish h in
  match d !! path with
  | None => Err "no such file or directory"
  | Some f => Ok (<[path := f ++ tail]> d, name)
  end.

(** The directory is replaced in place; [h] is what the Hasher was given. *)
Definition AdoptLocal (s : Store) (path label h : bytes) : res (Store * bytes) :=
  let* (d, name) := seal (local s) path h in
  let* d := rename d path (label ++ str "-" ++ name) in
  Ok (MkStore (spool s) d (ptrs s) (sptrs s) (cas s), name).

Definition DropLocal (s : Store) (hash : bytes) : Store :=
  match LocalPath s hash with
  | None => s
  | Some p => MkStore (spool s) (delete p (local s)) (ptrs s) (sptrs s) (cas s)
  end.

Definition Put (s : Store) (b : bytes) : res (Store * bytes) :=
  let* (name, tail) := cas_Finish b in
  let* d := writeDurable (spool s) name (b ++ tail) in
  Ok (MkStore d (local s) (ptrs s) (sptrs s) (cas s), name).

Definition Adopt (s : Store) (path h : bytes) : res (Store * bytes) :=
  let* (d, name) := seal (spool s) path h in
  let* d := rename d path name in
  Ok (MkStore d (local s) (ptrs s) (sptrs s) (cas s), name).

(** The names released, and the error if there was one. *)
Fixpoint release_all (r : cas_remote) (sp : dir) (done : list bytes) (err : option string) : dir * list bytes * option string :=
  match done with
  | [] => (sp, [], err)
  | h :: done =>
      let '(sp, rerr) := cas_Release r sp h in
      match rerr with
      | Some e => release_all r sp done (Some e)
      | None => let '(sp, rel, err) := release_all r sp done err in (sp, h :: rel, err)
      end
  end.
Definition Sync (s : Store) : Store * list bytes * option string :=
  match cas s with
  | None => (s, [], None)
  | Some r =>
      let '(r, done, err) := cas_Sync r (spool s) (sptrs s) in
      let '(sp, released, err) := release_all r (spool s) done err in
      (MkStore sp (local s) (ptrs s) (sptrs s) (Some r), released, err)
  end.

(** ** Reading *)

Inductive Blob := Mapped (mm : bytes) | Cached (f : cas_file).

Definition mmapArtifact (d : dir) (path : bytes) : res Blob :=
  match d !! path with
  | None => Err "no such file or directory"
  | Some f =>
      let* size := cas_ReadTail f in
      if size =? 0 then Ok (Mapped []) else let* mm := slice f 0 size in Ok (Mapped mm)
  end.

Definition Open (s : Store) (hash : bytes) : res Blob :=
  match LocalPath s hash with
  | Some p => mmapArtifact (local s) p
  | None =>
      match cas s with
      | None => mmapArtifact (spool s) hash
      | Some r => let* f := cas_Open r (spool s) hash in Ok (Cached f)
      end
  end.

Definition Size (b : Blob) : Z := match b with Mapped mm => len mm | Cached f => cas_Size f end.

Definition bounds (b : Blob) (off n : Z) : res unit :=
  if (Size b <? off) || (Size b - off <? n) then Err "dist: range outside the artifact" else Ok tt.

Definition Read (b : Blob) (off n : Z) : res bytes :=
  let* _ := bounds b off n in
  if n =? 0 then Ok []
  else match b with
       | Mapped mm => slice mm off (off + n)
       | Cached f => cas_ReadAt f off n
       end.

(** ** Pointers *)

Definition GetPointer (s : Store) (name : bytes) : res (option bytes) :=
  match ptrs s !! name with
  | Some v => Ok (Some v)
  | None => match cas s with None => Ok None | Some r => cas_GetPointer r name end
  end.

Definition SetPointer (s : Store) (name value : bytes) : res Store :=
  let* d := writeDurable (ptrs s) name value in
  match cas s with
  | Some r => let* (r, p) := cas_SetPointer r (sptrs s) name value in Ok (MkStore (spool s) (local s) d p (Some r))
  | None => let* p := cas_WriteSpoolPointer (sptrs s) name value in Ok (MkStore (spool s) (local s) d p None)
  end.

(** [None]: the pointer does not exist. *)
Definition Latest (s : Store) (chainRoot : bytes) : res (option bytes) :=
  let* v := GetPointer s (LatestPointer chainRoot) in
  match v with None => Ok None | Some v => let* l := decodeLatest v in Ok (Some l) end.

Definition SetLatest (s : Store) (chainRoot manifest : bytes) : res Store :=
  SetPointer s (LatestPointer chainRoot) (encode manifest).

Definition PrefixHasObjects (s : Store) : res bool :=
  match cas s with None => Ok false | Some r => cas_PrefixHasObjects r end.

End Store.

(** ** dist/upstream.go *)

(** [Sources] *)
Definition Sources (list_ : bytes) : list bytes :=
  List.filter (fun s => negb (bool_decide (s = []))) (map TrimSpace (Split 44 list_)).

Definition upstreamRounds : nat := 9.
Definition upstreamBackoff : Z := 250000000.
Definition upstreamMaxWait : Z := 60000000000.

(** [Jitter]: [r] is rand.N(d/2), which lies below its bound. *)
Definition Jitter (d r : Z) : Z := d - d / 4 + r.

(** The wait after a failed round. *)
Definition wait (round : nat) (r : Z) : Z := Jitter (Z.min (Z.shiftl upstreamBackoff (Z.of_nat round)) upstreamMaxWait) r.

(** [Try]: [fn round src] is the call's outcome, [rnd] the random draws, [gone] whether
    the context ends during a wait. The waits made so far come back with the answer. *)
Fixpoint try_rounds (fuel round : nat) (sources : list bytes) (fn : nat -> bytes -> bool) (rnd : nat -> Z) (gone : nat -> bool) (waits : list Z) : res unit * list Z :=
  match fuel with
  | O => (Err "fuel", waits)
  | S fuel =>
      if existsb (fn round) sources then (Ok tt, waits)
      else if (upstreamRounds - 1 <=? round)%nat then (Err "gave up", waits)
      else let w := wait round (rnd round) in
           if gone round then (Err "context", waits ++ [w])
           else try_rounds fuel (S round) sources fn rnd gone (waits ++ [w])
  end.
Definition Try (sources : list bytes) (fn : nat -> bytes -> bool) (rnd : nat -> Z) (gone : nat -> bool) : res unit * list Z :=
  match sources with
  | [] => (Err "no upstream source configured", [])
  | _ => try_rounds upstreamRounds 0 sources fn rnd gone []
  end.

(** ** Lemmas: text *)

(** A printable ASCII byte other than a space: no space rune starts or ends with it. *)
Definition plain (c : Z) : bool := (33 <=? c) && (c <=? 126).

Lemma space_at_plain sp c b : forallb (fun s => match s with x :: _ => negb (plain x) | [] => false end) sp = true ->
  plain c = true -> space_at sp (c :: b) = None.
Proof.
  intros Hsp Hc. unfold space_at. destruct (List.find _ sp) as [s|] eqn:E; [|done].
  apply find_some in E as [Hin Hp]. apply (proj1 (forallb_forall _ _) Hsp) in Hin.
  destruct s as [|x s]; [done|]. cbn [has_prefix] in Hp. apply andb_true_iff in Hp as [Hx _]. apply Z.eqb_eq in Hx as ->.
  by rewrite Hc in Hin.
Qed.

Lemma strip_plain fuel sp c b : forallb (fun s => match s with x :: _ => negb (plain x) | [] => false end) sp = true ->
  plain c = true -> strip fuel sp (c :: b) = c :: b.
Proof. intros Hsp Hc. destruct fuel; [done|]. cbn [strip]. by rewrite space_at_plain. Qed.

Lemma fields_plain p : forall fuel r cur, forallb plain p = true ->
  fields (length p + fuel) (p ++ r) cur = fields fuel r (cur ++ p).
Proof.
  induction p as [|c p IH]; intros fuel r cur Hp; [by rewrite app_nil_r|]. cbn [forallb] in Hp. apply andb_true_iff in Hp as [Hc Hp].
  cbn [length Nat.add app fields]. rewrite space_at_plain by done. rewrite IH by done. by rewrite <- app_assoc.
Qed.

Lemma Split_no sep p : forallb (fun c => negb (c =? sep)) p = true -> Split sep p = [p].
Proof.
  induction p as [|c p IH]; intros Hp; [done|]. cbn [forallb] in Hp. apply andb_true_iff in Hp as [Hc Hp].
  cbn [Split]. apply negb_true_iff in Hc as ->. by rewrite IH.
Qed.

Lemma hex_plain c : hex_lower c = true -> plain c = true.
Proof. unfold hex_lower, plain. ztests. Qed.

Lemma forallb_impl {A} (P Q : A -> bool) l : (forall x, P x = true -> Q x = true) -> forallb P l = true -> forallb Q l = true.
Proof. rewrite !forallb_forall. auto. Qed.

Lemma ValidHash_plain h : ValidHash h = true -> forallb plain h = true.
Proof. intros Hh. apply andb_true_iff in Hh as [_ Hh]. revert Hh. apply forallb_impl, hex_plain. Qed.

Lemma ValidHash_hexName b : length b = 32%nat -> Forall byte_ok b -> ValidHash (DB.hexName b) = true.
Proof.
  intros Hl Hb. apply andb_true_iff. split.
  - apply Z.eqb_eq. change (2 * 32) with (2 * Z.of_nat 32). rewrite <- Hl. clear. induction b as [|x b IH]; [done|]. unfold DB.hexName in *. cbn [map concat app]. rewrite !len_cons, IH. cbn [length]. lia.
  - clear Hl. induction Hb as [|x b Hx Hb IH]; [done|]. unfold DB.hexName in *. cbn [map concat app forallb]. rewrite IH, andb_true_r.
    assert (G : forall y, 0 <= y < 16 -> hex_lower (DB.hex_char y) = true).
    { intros y Hy. unfold hex_lower, DB.hex_char. destruct (Z.ltb_spec y 10); ztests. }
    destruct Hx. rewrite !G; [done|apply Z.mod_pos_bound; lia|]. split; [apply Z.div_pos; lia|apply Z.div_lt_upper_bound; lia].
Qed.

(** ** The pointer *)

Lemma trim_right_nl p x : plain x = true -> trim_right ((p ++ [x]) ++ [10]) = p ++ [x].
Proof.
  intros Hx. unfold trim_right. rewrite length_app, Nat.add_1_r. rewrite reverse_snoc. cbn [strip].
  replace (space_at (map (@reverse Z) spaces) (10 :: reverse (p ++ [x]))) with (Some 1%nat) by reflexivity.
  rewrite skipn_cons, drop_0, reverse_snoc, strip_plain by done. by rewrite <- reverse_snoc, reverse_involutive.
Qed.

Lemma trim_pointer h : ValidHash h = true -> TrimSpace (str "manifest " ++ h ++ [10]) = str "manifest " ++ h.
Proof.
  intros Hh. pose proof (ValidHash_plain _ Hh) as Hp. apply andb_true_iff in Hh as [Hl _]. apply Z.eqb_eq in Hl.
  destruct h as [|x h _] using rev_ind; [done|]. rewrite forallb_app in Hp. apply andb_true_iff in Hp as [_ Hx].
  cbn [forallb] in Hx. rewrite andb_true_r in Hx.
  unfold TrimSpace, trim_left. replace (strip _ _ _) with (str "manifest " ++ (h ++ [x]) ++ [10]).
  - rewrite app_assoc, (app_assoc _ h [x]). by apply trim_right_nl.
  - change (str "manifest ") with (109 :: str "anifest "). cbn [app]. by rewrite strip_plain.
Qed.

Lemma fields_pointer h : ValidHash h = true -> Fields (str "manifest " ++ h) = [str "manifest"; h].
Proof.
  intros Hh. pose proof (ValidHash_plain _ Hh) as Hp. unfold Fields.
  replace (S (length (str "manifest " ++ h))) with (length (str "manifest") + (S (length h + 1)))%nat by (rewrite length_app; cbn; lia).
  change (str "manifest " ++ h) with (str "manifest" ++ 32 :: h). rewrite fields_plain by done. cbn [fields].
  replace (space_at spaces (32 :: h)) with (Some 1%nat) by reflexivity. cbn [drop app].
  rewrite drop_0. rewrite <- (app_nil_r h) at 2. rewrite fields_plain by done. cbn [app fields].
  rewrite !bool_decide_eq_false_2; [done| |done]. intros ->. done.
Qed.

Lemma head_space_prefix a r : space_at spaces (a ++ r) = None -> space_at spaces a = None.
Proof.
  unfold space_at. destruct (List.find (has_prefix (a ++ r)) spaces) eqn:E; [done|]. intros _.
  destruct (List.find (has_prefix a) spaces) as [s|] eqn:E'; [|done]. apply find_some in E' as [Hin Hs].
  apply has_prefix_spec in Hs as [t ->]. pose proof (find_none _ _ E _ Hin) as Hn. cbn in Hn.
  by rewrite <- app_assoc, has_prefix_app in Hn.
Qed.

Lemma space_at_pos sp b k : forallb (fun s => negb (bool_decide (s = []))) sp = true -> space_at sp b = Some k -> (0 < k <= length b)%nat.
Proof.
  intros Hsp. unfold space_at. destruct (List.find _ sp) as [s|] eqn:E; [|done]. intros [= <-].
  apply find_some in E as [Hin Hs]. apply has_prefix_spec in Hs as [t ->]. rewrite length_app.
  apply (proj1 (forallb_forall _ _) Hsp) in Hin. destruct s; [done|]. cbn. lia.
Qed.

Lemma strip_stops sp : forallb (fun s => negb (bool_decide (s = []))) sp = true -> forall fuel b,
  (length b <= fuel)%nat -> strip fuel sp b = [] \/ space_at sp (strip fuel sp b) = None.
Proof.
  intros Hsp. induction fuel as [|fuel IH]; intros b Hb; cbn [strip]; [left; by destruct b; cbn in Hb; [|lia]|].
  destruct (space_at sp b) as [k|] eqn:E; [|by right]. apply IH. rewrite length_drop. apply space_at_pos in E; [lia|done].
Qed.

Lemma strip_suffix sp fuel : forall b, exists p, b = p ++ strip fuel sp b.
Proof.
  induction fuel as [|fuel IH]; intros b; cbn [strip]; [by exists []|]. destruct (space_at sp b) as [k|]; [|by exists []].
  destruct (IH (drop k b)) as [p Hp]. exists (take k b ++ p). by rewrite <- app_assoc, <- Hp, take_drop.
Qed.

(** What is left after trimming starts with no space. *)
Lemma TrimSpace_head b : TrimSpace b = [] \/ space_at spaces (TrimSpace b) = None.
Proof.
  destruct (decide (TrimSpace b = [])) as [|Hne]; [by left|]. right.
  destruct (strip_suffix (map (@reverse Z) spaces) (length (trim_left b)) (reverse (trim_left b))) as [p Hp].
  assert (E : trim_left b = TrimSpace b ++ reverse p).
  { unfold TrimSpace, trim_right. by rewrite <- reverse_app, <- Hp, reverse_involutive. }
  apply (head_space_prefix _ (reverse p)). rewrite <- E.
  destruct (strip_stops spaces eq_refl (length b) b) as [H0|H0]; [done| |done].
  exfalso. apply Hne. unfold trim_left in E. rewrite H0 in E. symmetry in E. by apply app_eq_nil in E as [-> _].
Qed.

Lemma fields_nonempty fuel : forall b cur, (length b < fuel)%nat -> cur <> [] -> fields fuel b cur <> [].
Proof.
  induction fuel as [|fuel IH]; intros b cur Hf Hc; [lia|]. cbn [fields]. destruct b as [|c b]; [by rewrite bool_decide_eq_false_2|].
  destruct (space_at spaces (c :: b)); [by rewrite bool_decide_eq_false_2|]. apply IH; [cbn in Hf; lia|by destruct cur].
Qed.

Lemma Split_head sep b : exists l ls, Split sep b = l :: ls /\ l `prefix_of` b /\ (l = [] -> b = [] \/ head b = Some sep).
Proof.
  induction b as [|c b (l & ls & E & Hp & _)]; [exists [], []; split_and!; auto; apply prefix_nil|]. cbn [Split].
  destruct (Z.eqb_spec c sep) as [->|]; [exists [], (Split sep b); split_and!; auto; apply prefix_nil|].
  rewrite E. exists (c :: l), ls. split_and!; [done|by apply prefix_cons|done].
Qed.

Lemma decode_lines_valid ls : forall l m, decode_lines ls l = Ok m -> ValidHash l = true -> ValidHash m = true.
Proof.
  induction ls as [|line ls IH]; intros l m E Hl; cbn [decode_lines] in E; [congruence|].
  destruct (Fields line) as [|f0 [|f1 [|]]]; try done; [eauto|]. destruct (ValidHash f1) eqn:Ev; [|done]. cbn [negb] in E.
  destruct (beqb _ _); [eauto|done].
Qed.

Lemma pointer_decodes m : ValidHash m = true -> decodeLatest (encode m) = Ok m.
Proof.
  intros Hm. unfold encode. rewrite bool_decide_eq_false_2 by (intros ->; done).
  unfold decodeLatest. rewrite trim_pointer by done. rewrite bool_decide_eq_false_2 by done.
  rewrite Split_no.
  - cbn [decode_lines]. by rewrite fields_pointer, Hm by done.
  - rewrite forallb_app. apply andb_true_iff. split; [done|]. apply ValidHash_plain in Hm. revert Hm. apply forallb_impl.
    intros x. unfold plain. ztests.
Qed.

(** a pointer never names nothing. Whatever text is read back, decoding it is an
    error or yields a well-formed hash, so a torn or empty pointer is never taken
    for a chain without runs; and the text written for a hash reads back as it. *)
Theorem latest_pointer_sound :
  (forall s m, decodeLatest s = Ok m -> ValidHash m = true) /\
  (forall m, ValidHash m = true -> decodeLatest (encode m) = Ok m).
Proof.
  split.
  - intros s m. unfold decodeLatest. case_bool_decide as Hne; [done|].
    destruct (TrimSpace_head s) as [|Hsp]; [done|].
    destruct (Split_head 10 (TrimSpace s)) as (l & ls & -> & [r Hr] & Hnil). cbn [decode_lines].
    assert (Hl : l <> []). { intros ->. destruct Hnil as [|Hh]; [done..|]. destruct (TrimSpace s) as [|c t]; [done|]. injection Hh as ->. done. }
    assert (Hf : Fields l <> []).
    { rewrite Hr in Hsp. apply head_space_prefix in Hsp. destruct l as [|c l]; [done|]. unfold Fields. cbn [length].
      remember (S (length l)) as n eqn:En. cbn [fields]. rewrite Hsp. apply fields_nonempty; [lia|done]. }
    destruct (Fields l) as [|f0 [|f1 [|]]]; try done. destruct (ValidHash f1) eqn:Ev; [|done]. cbn [negb].
    destruct (beqb _ _); [|done]. intros E. by apply decode_lines_valid in E.
  - exact pointer_decodes.
Qed.

Definition sample_hash : bytes := DB.hexName (replicate 32 171).

Lemma latest_pointer_sound_witness : ValidHash sample_hash = true /\ decodeLatest (encode sample_hash) = Ok sample_hash.
Proof. assert (E : ValidHash sample_hash = true) by (vm_compute; reflexivity). split; [exact E|]. by apply (proj2 latest_pointer_sound). Defined.

(** ** The retry budget *)

(** What rand.N can draw for each round. *)
Definition draws (rnd : nat -> Z) : Prop :=
  forall k, (k < 8)%nat -> 0 <= rnd k < Z.min (Z.shiftl upstreamBackoff (Z.of_nat k)) upstreamMaxWait / 2.

Lemma wait_bounds rnd k : draws rnd -> (k < 8)%nat -> 0 < wait k (rnd k) <= 312500000 * 2 ^ Z.of_nat k.
Proof.
  intros Hd Hk. specialize (Hd k Hk). unfold wait, Jitter. revert Hd. rewrite Z.shiftl_mul_pow2 by lia.
  assert (1 <= 2 ^ Z.of_nat k <= 128).
  { change 128 with (2 ^ 7). split; [change 1 with (2 ^ 0)|]; apply Z.pow_le_mono_r; lia. }
  unfold upstreamBackoff, upstreamMaxWait. rewrite Z.min_l by lia.
  replace (250000000 * 2 ^ Z.of_nat k) with (62500000 * 2 ^ Z.of_nat k * 4) by lia. rewrite Z.div_mul by lia.
  replace (62500000 * 2 ^ Z.of_nat k * 4 / 2) with (125000000 * 2 ^ Z.of_nat k); [lia|].
  replace (62500000 * 2 ^ Z.of_nat k * 4) with (125000000 * 2 ^ Z.of_nat k * 2) by lia. by rewrite Z.div_mul by lia.
Qed.

Definition total (l : list Z) : Z := foldr Z.add 0 l.
Lemma total_snoc l x : total (l ++ [x]) = total l + x.
Proof. unfold total. induction l as [|y l IH]; cbn [app foldr]; lia. Qed.

Lemma try_rounds_spec sources fn rnd gone : draws rnd -> forall fuel round ws r ws',
  (fuel + round = 9)%nat -> (0 < fuel)%nat -> length ws = round -> total ws <= 312500000 * (2 ^ Z.of_nat round - 1) ->
  try_rounds fuel round sources fn rnd gone ws = (r, ws') ->
  (length ws' <= 8)%nat /\ total ws' <= 312500000 * 255 /\
  (r = Ok tt <-> exists k, (round <= k < 9)%nat /\ existsb (fn k) sources = true /\ forall j, (round <= j < k)%nat -> gone j = false).
Proof.
  intros Hd. induction fuel as [|fuel IH]; intros round ws r ws' Hf Hpos Hl Ht E; [lia|]. cbn [try_rounds] in E.
  assert (Hw : forall n, (n <= 8)%nat -> 2 ^ Z.of_nat n <= 256) by (intros n Hn; change 256 with (2 ^ 8); apply Z.pow_le_mono_r; lia).
  pose proof (Hw round ltac:(lia)).
  destruct (existsb (fn round) sources) eqn:Es.
  { injection E as <- <-. split_and!; [lia|lia|]. split; [|done]. intros _. exists round. split_and!; [lia|lia|done|]. lia. }
  destruct (Nat.leb_spec (upstreamRounds - 1) round) as [Hge|Hlt]; unfold upstreamRounds in *.
  { injection E as <- <-. split_and!; [lia|lia|]. split; [done|]. intros (k & Hk & Hs & _). assert (k = round) as -> by lia. congruence. }
  pose proof (wait_bounds rnd round Hd ltac:(lia)) as Hb. pose proof (Hw (S round) ltac:(lia)) as Hw'.
  assert (2 ^ Z.of_nat (S round) = 2 * 2 ^ Z.of_nat round) as HS by (rewrite Nat2Z.inj_succ, Z.pow_succ_r by lia; done).
  assert (Htot : total (ws ++ [wait round (rnd round)]) <= 312500000 * (2 ^ Z.of_nat (S round) - 1)) by (rewrite total_snoc, HS; lia).
  destruct (gone round) eqn:Eg.
  { injection E as <- <-. rewrite length_app. cbn [length]. split_and!; [lia|lia|]. split; [done|]. intros (k & Hk & Hs & Hg).
    destruct (decide (k = round)) as [->|]; [congruence|]. rewrite Hg in Eg by lia. done. }
  apply IH in E as (H1 & H2 & H3); [|lia|lia|rewrite length_app; cbn; lia|done]. split_and!; [done|done|]. rewrite H3. split.
  - intros (k & Hk & Hs & Hg). exists k. split_and!; [lia|lia|done|]. intros j Hj. destruct (decide (j = round)) as [->|]; [done|]. apply Hg. lia.
  - intros (k & Hk & Hs & Hg). exists k. destruct (decide (k = round)) as [->|]; [congruence|]. split_and!; [lia|lia|done|]. intros j Hj. apply Hg. lia.
Qed.

(** the upstream retries end, and sooner than announced. Nine rounds have eight
    waits between them, which with every jitter add up to less than 80 seconds (the
    60 second cap is never reached); the call succeeds exactly when some source
    answers in one of the nine rounds before the context ends. *)
Theorem try_budget sources fn rnd gone : draws rnd -> sources <> [] ->
  let '(r, ws) := Try sources fn rnd gone in
  (length ws <= 8)%nat /\ total ws < 80000000000 /\
  (r = Ok tt <-> exists k, (k < 9)%nat /\ existsb (fn k) sources = true /\ forall j, (j < k)%nat -> gone j = false).
Proof.
  intros Hd Hs. destruct (Try sources fn rnd gone) as [r ws] eqn:E. unfold Try in E. destruct sources as [|s0 ss]; [done|].
  apply try_rounds_spec in E as (H1 & H2 & H3); [|done|done|unfold upstreamRounds; lia|done|done].
  split_and!; [done|lia|]. rewrite H3. split; intros (k & Hk & G & Hg); exists k; (split_and!; [lia..|done|]); intros j Hj; apply Hg; lia.
Qed.

Lemma try_budget_witness : exists ws,
  Try [[1]; [2]] (fun k s => (k =? 3)%nat && beqb s [2]) (fun _ => 7) (fun _ => false) = (Ok tt, ws) /\ total ws < 80000000000.
Proof.
  pose proof (try_budget [[1]; [2]] (fun k s => (k =? 3)%nat && beqb s [2]) (fun _ => 7) (fun _ => false)) as G.
  assert (Hd : draws (fun _ => 7)).
  { intros k Hk. destruct k as [|[|[|[|[|[|[|[|k]]]]]]]]; [vm_compute; split; congruence..|lia]. }
  specialize (G Hd ltac:(discriminate)). destruct (Try _ _ _ _) as [r ws]. destruct G as (_ & G2 & G3). exists ws. split; [|exact G2].
  f_equal. apply G3. exists 3%nat. split; [lia|]. split; [vm_compute; reflexivity|]. intros j _. reflexivity.
Defined.

(** ** Artifacts are what their names say *)

Section Authentic.
Context `{CasfsLaws}.

(** The file is a content with the tail of the name it carries. *)
Definition sealed (n f : bytes) : Prop := exists b t, cas_Finish b = Ok (n, t) /\ f = b ++ t.

(** A name a producer may build under: no hash at its end. *)
Definition working (path : bytes) : Prop := forall n, ValidHash n = true -> HasSuffix path n = false.

Definition store_ok (s : Store) : Prop :=
  (forall n f, ValidHash n = true -> spool s !! n = Some f -> sealed n f) /\
  (forall e n f, ValidHash n = true -> HasSuffix e n = true -> local s !! e = Some f -> sealed n f).

(** What happens to a data directory: a producer writes a file under a working name
    and adopts what it hashed, artifacts and pointers are put, dropped and synced. *)
Inductive dstep : Store -> Store -> Prop :=
| DWriteSpool s path b : working path ->
    dstep s (MkStore (<[path := b]> (spool s)) (local s) (ptrs s) (sptrs s) (cas s))
| DWriteLocal s path b : working path ->
    dstep s (MkStore (spool s) (<[path := b]> (local s)) (ptrs s) (sptrs s) (cas s))
| DPut s b s' n : Put s b = Ok (s', n) -> dstep s s'
| DAdopt s path h s' n : working path -> spool s !! path = Some h -> Adopt s path h = Ok (s', n) -> dstep s s'
| DAdoptLocal s path label h s' n : working path -> local s !! path = Some h -> AdoptLocal s path label h = Ok (s', n) -> dstep s s'
| DDrop s hash : dstep s (DropLocal s hash)
| DSync s s' released err : Sync s = (s', released, err) -> dstep s s'
| DPointer s name value s' : SetPointer s name value = Ok s' -> dstep s s'
| DUnlink s n : dstep s (MkStore (delete n (spool s)) (local s) (ptrs s) (sptrs s) (cas s)).

Lemma HasSuffix_app l n : HasSuffix (l ++ n) n = true.
Proof. unfold HasSuffix. rewrite reverse_app. apply has_prefix_app. Qed.

Lemma HasSuffix_spec e n : HasSuffix e n = true -> exists l, e = l ++ n.
Proof.
  unfold HasSuffix. intros [t E]%has_prefix_spec. exists (reverse t).
  by rewrite <- (reverse_involutive e), E, reverse_app, reverse_involutive.
Qed.

Lemma ValidHash_len n : ValidHash n = true -> length n = 64%nat.
Proof. intros [Hl _]%andb_true_iff. apply Z.eqb_eq in Hl. unfold len in Hl. lia. Qed.

Lemma suffix_unique l n n' : ValidHash n = true -> ValidHash n' = true -> HasSuffix (l ++ n) n' = true -> n' = n.
Proof.
  intros Hn Hn' [l' E]%HasSuffix_spec. apply ValidHash_len in Hn, Hn'. symmetry. apply (app_inj_2 l l'); [congruence|done].
Qed.

Lemma hash_not_working n : ValidHash n = true -> ~ working n.
Proof. intros Hn Hw. specialize (Hw n Hn). pose proof (HasSuffix_app [] n) as E. cbn [app] in E. congruence. Qed.

Lemma rename_lookup d from to d' k f : rename d from to = Ok d' -> d' !! k = Some f ->
  k = to /\ d !! from = Some f \/ k <> to /\ k <> from /\ d !! k = Some f.
Proof.
  unfold rename. destruct (d !! from) as [g|] eqn:Eg; [|done]. intros [= <-] Hk.
  destruct (decide (k = to)) as [->|Hne]; [rewrite lookup_insert_eq in Hk; by left|].
  rewrite lookup_insert_ne in Hk by done. apply lookup_delete_Some in Hk as [Hf Hk]. right. done.
Qed.

(** Sealing a working file and renaming it: every entry is an old one, or the new
    artifact. *)
Lemma adopt_lookup d path h d1 n to d2 k f : working path -> d !! path = Some h ->
  seal d path h = Ok (d1, n) -> rename d1 path to = Ok d2 -> d2 !! k = Some f ->
  ValidHash n = true /\ (k = to /\ sealed n f \/ k <> to /\ d !! k = Some f).
Proof.
  intros Hw Hp Hs Hr Hk. unfold seal in Hs. apply rbind_Ok in Hs as ([n' t] & Hf & Hs). rewrite Hp in Hs. injection Hs as <- ->.
  split; [by eapply finish_name|]. destruct (rename_lookup _ _ _ _ _ _ Hr Hk) as [[-> Hg]|(Hne & Hne' & Hg)].
  - rewrite lookup_insert_eq in Hg. injection Hg as <-. left. split; [done|]. by exists h, t.
  - rewrite lookup_insert_ne in Hg by done. by right.
Qed.

Lemma release_all_sub r done : forall sp err sp' rel err', release_all r sp done err = (sp', rel, err') -> sp' ⊆ sp.
Proof.
  induction done as [|h done IH]; intros sp err sp' rel err' E; cbn [release_all] in E; [by simplify_eq|].
  pose proof (release_unlinks r sp h) as Hsub. destruct (cas_Release r sp h) as [sp1 [e|]]; cbn in Hsub.
  - apply IH in E. by transitivity sp1.
  - destruct (release_all r sp1 done err) as [[sp2 rel2] err2] eqn:E2. apply IH in E2. simplify_eq. by transitivity sp1.
Qed.

Lemma dstep_ok s s' : dstep s s' -> store_ok s -> store_ok s'.
Proof.
  intros Hs [Hsp Hlo]. destruct Hs as [s path b Hw|s path b Hw|s b s' n HP|s path h s' n Hw Hp HA|s path label h s' n Hw Hp HA|s hash|s s' rel err HS|s name value s' HP|s n].
  - split; cbn; [|done]. intros n f Hn Hf. destruct (decide (n = path)) as [->|]; [by apply hash_not_working in Hn|].
    rewrite lookup_insert_ne in Hf by done. by apply Hsp.
  - split; cbn; [done|]. intros e n f Hn He Hf. destruct (decide (e = path)) as [->|]; [by rewrite Hw in He|].
    rewrite lookup_insert_ne in Hf by done. by apply (Hlo e).
  - unfold Put in HP. apply rbind_Ok in HP as ([n' t] & Hf & HP). apply rbind_Ok in HP as (d & Hd & HP). injection HP as <- ->.
    split; cbn; [|done]. intros k f Hk Hkf. unfold writeDurable in Hd.
    destruct (rename_lookup _ _ _ _ _ _ Hd Hkf) as [[-> Hg]|(Hne & Hne' & Hg)].
    + rewrite lookup_insert_eq in Hg. injection Hg as <-. by exists b, t.
    + rewrite lookup_insert_ne in Hg by done. by apply Hsp.
  - unfold Adopt in HA. apply rbind_Ok in HA as ([d1 n'] & Hd1 & HA). apply rbind_Ok in HA as (d2 & Hd2 & HA). injection HA as <- ->.
    split; cbn; [|done]. intros k f Hk Hkf. destruct (adopt_lookup _ _ _ _ _ _ _ _ _ Hw Hp Hd1 Hd2 Hkf) as [_ [[-> Hg]|[_ Hg]]]; [done|by apply Hsp].
  - unfold AdoptLocal in HA. apply rbind_Ok in HA as ([d1 n'] & Hd1 & HA). apply rbind_Ok in HA as (d2 & Hd2 & HA). injection HA as <- ->.
    split; cbn; [done|]. intros e k f Hk He Hkf. destruct (adopt_lookup _ _ _ _ _ _ _ _ _ Hw Hp Hd1 Hd2 Hkf) as [Hn [[-> Hg]|[_ Hg]]]; [|by apply (Hlo e)].
    rewrite app_assoc in He. apply suffix_unique in He as ->; done.
  - unfold DropLocal. destruct (LocalPath s hash) as [p|]; [|done]. split; cbn; [done|]. intros e n f Hn He Hf.
    apply lookup_delete_Some in Hf as [_ Hf]. by apply (Hlo e).
  - unfold Sync in HS. destruct (cas s) as [r|]; [|by simplify_eq]. destruct (cas_Sync _ _ _) as [[r1 done1] err1].
    destruct (release_all _ _ _ _) as [[sp rel1] err2] eqn:E. simplify_eq. apply release_all_sub in E. split; cbn; [|done].
    intros n f Hn Hf. apply Hsp; [done|]. by eapply lookup_weaken.
  - unfold SetPointer in HP. apply rbind_Ok in HP as (d & _ & HP). destruct (cas s).
    + apply rbind_Ok in HP as ([r p] & _ & HP). by simplify_eq.
    + apply rbind_Ok in HP as (p & _ & HP). by simplify_eq.
  - split; cbn; [|done]. intros k f Hk Hf. apply lookup_delete_Some in Hf as [_ Hf]. by apply Hsp.
Qed.

(** The blob serves the content [b]: its size, and every range that reads at all. *)
Definition serves (blob : Blob) (b : bytes) : Prop :=
  Size blob = len b /\ forall off k p, 0 <= off -> 0 <= k -> Read blob off k = Ok p -> p = take (Z.to_nat k) (drop (Z.to_nat off) b).

Lemma mapped_serves b : serves (Mapped b) b.
Proof.
  split; [done|]. intros off k p Ho Hk. unfold Read, bounds. cbn [Size]. destruct (_ || _) eqn:E; [done|]. bool_prop. cbn [rbind].
  destruct (Z.eqb_spec k 0) as [->|]; [by intros [= <-]|]. unfold slice. rewrite !(proj2 (Z.leb_le _ _)) by lia. cbn [andb].
  intros [= <-]. by replace (off + k - off) with k by lia.
Qed.

Lemma mmap_content d path n b t : d !! path = Some (b ++ t) -> cas_Finish b = Ok (n, t) -> mmapArtifact d path = Ok (Mapped b).
Proof.
  intros Hf HF. unfold mmapArtifact. rewrite Hf, (readTail_sealed b n t HF). cbn [rbind].
  destruct (Z.eqb_spec (len b) 0) as [E|]; [destruct b; [done|unfold len in E; cbn in E; lia]|].
  unfold slice. pose proof (len_nonneg b). rewrite len_app. pose proof (len_nonneg t). rewrite !(proj2 (Z.leb_le _ _)) by lia. cbn [andb rbind].
  by rewrite Z.sub_0_r, len_to_nat, drop_0, take_app_length.
Qed.

Lemma mmap_sealed d path n f : d !! path = Some f -> sealed n f ->
  exists b t, cas_Finish b = Ok (n, t) /\ mmapArtifact d path = Ok (Mapped b).
Proof. intros Hf (b & t & HF & ->). exists b, t. split; [done|]. by eapply mmap_content. Qed.

Lemma Open_ok s n blob : store_ok s -> Remote s = true \/ ValidHash n = true -> Open s n = Ok blob ->
  exists b t, cas_Finish b = Ok (n, t) /\ serves blob b.
Proof.
  intros [Hsp Hlo] Hn E. unfold Open in E. destruct (LocalPath s n) as [p|] eqn:El.
  - unfold LocalPath in El. destruct (ValidHash n) eqn:Ev; [|done]. cbn [negb] in El. apply find_some in El as [_ Hsuf].
    destruct (local s !! p) as [f|] eqn:Ef; [|by unfold mmapArtifact in E; rewrite Ef in E].
    destruct (mmap_sealed (local s) p n f Ef) as (b & t & HF & Em); [by apply (Hlo p)|]. exists b, t. split; [done|].
    rewrite Em in E. injection E as <-. apply mapped_serves.
  - unfold Remote in Hn. destruct (cas s) as [r|].
    + apply rbind_Ok in E as (f & Ef & [= <-]). destruct (open_verified _ _ _ _ Ef) as (b & t & HF & Hs & Hr). exists b, t. split; [done|].
      split; [done|]. intros off k p Ho Hk. unfold Read, bounds. cbn [Size]. rewrite Hs. destruct (_ || _) eqn:E; [done|]. bool_prop.
      cbn [rbind]. destruct (Z.eqb_spec k 0) as [->|]; [by intros [= <-]|]. apply Hr; lia.
    + destruct Hn as [|Hv]; [done|]. destruct (spool s !! n) as [f|] eqn:Ef; [|by unfold mmapArtifact in E; rewrite Ef in E].
      destruct (mmap_sealed (spool s) n n f Ef) as (b & t & HF & Em); [by apply Hsp|]. exists b, t. split; [done|].
      rewrite Em in E. injection E as <-. apply mapped_serves.
Qed.

(** A new data directory. *)
Definition empty_store (p : cas_ptrs) (c : option cas_remote) : Store := MkStore ∅ ∅ ∅ p c.

Lemma dist_reached_ok p c s : rtc dstep (empty_store p c) s -> store_ok s.
Proof.
  intros Hs. assert (Hempty : store_ok (empty_store p c)) by (split; cbn; intros; by rewrite lookup_empty in *).
  induction Hs as [|s1 s2 s3 Hst _ IH]; [done|]. apply IH. by eapply dstep_ok.
Qed.

(** C22: an artifact is what its name says. However a data directory got to its state
    (artifacts built, put and adopted, dropped, uploaded, released and
    unlinked, pointers moved, in any order), opening a name serves the bytes of a content of that name:
    the size and every range read are the content's. Without a bucket this is asked of
    names that are hashes. *)
Theorem dist_authentic p c s n blob :
  rtc dstep (empty_store p c) s -> Remote s = true \/ ValidHash n = true -> Open s n = Ok blob ->
  exists b t, cas_Finish b = Ok (n, t) /\ serves blob b.
Proof. intros Hs. by apply Open_ok, (dist_reached_ok p c). Qed.

Lemma Put_total s b n t : cas_Finish b = Ok (n, t) -> exists s', Put s b = Ok (s', n).
Proof. intros Hf. unfold Put, writeDurable, rename. rewrite Hf. cbn [rbind]. rewrite lookup_insert_eq. by eexists. Qed.

(** What was put or adopted opens again by its name, without a bucket to wait for. *)
Lemma Put_Open s b s' n : cas s = None -> store_ok s -> Put s b = Ok (s', n) ->
  exists b' t, cas_Finish b' = Ok (n, t) /\ Open s' n = Ok (Mapped b').
Proof.
  intros Hc Hok HP. pose proof (dstep_ok _ _ (DPut _ _ _ _ HP) Hok) as Hok'. unfold Put in HP.
  apply rbind_Ok in HP as ([n' t] & Hf & HP). apply rbind_Ok in HP as (d & Hd & HP). injection HP as <- ->.
  pose proof (finish_name _ _ _ Hf) as Hv. unfold Open. cbn [cas local spool]. destruct (LocalPath _ n) as [p|] eqn:El.
  - unfold LocalPath in El. rewrite Hv in El. cbn [negb] in El. apply find_some in El as [Hin Hsuf]. unfold names in Hin.
    rewrite <- list_elem_of_In, merge_sort_Permutation in Hin. apply list_elem_of_fmap in Hin as ([p' f] & -> & Hin). apply elem_of_map_to_list in Hin.
    destruct (mmap_sealed (local s) p' n f Hin) as (b' & t' & HF & Em); [by apply (proj2 Hok p')|]. by exists b', t'.
  - rewrite Hc. unfold writeDurable, rename in Hd. rewrite lookup_insert_eq in Hd. injection Hd as <-.
    exists b, t. split; [done|]. eapply mmap_content; [by rewrite lookup_insert_eq|done].
Qed.

End Authentic.

(** ** A casfs that keeps the laws *)

Definition toy_Finish (b : bytes) : res (bytes * bytes) :=
  if len b <? 2 ^ 64 then Ok (DB.hexName (bigE 32 (be_val b)), bigE 8 (len b)) else Err "too long".
Definition toy_content (f : bytes) : bytes := take (length f - 8) f.
Definition toy_Open (r : dir * dir) (sp : dir) (n : bytes) : res bytes :=
  match (match sp !! n with Some f => Some (toy_content f) | None => r.1 !! n end) with
  | None => Err "not found"
  | Some b => match toy_Finish b with Ok (n', _) => if beqb n n' then Ok b else Err "corrupt" | _ => Err "corrupt" end
  end.

#[local] Instance toy : Casfs := {
  cas_Finish := toy_Finish;
  cas_ReadTail f := if len f <? 8 then Err "no tail" else Ok (be_val (drop (length f - 8) f));
  cas_remote := dir * dir; cas_ptrs := dir; cas_file := bytes;
  cas_Open := toy_Open;
  cas_Size := len;
  cas_ReadAt f off n := Ok (take (Z.to_nat n) (drop (Z.to_nat off) f));
  cas_Sync r sp ps := ((toy_content <$> sp) ∪ r.1, ps ∪ r.2, (map_to_list sp).*1, None);
  cas_Release r sp n := (delete n sp, None);
  cas_SetPointer r ps n v := Ok (r, <[n := v]> ps);
  cas_WriteSpoolPointer ps n v := Ok (<[n := v]> ps);
  cas_GetPointer r n := Ok (r.2 !! n);
  cas_PrefixHasObjects r := Ok (negb (bool_decide (r.1 = ∅))) }.

#[local] Instance toy_casfs_laws : CasfsLaws.
Proof.
  assert (HF : forall b n t, toy_Finish b = Ok (n, t) -> len b < 2 ^ 64 /\ n = DB.hexName (bigE 32 (be_val b)) /\ t = bigE 8 (len b)).
  { intros b n t. unfold toy_Finish. destruct (Z.ltb_spec (len b) (2 ^ 64)); [|done]. by intros [= <- <-]. }
  split.
  - intros b n t (_ & -> & _)%HF. apply ValidHash_hexName; [apply length_be|apply be_bytes].
  - intros b n t (Hl & _ & ->)%HF. cbn [cas_ReadTail toy]. rewrite len_app, len_be. pose proof (len_nonneg b).
    rewrite (proj2 (Z.ltb_ge _ _)) by lia. rewrite length_app, length_be. replace (length b + 8 - 8)%nat with (length b) by lia.
    by rewrite drop_app_length, be_val_be_small by (change (256 ^ Z.of_nat 8) with (2 ^ 64); lia).
  - intros r sp n f. cbn [cas_Open toy]. unfold toy_Open. destruct (match sp !! n with Some f => _ | None => _ end) as [b|]; [|done].
    destruct (toy_Finish b) as [[n' t]| |] eqn:Eb; try done. destruct (beqb_spec n n') as [->|]; [|done]. intros [= <-]. exists b, t.
    split_and!; [done|done|]. by intros off k p _ _ _ [= <-].
  - intros r sp n. cbn. apply delete_subseteq.
Qed.

Lemma dist_authentic_witness : exists (s : Store) n blob b t,
  Put (empty_store ∅ None) [1; 2; 3] = Ok (s, n) /\ Open s n = Ok blob /\ cas_Finish b = Ok (n, t) /\ serves blob b.
Proof.
  assert (H0 : rtc dstep (empty_store ∅ None) (empty_store ∅ None)) by apply rtc_refl.
  assert (exists n t, cas_Finish [1; 2; 3] = Ok (n, t)) as (n & t0 & Hn) by (do 2 eexists; reflexivity).
  destruct (Put_total (empty_store ∅ None) _ _ _ Hn) as [s E].
  destruct (Put_Open (empty_store ∅ None) _ _ _ eq_refl (dist_reached_ok _ _ _ H0) E) as (b' & t' & HF & Ho).
  destruct (dist_authentic ∅ None s n (Mapped b')) as (b & t & Hb & Hs).
  - eapply rtc_once, DPut, E.
  - right. by eapply finish_name.
  - exact Ho.
  - by exists s, n, (Mapped b'), b, t.
Defined.

End Dist.
