(* ===== verification/Join.v ===== *)
(** * store/join.go: publishing a chain and joining a published one

    [Publish] writes a manifest of the terminal runs and moves the pointer; [Join]
    follows the pointer and walks the runs backward by the names their footers
    hold. The artifact store is that of Dist.v; a data directory's manifest is the
    value its JSON decodes to, as in Open.v. encoding/json is the parameters
    [Marshal] and [Unmarshal]. *)

From S2P Require Import Prelude Bytes Rows Ef Format Sha256 Container Memtable MemRecover MemRead Sst RunFile Postings Seal Window Growth KMerge DB Contents Merge Refine DBReads DBHeights Flat Open Dist.
Import Format.

Module Join.
Import RunFile DB Dist.

Section Join.
Context `{Casfs} (Marshal : Manifest -> res bytes) (Unmarshal : bytes -> res Manifest).

Definition ReadFooter (s : Store) (name : bytes) : res Footer :=
  let* blob := Dist.Open s name in
  if Size blob <? footerSize then Err "store: too small for a footer" else
  let* b := Read blob (Size blob - footerSize) footerSize in
  decodeFooter b.

(** The leading terminal runs. *)
Fixpoint publishable (runs : list RunRef) : list RunRef :=
  match runs with [] => [] | r :: rs => if Terminal r then r :: publishable rs else [] end.

(** What the database remembers of the last publish. *)
Record pub := MkPub { published : bytes; lastManifest : bytes }.

Definition remove_spool (s : Store) (name : bytes) : Store :=
  MkStore (delete name (spool s)) (local s) (ptrs s) (sptrs s) (cas s).

Definition Publish (s : Store) (p : pub) (m : Manifest) (chainRoot : bytes) : res (Store * pub) :=
  let m := MkMan (mVersion m) (mChainRoot m) (publishable (mRuns m)) in
  match last (mRuns m) with
  | None => Ok (s, p)
  | Some r =>
      let head := rName r in
      if beqb head (published p) then Ok (s, p) else
      let* raw := Marshal m in
      let* (s, name) := Put s raw in
      let* s := SetLatest s chainRoot name in
      let old := lastManifest p in
      let s := if negb (beqb old []) && negb (beqb old name) then remove_spool s old else s in
      Ok (s, MkPub head name)
  end.

(** [WalkRuns], from the newest run: the argument is the list reversed. *)
Fixpoint walk (s : Store) (rrs : list RunRef) (chainRoot : bytes) : res unit :=
  match rrs with
  | [] => Ok tt
  | r :: older =>
      let* f := ReadFooter s (rName r) in
      if negb (FromTx f =? rFromTx r) || negb (ToTx f =? rToTx r) || negb (FromHeight f =? rFromHeight r) || negb (ToHeight f =? rToHeight r)
      then Err "store: the footer is not what the manifest claims" else
      match older with
      | [] =>
          if negb (beqb (Prev f) chainRoot) then Err "store: the oldest run links to another root"
          else if negb (FromTx f =? 0) then Err "store: history below the oldest run is missing"
          else Ok tt
      | p :: _ =>
          let* want := decodeRoot (rName p) in
          if negb (beqb (Prev f) want) then Err "store: the hash chain is broken"
          else if negb (rToTx p =? FromTx f) || negb (u64 (rToHeight p + 1) =? FromHeight f) then Err "store: there is a hole"
          else walk s older chainRoot
      end
  end.
Definition WalkRuns (s : Store) (runs : list RunRef) (chainRoot : bytes) : res unit := walk s (reverse runs) chainRoot.

(** [newchain] is EPOCHDB_NEW_CHAIN=1. *)
Definition freshOrBroken (s : Store) (newchain : bool) : res unit :=
  if negb (Remote s) || newchain then Ok tt else
  let* has := PrefixHasObjects s in
  if has then Err "store: no pointer, but the prefix already holds objects" else Ok tt.

(** The directory's manifest afterwards. *)
Definition Join (s : Store) (kman : option Manifest) (chainRoot : bytes) (newchain : bool) : res (option Manifest) :=
  let* local := Open.loadManifest kman in
  if negb (bool_decide (mRuns local = [])) then Ok kman else
  let* l := Latest s chainRoot in
  match l with
  | None => let* _ := freshOrBroken s newchain in Ok kman
  | Some name =>
      let* blob := Dist.Open s name in
      let* raw := Read blob 0 (Size blob) in
      let* man := Unmarshal raw in
      if negb (mVersion man =? StorageVersion) then Err "store: published manifest is another storage version"
      else if negb (beqb (mChainRoot man) (hexName chainRoot)) then Err "store: published manifest belongs to another chain root"
      else if bool_decide (mRuns man = []) then Err "store: published manifest lists no runs"
      else
        let* _ := WalkRuns s (mRuns man) chainRoot in
        Ok (Some (MkMan StorageVersion (mChainRoot man) (mRuns man)))
  end.

End Join.

(** ** The walk *)

Section Walk.
Context `{CasfsLaws}.

(** The run's footer says what the manifest says of it, and links to [prev]. *)
Definition backed (s : Store) (prev : bytes) (r : RunRef) : Prop :=
  exists f, ReadFooter s (rName r) = Ok f /\ FromTx f = rFromTx r /\ ToTx f = rToTx r /\
    FromHeight f = rFromHeight r /\ ToHeight f = rToHeight r /\ Prev f = prev.

(** The runs in order, each linking to the name before it and starting where the
    one before it ended; [p] is the run before. *)
Fixpoint chained (s : Store) (p : RunRef) (rs : list RunRef) : Prop :=
  match rs with
  | [] => True
  | r :: rs => (exists prev, decodeRoot (rName p) = Ok prev /\ backed s prev r) /\ tiles p r = true /\ chained s r rs
  end.
Definition chain (s : Store) (root : bytes) (rs : list RunRef) : Prop :=
  match rs with [] => True | r :: rs => backed s root r /\ rFromTx r = 0 /\ chained s r rs end.

Lemma last_default {A} (rs : list A) : forall a p, List.last (a :: rs) p = List.last rs a.
Proof. induction rs as [|b rs IH]; intros a p; [done|]. change (List.last (b :: rs) p = List.last (b :: rs) a). by rewrite !IH. Qed.

Lemma last_is_default {A} (rs : list A) : forall a, last (a :: rs) = Some (List.last rs a).
Proof. induction rs as [|b rs IH]; intros a; [done|]. change (last (b :: rs) = Some (List.last (b :: rs) a)). by rewrite IH, last_default. Qed.

Lemma chained_snoc s r : forall rs p, chained s p (rs ++ [r]) <->
  chained s p rs /\ (exists prev, decodeRoot (rName (List.last rs p)) = Ok prev /\ backed s prev r) /\ tiles (List.last rs p) r = true.
Proof.
  induction rs as [|a rs IH]; intros p; cbn [app chained]; [cbn; tauto|]. rewrite IH.
  rewrite last_default. tauto.
Qed.

Lemma walk_chain s root : forall rs, WalkRuns s rs root = Ok tt <-> chain s root rs.
Proof.
  unfold WalkRuns. induction rs as [|r rs IH] using rev_ind; [done|]. rewrite reverse_snoc. cbn [walk].
  assert (HB : forall prev, backed s prev r <-> exists f, ReadFooter s (rName r) = Ok f /\
    (negb (FromTx f =? rFromTx r) || negb (ToTx f =? rToTx r) || negb (FromHeight f =? rFromHeight r) || negb (ToHeight f =? rToHeight r)) = false /\ Prev f = prev).
  { intros prev. split; intros (f & Hf & G).
    - exists f. destruct G as (-> & -> & -> & -> & G). by rewrite !Z.eqb_refl.
    - destruct G as [G <-]. exists f. bool_prop. done. }
  destruct rs as [|a rs _] using rev_ind.
  - cbn [reverse rev_append app chain chained]. rewrite HB. split.
    + intros (f & Hf & E)%rbind_Ok. destruct (negb _ || _ || _ || _) eqn:E1; [done|]. destruct (beqb_spec (Prev f) root) as [Hp|]; [|done]. cbn [negb] in E.
      destruct (Z.eqb_spec (FromTx f) 0); [|done]. split_and!; [by exists f| |done]. bool_prop. congruence.
    + intros ((f & -> & E1 & <-) & Hzero & _). cbn [rbind]. rewrite E1. destruct (beqb_spec (Prev f) (Prev f)); [|done]. cbn [negb]. bool_prop.
      destruct (Z.eqb_spec (FromTx f) 0); [done|congruence].
  - rewrite reverse_snoc in *. 
    assert (HC : chain s root ((rs ++ [a]) ++ [r]) <-> chain s root (rs ++ [a]) /\ (exists prev, decodeRoot (rName a) = Ok prev /\ backed s prev r) /\ tiles a r = true).
    { destruct rs as [|b rs]; cbn [app chain]; [cbn; tauto|]. rewrite chained_snoc.
      replace (List.last (rs ++ [a]) b) with a by (clear; induction rs as [|c rs IH]; [done|]; cbn [app]; rewrite IH at 1; by destruct (rs ++ [a]) eqn:E; [destruct rs|]). tauto. }
    rewrite HC, <- IH. split.
    + intros (f & Hf & E)%rbind_Ok. destruct (negb _ || _ || _ || _) eqn:E1; [done|]. apply rbind_Ok in E as (want & Hw & E).
      destruct (beqb_spec (Prev f) want) as [Hp|]; [|done]. cbn [negb] in E. destruct (negb (rToTx a =? FromTx f) || _) eqn:E2; [done|].
      split_and!; [done| |].
      * exists want. split; [done|]. apply HB. by exists f.
      * unfold tiles. bool_prop. rewrite !(proj2 (Z.eqb_eq _ _)) by congruence. done.
    + intros (Hwalk & (prev & Hd & HBk) & Ht). apply HB in HBk as (f & -> & E1 & <-). cbn [rbind]. rewrite E1, Hd. cbn [rbind].
      destruct (beqb_spec (Prev f) (Prev f)); [|done]. cbn [negb]. unfold tiles in Ht. bool_prop.
      destruct (Z.eqb_spec (rToTx a) (FromTx f)); [|congruence]. destruct (Z.eqb_spec (u64 (rToHeight a + 1)) (FromHeight f)); [done|congruence].
Qed.

(** ** One head name authenticates the history *)

Lemma hex_digit_lower c : hex_lower c = true -> exists x, hex_digit c = Some x /\ 0 <= x < 16 /\ hex_char x = c.
Proof.
  unfold hex_lower, hex_digit, hex_char. intros [Hc|Hc]%orb_true_iff; bool_prop.
  - exists (c - 48). rewrite !(proj2 (Z.leb_le _ _)) by lia. split_and!; [done|lia..|]. ztests.
  - exists (c - 87). destruct (Z.leb_spec c 57); [lia|]. rewrite andb_false_r, !(proj2 (Z.leb_le _ _)) by lia. split_and!; [done|lia..|]. ztests.
Qed.

Lemma hex_decode_lower : forall n b r, (length b <= n)%nat -> forallb hex_lower b = true -> hex_decode b = Ok r -> b = hexName r.
Proof.
  induction n as [|n IH]; intros [|c [|c' b]] r Hn Hb E; cbn [length] in Hn; try lia; cbn [hex_decode] in E; try (injection E as <-; done); [done|].
  cbn [forallb] in Hb. apply andb_true_iff in Hb as [Hc Hb]. apply andb_true_iff in Hb as [Hc' Hb].
  destruct (hex_digit_lower _ Hc) as (x & Ex & Hx & Hcx), (hex_digit_lower _ Hc') as (y & Ey & Hy & Hcy). rewrite Ex, Ey in E.
  apply rbind_Ok in E as (r' & E & [= <-]). apply IH in E as ->; [|lia|done]. unfold hexName. cbn [map concat app].
  replace ((16 * x + y) / 16) with x by (rewrite Z.mul_comm, Z.div_add_l by lia; rewrite Z.div_small; lia).
  replace ((16 * x + y) mod 16) with y by (rewrite Z.add_comm, Z.mul_comm, Z.mod_add by lia; rewrite Z.mod_small; lia).
  by rewrite Hcx, Hcy.
Qed.

Lemma decodeRoot_lower n r : ValidHash n = true -> decodeRoot n = Ok r -> n = hexName r.
Proof.
  intros [_ Hn]%andb_true_iff E. unfold decodeRoot in E. destruct (hex_decode n) as [raw| |] eqn:Ed; try done.
  destruct (_ =? _); [|done]. injection E as <-. by eapply (hex_decode_lower (length n)).
Qed.

(** A content some name of the store opens. *)
Definition holds (s : Store) (b : bytes) : Prop :=
  exists n t blob, cas_Finish b = Ok (n, t) /\ Dist.Open s n = Ok blob /\ serves blob b.

(** No two different contents of the stores have one name. *)
Definition no_collision (s1 s2 : Store) : Prop :=
  forall b1 b2 n t1 t2, holds s1 b1 -> holds s2 b2 -> cas_Finish b1 = Ok (n, t1) -> cas_Finish b2 = Ok (n, t2) -> b1 = b2.

(** No content of the store is named by the chain root. *)
Definition root_free (s : Store) (root : bytes) : Prop := forall b t, holds s b -> cas_Finish b <> Ok (hexName root, t).

Definition footer_bytes (b : bytes) : bytes := drop (Z.to_nat (len b - footerSize)) b.

Lemma ReadFooter_content s n f : store_ok s -> Remote s = true -> ReadFooter s n = Ok f ->
  exists b t, holds s b /\ cas_Finish b = Ok (n, t) /\ decodeFooter (footer_bytes b) = Ok f.
Proof.
  intros Hok Hr (blob & Ho & E)%rbind_Ok. destruct (Open_ok s n blob Hok (or_introl Hr) Ho) as (b & t & HF & Hs & Hread).
  destruct (Z.ltb_spec (Size blob) footerSize) as [|Hge]; [done|]. apply rbind_Ok in E as (p & Hp & E).
  exists b, t. split_and!; [by exists n, t, blob|done|]. rewrite <- E. f_equal. symmetry. rewrite Hs in *.
  assert (0 <= footerSize) by (vm_compute; congruence).
  apply Hread in Hp; [|lia..]. rewrite Hp. unfold footer_bytes. apply take_ge. rewrite length_drop. unfold len in *. lia.
Qed.

(** A run without its level, which no footer holds. *)
Definition unlevelled (r : RunRef) : Z * Z * Z * Z * bytes := (rFromTx r, rToTx r, rFromHeight r, rToHeight r, rName r).

Lemma backed_same s1 s2 p1 p2 r1 r2 : store_ok s1 -> store_ok s2 -> Remote s1 = true -> Remote s2 = true -> no_collision s1 s2 ->
  backed s1 p1 r1 -> backed s2 p2 r2 -> rName r1 = rName r2 -> unlevelled r1 = unlevelled r2 /\ p1 = p2.
Proof.
  intros Ho1 Ho2 Hr1 Hr2 Hnc (f1 & E1 & A1 & B1 & C1 & D1 & P1) (f2 & E2 & A2 & B2 & C2 & D2 & P2) Hn.
  apply ReadFooter_content in E1 as (b1 & t1 & Hh1 & HF1 & Ef1); [|done..]. apply ReadFooter_content in E2 as (b2 & t2 & Hh2 & HF2 & Ef2); [|done..].
  rewrite Hn in HF1. assert (b1 = b2) as -> by (by eapply Hnc). assert (f1 = f2) as -> by congruence. unfold unlevelled. split; congruence.
Qed.

Lemma backed_name s prev r root : store_ok s -> Remote s = true -> root_free s root -> backed s prev r -> decodeRoot (rName r) <> Ok root.
Proof.
  intros Hok Hr Hfree (f & Hf & _) Hd. apply ReadFooter_content in Hf as (b & t & Hh & HF & _); [|done..].
  apply (Hfree b t Hh). rewrite HF. by rewrite (decodeRoot_lower (rName r) root (finish_name _ _ _ HF) Hd).
Qed.

Lemma chain_last s root rs r : chain s root (rs ++ [r]) ->
  exists prev, backed s prev r /\ chain s root rs /\
    match last rs with None => prev = root | Some p => decodeRoot (rName p) = Ok prev end.
Proof.
  destruct rs as [|a rs]; cbn [app chain].
  - intros (HB & _ & _). by exists root.
  - intros (HB & Hzero & Hc). apply chained_snoc in Hc as (Hc & (prev & Hd & HBr) & _). exists prev. split_and!; try done.
    by rewrite last_is_default.
Qed.

Lemma chains_agree s1 s2 root : store_ok s1 -> store_ok s2 -> Remote s1 = true -> Remote s2 = true ->
  no_collision s1 s2 -> root_free s1 root -> root_free s2 root -> forall rs1 rs2,
  chain s1 root rs1 -> chain s2 root rs2 -> rName <$> last rs1 = rName <$> last rs2 -> map unlevelled rs1 = map unlevelled rs2.
Proof.
  intros Ho1 Ho2 Hr1 Hr2 Hnc Hf1 Hf2. induction rs1 as [|r1 rs1 IH] using rev_ind; intros rs2 Hc1 Hc2 Hl.
  { destruct rs2 as [|r2 rs2 _] using rev_ind; [done|]. by rewrite last_snoc in Hl. }
  destruct rs2 as [|r2 rs2 _] using rev_ind; [by rewrite last_snoc in Hl|]. rewrite !last_snoc in Hl. injection Hl as Hl.
  apply chain_last in Hc1 as (p1 & HB1 & Hc1 & HL1), Hc2 as (p2 & HB2 & Hc2 & HL2).
  destruct (backed_same s1 s2 p1 p2 r1 r2) as [Hu <-]; try done. rewrite !map_app. cbn [map]. rewrite Hu. f_equal. apply IH; [done|done|].
  destruct rs1 as [|q1 rs1 _] using rev_ind; destruct rs2 as [|q2 rs2 _] using rev_ind; rewrite ?last_snoc in *; cbn in HL1, HL2 |- *; [done| | |].
  - subst p1. apply chain_last in Hc2 as (p3 & HB3 & _ & _). by apply (backed_name s2 p3 q2 root) in HL2.
  - subst p1. apply chain_last in Hc1 as (p3 & HB3 & _ & _). by apply (backed_name s1 p3 q1 root) in HL1.
  - f_equal. apply chain_last in Hc1 as (p3 & (f3 & F3 & _) & _ & _), Hc2 as (p4 & (f4 & F4 & _) & _ & _).
    apply ReadFooter_content in F3 as (b1 & t1 & _ & HF1 & _); [|done..]. apply ReadFooter_content in F4 as (b2 & t2 & _ & HF2 & _); [|done..].
    rewrite (decodeRoot_lower _ _ (finish_name _ _ _ HF1) HL1). by rewrite (decodeRoot_lower _ _ (finish_name _ _ _ HF2) HL2).
Qed.

Lemma Join_chain Unmarshal s root nc m : Join Unmarshal s None root nc = Ok (Some m) ->
  mVersion m = StorageVersion /\ mChainRoot m = hexName root /\ mRuns m <> [] /\ chain s root (mRuns m).
Proof.
  unfold Join. cbn [Open.loadManifest rbind mRuns]. rewrite bool_decide_eq_true_2 by done. cbn [negb]. intros (l & Hl & E)%rbind_Ok.
  destruct l as [name|]; [|by apply rbind_Ok in E as (_ & _ & E)].
  apply rbind_Ok in E as (blob & _ & E). apply rbind_Ok in E as (raw & _ & E). apply rbind_Ok in E as (man & _ & E).
  destruct (negb (mVersion man =? _)); [done|]. destruct (beqb_spec (mChainRoot man) (hexName root)) as [Hr|]; [|done]. cbn [negb] in E.
  case_bool_decide as Hne; [done|]. apply rbind_Ok in E as ([] & Hw & [= <-]). apply walk_chain in Hw. done.
Qed.

(** C21: one head name authenticates a whole published history. Two nodes that join
    through two buckets, whatever their pointers and manifests say, and end with the
    same newest run have the same runs: names, transaction and block ranges, all the
    way down, up to the merge level. Asked of the hash: no two contents of the
    buckets share a name, and none is named by the chain root. *)
Theorem join_authentic p1 c1 s1 p2 c2 s2 Unmarshal root n1 n2 m1 m2 :
  rtc dstep (empty_store p1 c1) s1 -> rtc dstep (empty_store p2 c2) s2 -> Remote s1 = true -> Remote s2 = true ->
  no_collision s1 s2 -> root_free s1 root -> root_free s2 root ->
  Join Unmarshal s1 None root n1 = Ok (Some m1) -> Join Unmarshal s2 None root n2 = Ok (Some m2) ->
  man_Head m1 = man_Head m2 -> map unlevelled (mRuns m1) = map unlevelled (mRuns m2).
Proof.
  intros Hs1 Hs2 Hr1 Hr2 Hnc Hf1 Hf2 H1 H2 Hh. apply Join_chain in H1 as (_ & _ & N1 & C1), H2 as (_ & _ & N2 & C2).
  eapply (chains_agree s1 s2 root); try done; [by eapply dist_reached_ok..|]. unfold man_Head in Hh.
  destruct (mRuns m1) as [|a l1 _] using rev_ind; [done|]. destruct (mRuns m2) as [|b l2 _] using rev_ind; [done|].
  rewrite !last_snoc in *. cbn. by rewrite Hh.
Qed.

(** ** What a join leaves opens *)

Lemma chained_tiling s : forall rs p, chained s p rs -> tiling p rs = Ok tt.
Proof. induction rs as [|r rs IH]; intros p; cbn [chained tiling]; [done|]. intros (_ & -> & Hc). by apply IH. Qed.

(** C10: a join is all or nothing. On a fresh directory it ends in an error, with
    nothing saved; or it leaves the directory empty, and then there was no pointer and
    no bucket, an override, or an empty prefix; or it saves a manifest that opening
    accepts as it is for this chain, whose runs start at TxNum 0, tile, and link by
    name back to the chain root. *)
Theorem join_opens Unmarshal s root nc k : length root = 32%nat -> Join Unmarshal s None root nc = Ok k ->
  match k with
  | None => Latest s root = Ok None /\ (Remote s = false \/ nc = true \/ PrefixHasObjects s = Ok false)
  | Some m =>
      (let* m := Open.loadManifest (Some m) in Open.root_manifest root m) = Ok m /\
      mRuns m <> [] /\ chain s root (mRuns m)
  end.
Proof.
  intros Hroot. destruct k as [m|].
  - intros E. apply Join_chain in E as (Hv & Hr & Hne & Hc). split_and!; try done.
    cbn [Open.loadManifest]. rewrite Hv, Z.eqb_refl. cbn [negb]. unfold checkTiling. destruct (mRuns m) as [|r rs] eqn:Em; [done|].
    cbn [chain] in Hc. destruct Hc as (_ & _ & Hc). rewrite (chained_tiling _ _ _ Hc). cbn [rbind]. unfold Open.root_manifest. rewrite Hr.
    destruct root as [|x root]; [done|]. change (beqb (hexName (x :: root)) []) with false. cbn [negb].
    by destruct (beqb_spec (hexName (x :: root)) (hexName (x :: root))).
  - unfold Join. cbn [Open.loadManifest rbind mRuns]. rewrite bool_decide_eq_true_2 by done. cbn [negb]. intros (l & Hl & E)%rbind_Ok.
    destruct l as [name|].
    + apply rbind_Ok in E as (blob & _ & E). apply rbind_Ok in E as (raw & _ & E). apply rbind_Ok in E as (man & _ & E).
      repeat (match type of E with (if ?b then _ else _) = _ => destruct b; [done|] end). by apply rbind_Ok in E as (? & _ & ?).
    + split; [done|]. apply rbind_Ok in E as ([] & E & _). unfold freshOrBroken in E. destruct (Remote s); [|by left]. right.
      destruct nc; [by left|]. right. cbn [negb orb] in E. apply rbind_Ok in E as (has & -> & E). by destruct has.
Qed.

(** ** A published chain can be joined *)

(** The name opens and every range of the content can be read. *)
Definition content (s : Store) (n b : bytes) : Prop :=
  exists blob, Dist.Open s n = Ok blob /\ Size blob = len b /\
    forall off k, 0 <= off -> 0 <= k -> off + k <= len b -> Read blob off k = Ok (take (Z.to_nat k) (drop (Z.to_nat off) b)).

Lemma content_footer s n b f : content s n b -> footerSize <= len b -> decodeFooter (footer_bytes b) = Ok f -> ReadFooter s n = Ok f.
Proof.
  intros (blob & Ho & Hs & Hr) Hl Hf. unfold ReadFooter. rewrite Ho. cbn [rbind]. rewrite Hs, (proj2 (Z.ltb_ge _ _)) by lia.
  assert (0 <= footerSize) by (vm_compute; congruence).
  rewrite Hr by lia. cbn [rbind]. rewrite take_ge; [done|]. rewrite length_drop. unfold len in *. lia.
Qed.

Lemma content_whole s n b : content s n b -> exists blob, Dist.Open s n = Ok blob /\ Read blob 0 (Size blob) = Ok b.
Proof.
  intros (blob & Ho & Hs & Hr). exists blob. split; [done|]. pose proof (len_nonneg b). rewrite Hs, Hr by lia.
  by rewrite drop_0, len_to_nat, firstn_all.
Qed.

Lemma Join_ok Unmarshal s root nc name raw m : ValidHash name = true ->
  GetPointer s (LatestPointer root) = Ok (Some (encode name)) -> content s name raw -> Unmarshal raw = Ok m ->
  mVersion m = StorageVersion -> mChainRoot m = hexName root -> mRuns m <> [] -> chain s root (mRuns m) ->
  Join Unmarshal s None root nc = Ok (Some m).
Proof.
  intros Hv Hp Hc Hu Hver Hroot Hne Hch. unfold Join. cbn [Open.loadManifest rbind mRuns]. rewrite bool_decide_eq_true_2 by done. cbn [negb].
  unfold Latest. rewrite Hp. cbn [rbind]. rewrite (pointer_decodes _ Hv). cbn [rbind].
  destruct (content_whole _ _ _ Hc) as (blob & -> & Hr). cbn [rbind]. rewrite Hr. cbn [rbind]. rewrite Hu. cbn [rbind].
  rewrite Hver, Hroot, Z.eqb_refl. destruct (beqb_spec (hexName root) (hexName root)); [|done]. cbn [negb].
  rewrite bool_decide_eq_false_2 by done. rewrite (proj2 (walk_chain s root (mRuns m)) Hch). cbn [rbind]. destruct m. cbn in *. congruence.
Qed.

(** What [Publish] leaves when there is something new to publish. *)
Lemma Publish_result Marshal s p m root s' p' r : last (publishable (mRuns m)) = Some r -> rName r <> published p ->
  Publish Marshal s p m root = Ok (s', p') ->
  exists raw name t, Marshal (MkMan (mVersion m) (mChainRoot m) (publishable (mRuns m))) = Ok raw /\
    cas_Finish raw = Ok (name, t) /\ spool s' !! name = Some (raw ++ t) /\
    GetPointer s' (LatestPointer root) = Ok (Some (encode name)) /\ p' = MkPub (rName r) name.
Proof.
  intros Hl Hne. unfold Publish. cbn [mRuns]. rewrite Hl. destruct (beqb_spec (rName r) (published p)) as [|_]; [done|].
  intros (raw & HM & E)%rbind_Ok. apply rbind_Ok in E as ([s1 name] & HP & E). apply rbind_Ok in E as (s2 & HS & E).
  unfold Put in HP. apply rbind_Ok in HP as ([name' t] & HF & HP). apply rbind_Ok in HP as (d & Hd & [= <- <-]).
  exists raw, name', t. unfold writeDurable, rename in Hd. rewrite lookup_insert_eq in Hd. injection Hd as <-.
  assert (HS2 : spool s2 !! name' = Some (raw ++ t) /\ ptrs s2 !! LatestPointer root = Some (encode name')).
  { unfold SetLatest, SetPointer in HS. apply rbind_Ok in HS as (d & Hd & HS). unfold writeDurable, rename in Hd. rewrite lookup_insert_eq in Hd. injection Hd as <-.
    cbn [cas sptrs spool] in HS. destruct (cas s).
    - apply rbind_Ok in HS as ([r1 p1] & _ & [= <-]). cbn. by rewrite !lookup_insert_eq.
    - apply rbind_Ok in HS as (p1 & _ & [= <-]). cbn. by rewrite !lookup_insert_eq. }
  destruct HS2 as [H1 H2]. injection E as <- <-. split_and!; [done|done| | |done].
  - destruct (beqb_spec (lastManifest p) []); [done|]. destruct (beqb_spec (lastManifest p) name'); [done|]. cbn. by rewrite lookup_delete_ne.
  - unfold GetPointer. destruct (negb _ && negb _); cbn [ptrs remove_spool]; by rewrite H2.
Qed.

(** C9: what is published can be joined. After [Publish] has something new to say, any
    node that sees the same pointer and the artifacts of the publisher's spool, and
    finds the terminal runs linked, joins from an empty directory and ends with
    exactly the published runs. *)
Theorem publish_join Marshal Unmarshal s p m root s' p' r sj nc :
  last (publishable (mRuns m)) = Some r -> rName r <> published p ->
  mVersion m = StorageVersion -> mChainRoot m = hexName root ->
  (forall raw, Marshal (MkMan (mVersion m) (mChainRoot m) (publishable (mRuns m))) = Ok raw ->
     Unmarshal raw = Ok (MkMan (mVersion m) (mChainRoot m) (publishable (mRuns m)))) ->
  Publish Marshal s p m root = Ok (s', p') ->
  GetPointer sj (LatestPointer root) = GetPointer s' (LatestPointer root) ->
  (forall n b t, spool s' !! n = Some (b ++ t) -> cas_Finish b = Ok (n, t) -> content sj n b) ->
  chain sj root (publishable (mRuns m)) ->
  Join Unmarshal sj None root nc = Ok (Some (MkMan StorageVersion (hexName root) (publishable (mRuns m)))).
Proof.
  intros Hl Hne Hv Hr HJ HP Hptr Hspool Hch. destruct (Publish_result _ _ _ _ _ _ _ _ Hl Hne HP) as (raw & name & t & HM & HF & Hsp & Hg & _).
  apply HJ in HM. rewrite Hv, Hr in HM. rewrite Hg in Hptr.
  apply (Join_ok _ _ _ _ name raw); try done; [by eapply finish_name|by eapply Hspool|]. cbn. intros E. by rewrite E in Hl.
Qed.

End Walk.

(** ** A published chain of two runs *)

Section Sample.
#[local] Existing Instances Dist.toy Dist.toy_casfs_laws.

Definition s_root : bytes := replicate 32 7.
Definition s_footer (prev : bytes) (a b c d : Z) : bytes := RunFile.encode (MkFooter [0; 0; 0] [0; 0; 0] a b c d prev StorageVersion).
Definition s_name (b : bytes) : bytes := match toy_Finish b with Ok (n, _) => n | _ => [] end.
Definition s_run1 : bytes := 1 :: s_footer s_root 0 9 1 2.
Definition s_run2 : bytes := 2 :: s_footer (bigE 32 (be_val s_run1)) 9 12 3 5.
Definition s_ref1 : RunRef := MkRef 0 9 1 2 (s_name s_run1) 1.
Definition s_ref2 : RunRef := MkRef 9 12 3 5 (s_name s_run2) 1.
Definition s_man : Manifest := MkMan StorageVersion (hexName s_root) [s_ref1; s_ref2].
Definition s_raw : bytes := [1; 2; 3].
Definition s_Marshal (m : Manifest) : res bytes := Ok s_raw.
Definition s_Unmarshal (b : bytes) : res Manifest := if beqb b s_raw then Ok s_man else Err "json".

(** A bucket with the runs, the manifest and the pointer. *)
Definition s_objects : list (bytes * bytes) := [(s_name s_run1, s_run1); (s_name s_run2, s_run2); (s_name s_raw, s_raw)].
Definition s_store : Store :=
  empty_store (∅ : dir) (Some (list_to_map s_objects, {[LatestPointer s_root := Dist.encode (s_name s_raw)]})).

Lemma s_lookup n b : (list_to_map s_objects : dir) !! n = Some b <-> (n, b) ∈ s_objects.
Proof.
  apply symmetry, elem_of_list_to_map. apply NoDup_ListNoDup. repeat constructor; vm_compute; intuition congruence.
Qed.

Lemma s_open n : Dist.Open s_store n =
  let* f := match (list_to_map s_objects : dir) !! n with
            | None => Err "not found"
            | Some b => match toy_Finish b with Ok (n', _) => if beqb n n' then Ok b else Err "corrupt" | _ => Err "corrupt" end
            end in Ok (@Cached toy f).
Proof.
  unfold Dist.Open. assert (LocalPath s_store n = None) as ->; [|reflexivity].
  unfold LocalPath, names. cbn [local s_store empty_store]. rewrite map_to_list_empty. by destruct (ValidHash n).
Qed.

Lemma s_content n b : (n, b) ∈ s_objects -> content s_store n b.
Proof.
  intros Hin. assert (Hn : s_name b = n /\ exists t, toy_Finish b = Ok (n, t)).
  { unfold s_objects in Hin. rewrite !elem_of_cons, elem_of_nil in Hin. destruct Hin as [[= -> ->]|[[= -> ->]|[[= -> ->]|[]]]]; (split; [reflexivity|]); eexists; vm_compute; reflexivity. }
  destruct Hn as [_ [t Ht]]. exists (@Cached toy b). split_and!; [|done|].
  - rewrite s_open, (proj2 (s_lookup n b) Hin), Ht. by destruct (beqb_spec n n).
  - intros off k Ho Hk Hl. unfold Read, bounds. cbn [Size cas_Size toy]. destruct (Z.ltb_spec (len b) off); [lia|]. destruct (Z.ltb_spec (len b - off) k); [lia|].
    cbn [orb rbind]. by destruct (Z.eqb_spec k 0) as [->|].
Qed.

Lemma s_backed r b prev : (rName r, b) ∈ s_objects -> footerSize <= len b ->
  (exists f, decodeFooter (footer_bytes b) = Ok f /\ FromTx f = rFromTx r /\ ToTx f = rToTx r /\
    FromHeight f = rFromHeight r /\ ToHeight f = rToHeight r /\ Prev f = prev) -> backed s_store prev r.
Proof. intros Hin Hl (f & Hf & G). exists f. split; [|done]. by eapply content_footer; [apply s_content|..]. Qed.

Lemma s_chain : chain s_store s_root [s_ref1; s_ref2].
Proof.
  refine (conj _ (conj eq_refl (conj _ (conj eq_refl I)))).
  - apply (s_backed _ s_run1); [left|vm_compute; congruence|]. eexists. split; [vm_compute; reflexivity|]. done.
  - exists (bigE 32 (be_val s_run1)). split; [vm_compute; reflexivity|].
    apply (s_backed _ s_run2); [right; left|vm_compute; congruence|]. eexists. split; [vm_compute; reflexivity|]. done.
Qed.

Lemma s_pointer : GetPointer s_store (LatestPointer s_root) = Ok (Some (Dist.encode (s_name s_raw))).
Proof. unfold GetPointer. cbn [ptrs s_store empty_store]. rewrite lookup_empty. unfold s_store. cbn [empty_store cas cas_GetPointer toy snd]. by rewrite lookup_singleton_eq. Qed.

Lemma s_joins nc : Join s_Unmarshal s_store None s_root nc = Ok (Some s_man).
Proof.
  apply (Join_ok _ _ _ _ (s_name s_raw) s_raw); [reflexivity|exact s_pointer| |reflexivity..|done|].
  - apply s_content. right; right; left.
  - exact s_chain.
Qed.

Lemma s_holds b : holds s_store b -> (s_name b, b) ∈ s_objects.
Proof.
  intros (n & t & blob & HF & Ho & Hs). assert (Hn : s_name b = n) by (unfold s_name; cbn in HF; by rewrite HF).
  rewrite s_open in Ho.
  destruct (list_to_map s_objects !! n) as [c|] eqn:E; [|discriminate Ho]. destruct (toy_Finish c) as [[n' t']| |] eqn:Ec; [|discriminate Ho..].
  destruct (beqb_spec n n') as [<-|]; [|discriminate Ho]. cbn [rbind] in Ho. injection Ho as <-. apply s_lookup in E.
  assert (c = b) as <-; [|by rewrite Hn]. destruct Hs as [Hl Hr]. cbn [Size cas_Size toy] in Hl. specialize (Hr 0 (len b) c).
  pose proof (len_nonneg b). rewrite Hr; [|lia|lia|]; [by rewrite drop_0, len_to_nat, firstn_all|].
  unfold Read, bounds. cbn [Size cas_Size toy]. rewrite Hl. destruct (Z.ltb_spec (len b) 0); [lia|]. destruct (Z.ltb_spec (len b - 0) (len b)); [lia|].
  cbn [orb rbind]. destruct (Z.eqb_spec (len b) 0) as [E0|].
  - destruct c; [done|]. unfold len in *. cbn in Hl. lia.
  - cbn [cas_ReadAt toy]. by rewrite drop_0, <- Hl, len_to_nat, firstn_all.
Qed.

Lemma join_authentic_witness :
  Join s_Unmarshal s_store None s_root false = Ok (Some s_man) /\ map unlevelled (mRuns s_man) = map unlevelled (mRuns s_man).
Proof.
  split; [exact (s_joins false)|].
  assert (Hnc : no_collision s_store s_store).
  { intros b1 b2 n t1 t2 H1 H2 F1 F2. apply s_holds in H1, H2. cbn in F1, F2.
    assert (s_name b1 = s_name b2) as En by (unfold s_name; by rewrite F1, F2).
    apply s_lookup in H1, H2. congruence. }
  assert (Hfree : root_free s_store s_root).
  { intros b t Hb%s_holds HF. cbn in HF. assert (Hn : s_name b = hexName s_root) by (unfold s_name; by rewrite HF). rewrite Hn in Hb.
    assert (HA : forallb (fun x => negb (beqb x.1 (hexName s_root))) s_objects = true) by (vm_compute; reflexivity).
    apply list_elem_of_In, (proj1 (forallb_forall _ _) HA) in Hb. cbn [fst] in Hb.
    destruct (beqb_spec (hexName s_root) (hexName s_root)) as [_|Hne]; [discriminate Hb|exact (Hne eq_refl)]. }
  refine (join_authentic ∅ _ s_store ∅ _ s_store s_Unmarshal s_root false true s_man s_man (rtc_refl _ _) (rtc_refl _ _)
    eq_refl eq_refl Hnc Hfree Hfree (s_joins false) (s_joins true) eq_refl).
Defined.

Lemma join_opens_witness : (let* m := Open.loadManifest (Some s_man) in Open.root_manifest s_root m) = Ok s_man.
Proof. exact (proj1 (join_opens s_Unmarshal s_store s_root false (Some s_man) eq_refl (s_joins false))). Defined.

(** The publisher: the two runs are in its spool, nothing was published yet. *)
Lemma publish_join_witness : exists s' p',
  Publish s_Marshal (@empty_store toy ∅ None) (MkPub [] []) s_man s_root = Ok (s', p') /\
  Join s_Unmarshal s_store None s_root false = Ok (Some s_man).
Proof.
  assert (exists n t, cas_Finish s_raw = Ok (n, t)) as (n & t & Hn) by (do 2 eexists; reflexivity).
  assert (exists s' p', Publish s_Marshal (@empty_store toy ∅ None) (MkPub [] []) s_man s_root = Ok (s', p') /\
    forall k f, spool s' !! k = Some f -> k = n /\ f = s_raw ++ t) as (s' & p' & HP & Hsp).
  { unfold Publish. cbn [publishable mRuns s_man Terminal rLevel s_ref1 s_ref2]. cbn [last s_Marshal rbind published lastManifest].
    unfold Put. rewrite Hn. cbn [rbind]. unfold writeDurable, rename. rewrite lookup_insert_eq. cbn [rbind].
    unfold SetLatest, SetPointer, writeDurable, rename. rewrite lookup_insert_eq. do 2 eexists. split; [reflexivity|].
    change (beqb [] []) with true. cbn [negb andb spool empty_store]. intros k f Hk. destruct (decide (k = n)) as [->|Hne]; [by rewrite lookup_insert_eq in Hk; simplify_eq|].
    rewrite lookup_insert_ne in Hk by done. apply lookup_delete_Some in Hk as [Hne' Hk]. by rewrite lookup_insert_ne in Hk. }
  assert (Hhead : rName s_ref2 <> published (MkPub [] [])) by (vm_compute; discriminate).
  exists s', p'. split; [exact HP|].
  refine (publish_join s_Marshal s_Unmarshal _ _ s_man s_root s' p' s_ref2 s_store false eq_refl Hhead eq_refl eq_refl _ HP _ _ s_chain).
  - intros raw [= <-]. reflexivity.
  - destruct (Publish_result s_Marshal _ _ s_man _ _ _ s_ref2 eq_refl Hhead HP) as (raw & name & t' & [= <-] & HF & _ & Hg & _).
    rewrite Hg, s_pointer. do 3 f_equal. cbn in HF. unfold s_name. by rewrite HF.
  - intros k b u Hk HF. apply Hsp in Hk as [-> Hb]. assert (b = s_raw) as ->.
    { assert (HL : forall c m w, toy_Finish c = Ok (m, w) -> length w = 8%nat).
      { intros c m w. unfold toy_Finish. destruct (_ <? _); [|discriminate]. intros E. injection E as _ <-. reflexivity. }
      apply app_inj_2 in Hb as [-> _]; [reflexivity|]. by rewrite (HL _ _ _ HF), (HL _ _ _ Hn). }
    replace n with (s_name s_raw) by (unfold s_name; cbn in Hn; by rewrite Hn). apply s_content. right; right; left.
Defined.

End Sample.

End Join.
