(* ===== verification/StateDB.v ===== *)
(** * store/statedb.go, store/ethdb.go: the state a VM sees

    Reads of an account, a slot or code as of the end of a block: the ceiling of
    the height, the cached descent of Flat.v, and below it the genesis state; the
    read-only overlay libevm is given; and the key-value store over code and the
    misc log. Several accesses make up a read, and the writer runs beside it:
    [sc] is the database the ceiling is read from, [c0], [s], [c1] what [stateRow]
    sees. The RLP coder, Keccak256 and uint256 are parameters; the code cache in
    front of the code descent is left out. *)

From S2P Require Import Prelude Bytes Rows Ef Format Sha256 Container Memtable MemRecover MemRead Sst RunFile Postings Seal Window Growth KMerge DB Contents Merge Refine DBReads DBHeights Flat Misc.
Import Format.

Module StateDB.
Import Memtable MemRecover MemRead RunFile Seal Window Growth DB Contents Merge Refine DBReads DBHeights Flat.

(** types.StateAccount and types.GenesisAlloc. A Go map is a [gmap]; a nil balance
    and a nil storage map are [None]. *)
Record StateAccount := MkAcc { Nonce : Z; Balance : Z; Root : bytes; CodeHash : bytes }.
Record GenesisAccount := MkGA { gNonce : Z; gBalance : option Z; gCode : bytes; gStorage : option (gmap bytes bytes) }.
Abbreviation GenesisAlloc := (gmap bytes GenesisAccount).

(** common.BytesToHash on a slice of at most 32 bytes copied to the front. *)
Definition copy32 (b : bytes) : bytes := take 32 b ++ replicate (32 - length b) 0.

Section Reads.
Context `{SSTable} (Keccak256 : bytes -> bytes).
Context (decode_acc : bytes -> res StateAccount) (decode_root : bytes -> res bytes) (encode_slot : bytes -> res bytes) (MustFromBig : Z -> res Z).

Definition SentinelStorageRoot : bytes := Keccak256 (str "epochdb: sentinel storage root").
Definition EmptyCodeHash : bytes := Keccak256 [].

Definition decodeAccount (val : bytes) : res (option StateAccount) :=
  match val with
  | [] => Ok None
  | _ => let* acc := decode_acc val in Ok (Some (MkAcc (Nonce acc) (Balance acc) SentinelStorageRoot (CodeHash acc)))
  end.

(** The genesis floor of an account and of a slot. *)
Definition genesis_account (g : GenesisAlloc) (addr : bytes) : res (option StateAccount) :=
  match g !! addr with
  | None => Ok None
  | Some ga =>
      let* bal := match gBalance ga with Some b => MustFromBig b | None => Ok 0 end in
      Ok (Some (MkAcc (gNonce ga) bal SentinelStorageRoot (match gCode ga with [] => EmptyCodeHash | c => Keccak256 c end)))
  end.
Definition genesis_slot (g : GenesisAlloc) (addr slot : bytes) : res bytes :=
  match (ga ← g !! addr; st ← gStorage ga; st !! copy32 slot) with
  | None => Ok []
  | Some v => if beqb v (replicate 32 0) then Ok [] else encode_slot v
  end.

(** A read through the ceiling and the cache: the memo and the cache afterwards come
    back with the answer. *)
Definition Account (ceil : option (Z * Z)) (sc : nat -> DB) (c0 : flatCache) (s : nat -> DB) (c1 : flatCache)
    (g : GenesisAlloc) (addr : bytes) (height : Z) : res (option StateAccount * option (Z * Z) * flatCache) :=
  let* (at_, floor, ceil) := txCeiling ceil sc height in
  let* (val, c) := if floor then Ok (None, c1) else stateRow c0 s c1 (AccountPrefix addr) height at_ in
  match val with
  | Some v => let* a := decodeAccount v in Ok (a, ceil, c)
  | None => let* a := genesis_account g addr in Ok (a, ceil, c)
  end.

(** The empty slice is zero. *)
Definition Storage (ceil : option (Z * Z)) (sc : nat -> DB) (c0 : flatCache) (s : nat -> DB) (c1 : flatCache)
    (g : GenesisAlloc) (addr slot : bytes) (height : Z) : res (bytes * option (Z * Z) * flatCache) :=
  let* (at_, floor, ceil) := txCeiling ceil sc height in
  let* (val, c) := if floor then Ok (None, c1) else stateRow c0 s c1 (SlotPrefix addr slot) height at_ in
  match val with
  | Some v => Ok (v, ceil, c)
  | None => let* v := genesis_slot g addr slot in Ok (v, ceil, c)
  end.

(** [order] is the order a range over the alloc takes; [None] is nil. *)
Definition CodeByHash (s : nat -> DB) (order : list (bytes * GenesisAccount)) (h : bytes) : res (option bytes) :=
  if beqb h EmptyCodeHash || beqb h (replicate 32 0) then Ok None else
  let* b := Code_descent s h in
  match b with
  | Some b => Ok (Some b)
  | None =>
      match List.find (fun x => negb (beqb (gCode x.2) []) && beqb (Keccak256 (gCode x.2)) h) order with
      | Some x => Ok (Some (gCode x.2))
      | None => Ok None
      end
  end.

Definition CodeOf (ceil : option (Z * Z)) (sc : nat -> DB) (c0 : flatCache) (s : nat -> DB) (c1 : flatCache) (sd : nat -> DB)
    (g : GenesisAlloc) (order : list (bytes * GenesisAccount)) (addr : bytes) (height : Z) : res (option bytes * option (Z * Z) * flatCache) :=
  let* (acc, ceil, c) := Account ceil sc c0 s c1 g addr height in
  match acc with
  | None => Ok (None, ceil, c)
  | Some a => let* b := CodeByHash sd order (CodeHash a) in Ok (b, ceil, c)
  end.

(** ** The overlay *)

Record Overlay := MkOv { ogenesis : GenesisAlloc; otarget : Z; olatest : bool }.
Definition StateAt (g : GenesisAlloc) (height : Z) : Overlay := MkOv g height false.
Definition StateLatest (g : GenesisAlloc) : Overlay := MkOv g 0 true.

(** [height]: [sh] is what Head sees. *)
Definition ov_height (o : Overlay) (sh : nat -> DB) : res Z :=
  if olatest o then let* h := Head sh in Ok (default 0 h) else Ok (otarget o).

Definition GetAccount (o : Overlay) (sh : nat -> DB) ceil sc c0 s c1 (addr : bytes) :=
  let* h := ov_height o sh in Account ceil sc c0 s c1 (ogenesis o) addr h.
Definition GetStorage (o : Overlay) (sh : nat -> DB) ceil sc c0 s c1 (addr key : bytes) :=
  let* h := ov_height o sh in Storage ceil sc c0 s c1 (ogenesis o) addr key h.
Definition ContractCode (o : Overlay) (s : nat -> DB) (order : list (bytes * GenesisAccount)) (h : bytes) := CodeByHash s order h.
Definition ContractCodeSize (o : Overlay) (s : nat -> DB) (order : list (bytes * GenesisAccount)) (h : bytes) : res Z :=
  let* b := ContractCode o s order h in Ok (len (default [] b)).

(** [Hash]: the header's root at the view's height; anything missing panics. *)
Definition Hash (o : Overlay) (sh s : nat -> DB) : res bytes :=
  let* n := ov_height o sh in
  match HeaderRLPAt s n with
  | Ok (Some raw) => match decode_root raw with Ok r => Ok r | _ => Panic end
  | _ => Panic
  end.

(** UpdateAccount, UpdateStorage, DeleteAccount, DeleteStorage, UpdateContractCode and
    Commit. *)
Definition overlay_write : res unit := Err "epochdb overlay: read-only historical view".

(** ** ethdb *)

Definition EthDB_code (order : list (bytes * GenesisAccount)) : gmap bytes bytes :=
  fold_left (fun m x => match gCode x.2 with [] => m | c => <[Keccak256 c := c]> m end) order ∅.

Definition isCodeKey (k : bytes) : option bytes :=
  if (len k =? 33) && (match k with c :: _ => c =? 99 | [] => false end) then Some (drop 1 k) else None.

Record ethKV := MkKV { misc : Misc.MiscStore; genesis : gmap bytes bytes }.

Definition kv_Has (a : ethKV) (s : nat -> DB) (key : bytes) : res bool :=
  match isCodeKey key with
  | Some h =>
      match genesis a !! h with
      | Some _ => Ok true
      | None => let* b := Code_descent s h in Ok (bool_decide (is_Some b))
      end
  | None => Ok (bool_decide (is_Some (Misc.Get (misc a) key)))
  end.

Definition kv_Get (a : ethKV) (s : nat -> DB) (key : bytes) : res bytes :=
  match isCodeKey key with
  | Some h =>
      let* b := Code_descent s h in
      match b with
      | Some b => Ok b
      | None => match genesis a !! h with Some b => Ok b | None => Err "not found" end
      end
  | None => match Misc.Get (misc a) key with Some v => Ok v | None => Err "not found" end
  end.

Definition kv_Put (a : ethKV) (key value : bytes) : res ethKV :=
  match isCodeKey key with
  | Some _ => Ok a
  | None => let* m := Misc.Put (misc a) key value in Ok (MkKV m (genesis a))
  end.

Definition kv_Delete (a : ethKV) (key : bytes) : res ethKV :=
  match isCodeKey key with
  | Some _ => Ok a
  | None => let* m := Misc.Delete (misc a) key in Ok (MkKV m (genesis a))
  end.

(** Batches: an op is a put or, without a value, a delete. *)
Record kvOp := MkOp { okey : bytes; ovalue : bytes; odel : bool }.
Record ethKVBatch := MkBatch { ops : list kvOp; bsize : Z }.
Definition NewBatch : ethKVBatch := MkBatch [] 0.
Definition batch_Put (b : ethKVBatch) (k v : bytes) : ethKVBatch := MkBatch (ops b ++ [MkOp k v false]) (i64 (bsize b + (len k + len v + 1))).
Definition batch_Delete (b : ethKVBatch) (k : bytes) : ethKVBatch := MkBatch (ops b ++ [MkOp k [] true]) (i64 (bsize b + (len k + 1))).
Definition batch_Reset (b : ethKVBatch) : ethKVBatch := NewBatch.

(** [Write]: what the store is when it returns, and the error if an operation had one. *)
Fixpoint batch_Write (a : ethKV) (l : list kvOp) : ethKV * res unit :=
  match l with
  | [] => (a, Ok tt)
  | op :: l =>
      match (if odel op then kv_Delete a (okey op) else kv_Put a (okey op) (ovalue op)) with
      | Ok a => batch_Write a l
      | Err m => (a, Err m)
      | Panic => (a, Panic)
      end
  end.

(** [Replay] onto any writer. *)
Fixpoint batch_Replay {W} (put : W -> bytes -> bytes -> res W) (del : W -> bytes -> res W) (w : W) (l : list kvOp) : W * res unit :=
  match l with
  | [] => (w, Ok tt)
  | op :: l =>
      match (if odel op then del w (okey op) else put w (okey op) (ovalue op)) with
      | Ok w => batch_Replay put del w l
      | Err m => (w, Err m)
      | Panic => (w, Panic)
      end
  end.

(** An iterator over a snapshot of the matching misc keys. *)
Record ethKVIter := MkIter { ikeys : list bytes; ipos : Z }.
Definition NewIterator (a : ethKV) (prefix start : bytes) : ethKVIter :=
  MkIter (merge_sort ble (List.filter (fun k => has_prefix k prefix && bleb (prefix ++ start) k) (map_to_list (Misc.sm (misc a))).*1)) (-1).
Definition iter_Next (i : ethKVIter) : ethKVIter * bool :=
  let i := MkIter (ikeys i) (ipos i + 1) in (i, ipos i <? len (ikeys i)).
Definition iter_Key (i : ethKVIter) : option bytes :=
  if (ipos i <? 0) || (len (ikeys i) <=? ipos i) then None else ikeys i !! Z.to_nat (ipos i).
Definition iter_Value (i : ethKVIter) (a : ethKV) (s : nat -> DB) : option (res bytes) :=
  match iter_Key i with None => None | Some k => Some (kv_Get a s k) end.

End Reads.

(** ** Reads are the state at the end of the block *)

Section Exact.
Context `{SSTLaws} (casName : bytes -> bytes) (Keccak256 : bytes -> bytes) (EncodeBare : bytes -> list bytes -> res bytes).
Hypothesis keccak_len : forall x, len (Keccak256 x) = 32.
Context (decode_acc : bytes -> res StateAccount) (encode_slot : bytes -> res bytes) (MustFromBig : Z -> res Z).
Abbreviation seen := (moments casName Keccak256 EncodeBare).

(** The memo holds the boundary slot of a stored block. *)
Definition ceil_ok (X : store) (c : option (Z * Z)) : Prop :=
  match c with None => True | Some (h, a) => ends_at X h a end.

Lemma txCeiling_stored ceil sc X height at_ :
  shows (sc 0%nat) X -> seen sc -> ceil_ok X ceil -> u64_ok height -> ends_at X height at_ ->
  exists ceil', txCeiling ceil sc height = Ok (at_, false, ceil') /\ ceil_ok X ceil'.
Proof.
  intros Hd Hm Hc Hu He. unfold txCeiling.
  assert (Hr : TxNumAtEndOf sc height = Ok (Some at_)).
  { destruct (ends_below Keccak256 keccak_len _ X height at_ Hd Hu He) as ((H1 & H2) & _). destruct (next_bounds _ X [] Hd) as (Hb & _).
    destruct He as (f & n & Ec & Hf & Hn & ->). pose proof Hd as (base & cs & L & p & HI & (E1 & _)). rewrite <- E1 in Ec.
    unfold TxNumAtEndOf, BlockTxRange.
    pose proof (chain_read casName Keccak256 EncodeBare keccak_len sc base cs L p famBlk height (blk_row f n) HI Hm ltac:(unfold famBlk; lia) Hu Ec) as EC.
    change (famByHeight famBlk) with true in EC. rewrite EC.
    cbn [rbind]. unfold blk_row. rewrite len_app, !len_be. cbn [negb]. change (Z.of_nat 8 + Z.of_nat 4 =? 12) with true. cbn [negb rbind].
    rewrite take_app_length', drop_app_length' by (rewrite length_be; done). rewrite !be_val_be_small by (unfold u64_ok in *; simpl; lia).
    rewrite (u64_small f) by done. unfold u32. rewrite (Z.mod_small n) by lia. rewrite u64_small; [done|]. unfold u64_ok in *. lia. }
  destruct ceil as [[h a]|].
  - cbn [fst snd]. destruct (Z.eqb_spec h height) as [->|].
    + exists (Some (height, a)). split; [|done]. by rewrite (ends_unique X height a at_ Hc He).
    + rewrite Hr. cbn [rbind]. by exists (Some (height, at_)).
  - rewrite Hr. cbn [rbind]. by exists (Some (height, at_)).
Qed.

(** The state at the end of a block, of the store and the genesis below it. *)
Definition account_at (X : store) (g : GenesisAlloc) (addr : bytes) (at_ : Z) : res (option StateAccount) :=
  match last_write (aHist X (AccountPrefix addr)) at_ with
  | Some (v, _) => decodeAccount Keccak256 decode_acc v
  | None => genesis_account Keccak256 MustFromBig g addr
  end.
Definition slot_at (X : store) (g : GenesisAlloc) (addr slot : bytes) (at_ : Z) : res bytes :=
  match last_write (aHist X (SlotPrefix addr slot)) at_ with
  | Some (v, _) => Ok v
  | None => genesis_slot encode_slot g addr slot
  end.

(** A read beside the writer: the ceiling sees the store at [X] or later, the row read
    at [X2] or later, the fill at [Y] or later. *)
Record beside (sc s : nat -> DB) (X X2 Y : store) (ceil : option (Z * Z)) (c0 c1 : flatCache) : Prop := {
  bs_ceil : shows (sc 0%nat) X; bs_seen : seen sc; bs_row : shows (s 0%nat) X2; bs_seen2 : seen s;
  bs_grow : grows X X2; bs_grow2 : grows X2 Y; bs_memo : ceil_ok X ceil; bs_c0 : flat_ok X2 c0; bs_c1 : flat_ok Y c1 }.

Lemma row_exact sc s X X2 Y ceil c0 c1 prefix height at_ :
  beside sc s X X2 Y ceil c0 c1 -> u64_ok height -> ends_at X height at_ -> state_prefix prefix ->
  exists ceil' c2, txCeiling ceil sc height = Ok (at_, false, ceil') /\ ceil_ok X ceil' /\
    stateRow c0 s c1 prefix height at_ = Ok (fst <$> last_write (aHist X prefix) at_, c2) /\ flat_ok Y c2.
Proof.
  intros [B1 B2 B3 B4 B5 B6 B7 B8 B9] Hu He Hp. destruct (txCeiling_stored ceil sc X height at_) as (ceil' & E1 & H1); try done.
  destruct (stateRow_exact casName Keccak256 EncodeBare keccak_len s X2 Y c0 c1 prefix height at_) as (c2 & E2 & H2); try done; [by eapply ends_grows|].
  exists ceil', c2. split_and!; try done. rewrite E2. do 2 f_equal. destruct (ends_below Keccak256 keccak_len _ X height at_ B1 Hu He) as ((_ & Hat) & _).
  destruct B5 as (_ & Hg & _). by rewrite Hg.
Qed.

(** C11: an account or a slot reads as it was at the end of the block. At a stored
    height, with the memo, the cache and the database moving on beside the read, the
    answer is the last write at or before the block's boundary slot (an empty account
    value being a deletion), and without one the genesis state; the memo and the cache
    left behind are still right. A height no block is stored at is the genesis state
    for height 0 and an error for any other. *)
Theorem statedb_exact sc s X X2 Y ceil c0 c1 g addr slot height :
  beside sc s X X2 Y ceil c0 c1 -> u64_ok height -> len addr = 20 -> len slot = 32 ->
  (forall at_, ends_at X height at_ ->
    (exists ceil' c2, Account Keccak256 decode_acc MustFromBig ceil sc c0 s c1 g addr height =
       (let* a := account_at X g addr at_ in Ok (a, ceil', c2)) /\ ceil_ok X ceil' /\ flat_ok Y c2) /\
    (exists ceil' c2, Storage encode_slot ceil sc c0 s c1 g addr slot height =
       (let* v := slot_at X g addr slot at_ in Ok (v, ceil', c2)) /\ ceil_ok X ceil' /\ flat_ok Y c2)) /\
  (TxNumAtEndOf sc height = Ok None -> (forall h a, ceil = Some (h, a) -> h <> height) ->
    Account Keccak256 decode_acc MustFromBig ceil sc c0 s c1 g addr height =
      (if height =? 0 then let* a := genesis_account Keccak256 MustFromBig g addr in Ok (a, ceil, c1) else Err "store: block is not stored")).
Proof.
  intros HB Hu Ha Hs. split.
  - intros at_ He. split.
    + destruct (row_exact sc s X X2 Y ceil c0 c1 (AccountPrefix addr) height at_) as (ceil' & c2 & E1 & H1 & E2 & H2); try done; [by apply SpAccount|].
      exists ceil', c2. split_and!; try done. unfold Account, account_at. rewrite E1. cbn [rbind]. rewrite E2. cbn [rbind].
      by destruct (last_write _ at_) as [[v n]|].
    + destruct (row_exact sc s X X2 Y ceil c0 c1 (SlotPrefix addr slot) height at_) as (ceil' & c2 & E1 & H1 & E2 & H2); try done; [by apply SpSlot|].
      exists ceil', c2. split_and!; try done. unfold Storage, slot_at. rewrite E1. cbn [rbind]. rewrite E2. cbn [rbind].
      by destruct (last_write _ at_) as [[v n]|].
  - intros Hn Hmemo. unfold Account, txCeiling.
    replace (match ceil with Some c => if c.1 =? height then Some c.2 else None | None => None end) with (@None Z).
    + rewrite Hn. cbn [rbind]. by destruct (height =? 0).
    + destruct ceil as [[h a]|]; [|done]. cbn. destruct (Z.eqb_spec h height); [|done]. by destruct (Hmemo h a).
Qed.

(** Code by hash, on a database at rest. *)
Lemma CodeByHash_exact d X order h : shows d X -> h <> EmptyCodeHash Keccak256 -> h <> replicate 32 0 ->
  exists r, CodeByHash Keccak256 (fun _ => d) order h = Ok r /\
    match aCode X h with
    | Some b => r = Some b
    | None => match r with
              | Some c => Keccak256 c = h /\ exists x, x ∈ order /\ gCode x.2 = c
              | None => forall x, x ∈ order -> gCode x.2 <> [] -> Keccak256 (gCode x.2) <> h
              end
    end.
Proof.
  intros Hd H1 H2. unfold CodeByHash. destruct (beqb_spec h (EmptyCodeHash Keccak256)); [done|]. destruct (beqb_spec h (replicate 32 0)); [done|]. cbn [orb].
  rewrite (code_read_exact d X h Hd). cbn [rbind]. destruct (aCode X h) as [b|]; [by eexists|].
  destruct (List.find _ order) as [x|] eqn:Ef; eexists; (split; [reflexivity|]).
  - apply find_some in Ef as [Hin Hx]. apply andb_true_iff in Hx as [_ Hx]. split; [by destruct (beqb_spec (Keccak256 (gCode x.2)) h)|].
    exists x. split; [by apply list_elem_of_In|done].
  - intros x Hin Hne E. apply list_elem_of_In in Hin. apply (find_none _ _ Ef) in Hin. subst h.
    destruct (beqb_spec (gCode x.2) []); [done|]. by destruct (beqb_spec (Keccak256 (gCode x.2)) (Keccak256 (gCode x.2))).
Qed.

(** ** The key-value store *)

(** The misc map after a batch: every operation on a key that is not code's, in order. *)
Definition applied (l : list kvOp) (m : gmap bytes bytes) : gmap bytes bytes :=
  fold_left (fun m op => match isCodeKey (okey op) with Some _ => m | None => if odel op then delete (okey op) m else <[okey op := ovalue op]> m end) l m.

Lemma kv_step a op : is_Some (Misc.sf (misc a)) ->
  exists a', (if odel op then kv_Delete a (okey op) else kv_Put a (okey op) (ovalue op)) = Ok a' /\ is_Some (Misc.sf (misc a')) /\
    genesis a' = genesis a /\ Misc.sm (misc a') = applied [op] (Misc.sm (misc a)).
Proof.
  intros [f Hf]. unfold applied. cbn [fold_left]. unfold kv_Delete, kv_Put. destruct (odel op); destruct (isCodeKey (okey op)); try (exists a; split_and!; by eauto).
  - unfold Misc.Delete. destruct (Misc.sm (misc a) !! okey op) as [v|] eqn:E; rewrite ?Hf; cbn [rbind]; eexists; (split; [reflexivity|]); split_and!; cbn; eauto.
    by rewrite delete_id.
  - unfold Misc.Put. rewrite Hf. destruct (Misc.sm (misc a) !! okey op) as [v|] eqn:E; [destruct (beqb_spec v (ovalue op)) as [->|]|]; cbn [rbind];
      eexists; (split; [reflexivity|]); split_and!; cbn; eauto. by rewrite insert_id.
Qed.

Lemma batch_write_ok l : forall a, is_Some (Misc.sf (misc a)) ->
  exists a', batch_Write a l = (a', Ok tt) /\ genesis a' = genesis a /\ Misc.sm (misc a') = applied l (Misc.sm (misc a)).
Proof.
  induction l as [|op l IH]; intros a Ha; cbn [batch_Write]; [by exists a|].
  destruct (kv_step a op Ha) as (a1 & -> & H1 & G1 & M1). destruct (IH a1 H1) as (a2 & -> & G2 & M2). exists a2. split_and!; [done|congruence|].
  rewrite M2, M1. done.
Qed.

Lemma replay_is_write l : forall a, batch_Replay kv_Put kv_Delete a l = batch_Write a l.
Proof. induction l as [|op l IH]; intros a; [done|]. cbn [batch_Replay batch_Write]. destruct (if odel op then _ else _); [apply IH|done..]. Qed.

(** the store libevm writes through. On a database at rest, [Has] says whether
    [Get] finds the key; a batch on an open log always goes through, [Replay] onto the
    store is [Write], and then a key reads as the batch's last operation on it left it,
    while keys of contract code read from the runs and the genesis code as before. *)
Theorem ethkv_batch d X a l key : shows d X -> is_Some (Misc.sf (misc a)) ->
  (forall k, (kv_Has a (fun _ => d) k = Ok true <-> exists v, kv_Get a (fun _ => d) k = Ok v)) /\
  exists a', batch_Write a l = (a', Ok tt) /\ batch_Replay kv_Put kv_Delete a l = (a', Ok tt) /\
    kv_Get a' (fun _ => d) key =
      match isCodeKey key with
      | Some _ => kv_Get a (fun _ => d) key
      | None => match applied l (Misc.sm (misc a)) !! key with Some v => Ok v | None => Err "not found" end
      end.
Proof.
  intros Hd Ha. split.
  - intros k. unfold kv_Has, kv_Get, Misc.Get. destruct (isCodeKey k) as [h|].
    + rewrite (code_read_exact d X h Hd). cbn [rbind]. destruct (genesis a !! h), (aCode X h); cbn [rbind]; split; intros Hx; eauto; try done.
      by destruct Hx as [? ?].
    + destruct (Misc.sm (misc a) !! k); split; intros Hx; eauto; try done. by destruct Hx as [? ?].
  - destruct (batch_write_ok l a Ha) as (a' & Ew & Hg & Hm). exists a'. rewrite replay_is_write. split_and!; try done.
    unfold kv_Get, Misc.Get. rewrite Hg, Hm. by destruct (isCodeKey key).
Qed.

(** The iterator walks the misc keys of the prefix from the start on, ascending. *)
Lemma NewIterator_keys a prefix start : let i := NewIterator a prefix start in
  StronglySorted ble (ikeys i) /\ NoDup (ikeys i) /\
  forall k, k ∈ ikeys i <-> is_Some (Misc.sm (misc a) !! k) /\ has_prefix k prefix = true /\ ble (prefix ++ start) k.
Proof.
  cbn. split_and!.
  - apply StronglySorted_merge_sort; apply _.
  - rewrite merge_sort_Permutation. apply NoDup_ListNoDup, List.NoDup_filter, NoDup_ListNoDup, NoDup_fst_map_to_list.
  - intros k. rewrite merge_sort_Permutation, list_elem_of_In, filter_In, <- list_elem_of_In, list_elem_of_fmap.
    assert (HK : (exists y, k = y.1 /\ y ∈ map_to_list (Misc.sm (misc a))) <-> is_Some (Misc.sm (misc a) !! k)).
    { split; [intros ([k' v] & -> & Hv%elem_of_map_to_list); by exists v|]. intros [v Hv]. exists (k, v). split; [done|]. by apply elem_of_map_to_list. }
    rewrite HK, andb_true_iff. destruct (bleb_spec (prefix ++ start) k) as [Hb|Hb]; intuition done.
Qed.

End Exact.

Definition s_decode (b : bytes) : res StateAccount := Ok (MkAcc (len b) 0 [] []).

Lemma s_beside X : shows t1 X -> beside s_name sample_keccak sample_bare (fun _ => t1) (fun _ => t1) X X X None s_flat s_flat.
Proof. intros Hd. split; try done; first [apply new_flat_ok|intros i; apply rtc_refl]. Qed.

Lemma statedb_exact_witness : exists X r,
  Account sample_keccak s_decode (fun x => Ok x) None (fun _ => t1) s_flat (fun _ => t1) s_flat ∅ (replicate 20 7) 1 = Ok r /\
  Ok r.1.1 = account_at sample_keccak s_decode (fun x => Ok x) X ∅ (replicate 20 7) 2.
Proof.
  destruct sample_shows as (X1 & _ & _ & _ & H1 & (A1 & _) & _). exists X1.
  destruct (statedb_exact s_name sample_keccak sample_bare sample_keccak_len s_decode (fun b => Ok b) (fun x => Ok x)
    (fun _ => t1) (fun _ => t1) X1 X1 X1 None s_flat s_flat ∅ (replicate 20 7) (replicate 32 9) 1) as [G _].
  - by apply s_beside.
  - unfold u64_ok. lia.
  - reflexivity.
  - reflexivity.
  - destruct (G 2) as [(ceil' & c2 & E & _) _]; [exists 0, 2; split; [rewrite A1; vm_compute; reflexivity|unfold u64_ok; lia]|].
    rewrite E. assert (exists x, account_at sample_keccak s_decode (fun x => Ok x) X1 ∅ (replicate 20 7) 2 = Ok x) as [x Ex].
    { unfold account_at. destruct (last_write _ 2) as [[v n]|]; [destruct v; cbn; by eexists|by eexists]. }
    rewrite Ex. exists (x, ceil', c2). split; reflexivity.
Defined.

Lemma ethkv_batch_witness : exists a',
  batch_Write (MkKV Misc.fresh ∅) [MkOp [1] [2] false; MkOp [1] [3] false] = (a', Ok tt) /\ kv_Get a' (fun _ => t1) [1] = Ok [3].
Proof.
  destruct sample_shows as (X1 & _ & _ & _ & H1 & _).
  destruct (ethkv_batch t1 X1 (MkKV Misc.fresh ∅) [MkOp [1] [2] false; MkOp [1] [3] false] [1] H1 ltac:(by eexists)) as [_ (a' & E & _ & G)].
  exists a'. split; [exact E|]. rewrite G. reflexivity.
Defined.

End StateDB.
