(* ===== verification/VmState.v ===== *)
(** * vmexec/engine.go, vmexec/flatdb.go, vmexec/recover.go: the executor's latest state

    The engine stacks the overlay of writes since the last freeze, a frozen overlay
    a roll is merging, and the rolled run (LatestOverlay.v, LatestView.v), beside the
    dirty trie (Dirty.v). [flatDB] reads through it with the open block's writes on
    top, [maybeRoll] and [finishRoll] move the checkpoint on, and [rebuild] brings the
    overlay back after a restart from the store's rows. A Go map is a [gmap], a set a
    [gset]. The roll's goroutine is its result; the RLP coder and Keccak256 are
    parameters. *)

From S2P Require Import Prelude Bytes Rows Ef Format Sha256 Container Memtable MemRecover MemRead Sst RunFile Postings Seal Window Growth KMerge DB LatestRun LatestOverlay LatestView Nibbles Dirty.
Import Format.

Module VmState.

(** ** Flat keys and write sets *)

Definition accountKey (h : bytes) : bytes := h ++ [0].
Definition slotKey (ah slotHash : bytes) : bytes := ah ++ [1] ++ slotHash.

(** [kv] pairs in order, and the last value per key. *)
Record writeSet := MkWS { ops : list (bytes * bytes); wm : gmap bytes bytes }.
Definition newWriteSet : writeSet := MkWS [] ∅.
Definition put (w : writeSet) (k v : bytes) : writeSet := MkWS (ops w ++ [(k, v)]) (<[k := v]> (wm w)).

(** ** The engine *)

Record engine := MkEngine {
  overlay : Overlay.Overlay; frozen : option Overlay.Overlay; runs : list LatestRun.Run;
  owners : gset bytes; frozenOwners : gset bytes;
  dirty : Dirty.Dirty; gen : Z; rollRoot : bytes; rollH : Z }.

Definition view (s : engine) : View.View :=
  View.NewMultiView (overlay s :: match frozen s with Some f => [f] | None => [] end) (runs s).

Definition get (s : engine) (key : bytes) : res (option bytes) := View.Get (view s) key.

Definition with_overlay (s : engine) (o : Overlay.Overlay) (ow : gset bytes) : engine :=
  MkEngine o (frozen s) (runs s) ow (frozenOwners s) (dirty s) (gen s) (rollRoot s) (rollH s).

(** [for it.Next()], collecting the rows. *)
Fixpoint collect {I} `{Iterator I} (fuel : nat) (it : I) : res (list row) :=
  match fuel with
  | O => Panic
  | S fuel =>
      let* o := it_next it in
      match o with
      | None => Ok []
      | Some it => let* l := collect fuel it in Ok ((it_key it, it_val it) :: l)
      end
  end.

Definition has_next {I} `{Iterator I} (it : I) : res bool := let* o := it_next it in Ok (bool_decide (is_Some o)).

Definition tombstoneSlots (s : engine) (ah : bytes) : res engine :=
  let lo := Some (ah ++ [1]) in
  let hi := Some (ah ++ [2]) in
  let* any :=
    if bool_decide (ah ∈ owners s) || bool_decide (ah ∈ frozenOwners s) then Ok true
    else let* it := View.Iter (View.NewView None (runs s)) lo hi in has_next it in
  if negb any then Ok s else
  let* it := View.Iter (view s) lo hi in
  let* l := collect (S (View.view_fuel (view s))) it in
  let* o := Overlay.put_all (overlay s) (map (fun r => (r.1, [])) l) in
  Ok (with_overlay s o (owners s)).

Fixpoint applyOverlay (s : engine) (l : list (bytes * bytes)) : res engine :=
  match l with
  | [] => Ok s
  | (k, v) :: l =>
      let* s := if (len k =? 33) && (len v =? 0) then tombstoneSlots s (take 32 k) else Ok s in
      let ow := if (len k =? 65) && (0 <? len v) then {[ take 32 k ]} ∪ owners s else owners s in
      let* o := Overlay.Put (overlay s) k v in
      applyOverlay (with_overlay s o ow) l
  end.

Fixpoint applyDirty (d : Dirty.Dirty) (l : list (bytes * bytes)) : res Dirty.Dirty :=
  match l with [] => Ok d | (k, v) :: l => let* d := Dirty.Apply k v d in applyDirty d l end.

(** ** Rolls *)

Definition maybeRoll (s : engine) (budget h : Z) (root : bytes) : engine :=
  if bool_decide (is_Some (frozen s)) || (Overlay.Bytes (overlay s) <? budget) then s
  else MkEngine Overlay.NewOverlay (Some (overlay s)) (runs s) ∅ (owners s) (dirty s) (gen s) root h.

(** What the roll's goroutine sends. The view it merges is the frozen overlay over the
    runs it was handed. *)
Record rollResult := MkRoll { rrun : LatestRun.Run; rroot : bytes; rfile : bytes (* the new file's root *) }.
Definition roll_view (s : engine) : View.View := View.NewView (frozen s) (runs s).

(** [r] is what waits in the channel, [io] the outcome of syncing the store and writing
    the manifest. Every error ends the process, so no engine comes with one. *)
Definition finishRoll (s : engine) (r : option (res rollResult)) (io : res unit) : res engine :=
  match r with
  | None => Ok s
  | Some (Ok r) =>
      if negb (beqb (rroot r) (rollRoot s)) then Err "roll root mismatch"
      else
        let* _ := io in
        let* it := Overlay.Iter (overlay s) None None in
        let* l := collect (S (Z.to_nat (Overlay.Len (overlay s)))) it in
        let* d := applyDirty (Dirty.Reset (rfile r)) l in
        Ok (MkEngine (overlay s) None [rrun r] (owners s) ∅ d (gen s + 1) (rollRoot s) (rollH s))
  | Some (Err m) => Err "roll"
  | Some Panic => Panic
  end.

(** ** flatDB *)

Section FlatDB.
Context (Keccak256 : bytes -> bytes).

(** The account value of the flat state. *)
Record accountRow := MkRow { rNonce : Z; rBalance : Z; rCodeHash : bytes }.
Context (encode_row : accountRow -> res bytes) (decode_row : bytes -> res accountRow).

(** [hashCache]: nil maps are empty ones. *)
Record hashCache := MkHC { haddr : gmap bytes bytes; hslot : gmap bytes bytes }.
Definition hashCacheMax : Z := 2 ^ 16.

Definition addrHash (c : hashCache) (a : bytes) : bytes * hashCache :=
  match haddr c !! a with
  | Some h => (h, c)
  | None =>
      let m := if hashCacheMax <=? Z.of_nat (size (haddr c)) then ∅ else haddr c in
      let h := Keccak256 a in (h, MkHC (<[a := h]> m) (hslot c))
  end.

Definition slotHash (c : hashCache) (key : bytes) : bytes * hashCache :=
  if negb (len key =? 32) then (Keccak256 key, c) else
  match hslot c !! key with
  | Some h => (h, c)
  | None =>
      let m := if hashCacheMax <=? Z.of_nat (size (hslot c)) then ∅ else hslot c in
      let h := Keccak256 key in (h, MkHC (haddr c) (<[key := h]> m))
  end.

Record flatDB := MkFDB { eng : engine; ws : option writeSet; froot : bytes; hc : hashCache }.

Definition begin_ (d : flatDB) (parentRoot : bytes) : flatDB := MkFDB (eng d) (Some newWriteSet) parentRoot (hc d).
Definition take_ (d : flatDB) : option writeSet * flatDB := (ws d, MkFDB (eng d) None (froot d) (hc d)).

(** The value and whether it is live. *)
Definition lookup (d : flatDB) (key : bytes) : res (option bytes) :=
  match (w ← ws d; wm w !! key) with
  | Some v => Ok (if 0 <? len v then Some v else None)
  | None => get (eng d) key
  end.

Definition with_hc (d : flatDB) (c : hashCache) : flatDB := MkFDB (eng d) (ws d) (froot d) c.

Definition GetAccount (d : flatDB) (addr : bytes) : res (option accountRow * flatDB) :=
  let '(h, c) := addrHash (hc d) addr in
  let* v := lookup d (accountKey h) in
  match v with
  | None => Ok (None, with_hc d c)
  | Some v => let* r := decode_row v in Ok (Some r, with_hc d c)
  end.

(** [ah] is the trie's account hash. *)
Definition GetStorage (d : flatDB) (ah key : bytes) : res (option bytes * flatDB) :=
  let '(h, c) := slotHash (hc d) key in
  let* v := lookup d (slotKey ah h) in Ok (v, with_hc d c).

(** A write outside a block dereferences a nil write set. *)
Definition ws_put (d : flatDB) (c : hashCache) (k v : bytes) : res flatDB :=
  match ws d with None => Panic | Some w => Ok (MkFDB (eng d) (Some (put w k v)) (froot d) c) end.

Definition UpdateAccount (d : flatDB) (addr : bytes) (acc : accountRow) : res flatDB :=
  let* v := encode_row acc in
  let '(h, c) := addrHash (hc d) addr in ws_put d c (accountKey h) v.
Definition DeleteAccount (d : flatDB) (addr : bytes) : res flatDB :=
  let '(h, c) := addrHash (hc d) addr in ws_put d c (accountKey h) [].
Definition UpdateStorage (d : flatDB) (ah key value : bytes) : res flatDB :=
  let '(h, c) := slotHash (hc d) key in ws_put d c (slotKey ah h) value.
Definition DeleteStorage (d : flatDB) (ah key : bytes) : res flatDB :=
  let '(h, c) := slotHash (hc d) key in ws_put d c (slotKey ah h) [].

End FlatDB.

(** ** rebuild *)

Section Rebuild.
Context `{SSTable} (Keccak256 : bytes -> bytes) (convert : bytes -> res bytes). (* a StateAccount's RLP to an accountRow's *)

Record scan := MkScan { srows : Z; slatest : gmap bytes (Z * bytes); sdels : gmap bytes Z }.

(** The callback of the scan of one run's state rows. *)
Definition scan_row (lo hi : Z) (st : res scan) (k v : bytes) : res scan * bool :=
  let st' :=
    let* s := st in
    let* n := TxNumOf k in
    let s := MkScan (srows s + 1) (slatest s) (sdels s) in
    if (n <? lo) || (hi <? n) then Ok s else
    let* key := slice k 0 (len k - 8) in
    let newer := match slatest s !! key with None => true | Some cur => cur.1 <? n end in
    let latest := if newer then <[key := (n, v)]> (slatest s) else slatest s in
    let* isa := if len key =? len PrefixState + 23 then let* c := index key (len key - 2) in Ok ((c =? 97) && (len v =? 0)) else Ok false in
    if isa then
      let* addr := slice key (len PrefixState) (len PrefixState + 20) in
      Ok (MkScan (srows s) latest (if default 0 (sdels s !! addr) <? n then <[addr := n]> (sdels s) else sdels s))
    else Ok (MkScan (srows s) latest (sdels s)) in
  (st', match st' with Ok _ => true | _ => false end).

Fixpoint scan_runs (fuel : nat) (lo hi : Z) (rs : list (DB.RunRef * RunFile.Run)) (s : scan) : res scan :=
  match rs with
  | [] => Ok s
  | (ref, r) :: rs =>
      if (DB.rToTx ref <=? lo) || (hi <? DB.rFromTx ref) then scan_runs fuel lo hi rs s else
      let* st := RunFile.ScanRange fuel r SecState PrefixState (Some (str "state0")) (scan_row lo hi) (Ok s) in
      let* s := st in
      scan_runs fuel lo hi rs s
  end.

(** The sorted keys turned into writes: the address at hand, its hash, whether its
    account row is a deletion, and the newest deletion seen of it. *)
Record group := MkGroup { gcur : bytes; gah : bytes; gdeleted : bool; gdel : option Z }.

Fixpoint rebuild_keys (s : scan) (keys : list bytes) (g : group) (w : writeSet) : res writeSet :=
  match keys with
  | [] => Ok w
  | k :: keys =>
      let* (kind, addr, slot) := SplitStateKey k in
      let g := if beqb addr (gcur g) then g else MkGroup addr (Keccak256 addr) false (sdels s !! addr) in
      let '(tx, v) := default (0, []) (slatest s !! k) in
      if kind =? 97 then
        if len v =? 0 then rebuild_keys s keys (MkGroup (gcur g) (gah g) true (gdel g)) (put w (accountKey (gah g)) [])
        else
          let w := if bool_decide (is_Some (gdel g)) then put w (accountKey (gah g)) [] else w in
          let* val := convert v in
          rebuild_keys s keys g (put w (accountKey (gah g)) val)
      else if kind =? 115 then
        if gdeleted g || (match gdel g with Some d => tx <? d | None => false end) then rebuild_keys s keys g w
        else rebuild_keys s keys g (put w (slotKey (gah g) (Keccak256 slot)) v)
      else rebuild_keys s keys g w
  end.

Definition sorted_keys (s : scan) : list bytes := merge_sort ble (map_to_list (slatest s)).*1.

(** [lo] and [hi] are the TxNum bounds; the write set is what goes to the overlay and
    the dirty trie. *)
Definition rebuild_writes (fuel : nat) (rs : list (DB.RunRef * RunFile.Run)) (lo hi : Z) : res (scan * writeSet) :=
  let* s := scan_runs fuel lo hi rs (MkScan 0 ∅ ∅) in
  let* w := rebuild_keys s (sorted_keys s) (MkGroup [] [] false None) newWriteSet in
  Ok (s, w).

Definition rebuild (fuel : nat) (d : nat -> DB.DB) (rs : list (DB.RunRef * RunFile.Run)) (rolledAt head : Z) (e : engine) : res (engine * Z * Z) :=
  let* lo := if 0 <? rolledAt then
               let* r := DB.TxNumAtEndOf d rolledAt in
               match r with Some end_ => Ok (u64 (end_ + 1)) | None => Err "rebuild" end
             else Ok 0 in
  let* hi := DB.TxNumAtEndOf d head in
  match hi with
  | None => Err "rebuild"
  | Some hi =>
      let* (s, w) := rebuild_writes fuel rs lo hi in
      let* e := applyOverlay e (ops w) in
      let* dd := applyDirty (dirty e) (ops w) in
      Ok (MkEngine (overlay e) (frozen e) (runs e) (owners e) (frozenOwners e) dd (gen e) (rollRoot e) (rollH e), srows s, len (ops w))
  end.

End Rebuild.

(** ** The engine is a map *)

(** A flat key: an account's, or a slot's. *)
Definition flat_key (k : bytes) : Prop :=
  Forall byte_ok k /\ exists h, length h = 32%nat /\ (k = accountKey h \/ exists sh, length sh = 32%nat /\ k = slotKey h sh).

(** What a write does to the flat state: an account's deletion takes its slots along. *)
Definition effect (S : gmap bytes bytes) (x : bytes * bytes) : gmap bytes bytes :=
  let S := if (len x.1 =? 33) && (len x.2 =? 0) then filter (fun y => has_prefix y.1 (take 32 x.1 ++ [1]) = false) S else S in
  if len x.2 =? 0 then delete x.1 S else <[x.1 := x.2]> S.

(** The set names every account with a live slot in the overlay. *)
Definition owned (m : gmap bytes bytes) (ow : gset bytes) : Prop :=
  forall k v ah, m !! k = Some v -> v <> [] -> length ah = 32%nat -> has_prefix k (ah ++ [1]) = true -> ah ∈ ow.

Definition frozen_list (e : engine) : list Overlay.Overlay := match frozen e with Some f => [f] | None => [] end.

Definition eng_ok (e : engine) (S : gmap bytes bytes) : Prop :=
  exists m mfs bss, Overlay.overlay_ok (overlay e) m /\ Forall2 Overlay.overlay_ok (frozen_list e) mfs /\ Forall2 LatestRun.is_run (runs e) bss /\
    (forall k, Forall byte_ok k -> View.live_value (View.stacked (m :: mfs) bss k) = S !! k) /\
    owned m (owners e) /\ Forall (fun mf => owned mf (frozenOwners e)) mfs /\
    (forall k, is_Some (m !! k) -> flat_key k) /\ (forall k, is_Some (S !! k) -> flat_key k).

Lemma bcmp_last p : forall k x, bcmp k (p ++ [x]) = match bcmp (take (length p) k) p with
  | Eq => match drop (length p) k with [] => Lt | c :: r => match Z.compare c x with Eq => if bool_decide (r = []) then Eq else Gt | o => o end end
  | o => o end.
Proof.
  induction p as [|y p IH]; intros k x; cbn [app length take drop].
  - rewrite drop_0, take_0. destruct k as [|c r]; [done|]. cbn [bcmp]. destruct (Z.compare c x); try done. by destruct r.
  - destruct k as [|c k]; [done|]. cbn [bcmp take drop]. destruct (Z.compare c y); [apply IH|done|done].
Qed.

(** The keys from [ah ++ [1]] up to [ah ++ [2]] are those that start with the former. *)
Lemma range_prefix ah k : in_range (Some (ah ++ [1])) (Some (ah ++ [2])) k = has_prefix k (ah ++ [1]).
Proof.
  apply Bool.eq_iff_eq_true. unfold in_range, bleb, bltb. rewrite andb_true_iff, has_prefix_spec, (bcmp_antisym k (ah ++ [1])), !bcmp_last. split.
  - intros [H1 H2]. destruct (bcmp (take (length ah) k) ah) eqn:E; try done.
    apply bcmp_eq in E. destruct (drop (length ah) k) as [|c r] eqn:Ed; [done|]. exists r. rewrite <- (take_drop (length ah) k), E, Ed, <- app_assoc.
    cbn [app]. do 2 f_equal. destruct (Z.compare_spec c 1) as [|Hlt|Hgt]; [done|done|]. destruct (Z.compare_spec c 2) as [->|Hlt|]; [|lia|done]. by case_bool_decide.
  - intros [r ->]. rewrite <- app_assoc, take_app_length, drop_app_length. rewrite (proj2 (bcmp_eq ah ah)) by done. cbn. by case_bool_decide.
Qed.

Lemma collect_rows {I} `{Iterator I} (it : I) l : enumerates it l -> forall n, (length l < n)%nat -> collect n it = Ok l.
Proof.
  induction 1 as [it E|it it' l E _ IH]; intros n Hn; (destruct n as [|n]; [cbn in Hn; lia|]); cbn [collect]; rewrite E; cbn [rbind]; [done|].
  rewrite IH by (cbn in Hn; lia). done.
Qed.

Lemma replay_tombs l : forall m k, Overlay.replay m (map (fun r : row => (r.1, [])) l) !! k = if bool_decide (k ∈ l.*1) then Some [] else m !! k.
Proof.
  unfold Overlay.replay. induction l as [|[a v] l IH]; intros m k; [done|]. cbn [map fold_left fst fmap list_fmap]. rewrite IH.
  case_bool_decide as H1; case_bool_decide as H2; rewrite elem_of_cons in *; try done; [naive_solver| |].
  - destruct H2 as [->|]; [by rewrite lookup_insert_eq|done].
  - rewrite lookup_insert_ne by naive_solver. done.
Qed.

Lemma eng_view e m mfs bss : Overlay.overlay_ok (overlay e) m -> Forall2 Overlay.overlay_ok (frozen_list e) mfs ->
  Forall2 LatestRun.is_run (runs e) bss -> View.view_ok (view e) (m :: mfs) bss.
Proof. intros. split; [constructor|]; done. Qed.

Lemma live_some v : v <> [] -> View.live_value (Some v) = Some v.
Proof. by destruct v. Qed.

(** The state of a stack whose top gained tombstones for the live keys in a range. *)
Lemma stacked_cons m ms bss k : View.stacked (m :: ms) bss k = match m !! k with Some v => Some v | None => View.stacked ms bss k end.
Proof. done. Qed.

Lemma no_slots e m mfs bss ah k : length ah = 32%nat -> owned m (owners e) -> Forall (fun mf => owned mf (frozenOwners e)) mfs ->
  ah ∉ owners e -> ah ∉ frozenOwners e -> has_prefix k (ah ++ [1]) = true -> View.live_value (View.stacked [] bss k) = None ->
  View.live_value (View.stacked (m :: mfs) bss k) = None.
Proof.
  intros Hl Hm Hf Hno Hnf Hp Hr.
  assert (HS : View.live_value (View.stacked mfs bss k) = None).
  { induction Hf as [|mf mfs Hmf _ IH]; [done|]. rewrite stacked_cons. destruct (mf !! k) as [v|] eqn:E; [|done].
    destruct v as [|c v]; [done|]. exfalso. by apply Hnf, (Hmf k (c :: v)). }
  rewrite stacked_cons. destruct (m !! k) as [v|] eqn:E; [|done]. destruct v as [|c v]; [done|]. exfalso. by apply Hno, (Hm k (c :: v)).
Qed.

Definition wiped (ah : bytes) (S : gmap bytes bytes) : gmap bytes bytes := filter (fun y => has_prefix y.1 (ah ++ [1]) = false) S.

Lemma wiped_lookup ah S k : wiped ah S !! k = if has_prefix k (ah ++ [1]) then None else S !! k.
Proof.
  unfold wiped. destruct (has_prefix k (ah ++ [1])) eqn:E.
  - apply map_lookup_filter_None. right. intros v _. cbn. by rewrite E.
  - destruct (S !! k) as [v|] eqn:Ek; [by apply map_lookup_filter_Some|]. apply map_lookup_filter_None. by left.
Qed.

Lemma wiped_keys ah S k : is_Some (wiped ah S !! k) -> is_Some (S !! k).
Proof. rewrite wiped_lookup. destruct (has_prefix _ _); [by intros []|done]. Qed.

Lemma tombstone_ok e S ah : eng_ok e S -> length ah = 32%nat -> Forall byte_ok ah ->
  exists e', tombstoneSlots e ah = Ok e' /\ eng_ok e' (wiped ah S) /\ frozen e' = frozen e /\ runs e' = runs e /\ owners e' = owners e.
Proof.
  intros (m & mfs & bss & Ho & Hf & Hr & HS & Hown & Hfown & Hmk & HSk) Hl Hb.
  assert (Hlo : forall l, Some (ah ++ [1]) = Some l -> Forall byte_ok l).
  { intros l [= <-]. apply Forall_app. split; [done|]. constructor; [|constructor]. unfold byte_ok. lia. }
  unfold tombstoneSlots. set (any := if _ || _ then _ else _).
  assert (Hany : any = Ok true \/ any = Ok false /\ forall k, Forall byte_ok k -> has_prefix k (ah ++ [1]) = true -> S !! k = None).
  { unfold any. case_bool_decide as H1; [by left|]. case_bool_decide as H2; [by left|]. cbn [orb].
    destruct (View.view_Iter_range (View.NewView None (runs e)) [] bss (Some (ah ++ [1])) (Some (ah ++ [2]))) as (it & l & Rs & -> & He & [_ Hm] & _ & Hst & _); [by split|done|].
    cbn [rbind]. unfold has_next. inversion He as [it0 E E1 E2|it0 it1 l0 E He' E1 E2]; subst; rewrite E; cbn [rbind]; [right|by left].
    split; [done|]. intros k Hk Hp. rewrite <- HS by done. apply (no_slots e m mfs bss ah); try done.
    specialize (Hm k). unfold View.visible in Hm. rewrite Hst in Hm. unfold View.ranged in Hm. rewrite range_prefix, Hp in Hm. done. }
  destruct Hany as [->|[-> Hnone]]; cbn [rbind negb].
  2: { exists e. split_and!; try done. exists m, mfs, bss. split_and!; try done.
       - intros k Hk. rewrite HS, wiped_lookup by done. destruct (has_prefix k _) eqn:E; [by rewrite Hnone|done].
       - intros k Hk. by apply HSk, (wiped_keys ah). }
  destruct (View.view_Iter_range (view e) (m :: mfs) bss (Some (ah ++ [1])) (Some (ah ++ [2]))) as (it & l & Rs & -> & He & Hmer & HRok & Hst & Hlen); [by apply eng_view|done|].
  cbn [rbind]. rewrite (collect_rows it l He) by lia. cbn [rbind]. pose proof (View.merged_rows_ok _ _ HRok Hmer) as Hrows. destruct Hmer as [Hsort Hm].
  assert (Hin : forall k, k ∈ l.*1 <-> has_prefix k (ah ++ [1]) = true /\ is_Some (View.live_value (View.stacked (m :: mfs) bss k))).
  { intros k. specialize (Hm k). unfold View.visible in Hm. rewrite Hst in Hm. unfold View.ranged in Hm. rewrite range_prefix in Hm.
    remember (View.stacked (m :: mfs) bss k) as X. destruct (has_prefix k (ah ++ [1])); cbn in Hm; split.
    - intros Hk. split; [done|]. rewrite <- Hm. destruct (aget l k) eqn:E; [by eexists|]. by apply aget_None in E.
    - intros [_ Hk]. rewrite <- Hm in Hk. destruct (decide (k ∈ l.*1)) as [|Hn]; [done|]. apply aget_None in Hn. rewrite Hn in Hk. by destruct Hk.
    - intros Hk. exfalso. apply aget_None in Hm. by apply Hm.
    - by intros [? _]. }
  destruct (Overlay.put_all_ok (overlay e) m (map (fun r => (r.1, [])) l) Ho) as (o' & -> & Ho').
  { apply Forall_forall. intros x Hx. apply list_elem_of_fmap in Hx as (r & -> & Hr'). rewrite Forall_forall in Hrows. destruct (Hrows r Hr') as (H1 & _ & H3).
    cbn. split; [by split|]. rewrite len_nil. lia. }
  cbn [rbind]. eexists. split; [reflexivity|]. split; [|done].
  exists (Overlay.replay m (map (fun r => (r.1, [])) l)), mfs, bss. split_and!; try done.
  - intros k Hk. rewrite wiped_lookup, stacked_cons, replay_tombs. case_bool_decide as Hkl.
    + apply Hin in Hkl as [-> _]. done.
    + rewrite <- stacked_cons. destruct (has_prefix k (ah ++ [1])) eqn:E; [|by apply HS].
      destruct (View.live_value (View.stacked (m :: mfs) bss k)) eqn:Ev; [|done]. exfalso. apply Hkl, Hin. split; [done|]. rewrite Ev. by eexists.
  - intros k v a Hk Hv Ha Hp. rewrite replay_tombs in Hk. case_bool_decide; [congruence|]. by eapply Hown.
  - intros k Hk. rewrite replay_tombs in Hk. case_bool_decide as Hkl; [|by apply Hmk]. apply HSk.
    pose proof Hkl as Hby. apply list_elem_of_fmap in Hby as (r & -> & Hr'). rewrite Forall_forall in Hrows. destruct (Hrows r Hr') as (_ & _ & Hby).
    apply Hin in Hkl as [_ Hv]. by rewrite <- HS.
  - intros k Hk. by apply HSk, (wiped_keys ah).
Qed.

(** A write the flat state takes. *)
Definition write_ok (x : bytes * bytes) : Prop := flat_key x.1 /\ len x.2 <= 255.

Lemma flat_key_ok k : flat_key k -> Overlay.key_ok k.
Proof.
  intros [Hb (h & Hh & [->|(sh & Hs & ->)])]; (split; [|done]); unfold accountKey, slotKey, len; rewrite ?length_app; cbn [length]; lia.
Qed.

Lemma flat_slot_owner k ah : flat_key k -> length ah = 32%nat -> has_prefix k (ah ++ [1]) = true -> ah = take 32 k /\ len k = 65.
Proof.
  intros [_ (h & Hh & Hk)] Ha [t Ht]%has_prefix_spec. rewrite <- app_assoc in Ht. destruct Hk as [->|(sh & Hs & ->)].
  - unfold accountKey in Ht. apply app_inj_1 in Ht as [_ Ht]; [done|congruence].
  - unfold slotKey in Ht |- *. apply app_inj_1 in Ht as [-> Ht]; [|congruence]. rewrite take_app_length' by done. split; [done|].
    unfold len. rewrite !length_app. cbn [length]. lia.
Qed.

Lemma eng_put_ok e S k v o : eng_ok e S -> flat_key k -> len v <= 255 -> Overlay.Put (overlay e) k v = Ok o ->
  eng_ok (with_overlay e o (if (len k =? 65) && (0 <? len v) then {[ take 32 k ]} ∪ owners e else owners e))
    (if len v =? 0 then delete k S else <[k := v]> S).
Proof.
  intros (m & mfs & bss & Ho & Hf & Hr & HS & Hown & Hfown & Hmk & HSk) Hk Hv HP.
  destruct (Overlay.Put_ok (overlay e) m k v Ho (flat_key_ok k Hk) Hv) as (o' & E & Ho'). rewrite HP in E. injection E as <-.
  exists (<[k := v]> m), mfs, bss. split_and!; try done.
  - intros k' Hk'. rewrite stacked_cons. destruct (decide (k' = k)) as [->|Hne].
    + rewrite lookup_insert_eq, <- View.live_value_len. destruct (len v =? 0); [by rewrite lookup_delete_eq|by rewrite lookup_insert_eq].
    + rewrite lookup_insert_ne by done. rewrite <- stacked_cons, HS by done. destruct (len v =? 0); [by rewrite lookup_delete_ne|by rewrite lookup_insert_ne].
  - intros k' v' ah Hk' Hv' Ha Hp. destruct (decide (k' = k)) as [->|Hne].
    + rewrite lookup_insert_eq in Hk'. injection Hk' as <-. destruct (flat_slot_owner k ah Hk Ha Hp) as [-> ->]. cbn [owners with_overlay].
      rewrite Z.eqb_refl. destruct (Z.ltb_spec 0 (len v)); [set_solver|]. destruct v; [done|]. unfold len in *. cbn in *. lia.
    + rewrite lookup_insert_ne in Hk' by done. pose proof (Hown k' v' ah Hk' Hv' Ha Hp). cbn. destruct (_ && _); set_solver.
  - intros k' Hk'. destruct (decide (k' = k)) as [->|Hne]; [done|]. rewrite lookup_insert_ne in Hk' by done. by apply Hmk.
  - intros k' Hk'. destruct (decide (k' = k)) as [->|Hne]; [done|]. apply HSk. revert Hk'.
    destruct (len v =? 0); [by rewrite lookup_delete_ne|by rewrite lookup_insert_ne].
Qed.

Lemma applyOverlay_ok l : forall e S, eng_ok e S -> Forall write_ok l ->
  exists e', applyOverlay e l = Ok e' /\ eng_ok e' (fold_left effect l S) /\ frozen e' = frozen e /\ runs e' = runs e.
Proof.
  induction l as [|[k v] l IH]; intros e S He Hl; cbn [applyOverlay fold_left]; [by exists e|].
  apply Forall_cons in Hl as [[Hk Hv] Hl]. cbn [fst snd] in *. unfold effect at 2. cbn [fst snd].
  assert (H1 : exists e1, (if (len k =? 33) && (len v =? 0) then tombstoneSlots e (take 32 k) else Ok e) = Ok e1 /\
    eng_ok e1 (if (len k =? 33) && (len v =? 0) then wiped (take 32 k) S else S) /\ frozen e1 = frozen e /\ runs e1 = runs e).
  { destruct ((len k =? 33) && (len v =? 0)) eqn:E; [|by exists e]. apply andb_true_iff in E as [E _]. apply Z.eqb_eq in E.
    destruct (tombstone_ok e S (take 32 k) He) as (e1 & Et & H1 & H2 & H3 & _); [rewrite length_take; unfold len in E; lia|apply Forall_take, Hk|]. by exists e1. }
  destruct H1 as (e1 & -> & He1 & Hf1 & Hr1). cbn [rbind].
  destruct He1 as (m & He1). pose proof He1 as (mfs & bss & Ho & _).
  destruct (Overlay.Put_ok (overlay e1) m k v Ho (flat_key_ok k Hk) Hv) as (o & EP & _). rewrite EP. cbn [rbind].
  assert (Hok1 : eng_ok e1 (if (len k =? 33) && (len v =? 0) then wiped (take 32 k) S else S)) by (by exists m).
  destruct (IH _ _ (eng_put_ok e1 _ k v o Hok1 Hk Hv EP) Hl) as (e2 & E2 & H2 & Hf2 & Hr2).
  exists e2. split; [done|]. split; [done|]. split; [by rewrite Hf2|by rewrite Hr2].
Qed.

Lemma eng_get_ok e S k : eng_ok e S -> Forall byte_ok k -> get e k = Ok (S !! k).
Proof.
  intros (m & mfs & bss & Ho & Hf & Hr & HS & _) Hk. unfold get. rewrite (View.view_Get_ok _ (m :: mfs) bss k (eng_view _ _ _ _ Ho Hf Hr) Hk). by rewrite HS.
Qed.

Lemma maybeRoll_ok e S budget h root : eng_ok e S -> eng_ok (maybeRoll e budget h root) S.
Proof.
  intros (m & mfs & bss & Ho & Hf & Hr & HS & Hown & Hfown & Hmk & HSk). unfold maybeRoll. case_bool_decide as Hfr; cbn [orb].
  { by exists m, mfs, bss. }
  destruct (_ <? budget); [by exists m, mfs, bss|]. unfold frozen_list in Hf. destruct (frozen e) eqn:Ef; [by destruct Hfr; eexists|].
  inversion Hf; subst. exists ∅, [m], bss. cbn. split_and!; try done.
  - apply Overlay.NewOverlay_ok.
  - by constructor.
  - by constructor.
  - intros k [v Hk]. by rewrite lookup_empty in Hk.
Qed.

Lemma applyDirty_ok l : forall d, Forall (fun x => flat_key x.1) l -> exists d', applyDirty d l = Ok d'.
Proof.
  induction l as [|[k v] l IH]; intros d Hl; cbn [applyDirty]; [by eexists|]. apply Forall_cons in Hl as [[_ (h & Hh & Hk)] Hl]. cbn [fst] in Hk.
  assert (exists d1, Dirty.Apply k v d = Ok d1) as [d1 ->]; [|by apply IH]. unfold Dirty.Apply. destruct Hk as [->|(sh & Hs & ->)].
  - assert (len (accountKey h) = 33) as -> by (unfold len, accountKey; rewrite length_app; cbn [length]; lia).
    assert (accountKey h !! 32%nat = Some 0) as -> by (unfold accountKey; rewrite lookup_app_r, Hh by lia; done). cbn [default andb Z.eqb].
    destruct (len v =? 0); by eexists.
  - assert (len (slotKey h sh) = 65) as -> by (unfold len, slotKey; rewrite !length_app; cbn [length]; lia).
    assert (slotKey h sh !! 32%nat = Some 1) as -> by (unfold slotKey; rewrite lookup_app_r, Hh by lia; done). by eexists.
Qed.

(** A merged run in place of the frozen overlay and the runs under it. *)
Lemma finishRoll_ok e S r file : eng_ok e S -> is_Some (frozen e) -> (exists user, View.Merge (roll_view e) user = Ok r /\ len user = 32) ->
  Z.of_nat (View.view_fuel (roll_view e)) < 2 ^ 50 ->
  exists e', finishRoll e (Some (Ok (MkRoll r (rollRoot e) file))) (Ok tt) = Ok e' /\ eng_ok e' S /\ frozen e' = None.
Proof.
  intros (m & mfs & bss & Ho & Hf & Hr & HS & Hown & Hfown & Hmk & HSk) [f Ef] (user & HM & Hu) Hfuel.
  unfold frozen_list in Hf. rewrite Ef in Hf.
  assert (Hv : View.view_ok (roll_view e) mfs bss) by (unfold roll_view; rewrite Ef; by split).
  destruct (View.Merge_ok (roll_view e) mfs bss user Hv Hu Hfuel) as (r' & EM & _ & Hget & bs & Hrun & _). rewrite HM in EM. injection EM as <-.
  unfold finishRoll. cbn [rroot rollRoot rrun rfile rbind]. destruct (beqb_spec (rollRoot e) (rollRoot e)); [|done]. cbn [negb].
  destruct (Overlay.Iter_ok (overlay e) m None None Ho) as (it & l & -> & He & [Hs Hag] & Hlen). cbn [rbind].
  rewrite (collect_rows it l He) by (unfold len in Hlen; lia). cbn [rbind].
  destruct (applyDirty_ok l (Dirty.Reset file)) as [d ->].
  { apply Forall_forall. intros [k v] Hin. cbn [fst]. apply Hmk. assert (m !! k = aget l k) as -> by (symmetry; apply Hag). exists v. by apply sorted_aget. }
  cbn [rbind]. eexists. split; [reflexivity|]. split; [|done]. exists m, [], [bs]. split_and!; try done.
  - by constructor.
  - intros k Hk. rewrite <- HS by done. rewrite !stacked_cons. destruct (m !! k); [done|].
    specialize (Hget k Hk). rewrite (LatestRun.Get_is_run r bs Hrun k Hk), (View.view_Get_ok _ mfs bss k Hv Hk) in Hget. injection Hget as Hget.
    unfold View.stacked at 1. cbn [foldr map View.layered]. rewrite Hget. destruct (View.stacked mfs bss k) as [[|c w]|]; done.
Qed.

Definition idle : engine := MkEngine Overlay.NewOverlay None [] ∅ ∅ (Dirty.Reset []) 0 [] 0.

Lemma idle_ok : eng_ok idle ∅.
Proof.
  exists ∅, [], []. split_and!; try done; [apply Overlay.NewOverlay_ok|intros k [v Hk]; by rewrite lookup_empty in Hk..].
Qed.

(** C8: the state engine is a map. Reads see the state; a block's writes in order, an
    account's deletion taking its slots along however the layers hold them, end in the
    state after those writes; freezing the overlay for a roll, merging it, and swapping
    the merged run in change nothing that is read, and the swap goes through unless the
    store or the manifest cannot be written. *)
Theorem engine_refines e S :
  eng_ok e S ->
  (forall k, Forall byte_ok k -> get e k = Ok (S !! k)) /\
  (forall l, Forall write_ok l -> exists e', applyOverlay e l = Ok e' /\ eng_ok e' (fold_left effect l S)) /\
  (forall budget h root, eng_ok (maybeRoll e budget h root) S) /\
  (is_Some (frozen e) -> Z.of_nat (View.view_fuel (roll_view e)) < 2 ^ 50 -> forall user file, len user = 32 ->
    exists r e', View.Merge (roll_view e) user = Ok r /\ finishRoll e (Some (Ok (MkRoll r (rollRoot e) file))) (Ok tt) = Ok e' /\ eng_ok e' S /\ frozen e' = None).
Proof.
  intros He. split_and!.
  - intros k Hk. by apply eng_get_ok.
  - intros l Hl. destruct (applyOverlay_ok l e S He Hl) as (e' & E & H1 & _). by exists e'.
  - intros budget h root. by apply maybeRoll_ok.
  - intros Hfr Hfuel user file Hu. pose proof He as (m & mfs & bss & _ & Hf & Hr & _). destruct Hfr as [f Ef]. unfold frozen_list in Hf. rewrite Ef in Hf.
    assert (Hv : View.view_ok (roll_view e) mfs bss) by (unfold roll_view; rewrite Ef; by split).
    destruct (View.Merge_ok (roll_view e) mfs bss user Hv Hu Hfuel) as (r & EM & _).
    destruct (finishRoll_ok e S r file He) as (e' & E & H1 & H2); [by eexists|by exists user|done|]. by exists r, e'.
Qed.

Lemma engine_refines_witness :
  exists e, applyOverlay idle [(accountKey (replicate 32 7), [5]); (slotKey (replicate 32 7) (replicate 32 1), [9]); (accountKey (replicate 32 7), [])] = Ok e /\ eng_ok e ∅.
Proof.
  destruct (engine_refines idle ∅ idle_ok) as (_ & Hw & _).
  assert (Ha : flat_key (accountKey (replicate 32 7))).
  { split; [repeat (constructor; [unfold byte_ok; lia|]); constructor|]. exists (replicate 32 7). split; [done|by left]. }
  destruct (Hw [(accountKey (replicate 32 7), [5]); (slotKey (replicate 32 7) (replicate 32 1), [9]); (accountKey (replicate 32 7), [])]) as (e & He & Hok).
  - constructor; [split; [exact Ha|done]|]. constructor; [split; [|done]|].
    + split; [repeat (constructor; [unfold byte_ok; lia|]); constructor|]. exists (replicate 32 7). split; [done|]. right. by exists (replicate 32 1).
    + constructor; [split; [exact Ha|done]|constructor].
  - exists e. split; [exact He|]. match type of Hok with eng_ok _ ?X => assert (E : X = ∅) end; [|rewrite <- E; exact Hok].
    apply map_empty. intros k. cbn [fold_left]. unfold effect at 1. cbn [fst snd]. change (len (@nil Z) =? 0) with true. rewrite andb_true_r.
    change (len (accountKey (replicate 32 7)) =? 33) with true. cbn iota.
    destruct (decide (k = accountKey (replicate 32 7))) as [->|Hne]; [by rewrite lookup_delete_eq|]. rewrite lookup_delete_ne by done.
    change (filter _ ?m) with (wiped (take 32 (accountKey (replicate 32 7))) m). rewrite wiped_lookup.
    unfold effect. cbn [fst snd]. change (len [5] =? 0) with false. change (len [9] =? 0) with false. rewrite !andb_false_r. cbn iota.
    destruct (decide (k = slotKey (replicate 32 7) (replicate 32 1))) as [->|Hne2].
    + change (has_prefix _ _) with true. done.
    + rewrite !lookup_insert_ne by done. rewrite lookup_empty. by destruct (has_prefix _ _).
Defined.

End VmState.
