(* ===== verification/Rebuild.v ===== *)
(** * vmexec/recover.go: the rebuilt overlay is the executed state

    [VmState.rebuild] keeps the newest row per key and the newest deletion per account
    of the window, sorts the keys and writes what is left. The reference here is the
    window's own rows in TxNum order, each one a write to the flat state. *)

From Stdlib Require Import Sorting.Sorted.
From S2P Require Import Prelude Bytes Rows Ef Format Sha256 Container Memtable MemRecover MemRead Sst RunFile Postings Seal Window Growth KMerge DB LatestRun LatestOverlay LatestView Nibbles Dirty DBReads VmState.
Import Format.

Module Rebuild.
Import VmState.

(** ** State rows *)

Record strow := MkStrow { rn : Z; rkind : Z; raddr : bytes; rslot : bytes; rval : bytes }.

Definition rprefix (x : strow) : bytes := state_parts (rkind x) (raddr x) (rslot x).
Definition prow (x : strow) : row := (Suffixed (rprefix x) (rn x), rval x).
Definition strow_ok (x : strow) : Prop :=
  rkind x ∈ [97; 99; 115] /\ len (raddr x) = 20 /\ len (rslot x) = 32 /\ u64_ok (rn x).

(** An account's deletion. *)
Definition is_del (x : strow) : bool := (rkind x =? 97) && (len (rval x) =? 0).

Lemma is_del_spec x : is_del x = true <-> rkind x = 97 /\ rval x = [].
Proof. unfold is_del. rewrite andb_true_iff, !Z.eqb_eq. destruct (rval x); [split; by intros []|]. split; [intros [_ H]; lensimp|by intros []]. Qed.

Lemma split_rprefix x : strow_ok x -> SplitStateKey (rprefix x) = Ok (rkind x, raddr x, if rkind x =? 115 then rslot x else []).
Proof. intros (Hk & Ha & Hs & _). by apply SplitStateKey_roundtrip. Qed.

Lemma rprefix_inj x y : strow_ok x -> strow_ok y -> rprefix x = rprefix y ->
  rkind x = rkind y /\ raddr x = raddr y /\ (rkind x = 115 -> rslot x = rslot y).
Proof.
  intros Hx Hy E. pose proof (split_rprefix x Hx) as H1. rewrite E, (split_rprefix y Hy) in H1. injection H1 as H1 H2 H3.
  split_and!; [done..|]. intros Hk. rewrite H1, Hk in H3. done.
Qed.

Lemma rprefix_account x : rkind x = 97 -> rprefix x = AccountPrefix (raddr x).
Proof. unfold rprefix. intros ->. done. Qed.

(** ** The scan *)

Definition sstep (s : scan) (x : strow) : scan :=
  MkScan (srows s + 1)
    (if match slatest s !! rprefix x with None => true | Some c => c.1 <? rn x end then <[rprefix x := (rn x, rval x)]> (slatest s) else slatest s)
    (if is_del x && (default 0 (sdels s !! raddr x) <? rn x) then <[raddr x := rn x]> (sdels s) else sdels s).

Definition in_window (lo hi : Z) (x : strow) : bool := negb ((rn x <? lo) || (hi <? rn x)).
Definition wstep (lo hi : Z) (s : scan) (x : strow) : scan :=
  if in_window lo hi x then sstep s x else MkScan (srows s + 1) (slatest s) (sdels s).

Lemma account_mark x : strow_ok x ->
  (if len (rprefix x) =? len PrefixState + 23 then let* c := index (rprefix x) (len (rprefix x) - 2) in Ok ((c =? 97) && (len (rval x) =? 0)) else Ok false)
  = Ok (is_del x).
Proof.
  intros (Hk & Ha & Hs & _). unfold rprefix, is_del.
  repeat (apply elem_of_cons in Hk as [Hk|Hk]); [..|by apply not_elem_of_nil in Hk]; rewrite Hk;
    unfold state_parts, AccountPrefix, CodeRefPrefix, SlotPrefix; cbn [Z.eqb Pos.eqb].
  3: rewrite (proj2 (Z.eqb_neq _ _)) by (lens; change (len PrefixState) with 6; change (len (str "/s/")) with 3; lia) ; done.
  all: rewrite (proj2 (Z.eqb_eq _ _)) by (lens; change (len PrefixState) with 6; change (len (str "/a/")) with 3; change (len (str "/c/")) with 3; lia).
  all: rewrite !(app_assoc PrefixState).
  - change (str "/a/") with ([slash] ++ [97; slash]). rewrite (app_assoc _ [slash]), index_app by (lens; change (len [slash]) with 1; change (len [97; slash]) with 2; lia).
    cbn [rbind Z.eqb Pos.eqb andb]. done.
  - change (str "/c/") with ([slash] ++ [99; slash]). rewrite (app_assoc _ [slash]), index_app by (lens; change (len [slash]) with 1; change (len [99; slash]) with 2; lia).
    cbn [rbind Z.eqb Pos.eqb andb]. done.
Qed.

Lemma addr_slice x : strow_ok x -> is_del x = true -> slice (rprefix x) (len PrefixState) (len PrefixState + 20) = Ok (raddr x).
Proof.
  intros (_ & Ha & _ & _) [Hk _]%is_del_spec. rewrite rprefix_account by done. unfold AccountPrefix. apply slice_app; lens; lia.
Qed.

Lemma scan_row_ok lo hi s x : strow_ok x -> scan_row lo hi (Ok s) (prow x).1 (prow x).2 = (Ok (wstep lo hi s x), true).
Proof.
  intros Hx. pose proof Hx as (_ & _ & _ & Hn). unfold scan_row, wstep, in_window, prow. cbn [fst snd rbind]. rewrite TxNumOf_Suffixed by done. cbn [rbind srows slatest sdels].
  destruct ((rn x <? lo) || (hi <? rn x)); cbn [negb]; [done|].
  replace (slice (Suffixed (rprefix x) (rn x)) 0 (len (Suffixed (rprefix x) (rn x)) - 8)) with (Ok (rprefix x))
    by (symmetry; apply (slice_app [] (rprefix x) (bigE 8 (rn x))); unfold Suffixed; lens; rewrite ?len_be; lia).
  cbn [rbind]. rewrite account_mark by done. cbn [rbind]. unfold sstep. destruct (is_del x) eqn:E; cbn [andb]; [|done].
  rewrite addr_slice by done. done.
Qed.

(** The newest of the rows of [W] that [sel] picks; and a bound on all of them. *)
Definition top (sel : strow -> Prop) (W : list strow) (x : strow) : Prop :=
  x ∈ W /\ sel x /\ forall y, y ∈ W -> sel y -> rn y <= rn x.
Definition below (sel : strow -> Prop) (b : Z) (W : list strow) : Prop := forall y, y ∈ W -> sel y -> rn y <= b.

Lemma below_snoc (sel : strow -> Prop) b W x : below sel b W -> (sel x -> rn x <= b) -> below sel b (W ++ [x]).
Proof. intros HW Hx y [Hy|Hy]%elem_of_app Hs; [by apply HW|]. apply list_elem_of_singleton in Hy as ->. by apply Hx. Qed.
Lemma top_old (sel : strow -> Prop) W x z : top sel W z -> (sel x -> rn x <= rn z) -> top sel (W ++ [x]) z.
Proof. intros (Hz & Hs & Hm) Hx. split; [set_solver|]. split; [done|]. by apply below_snoc. Qed.
Lemma top_new (sel : strow -> Prop) W x : sel x -> below sel (rn x) W -> top sel (W ++ [x]) x.
Proof. intros Hs Hm. split; [set_solver|]. split; [done|]. apply below_snoc; [done|]. intros _. lia. Qed.

(** A map that keeps, under each key, what [f] takes of the newest row with that key. *)
Section Newest.
Context {A} (kf : strow -> option bytes) (f : strow -> A) (num : A -> Z) (b : Z) (Hnum : forall x, num (f x) = rn x).

Definition keep (m : gmap bytes A) (x : strow) : gmap bytes A :=
  match kf x with
  | Some k => if (match m !! k with Some c => num c | None => b end) <? rn x then <[k := f x]> m else m
  | None => m
  end.

Definition tracks (W : list strow) (m : gmap bytes A) : Prop :=
  forall k, match m !! k with
            | Some c => exists x, top (fun y => kf y = Some k) W x /\ c = f x
            | None => below (fun y => kf y = Some k) b W
            end.

Lemma tracks_nil : tracks [] ∅.
Proof. intros k. rewrite lookup_empty. intros y Hy. by apply not_elem_of_nil in Hy. Qed.

Lemma tracks_snoc W m x : tracks W m -> tracks (W ++ [x]) (keep m x).
Proof.
  intros HT k. specialize (HT k). unfold keep. destruct (decide (kf x = Some k)) as [E|E].
  - rewrite E. destruct (m !! k) as [c|] eqn:Em.
    + destruct HT as (z & Hz & ->). rewrite Hnum. destruct (Z.ltb_spec (rn z) (rn x)).
      * rewrite lookup_insert_eq. exists x. split; [|done]. apply top_new; [done|]. intros y Hy Hk. destruct Hz as (_ & _ & Hm). specialize (Hm y Hy Hk). lia.
      * rewrite Em. exists z. split; [|done]. by apply top_old.
    + destruct (Z.ltb_spec b (rn x)).
      * rewrite lookup_insert_eq. exists x. split; [|done]. apply top_new; [done|]. intros y Hy Hk. specialize (HT y Hy Hk). lia.
      * rewrite Em. by apply below_snoc.
  - assert ((match kf x with Some k' => if (match m !! k' with Some c => num c | None => b end) <? rn x then <[k' := f x]> m else m | None => m end) !! k = m !! k) as ->.
    { destruct (kf x) as [k'|]; [|done]. destruct (_ <? _); [|done]. apply lookup_insert_ne. congruence. }
    destruct (m !! k) as [c|]; [|by apply below_snoc]. destruct HT as (z & Hz & ->). exists z. split; [|done]. by apply top_old.
Qed.
End Newest.

Definition row_of (x : strow) : Z * bytes := (rn x, rval x).
Definition del_of (x : strow) : option bytes := if is_del x then Some (raddr x) else None.

(** What the scan knows of the window's rows [W]. *)
Definition scanned (W : list strow) (s : scan) : Prop :=
  tracks (fun x => Some (rprefix x)) row_of (-1) W (slatest s) /\ tracks del_of rn 0 W (sdels s).

Lemma scanned_step W s x : 0 <= rn x -> scanned W s -> scanned (W ++ [x]) (sstep s x).
Proof.
  intros Hn [HL HD]. split.
  - pose proof (tracks_snoc (fun x => Some (rprefix x)) row_of fst (-1) (fun _ => eq_refl) W _ x HL) as Hs. unfold keep in Hs. unfold sstep. cbn [slatest].
    destruct (slatest s !! rprefix x); [exact Hs|]. rewrite (proj2 (Z.ltb_lt _ _)) in Hs by lia. exact Hs.
  - pose proof (tracks_snoc del_of rn id 0 (fun _ => eq_refl) W _ x HD) as Hs. unfold keep, del_of in Hs. unfold sstep. cbn [sdels].
    destruct (is_del x); [|exact Hs]. cbn [andb]. destruct (sdels s !! raddr x); exact Hs.
Qed.

Lemma scanned_rows lo hi X : forall W s, Forall strow_ok X -> scanned W s ->
  scanned (W ++ List.filter (in_window lo hi) X) (fold_left (wstep lo hi) X s).
Proof.
  induction X as [|x X IH]; intros W s HX Hs; [by rewrite app_nil_r|]. apply Forall_cons in HX as [(_ & _ & _ & Hx) HX]. cbn [List.filter fold_left].
  unfold wstep at 2. destruct (in_window lo hi x); [|apply IH; [done|exact Hs]].
  rewrite cons_middle, app_assoc. apply IH; [done|]. apply scanned_step; [unfold u64_ok in Hx; lia|done].
Qed.

(** ** The last write decides *)

Definition affects (o : bytes * bytes) (k : bytes) : bool :=
  beqb o.1 k || ((len o.1 =? 33) && (len o.2 =? 0) && has_prefix k (take 32 o.1 ++ [1])).
Definition live (v : bytes) : option bytes := if len v =? 0 then None else Some v.
Definition outcome (o : bytes * bytes) (k : bytes) : option bytes := if beqb o.1 k then live o.2 else None.

Lemma effect_lookup S o k : effect S o !! k = if affects o k then outcome o k else S !! k.
Proof.
  unfold effect, affects, outcome, live. destruct o as [k0 v]. cbn [fst snd].
  change (filter _ S) with (wiped (take 32 k0) S).
  destruct (beqb_spec k0 k) as [->|Hne]; cbn [orb].
  - destruct (len v =? 0); [apply lookup_delete_eq|apply lookup_insert_eq].
  - destruct (len v =? 0); rewrite ?andb_true_r, ?andb_false_r; cbn [andb]; [rewrite lookup_delete_ne by done|by rewrite lookup_insert_ne].
    destruct (len k0 =? 33); cbn [andb]; [by rewrite wiped_lookup|done].
Qed.

Section Decide.
Context {X : Type} (f : X -> list (bytes * bytes)).

Definition aff (x : X) (k : bytes) : bool := existsb (fun o => affects o k) (f x).
Definition out (x : X) (k : bytes) : option bytes := fold_left (fun a o => if affects o k then outcome o k else a) (f x) None.

Lemma effects_lookup l k : forall S, fold_left effect l S !! k = fold_left (fun a o => if affects o k then outcome o k else a) l (S !! k).
Proof. induction l as [|o l IH]; intros S; [done|]. cbn [fold_left]. by rewrite IH, effect_lookup. Qed.

Lemma existsb_fold l k : forall a, fold_left (fun a o => if affects o k then outcome o k else a) l a
  = if existsb (fun o => affects o k) l then fold_left (fun a o => if affects o k then outcome o k else a) l None else a.
Proof.
  induction l as [|o l IH]; intros a; [done|]. cbn [fold_left existsb]. destruct (affects o k); cbn [orb]; [|apply IH].
  rewrite (IH (outcome o k)). by destruct (existsb _ l).
Qed.

Lemma decide_last (R : X -> X -> Prop) k l : forall S, StronglySorted R l ->
  ((forall x, x ∈ l -> aff x k = false) /\ fold_left effect (concat (map f l)) S !! k = S !! k) \/
  exists x, x ∈ l /\ aff x k = true /\ (forall y, y ∈ l -> aff y k = true -> y = x \/ R y x) /\ fold_left effect (concat (map f l)) S !! k = out x k.
Proof.
  induction l as [|x l IH] using rev_ind; intros S Hs; [left; split; [set_solver|done]|].
  rewrite map_app, concat_app, fold_left_app. cbn [map concat]. rewrite app_nil_r, effects_lookup, existsb_fold. change (existsb _ (f x)) with (aff x k). change (fold_left _ (f x) None) with (out x k).
  destruct (aff x k) eqn:E.
  - right. exists x. split_and!; [set_solver|done| |done]. intros y [Hy|Hy]%elem_of_app _; [|left; by apply list_elem_of_singleton in Hy]. right.
    apply (StronglySorted_app_1_elem_of R l [x] y x Hs Hy). set_solver.
  - destruct (IH S (StronglySorted_app_1_l _ _ _ Hs)) as [[Hn Hv]|(z & Hz & Haz & Hm & Hv)].
    + left. split; [|done]. intros y [Hy|Hy]%elem_of_app; [by apply Hn|]. by apply list_elem_of_singleton in Hy as ->.
    + right. exists z. split_and!; [set_solver|done| |done]. intros y [Hy|Hy]%elem_of_app Ha; [by apply Hm|]. apply list_elem_of_singleton in Hy as ->. congruence.
Qed.
End Decide.

Lemma affects_account h v k : length h = 32%nat -> affects (accountKey h, v) k = beqb (accountKey h) k || ((len v =? 0) && has_prefix k (h ++ [1])).
Proof.
  intros Hh. unfold affects. cbn [fst snd]. assert (len (accountKey h) = 33) as -> by (unfold len, accountKey; rewrite length_app; cbn [length]; lia).
  unfold accountKey at 2. rewrite take_app_length' by done. done.
Qed.

Lemma affects_slot h sh v k : length h = 32%nat -> length sh = 32%nat -> affects (slotKey h sh, v) k = beqb (slotKey h sh) k.
Proof.
  intros Hh Hs. unfold affects. cbn [fst snd]. assert (len (slotKey h sh) = 65) as -> by (unfold len, slotKey; rewrite !length_app; cbn [length]; lia).
  cbn. apply orb_false_r.
Qed.

Lemma account_not_slot h h' : length h = length h' -> has_prefix (accountKey h) (h' ++ [1]) = false.
Proof.
  intros Hh. destruct (has_prefix _ _) eqn:E; [|done]. apply has_prefix_spec in E as [t E]. unfold accountKey in E. rewrite <- app_assoc in E.
  apply app_inj_1 in E as [_ E]; [done|done].
Qed.

Lemma slot_of h sh h' : length h = length h' -> has_prefix (slotKey h sh) (h' ++ [1]) = true -> h = h'.
Proof. intros Hh [t E]%has_prefix_spec. unfold slotKey in E. rewrite <- app_assoc in E. by apply app_inj_1 in E as [-> _]. Qed.

Section Runs.
Context `{SSTable, !SSTLaws} (Keccak256 : bytes -> bytes) (convert : bytes -> res bytes).

(** A run's state rows, all of TxNums in the run's range. *)
Definition run_rows (fuel : nat) (x : DB.RunRef * RunFile.Run) (X : list strow) : Prop :=
  (exists R, RunFile.run_holds x.2 R /\ (length (R SecState) <= fuel)%nat /\ range (Some PrefixState) (Some (str "state0")) (R SecState) = map prow X) /\
  Forall strow_ok X /\ Forall (fun y => DB.rFromTx x.1 <= rn y < DB.rToTx x.1) X.

Lemma fold_scan lo hi X : forall s, Forall strow_ok X ->
  Sst.fold_rows (fun st k v => let* v := v in Ok (scan_row lo hi st k v)) (Ok s) (map prow X) = Ok (Ok (fold_left (wstep lo hi) X s)).
Proof.
  induction X as [|x X IH]; intros s HX; [done|]. apply Forall_cons in HX as [Hx HX]. cbn [map fold_left].
  pose proof (scan_row_ok lo hi s x Hx) as E. destruct (prow x) as [k v]. cbn [Sst.fold_rows rbind fst snd] in *. rewrite E. by apply IH.
Qed.

Lemma scan_runs_ok fuel lo hi rs Xs : Forall2 (run_rows fuel) rs Xs -> forall W s, scanned W s ->
  exists s', scan_runs fuel lo hi rs s = Ok s' /\ scanned (W ++ List.filter (in_window lo hi) (concat Xs)) s'.
Proof.
  induction 1 as [|[ref r] X rs Xs ((R & Hr & Hf & Hrow) & Hok & Hrange) _ IH]; intros W s Hs; cbn [scan_runs concat]; [exists s; by rewrite app_nil_r|].
  rewrite List.filter_app, app_assoc. cbn [fst snd] in *. destruct ((DB.rToTx ref <=? lo) || (hi <? DB.rFromTx ref)) eqn:E.
  - replace (List.filter (in_window lo hi) X) with (@nil strow); [rewrite app_nil_r; by apply IH|].
    clear -Hrange E. induction Hrange as [|x X Hx _ IH]; [done|]. cbn [List.filter]. unfold in_window.
    rewrite orb_true_iff, Z.leb_le, Z.ltb_lt in E. assert ((rn x <? lo) || (hi <? rn x) = true) as -> by (rewrite orb_true_iff, !Z.ltb_lt; lia). done.
  - rewrite (RunFile.ScanRange_ok fuel r R) by done. rewrite Hrow, fold_scan by done. cbn [rbind]. apply IH. by apply scanned_rows.
Qed.
(** ** The sorted keys *)

Definition addr_of (p : bytes) : bytes := take 20 (drop 6 p).

Definition deleted (s : scan) (a : bytes) : bool := match slatest s !! AccountPrefix a with Some c => len c.2 =? 0 | None => false end.
Definition conv (v : bytes) : bytes := match convert v with Ok w => w | _ => [] end.

(** What one key of the window writes. *)
Definition emit (s : scan) (k : bytes) : list (bytes * bytes) :=
  match SplitStateKey k with
  | Ok (kind, addr, slot) =>
      let ah := Keccak256 addr in
      let '(tx, v) := default (0, []) (slatest s !! k) in
      if kind =? 97 then
        if len v =? 0 then [(accountKey ah, [])]
        else (if bool_decide (is_Some (sdels s !! addr)) then [(accountKey ah, [])] else []) ++ [(accountKey ah, conv v)]
      else if kind =? 115 then
        if deleted s addr || (match sdels s !! addr with Some d => tx <? d | None => false end) then []
        else [(slotKey ah (Keccak256 slot), v)]
      else []
  | _ => []
  end.

Lemma sandwich P : forall u v y, ble (P ++ u) y -> ble y (P ++ v) -> exists t, y = P ++ t.
Proof.
  induction P as [|c P IH]; intros u v y; [by exists y|]. unfold ble. destruct y as [|d y]; cbn [app bcmp]; [done|].
  destruct (Z.compare_spec c d) as [->|Hc|Hc]; destruct (Z.compare_spec d d) as [_|?|?]; try lia; try done.
  - rewrite ?Z.compare_refl. intros H1 H2. destruct (IH u v y H1 H2) as [t ->]. by exists t.
  - destruct (Z.compare_spec d c); [lia..|done].
Qed.

Lemma rprefix_form x : strow_ok x -> exists t, rprefix x = (PrefixState ++ raddr x) ++ slash :: rkind x :: slash :: t.
Proof.
  intros (Hk & _). unfold rprefix. repeat (apply elem_of_cons in Hk as [Hk|Hk]); [..|by apply not_elem_of_nil in Hk]; rewrite Hk;
    unfold state_parts, AccountPrefix, CodeRefPrefix, SlotPrefix; cbn [Z.eqb Pos.eqb]; eexists; by rewrite <- !app_assoc.
Qed.

Lemma addr_of_prefixed a t : len a = 20 -> addr_of ((PrefixState ++ a) ++ t) = a.
Proof.
  intros Ha. unfold addr_of. rewrite <- app_assoc, (drop_app_length' PrefixState) by done. apply take_app_length'. unfold len in Ha. lia.
Qed.

Lemma addr_of_rprefix x : strow_ok x -> addr_of (rprefix x) = raddr x.
Proof. intros Hx. destruct (rprefix_form x Hx) as [t ->]. by apply addr_of_prefixed, Hx. Qed.

(** An account's key comes before its other keys. *)
Lemma account_first x : strow_ok x -> rkind x <> 97 -> blt (AccountPrefix (raddr x)) (rprefix x).
Proof.
  intros Hx Hk. destruct (rprefix_form x Hx) as [t ->]. unfold AccountPrefix, blt. rewrite (app_assoc PrefixState), bcmp_app. cbn [bcmp str].
  destruct Hx as [Hx _]. repeat (apply elem_of_cons in Hx as [Hx|Hx]); [..|by apply not_elem_of_nil in Hx]; [done|by rewrite Hx..].
Qed.

(** The group the loop stands in after the keys [done_]. *)
Definition in_group (s : scan) (done_ : list bytes) (a : bytes) (g : group) : Prop :=
  gcur g = a /\ gah g = Keccak256 a /\ gdel g = sdels s !! a /\ gdeleted g = bool_decide (AccountPrefix a ∈ done_) && deleted s a.
Definition group_ok (s : scan) (done_ : list bytes) (g : group) : Prop :=
  match last done_ with None => gcur g = [] | Some p => in_group s done_ (addr_of p) g end.

Lemma enter_group s done_ x rest g : strow_ok x -> StronglySorted blt (done_ ++ rprefix x :: rest) -> group_ok s done_ g ->
  in_group s done_ (raddr x) (if beqb (raddr x) (gcur g) then g else MkGroup (raddr x) (Keccak256 (raddr x)) false (sdels s !! raddr x)).
Proof.
  intros Hx Hs Hg. pose proof Hx as (_ & Ha & _). unfold group_ok in Hg. destruct done_ as [|q done_ _] using rev_ind.
  { cbn in Hg. destruct (beqb_spec (raddr x) (gcur g)) as [E|_]; [rewrite E, Hg in Ha; done|]. done. }
  rewrite last_snoc in Hg. pose proof Hg as (Hc & _). destruct (beqb_spec (raddr x) (gcur g)) as [E|E]; [by rewrite E, Hc|].
  split_and!; try done. cbn [gdeleted]. rewrite bool_decide_eq_false_2; [done|]. intros Hin. apply E. rewrite Hc. symmetry.
  assert (Hle : ble (AccountPrefix (raddr x)) q).
  { apply elem_of_app in Hin as [Hin|Hin]; [|apply list_elem_of_singleton in Hin as <-; apply ble_refl]. apply ble_lteq. left.
    rewrite <- app_assoc in Hs. apply (StronglySorted_app_1_elem_of blt _ _ _ q Hs); set_solver. }
  assert (Hlt : ble q (rprefix x)) by (apply ble_lteq; left; apply (StronglySorted_app_1_elem_of blt _ _ q (rprefix x) Hs); set_solver).
  destruct (rprefix_form x Hx) as [t Ht]. rewrite Ht in Hlt. unfold AccountPrefix in Hle. rewrite (app_assoc PrefixState) in Hle.
  destruct (sandwich _ _ _ _ Hle Hlt) as [t' ->]. by apply addr_of_prefixed.
Qed.

(** The keys' accounts convert. *)
Definition converts (s : scan) : Prop :=
  forall x c, strow_ok x -> rkind x = 97 -> slatest s !! rprefix x = Some c -> c.2 <> [] -> exists w, convert c.2 = Ok w.

Lemma group_snoc s done_ x (g : group) del : strow_ok x -> gcur g = raddr x -> gah g = Keccak256 (raddr x) -> gdel g = sdels s !! raddr x ->
  del = bool_decide (AccountPrefix (raddr x) ∈ done_ ++ [rprefix x]) && deleted s (raddr x) ->
  group_ok s (done_ ++ [rprefix x]) (MkGroup (gcur g) (gah g) del (gdel g)).
Proof. intros Hx H1 H2 H3 ->. unfold group_ok. rewrite last_snoc, addr_of_rprefix by done. by rewrite H1, H2, H3. Qed.

Lemma rebuild_keys_emit s rest : forall done_ g w,
  StronglySorted blt (done_ ++ rest) -> (forall p, is_Some (slatest s !! p) <-> p ∈ done_ ++ rest) ->
  Forall (fun p => exists x, strow_ok x /\ rprefix x = p) rest -> converts s -> group_ok s done_ g ->
  exists w', rebuild_keys Keccak256 convert s rest g w = Ok w' /\ ops w' = ops w ++ concat (map (emit s) rest).
Proof.
  induction rest as [|k rest IH]; intros done_ g w Hs Hall Hform Hconv Hg; [exists w; by rewrite app_nil_r|].
  apply Forall_cons in Hform as [(x & Hx & <-) Hform]. cbn [rebuild_keys map concat]. unfold emit at 1. rewrite split_rprefix by done. cbn [rbind].
  pose proof (enter_group s done_ x rest g Hx Hs Hg) as Hin. revert Hin. generalize (if beqb (raddr x) (gcur g) then g else MkGroup (raddr x) (Keccak256 (raddr x)) false (sdels s !! raddr x)).
  clear g Hg. intros g (H1 & H2 & H3 & H4). rewrite H2, H3. rewrite cons_middle, app_assoc in Hs. rewrite cons_middle, app_assoc in Hall.
  assert (Hk : is_Some (slatest s !! rprefix x)) by (apply Hall; set_solver). destruct Hk as [[tx v] Hk]. rewrite Hk. cbn [from_option id].
  assert (Hstep : forall del w1 e, ops w1 = ops w ++ e -> del = bool_decide (AccountPrefix (raddr x) ∈ done_ ++ [rprefix x]) && deleted s (raddr x) ->
    exists w', rebuild_keys Keccak256 convert s rest (MkGroup (gcur g) (Keccak256 (raddr x)) del (sdels s !! raddr x)) w1 = Ok w' /\ ops w' = ops w ++ e ++ concat (map (emit s) rest)).
  { intros del w1 e Hw Hdel. destruct (IH (done_ ++ [rprefix x]) (MkGroup (gcur g) (Keccak256 (raddr x)) del (sdels s !! raddr x)) w1) as (w' & E & Ho); try done.
    - rewrite <- H2, <- H3. by apply group_snoc.
    - exists w'. split; [done|]. by rewrite Ho, Hw, app_assoc. }
  assert (Hsame : rkind x <> 97 -> gdeleted g = bool_decide (AccountPrefix (raddr x) ∈ done_ ++ [rprefix x]) && deleted s (raddr x)).
  { intros Hne. rewrite H4. f_equal. apply bool_decide_ext. rewrite elem_of_app, list_elem_of_singleton. split; [by left|]. intros [|E]; [done|].
    pose proof (account_first x Hx Hne) as Hlt. rewrite E in Hlt. by apply blt_irrefl in Hlt. }
  assert (Hg : g = MkGroup (gcur g) (Keccak256 (raddr x)) (gdeleted g) (sdels s !! raddr x)) by (rewrite <- H2, <- H3; by destruct g).
  destruct (Z.eqb_spec (rkind x) 97) as [Ek|Ek].
  - assert (Hd : bool_decide (AccountPrefix (raddr x) ∈ done_ ++ [rprefix x]) && deleted s (raddr x) = (len v =? 0)).
    { rewrite bool_decide_eq_true_2 by (rewrite rprefix_account by done; set_solver). unfold deleted. rewrite <- rprefix_account, Hk by done. done. }
    destruct (len v =? 0) eqn:Ev; [by apply Hstep|].
    destruct (Hconv x (tx, v) Hx Ek Hk) as [cv Hcv]; [intros E; cbn in E; by rewrite E in Ev|]. cbn [snd] in Hcv. unfold conv. rewrite Hcv. cbn [rbind].
    assert (Hgd : gdeleted g = bool_decide (AccountPrefix (raddr x) ∈ done_ ++ [rprefix x]) && deleted s (raddr x)).
    { rewrite Hd, H4. unfold deleted. rewrite <- rprefix_account, Hk by done. cbn [snd]. rewrite Ev. apply andb_false_r. }
    rewrite Hg. apply Hstep; [|exact Hgd]. destruct (bool_decide (is_Some (sdels s !! raddr x))); cbn [put ops app]; [by rewrite <- app_assoc|done].
  - specialize (Hsame Ek). destruct (Z.eqb_spec (rkind x) 115) as [Ek'|Ek'].
    2: { rewrite Hg. by apply (Hstep (gdeleted g) w []); [rewrite app_nil_r|]. }
    assert (Hd : gdeleted g = deleted s (raddr x)).
    { rewrite H4. destruct (deleted s (raddr x)) eqn:Ed; [|apply andb_false_r]. rewrite andb_true_r. apply bool_decide_eq_true_2.
      unfold deleted in Ed. destruct (slatest s !! AccountPrefix (raddr x)) as [c|] eqn:Ec; [|done].
      assert (Hin : AccountPrefix (raddr x) ∈ (done_ ++ [rprefix x]) ++ rest) by (apply Hall; by eexists).
      pose proof (account_first x Hx Ek) as Hlt. rewrite <- app_assoc in Hin, Hs. apply elem_of_app in Hin as [|Hin]; [done|]. exfalso.
      apply StronglySorted_app_1_r in Hs. cbn [app] in Hin, Hs. apply elem_of_cons in Hin as [E|Hin]; [rewrite E in Hlt; by apply blt_irrefl in Hlt|].
      apply StronglySorted_cons in Hs as [Hs _]. rewrite Forall_forall in Hs. specialize (Hs _ Hin). by apply (blt_irrefl (AccountPrefix (raddr x))), (blt_trans _ (rprefix x)). }
    rewrite Hd. destruct (deleted s (raddr x) || _); rewrite Hg; [by apply (Hstep (gdeleted g) w []); [rewrite app_nil_r|]|by apply Hstep].
Qed.

(** ** The window in TxNum order *)

Definition acc_val (v : bytes) : bytes := if len v =? 0 then [] else conv v.
Definition akey (x : strow) : bytes := accountKey (Keccak256 (raddr x)).
Definition skey (x : strow) : bytes := slotKey (Keccak256 (raddr x)) (Keccak256 (rslot x)).
Definition owns (x : strow) (k : bytes) : bool := has_prefix k (Keccak256 (raddr x) ++ [1]).

(** The write of one row. *)
Definition wop (x : strow) : list (bytes * bytes) :=
  if rkind x =? 97 then [(akey x, acc_val (rval x))] else if rkind x =? 115 then [(skey x, rval x)] else [].

Context (Hlen : forall b, length (Keccak256 b) = 32%nat).

Definition good_row (x : strow) : Prop :=
  strow_ok x /\ (rkind x = 97 -> rval x <> [] -> exists w, convert (rval x) = Ok w /\ w <> []).

Lemma acc_val_nil x : good_row x -> rkind x = 97 -> (len (acc_val (rval x)) =? 0) = is_del x.
Proof.
  intros [_ Hc] Hk. unfold is_del, acc_val, conv. rewrite Hk. cbn [Z.eqb Pos.eqb andb]. destruct (len (rval x) =? 0) eqn:E; [done|].
  destruct (Hc Hk) as (w & -> & Hw); [intros Ev; by rewrite Ev in E|]. destruct w; [done|]. apply Z.eqb_neq. lensimp.
Qed.

Lemma owns_not_account x y : owns x (akey y) = false.
Proof. apply account_not_slot. by rewrite !Hlen. Qed.

Lemma aff_row x k : good_row x -> aff wop x k =
  ((rkind x =? 97) && (beqb (akey x) k || (is_del x && owns x k))) || ((rkind x =? 115) && beqb (skey x) k).
Proof.
  intros Hx. unfold aff, wop. destruct (Z.eqb_spec (rkind x) 97) as [Ek|Ek].
  - rewrite Ek. cbn [existsb andb Z.eqb Pos.eqb]. unfold akey. rewrite affects_account, acc_val_nil by done. done.
  - destruct (rkind x =? 115); [|done]. cbn [existsb andb orb]. unfold skey. rewrite affects_slot by done. apply orb_false_r.
Qed.

Lemma out_row x k : out wop x k = if aff wop x k then
  (if rkind x =? 97 then if beqb (akey x) k then live (acc_val (rval x)) else None else live (rval x)) else None.
Proof.
  unfold out, aff, wop. destruct (rkind x =? 97); [cbn [fold_left existsb]; rewrite orb_false_r; by destruct (affects _ _)|].
  destruct (rkind x =? 115); [|done]. cbn [fold_left existsb]. rewrite orb_false_r. unfold outcome, skey. rewrite affects_slot by done. cbn [fst snd]. by destruct (beqb _ _).
Qed.

(** The slots of a key the rebuild still writes. *)
Definition kept (s : scan) (x : strow) : bool :=
  negb (deleted s (raddr x) || match sdels s !! raddr x with Some d => rn x <? d | None => false end).

Lemma aff_emit s x k : good_row x -> slatest s !! rprefix x = Some (row_of x) -> aff (emit s) (rprefix x) k =
  ((rkind x =? 97) && (beqb (akey x) k || ((is_del x || bool_decide (is_Some (sdels s !! raddr x))) && owns x k))) ||
  ((rkind x =? 115) && kept s x && beqb (skey x) k).
Proof.
  intros Hx Hl. pose proof Hx as [Hok _]. unfold aff, emit, kept. rewrite split_rprefix, Hl by done. unfold row_of. cbn [from_option id]. fold (akey x).
  destruct (Z.eqb_spec (rkind x) 97) as [Ek|Ek].
  - pose proof (acc_val_nil x Hx Ek) as Hv. unfold acc_val in Hv. rewrite Ek. cbn [andb Z.eqb Pos.eqb orb].
    unfold is_del in *. rewrite Ek in *. cbn [Z.eqb Pos.eqb andb] in *. destruct (len (rval x) =? 0) eqn:E; unfold akey, owns.
    + cbn [existsb orb]. rewrite affects_account by done. cbn. by rewrite !orb_false_r.
    + destruct (bool_decide _); cbn [existsb app orb andb]; rewrite ?affects_account by done; rewrite Hv; cbn [andb]; rewrite ?orb_false_r; [|done].
      change (len (@nil Z) =? 0) with true. cbn [andb]. destruct (beqb _ _); [done|]. by rewrite orb_false_r.
  - destruct (Z.eqb_spec (rkind x) 115) as [Es|Es]; [|done]. cbn [andb orb]. destruct (_ || _); cbn [negb andb existsb]; [done|].
    rewrite affects_slot by done. by rewrite orb_false_r.
Qed.

Lemma out_emit s x k : good_row x -> slatest s !! rprefix x = Some (row_of x) -> out (emit s) (rprefix x) k = if aff (emit s) (rprefix x) k then
  (if rkind x =? 97 then if beqb (akey x) k then live (acc_val (rval x)) else None else live (rval x)) else None.
Proof.
  intros Hx Hl. pose proof Hx as [Hok _]. rewrite aff_emit by done. unfold out, emit, kept. rewrite split_rprefix, Hl by done. unfold row_of. cbn [from_option id]. fold (akey x).
  destruct (Z.eqb_spec (rkind x) 97) as [Ek|Ek].
  - pose proof (acc_val_nil x Hx Ek) as Hv. unfold acc_val in *. rewrite Ek. cbn [andb Z.eqb Pos.eqb orb].
    unfold is_del in *. rewrite Ek in *. cbn [Z.eqb Pos.eqb andb] in *. destruct (len (rval x) =? 0) eqn:E; unfold akey, owns, outcome.
    + cbn [fold_left orb]. rewrite affects_account by done. cbn. rewrite orb_false_r. by destruct (beqb _ _), (has_prefix _ _).
    + destruct (bool_decide _); cbn [fold_left app orb andb]; rewrite ?affects_account by done; rewrite Hv; cbn [andb fst snd]; rewrite ?orb_false_r;
        by destruct (beqb _ _).
  - destruct (Z.eqb_spec (rkind x) 115) as [Es|Es]; [|done]. cbn [andb orb]. destruct (_ || _); cbn [negb andb fold_left]; [done|].
    rewrite affects_slot by done. unfold outcome, skey. cbn [fst snd]. by destruct (beqb _ _).
Qed.

(** The rows of a window: one value per key and TxNum; no account goes at TxNum 0; a
    slot is written only while its account is there, so one row of the account lies
    between an earlier deletion and it; and the hash tells the window's addresses and
    slots apart. *)
Record window_ok (W : list strow) : Prop := MkWindow {
  w_rows : forall x, x ∈ W -> good_row x;
  w_once : forall x y, x ∈ W -> y ∈ W -> rprefix x = rprefix y -> rn x = rn y -> rval x = rval y;
  w_dels : forall x, x ∈ W -> is_del x = true -> 0 < rn x;
  w_live : forall x d, x ∈ W -> d ∈ W -> rkind x = 115 -> is_del d = true -> raddr d = raddr x -> rn d <= rn x ->
    exists y, y ∈ W /\ rkind y = 97 /\ raddr y = raddr x /\ rn d < rn y <= rn x;
  w_addr : forall x y, x ∈ W -> y ∈ W -> Keccak256 (raddr x) = Keccak256 (raddr y) -> raddr x = raddr y;
  w_slot : forall x y, x ∈ W -> y ∈ W -> rkind x = 115 -> rkind y = 115 -> Keccak256 (rslot x) = Keccak256 (rslot y) -> rslot x = rslot y }.

Section Window.
Context (W : list strow) (HW : window_ok W) (s : scan) (Hsc : scanned W s).

Lemma latest_top x : x ∈ W -> (forall y, y ∈ W -> rprefix y = rprefix x -> rn y <= rn x) -> slatest s !! rprefix x = Some (row_of x).
Proof.
  intros Hx Hm. destruct Hsc as [HL _]. specialize (HL (rprefix x)). destruct (slatest s !! rprefix x) as [c|].
  - destruct HL as (z & (Hz & [= Ez] & Hzm) & ->). f_equal. unfold row_of. assert (rn z = rn x) as E.
    { pose proof (Hm z Hz Ez). specialize (Hzm x Hx eq_refl). lia. }
    rewrite E. f_equal. by apply (w_once W HW).
  - specialize (HL x Hx eq_refl). destruct (w_rows W HW x Hx) as [(_ & _ & _ & Hn) _]. unfold u64_ok in Hn. lia.
Qed.

Lemma keys_spec p : p ∈ sorted_keys s <-> is_Some (slatest s !! p).
Proof.
  unfold sorted_keys. rewrite merge_sort_Permutation, list_elem_of_fmap. split.
  - intros ([p' c] & -> & Hin). apply elem_of_map_to_list in Hin. by eexists.
  - intros [c Hc]. exists (p, c). split; [done|]. by apply elem_of_map_to_list.
Qed.

Lemma keys_row p : p ∈ sorted_keys s -> exists x, x ∈ W /\ rprefix x = p /\ slatest s !! p = Some (row_of x) /\ forall y, y ∈ W -> rprefix y = p -> rn y <= rn x.
Proof.
  intros [c Hc]%keys_spec. destruct Hsc as [HL _]. specialize (HL p). rewrite Hc in HL. destruct HL as (x & (Hx & [= Ex] & Hm) & ->).
  exists x. split_and!; [done..|]. intros y Hy E. apply Hm; [done|by rewrite E].
Qed.

Lemma ble_strict l : StronglySorted ble l -> NoDup l -> StronglySorted blt l.
Proof.
  induction 1 as [|x l Hs IH Hf]; intros Hn; [constructor|]. apply NoDup_cons in Hn as [Hx Hn]. constructor; [by apply IH|].
  rewrite Forall_forall in Hf |- *. intros y Hy. destruct (proj1 (ble_lteq x y) (Hf y Hy)) as [ | ->]; done.
Qed.

Lemma keys_sorted : StronglySorted blt (sorted_keys s).
Proof.
  apply ble_strict; [apply StronglySorted_merge_sort; apply _|]. unfold sorted_keys. rewrite merge_sort_Permutation. apply NoDup_fst_map_to_list.
Qed.

(** A deletion in the window is on record. *)
Lemma dels_top d : d ∈ W -> is_del d = true -> exists d', d' ∈ W /\ is_del d' = true /\ raddr d' = raddr d /\ sdels s !! raddr d = Some (rn d') /\ rn d <= rn d'.
Proof.
  intros Hd Hdel. destruct Hsc as [_ HD]. specialize (HD (raddr d)). assert (E : del_of d = Some (raddr d)) by (unfold del_of; by rewrite Hdel).
  destruct (sdels s !! raddr d) as [n|]; [|pose proof (w_dels W HW d Hd Hdel); specialize (HD d Hd E); lia].
  destruct HD as (d' & (Hd' & E' & Hm) & ->). unfold del_of in E'. destruct (is_del d') eqn:Ed; [|done]. injection E' as Ea. exists d'. split_and!; try done. by apply Hm.
Qed.

Lemma dels_in a n : sdels s !! a = Some n -> exists d, d ∈ W /\ is_del d = true /\ raddr d = a /\ rn d = n.
Proof.
  intros E. destruct Hsc as [_ HD]. specialize (HD a). rewrite E in HD. destruct HD as (d & (Hd & E' & _) & ->). unfold del_of in E'.
  destruct (is_del d) eqn:Ed; [|done]. injection E' as Ea. by exists d.
Qed.

Lemma deleted_in a : len a = 20 -> deleted s a = true -> exists d, d ∈ W /\ is_del d = true /\ raddr d = a /\ forall y, y ∈ W -> rkind y = 97 -> raddr y = a -> rn y <= rn d.
Proof.
  intros Ha. unfold deleted. destruct (slatest s !! AccountPrefix a) as [c|] eqn:E; [|done]. intros Hv.
  destruct (keys_row (AccountPrefix a)) as (x & Hx & Ex & El & Hm); [apply keys_spec; by eexists|]. rewrite E in El. injection El as ->. cbn [snd row_of] in Hv.
  destruct (rprefix_inj x (MkStrow 0 97 a (replicate 32 0) [])) as (Hk & Hxa & _); [apply (w_rows W HW x Hx)| |done|].
  { split_and!; [set_solver|done|done|]. unfold u64_ok. cbn. lia. }
  cbn [rkind raddr] in Hk, Hxa. exists x. split_and!; [done| |done|]. { unfold is_del. by rewrite Hk. }
  intros y Hy Hyk Hya. apply Hm; [done|]. by rewrite rprefix_account, Hya.
Qed.

(** No slot row of the window is as old as a deletion of its account. *)
Lemma slot_not_at x d : x ∈ W -> d ∈ W -> rkind x = 115 -> is_del d = true -> raddr d = raddr x -> rn x <> rn d.
Proof. intros Hx Hd Hk Hdel Ha E. destruct (w_live W HW x d Hx Hd Hk Hdel Ha) as (y & _ & _ & _ & Hy); lia. Qed.

(** A slot row newer than every deletion of its account is kept. *)
Lemma slot_kept x : x ∈ W -> rkind x = 115 -> (forall d, d ∈ W -> is_del d = true -> raddr d = raddr x -> rn d <= rn x) -> kept s x = true.
Proof.
  intros Hx Hk Hm. unfold kept. destruct (deleted s (raddr x)) eqn:E.
  - destruct (deleted_in (raddr x)) as (d & Hd & Hdel & Ha & Hmax); [apply (w_rows W HW x Hx)|done|]. exfalso.
    destruct (w_live W HW x d Hx Hd Hk Hdel Ha (Hm d Hd Hdel Ha)) as (y & Hy & Hyk & Hya & Hyn). specialize (Hmax y Hy Hyk Hya). lia.
  - destruct (sdels s !! raddr x) as [n|] eqn:Es; [|done]. destruct (dels_in _ _ Es) as (d & Hd & Hdel & Ha & <-). specialize (Hm d Hd Hdel Ha).
    cbn. destruct (Z.ltb_spec (rn x) (rn d)); [lia|done].
Qed.

Lemma akey_inj x y : x ∈ W -> y ∈ W -> rkind x = 97 -> rkind y = 97 -> akey x = akey y -> rprefix x = rprefix y.
Proof.
  intros Hx Hy Hkx Hky E. rewrite !rprefix_account by done. f_equal. unfold akey, accountKey in E. apply app_inj_1 in E as [E _]; [|by rewrite !Hlen]. by apply (w_addr W HW).
Qed.

Lemma skey_inj x y : x ∈ W -> y ∈ W -> rkind x = 115 -> rkind y = 115 -> skey x = skey y -> rprefix x = rprefix y.
Proof.
  intros Hx Hy Hkx Hky E. unfold skey, slotKey in E. apply app_inj_1 in E as [E1 E2]; [|by rewrite !Hlen]. injection E2 as E2.
  unfold rprefix. rewrite Hkx, Hky. by rewrite (w_addr W HW x y), (w_slot W HW x y).
Qed.

Lemma owns_skey x y : x ∈ W -> y ∈ W -> owns x (skey y) = true -> raddr x = raddr y.
Proof. intros Hx Hy E. apply slot_of in E; [|by rewrite !Hlen]. by apply (w_addr W HW). Qed.

Lemma owns_both x y k : x ∈ W -> y ∈ W -> owns x k = true -> owns y k = true -> raddr x = raddr y.
Proof.
  intros Hx Hy [t ->]%has_prefix_spec E. apply (w_addr W HW); [done..|]. apply has_prefix_spec in E as [t' E]. rewrite <- !app_assoc in E.
  by apply app_inj_1 in E as [E _]; [|by rewrite !Hlen].
Qed.

Lemma skey_not_akey x y : skey x <> akey y.
Proof.
  intros E. pose proof (owns_not_account x y) as Hno. rewrite <- E in Hno. unfold owns, skey, slotKey in Hno. by rewrite app_assoc, has_prefix_app in Hno.
Qed.

(** Some key of the window writes [k], and the last one to do so leaves [v]. *)
Definition leaves (k : bytes) (v : option bytes) : Prop :=
  (exists p, p ∈ sorted_keys s /\ aff (emit s) p k = true) /\
  forall p, p ∈ sorted_keys s -> aff (emit s) p k = true -> (forall q, q ∈ sorted_keys s -> aff (emit s) q k = true -> q = p \/ blt q p) -> out (emit s) p k = v.

Definition last_row (x : strow) (k : bytes) : Prop := forall y, y ∈ W -> aff wop y k = true -> rn y <= rn x.

Lemma same_prefix_aff x y k : x ∈ W -> y ∈ W -> rprefix y = rprefix x -> beqb (akey x) k = true \/ rkind x = 115 -> aff wop x k = true -> aff wop y k = true.
Proof.
  intros Hx Hy E Hc. pose proof (w_rows W HW x Hx) as Hgx. pose proof (w_rows W HW y Hy) as Hgy.
  destruct (rprefix_inj y x) as (Hk & Ha & Hs); [apply Hgy|apply Hgx|done|]. rewrite !aff_row by done. unfold akey, skey, owns in *. rewrite Hk, Ha in *.
  destruct Hc as [->|Hc]; [cbn [orb]; rewrite !andb_true_r; destruct (rkind x =? 97); [done|]|rewrite Hc]; cbn [Z.eqb Pos.eqb andb orb].
  - destruct (Z.eqb_spec (rkind x) 115) as [Ek|]; [|done]. by rewrite (Hs Ek).
  - by rewrite (Hs Hc).
Qed.

Lemma key_of_row x : slatest s !! rprefix x = Some (row_of x) -> rprefix x ∈ sorted_keys s.
Proof. intros Hz. apply keys_spec. by eexists. Qed.

Lemma leaves_account x : x ∈ W -> rkind x = 97 -> last_row x (akey x) -> leaves (akey x) (live (acc_val (rval x))).
Proof.
  intros Hx Hk Hm. pose proof (w_rows W HW x Hx) as Hgx. assert (Hax : aff wop x (akey x) = true) by (by rewrite aff_row, Hk, beqb_refl).
  assert (El : slatest s !! rprefix x = Some (row_of x)).
  { apply latest_top; [done|]. intros y Hy Ey. apply Hm; [done|]. apply (same_prefix_aff x); try done. left. apply beqb_refl. }
  split; [exists (rprefix x); split; [by apply key_of_row|]; rewrite aff_emit, Hk, beqb_refl by done; done|].
  intros p (z & Hz & <- & Ez & _)%keys_row Hp _. pose proof (w_rows W HW z Hz) as Hgz. rewrite out_emit, Hp by done. rewrite aff_emit in Hp by done.
  rewrite owns_not_account, andb_false_r, orb_false_r in Hp. apply orb_true_iff in Hp as [[Hkz Hz']%andb_true_iff|[_ Hz']%andb_true_iff].
  - rewrite Hkz. apply Z.eqb_eq in Hkz. destruct (beqb_spec (akey z) (akey x)) as [E|]; [|done].
    rewrite (akey_inj z x Hz Hx Hkz Hk E), El in Ez. injection Ez as _ ->. done.
  - exfalso. destruct (beqb_spec (skey z) (akey x)) as [E|]; [|done]. by apply skey_not_akey in E.
Qed.

Lemma leaves_deletion x k : x ∈ W -> is_del x = true -> owns x k = true -> last_row x k -> leaves k None.
Proof.
  intros Hx Hdel Ho Hm. pose proof (w_rows W HW x Hx) as Hgx. pose proof (proj1 (is_del_spec x) Hdel) as [Hk _].
  destruct (dels_top x Hx Hdel) as (d & Hd & Hdd & Hda & Hds & Hdn). split.
  - assert (Hin : rprefix x ∈ sorted_keys s).
    { apply keys_spec. destruct (slatest s !! rprefix x) eqn:E; [by eexists|]. destruct Hsc as [HL _]. specialize (HL (rprefix x)). rewrite E in HL.
      specialize (HL x Hx eq_refl). destruct Hgx as [(_ & _ & _ & Hn) _]. unfold u64_ok in Hn. lia. }
    exists (rprefix x). split; [done|]. destruct (keys_row _ Hin) as (z & Hz & Ez & El & _). rewrite <- Ez in *. pose proof (w_rows W HW z Hz) as Hgz.
    destruct (rprefix_inj z x) as (Hkz & Haz & _); [apply Hgz|apply Hgx|done|]. rewrite aff_emit by done. rewrite Hkz, Hk, Haz, Hds. unfold owns in *. rewrite Haz, Ho.
    rewrite bool_decide_eq_true_2 by (by eexists). by rewrite orb_true_r, orb_true_r.
  - intros p (z & Hz & <- & Ez & _)%keys_row Hp _. pose proof (w_rows W HW z Hz) as Hgz. rewrite out_emit, Hp by done. rewrite aff_emit in Hp by done.
    destruct (Z.eqb_spec (rkind z) 97) as [Hkz|Hkz].
    + destruct (beqb_spec (akey z) k) as [<-|]; [|done]. by rewrite owns_not_account in Ho.
    + exfalso. cbn [andb orb] in Hp. apply andb_true_iff in Hp as [[Hkz' Hkept]%andb_true_iff Es]. destruct (beqb_spec (skey z) k) as [<-|]; [|done].
      apply Z.eqb_eq in Hkz'. pose proof (owns_skey x z Hx Hz Ho) as Ea.
      assert (Hzn : rn z <= rn x). { apply Hm; [done|]. rewrite aff_row, Hkz', beqb_refl by done. done. }
      unfold kept in Hkept. rewrite <- Ea, Hds in Hkept. apply negb_true_iff, orb_false_iff in Hkept as [_ Hkept]. apply Z.ltb_ge in Hkept.
      apply (slot_not_at z d Hz Hd Hkz' Hdd); [by rewrite Hda|lia].
Qed.

Lemma leaves_slot x : x ∈ W -> rkind x = 115 -> last_row x (skey x) -> leaves (skey x) (live (rval x)).
Proof.
  intros Hx Hk Hm. pose proof (w_rows W HW x Hx) as Hgx. assert (Hax : aff wop x (skey x) = true) by (by rewrite aff_row, Hk, beqb_refl).
  assert (El : slatest s !! rprefix x = Some (row_of x)).
  { apply latest_top; [done|]. intros y Hy Ey. apply Hm; [done|]. apply (same_prefix_aff x); try done. by right. }
  assert (Hkept : kept s x = true).
  { apply slot_kept; [done..|]. intros d Hd Hdd Hda. apply Hm; [done|]. rewrite aff_row by (by apply (w_rows W HW)). pose proof (proj1 (is_del_spec d) Hdd) as [-> _].
    rewrite Hdd. assert (owns d (skey x) = true) as ->; [|by rewrite orb_true_r]. unfold owns, skey, slotKey. by rewrite Hda, app_assoc, has_prefix_app. }
  assert (Hex : aff (emit s) (rprefix x) (skey x) = true) by (rewrite aff_emit, Hk, Hkept, beqb_refl by done; done).
  split; [exists (rprefix x); split; [by apply key_of_row|done]|].
  intros p (z & Hz & <- & Ez & _)%keys_row Hp Hlast. pose proof (w_rows W HW z Hz) as Hgz. rewrite out_emit, Hp by done. rewrite aff_emit in Hp by done.
  destruct (Z.eqb_spec (rkind z) 97) as [Hkz|Hkz].
  - exfalso. cbn [andb] in Hp. destruct (beqb_spec (akey z) (skey x)) as [E|_]; [by symmetry in E; apply skey_not_akey in E|]. rewrite Hkz in Hp. cbn [Z.eqb Pos.eqb andb orb] in Hp.
    rewrite orb_false_r in Hp. apply andb_true_iff in Hp as [_ Ho]. pose proof (owns_skey z x Hz Hx Ho) as Ea.
    pose proof (account_first x (proj1 Hgx)) as Hf. rewrite Hk in Hf. specialize (Hf ltac:(done)). rewrite <- Ea, <- rprefix_account in Hf by done.
    destruct (Hlast (rprefix x) (key_of_row x El) Hex) as [E|Hlt]; [rewrite E in Hf; by apply blt_irrefl in Hf|].
    by apply (blt_irrefl (rprefix z)), (blt_trans _ (rprefix x)).
  - cbn [andb orb] in Hp. apply andb_true_iff in Hp as [[Hkz' _]%andb_true_iff Es]. destruct (beqb_spec (skey z) (skey x)) as [E|]; [|done].
    apply Z.eqb_eq in Hkz'. rewrite (skey_inj z x Hz Hx Hkz' Hk E), El in Ez. injection Ez as _ ->. done.
Qed.

(** Nothing is written that no row writes. *)
Lemma emit_none k : (forall x, x ∈ W -> aff wop x k = false) -> forall p, p ∈ sorted_keys s -> aff (emit s) p k = false.
Proof.
  intros Hn p (z & Hz & <- & Ez & _)%keys_row. pose proof (w_rows W HW z Hz) as Hgz. pose proof (Hn z Hz) as Ha. rewrite aff_row in Ha by done. rewrite aff_emit by done.
  destruct (Z.eqb_spec (rkind z) 97) as [Hk|Hk]; cbn [andb orb] in *.
  - destruct (beqb (akey z) k); [done|]. rewrite Hk in *. cbn [Z.eqb Pos.eqb andb orb] in *. rewrite orb_false_r in *.
    case_bool_decide as Hd; rewrite ?orb_false_r, ?orb_true_r; [|done]. destruct Hd as [n Hd]. destruct (dels_in _ _ Hd) as (d & Hin & Hdd & Hda & _).
    pose proof (Hn d Hin) as Hnd. rewrite aff_row in Hnd by (by apply (w_rows W HW)). pose proof (proj1 (is_del_spec d) Hdd) as [Ek _]. rewrite Ek, Hdd in Hnd. cbn [Z.eqb Pos.eqb andb] in Hnd.
    apply orb_false_iff in Hnd as [Hnd _]. apply orb_false_iff in Hnd as [_ Hnd]. unfold owns in *. by rewrite <- Hda.
  - destruct (rkind z =? 115); [|done]. cbn [andb] in *. rewrite Ha. apply andb_false_r.
Qed.

Lemma leaves_row x k : x ∈ W -> aff wop x k = true -> last_row x k -> leaves k (out wop x k).
Proof.
  intros Hx Ha Hm. rewrite out_row, Ha. rewrite aff_row in Ha by (by apply (w_rows W HW)).
  destruct (Z.eqb_spec (rkind x) 97) as [Hk|Hk]; cbn [andb orb] in Ha.
  - destruct (beqb_spec (akey x) k) as [<-|_]; [by apply leaves_account|]. rewrite Hk in Ha. cbn [Z.eqb Pos.eqb andb orb] in Ha.
    rewrite orb_false_r in Ha. apply andb_true_iff in Ha as [Hd Ho]. by apply (leaves_deletion x).
  - apply andb_true_iff in Ha as [Hk' Ha]. destruct (beqb_spec (skey x) k) as [<-|]; [|done]. apply leaves_slot; [done| |done]. by apply Z.eqb_eq.
Qed.

(** The writes of the sorted keys end where the rows in TxNum order end. *)
Lemma window_state C S : C ≡ₚ W -> StronglySorted (fun x y => rn x <= rn y) C ->
  fold_left effect (concat (map (emit s) (sorted_keys s))) S = fold_left effect (concat (map wop C)) S.
Proof.
  intros HC Hord. apply map_eq. intros k.
  assert (HR : forall x, x ∈ C -> aff wop x k = true -> (forall y, y ∈ C -> aff wop y k = true -> y = x \/ rn y <= rn x) -> leaves k (out wop x k)).
  { intros x Hx Ha Hmax. rewrite HC in Hx. apply leaves_row; [done..|]. intros y Hy Hya. rewrite <- HC in Hy. destruct (Hmax y Hy Hya) as [->|]; [lia|done]. }
  destruct (decide_last wop _ k C S Hord) as [[Hn ->]|(x & Hx & Ha & Hmax & ->)];
    destruct (decide_last (emit s) blt k (sorted_keys s) S keys_sorted) as [[Hn' ->]|(p & Hp & Hpa & Hpm & ->)]; [done| | |].
  - rewrite (emit_none k) in Hpa; [done| |done]. intros x Hx. apply Hn. by rewrite HC.
  - destruct (HR x Hx Ha Hmax) as [(p & Hp & Hpa) _]. by rewrite Hn' in Hpa.
  - destruct (HR x Hx Ha Hmax) as [_ Hout]. by apply Hout.
Qed.

End Window.

(** What the overlay can hold of the window's values. *)
Definition values_ok (W : list strow) : Prop :=
  forall x, x ∈ W -> (rkind x = 97 -> len (acc_val (rval x)) <= 255) /\ (rkind x = 115 -> len (rval x) <= 255).

Lemma emit_writes W s : window_ok W -> scanned W s -> values_ok W -> (forall b, Forall byte_ok (Keccak256 b)) ->
  Forall write_ok (concat (map (emit s) (sorted_keys s))).
Proof.
  intros HW Hsc Hv Hb. apply Forall_concat, Forall_map, Forall_forall. intros p Hp.
  destruct (keys_row W s Hsc p Hp) as (x & Hx & <- & El & _). destruct (w_rows W HW x Hx) as [Hok Hgood]. destruct (Hv x Hx) as [Hva Hvs].
  assert (Hak : flat_key (akey x)).
  { split; [apply Forall_app; split; [apply Hb|by repeat constructor; unfold byte_ok; lia]|]. exists (Keccak256 (raddr x)). split; [apply Hlen|by left]. }
  assert (Hsk : flat_key (skey x)).
  { split; [|exists (Keccak256 (raddr x)); split; [apply Hlen|right; exists (Keccak256 (rslot x)); split; [apply Hlen|done]]].
    unfold skey, slotKey. rewrite !Forall_app. split_and!; [apply Hb| |apply Hb]. constructor; [unfold byte_ok; lia|done]. }
  assert (Hnil : write_ok (akey x, [])) by (split; [done|by vm_compute]).
  unfold emit. rewrite split_rprefix, El by done. cbn [from_option id row_of]. fold (akey x).
  destruct (Z.eqb_spec (rkind x) 97) as [Hk|_].
  - specialize (Hva Hk). unfold acc_val in Hva. destruct (len (rval x) =? 0); [by apply Forall_singleton|].
    apply Forall_app. split; [|by apply Forall_singleton]. destruct (bool_decide _); [by apply Forall_singleton|constructor].
  - destruct (Z.eqb_spec (rkind x) 115) as [Hk|_]; [|constructor]. destruct (_ || _); [constructor|]. apply Forall_singleton. split; [done|by apply Hvs].
Qed.

Lemma rebuild_writes_ok fuel rs Xs lo hi : Forall2 (run_rows fuel) rs Xs ->
  window_ok (List.filter (in_window lo hi) (concat Xs)) ->
  exists s w, rebuild_writes Keccak256 convert fuel rs lo hi = Ok (s, w) /\ scanned (List.filter (in_window lo hi) (concat Xs)) s /\ ops w = concat (map (emit s) (sorted_keys s)).
Proof.
  intros HX HW. destruct (scan_runs_ok fuel lo hi rs Xs HX [] (MkScan 0 ∅ ∅)) as (s & Es & Hsc); [split; apply tracks_nil|]. cbn [app] in Hsc.
  unfold rebuild_writes. rewrite Es. cbn [rbind]. destruct (rebuild_keys_emit s (sorted_keys s) [] (MkGroup [] [] false None) newWriteSet) as (w & -> & Ho).
  - apply keys_sorted.
  - intros p. cbn [app]. symmetry. apply keys_spec.
  - apply Forall_forall. intros p Hp. destruct (keys_row _ s Hsc p Hp) as (x & Hx & <- & _). exists x. split; [|done]. by apply (w_rows _ HW).
  - intros x c Hx Hk Hc Hne. destruct (keys_row _ s Hsc (rprefix x)) as (z & Hz & Ez & El & _); [apply keys_spec; by eexists|]. rewrite Hc in El. injection El as ->.
    destruct (w_rows _ HW z Hz) as [Hzok Hzc]. destruct (rprefix_inj z x Hzok Hx Ez) as (Hkz & _). cbn [row_of snd] in *. destruct (Hzc) as (v & Hv & _); [congruence|done|]. by exists v.
  - done.
  - exists s, w. done.
Qed.


End Runs.

(** ** Samples *)

Definition s_addr : bytes := replicate 20 7.
Definition s_word : bytes := replicate 32 9.
Definition s_rows (del : Z) : list strow := [MkStrow del 97 s_addr s_word []; MkStrow 2 97 s_addr s_word [5]; MkStrow 2 115 s_addr s_word [6]].
Definition s_state (del : Z) (s : Section) : list row := match s with SecState => map prow (s_rows del) | _ => [] end.
Definition s_run (del : Z) : RunFile.Run := RunFile.MkRun (RunFile.MkFooter [] [] 0 0 0 0 [] 0) (s_state del) (fun _ => None).
Definition s_ref : DB.RunRef := DB.MkRef 0 3 0 1 [] 0.

Lemma s_rows_ok del : 0 <= del < 2 -> Forall strow_ok (s_rows del).
Proof.
  intros Hd. unfold s_rows. repeat (apply Forall_cons; split); [..|constructor]; (split_and!; [set_solver|done|done|unfold u64_ok; cbn; lia]).
Qed.

Lemma s_run_rows del : 0 <= del < 2 -> Forall2 (run_rows 3) [(s_ref, s_run del)] [s_rows del].
Proof.
  intros Hd. constructor; [|constructor]. split; [|split].
  - exists (s_state del). split_and!.
    + intros s. split; [done|]. split; [|done]. assert (del = 0 \/ del = 1) as [-> | ->] by lia; destruct s; unfold sorted_rows, blt; repeat constructor.
    + done.
    + assert (del = 0 \/ del = 1) as [-> | ->] by lia; vm_compute; reflexivity.
  - by apply s_rows_ok.
  - unfold s_rows. repeat (apply Forall_cons; split); [..|constructor]; cbn; lia.
Qed.

Definition s_keccak : bytes -> bytes := MemRecover.sample_keccak.

Lemma s_rows_in del x : x ∈ s_rows del -> x = MkStrow del 97 s_addr s_word [] \/ x = MkStrow 2 97 s_addr s_word [5] \/ x = MkStrow 2 115 s_addr s_word [6].
Proof. unfold s_rows. set_solver. Qed.

Lemma s_window : window_ok s_keccak (fun v => Ok v) (s_rows 1).
Proof.
  split.
  - intros x Hx. split; [|intros _ Hv; by exists (rval x)]. pose proof (s_rows_ok 1 ltac:(lia)) as Hok. rewrite Forall_forall in Hok. by apply Hok.
  - intros x y [->|[->| ->]]%s_rows_in [->|[->| ->]]%s_rows_in; done.
  - intros x [->|[->| ->]]%s_rows_in; done.
  - intros x d [->|[->| ->]]%s_rows_in [->|[->| ->]]%s_rows_in; try done. intros _ _ _ _. exists (MkStrow 2 97 s_addr s_word [5]). cbn. split_and!; [unfold s_rows; set_solver|done..].
  - intros x y [->|[->| ->]]%s_rows_in [->|[->| ->]]%s_rows_in; done.
  - intros x y [->|[->| ->]]%s_rows_in [->|[->| ->]]%s_rows_in; done.
Qed.


Definition s_old : bytes := slotKey (s_keccak s_addr) (s_keccak []).

Lemma rebuild_zero_deletion :
  (let* (_, w) := rebuild_writes s_keccak (fun v => Ok v) 3 [(s_ref, s_run 0)] 0 2 in Ok (fold_left effect (ops w) {[ s_old := [1] ]} !! s_old)) = Ok (Some [1]) /\
  fold_left effect (concat (map (wop s_keccak (fun v => Ok v)) (s_rows 0))) {[ s_old := [1] ]} !! s_old = None.
Proof. split; vm_compute; reflexivity. Qed.

End Rebuild.
