(* ===== verification/VmBlock.v ===== *)
(** * vmexec/flatdb.go: a block over the state engine

    Between [begin_] and [take_] the block's writes collect in order; reads see them
    before the engine, through the hash caches. Here: the reads are those of the state
    the writes lead to, and handing the writes to the engine commits that state. *)

From S2P Require Import Prelude Bytes Rows Ef Format Sha256 Container Memtable MemRecover MemRead Sst RunFile Postings Seal Window Growth KMerge DB LatestRun LatestOverlay LatestView Nibbles Dirty VmState Rebuild.
Import Format.

Module VmBlock.
Import VmState.

Section Block.
Context (Keccak256 : bytes -> bytes) (encode_row : accountRow -> res bytes) (decode_row : bytes -> res accountRow).

(** The trie's write methods. *)
Inductive write :=
| WAccount (addr : bytes) (acc : accountRow)
| WDelete (addr : bytes)
| WSlot (ah key value : bytes)
| WSlotDelete (ah key : bytes).

Definition do_write (d : flatDB) (x : write) : res flatDB :=
  match x with
  | WAccount addr acc => UpdateAccount Keccak256 encode_row d addr acc
  | WDelete addr => DeleteAccount Keccak256 d addr
  | WSlot ah key value => UpdateStorage Keccak256 d ah key value
  | WSlotDelete ah key => DeleteStorage Keccak256 d ah key
  end.

Fixpoint do_writes (d : flatDB) (l : list write) : res flatDB :=
  match l with [] => Ok d | x :: l => let* d := do_write d x in do_writes d l end.

(** The write to the flat state. *)
Definition write_op (x : write) : bytes * bytes :=
  match x with
  | WAccount addr acc => (accountKey (Keccak256 addr), match encode_row acc with Ok v => v | _ => [] end)
  | WDelete addr => (accountKey (Keccak256 addr), [])
  | WSlot ah key value => (slotKey ah (Keccak256 key), value)
  | WSlotDelete ah key => (slotKey ah (Keccak256 key), [])
  end.

Definition encodes (x : write) : Prop := match x with WAccount _ acc => exists v, encode_row acc = Ok v | _ => True end.

Definition cache_ok (c : hashCache) : Prop :=
  (forall a h, haddr c !! a = Some h -> h = Keccak256 a) /\ (forall a h, hslot c !! a = Some h -> h = Keccak256 a).

Lemma addrHash_ok c a : cache_ok c -> exists c', addrHash Keccak256 c a = (Keccak256 a, c') /\ cache_ok c'.
Proof.
  intros [Ha Hs]. unfold addrHash. destruct (haddr c !! a) as [h|] eqn:E; [exists c; split; [by rewrite (Ha a h E)|done]|].
  eexists. split; [reflexivity|]. split; [|exact Hs]. cbn [haddr]. intros b h. destruct (decide (a = b)) as [->|Hne]; [rewrite lookup_insert_eq; congruence|].
  rewrite lookup_insert_ne by done. destruct (_ <=? _); [by rewrite lookup_empty|apply Ha].
Qed.

Lemma slotHash_ok c k : cache_ok c -> exists c', slotHash Keccak256 c k = (Keccak256 k, c') /\ cache_ok c'.
Proof.
  intros [Ha Hs]. unfold slotHash. destruct (negb _); [by exists c|]. destruct (hslot c !! k) as [h|] eqn:E; [exists c; split; [by rewrite (Hs k h E)|done]|].
  eexists. split; [reflexivity|]. split; [exact Ha|]. cbn [hslot]. intros b h. destruct (decide (k = b)) as [->|Hne]; [rewrite lookup_insert_eq; congruence|].
  rewrite lookup_insert_ne by done. destruct (_ <=? _); [by rewrite lookup_empty|apply Hs].
Qed.

(** A block open over [e] with the writes [l]. *)
Definition open_block (d : flatDB) (e : engine) (l : list (bytes * bytes)) : Prop :=
  eng d = e /\ cache_ok (hc d) /\ ws d = Some (fold_left (fun w x => put w x.1 x.2) l newWriteSet).

Lemma do_write_ok d e l x : encodes x -> open_block d e l -> exists d', do_write d x = Ok d' /\ open_block d' e (l ++ [write_op x]).
Proof.
  intros Hx (He & Hc & Hw). destruct x as [addr acc|addr|ah key v|ah key]; cbn [do_write write_op]; unfold UpdateAccount, DeleteAccount, UpdateStorage, DeleteStorage;
    [destruct Hx as [v ->]; cbn [rbind]; destruct (addrHash_ok (hc d) addr Hc) as (c' & -> & Hc')
    |destruct (addrHash_ok (hc d) addr Hc) as (c' & -> & Hc')
    |destruct (slotHash_ok (hc d) key Hc) as (c' & -> & Hc')..];
    unfold ws_put; rewrite Hw; (eexists; split; [reflexivity|]; split_and!; [done|done|cbn [ws]; by rewrite fold_left_app]).
Qed.

Lemma do_writes_ok xs : forall d e l, Forall encodes xs -> open_block d e l -> exists d', do_writes d xs = Ok d' /\ open_block d' e (l ++ map write_op xs).
Proof.
  induction xs as [|x xs IH]; intros d e l Hx Hd; [exists d; by rewrite app_nil_r|]. apply Forall_cons in Hx as [Hx Hxs].
  cbn [do_writes map]. destruct (do_write_ok d e l x Hx Hd) as (d1 & -> & Hd1). cbn [rbind]. rewrite cons_middle, app_assoc. by apply IH.
Qed.

Lemma ops_of l : forall w, ops (fold_left (fun w x => put w x.1 x.2) l w) = ops w ++ l.
Proof. induction l as [|[k v] l IH]; intros w; [by rewrite app_nil_r|]. cbn [fold_left]. rewrite IH. cbn. by rewrite <- app_assoc. Qed.

(** No write of [l] takes the key along with its account. *)
Definition stays (l : list (bytes * bytes)) (k : bytes) : Prop := forall x, x ∈ l -> Rebuild.affects x k = true -> x.1 = k.

Lemma flat_lookup l k : forall S, stays l k ->
  fold_left effect l S !! k = match wm (fold_left (fun w x => put w x.1 x.2) l newWriteSet) !! k with Some v => Rebuild.live v | None => S !! k end.
Proof.
  induction l as [|x l IH] using rev_ind; intros S Hst; [cbn; by rewrite lookup_empty|]. rewrite !fold_left_app. cbn [fold_left].
  rewrite Rebuild.effect_lookup. unfold put at 1. cbn [wm]. destruct (decide (x.1 = k)) as [E|E].
  - rewrite E, lookup_insert_eq. unfold Rebuild.affects, Rebuild.outcome. by rewrite E, beqb_refl.
  - rewrite lookup_insert_ne by done. destruct (Rebuild.affects x k) eqn:Ea; [destruct E; apply Hst; [set_solver|done]|].
    apply IH. intros y Hy. apply Hst. set_solver.
Qed.

Lemma lookup_block d e l S k : eng_ok e S -> open_block d e l -> Forall byte_ok k -> stays l k -> lookup d k = Ok (fold_left effect l S !! k).
Proof.
  intros He (Hd & _ & Hw) Hk Hst. unfold lookup. rewrite Hw. cbn [mbind option_bind]. rewrite (flat_lookup l k S Hst).
  destruct (wm _ !! k) as [v|].
  - unfold Rebuild.live. destruct (Z.eqb_spec (len v) 0) as [->|Hn]; [done|]. pose proof (len_nonneg v). by rewrite (proj2 (Z.ltb_lt _ _)) by lia.
  - rewrite Hd. by apply eng_get_ok.
Qed.

Lemma account_stays l ah : length ah = 32%nat -> Forall write_ok l -> stays l (accountKey ah).
Proof.
  intros Ha Hl x Hx Haf. rewrite Forall_forall in Hl. destruct (Hl x Hx) as [[_ (h & Hh & Hk)] _]. destruct x as [k v]. cbn [fst] in *. destruct Hk as [->|(sh & Hs & ->)].
  - rewrite Rebuild.affects_account, Rebuild.account_not_slot, andb_false_r, orb_false_r in Haf by congruence. by destruct (beqb_spec (accountKey h) (accountKey ah)).
  - rewrite Rebuild.affects_slot in Haf by done. by destruct (beqb_spec (slotKey h sh) (accountKey ah)).
Qed.

Lemma slot_stays l ah sh : length ah = 32%nat -> length sh = 32%nat -> Forall write_ok l -> (accountKey ah, []) ∉ l -> stays l (slotKey ah sh).
Proof.
  intros Ha Hs Hl Hno x Hx Haf. rewrite Forall_forall in Hl. destruct (Hl x Hx) as [[_ (h & Hh & Hk)] _]. destruct x as [k v]. cbn [fst] in *. destruct Hk as [->|(sh' & Hs' & ->)].
  - rewrite Rebuild.affects_account in Haf by done. apply orb_true_iff in Haf as [Haf|[Hv Hp]%andb_true_iff]; [by destruct (beqb_spec (accountKey h) (slotKey ah sh))|].
    exfalso. apply Hno. apply Rebuild.slot_of in Hp; [|congruence]. subst h. destruct v; [done|]. apply Z.eqb_eq in Hv. lensimp.
  - rewrite Rebuild.affects_slot in Haf by done. by destruct (beqb_spec (slotKey h sh') (slotKey ah sh)).
Qed.

(** C20: a block executes on the state it leads to. After any writes of the open block,
    an account reads as the state those writes make of the engine's has it, and so
    does a slot unless the block deleted its account; the hash caches never show; and
    handing the taken writes to the engine makes that very state the engine's. *)
Theorem block_reads_commit d e S root xs :
  (forall b, length (Keccak256 b) = 32%nat /\ Forall byte_ok (Keccak256 b)) ->
  eng d = e -> eng_ok e S -> cache_ok (hc d) -> Forall encodes xs -> Forall write_ok (map write_op xs) ->
  let l := map write_op xs in
  let S' := fold_left effect l S in
  exists d', do_writes (begin_ d root) xs = Ok d' /\
    (forall addr, exists d2, cache_ok (hc d2) /\ GetAccount Keccak256 decode_row d' addr =
      match S' !! accountKey (Keccak256 addr) with None => Ok (None, d2) | Some v => let* r := decode_row v in Ok (Some r, d2) end) /\
    (forall ah key, length ah = 32%nat -> Forall byte_ok ah -> (accountKey ah, []) ∉ l -> exists d2, cache_ok (hc d2) /\
      GetStorage Keccak256 d' ah key = Ok (S' !! slotKey ah (Keccak256 key), d2)) /\
    exists w d3 e', take_ d' = (Some w, d3) /\ ws d3 = None /\ ops w = l /\ applyOverlay (eng d3) (ops w) = Ok e' /\ eng_ok e' S'.
Proof.
  intros HK Hd He Hc Hx Hl l S'. destruct (do_writes_ok xs (begin_ d root) e [] Hx) as (d' & E & Ho); [done|]. cbn [app] in Ho. exists d'. split; [done|].
  pose proof Ho as (Hd' & Hc' & Hw). split_and!.
  - intros addr. unfold GetAccount. destruct (addrHash_ok (hc d') addr Hc') as (c & -> & Hok). exists (with_hc d' c). split; [done|].
    destruct (HK addr) as [Hlen Hb]. rewrite (lookup_block d' e l S) by (done || (apply Forall_app; split; [done|by repeat constructor]) || by apply account_stays). done.
  - intros ah key Ha Hab Hno. unfold GetStorage. destruct (slotHash_ok (hc d') key Hc') as (c & -> & Hok). exists (with_hc d' c). split; [done|].
    destruct (HK key) as [Hlen Hb]. rewrite (lookup_block d' e l S); [done..| |by apply slot_stays].
    unfold slotKey. rewrite !Forall_app. split_and!; [done| |done]. by repeat constructor.
  - destruct (applyOverlay_ok l e S He Hl) as (e' & Ea & He' & _). eexists _, _, e'. unfold take_. rewrite Hw. split; [reflexivity|]. cbn [eng ws]. rewrite ops_of, Hd'. done.
Qed.

End Block.

Lemma block_reads_commit_witness : exists d w d3 e,
  do_writes Rebuild.s_keccak (fun _ => Ok [5]) (begin_ (MkFDB idle None [] (MkHC ∅ ∅)) []) [WAccount Rebuild.s_addr (MkRow 0 0 []); WDelete Rebuild.s_addr] = Ok d /\
  take_ d = (Some w, d3) /\ applyOverlay (eng d3) (ops w) = Ok e.
Proof.
  assert (HK : forall b, length (Rebuild.s_keccak b) = 32%nat /\ Forall byte_ok (Rebuild.s_keccak b)).
  { intros b. split; [done|]. apply Forall_replicate. unfold byte_ok. pose proof (Z.mod_pos_bound (len b) 256). lia. }
  assert (Hk : flat_key (accountKey (Rebuild.s_keccak Rebuild.s_addr))).
  { split; [apply Forall_app; split; [apply HK|by repeat constructor]|]. eexists. split; [apply HK|by left]. }
  destruct (block_reads_commit Rebuild.s_keccak (fun _ => Ok [5]) (fun _ => Ok (MkRow 0 0 [])) (MkFDB idle None [] (MkHC ∅ ∅)) idle ∅ []
    [WAccount Rebuild.s_addr (MkRow 0 0 []); WDelete Rebuild.s_addr]) as (d & E & _ & _ & w & d3 & e & Et & _ & _ & Ea & _).
  - exact HK.
  - reflexivity.
  - exact idle_ok.
  - split; intros a h Ha; cbn [hc haddr hslot] in Ha; by rewrite lookup_empty in Ha.
  - constructor; [by eexists|]. constructor; [exact I|constructor].
  - constructor; [split; [exact Hk|vm_compute; discriminate]|]. constructor; [split; [exact Hk|vm_compute; discriminate]|constructor].
  - exists d, w, d3, e. split; [exact E|]. split; [exact Et|exact Ea].
Defined.

End VmBlock.
