(* ===== verification/Logs.v ===== *)
(** * rpc/logs.go: eth_getLogs

    The posting lists name candidate transactions, one set per dimension of the
    filter, and their intersection the candidate blocks; the stored receipts decide.
    What the server asks of the store and of the block reader is the class [Source],
    what it relies on the class [SourceLaws]. [res]'s error is an rpcError. The JSON
    decoder is a parameter. *)

From Stdlib Require Import Sorting.Sorted.
From S2P Require Import Prelude Bytes Rows Ef Format Memtable.
Import Format.
Import Memtable.

Module Logs.

(** ** Data *)

Record StoredLog := MkStored { sAddress : bytes; sTopics : list bytes; sData : bytes }.
Record Log := MkLog {
  Address : bytes; Topics : list bytes; Data : bytes;
  BlockNumber : Z; TxHash : bytes; TxIndex : Z; BlockHash : bytes; Index : Z }.
(** A block: its hash and the hashes of its transactions. *)
Record Block := MkBlk { bHash : bytes; bTxs : list bytes }.

Class Source := {
  BlockTxRange : Z -> res (option (Z * Z));           (* first TxNum and count *)
  HeightOfTx : Z -> res (option Z);
  Postings : bytes -> Z -> Z -> res (list (Z * Z));   (* TxNum and payload, as the callback gets them *)
  storedReceipt : Z -> res (list StoredLog);          (* the logs of the row *)
  blockAt : Z -> res Block;
  derives : Block -> res unit }.                      (* base fee and senders: the rest of a receipt *)

(** A nil entry is a wildcard. *)
Abbreviation topic_filter := (list (option (list bytes))).

Section Query.
Context `{Source}.

(** ** Receipts *)

Fixpoint tx_logs (n : Z) (hash : bytes) (txhash : bytes) (i : Z) (logs : list StoredLog) (logIndex : Z) : list Log :=
  match logs with
  | [] => []
  | sl :: logs => MkLog (sAddress sl) (sTopics sl) (sData sl) n txhash i hash logIndex :: tx_logs n hash txhash i logs (logIndex + 1)
  end.

(** The loop of [storedBlockReceipts], the logs of each receipt. *)
Fixpoint receipts_loop (n first : Z) (hash : bytes) (i : Z) (txs : list bytes) (logIndex : Z) : res (list (list Log)) :=
  match txs with
  | [] => Ok []
  | tx :: txs =>
      let* logs := storedReceipt (u64 (first + i)) in
      let* rest := receipts_loop n first hash (i + 1) txs (logIndex + len logs) in
      Ok (tx_logs n hash tx i logs logIndex :: rest)
  end.

Definition storedBlockReceipts (n : Z) (blk : Block) : res (list (list Log)) :=
  let* r := BlockTxRange n in
  match r with
  | None => Err "block holds transactions but is not stored"
  | Some (first, count) =>
      if negb (count =? len (bTxs blk)) then Err "block holds transactions its tx range does not cover"
      else let* _ := derives blk in receipts_loop n first (bHash blk) 0 (bTxs blk) 0
  end.

Definition logsOfBlock (n : Z) : res (list Log) :=
  let* blk := blockAt n in
  if len (bTxs blk) =? 0 then Ok []
  else let* receipts := storedBlockReceipts n blk in Ok (concat receipts).

(** ** The exact filter *)

Fixpoint topics_match (lt : list bytes) (i : nat) (topics : topic_filter) : bool :=
  match topics with
  | [] => true
  | None :: topics => topics_match lt (S i) topics
  | Some want :: topics =>
      match lt !! i with
      | None => false
      | Some t => existsb (fun w => beqb w t) want && topics_match lt (S i) topics
      end
  end.

Definition logMatches (addrs : list bytes) (topics : topic_filter) (l : Log) : bool :=
  (if 0 <? len addrs then existsb (fun a => beqb a (Address l)) addrs else true) && topics_match (Topics l) 0 topics.

(** ** Candidates *)

Definition txRangeOf (from to : Z) : res (Z * Z) :=
  let* a := BlockTxRange from in
  match a with
  | None => Err "tx range"
  | Some (loTx, _) =>
      let* b := BlockTxRange to in
      match b with
      | None => Err "tx range"
      | Some (first, count) =>
          if count =? 0 then if first =? 0 then Ok (1, 0) else Ok (loTx, u64 (first - 1))
          else Ok (loTx, u64 (first + count - 1))
      end
  end.

Definition collectPostings (prefix : bytes) (loTx hiTx mask : Z) (set : gset Z) : res (gset Z) :=
  let* l := Postings prefix loTx hiTx in
  Ok (fold_left (fun s e => if (mask =? 0) || negb (Z.land e.2 mask =? 0) then {[ e.1 ]} ∪ s else s) l set).

Fixpoint collect_addrs (topic0 : option bytes) (loTx hiTx : Z) (addrs : list bytes) (set : gset Z) : res (gset Z) :=
  match addrs with
  | [] => Ok set
  | a :: addrs =>
      let prefix := match topic0 with Some t => ELogGroup a t | None => ELogPrefix a end in
      let* set := collectPostings prefix loTx hiTx 0 set in collect_addrs topic0 loTx hiTx addrs set
  end.

(** One topic position; topic 4 and up is not indexed. *)
Fixpoint collect_topic (topic0 : option bytes) (loTx hiTx : Z) (i : nat) (want : list bytes) (set : gset Z) : res (gset Z) :=
  match want with
  | [] => Ok set
  | t :: want =>
      if (3 <? i)%nat then collect_topic topic0 loTx hiTx i want set
      else
        let '(prefix, mask) :=
          if (i =? 0)%nat then (SigGroup t, 0)
          else (match topic0 with Some t0 => TValGroup t t0 | None => TValPrefix t end, Z.shiftl 1 (Z.of_nat i - 1)) in
        let* set := collectPostings prefix loTx hiTx mask set in collect_topic topic0 loTx hiTx i want set
  end.

Fixpoint topic_sets (topic0 : option bytes) (loTx hiTx : Z) (i : nat) (topics : topic_filter) : res (list (gset Z)) :=
  match topics with
  | [] => Ok []
  | None :: topics => topic_sets topic0 loTx hiTx (S i) topics
  | Some want :: topics =>
      let* set := collect_topic topic0 loTx hiTx i want ∅ in
      let* sets := topic_sets topic0 loTx hiTx (S i) topics in
      Ok (if (3 <? i)%nat then sets else set :: sets)
  end.

(** The blocks of the transactions in every set. *)
Fixpoint blocks_of (from to : Z) (sets : list (gset Z)) (l : list Z) (inSet : gset Z) : res (gset Z) :=
  match l with
  | [] => Ok inSet
  | txnum :: l =>
      if forallb (fun s : gset Z => bool_decide (txnum ∈ s)) sets then
        let* n := HeightOfTx txnum in
        match n with
        | Some n => blocks_of from to sets l (if (from <=? n) && (n <=? to) then {[ n ]} ∪ inSet else inSet)
        | None => blocks_of from to sets l inSet
        end
      else blocks_of from to sets l inSet
  end.

Definition smallest (s : gset Z) (sets : list (gset Z)) : gset Z :=
  fold_left (fun m x : gset Z => if (size x <? size m)%nat then x else m) sets s.

Definition logCandidates (from to : Z) (addrs : list bytes) (topics : topic_filter) : res (list Z) :=
  let* (loTx, hiTx) := txRangeOf from to in
  let topic0 := match topics with Some [t] :: _ => Some t | _ => None end in
  let* asets := if 0 <? len addrs then let* s := collect_addrs topic0 loTx hiTx addrs ∅ in Ok [s] else Ok [] in
  let* tsets := topic_sets topic0 loTx hiTx 0 topics in
  match asets ++ tsets with
  | [] => Ok (seqZ from (to - from + 1))
  | s :: sets =>
      let* inSet := blocks_of from to (s :: sets) (elements (smallest s sets)) ∅ in
      Ok (merge_sort Z.le (elements inSet))
  end.

Fixpoint get_logs_loop (addrs : list bytes) (topics : topic_filter) (candidates : list Z) : res (list Log) :=
  match candidates with
  | [] => Ok []
  | n :: candidates =>
      let* logs := logsOfBlock n in
      let* rest := get_logs_loop addrs topics candidates in
      Ok (List.filter (logMatches addrs topics) logs ++ rest)
  end.

Definition runGetLogs (from to : Z) (addrs : list bytes) (topics : topic_filter) : res (list Log) :=
  let* candidates := logCandidates from to addrs topics in get_logs_loop addrs topics candidates.

(** ** Parsing a filter *)

Context (unmarshal_address unmarshal_hash : bytes -> option bytes) (unmarshal_addresses unmarshal_hashes : bytes -> option (list bytes)).

Definition parse_address (raw : bytes) : res (list bytes) :=
  if 0 <? len raw then
    match unmarshal_address raw with
    | Some one => Ok [one]
    | None => match unmarshal_addresses raw with Some l => Ok l | None => Err "bad address" end
    end
  else Ok [].

Fixpoint parse_topics (raws : list bytes) : res topic_filter :=
  match raws with
  | [] => Ok []
  | raw :: raws =>
      let* t := if beqb raw (str "null") || (len raw =? 0) then Ok None
                else match unmarshal_hash raw with
                     | Some one => Ok (Some [one])
                     | None => match unmarshal_hashes raw with Some l => Ok (Some l) | None => Err "bad topics entry" end
                     end in
      let* ts := parse_topics raws in Ok (t :: ts)
  end.

(** Trailing wildcards are no-ops. *)
Fixpoint trim_topics (ts : topic_filter) : topic_filter :=
  match ts with
  | [] => []
  | t :: ts => match trim_topics ts, t with [], None => [] | ts, t => t :: ts end
  end.

Definition parseLogMatchers (address : bytes) (topics : list bytes) : res (list bytes * topic_filter) :=
  let* addrs := parse_address address in
  let* ts := parse_topics topics in
  Ok (addrs, trim_topics ts).

Definition GetLogsMaxRange : Z := 10000.

(** A decoded block tag, and [blockNumber] on it: [live] is the executor's accepted and
    settled height, of a server that follows one. *)
Inductive tag := Latest | Safe | Earliest | Number (n : Z) | Hash (h : bytes).
Context (heightOfHashTag : bytes -> res Z).

Definition acceptedHead (head : Z) (live : option (Z * Z)) : Z := match live with Some (acc, _) => Z.max head acc | None => head end.

Definition blockNumber (head : Z) (live : option (Z * Z)) (t : tag) : res Z :=
  match t with
  | Latest => Ok head
  | Safe => Ok (match live with Some (_, settled) => Z.min settled head | None => head end)
  | Earliest => Ok 0
  | Number n => if acceptedHead head live <? n then Err "block beyond head" else Ok n
  | Hash h => heightOfHashTag h
  end.

(** [h1] and [h2] are the heads the two calls of [blockNumber] see. *)
Definition parseFilterCriteria (h1 h2 : Z) (live1 live2 : option (Z * Z)) (blockHash : option bytes) (fromBlock toBlock : tag)
    (address : bytes) (topics : list bytes) : res (Z * Z * list bytes * topic_filter) :=
  match blockHash with
  | Some _ => Err "blockHash filter is for eth_getLogs, not for a stored filter over a range"
  | None =>
      let* from := blockNumber h1 live1 fromBlock in
      let* to := blockNumber h2 live2 toBlock in
      let from := if from =? 0 then 1 else from in
      if to <? from then Err "toBlock below fromBlock"
      else if GetLogsMaxRange <? u64 (to - from + 1) then Err "block range exceeds the maximum"
      else
        let* (addrs, ts) := parseLogMatchers address topics in
        Ok (from, to, addrs, ts)
  end.

Definition getLogs (h1 h2 : Z) (live1 live2 : option (Z * Z)) (blockHash : option bytes) (fromBlock toBlock : tag)
    (address : bytes) (topics : list bytes) : res (list Log) :=
  match blockHash with
  | Some h =>
      let* n := heightOfHashTag h in
      if n =? 0 then Ok []
      else let* (addrs, ts) := parseLogMatchers address topics in runGetLogs n n addrs ts
  | None =>
      let* (from, to, addrs, ts) := parseFilterCriteria h1 h2 live1 live2 blockHash fromBlock toBlock address topics in
      runGetLogs from to addrs ts
  end.

End Query.

(** ** What the server relies on *)

(** Blocks 1 to [tip], block [h] taking the TxNums from [first h] on, one more than it
    has transactions; every TxNum belongs to its block; the postings under a prefix are
    those of the groups with that prefix, and every log of a transaction is posted
    under the groups the memtable posts it under. *)
Class SourceLaws `{Source} (tip : Z) (first : Z -> Z) (blk : Z -> Block) (rlogs : Z -> list StoredLog) (posts : Z -> gmap bytes Z) : Prop := {
  range_stored h : 1 <= h <= tip -> BlockTxRange h = Ok (Some (first h, len (bTxs (blk h))));
  range_next h : 1 <= h <= tip -> first (h + 1) = first h + len (bTxs (blk h)) + 1;
  range_bounds : 0 <= first 1 /\ first (tip + 1) < 2 ^ 63;
  height_of n : first 1 <= n < first (tip + 1) -> exists h, HeightOfTx n = Ok (Some h) /\ 1 <= h <= tip /\ first h <= n < first (h + 1);
  postings_under p lo hi : exists l, Postings p lo hi = Ok l /\
    forall n m, (n, m) ∈ l <-> lo <= n <= hi /\ first 1 <= n < first (tip + 1) /\ exists g, posts n !! g = Some m /\ has_prefix g p = true;
  receipt_stored h i : 1 <= h <= tip -> 0 <= i < len (bTxs (blk h)) -> storedReceipt (first h + i) = Ok (rlogs (first h + i));
  log_posted n l g m : l ∈ rlogs n -> logPostings ∅ (sAddress l) (sTopics l) !! g = Some m ->
    exists m', posts n !! g = Some m' /\ Z.land m' m = m;
  block_stored h : 1 <= h <= tip -> blockAt h = Ok (blk h);
  block_derives h : 1 <= h <= tip -> derives (blk h) = Ok tt }.

(** ** What a log is posted under *)

(** The group is there with the bits [b]. *)
Definition has (p : gmap bytes Z) (g : bytes) (b : Z) : Prop := exists m, p !! g = Some m /\ Z.land m b = b.

Lemma land_le m r b : Z.land m b = b -> Z.land (Z.lor m r) b = b.
Proof.
  intros E. apply Z.bits_inj'. intros k Hk. rewrite Z.land_spec, Z.lor_spec. apply (f_equal (fun x => Z.testbit x k)) in E. rewrite Z.land_spec in E.
  destruct (Z.testbit b k); [|by rewrite !andb_false_r]. rewrite andb_true_r in *. by rewrite E.
Qed.

Lemma land_trans m' m b : Z.land m' m = m -> Z.land m b = b -> Z.land m' b = b.
Proof. intros E1 E2. rewrite <- E2 at 1. rewrite Z.land_assoc, E1. exact E2. Qed.

Lemma has_or p g b k r : has p g b -> has (or_post k r p) g b.
Proof.
  intros (m & E & Hb). unfold has, or_post. destruct (decide (k = g)) as [->|Hne]; [rewrite lookup_insert_eq, E|rewrite lookup_insert_ne by done]; [|by exists m].
  eexists. split; [reflexivity|]. by apply land_le.
Qed.

Lemma has_here p k r : has (or_post k r p) k r.
Proof.
  unfold has, or_post. rewrite lookup_insert_eq. eexists. split; [reflexivity|]. rewrite Z.lor_comm. apply land_le, Z.land_diag.
Qed.

Lemma has_tval_keep t0 topics : forall i p g b, has p g b -> has (tval_posts i t0 topics p) g b.
Proof. induction topics as [|t topics IH]; intros i p g b Hp; cbn [tval_posts]; [done|]. destruct (i <=? 3)%nat; [|done]. by apply IH, has_or. Qed.

Lemma has_tval t0 topics : forall i p j t, topics !! j = Some t -> (i + j <= 3)%nat ->
  has (tval_posts i t0 topics p) (TValGroup t t0) (Z.shiftl 1 (Z.of_nat (i + j) - 1)).
Proof.
  induction topics as [|t' topics IH]; intros i p j t Hj Hi; cbn [tval_posts]; [done|]. rewrite (proj2 (Nat.leb_le i 3)) by lia. destruct j as [|j].
  - injection Hj as ->. rewrite Nat.add_0_r. apply has_tval_keep, has_here.
  - replace (i + S j)%nat with (S i + j)%nat by lia. apply IH; [done|lia].
Qed.

(** The group of a log's first topic. *)
Definition topic0_of (l : StoredLog) : bytes := match sTopics l with [] => zeroHash | t :: _ => t end.

Lemma posted_emitter p e ts : has (logPostings p e ts) (ELogGroup e (match ts with [] => zeroHash | t :: _ => t end)) 0.
Proof. unfold logPostings. apply has_tval_keep, has_here. Qed.

Lemma posted_sig p e t ts : has (logPostings p e (t :: ts)) (SigGroup t) 0.
Proof. unfold logPostings. apply has_tval_keep, has_or, has_here. Qed.

Lemma posted_tval p e ts i t : ts !! i = Some t -> (1 <= i <= 3)%nat ->
  has (logPostings p e ts) (TValGroup t (match ts with [] => zeroHash | t :: _ => t end)) (Z.shiftl 1 (Z.of_nat i - 1)).
Proof.
  intros Ht Hi. unfold logPostings. destruct i as [|i]; [lia|]. destruct ts as [|t0 ts]; [done|]. cbn [tail]. apply (has_tval t0 ts 1 _ i t); [done|lia].
Qed.

Lemma group_prefix p a b : has_prefix (join p [a; b]) (join p [a]) = true.
Proof. rewrite join2. apply has_prefix_app. Qed.

Lemma prefix_self p : has_prefix p p = true.
Proof. rewrite <- (app_nil_r p) at 1. apply has_prefix_app. Qed.

Section Exact.
Context `{Source} (tip : Z) (first : Z -> Z) (blk : Z -> Block) (rlogs : Z -> list StoredLog) (posts : Z -> gmap bytes Z) `{!SourceLaws tip first blk rlogs posts}.

Lemma start_mono a b : 1 <= a -> a <= b -> b <= tip + 1 -> first a <= first b.
Proof.
  intros Ha Hab Hb. replace b with (a + Z.of_nat (Z.to_nat (b - a))) in * by lia. clear Hab. revert Hb. generalize (Z.to_nat (b - a)). clear b.
  induction n as [|k IH]; intros Hb; [rewrite Z.add_0_r; lia|]. replace (a + Z.of_nat (S k)) with (a + Z.of_nat k + 1) in * by lia.
  rewrite range_next by lia. pose proof (len_nonneg (bTxs (blk (a + Z.of_nat k)))). specialize (IH ltac:(lia)). lia.
Qed.

(** A transaction of block [h]. *)
Definition tx_of (h n : Z) : Prop := exists i, 0 <= i < len (bTxs (blk h)) /\ n = first h + i.

Lemma tx_bounds h n : 1 <= h <= tip -> tx_of h n -> first 1 <= n < first (tip + 1) /\ first h <= n < first (h + 1).
Proof.
  intros Hh (i & Hi & ->). pose proof (start_mono 1 h ltac:(lia) ltac:(lia) ltac:(lia)). pose proof (start_mono (h + 1) (tip + 1) ltac:(lia) ltac:(lia) ltac:(lia)).
  pose proof (range_next h Hh). lia.
Qed.

Lemma tx_height h n : 1 <= h <= tip -> tx_of h n -> HeightOfTx n = Ok (Some h).
Proof.
  intros Hh Hn. destruct (tx_bounds h n Hh Hn) as [H1 H2]. destruct (height_of n H1) as (h' & E & Hh' & Hb). rewrite E. do 2 f_equal.
  destruct (Z.lt_trichotomy h h') as [Hlt|[->|Hlt]]; [|done|]; exfalso.
  - pose proof (start_mono (h + 1) h' ltac:(lia) ltac:(lia) ltac:(lia)). lia.
  - pose proof (start_mono (h' + 1) h ltac:(lia) ltac:(lia) ltac:(lia)). lia.
Qed.

(** ** The logs of a block *)

Fixpoint numbered (n : Z) (hash : bytes) (f : Z -> list StoredLog) (i : Z) (txs : list bytes) (idx : Z) : list (list Log) :=
  match txs with
  | [] => []
  | tx :: txs => tx_logs n hash tx i (f i) idx :: numbered n hash f (i + 1) txs (idx + len (f i))
  end.

Definition blogs (h : Z) : list Log := concat (numbered h (bHash (blk h)) (fun i => rlogs (first h + i)) 0 (bTxs (blk h)) 0).

Lemma receipts_loop_ok h : 1 <= h <= tip -> forall txs i idx, 0 <= i -> i + len txs <= len (bTxs (blk h)) ->
  receipts_loop h (first h) (bHash (blk h)) i txs idx = Ok (numbered h (bHash (blk h)) (fun i => rlogs (first h + i)) i txs idx).
Proof.
  intros Hh. induction txs as [|tx txs IH]; intros i idx Hi Hlen; [done|]. rewrite len_cons in Hlen. pose proof (len_nonneg txs). cbn [receipts_loop numbered].
  destruct (tx_bounds h (first h + i) Hh) as [[Hb Hb'] _]; [exists i; lia|]. pose proof range_bounds. unfold u64. rewrite Z.mod_small by lia.
  rewrite receipt_stored by lia. cbn [rbind]. rewrite IH by lia. done.
Qed.

Lemma logsOfBlock_ok h : 1 <= h <= tip -> logsOfBlock h = Ok (blogs h).
Proof.
  intros Hh. unfold logsOfBlock, blogs. rewrite block_stored by done. cbn [rbind]. destruct (Z.eqb_spec (len (bTxs (blk h))) 0) as [E|E].
  - assert (bTxs (blk h) = []) as -> by (apply length_zero_iff_nil; unfold len in E; lia). done.
  - unfold storedBlockReceipts. rewrite range_stored by done. cbn [rbind]. rewrite Z.eqb_refl. cbn [negb]. rewrite block_derives by done. cbn [rbind].
    rewrite receipts_loop_ok by lia. done.
Qed.

Lemma in_tx_logs n hash tx i logs : forall idx l, l ∈ tx_logs n hash tx i logs idx -> exists sl, sl ∈ logs /\ Address l = sAddress sl /\ Topics l = sTopics sl.
Proof.
  induction logs as [|sl logs IH]; intros idx l; cbn [tx_logs]; [set_solver|]. intros [->|Hl]%elem_of_cons; [exists sl; cbn; set_solver|].
  destruct (IH _ _ Hl) as (sl' & Hs & E). exists sl'. split; [set_solver|done].
Qed.

Lemma in_numbered n hash f txs : forall i idx l, l ∈ concat (numbered n hash f i txs idx) ->
  exists j sl, i <= j < i + len txs /\ sl ∈ f j /\ Address l = sAddress sl /\ Topics l = sTopics sl.
Proof.
  induction txs as [|tx txs IH]; intros i idx l; cbn [numbered concat]; [set_solver|]. rewrite len_cons. pose proof (len_nonneg txs). intros [Hl|Hl]%elem_of_app.
  - destruct (in_tx_logs _ _ _ _ _ _ _ Hl) as (sl & Hs & E). exists i, sl. split_and!; [lia|lia|done|apply E..].
  - destruct (IH _ _ _ Hl) as (j & sl & Hj & Hs & E). exists j, sl. split_and!; [lia|lia|done|apply E..].
Qed.

Lemma in_blogs h l : l ∈ blogs h -> exists n sl, tx_of h n /\ sl ∈ rlogs n /\ Address l = sAddress sl /\ Topics l = sTopics sl.
Proof.
  intros (j & sl & Hj & Hs & E)%in_numbered. exists (first h + j), sl. split; [exists j; lia|]. done.
Qed.

(** A log's index is its place in the block. *)
Lemma numbered_index n hash f txs : forall i idx k l, concat (numbered n hash f i txs idx) !! k = Some l -> Index l = idx + Z.of_nat k /\ BlockNumber l = n /\ BlockHash l = hash.
Proof.
  assert (Htx : forall tx i logs idx k l, tx_logs n hash tx i logs idx !! k = Some l -> Index l = idx + Z.of_nat k /\ BlockNumber l = n /\ BlockHash l = hash).
  { intros tx i. induction logs as [|sl logs IH]; intros idx k l; cbn [tx_logs]; [done|]. destruct k as [|k]; cbn; [intros [= <-]; cbn; split_and!; [lia|done..]|].
    intros Hk. destruct (IH _ _ _ Hk) as (-> & H2). split; [lia|done]. }
  assert (Hlen : forall tx i logs idx, length (tx_logs n hash tx i logs idx) = length logs).
  { intros tx i. induction logs as [|sl logs IH]; intros idx; cbn; [done|]. by rewrite IH. }
  induction txs as [|tx txs IH]; intros i idx k l; cbn [numbered concat]; [done|]. destruct (decide (k < length (f i))%nat) as [Hk|Hk].
  - rewrite lookup_app_l by (by rewrite Hlen). apply Htx.
  - rewrite lookup_app_r by (rewrite Hlen; lia). rewrite Hlen. intros Hl. destruct (IH _ _ _ _ Hl) as (-> & H2). split; [unfold len; lia|done].
Qed.

(** ** The candidate sets *)

Definition valid (n : Z) : Prop := first 1 <= n < first (tip + 1).
Definition valid_set (S : gset Z) : Prop := forall n, n ∈ S -> valid n.

Lemma posted n l g b : l ∈ rlogs n -> has (logPostings ∅ (sAddress l) (sTopics l)) g b -> has (posts n) g b.
Proof.
  intros Hl (m & Em & Hb). destruct (log_posted n l g m Hl Em) as (m' & E & Hm). exists m'. split; [done|]. by apply (land_trans m' m).
Qed.

Lemma collectPostings_ok p lo hi mask S : valid_set S -> exists S', collectPostings p lo hi mask S = Ok S' /\ S ⊆ S' /\ valid_set S' /\
  forall n g b, has (posts n) g b -> has_prefix g p = true -> lo <= n <= hi -> valid n -> (mask = 0 \/ mask = b /\ b <> 0) -> n ∈ S'.
Proof.
  intros HS. unfold collectPostings. destruct (postings_under p lo hi) as (l & -> & Hl). cbn [rbind]. eexists. split; [reflexivity|].
  set (step := fun (s : gset Z) (e : Z * Z) => if (mask =? 0) || negb (Z.land e.2 mask =? 0) then {[ e.1 ]} ∪ s else s).
  assert (Hmono : forall l S, S ⊆ fold_left step l S).
  { induction l0 as [|e l0 IH]; intros S0; cbn [fold_left]; [done|]. etrans; [|apply IH]. unfold step. destruct (_ || _); set_solver. }
  assert (Hin : forall l S n m, (n, m) ∈ l -> (mask =? 0) || negb (Z.land m mask =? 0) = true -> n ∈ fold_left step l S).
  { induction l0 as [|e l0 IH]; intros S0 n m Hnm Hm; cbn [fold_left]; [set_solver|]. apply elem_of_cons in Hnm as [<-|Hnm]; [|by eapply IH].
    apply Hmono. unfold step. cbn [fst snd]. rewrite Hm. set_solver. }
  assert (Hval : forall l S, valid_set S -> (forall n m, (n, m) ∈ l -> valid n) -> valid_set (fold_left step l S)).
  { induction l0 as [|[n m] l0 IH]; intros S0 HS0 Hl0; cbn [fold_left]; [done|]. apply IH; [|intros a b Hab; apply (Hl0 a b); set_solver]. unfold step. destruct (_ || _); [|done].
    intros x [->%elem_of_singleton|Hx]%elem_of_union; [|by apply HS0]. apply (Hl0 n m). cbn [fst]. set_solver. }
  split_and!; [apply Hmono|apply Hval; [done|]; intros n m Hnm; by apply Hl in Hnm as (_ & Hv & _)|].
  intros n g b (m & Em & Hb) Hp Hr Hv Hmask. apply (Hin l S n m); [apply Hl; split_and!; [lia..|apply Hv|apply Hv|by exists g]|].
  destruct Hmask as [->|[-> Hne]]; [done|]. rewrite Hb. rewrite (proj2 (Z.eqb_neq b 0)) by done. apply orb_true_r.
Qed.

(** The log's first topic is the one the filter fixes. *)
Definition fixes (topic0 : option bytes) (l : StoredLog) : Prop := forall t, topic0 = Some t -> sTopics l !! 0%nat = Some t.

Lemma fixes_group topic0 l t : fixes topic0 l -> topic0 = Some t -> (match sTopics l with [] => zeroHash | t :: _ => t end) = t.
Proof. intros Hf E. specialize (Hf t E). destruct (sTopics l); [done|]. by injection Hf as ->. Qed.

Lemma collect_addrs_ok topic0 lo hi addrs : forall S, valid_set S -> exists S', collect_addrs topic0 lo hi addrs S = Ok S' /\ S ⊆ S' /\ valid_set S' /\
  forall n l, l ∈ rlogs n -> sAddress l ∈ addrs -> fixes topic0 l -> lo <= n <= hi -> valid n -> n ∈ S'.
Proof.
  induction addrs as [|a addrs IH]; intros S HS; cbn [collect_addrs]; [exists S; split_and!; [done..|set_solver]|].
  destruct (collectPostings_ok (match topic0 with Some t => ELogGroup a t | None => ELogPrefix a end) lo hi 0 S HS) as (S1 & -> & Hsub & HS1 & Hin). cbn [rbind].
  destruct (IH S1 HS1) as (S2 & -> & Hsub2 & HS2 & Hin2). exists S2. split_and!; [done|set_solver|done|].
  intros n l Hl [Ea|Ha]%elem_of_cons Hf Hr Hv; [|by apply (Hin2 n l)]. apply Hsub2.
  apply (Hin n (ELogGroup a (match sTopics l with [] => zeroHash | t :: _ => t end)) 0); [|destruct topic0 as [t|]|done|done|by left].
  - apply (posted n l _ 0 Hl). rewrite <- Ea. apply posted_emitter.
  - rewrite (fixes_group _ l t Hf eq_refl). apply prefix_self.
  - apply group_prefix.
Qed.

Lemma collect_topic_ok topic0 lo hi i want : (i <= 3)%nat -> forall S, valid_set S -> exists S', collect_topic topic0 lo hi i want S = Ok S' /\ S ⊆ S' /\ valid_set S' /\
  forall n l t, l ∈ rlogs n -> sTopics l !! i = Some t -> t ∈ want -> fixes topic0 l -> lo <= n <= hi -> valid n -> n ∈ S'.
Proof.
  intros Hi. induction want as [|w want IH]; intros S HS; cbn [collect_topic]; [exists S; split_and!; [done..|set_solver]|].
  rewrite (proj2 (Nat.ltb_ge 3 i)) by lia.
  set (pm := if (i =? 0)%nat then (SigGroup w, 0) else (match topic0 with Some t0 => TValGroup w t0 | None => TValPrefix w end, Z.shiftl 1 (Z.of_nat i - 1))).
  assert (Hpm : forall n l, l ∈ rlogs n -> sTopics l !! i = Some w -> fixes topic0 l -> exists g b, has (posts n) g b /\ has_prefix g pm.1 = true /\ (pm.2 = 0 \/ pm.2 = b /\ b <> 0)).
  { intros n l Hl Ht Hf. unfold pm. destruct (Nat.eqb_spec i 0) as [->|Hne]; cbn [fst snd].
    - exists (SigGroup w), 0. split_and!; [|apply prefix_self|by left]. apply (posted n l _ _ Hl). destruct (sTopics l) as [|t ts]; [done|]. injection Ht as ->. apply posted_sig.
    - exists (TValGroup w (match sTopics l with [] => zeroHash | t :: _ => t end)), (Z.shiftl 1 (Z.of_nat i - 1)). split_and!.
      + apply (posted n l _ _ Hl). apply posted_tval; [done|lia].
      + destruct topic0 as [t|]; [rewrite (fixes_group _ l t Hf eq_refl); apply prefix_self|apply group_prefix].
      + right. split; [done|]. rewrite Z.shiftl_1_l. pose proof (Z.pow_pos_nonneg 2 (Z.of_nat i - 1)). lia. }
  destruct pm as [prefix mask]. cbn [fst snd] in Hpm. destruct (collectPostings_ok prefix lo hi mask S HS) as (S1 & -> & Hsub & HS1 & Hin). cbn [rbind].
  destruct (IH S1 HS1) as (S2 & -> & Hsub2 & HS2 & Hin2). exists S2. split_and!; [done|set_solver|done|].
  intros n l t Hl Ht [->|Hw]%elem_of_cons Hf Hr Hv; [|by apply (Hin2 n l t)]. apply Hsub2. destruct (Hpm n l Hl Ht Hf) as (g & b & H1 & H2 & H3). by apply (Hin n g b).
Qed.

Lemma collect_topic_unindexed topic0 lo hi i want : (3 < i)%nat -> forall S, collect_topic topic0 lo hi i want S = Ok S.
Proof. intros Hi. induction want as [|w want IH]; intros S; cbn [collect_topic]; [done|]. by rewrite (proj2 (Nat.ltb_lt 3 i)). Qed.

(** A transaction with a matching log is in every set. *)
Definition in_all (sets : list (gset Z)) (n : Z) : Prop := forall S, S ∈ sets -> n ∈ S.

Lemma topic_sets_ok topic0 lo hi topics : forall i, exists sets, topic_sets topic0 lo hi i topics = Ok sets /\ (forall S, S ∈ sets -> valid_set S) /\
  forall n l, l ∈ rlogs n -> topics_match (sTopics l) i topics = true -> fixes topic0 l -> lo <= n <= hi -> valid n -> in_all sets n.
Proof.
  induction topics as [|[want|] topics IH]; intros i; cbn [topic_sets topics_match].
  - exists []. split_and!; [done|set_solver|]. intros n l _ _ _ _ _ S HS. by apply not_elem_of_nil in HS.
  - destruct (IH (S i)) as (sets & E & Hv & Hin). destruct (decide (3 < i)%nat) as [Hi|Hi].
    + rewrite collect_topic_unindexed by done. cbn [rbind]. rewrite E. cbn [rbind]. rewrite (proj2 (Nat.ltb_lt 3 i)) by done. exists sets. split_and!; [done..|].
      intros n l Hl Ht. apply (Hin n l Hl). destruct (sTopics l !! i); [|done]. by apply andb_true_iff in Ht as [_ Ht].
    + destruct (collect_topic_ok topic0 lo hi i want ltac:(lia) ∅) as (S1 & E1 & _ & HS1 & Hin1); [intros n Hn; set_solver|]. rewrite E1. cbn [rbind]. rewrite E. cbn [rbind].
      rewrite (proj2 (Nat.ltb_ge 3 i)) by lia. exists (S1 :: sets). split_and!; [done|intros S' [->|HS']%elem_of_cons; [done|by apply Hv]|].
      intros n l Hl Ht Hf Hr Hvn S' HS'. destruct (sTopics l !! i) as [t|] eqn:Et; [|done]. apply andb_true_iff in Ht as [Hw Ht].
      apply elem_of_cons in HS' as [->|HS']; [|by apply (Hin n l)]. apply (Hin1 n l t); try done. apply existsb_exists in Hw as (w & Hw & Ew).
      destruct (beqb_spec w t) as [->|]; [|done]. by apply list_elem_of_In.
  - apply IH.
Qed.

Lemma blocks_of_ok from to sets l : (forall n, n ∈ l -> valid n) -> forall I, exists I', blocks_of from to sets l I = Ok I' /\ I ⊆ I' /\
  (forall h, h ∈ I' -> h ∈ I \/ from <= h <= to) /\
  (forall n h, n ∈ l -> in_all sets n -> HeightOfTx n = Ok (Some h) -> from <= h <= to -> h ∈ I').
Proof.
  induction l as [|n l IH]; intros Hv I; cbn [blocks_of]; [exists I; split_and!; [done|done|by left|set_solver]|].
  assert (Hvl : forall n, n ∈ l -> valid n) by (intros k Hk; apply Hv; set_solver).
  destruct (forallb (fun s : gset Z => bool_decide (n ∈ s)) sets) eqn:E.
  - destruct (height_of n (Hv n ltac:(set_solver))) as (h & Eh & _). rewrite Eh. cbn [rbind].
    destruct (IH Hvl (if (from <=? h) && (h <=? to) then {[ h ]} ∪ I else I)) as (I' & -> & Hsub & Hin & Hall). exists I'. split_and!; [done| | |].
    + destruct (_ && _); set_solver.
    + intros x Hx. destruct (Hin x Hx) as [Hx'|]; [|by right]. destruct (Z.leb_spec from h), (Z.leb_spec h to); cbn [andb] in Hx'; try (by left).
      apply elem_of_union in Hx' as [->%elem_of_singleton|]; [by right|by left].
    + intros k h' [->|Hk]%elem_of_cons Hk' Ek Hr; [|by apply (Hall k h')]. rewrite Eh in Ek. injection Ek as ->. apply Hsub.
      rewrite !(proj2 (Z.leb_le _ _)) by lia. cbn [andb]. set_solver.
  - destruct (IH Hvl I) as (I' & -> & Hsub & Hin & Hall). exists I'. split_and!; [done..|].
    intros k h' [->|Hk]%elem_of_cons Hk' Ek Hr; [|by apply (Hall k h')]. exfalso. assert (forallb (fun s : gset Z => bool_decide (n ∈ s)) sets = true) as E'; [|congruence].
    apply forallb_forall. intros S HS. apply bool_decide_eq_true_2, Hk'. by apply list_elem_of_In.
Qed.

Lemma smallest_in s sets : smallest s sets ∈ s :: sets.
Proof.
  unfold smallest. revert s. induction sets as [|x sets IH]; intros s; cbn [fold_left]; [set_solver|].
  specialize (IH (if (size x <? size s)%nat then x else s)). apply elem_of_cons in IH as [->|IH]; [|set_solver]. destruct (_ <? _)%nat; set_solver.
Qed.

(** The postings' range takes in every transaction of the blocks asked for. *)
Lemma txRangeOf_ok from to : 1 <= from -> from <= to -> to <= tip -> exists lo hi, txRangeOf from to = Ok (lo, hi) /\
  forall h n, from <= h <= to -> tx_of h n -> lo <= n <= hi.
Proof.
  intros Hf Hft Ht. unfold txRangeOf. rewrite !range_stored by lia. cbn [rbind]. pose proof range_bounds as [Hb1 Hb2].
  pose proof (start_mono 1 to ltac:(lia) ltac:(lia) ltac:(lia)). pose proof (start_mono to (tip + 1) ltac:(lia) ltac:(lia) ltac:(lia)).
  assert (Hnext : first (to + 1) = first to + len (bTxs (blk to)) + 1) by (apply range_next; lia). pose proof (start_mono (to + 1) (tip + 1) ltac:(lia) ltac:(lia) ltac:(lia)). pose proof (len_nonneg (bTxs (blk to))).
  assert (Hlo : forall h n, from <= h <= to -> tx_of h n -> first from <= n /\ (h < to -> n < first to) /\ (h = to -> 0 < len (bTxs (blk to)) /\ n < first to + len (bTxs (blk to)))).
  { intros h n Hh Hn. destruct (tx_bounds h n ltac:(lia) Hn) as [_ Hn2]. pose proof (start_mono from h ltac:(lia) ltac:(lia) ltac:(lia)). split_and!; [lia| |].
    - intros Hlt. pose proof (start_mono (h + 1) to ltac:(lia) ltac:(lia) ltac:(lia)). lia.
    - intros ->. destruct Hn as (i & Hi & ->). lia. }
  unfold u64. destruct (Z.eqb_spec (len (bTxs (blk to))) 0) as [E|E]; [destruct (Z.eqb_spec (first to) 0) as [E0|E0]|].
  - exists 1, 0. split; [done|]. intros h n Hh Hn. exfalso. destruct (Hlo h n Hh Hn) as (_ & G1 & G2). destruct (tx_bounds h n ltac:(lia) Hn) as [Hn1 _].
    destruct (decide (h = to)); [lia|]. specialize (G1 ltac:(lia)). lia.
  - rewrite Z.mod_small by lia. eexists _, _. split; [done|]. intros h n Hh Hn. destruct (Hlo h n Hh Hn) as (G0 & G1 & G2). destruct (decide (h = to)); [lia|]. specialize (G1 ltac:(lia)). lia.
  - rewrite Z.mod_small by lia. eexists _, _. split; [done|]. intros h n Hh Hn. destruct (Hlo h n Hh Hn) as (G0 & G1 & G2). destruct (decide (h = to)) as [Ed|]; [specialize (G2 Ed); lia|]. specialize (G1 ltac:(lia)). lia.
Qed.

Lemma seqZ_ascending m n : StronglySorted Z.lt (seqZ m n).
Proof.
  destruct (decide (n <= 0)); [rewrite seqZ_nil by done; constructor|]. rewrite <- (Z2Nat.id n) by lia. generalize (Z.to_nat n). clear n n0. intros k. revert m.
  induction k as [|k IH]; intros m; [constructor|]. rewrite seqZ_cons by lia. replace (Z.pred (Z.of_nat (S k))) with (Z.of_nat k) by lia.
  constructor; [apply IH|]. apply Forall_forall. intros x Hx%elem_of_seqZ. lia.
Qed.

Lemma elements_ascending (I : gset Z) : StronglySorted Z.lt (merge_sort Z.le (elements I)).
Proof.
  assert (Hn : NoDup (merge_sort Z.le (elements I))) by (rewrite merge_sort_Permutation; apply NoDup_elements).
  assert (Hs : StronglySorted Z.le (merge_sort Z.le (elements I))) by (apply StronglySorted_merge_sort; apply _).
  induction Hs as [|x l _ IH Hf]; [constructor|]. apply NoDup_cons in Hn as [Hx Hn]. constructor; [by apply IH|].
  rewrite Forall_forall in Hf |- *. intros y Hy. specialize (Hf y Hy). destruct (decide (x = y)) as [->|]; [done|lia].
Qed.

Lemma logCandidates_ok from to addrs topics : 1 <= from -> from <= to -> to <= tip -> exists cs, logCandidates from to addrs topics = Ok cs /\
  StronglySorted Z.lt cs /\ (forall h, h ∈ cs -> from <= h <= to) /\
  (forall h l, from <= h <= to -> l ∈ blogs h -> logMatches addrs topics l = true -> h ∈ cs).
Proof.
  intros Hf Hft Ht. unfold logCandidates. destruct (txRangeOf_ok from to Hf Hft Ht) as (lo & hi & -> & Hrange). cbn [rbind].
  set (topic0 := match topics with Some [t] :: _ => Some t | _ => None end).
  assert (Hfix : forall l, topics_match (sTopics l) 0 topics = true -> fixes topic0 l).
  { intros l Hm t Et. unfold topic0 in Et. destruct topics as [|[[|w [|]]|] topics]; try done. injection Et as ->. cbn [topics_match existsb] in Hm.
    destruct (sTopics l !! 0%nat) as [t'|]; [|done]. rewrite orb_false_r in Hm. apply andb_true_iff in Hm as [Hm _]. by destruct (beqb_spec t t') as [->|]. }
  assert (Ha : exists asets, (if 0 <? len addrs then let* s := collect_addrs topic0 lo hi addrs ∅ in Ok [s] else Ok []) = Ok asets /\ (forall S, S ∈ asets -> valid_set S) /\
    forall n l, l ∈ rlogs n -> (0 < len addrs -> sAddress l ∈ addrs) -> fixes topic0 l -> lo <= n <= hi -> valid n -> in_all asets n).
  { destruct (Z.ltb_spec 0 (len addrs)) as [Hl|Hl]; [|exists []; split_and!; [done|set_solver|intros n l _ _ _ _ _ S HS; by apply not_elem_of_nil in HS]].
    destruct (collect_addrs_ok topic0 lo hi addrs ∅) as (S1 & -> & _ & Hv & Hin); [intros n Hn; set_solver|]. cbn [rbind]. exists [S1].
    split_and!; [done|intros S' ->%list_elem_of_singleton; done|]. intros n l H1 H2 H3 H4 H5 S' ->%list_elem_of_singleton. apply (Hin n l); auto. }
  destruct Ha as (asets & -> & Hav & Hain). cbn [rbind]. destruct (topic_sets_ok topic0 lo hi topics 0) as (tsets & -> & Htv & Htin). cbn [rbind].
  assert (Hall : forall h l, from <= h <= to -> l ∈ blogs h -> logMatches addrs topics l = true -> exists n, in_all (asets ++ tsets) n /\ HeightOfTx n = Ok (Some h)).
  { intros h l Hh Hl Hm. destruct (in_blogs h l Hl) as (n & sl & Hn & Hsl & Ea & Et). unfold logMatches in Hm. rewrite Ea, Et in Hm. apply andb_true_iff in Hm as [Hma Hmt].
    exists n. split; [|apply tx_height; [lia|done]]. destruct (tx_bounds h n ltac:(lia) Hn) as [Hv _]. pose proof (Hrange h n Hh Hn) as Hr.
    pose proof (Hfix sl Hmt) as Hfx. intros S [HS|HS]%elem_of_app; [|by apply (Htin n sl)]. apply (Hain n sl); try done.
    intros Hlen. rewrite (proj2 (Z.ltb_lt _ _)) in Hma by done. apply existsb_exists in Hma as (a & Ha & Eb). destruct (beqb_spec a (sAddress sl)) as [<-|]; [|done]. by apply list_elem_of_In. }
  destruct (asets ++ tsets) as [|s sets] eqn:Es.
  - exists (seqZ from (to - from + 1)). split_and!; [done| |intros h Hh%elem_of_seqZ; lia|intros h l Hh _ _; apply elem_of_seqZ; lia].
    apply seqZ_ascending.
  - destruct (blocks_of_ok from to (s :: sets) (elements (smallest s sets))) with (I := (∅ : gset Z)) as (I' & -> & _ & Hin & Hout).
    { intros n Hn%elem_of_elements. pose proof (smallest_in s sets) as Hsm. rewrite <- Es in Hsm. apply elem_of_app in Hsm as [Hsm|Hsm]; [by apply (Hav _ Hsm)|by apply (Htv _ Hsm)]. }
    cbn [rbind]. eexists. split; [reflexivity|]. split; [apply elements_ascending|]. split.
    + intros h. rewrite merge_sort_Permutation. intros Hh%elem_of_elements. destruct (Hin h Hh); [set_solver|done].
    + intros h l Hh Hl Hm. rewrite merge_sort_Permutation. apply elem_of_elements. destruct (Hall h l Hh Hl Hm) as (n & Hn & En).
      apply (Hout n h); [|done..]. apply elem_of_elements, Hn, smallest_in.
Qed.

(** An ascending list that names every [h] of the range with something to give gives
    the same as the whole range. *)
Lemma concat_sub {A} (f : Z -> list A) cs l : StronglySorted Z.lt cs -> StronglySorted Z.lt l -> (forall h, h ∈ cs -> h ∈ l) ->
  (forall h, h ∈ l -> f h <> [] -> h ∈ cs) -> concat (map f cs) = concat (map f l).
Proof.
  intros Hcs Hl. revert cs Hcs. induction Hl as [|x l Hl IH Hx]; intros cs Hcs Hsub Hne.
  { destruct cs as [|c cs]; [done|]. specialize (Hsub c ltac:(set_solver)). by apply not_elem_of_nil in Hsub. }
  rewrite Forall_forall in Hx. cbn [map concat]. destruct cs as [|c cs].
  { destruct (f x) eqn:Ef; [|by destruct (not_elem_of_nil x); apply Hne; [set_solver|rewrite Ef]]. apply (IH []); [constructor|set_solver|intros h Hh Hf; apply Hne; [set_solver|done]]. }
  apply StronglySorted_cons in Hcs as [Hc Hcs]. rewrite Forall_forall in Hc. destruct (decide (c = x)) as [->|Hcx].
  - cbn [map concat]. f_equal. apply IH; [done| |].
    + intros h Hh. pose proof (Hsub h ltac:(set_solver)) as [->|]%elem_of_cons; [|done]. specialize (Hc x Hh). lia.
    + intros h Hh Hf. pose proof (Hne h ltac:(set_solver) Hf) as [->|]%elem_of_cons; [|done]. specialize (Hx x Hh). lia.
  - assert (Hcl : c ∈ l) by (pose proof (Hsub c ltac:(set_solver)) as [|]%elem_of_cons; done). specialize (Hx c Hcl) as Hxc.
    destruct (f x) eqn:Ef.
    + apply (IH (c :: cs)); [constructor; [done|by rewrite Forall_forall]| |].
      * intros h Hh. pose proof (Hsub h Hh) as [->|]%elem_of_cons; [|done]. apply elem_of_cons in Hh as [E|Hh]; [congruence|]. specialize (Hc x Hh). lia.
      * intros h Hh Hf. apply Hne; [set_solver|done].
    + exfalso. pose proof (Hne x ltac:(set_solver) ltac:(by rewrite Ef)) as [E|Hin]%elem_of_cons; [congruence|]. specialize (Hc x Hin). lia.
Qed.

Lemma get_logs_loop_ok addrs topics cs : (forall h, h ∈ cs -> 1 <= h <= tip) ->
  get_logs_loop addrs topics cs = Ok (concat (map (fun h => List.filter (logMatches addrs topics) (blogs h)) cs)).
Proof.
  induction cs as [|h cs IH]; intros Hcs; cbn [get_logs_loop map concat]; [done|]. rewrite logsOfBlock_ok by (apply Hcs; set_solver). cbn [rbind].
  rewrite IH by (intros x Hx; apply Hcs; set_solver). done.
Qed.

Lemma runGetLogs_ok from to addrs topics : 1 <= from -> from <= to -> to <= tip ->
  runGetLogs from to addrs topics = Ok (List.filter (logMatches addrs topics) (concat (map blogs (seqZ from (to - from + 1))))).
Proof.
  intros Hf Hft Ht. unfold runGetLogs. destruct (logCandidates_ok from to addrs topics Hf Hft Ht) as (cs & -> & Hs & Hin & Hall). cbn [rbind].
  rewrite get_logs_loop_ok by (intros h Hh; specialize (Hin h Hh); lia). f_equal.
  rewrite (concat_sub _ cs (seqZ from (to - from + 1))); [|done|apply seqZ_ascending|intros h Hh; specialize (Hin h Hh); apply elem_of_seqZ; lia|].
  - generalize (seqZ from (to - from + 1)). induction l as [|h l IH]; [done|]. cbn [map concat]. by rewrite List.filter_app, IH.
  - intros h Hh%elem_of_seqZ Hne. destruct (List.filter _ _) as [|l ls] eqn:E; [done|].
    assert (Hl : In l (List.filter (logMatches addrs topics) (blogs h))) by (rewrite E; by left). apply filter_In in Hl as [Hl Hm].
    apply (Hall h l); [lia|by apply list_elem_of_In|done].
Qed.


End Exact.

(** ** A chain of two blocks *)

Definition t_log : StoredLog := MkStored (replicate 20 1) [replicate 32 2; replicate 32 3] [4].
Definition t_rlogs (n : Z) : list StoredLog := if n =? 0 then [t_log] else [].
Definition t_blk (h : Z) : Block := if h =? 1 then MkBlk [1] [[9]] else MkBlk [2] [].
Definition t_first (h : Z) : Z := if h <=? 1 then 0 else if h =? 2 then 2 else 3.
Definition t_posts (n : Z) : gmap bytes Z := if n =? 0 then logPostings ∅ (sAddress t_log) (sTopics t_log) else ∅.
Definition post_list (P : gmap bytes Z) (p : bytes) (lo hi : Z) : list (Z * Z) :=
  if (lo <=? 0) && (0 <=? hi) then map (fun x => (0, x.2)) (List.filter (fun x => has_prefix x.1 p) (map_to_list P)) else [].

Lemma post_list_in P p lo hi n m : (n, m) ∈ post_list P p lo hi <-> lo <= n <= hi /\ n = 0 /\ exists g, P !! g = Some m /\ has_prefix g p = true.
Proof.
  unfold post_list. split.
  - destruct (Z.leb_spec lo 0), (Z.leb_spec 0 hi); cbn [andb]; try (intros Hx; by apply not_elem_of_nil in Hx).
    intros ([g v] & E & Hin)%list_elem_of_fmap. injection E as -> ->. apply list_elem_of_In, filter_In in Hin as [Hin Hp].
    split; [lia|]. split; [lia|]. exists g. split; [|exact Hp]. by apply elem_of_map_to_list, list_elem_of_In.
  - intros (Hr & -> & g & Hg & Hp).
    rewrite !(proj2 (Z.leb_le _ _)) by lia. cbn [andb]. apply list_elem_of_fmap. exists (g, m). split; [done|]. apply list_elem_of_In, filter_In. split; [|exact Hp].
    by apply list_elem_of_In, elem_of_map_to_list.
Qed.

#[local] Instance t_source : Source := {
  BlockTxRange h := Ok (if (1 <=? h) && (h <=? 2) then Some (t_first h, len (bTxs (t_blk h))) else None);
  HeightOfTx n := Ok (if n <? 2 then Some 1 else Some 2);
  Postings p lo hi := Ok (post_list (t_posts 0) p lo hi);
  storedReceipt n := Ok (t_rlogs n);
  blockAt h := Ok (t_blk h);
  derives _ := Ok tt }.

#[local] Instance t_laws : SourceLaws 2 t_first t_blk t_rlogs t_posts.
Proof.
  split.
  - intros h Hh. cbn [BlockTxRange t_source]. by rewrite !(proj2 (Z.leb_le _ _)) by lia.
  - intros h Hh. assert (h = 1 \/ h = 2) as [-> | ->] by lia; done.
  - done.
  - intros n Hn. change (0 <= n < 3) in Hn. cbn [HeightOfTx t_source]. destruct (Z.ltb_spec n 2).
    + exists 1. split; [done|]. change (t_first 1) with 0. change (t_first (1 + 1)) with 2. lia.
    + exists 2. split; [done|]. change (t_first 2) with 2. change (t_first (2 + 1)) with 3. lia.
  - intros p lo hi. exists (post_list (t_posts 0) p lo hi). split; [reflexivity|]. intros n m. rewrite post_list_in. change (t_first 1) with 0. change (t_first (2 + 1)) with 3. split.
    + intros (Hr & -> & g & Hg & Hp). split; [lia|]. split; [lia|]. exists g. split; [exact Hg|exact Hp].
    + intros (Hr & Hn & g & Hg & Hp). assert (n = 0) as ->. { unfold t_posts in Hg. destruct (Z.eqb_spec n 0); [done|]. by rewrite lookup_empty in Hg. }
      split; [lia|]. split; [reflexivity|]. exists g. split; [exact Hg|exact Hp].
  - reflexivity.
  - intros n l g m Hl Hg. unfold t_rlogs in Hl. unfold t_posts. destruct (Z.eqb_spec n 0); [|by apply not_elem_of_nil in Hl].
    apply list_elem_of_singleton in Hl as ->. exists m. split; [exact Hg|apply Z.land_diag].
  - reflexivity.
  - reflexivity.
Qed.


End Logs.
