(* ===== verification/Filters.v ===== *)
(** * rpc/filters.go: stored filters

    A registry of filters with cursors. A poll reads the entry and the head under the
    lock, gathers the changes without it, and moves the cursor under it again, so
    [getFilterChanges] takes the registry before and the one at the end. The random
    id of a new filter is an argument. *)

From S2P Require Import Prelude Bytes Rows Ef Format Memtable Logs.
Import Format.

Module Filters.
Import Logs.

(** ['l'] logs, ['b'] blocks, ['p'] pending transactions. *)
Record filterEntry := MkEntry {
  kind : Z; ffrom : Z; fto : Z; faddrs : list bytes; ftopics : topic_filter; lastHead : Z }.
Abbreviation filterReg := (gmap bytes filterEntry).

Inductive answer := Hashes (l : list bytes) | Matches (l : list Log).

Definition newFilter (r : filterReg) (id : bytes) (head : Z) (criteria : res (Z * Z * list bytes * topic_filter)) : res filterReg :=
  let* (from, to, addrs, topics) := criteria in
  Ok (<[id := MkEntry 108 from to addrs topics head]> r).
Definition newBlockFilter (r : filterReg) (id : bytes) (head : Z) : filterReg := <[id := MkEntry 98 0 0 [] [] head]> r.
Definition newPendingTxFilter (r : filterReg) (id : bytes) : filterReg := <[id := MkEntry 112 0 0 [] [] 0]> r.
Definition uninstallFilter (r : filterReg) (id : bytes) : bool * filterReg := (bool_decide (is_Some (r !! id)), delete id r).

Definition advance (r : filterReg) (id : bytes) (head : Z) : filterReg :=
  match r !! id with
  | Some f => if lastHead f <? head then <[id := MkEntry (kind f) (ffrom f) (fto f) (faddrs f) (ftopics f) head]> r else r
  | None => r
  end.

Section Poll.
Context (src : Source).

Fixpoint block_hashes (l : list Z) : res (list bytes) :=
  match l with
  | [] => Ok []
  | n :: l => let* blk := blockAt n in let* hs := block_hashes l in Ok (bHash blk :: hs)
  end.

Definition getFilterChanges (r r' : filterReg) (id : bytes) (head : Z) : res answer * filterReg :=
  match r !! id with
  | None => (Err "filter not found", r')
  | Some f =>
      let last := lastHead f in
      if kind f =? 112 then (Ok (Hashes []), r')
      else if kind f =? 98 then
        match block_hashes (seqZ (u64 (last + 1)) (head - u64 (last + 1) + 1)) with
        | Ok hs => (Ok (Hashes hs), advance r' id head)
        | Err m => (Err m, r')
        | Panic => (Panic, r')
        end
      else
        let lo := Z.max (ffrom f) (u64 (last + 1)) in
        let hi := Z.min (fto f) head in
        if hi <? lo then (Ok (Matches []), advance r' id head)
        else match runGetLogs lo hi (faddrs f) (ftopics f) with
             | Ok logs => (Ok (Matches logs), advance r' id head)
             | Err m => (Err m, r')
             | Panic => (Panic, r')
             end
  end.

Definition getFilterLogs (r : filterReg) (id : bytes) (head : Z) : res (list Log) :=
  match r !! id with
  | Some f => if kind f =? 108 then runGetLogs (ffrom f) (Z.min (fto f) head) (faddrs f) (ftopics f) else Err "filter not found"
  | None => Err "filter not found"
  end.
End Poll.

(** ** Polls in sequence *)

(** Polls of one filter, one after another, each with the reads it makes and the head it
    sees; the answers of those that succeed. *)
Fixpoint polls (r : filterReg) (id : bytes) (l : list (Source * Z)) : filterReg * list answer :=
  match l with
  | [] => (r, [])
  | (src, head) :: l =>
      let '(a, r) := getFilterChanges src r r id head in
      let '(r, out) := polls r id l in
      (r, match a with Ok a => a :: out | _ => out end)
  end.

Definition hashes_of (l : list answer) : list bytes := concat (map (fun a => match a with Hashes h => h | Matches _ => [] end) l).
Definition logs_of (l : list answer) : list Log := concat (map (fun a => match a with Hashes _ => [] | Matches m => m end) l).

(** The heads only grow. *)
Fixpoint rising (h : Z) (l : list (Source * Z)) : Prop :=
  match l with [] => True | (_, head) :: l => h <= head < 2 ^ 63 /\ rising head l end.

(** The head of the last poll. *)
Fixpoint final (h : Z) (l : list (Source * Z)) : Z := match l with [] => h | (_, head) :: l => final head l end.

Section Exact.
Context (hash : Z -> bytes) (logs : Z -> list Log).

(** What is read is the chain's: reads may fail, but do not lie. *)
Definition truthful (x : Source * Z) : Prop :=
  (forall n blk, @blockAt x.1 n = Ok blk -> bHash blk = hash n) /\
  (forall lo hi addrs topics out, lo <= hi -> @runGetLogs x.1 lo hi addrs topics = Ok out ->
     out = List.filter (logMatches addrs topics) (concat (map logs (seqZ lo (hi - lo + 1))))).

(** The cursor of a filter whose entry is otherwise [f]. *)
Definition at_ (r : filterReg) (id : bytes) (f : filterEntry) (last : Z) : Prop :=
  r !! id = Some (MkEntry (kind f) (ffrom f) (fto f) (faddrs f) (ftopics f) last).

Lemma advance_at r id f last head : at_ r id f last -> last <= head -> at_ (advance r id head) id f head.
Proof.
  unfold at_, advance. intros E Hh. rewrite E. cbn [lastHead kind ffrom fto faddrs ftopics]. destruct (Z.ltb_spec last head); [by rewrite lookup_insert_eq|].
  assert (head = last) as -> by lia. exact E.
Qed.

Lemma block_hashes_true x l hs : truthful x -> block_hashes x.1 l = Ok hs -> hs = map hash l.
Proof.
  intros [Ht _]. revert hs. induction l as [|n l IH]; intros hs; cbn [block_hashes map]; [by intros [= <-]|].
  intros (blk & Eb & E)%rbind_Ok. apply rbind_Ok in E as (rest & Er & [= <-]). by rewrite (Ht n blk Eb), (IH rest Er).
Qed.

(** The heights of a log filter's criteria after [a], up to [b]. *)
Definition seg (f : filterEntry) (a b : Z) : list Z :=
  seqZ (Z.max (ffrom f) (a + 1)) (Z.min (fto f) b - Z.max (ffrom f) (a + 1) + 1).

Lemma seg_app f a b c : a <= b -> b <= c -> seg f a c = seg f a b ++ seg f b c.
Proof.
  intros Hab Hbc. unfold seg. destruct (decide (Z.min (fto f) b < Z.max (ffrom f) (a + 1))) as [Hlt|Hge].
  - rewrite (seqZ_nil _ (Z.min (fto f) b - _ + 1)) by lia. cbn [app].
    destruct (decide (fto f < Z.max (ffrom f) (a + 1))); [by rewrite !seqZ_nil by lia|]. by replace (Z.max (ffrom f) (b + 1)) with (Z.max (ffrom f) (a + 1)) by lia.
  - destruct (decide (fto f <= b)).
    + rewrite (seqZ_nil _ (Z.min (fto f) c - Z.max (ffrom f) (b + 1) + 1)) by lia. rewrite app_nil_r. f_equal. lia.
    + replace (Z.min (fto f) c - Z.max (ffrom f) (a + 1) + 1) with ((b - Z.max (ffrom f) (a + 1) + 1) + (Z.min (fto f) c - b)) by lia.
      rewrite seqZ_app by lia. f_equal; f_equal; lia.
Qed.

Definition block_seg (a b : Z) : list Z := seqZ (a + 1) (b - a).
Lemma block_seg_app a b c : a <= b -> b <= c -> block_seg a c = block_seg a b ++ block_seg b c.
Proof. intros Hab Hbc. unfold block_seg. replace (c - a) with ((b - a) + (c - b)) by lia. rewrite seqZ_app by lia. f_equal. f_equal. lia. Qed.

(** What a filter has to report for the heads after [a], up to [b]. *)
Definition due (f : filterEntry) (a b : Z) : answer :=
  if kind f =? 98 then Hashes (map hash (block_seg a b))
  else Matches (List.filter (logMatches (faddrs f) (ftopics f)) (concat (map logs (seg f a b)))).

Lemma poll_one x r id f last : truthful x -> kind f = 98 \/ kind f = 108 -> at_ r id f last -> 0 <= last -> last <= x.2 < 2 ^ 63 ->
  let '(a, r') := getFilterChanges x.1 r r id x.2 in
  (a = Ok (due f last x.2) /\ at_ r' id f x.2) \/ ((forall y, a <> Ok y) /\ r' = r).
Proof.
  intros Ht Hk Hat H0 Hx. pose proof (advance_at r id f last x.2 Hat ltac:(lia)) as Hadv. unfold getFilterChanges. unfold at_ in Hat. rewrite Hat. cbn [kind lastHead ffrom fto faddrs ftopics].
  unfold u64. rewrite Z.mod_small by lia. unfold due. destruct Hk as [-> | ->]; cbn [Z.eqb Pos.eqb].
  - destruct (block_hashes x.1 _) as [hs|m|] eqn:E; [left|right; split; [done|done]..]. split; [|done]. rewrite (block_hashes_true x _ hs Ht E). do 4 f_equal. unfold block_seg. f_equal. lia.
  - destruct (Z.ltb_spec (Z.min (fto f) x.2) (Z.max (ffrom f) (last + 1))) as [Hlt|Hge].
    + left. split; [|done]. unfold seg. by rewrite seqZ_nil by lia.
    + destruct (runGetLogs _ _ _ _) as [out|m|] eqn:E; [left|right; split; [done|done]..]. split; [|done]. by rewrite (proj2 Ht _ _ _ _ _ Hge E).
Qed.

Lemma due_app f a b c : kind f = 98 \/ kind f = 108 -> a <= b -> b <= c ->
  hashes_of [due f a c] = hashes_of [due f a b; due f b c] /\ logs_of [due f a c] = logs_of [due f a b; due f b c].
Proof.
  intros Hk Hab Hbc. unfold hashes_of, logs_of, due. destruct Hk as [-> | ->]; cbn [Z.eqb Pos.eqb map concat app]; rewrite ?app_nil_r; split; try done.
  - by rewrite (block_seg_app a b c), map_app.
  - by rewrite (seg_app f a b c), map_app, concat_app, List.filter_app.
Qed.

Lemma polls_exact id f l : kind f = 98 \/ kind f = 108 -> Forall truthful l -> forall r last, at_ r id f last -> 0 <= last -> rising last l ->
  exists last', last <= last' /\ at_ (polls r id l).1 id f last' /\
    hashes_of (polls r id l).2 = hashes_of [due f last last'] /\ logs_of (polls r id l).2 = logs_of [due f last last'] /\
    (length (polls r id l).2 = length l -> last' = final last l) /\ (length (polls r id l).2 <= length l)%nat.
Proof.
  intros Hk. induction 1 as [|[src head] l Hx _ IH]; intros r last Hat H0 Hr; cbn [polls rising final] in *.
  { exists last. pose proof (due_app f last last last Hk ltac:(lia) ltac:(lia)) as _. split_and!; [lia|done| | |done|done];
      unfold hashes_of, logs_of, due; destruct Hk as [-> | ->]; cbn [Z.eqb Pos.eqb map concat app]; try done; unfold block_seg, seg; rewrite seqZ_nil by lia; done. }
  destruct Hr as [Hh Hr]. pose proof (poll_one (src, head) r id f last Hx Hk Hat H0 Hh) as Hp. cbn [fst snd] in Hp. destruct (getFilterChanges src r r id head) as [a r1].
  destruct Hp as [[-> Hat1]|[Hne ->]].
  - destruct (IH r1 head Hat1 ltac:(lia) Hr) as (last' & Hle & Hat' & Eh & El & Hfin & Hlen). destruct (polls r1 id l) as [r2 out]. cbn [fst snd] in *.
    destruct (due_app f last head last' Hk ltac:(lia) Hle) as [E1 E2]. exists last'. split_and!; [lia|done| | | |cbn; lia].
    + rewrite E1. unfold hashes_of in *. cbn [map concat] in *. rewrite Eh. by rewrite app_nil_r.
    + rewrite E2. unfold logs_of in *. cbn [map concat] in *. rewrite El. by rewrite app_nil_r.
    + intros Hl. apply Hfin. cbn in Hl. lia.
  - assert (Hr' : rising last l). { destruct l as [|[src' head'] l]; [done|]. cbn [rising] in *. split; [lia|apply Hr]. }
    destruct (IH r last Hat H0 Hr') as (last' & Hle & Hat' & Eh & El & Hfin & Hlen). destruct (polls r id l) as [r2 out]. cbn [fst snd] in *.
    assert (E : (match a with Ok a => a :: out | _ => out end) = out) by (destruct a as [y|m|]; [by destruct (Hne y)|done..]). rewrite E. exists last'. split_and!; [done..| |cbn; lia].
    intros Hl. cbn in Hl. lia.
Qed.

(** C24: polling loses nothing and repeats nothing. However many polls fail on the way, the
    answers of those that succeed add up to the changes from the block the filter was
    installed at to some later head, each once and in order: block hashes for a block
    filter, the matching logs within the criteria for a log filter. When every poll
    succeeds that head is the last poll's, and the next poll goes on from there. *)
Theorem filter_polls_exact id f l r h0 : kind f = 98 \/ kind f = 108 -> Forall truthful l -> at_ r id f h0 -> 0 <= h0 -> rising h0 l ->
  exists h, h0 <= h /\ at_ (polls r id l).1 id f h /\
    hashes_of (polls r id l).2 = (if kind f =? 98 then map hash (seqZ (h0 + 1) (h - h0)) else []) /\
    logs_of (polls r id l).2 = (if kind f =? 98 then [] else
      List.filter (logMatches (faddrs f) (ftopics f)) (concat (map logs (seqZ (Z.max (ffrom f) (h0 + 1)) (Z.min (fto f) h - Z.max (ffrom f) (h0 + 1) + 1))))) /\
    (length (polls r id l).2 = length l -> h = final h0 l).
Proof.
  intros Hk Hl Hat H0 Hr. destruct (polls_exact id f l Hk Hl r h0 Hat H0 Hr) as (h & Hh & Hat' & E1 & E2 & Hf & _). exists h. rewrite E1, E2.
  unfold hashes_of, logs_of, due, block_seg, seg. split_and!; [done|done| | |done]; destruct (kind f =? 98); cbn [map concat]; rewrite ?app_nil_r; done.
Qed.

(** A log filter installed once its last block is there never reports a log. *)
Lemma reached_silent id f l r h0 : kind f = 108 -> Forall truthful l -> at_ r id f h0 -> 0 <= h0 -> rising h0 l -> fto f <= h0 ->
  logs_of (polls r id l).2 = [].
Proof.
  intros Hk Hl Hat H0 Hr Hto. destruct (polls_exact id f l (or_intror Hk) Hl r h0 Hat H0 Hr) as (h & Hh & _ & _ & E & _). rewrite E. unfold logs_of, due. rewrite Hk.
  cbn [Z.eqb Pos.eqb map concat]. unfold seg. by rewrite seqZ_nil by lia.
Qed.

(** C25: a log filter up to the latest block is silent. The criteria of a stored filter
    resolve an absent or latest toBlock to the head of that moment, so, however the
    chain grows, no poll of it ever reports a log. *)
Theorem latest_filter_silent unmarshal_address unmarshal_hash unmarshal_addresses unmarshal_hashes heightOfHashTag
    r id h1 h2 h3 live1 live2 fromBlock address topics r' l :
  0 <= h2 -> h2 <= h3 ->
  newFilter r id h3 (parseFilterCriteria unmarshal_address unmarshal_hash unmarshal_addresses unmarshal_hashes heightOfHashTag
    h1 h2 live1 live2 None fromBlock Latest address topics) = Ok r' ->
  Forall truthful l -> rising h3 l -> logs_of (polls r' id l).2 = [].
Proof.
  intros H0 H23 E Ht Hr. unfold newFilter in E. apply rbind_Ok in E as ([[[from to] addrs] ts] & Ec & [= <-]).
  unfold parseFilterCriteria in Ec. apply rbind_Ok in Ec as (from' & _ & Ec). cbn [blockNumber rbind] in Ec.
  destruct (h2 <? _); [done|]. destruct (GetLogsMaxRange <? _); [done|]. apply rbind_Ok in Ec as ([a t] & _ & [= <- <- <- <-]).
  apply (reached_silent id (MkEntry 108 (if from' =? 0 then 1 else from') h2 a t h3) l _ h3); [done|done|by unfold at_; rewrite lookup_insert_eq|lia|done|cbn; lia].
Qed.

End Exact.

(** ** The chain of two blocks of Logs.v *)

Definition t_hash (n : Z) : bytes := bHash (t_blk n).
Definition t_logs (h : Z) : list Log := blogs t_first t_blk t_rlogs h.

Lemma t_truthful head : truthful t_hash t_logs (t_source, head).
Proof.
  split.
  - intros n b E. injection E as <-. reflexivity.
  - intros lo hi addrs topics out Hle E. cbn [fst] in E. destruct (decide (1 <= lo /\ hi <= 2)) as [[H1 H2]|Hn].
    + rewrite (@runGetLogs_ok t_source 2 t_first t_blk t_rlogs t_posts t_laws lo hi addrs topics H1 Hle H2) in E. injection E as <-. reflexivity.
    + exfalso. unfold runGetLogs, logCandidates, txRangeOf in E. cbn [BlockTxRange t_source rbind] in E.
      destruct (Z.leb_spec 1 lo), (Z.leb_spec lo 2); cbn [andb rbind] in E; try discriminate E.
      destruct (Z.leb_spec 1 hi), (Z.leb_spec hi 2); cbn [andb rbind] in E; try discriminate E. lia.
Qed.

Lemma t_polls head1 head2 : 0 <= head1 <= head2 -> head2 < 2 ^ 63 -> Forall (truthful t_hash t_logs) [(t_source, head1); (t_source, head2)] /\ rising 0 [(t_source, head1); (t_source, head2)].
Proof.
  intros H1 H2. split; [constructor; [apply t_truthful|constructor; [apply t_truthful|constructor]]|]. cbn [rising]. split; [lia|]. split; [lia|exact I].
Qed.

Lemma filter_polls_exact_witness : exists h, 0 <= h /\
  hashes_of (polls (newBlockFilter ∅ [1] 0) [1] [(t_source, 1); (t_source, 2)]).2 = map t_hash (seqZ 1 h).
Proof.
  destruct (t_polls 1 2 ltac:(lia) ltac:(lia)) as [Ht Hr].
  destruct (filter_polls_exact t_hash t_logs [1] (MkEntry 98 0 0 [] [] 0) [(t_source, 1); (t_source, 2)] (newBlockFilter ∅ [1] 0) 0 (or_introl eq_refl) Ht) as (h & Hh & _ & E & _).
  - unfold at_, newBlockFilter. apply lookup_insert_eq.
  - lia.
  - exact Hr.
  - exists h. split; [exact Hh|]. rewrite E. cbn [kind Z.eqb Pos.eqb]. rewrite Z.sub_0_r. reflexivity.
Defined.

Lemma latest_filter_silent_witness : exists r,
  newFilter ∅ [1] 1 (parseFilterCriteria (fun _ => None) (fun _ => None) (fun _ => None) (fun _ => None) (fun _ => Err "unknown") 1 1 None None None Earliest Latest [] []) = Ok r /\
  logs_of (polls r [1] [(t_source, 2)]).2 = [].
Proof.
  eexists. split; [reflexivity|].
  apply (latest_filter_silent t_hash t_logs (fun _ => None) (fun _ => None) (fun _ => None) (fun _ => None) (fun _ => Err "unknown") ∅ [1] 1 1 1 None None Earliest [] []).
  - lia.
  - lia.
  - reflexivity.
  - constructor; [apply t_truthful|constructor].
  - cbn [rising]. split; [lia|exact I].
Defined.

End Filters.
